(* ===== verification/_CoqProject ===== *)
-Q . S2P
Prelude.v
Types.v
Lock.v
Acquire.v
Deadlock.v
Storage.v
Mvcc.v
WalRecord.v
Page.v
Heap.v
Wal.v
Pool.v
PoolInv.v
PoolPins.v
PagedTable.v
PagedInv.v
PagedRefine.v
BTree.v
BTreeNode.v
BTreeShape.v
BTreeInv.v
BTreeRefine.v
Ssi.v
Txn.v
TxnInv.v
TxnMvcc.v
TxnIso.v
Startup.v
LockLaws.v
GapLock.v
Txn2pl.v
Raft.v
RaftElection.v
RaftLog.v
RaftLive.v
RaftFsm.v
Transport.v
Api.v
ApiTypes.v
Scenario.v
Metrics.v
Sse.v
Jobs.v
Middleware.v
Router.v
Tpcb.v
Bank.v
