(* ===== verification/Prelude.v ===== *)
(** * A transaction manager and its replication, verified

    The program under [src/] is a transaction manager in Go: two-phase
    locking and multi-version concurrency control over in-memory or paged
    tables, a write-ahead log with recovery, deadlock detection, replication
    by Raft and an HTTP API on top. This library translates its core into Rocq
    functions and proves what makes it correct; where the code does less
    than it means to, a theorem or a closed run shows it.

    ** The parts and their files

    - [Prelude]: results, tactics, hint databases, lemmas on lists, maps and
      64-bit words that the components share.
    - [Types]: [internal/types] - values, [Compare], the error type and the
      byte codec of values.
    - [Lock], [Acquire], [LockLaws]: [internal/lock] - modes, resources,
      queues and held sets; the acquisition protocol with waiting cut at its
      [select]; and the laws other components rely on (class
      [LockServiceLaws]) with their proof for this lock manager.
    - [Deadlock]: [internal/deadlock] - wait-for graph, cycle search, one
      tick of the detector, history, wait-die and wound-wait. The graph is
      reached from the lock manager through the class [WFGInterface].
    - [Storage]: [internal/storage] row.go, table.go, catalog.go, seed.go,
      encode.go - tables, the catalog, the row codec.
    - [Mvcc]: [internal/mvcc] - versions, chains, visibility, conflict
      check, store, pruning. The interfaces of visibility.go are classes.
    - [WalRecord], [Wal]: [internal/wal] - the record format with its CRC,
      the log manager with failing writes, checkpoints, the three passes of
      recovery, and the storage applier of [cmd/server/main.go].
    - [Page], [Heap], [Pool]: [internal/storage] page.go, heap.go,
      buffer_pool.go - slotted pages as arrays of bytes, heap files with
      their meta page and free list, the buffer pool with pins, eviction and
      the flush of the log before a page. [PoolInv] and [PoolPins] hold the
      pool's invariants.
    - [PagedTable], [PagedInv], [PagedRefine]: paged_table.go - tables of
      rows on pages, over an index given by a class; their refinement of the
      in-memory table.
    - [BTree], [BTreeNode], [BTreeShape], [BTreeInv], [BTreeRefine]:
      btree.go - the B+ tree over the pool, the codec of its nodes, the
      shape of a tree, its invariant on pages, and its refinement of a
      sorted association list, which makes it an index of [PagedTable].
    - [Ssi]: [internal/isolation/ssi.go] - rw-antidependencies and pivots.
    - [Txn]: [internal/txn] - transactions, snapshots, undo logs, savepoints
      and every operation of the manager, over the classes [LockService] and
      [WALWriter]. [TxnInv], [TxnMvcc], [TxnIso] and [Txn2pl] hold its
      theorems: life cycle, version store, snapshot isolation, strict 2PL.
    - [Startup]: [cmd/server/main.go] - the manager set up from the
      recovered log.
    - [GapLock]: [internal/txn/gap_lock.go] - range-scan and insert locks
      and the 2PL scan.
    - [Raft], [RaftElection], [RaftLog], [RaftLive], [RaftFsm]:
      [internal/raft] - log file, messages and node; the cluster as a
      network; replication and commit; progress of proposals; the state
      machine that applies commands to the manager.
    - [Transport]: [internal/raft/transport.go] - frames, the server's loop
      on a connection, and the goroutines of a node that send requests to a
      peer over connections that break.
    - [Api], [ApiTypes]: [api] helpers.go, config.go, handlers_txn.go,
      handlers_ops.go, raft_wire.go - the handlers as functions from the
      server's state and a decoded request to the new state and a response.
    - [Scenario]: [internal/scenario] - the seven anomaly scenarios as
      programs over a manager of their own, the deadlock scenario as two
      goroutines under every schedule.
    - [Metrics]: [internal/metrics] - histogram, percentiles, status classes.
    - [Sse], [Jobs]: [api] sse.go, handlers_scenario.go - the event bus with
      its concurrent subscribers; the table of benchmark jobs.
    - [Middleware]: [api/apiwire] - the middleware as functions on handlers.
    - [Router]: [api] server.go, handlers_infra.go, handlers_scenario.go -
      the other endpoints and all routes behind the middleware.
    - [Tpcb], [Bank]: [benchmark/tpcb.go] - the benchmark's transactions as
      steps of workers on a manager, and what each protocol gives them.

    ** How the code is represented

    A Go function that returns an error is a function into [result]; a
    run-time panic is [None]. Machine integers are [N] or [Z] with the
    wrap-around written out ([u64_add], [u64_sub], [int_of_u64]). Maps are
    [gmap], sets [gset]; where Go's iteration order matters (the cycle
    search), the order is a parameter. A method that runs under one mutex is
    one function on the state; a method that waits is cut at the wait
    ([acquire], [wait_granted], [wait_cancelled]; the RPCs of [Raft]), one
    that gives up its mutex on the way is cut there ([apply_step],
    [install_begin], [evict_pick], [Publish_send]), and runs are sequences
    of such parts. Failing I/O is an argument of the operation or a field of
    the file: how many bytes of a flush reached the log ([FlushIO],
    [DiskIO]), how the coming writes of a heap file end ([hf_io]), whether
    the state file was saved. Code outside the repository is a parameter:
    the gob encodings ([GobATT], [GobEntry], [GobPayload]), with their round
    trip as hypothesis where a theorem needs it.

    ** What is shown

    - Locks: in every reachable state of the protocol the held modes and the
      grants of one resource are compatible and no channel is closed twice,
      as long as no queue is deleted between a lookup and its lock; releases
      leave nothing behind, the waiting list is granted by longest
      compatible prefix.
    - Deadlocks: the cycle search reports a path exactly when the graph has a
      cycle, for every iteration order (the path names its closing node
      twice), repeated ticks drain every cycle, the prevention policies
      admit no cycle.
    - Snapshot isolation: fixed snapshots read repeatably whatever others
      do, a read returns the newest visible version, every outcome of a
      write, aborts leave no version behind, vacuum keeps what running
      snapshots read under the stated bound; savepoint rollbacks, resets and
      other vacuums are excluded by name where they break this.
    - Strict 2PL: a written row is neither read nor changed by others until
      the writer ends; an abort restores it when its writes are reversible.
      Range scans and [LockForInsert] exclude each other on a table that
      does not change in between.
    - Log: records round-trip, scans stop exactly at a torn tail; while no
      write fails, flushed records survive a crash, and on logs without
      checkpoints recovery redoes the writes of the committed transactions
      and no others, and replay leaves the last writer's values.
    - Pages: a page gives the answers of its list of slots through any
      operations and trips to disk; while heap writes succeed every page of
      the pool is what was last written to it however small the pool is, and
      in any case the log is flushed before [FlushPage] touches a page;
      table name and free list come back from the meta page when they fit.
      A paged table refines the in-memory one while rows, keys and free list
      fit their pages, and survives a restart once its pages are written;
      the B+ tree refines a sorted association list through splits and
      deletes, and its nodes come back from their pages.
    - Restart: when no log write failed, a server restarted after a crash
      serves what the committed transactions of the surviving log wrote, and
      every flushed record survives.
    - Raft: at most one leader per term over all runs of a network with
      losses, failing saves, and restarts of nodes whose state file is up to
      date; replication, the commit rule, in-order application; a proposal
      that a majority accepts is answered; the log file and the snapshot
      round-trip; a request that has the connection to itself gets its own
      reply or an error.
    - API: rows written through the handlers have the types of their table's
      columns; the destructive endpoints need the admin token; what the
      middleware does to every request whose handler returns; the limits of
      the event bus and of the benchmark jobs, and what a subscriber gets.
    - Benchmark: a run with one worker refines a ledger under both
      protocols, by an interface that each protocol implements.
    - Scenarios: their verdicts at every isolation level and protocol, and
      every schedule of the deadlock scenario.
    - Where the code falls short, for every state that meets the conditions:
      an eviction drops the frame although the log or the page could not be
      written ([evict_ignores_errors]), a lookup before the deletion of an
      empty queue lets two transactions hold one lock
      ([deleted_queue_two_holders]), after a snapshot installed during
      an apply the node applies nothing more ([snapshot_during_apply]).
    - Runs in which the code falls short: lost updates, vacuum that changes
      reads, savepoint rollbacks without effect under MVCC, write skew after
      commit, flushed LSNs without records, upgrades that give up a lock,
      stale wait-for edges, phantoms and dirty scans, entries lost on a Raft
      conflict, replies that reach another goroutine, snapshots that empty
      the log, followers that diverge, rows lost by paged tables, a B+ tree
      that loses its root on a restart, identifiers reused after a restart,
      rolled-back writes that come back, scenarios that report what did not
      happen, a benchmark that loses money unnoticed.

    ** Bounds and fuel

    The loops over bytes (record scan, log file, value decoder) get the
    number of bytes as fuel and consume at least one byte per round, so the
    fuel suffices; [FindCycle] gets the number of nodes plus one; the apply
    loop gets the distance between the indexes plus one; the walks over the
    B+ tree get the number of pages plus one, which is more than its height
    and its number of leaves; the eviction of jobs gets the number of
    finished ones. Theorems that need a 64-bit counter not to wrap say so.
    The percentiles are computed on integers, which agrees with the code
    below 2^46 observations; the token buckets are in binary64.

    ** Not modelled

    Timers other than those of the deadlock scenario, goroutine start and
    stop, contexts and cancellation other than the abort channel: they are
    the run-time's, and runs are given as sequences of steps instead. The
    manager's callbacks and the log lines of handlers, which nothing reads
    back. The window in which an eviction gives up the pool's mutex: the
    parts of [evictLocked] run in one piece. Gob, which is a parameter with
    its round trip as a law. Path matching, recovery from panics and the
    limit on request bodies, which are libraries' code. The web front end,
    which is not Go. *)

From Stdlib Require Import ZArith NArith Lia Strings.Byte Ascii String Sorted Permutation.
From stdpp Require Import base tactics numbers list gmap strings fin_maps.

(** ** Fallible results

    A Go function returning [(T, error)] becomes a function into
    [result E T]; a Go run-time panic (index out of range, close of a closed
    channel) is [None] of an [option] around it. *)

Inductive result (E A : Type) : Type :=
| Ok (a : A)
| Err (e : E).
Arguments Ok {E A} _.
Arguments Err {E A} _.

Definition result_bind {E A B} (r : result E A) (f : A -> result E B) : result E B :=
  match r with
  | Ok a => f a
  | Err e => Err e
  end.

Definition is_ok {E A} (r : result E A) : bool :=
  match r with Ok _ => true | Err _ => false end.

Declare Scope txn_scope.
Delimit Scope txn_scope with txn.

Notation "'let?' x ':=' r 'in' k" := (result_bind r (fun x => k))
  (at level 10, x pattern, r at level 100, k at level 200) : txn_scope.

#[global] Open Scope txn_scope.

(** ** Automation *)

Create HintDb txn.
Create Rewrite HintDb txn.

(** Case analysis on the first [match] of the goal or a hypothesis, and
    clean-up: the workhorse for functions written as nested matches. *)
Ltac case_step :=
  match goal with
  | H : context [match ?x with _ => _ end] |- _ => destruct x eqn:?
  | |- context [match ?x with _ => _ end] => destruct x eqn:?
  end; simplify_eq/=.

Ltac cases := repeat case_step; try done.

(** Boolean tests of the code, turned into propositions. *)
Ltac breflect :=
  repeat match goal with
  | H : andb _ _ = true |- _ => apply andb_true_iff in H; destruct H
  | H : andb _ _ = false |- _ => apply andb_false_iff in H
  | H : orb _ _ = false |- _ => apply orb_false_iff in H; destruct H
  | H : orb _ _ = true |- _ => apply orb_true_iff in H
  | H : negb _ = true |- _ => apply negb_true_iff in H
  | H : negb _ = false |- _ => apply negb_false_iff in H
  | H : N.eqb _ _ = true |- _ => apply N.eqb_eq in H
  | H : N.eqb _ _ = false |- _ => apply N.eqb_neq in H
  | H : N.ltb _ _ = true |- _ => apply N.ltb_lt in H
  | H : N.ltb _ _ = false |- _ => apply N.ltb_ge in H
  | H : N.leb _ _ = true |- _ => apply N.leb_le in H
  | H : N.leb _ _ = false |- _ => apply N.leb_gt in H
  | H : Nat.eqb _ _ = true |- _ => apply Nat.eqb_eq in H
  | H : Nat.eqb _ _ = false |- _ => apply Nat.eqb_neq in H
  | H : Nat.ltb _ _ = true |- _ => apply Nat.ltb_lt in H
  | H : Nat.ltb _ _ = false |- _ => apply Nat.ltb_ge in H
  | H : Nat.leb _ _ = true |- _ => apply Nat.leb_le in H
  | H : Nat.leb _ _ = false |- _ => apply Nat.leb_gt in H
  | H : bool_decide _ = true |- _ => apply bool_decide_eq_true in H
  | H : bool_decide _ = false |- _ => apply bool_decide_eq_false in H
  end.

(** ** 64-bit unsigned integers

    [uint64] values are [N] below [2^64]; the wrap-around of an addition is
    written out with [u64_add]. *)

Definition two64 : N := 18446744073709551616%N.

Definition u64_add (a b : N) : N := ((a + b) mod two64)%N.

Lemma u64_add_small (a b : N) : (a + b < two64)%N -> u64_add a b = (a + b)%N.
Proof. intros H. unfold u64_add. by apply N.mod_small. Qed.

Definition u64_sub (a b : N) : N := ((a + (two64 - b)) mod two64)%N.

Lemma u64_sub_small (a b : N) : (b <= a)%N -> (a < two64)%N -> u64_sub a b = (a - b)%N.
Proof.
  intros Hb Ha. unfold u64_sub. replace (a + (two64 - b))%N with (a - b + 1 * two64)%N by lia.
  rewrite N.Div0.mod_add. apply N.mod_small. lia.
Qed.

(** ** Little-endian byte codecs ([encoding/binary]) *)

Definition byte_of_N (n : N) : byte :=
  match Byte.of_N (n mod 256) with Some b => b | None => x00 end.

Fixpoint le_put (w : nat) (v : N) : list byte :=
  match w with
  | O => []
  | S w => byte_of_N v :: le_put w (v / 256)%N
  end.

Fixpoint le_get (bs : list byte) : N :=
  match bs with
  | [] => 0%N
  | b :: bs => (Byte.to_N b + 256 * le_get bs)%N
  end.

Lemma to_N_byte_of_N (n : N) : Byte.to_N (byte_of_N n) = (n mod 256)%N.
Proof.
  unfold byte_of_N. destruct (Byte.of_N (n mod 256)) as [b|] eqn:E.
  - by apply Byte.to_of_N in E.
  - apply Byte.of_N_None_iff in E.
    pose proof (N.mod_lt n 256). lia.
Qed.

Lemma le_put_length w v : length (le_put w v) = w.
Proof. revert v. induction w; intros v; simpl; [done | by rewrite IHw]. Qed.

Lemma le_get_put w v : le_get (le_put w v) = (v mod 256 ^ N.of_nat w)%N.
Proof.
  revert v. induction w as [|w IH]; intros v.
  - simpl. by rewrite N.mod_1_r.
  - cbn [le_put le_get]. rewrite IH, to_N_byte_of_N.
    rewrite Nat2N.inj_succ, N.pow_succ_r'.
    rewrite N.Div0.mod_mul_r. lia.
Qed.

Lemma le_get_put_small w v :
  (v < 256 ^ N.of_nat w)%N -> le_get (le_put w v) = v.
Proof. intros H. rewrite le_get_put. by apply N.mod_small. Qed.

Lemma byte_of_N_to_N (b : byte) : byte_of_N (Byte.to_N b) = b.
Proof.
  unfold byte_of_N. pose proof (Byte.to_N_bounded b).
  rewrite N.mod_small by lia. by rewrite Byte.of_to_N.
Qed.

Lemma le_get_bound bs : (le_get bs < 256 ^ N.of_nat (length bs))%N.
Proof.
  induction bs as [|b bs IH]; [simpl; lia|].
  cbn [le_get length]. rewrite Nat2N.inj_succ, N.pow_succ_r'.
  pose proof (Byte.to_N_bounded b). lia.
Qed.

Lemma le_put_get bs : le_put (length bs) (le_get bs) = bs.
Proof.
  induction bs as [|b bs IH]; [done|].
  cbn [length le_put le_get]. pose proof (Byte.to_N_bounded b) as Hb.
  f_equal.
  - unfold byte_of_N. rewrite N.mul_comm, N.Div0.mod_add, N.mod_small by lia.
    by rewrite Byte.of_to_N.
  - rewrite N.mul_comm, N.div_add, N.div_small by lia. exact IH.
Qed.

Lemma le_get_inj bs1 bs2 :
  length bs1 = length bs2 -> le_get bs1 = le_get bs2 -> bs1 = bs2.
Proof. intros Hl H. rewrite <-(le_put_get bs1), <-(le_put_get bs2). by rewrite Hl, H. Qed.

(** Proofs reason about the codecs through the lemmas above. *)
#[global] Opaque le_put le_get.

#[export] Hint Rewrite le_put_length le_get_put @length_app @length_take @length_drop : txn.

(** ** Go slices

    [buf := make([]byte, size)] followed by sequential writes from offset 0:
    [fill] panics when the writes run past the end and leaves zero bytes
    behind them when they do not reach it. *)

Definition fill (size : nat) (written : list byte) : option (list byte) :=
  if length written <=? size
  then Some (written ++ replicate (size - length written) x00)
  else None.

Lemma fill_exact bs : fill (length bs) bs = Some bs.
Proof.
  unfold fill. rewrite Nat.leb_refl, Nat.sub_diag. simpl. by rewrite app_nil_r.
Qed.

(** Reading back a field written in front of other bytes. *)
Lemma take_le_put w v rest : take w (le_put w v ++ rest) = le_put w v.
Proof. apply take_app_length'. by rewrite le_put_length. Qed.

Lemma drop_le_put w v rest : drop w (le_put w v ++ rest) = rest.
Proof. apply drop_app_length'. by rewrite le_put_length. Qed.

Lemma le_get_field w v rest :
  (v < 256 ^ N.of_nat w)%N -> le_get (take w (le_put w v ++ rest)) = v.
Proof. intros H. rewrite take_le_put. by apply le_get_put_small. Qed.

#[export] Hint Rewrite take_le_put drop_le_put : txn.

(** [b[lo:hi]]: out-of-range bounds panic. *)
Definition slice {A} (b : list A) (lo hi : nat) : option (list A) :=
  if (lo <=? hi) && (hi <=? length b) then Some (take (hi - lo) (drop lo b)) else None.

(** ** Byte strings

    Go strings are byte sequences; [string] is Rocq's list of 8-bit
    characters and the conversions are those of the standard library. *)

Definition bytes_of_string (s : string) : list byte := list_byte_of_string s.
Definition string_of_bytes (b : list byte) : string := string_of_list_byte b.

Lemma string_of_bytes_of_string s : string_of_bytes (bytes_of_string s) = s.
Proof. apply string_of_list_byte_of_string. Qed.

Lemma bytes_of_string_of_bytes b : bytes_of_string (string_of_bytes b) = b.
Proof. apply list_byte_of_string_of_list_byte. Qed.

Lemma length_bytes_of_string s : length (bytes_of_string s) = String.length s.
Proof.
  unfold bytes_of_string, list_byte_of_string. rewrite length_map.
  induction s; simpl; congruence.
Qed.

#[global] Opaque bytes_of_string string_of_bytes.

#[export] Hint Rewrite string_of_bytes_of_string bytes_of_string_of_bytes length_bytes_of_string : txn.

Lemma length_append (s t : string) :
  String.length (s +:+ t) = String.length s + String.length t.
Proof. induction s as [|c s IH]; simpl; [done|]. by rewrite IH. Qed.

(** ** Byte-wise string order

    Go compares strings byte by byte; [String.compare] does the same. *)

Definition str_lt (a b : string) : Prop := String.ltb a b = true.

Lemma str_lt_le (a b : string) : str_lt a b <-> String.le a b /\ a <> b.
Proof.
  unfold str_lt, String.ltb, String.le, String.leb.
  destruct (a ?= b)%string eqn:E; split; try done.
  - intros [_ Hne]. by apply String.compare_eq_iff in E.
  - intros _. split; [done|]. intros ->.
    pose proof (String.compare_antisym b b) as Ha. rewrite E in Ha. done.
  - intros [H _]. done.
Qed.

#[export] Instance str_lt_strict : StrictOrder str_lt.
Proof.
  split.
  - intros a [_ H]%str_lt_le. done.
  - intros a b c [H1 N1]%str_lt_le [H2 N2]%str_lt_le. apply str_lt_le. split.
    + by etrans.
    + intros ->. apply N1. by apply (anti_symm String.le).
Qed.

Lemma str_total (a b : string) : str_lt a b \/ a = b \/ str_lt b a.
Proof.
  unfold str_lt, String.ltb. rewrite (String.compare_antisym b a).
  destruct (a ?= b)%string eqn:E; simpl; auto.
  right; left. by apply String.compare_eq_iff.
Qed.

Lemma str_ltb_false (a b : string) : String.ltb a b = false -> a = b \/ str_lt b a.
Proof.
  intros H. destruct (str_total a b) as [Hl|[He|Hg]]; auto.
  unfold str_lt in Hl. congruence.
Qed.

Lemma str_lt_asym (a b : string) : str_lt a b -> ~ str_lt b a.
Proof. intros H1 H2. exact (irreflexivity str_lt a (transitivity H1 H2)). Qed.

Lemma str_ltb_asym (a b : string) : str_lt a b -> String.ltb b a = false.
Proof.
  intros H. destruct (String.ltb b a) eqn:E; [|done]. by apply str_lt_asym in H.
Qed.

Lemma str_ltb_irrefl (a : string) : String.ltb a a = false.
Proof.
  destruct (String.ltb a a) eqn:E; [|done]. by apply (irreflexivity str_lt) in E.
Qed.

#[export] Instance str_lt_dec : RelDecision str_lt.
Proof. intros a b. unfold str_lt. apply _. Defined.

(** The empty string is the least one. *)
Lemma str_lt_empty (a : string) : a <> EmptyString -> str_lt EmptyString a.
Proof. destruct a; done. Qed.
