(* ===== verification/Types.v ===== *)
(** * Values and errors ([internal/types])

    [Value] with its constructors, the three-way comparison [Compare], the
    structured error [TxnError], and the binary codec [EncodeValues] /
    [DecodeValues] that the WAL, the pages and the Raft snapshot use. *)

From Stdlib Require Import ZArith NArith Lia Strings.Byte Ascii String.
From Stdlib Require Import Floats.SpecFloat.
From stdpp Require Import base tactics numbers list strings.
From S2P Require Import Prelude.

(** ** errors.go *)

Inductive ErrorCode :=
| ErrDeadlock | ErrWriteConflict | ErrSerializationFailure | ErrLockTimeout
| ErrTxnAborted | ErrTxnCommitted | ErrTxnNotFound | ErrRowNotFound
| ErrDuplicateKey | ErrTableNotFound | ErrInvalidIsolation
| ErrSavepointNotFound | ErrWounded | ErrInvalidRowShape.

#[export] Instance ErrorCode_eq_dec : EqDecision ErrorCode.
Proof. solve_decision. Defined.

(** The stable strings of the constants, as they appear in JSON. *)
Definition ErrorCode_string (c : ErrorCode) : string :=
  match c with
  | ErrDeadlock => "DEADLOCK"
  | ErrWriteConflict => "WRITE_CONFLICT"
  | ErrSerializationFailure => "SERIALIZATION_FAILURE"
  | ErrLockTimeout => "LOCK_TIMEOUT"
  | ErrTxnAborted => "TXN_ABORTED"
  | ErrTxnCommitted => "TXN_COMMITTED"
  | ErrTxnNotFound => "TXN_NOT_FOUND"
  | ErrRowNotFound => "ROW_NOT_FOUND"
  | ErrDuplicateKey => "DUPLICATE_KEY"
  | ErrTableNotFound => "TABLE_NOT_FOUND"
  | ErrInvalidIsolation => "INVALID_ISOLATION"
  | ErrSavepointNotFound => "SAVEPOINT_NOT_FOUND"
  | ErrWounded => "WOUNDED"
  | ErrInvalidRowShape => "INVALID_ROW_SHAPE"
  end.

Record TxnError := mkTxnError {
  e_Code : ErrorCode;
  e_Message : string;
  e_TxnID : N;
  e_ConflictingTxn : N;
  e_Resource : string;
  e_RetryAfterMs : Z;
}.

Definition txnError (c : ErrorCode) (msg : string) : TxnError :=
  mkTxnError c msg 0 0 "" 0.

Definition TxnError_Error (e : TxnError) : string :=
  (ErrorCode_string (e_Code e) ++ ": " ++ e_Message e)%string.

(** [errors.Is] on two [*TxnError]: same code. *)
Definition TxnError_Is (e target : TxnError) : bool :=
  bool_decide (e_Code e = e_Code target).

Definition NewDeadlockError : TxnError := txnError ErrDeadlock "deadlock detected".
Definition NewWriteConflictError (conflicting : N) : TxnError :=
  mkTxnError ErrWriteConflict "write-write conflict" 0 conflicting "" 0.
Definition NewSerializationFailure : TxnError :=
  txnError ErrSerializationFailure "SSI detected dangerous structure".
Definition NewLockTimeoutError : TxnError :=
  txnError ErrLockTimeout "lock acquisition timed out".
Definition NewTxnAbortedError : TxnError := txnError ErrTxnAborted "transaction was aborted".
Definition NewTxnCommittedError (id : N) : TxnError :=
  mkTxnError ErrTxnCommitted "transaction already committed" id 0 "" 0.
Definition NewTxnNotFoundError (id : N) : TxnError :=
  mkTxnError ErrTxnNotFound "transaction not found" id 0 "" 0.
Definition NewRowNotFoundError : TxnError := txnError ErrRowNotFound "row not found".
Definition NewDuplicateKeyError : TxnError := txnError ErrDuplicateKey "duplicate key".
(** [%q] quotes the name; for names of printable characters without quotes
    and backslashes this is the name between double quotes. *)
Definition dquote : string := String (Ascii.ascii_of_nat 34) EmptyString.
Definition NewTableNotFoundError (name : string) : TxnError :=
  txnError ErrTableNotFound ("table " ++ dquote ++ name ++ dquote ++ " not found").
Definition NewRowShapeError (detail : string) : TxnError :=
  txnError ErrInvalidRowShape detail.

(** A Go [error] value: a structured one, or any other with its text. *)
Inductive GoError :=
| ETxn (e : TxnError)
| EOther (msg : string).

(** ** value.go *)

(** [ValueType] is a Go [int]; the five constants are the declared ones. *)
Definition TypeNull : Z := 0.
Definition TypeInt : Z := 1.
Definition TypeFloat : Z := 2.
Definition TypeText : Z := 3.
Definition TypeBool : Z := 4.

(** A [float64] is its IEEE-754 bit pattern, so that [math.Float64bits] and
    [math.Float64frombits] are the identity (NaN payloads included);
    arithmetic goes through [float_of_bits]. *)
Record Value := mkValue {
  v_Type : Z;
  v_IsNull : bool;
  v_Int : Z;
  v_Float : N;
  v_Text : string;
  v_Bool : bool;
}.

#[export] Instance Value_eq_dec : EqDecision Value.
Proof. solve_decision. Defined.

Definition zeroValue : Value := mkValue 0 false 0 0 "" false.

Definition NullVal : Value := mkValue TypeNull true 0 0 "" false.
Definition IntVal (n : Z) : Value := mkValue TypeInt false n 0 "" false.
Definition FloatVal (f : N) : Value := mkValue TypeFloat false 0 f "" false.
Definition TextVal (s : string) : Value := mkValue TypeText false 0 0 s false.
Definition BoolVal (b : bool) : Value := mkValue TypeBool false 0 0 "" b.

(** binary64: 53 bits of precision, maximal exponent 1024. *)
Definition prec64 : Z := 53.
Definition emax64 : Z := 1024.

Definition float_of_bits (b : N) : spec_float :=
  let s := N.testbit b 63 in
  let e := N.land (N.shiftr b 52) 2047 in
  let f := N.land b (N.ones 52) in
  match e with
  | 0%N => match f with
           | N0 => S754_zero s
           | Npos p => S754_finite s p (-1074)
           end
  | 2047%N => match f with
              | N0 => S754_infinity s
              | Npos _ => S754_nan
              end
  | _ => match (f + N.shiftl 1 52)%N with
         | N0 => S754_nan
         | Npos p => S754_finite s p (Z.of_N e - 1075)
         end
  end.

(** [float64(n)] of an [int64]: round to nearest even. *)
Definition float_of_int (n : Z) : spec_float := binary_normalize prec64 emax64 n 0 false.

(** The literal [1e-10] as a [float64]. *)
Definition epsilon : spec_float := float_of_bits 4457293557087583675.

Inductive CompareError :=
| ErrNullComparison
| ErrCannotCompare (t1 t2 : Z)
| ErrUnsupportedType (t : Z).

Definition is_numeric (t : Z) : bool := (t =? TypeInt)%Z || (t =? TypeFloat)%Z.

Definition as_float (v : Value) : spec_float :=
  if (v_Type v =? TypeInt)%Z then float_of_int (v_Int v) else float_of_bits (v_Float v).

Definition Compare (v other : Value) : result CompareError Z :=
  if v_IsNull v || v_IsNull other then Err ErrNullComparison
  else if is_numeric (v_Type v) && is_numeric (v_Type other) then
    let a := as_float v in
    let b := as_float other in
    if SFltb (SFabs (SFsub prec64 emax64 a b)) epsilon then Ok 0%Z
    else if SFltb a b then Ok (-1)%Z
    else Ok 1%Z
  else if negb (v_Type v =? v_Type other)%Z then
    Err (ErrCannotCompare (v_Type v) (v_Type other))
  else if (v_Type v =? TypeText)%Z then
    if String.eqb (v_Text v) (v_Text other) then Ok 0%Z
    else if String.ltb (v_Text v) (v_Text other) then Ok (-1)%Z
    else Ok 1%Z
  else if (v_Type v =? TypeBool)%Z then
    if Bool.eqb (v_Bool v) (v_Bool other) then Ok 0%Z
    else if negb (v_Bool v) && v_Bool other then Ok (-1)%Z
    else Ok 1%Z
  else Err (ErrUnsupportedType (v_Type v)).

(** [MustCompare]: an error panics. *)
Definition MustCompare (a b : Value) : option Z :=
  match Compare a b with
  | Err _ => None
  | Ok r => Some r
  end.

Definition Value_Equal (v other : Value) : bool :=
  match Compare v other with
  | Err _ => false
  | Ok r => (r =? 0)%Z
  end.

(** ** encode.go *)

(** [uint64(x)] of an [int64] and back. *)
Definition u64_of_int (z : Z) : N := Z.to_N (z mod 2 ^ 64)%Z.
Definition int_of_u64 (n : N) : Z :=
  if (Z.of_N n <? 2 ^ 63)%Z then Z.of_N n else (Z.of_N n - 2 ^ 64)%Z.

(** The size the first loop of [EncodeValues] adds up for one value. *)
Definition encodedValueSize (v : Value) : nat :=
  2 + if v_IsNull v then 0
      else if (v_Type v =? TypeInt)%Z then 8
      else if (v_Type v =? TypeFloat)%Z then 8
      else if (v_Type v =? TypeText)%Z then 2 + String.length (v_Text v)
      else if (v_Type v =? TypeBool)%Z then 1
      else 0.

(** The bytes the second loop writes for one value; [None] is the panic on
    an over-long text. *)
Definition encodeValue (v : Value) : option (list byte) :=
  let hd := byte_of_N (Z.to_N (v_Type v mod 256)) in
  if v_IsNull v then Some [hd; x01]
  else if (v_Type v =? TypeInt)%Z then Some (hd :: x00 :: le_put 8 (u64_of_int (v_Int v)))
  else if (v_Type v =? TypeFloat)%Z then Some (hd :: x00 :: le_put 8 (v_Float v))
  else if (v_Type v =? TypeText)%Z then
    if (65535 <? N.of_nat (String.length (v_Text v)))%N then None
    else Some (hd :: x00 :: le_put 2 (N.of_nat (String.length (v_Text v)))
                 ++ bytes_of_string (v_Text v))
  else if (v_Type v =? TypeBool)%Z then Some [hd; x00; if v_Bool v then x01 else x00]
  else Some [hd; x00].

Fixpoint encodeLoop (vals : list Value) : option (list byte) :=
  match vals with
  | [] => Some []
  | v :: vals =>
      match encodeValue v, encodeLoop vals with
      | Some b, Some bs => Some (b ++ bs)
      | _, _ => None
      end
  end.

Definition encodedSize (vals : list Value) : nat := 2 + sum_list_with encodedValueSize vals.

Definition EncodeValues (vals : list Value) : option (list byte) :=
  if (65535 <? N.of_nat (length vals))%N then None
  else
    match encodeLoop vals with
    | None => None
    | Some body => fill (encodedSize vals) (le_put 2 (N.of_nat (length vals)) ++ body)
    end.

Inductive DecodeError :=
| DecBufferTooShort (len : nat)
| DecTruncatedHeader (i : nat)
| DecTruncatedInt (i : nat)
| DecTruncatedFloat (i : nat)
| DecTruncatedTextLen (i : nat)
| DecTruncatedText (i : nat)
| DecTruncatedBool (i : nat)
| DecUnknownType (t : Z) (i : nat).

(** One iteration of the decoding loop: [rest] is [b[pos:]], so that the
    test [pos+k > len(b)] reads [length rest < k]. The value decoded and
    the bytes after it are returned. *)
Definition decodeValue (i : nat) (rest : list byte) : result DecodeError (Value * list byte) :=
  match rest with
  | tb :: nb :: rest =>
      let t := Z.of_N (Byte.to_N tb) in
      let isNull := negb (Byte.to_N nb =? 0)%N in
      if isNull then Ok (mkValue t true 0 0 "" false, rest)
      else if (t =? TypeNull)%Z then Ok (mkValue t false 0 0 "" false, rest)
      else if (t =? TypeInt)%Z then
        if length rest <? 8 then Err (DecTruncatedInt i)
        else Ok (mkValue t false (int_of_u64 (le_get (take 8 rest))) 0 "" false, drop 8 rest)
      else if (t =? TypeFloat)%Z then
        if length rest <? 8 then Err (DecTruncatedFloat i)
        else Ok (mkValue t false 0 (le_get (take 8 rest)) "" false, drop 8 rest)
      else if (t =? TypeText)%Z then
        if length rest <? 2 then Err (DecTruncatedTextLen i)
        else
          let tlen := N.to_nat (le_get (take 2 rest)) in
          let rest := drop 2 rest in
          if length rest <? tlen then Err (DecTruncatedText i)
          else Ok (mkValue t false 0 0 (string_of_bytes (take tlen rest)) false, drop tlen rest)
      else if (t =? TypeBool)%Z then
        match rest with
        | [] => Err (DecTruncatedBool i)
        | bb :: rest => Ok (mkValue t false 0 0 "" (negb (Byte.to_N bb =? 0)%N), rest)
        end
      else Err (DecUnknownType t i)
  | _ => Err (DecTruncatedHeader i)
  end.

(** The loop [for i := 0; i < count; i++]; [n] iterations remain. *)
Fixpoint decodeLoop (n i : nat) (rest : list byte) : result DecodeError (list Value) :=
  match n with
  | O => Ok []
  | S n =>
      let? (v, rest) := decodeValue i rest in
      let? vs := decodeLoop n (S i) rest in
      Ok (v :: vs)
  end.

Definition DecodeValues (b : list byte) : result DecodeError (list Value) :=
  if length b <? 2 then Err (DecBufferTooShort (length b))
  else decodeLoop (N.to_nat (le_get (take 2 b))) 0 (drop 2 b).

(** ** Well-formed values

    What a [Value] of the program can hold: an [int64], a [float64] bit
    pattern, one of the five types, and only the field its type selects. *)

Definition int64 (z : Z) : Prop := (- 2 ^ 63 <= z < 2 ^ 63)%Z.

Definition canonical (v : Value) : Prop :=
  (v_IsNull v = true /\ (0 <= v_Type v < 256)%Z /\ v = mkValue (v_Type v) true 0 0 "" false)
  \/ v = mkValue TypeNull false 0 0 "" false
  \/ (int64 (v_Int v) /\ v = IntVal (v_Int v))
  \/ ((v_Float v < two64)%N /\ v = FloatVal (v_Float v))
  \/ ((N.of_nat (String.length (v_Text v)) <= 65535)%N /\ v = TextVal (v_Text v))
  \/ v = BoolVal (v_Bool v).

Lemma int_of_u64_of_int z : int64 z -> int_of_u64 (u64_of_int z) = z.
Proof.
  unfold int64, int_of_u64, u64_of_int. intros H.
  rewrite Z2N.id by (apply Z.mod_pos_bound; lia).
  destruct (decide (0 <= z)%Z).
  - rewrite Z.mod_small by lia. destruct (Z.ltb_spec z (2 ^ 63)); lia.
  - replace (z mod 2 ^ 64)%Z with (z + 2 ^ 64)%Z.
    + destruct (Z.ltb_spec (z + 2 ^ 64) (2 ^ 63)); lia.
    + rewrite <-(Z.mod_add z 1) by lia. rewrite Z.mod_small; lia.
Qed.

Lemma u64_of_int_bound z : (u64_of_int z < 256 ^ 8)%N.
Proof.
  unfold u64_of_int. pose proof (Z.mod_pos_bound z (2 ^ 64)). lia.
Qed.

(** ** The encoder never overruns its buffer *)

Lemma encodeValue_length v b :
  encodeValue v = Some b -> length b = encodedValueSize v.
Proof.
  unfold encodeValue, encodedValueSize. intros H.
  repeat case_match; simplify_eq; simpl;
    rewrite ?length_app, ?length_bytes_of_string; reflexivity.
Qed.

Lemma encodeLoop_length vals b :
  encodeLoop vals = Some b -> length b = sum_list_with encodedValueSize vals.
Proof.
  revert b. induction vals as [|v vals IH]; intros b H; simpl in *; [by simplify_eq|].
  destruct (encodeValue v) eqn:Ev; [|done].
  destruct (encodeLoop vals) eqn:El; [|done]. simplify_eq.
  rewrite length_app, (encodeValue_length v), (IH l0); auto.
Qed.

Lemma EncodeValues_shape vals :
  EncodeValues vals =
    if (65535 <? N.of_nat (length vals))%N then None
    else option_map (fun body => le_put 2 (N.of_nat (length vals)) ++ body) (encodeLoop vals).
Proof.
  unfold EncodeValues. destruct (65535 <? N.of_nat (length vals))%N; [done|].
  destruct (encodeLoop vals) as [body|] eqn:E; [|done]. simpl.
  unfold encodedSize. rewrite <-(encodeLoop_length _ _ E).
  set (hd := le_put 2 _). replace (2 + length body) with (length (hd ++ body)).
  - apply fill_exact.
  - unfold hd. by rewrite length_app, le_put_length.
Qed.

Ltac codec_field :=
  rewrite ?length_app, ?le_put_length, ?take_le_put, ?drop_le_put.

Lemma decodeValue_encode i v b rest :
  canonical v -> encodeValue v = Some b -> decodeValue i (b ++ rest) = Ok (v, rest).
Proof.
  intros Hc He.
  destruct Hc as [(Hn & Ht & Hv)|[Hv|[[Hi Hv]|[[Hf Hv]|[[Hl Hv]|Hv]]]]];
    rewrite Hv in He |- *; unfold encodeValue in He; simpl in He.
  - simplify_eq/=. rewrite to_N_byte_of_N. do 3 f_equal.
    rewrite (Z.mod_small _ 256) by lia. rewrite N.mod_small by lia. lia.
  - by simplify_eq/=.
  - simplify_eq/=. codec_field. simpl.
    rewrite le_get_put_small by (apply u64_of_int_bound).
    by rewrite int_of_u64_of_int.
  - simplify_eq/=. codec_field. simpl.
    rewrite le_get_put_small by (unfold two64 in Hf; simpl; lia). done.
  - destruct (N.ltb_spec 65535 (N.of_nat (String.length (v_Text v)))); [lia|].
    simplify_eq/=. rewrite <-app_assoc. codec_field. simpl.
    rewrite le_get_put_small by (simpl; lia). rewrite Nat2N.id.
    rewrite ?length_app, length_bytes_of_string.
    destruct (Nat.ltb_spec (String.length (v_Text v) + length rest)
                (String.length (v_Text v))); [lia|].
    rewrite take_app_length', drop_app_length' by (by rewrite length_bytes_of_string).
    by rewrite string_of_bytes_of_string.
  - simplify_eq/=. by destruct (v_Bool v).
Qed.

Lemma decodeLoop_encode i vals b rest :
  Forall canonical vals -> encodeLoop vals = Some b ->
  decodeLoop (length vals) i (b ++ rest) = Ok vals.
Proof.
  intros Hc. revert i b. induction Hc as [|v vals Hv Hc IH]; intros i b He; simpl in *; [done|].
  destruct (encodeValue v) as [bv|] eqn:Ev; [|done].
  destruct (encodeLoop vals) as [bl|] eqn:El; [|done]. simplify_eq.
  rewrite <-app_assoc, (decodeValue_encode i v bv (bl ++ rest) Hv Ev). simpl.
  by rewrite (IH (S i) bl eq_refl).
Qed.

(** Encoding succeeds on every row of canonical values within the limit. *)
Lemma encodeLoop_total vals : Forall canonical vals -> is_Some (encodeLoop vals).
Proof.
  induction 1 as [|v vals Hv Hc [b IH]]; simpl; [eauto|]. rewrite IH.
  enough (is_Some (encodeValue v)) as [bv ->] by eauto.
  destruct Hv as [(Hn & Ht & Hv)|[Hv|[[Hi Hv]|[[Hf Hv]|[[Hl Hv]|Hv]]]]];
    rewrite Hv; unfold encodeValue; simpl; eauto.
  destruct (N.ltb_spec 65535 (N.of_nat (String.length (v_Text v)))); [lia|eauto].
Qed.

(** Round trip, also with bytes after the encoding: [DecodeValues] ignores
    what follows the last value. *)
Lemma decode_encode_app vals rest :
  (N.of_nat (length vals) <= 65535)%N -> Forall canonical vals ->
  exists b, EncodeValues vals = Some b /\ DecodeValues (b ++ rest) = Ok vals.
Proof.
  intros Hl Hc. rewrite EncodeValues_shape.
  destruct (N.ltb_spec 65535 (N.of_nat (length vals))); [lia|].
  destruct (encodeLoop_total vals Hc) as [b Hb]. rewrite Hb. simpl.
  eexists; split; [done|]. unfold DecodeValues.
  rewrite <-app_assoc. rewrite length_app, le_put_length. simpl.
  rewrite drop_le_put, le_get_field by (simpl; lia). rewrite Nat2N.id.
  by apply decodeLoop_encode.
Qed.

(** Everything the decoder returns is canonical: it reads back only what its
    type byte selects. *)
Lemma take_le_get_bound w (b : list byte) : (le_get (take w b) < 256 ^ N.of_nat w)%N.
Proof.
  eapply N.lt_le_trans; [apply le_get_bound|].
  apply N.pow_le_mono_r; [lia|]. rewrite length_take. lia.
Qed.

Lemma int_of_u64_range n : (n < 256 ^ 8)%N -> int64 (int_of_u64 n).
Proof.
  unfold int64, int_of_u64. intros H.
  destruct (Z.ltb_spec (Z.of_N n) (2 ^ 63)); lia.
Qed.

Lemma string_of_bytes_length b : String.length (string_of_bytes b) = length b.
Proof. by rewrite <-length_bytes_of_string, bytes_of_string_of_bytes. Qed.

Lemma decodeValue_canonical i rest v rest' :
  decodeValue i rest = Ok (v, rest') -> canonical v.
Proof.
  unfold decodeValue, canonical. intros H.
  destruct rest as [|tb [|nb rest]]; try done.
  pose proof (Byte.to_N_bounded tb) as Hb.
  destruct (negb (Byte.to_N nb =? 0)%N); [simplify_eq/=; left; split; [done|]; split; [lia|done]|].
  repeat case_match; simplify_eq/=;
    repeat match goal with H : Z.eqb _ _ = true |- _ => apply Z.eqb_eq in H; rewrite H end.
  - right; left. done.
  - right; right; left. split; [|done]. apply int_of_u64_range.
    apply (take_le_get_bound 8 rest).
  - do 3 right; left. split; [|done]. apply (take_le_get_bound 8 rest).
  - do 4 right; left. split; [|done]. rewrite string_of_bytes_length, length_take.
    pose proof (take_le_get_bound 2 rest). simpl in *. lia.
  - do 5 right. done.
Qed.

Lemma decodeLoop_canonical n i rest vs :
  decodeLoop n i rest = Ok vs -> Forall canonical vs /\ length vs = n.
Proof.
  revert i rest vs. induction n as [|n IH]; intros i rest vs H; simpl in H; [by simplify_eq|].
  destruct (decodeValue i rest) as [[v rest']|] eqn:Ev; [|done]. simpl in H.
  destruct (decodeLoop n (S i) rest') as [vs'|] eqn:El; [|done]. simplify_eq/=.
  apply IH in El as [Hc Hl]. split; [|by rewrite Hl].
  constructor; [by eapply decodeValue_canonical|done].
Qed.

Lemma DecodeValues_canonical b vs :
  DecodeValues b = Ok vs -> Forall canonical vs /\ (N.of_nat (length vs) <= 65535)%N.
Proof.
  unfold DecodeValues. destruct (length b <? 2); [done|]. intros H.
  apply decodeLoop_canonical in H as [Hc Hl]. split; [done|].
  pose proof (take_le_get_bound 2 b). rewrite Hl, N2Nat.id. simpl in *. lia.
Qed.

(** ** Properties *)

(** C40. Round trip: [DecodeValues] inverts [EncodeValues] on every row of
    canonical values within the 65535 limits, and encoding such a row never
    panics (its size computation is exact). *)
Theorem EncodeValues_DecodeValues vals :
  (N.of_nat (length vals) <= 65535)%N -> Forall canonical vals ->
  exists b, EncodeValues vals = Some b
            /\ length b = encodedSize vals
            /\ DecodeValues b = Ok vals.
Proof.
  intros Hl Hc. destruct (decode_encode_app vals [] Hl Hc) as (b & He & Hd).
  exists b. rewrite app_nil_r in Hd. split_and!; [done| |done].
  rewrite EncodeValues_shape in He.
  destruct (N.ltb_spec 65535 (N.of_nat (length vals))); [lia|].
  destruct (encodeLoop vals) eqn:E; simplify_eq/=.
  unfold encodedSize. by rewrite length_app, le_put_length, (encodeLoop_length _ _ E).
Qed.

(** Whatever bytes [DecodeValues] accepts, the row it returns is
    canonical, so encoding it again succeeds and decodes to the same row. *)
Theorem DecodeValues_stable b vs :
  DecodeValues b = Ok vs ->
  exists b', EncodeValues vs = Some b' /\ DecodeValues b' = Ok vs.
Proof.
  intros H. apply DecodeValues_canonical in H as [Hc Hl].
  destruct (decode_encode_app vs [] Hl Hc) as (b' & He & Hd).
  exists b'. by rewrite app_nil_r in Hd.
Qed.

(** ** Comparison *)

Lemma Compare_text a b :
  Compare (TextVal a) (TextVal b)
  = Ok (if String.eqb a b then 0%Z else if String.ltb a b then (-1)%Z else 1%Z).
Proof. unfold Compare. simpl. by destruct (String.eqb a b), (String.ltb a b). Qed.

Lemma Compare_bool a b :
  Compare (BoolVal a) (BoolVal b) = Ok (Z.b2z a - Z.b2z b)%Z.
Proof. by destruct a, b. Qed.

(** Text values are totally ordered by [Compare]: 0 exactly on equal
    strings, opposite signs when the operands are swapped, and transitive. *)
Theorem Compare_text_order a b c :
  (Compare (TextVal a) (TextVal b) = Ok 0%Z <-> a = b)
  /\ (Compare (TextVal a) (TextVal b) = Ok (-1)%Z <-> Compare (TextVal b) (TextVal a) = Ok 1%Z)
  /\ (Compare (TextVal a) (TextVal b) = Ok (-1)%Z ->
      Compare (TextVal b) (TextVal c) = Ok (-1)%Z ->
      Compare (TextVal a) (TextVal c) = Ok (-1)%Z).
Proof.
  rewrite !Compare_text.
  destruct (String.eqb_spec a b) as [->|Hab].
  { rewrite String.eqb_refl. split_and!; done. }
  destruct (String.eqb_spec b a) as [->|_]; [done|].
  split_and!.
  - split; [|done]. destruct (String.ltb a b); done.
  - destruct (String.ltb a b) eqn:E.
    + rewrite (str_ltb_asym _ _ E). done.
    + apply str_ltb_false in E as [->|E]; [done|]. unfold str_lt in E. rewrite E. done.
  - destruct (String.ltb a b) eqn:E1; [|done]. intros _.
    destruct (String.eqb_spec b c) as [->|Hbc]; [done|].
    destruct (String.ltb b c) eqn:E2; [|done]. intros _.
    pose proof (transitivity (R := str_lt) E1 E2) as E3.
    destruct (String.eqb_spec a c) as [->|Hac]; [by apply str_lt_asym in E1|].
    by rewrite E3.
Qed.

(** Integers are compared after conversion to [float64]: two different
    [int64] values above [2^53] compare as equal, and equality of floats
    (within [1e-10]) is not transitive. *)
Theorem Compare_numeric_coarse :
  Compare (IntVal 9007199254740992) (IntVal 9007199254740993) = Ok 0%Z
  /\ (exists x y z : N,
        Value_Equal (FloatVal x) (FloatVal y) = true
        /\ Value_Equal (FloatVal y) (FloatVal z) = true
        /\ Value_Equal (FloatVal x) (FloatVal z) = false).
Proof.
  split; [vm_compute; reflexivity|].
  (* 0, 0.75e-10, 1.5e-10 *)
  exists 0%N, 4455359275776200268%N, 4459862875403570764%N. vm_compute. auto.
Qed.

Lemma EncodeValues_DecodeValues_witness :
  exists b, EncodeValues [IntVal (-7); TextVal "ab"; NullVal; BoolVal true] = Some b
            /\ length b = encodedSize [IntVal (-7); TextVal "ab"; NullVal; BoolVal true]
            /\ DecodeValues b = Ok [IntVal (-7); TextVal "ab"; NullVal; BoolVal true].
Proof.
  apply EncodeValues_DecodeValues; [simpl; lia|].
  repeat constructor; unfold canonical, int64; simpl; intuition (lia || reflexivity).
Defined.

Lemma DecodeValues_stable_witness :
  exists b', EncodeValues [BoolVal true] = Some b' /\ DecodeValues b' = Ok [BoolVal true].
Proof. apply (DecodeValues_stable [x01; x00; x04; x00; x01]). vm_compute. reflexivity. Defined.
