(* ===== verification/Lock.v ===== *)
(** * Lock modes, resources and lock queues ([internal/lock])

    mode.go, request.go, resource.go, queue.go and held_set.go: the
    compatibility matrix, the resource identifiers and their string keys,
    the per-resource FIFO queue and the per-transaction held set. The
    acquisition protocol that ties them together is in [Acquire]. *)

From Stdlib Require Import ZArith NArith Lia Ascii String.
From stdpp Require Import base tactics numbers list gmap strings.
From S2P Require Import Prelude Types.

(** ** mode.go *)

Inductive Mode := LockNL | LockIS | LockIX | LockS | LockSIX | LockX | LockU.

#[export] Instance Mode_eq_dec : EqDecision Mode.
Proof. solve_decision. Defined.

(** The numeric values of the constants, used as array indices. *)
Definition mode_index (m : Mode) : nat :=
  match m with
  | LockNL => 0 | LockIS => 1 | LockIX => 2 | LockS => 3
  | LockSIX => 4 | LockX => 5 | LockU => 6
  end.

Definition Mode_String (m : Mode) : string :=
  match m with
  | LockNL => "NL" | LockIS => "IS" | LockIX => "IX" | LockS => "S"
  | LockSIX => "SIX" | LockX => "X" | LockU => "U"
  end.

(** Rows: requesting mode; columns: held mode. *)
Definition LockCompatible_matrix : list (list bool) :=
  (*         NL    IS     IX     S      SIX    X      U   *)
  [ (*NL *) [true; true;  true;  true;  true;  true;  true];
    (*IS *) [true; true;  true;  true;  true;  false; true];
    (*IX *) [true; true;  true;  false; false; false; false];
    (*S  *) [true; true;  false; true;  false; false; true];
    (*SIX*) [true; true;  false; false; false; false; false];
    (*X  *) [true; false; false; false; false; false; false];
    (*U  *) [true; true;  false; true;  false; false; false] ].

Definition LockCompatible (requesting held : Mode) : bool :=
  nth (mode_index held) (nth (mode_index requesting) LockCompatible_matrix []) false.

Definition LockStrength (m : Mode) : nat := nth (mode_index m) [0; 1; 2; 3; 4; 6; 5] 0.

Definition DominantMode (a b : Mode) : Mode :=
  if LockStrength b <=? LockStrength a then a else b.

Lemma LockCompatible_sym a b : LockCompatible a b = LockCompatible b a.
Proof. by destruct a, b. Qed.

Lemma LockStrength_inj a b : LockStrength a = LockStrength b -> a = b.
Proof. by destruct a, b. Qed.

Lemma DominantMode_ub a b :
  LockStrength a <= LockStrength (DominantMode a b)
  /\ LockStrength b <= LockStrength (DominantMode a b).
Proof. unfold DominantMode. destruct (Nat.leb_spec (LockStrength b) (LockStrength a)); lia. Qed.

(** The matrix fact behind [GrantWaiters]: among compatible modes, being
    compatible with the dominant one is being compatible with both. *)
Lemma compatible_dominant r a b :
  LockCompatible a b = true ->
  LockCompatible r (DominantMode a b) = LockCompatible r a && LockCompatible r b.
Proof. by destruct r, a, b. Qed.

(** ** resource.go *)

Inductive ResourceType := ResourceTable | ResourceRow | ResourceGap.

#[export] Instance ResourceType_eq_dec : EqDecision ResourceType.
Proof. solve_decision. Defined.

Record ResourceID := mkResource {
  r_Type : ResourceType;
  r_Table : string;
  r_Key : string;
  r_GapLo : string;
  r_GapHi : string;
}.

#[export] Instance ResourceID_eq_dec : EqDecision ResourceID.
Proof. solve_decision. Defined.

#[export] Instance ResourceID_countable : Countable ResourceID.
Proof.
  refine (inj_countable'
    (fun r => (match r_Type r with ResourceTable => 0 | ResourceRow => 1 | ResourceGap => 2 end,
               r_Table r, r_Key r, r_GapLo r, r_GapHi r))
    (fun '(t, tb, k, lo, hi) =>
       mkResource (match t with 0 => ResourceTable | 1 => ResourceRow | _ => ResourceGap end)
                  tb k lo hi) _).
  by intros [[] ? ? ? ?].
Defined.

(** The canonical serialization, key of the lock table. *)
Definition ResourceID_String (r : ResourceID) : string :=
  match r_Type r with
  | ResourceTable => "table:" +:+ r_Table r
  | ResourceRow => "row:" +:+ r_Table r +:+ ":" +:+ r_Key r
  | ResourceGap =>
      "gap:" +:+ r_Table r +:+ ":(" +:+ r_GapLo r +:+ "," +:+ r_GapHi r +:+ "]"
  end.

Definition ResourceForTable (table : string) : ResourceID :=
  mkResource ResourceTable table "" "" "".
Definition ResourceForRow (table key : string) : ResourceID :=
  mkResource ResourceRow table key "" "".
Definition ResourceForGap (table lo hi : string) : ResourceID :=
  mkResource ResourceGap table "" lo hi.

(** ** request.go

    [rq_id] is the identity of the request object: its [GrantedCh] channel
    is referred to by it. Timestamps are not modelled. *)

Inductive Status := StatusGranted | StatusWaiting | StatusConverting.

#[export] Instance Status_eq_dec : EqDecision Status.
Proof. solve_decision. Defined.

Record Request := mkRequest {
  rq_id : N;
  rq_TxnID : N;
  rq_Mode : Mode;
  rq_Status : Status;
}.

#[export] Instance Request_eq_dec : EqDecision Request.
Proof. solve_decision. Defined.

(** A fresh request; the zero value of [Status] is [StatusGranted]. *)
Definition NewRequest (id txnID : N) (mode : Mode) : Request :=
  mkRequest id txnID mode StatusGranted.

Definition set_status (s : Status) (r : Request) : Request :=
  mkRequest (rq_id r) (rq_TxnID r) (rq_Mode r) s.

(** ** queue.go *)

Record Queue := mkQueue {
  q_res : ResourceID;
  q_granted : list Request;
  q_waiting : list Request;
}.

Definition NewQueue (res : ResourceID) : Queue := mkQueue res [] [].

Definition CanGrant (q : Queue) (mode : Mode) (exceptTxnID : N) : bool :=
  forallb (fun g => (rq_TxnID g =? exceptTxnID)%N || LockCompatible mode (rq_Mode g))
          (q_granted q).

Definition AddGranted (q : Queue) (req : Request) : Queue :=
  mkQueue (q_res q) (q_granted q ++ [set_status StatusGranted req]) (q_waiting q).

Definition AddWaiting (q : Queue) (req : Request) : Queue :=
  mkQueue (q_res q) (q_granted q) (q_waiting q ++ [set_status StatusWaiting req]).

Definition AddWaitingFront (q : Queue) (req : Request) : Queue :=
  mkQueue (q_res q) (q_granted q) (set_status StatusConverting req :: q_waiting q).

Definition of_txn (txnID : N) (r : Request) : bool := (rq_TxnID r =? txnID)%N.

Definition RemoveGranted (q : Queue) (txnID : N) : Queue * bool :=
  (mkQueue (q_res q) (List.filter (fun g => negb (of_txn txnID g)) (q_granted q)) (q_waiting q),
   existsb (of_txn txnID) (q_granted q)).

(** Removes the first waiting request of the transaction. *)
Fixpoint remove_first (txnID : N) (ws : list Request) : list Request * bool :=
  match ws with
  | [] => ([], false)
  | w :: ws =>
      if of_txn txnID w then (ws, true)
      else let (ws', found) := remove_first txnID ws in (w :: ws', found)
  end.

Definition RemoveWaiting (q : Queue) (txnID : N) : Queue * bool :=
  let (ws, found) := remove_first txnID (q_waiting q) in
  (mkQueue (q_res q) (q_granted q) ws, found).

(** The mode computed by the first loop of [GrantWaiters]. *)
Definition currentMode (granted : list Request) : Mode :=
  fold_left (fun m g => DominantMode m (rq_Mode g)) granted LockNL.

(** The second loop: the requests granted (their channels are closed, in
    this order) and [q.waiting[i:]] from the first incompatible one on. *)
Fixpoint grant_loop (cur : Mode) (ws : list Request) : list Request * list Request :=
  match ws with
  | [] => ([], [])
  | req :: rest =>
      if LockCompatible (rq_Mode req) cur then
        let (gs, remaining) := grant_loop (DominantMode cur (rq_Mode req)) rest in
        (set_status StatusGranted req :: gs, remaining)
      else ([], req :: rest)
  end.

(** [GrantWaiters] also returns the requests whose [GrantedCh] it closes. *)
Definition GrantWaiters (q : Queue) : Queue * list Request :=
  let (gs, remaining) := grant_loop (currentMode (q_granted q)) (q_waiting q) in
  (mkQueue (q_res q) (q_granted q ++ gs)
     (if length gs =? length (q_waiting q) then [] else remaining),
   gs).

Fixpoint conflicting_loop (mode : Mode) (requesterID : N) (seen : list N)
    (gs : list Request) : list N :=
  match gs with
  | [] => []
  | g :: gs =>
      if (rq_TxnID g =? requesterID)%N then conflicting_loop mode requesterID seen gs
      else if negb (LockCompatible mode (rq_Mode g))
              && negb (bool_decide (rq_TxnID g ∈ seen)) then
        rq_TxnID g :: conflicting_loop mode requesterID (rq_TxnID g :: seen) gs
      else conflicting_loop mode requesterID seen gs
  end.

Definition ConflictingTxns (q : Queue) (mode : Mode) (requesterID : N) : list N :=
  conflicting_loop mode requesterID [] (q_granted q).

(** [Snapshot] copies both lists by value. *)
Record QueueSnapshot := mkQueueSnapshot {
  qs_Resource : ResourceID;
  qs_Granted : list (N * Mode * Status);
  qs_Waiting : list (N * Mode * Status);
}.

Definition Queue_Snapshot (q : Queue) : QueueSnapshot :=
  let snap := fun r => (rq_TxnID r, rq_Mode r, rq_Status r) in
  mkQueueSnapshot (q_res q) (snap <$> q_granted q) (snap <$> q_waiting q).

(** ** held_set.go *)

Notation HeldSet := (gmap ResourceID Mode).
Definition NewHeldSet : HeldSet := ∅.
Definition Held_Get (s : HeldSet) (r : ResourceID) : option Mode := s !! r.
Definition Held_Set (s : HeldSet) (r : ResourceID) (m : Mode) : HeldSet := <[r := m]> s.
Definition Held_Delete (s : HeldSet) (r : ResourceID) : HeldSet := delete r s.
(** The iteration order of a Go map is unspecified; the model fixes one. *)
Definition Held_Keys (s : HeldSet) : list ResourceID := (map_to_list s).*1.
Definition Held_Len (s : HeldSet) : nat := size s.

(** ** The queue invariant

    No two transactions hold incompatible modes in one queue. *)

Definition compatible_reqs (a b : Request) : Prop :=
  rq_TxnID a = rq_TxnID b \/ LockCompatible (rq_Mode a) (rq_Mode b) = true.

Definition granted_ok (gs : list Request) : Prop := ForallOrdPairs compatible_reqs gs.

(** The stronger form that [GrantWaiters] relies on: also the grants of one
    transaction are compatible with one another (a transaction has at most
    one grant per queue outside an upgrade). *)
Definition pairwise_compatible (gs : list Request) : Prop :=
  ForallOrdPairs (fun a b => LockCompatible (rq_Mode a) (rq_Mode b) = true) gs.

Definition queue_inv (q : Queue) : Prop := pairwise_compatible (q_granted q).

(** ** Lemmas on the queue operations *)

Lemma pairwise_app gs1 gs2 :
  pairwise_compatible (gs1 ++ gs2) <->
  pairwise_compatible gs1 /\ pairwise_compatible gs2
  /\ forall a b, a ∈ gs1 -> b ∈ gs2 -> LockCompatible (rq_Mode a) (rq_Mode b) = true.
Proof.
  unfold pairwise_compatible. induction gs1 as [|g gs1 IH]; simpl.
  - split; [|by intros (_ & ? & _)]. intros H. split_and!; [constructor|done|].
    intros a b Ha. by apply elem_of_nil in Ha.
  - split.
    + inversion_clear 1 as [|? ? Hf Ho]. apply IH in Ho as (H1 & H2 & H3).
      apply Forall_app in Hf as [Hf1 Hf2]. split_and!; [by constructor|done|].
      intros a b [->|Ha]%elem_of_cons Hb; [|by apply H3].
      rewrite Forall_forall in Hf2. by apply Hf2.
    + intros (H1 & H2 & H3). inversion_clear H1 as [|? ? Hf Ho]. constructor.
      * apply Forall_app. split; [done|]. apply Forall_forall. intros b Hb.
        apply H3; [by left|done].
      * apply IH. split_and!; [done|done|]. intros a b Ha Hb. apply H3; [by right|done].
Qed.

Lemma pairwise_filter f gs :
  pairwise_compatible gs -> pairwise_compatible (List.filter f gs).
Proof.
  unfold pairwise_compatible. induction 1 as [|g gs Hf Ho IH]; simpl; [constructor|].
  destruct (f g); [|done]. constructor; [|done].
  rewrite Forall_forall in Hf |- *. intros b Hb. apply Hf.
  apply list_elem_of_In in Hb. apply filter_In in Hb as [Hb _]. by apply list_elem_of_In.
Qed.

Lemma pairwise_set_status f gs :
  (forall r, rq_Mode (f r) = rq_Mode r) ->
  pairwise_compatible gs -> pairwise_compatible (f <$> gs).
Proof.
  intros Hf. unfold pairwise_compatible.
  induction 1 as [|g gs Hg Ho IH]; simpl; constructor; [|done].
  rewrite Forall_forall in Hg |- *. intros b (b' & -> & Hb)%list_elem_of_fmap.
  rewrite !Hf. by apply Hg.
Qed.

(** Being compatible with the dominant mode of a pairwise compatible list is
    being compatible with every mode of the list. *)
Lemma currentMode_from cur gs :
  pairwise_compatible gs ->
  (forall g, g ∈ gs -> LockCompatible cur (rq_Mode g) = true) ->
  forall r, LockCompatible r (fold_left (fun m g => DominantMode m (rq_Mode g)) gs cur)
    = LockCompatible r cur && forallb (fun g => LockCompatible r (rq_Mode g)) gs.
Proof.
  intros Hp. revert cur. induction Hp as [|g gs Hf Hp IH]; intros cur Hc r; simpl.
  - by rewrite andb_true_r.
  - rewrite IH.
    + rewrite compatible_dominant by (apply Hc; by left).
      by rewrite <-andb_assoc.
    + intros g' Hg'. rewrite LockCompatible_sym, compatible_dominant by (apply Hc; by left).
      rewrite (LockCompatible_sym _ cur), (LockCompatible_sym _ (rq_Mode g)).
      rewrite (Hc g') by (by right). rewrite Forall_forall in Hf. by rewrite (Hf g').
Qed.

Lemma currentMode_spec gs r :
  pairwise_compatible gs ->
  LockCompatible r (currentMode gs) = forallb (fun g => LockCompatible r (rq_Mode g)) gs.
Proof.
  intros Hp. unfold currentMode. rewrite (currentMode_from LockNL); [|done|].
  - by destruct r.
  - intros g _. by destruct (rq_Mode g).
Qed.

Lemma currentMode_snoc gs g :
  currentMode (gs ++ [g]) = DominantMode (currentMode gs) (rq_Mode g).
Proof. unfold currentMode. by rewrite fold_left_app. Qed.

Lemma forallb_elem {A} (f : A -> bool) l x : forallb f l = true -> x ∈ l -> f x = true.
Proof. intros H Hx. rewrite forallb_forall in H. apply H. by apply list_elem_of_In. Qed.

(** Reference definition of [GrantWaiters]: grant from the front while the
    request is compatible with every grant in the queue. *)
Fixpoint grant_ref (granted ws : list Request) : list Request * list Request :=
  match ws with
  | [] => (granted, [])
  | req :: rest =>
      if forallb (fun g => LockCompatible (rq_Mode req) (rq_Mode g)) granted
      then grant_ref (granted ++ [set_status StatusGranted req]) rest
      else (granted, req :: rest)
  end.

Lemma pairwise_snoc gs g :
  pairwise_compatible gs ->
  forallb (fun g' => LockCompatible (rq_Mode g) (rq_Mode g')) gs = true ->
  pairwise_compatible (gs ++ [g]).
Proof.
  intros Hp Hf. apply pairwise_app. split_and!; [done|repeat constructor|].
  intros a b Ha Hb. apply list_elem_of_singleton in Hb as ->.
  rewrite LockCompatible_sym. by apply (forallb_elem _ _ _ Hf).
Qed.

Lemma grant_loop_ref gs ws :
  pairwise_compatible gs ->
  grant_ref gs ws = (gs ++ (grant_loop (currentMode gs) ws).1, (grant_loop (currentMode gs) ws).2).
Proof.
  revert gs. induction ws as [|w ws IH]; intros gs Hp; simpl; [by rewrite app_nil_r|].
  rewrite (currentMode_spec gs (rq_Mode w) Hp).
  destruct (forallb _ gs) eqn:E; [|by rewrite app_nil_r].
  rewrite IH by (apply pairwise_snoc; simpl; done). rewrite currentMode_snoc. simpl.
  destruct (grant_loop _ ws) as [g2 rem]. simpl. by rewrite <-app_assoc.
Qed.

Lemma grant_loop_split cur ws gs rem :
  grant_loop cur ws = (gs, rem) -> exists pre, ws = pre ++ rem /\ gs = set_status StatusGranted <$> pre.
Proof.
  revert cur gs rem. induction ws as [|w ws IH]; intros cur gs rem H; simpl in H.
  - simplify_eq. by exists [].
  - destruct (LockCompatible (rq_Mode w) cur); [|simplify_eq; by exists []].
    destruct (grant_loop _ ws) as [g2 rem2] eqn:E. simplify_eq.
    apply IH in E as (pre & -> & ->). by exists (w :: pre).
Qed.

Lemma grant_ref_ok gs ws :
  pairwise_compatible gs -> pairwise_compatible (grant_ref gs ws).1.
Proof.
  revert gs. induction ws as [|w ws IH]; intros gs Hp; simpl; [done|].
  destruct (forallb _ gs) eqn:E; [|done]. apply IH. by apply pairwise_snoc.
Qed.

(** [GrantWaiters] takes a prefix of the waiting list, in order: the
    granted ones are appended, the rest stays. *)
Lemma GrantWaiters_shape q q' closed :
  GrantWaiters q = (q', closed) ->
  exists pre, q_waiting q = pre ++ q_waiting q'
    /\ closed = set_status StatusGranted <$> pre
    /\ q_granted q' = q_granted q ++ closed
    /\ q_res q' = q_res q.
Proof.
  unfold GrantWaiters. destruct (grant_loop _ _) as [gs rem] eqn:E. intros H. simplify_eq/=.
  apply grant_loop_split in E as (pre & Hw & ->). exists pre.
  rewrite Hw, length_fmap, length_app.
  destruct (Nat.eqb_spec (length pre) (length pre + length rem)) as [Hl|Hl].
  - assert (rem = []) as -> by (apply length_zero_iff_nil; lia). done.
  - done.
Qed.

Lemma GrantWaiters_ref q :
  queue_inv q ->
  (q_granted (GrantWaiters q).1, q_waiting (GrantWaiters q).1)
  = grant_ref (q_granted q) (q_waiting q).
Proof.
  intros Hq. rewrite (grant_loop_ref _ _ Hq). unfold GrantWaiters.
  destruct (grant_loop _ _) as [gs rem] eqn:E. simpl. f_equal.
  apply grant_loop_split in E as (pre & Hw & ->). rewrite Hw, length_fmap, length_app.
  destruct (Nat.eqb_spec (length pre) (length pre + length rem)); [|done].
  symmetry. apply length_zero_iff_nil. lia.
Qed.

Lemma GrantWaiters_inv q : queue_inv q -> queue_inv (GrantWaiters q).1.
Proof.
  intros Hq. pose proof (GrantWaiters_ref q Hq) as H.
  apply (f_equal fst) in H. simpl in H. unfold queue_inv. rewrite H. by apply grant_ref_ok.
Qed.

Lemma RemoveGranted_inv q t : queue_inv q -> queue_inv (RemoveGranted q t).1.
Proof. apply pairwise_filter. Qed.

Lemma RemoveWaiting_inv q t : queue_inv q -> queue_inv (RemoveWaiting q t).1.
Proof.
  unfold RemoveWaiting, queue_inv. by destruct (remove_first t (q_waiting q)).
Qed.

Lemma remove_first_incl t ws r : r ∈ (remove_first t ws).1 -> r ∈ ws.
Proof.
  induction ws as [|w ws IH]; simpl; [done|].
  destruct (of_txn t w); simpl; [by right|].
  destruct (remove_first t ws) as [ws' f]. simpl in *.
  intros [->|H]%elem_of_cons; [by left|]. right. by apply IH.
Qed.

Lemma CanGrant_others q mode t g :
  CanGrant q mode t = true -> g ∈ q_granted q -> rq_TxnID g <> t ->
  LockCompatible mode (rq_Mode g) = true.
Proof.
  intros H Hg Hne. apply (forallb_elem _ _ _ H) in Hg. simpl in Hg.
  apply orb_true_iff in Hg as [Hg|Hg]; [|done]. by apply N.eqb_eq in Hg.
Qed.

(** Granting after [CanGrant] keeps the invariant when the transaction has
    no grant left in the queue. *)
Lemma AddGranted_inv q req :
  queue_inv q -> CanGrant q (rq_Mode req) (rq_TxnID req) = true ->
  (forall g, g ∈ q_granted q -> rq_TxnID g <> rq_TxnID req) ->
  queue_inv (AddGranted q req).
Proof.
  intros Hq Hc Hn. apply pairwise_snoc; [done|]. simpl.
  apply forallb_forall. intros g Hg. apply list_elem_of_In in Hg.
  eapply CanGrant_others; eauto.
Qed.

Lemma conflicting_loop_spec mode t seen gs id :
  id ∈ conflicting_loop mode t seen gs <->
  (id ∉ seen) /\ exists g, g ∈ gs /\ rq_TxnID g = id /\ id <> t
                         /\ LockCompatible mode (rq_Mode g) = false.
Proof.
  set (bad := fun g => rq_TxnID g = id /\ id <> t /\ LockCompatible mode (rq_Mode g) = false).
  assert (Hskip : forall (P : Prop) (g : Request) gs, (P -> ~ bad g) ->
    (P /\ (exists x, x ∈ gs /\ bad x)) <-> (P /\ (exists x, x ∈ g :: gs /\ bad x))).
  { intros P g gs' Hg. setoid_rewrite elem_of_cons. split.
    - intros [Hs (x & Hx & Hb)]. split; [done|]. exists x. auto.
    - intros [Hs (x & [->|Hx] & Hb)]; [by apply Hg in Hb|]. split; [done|]. by exists x. }
  revert seen. induction gs as [|g gs IH]; intros seen; simpl.
  { split; [by intros ?%elem_of_nil|]. by intros (_ & g & ?%elem_of_nil & _). }
  destruct (N.eqb_spec (rq_TxnID g) t) as [Ht|Ht].
  { rewrite IH. apply Hskip. intros _ (? & ? & _). congruence. }
  destruct (LockCompatible mode (rq_Mode g)) eqn:Ec; simpl.
  { rewrite IH. apply Hskip. intros _ (_ & _ & ?). congruence. }
  case_bool_decide as Hin; simpl.
  { rewrite IH. apply Hskip. intros Hs (? & _). congruence. }
  rewrite elem_of_cons, IH, not_elem_of_cons. setoid_rewrite elem_of_cons. split.
  - intros [->|[[_ Hs] (x & Hx & Hb)]]; (split; [done|]); [exists g; auto|].
    exists x. auto.
  - intros [Hs (x & Hx & Hb)]. destruct (decide (id = rq_TxnID g)); [by left|right].
    split; [done|]. destruct Hx as [->|Hx]; [by destruct Hb|by exists x].
Qed.

Lemma ConflictingTxns_spec q mode t id :
  id ∈ ConflictingTxns q mode t <->
  exists g, g ∈ q_granted q /\ rq_TxnID g = id /\ id <> t
            /\ LockCompatible mode (rq_Mode g) = false.
Proof.
  unfold ConflictingTxns. rewrite conflicting_loop_spec. split; [by intros [_ H]|].
  intros H. split; [apply not_elem_of_nil|done].
Qed.

(** ** The string keys of resources *)

Fixpoint char_free (c : ascii) (s : string) : bool :=
  match s with
  | EmptyString => true
  | String d s => negb (Ascii.eqb c d) && char_free c s
  end.

(** A string without the separator in front of it determines the split. *)
Lemma split_at_char c s1 s2 r1 r2 :
  char_free c s1 = true -> char_free c s2 = true ->
  s1 +:+ String c r1 = s2 +:+ String c r2 -> s1 = s2 /\ r1 = r2.
Proof.
  revert s2. induction s1 as [|a s1 IH]; intros [|b s2] H1 H2 H; simpl in *.
  - by simplify_eq.
  - simplify_eq. by rewrite Ascii.eqb_refl in H2.
  - simplify_eq. by rewrite Ascii.eqb_refl in H1.
  - injection H as -> H. apply andb_true_iff in H1 as [_ H1]. apply andb_true_iff in H2 as [_ H2].
    destruct (IH s2 H1 H2 H) as [-> ->]. done.
Qed.

Lemma append_cancel_r s1 s2 r : s1 +:+ r = s2 +:+ r -> s1 = s2.
Proof.
  revert s2. induction s1 as [|a s1 IH]; intros [|b s2] H; try done.
  - apply (f_equal String.length) in H. rewrite !length_append in H. simpl in H. lia.
  - apply (f_equal String.length) in H. rewrite !length_append in H. simpl in H. lia.
  - injection H as -> H. f_equal. by apply IH.
Qed.

(** Resources as the three constructors build them, with a table name that
    has no colon and a gap bound that has no comma. *)
Definition wf_resource (r : ResourceID) : Prop :=
  char_free ":" (r_Table r) = true
  /\ match r_Type r with
     | ResourceTable => r = ResourceForTable (r_Table r)
     | ResourceRow => r = ResourceForRow (r_Table r) (r_Key r)
     | ResourceGap => r = ResourceForGap (r_Table r) (r_GapLo r) (r_GapHi r)
                      /\ char_free "," (r_GapLo r) = true
     end.

Lemma ResourceID_String_inj_wf r1 r2 :
  wf_resource r1 -> wf_resource r2 ->
  ResourceID_String r1 = ResourceID_String r2 -> r1 = r2.
Proof.
  intros [Ht1 H1] [Ht2 H2] H. unfold ResourceID_String in H.
  destruct r1 as [[] t1 k1 lo1 hi1], r2 as [[] t2 k2 lo2 hi2]; simpl in *;
    try discriminate H.
  - simplify_eq. rewrite H1, H2. done.
  - injection H as H. apply split_at_char in H as [-> ->]; [|done..].
    rewrite H1, H2. done.
  - injection H as H. destruct H1 as [H1 Hlo1], H2 as [H2 Hlo2].
    apply split_at_char in H as [-> H]; [|done..]. injection H as H.
    apply split_at_char in H as [-> H]; [|done..]. apply append_cancel_r in H as ->.
    rewrite H1, H2. done.
Qed.

(** ** Properties *)

(** C33. [GrantWaiters] decides with one dominant mode, yet it grants exactly
    what the reference decides by checking every grant: in a queue without
    conflicting grants the two agree on both lists, the waiters granted are
    a prefix of the FIFO list, each closes its channel once, and the queue
    stays without conflicting grants. *)
Theorem GrantWaiters_correct q q' closed :
  queue_inv q -> GrantWaiters q = (q', closed) ->
  (q_granted q', q_waiting q') = grant_ref (q_granted q) (q_waiting q)
  /\ (exists pre, q_waiting q = pre ++ q_waiting q'
                  /\ closed = set_status StatusGranted <$> pre)
  /\ queue_inv q'.
Proof.
  intros Hq H. pose proof (GrantWaiters_ref q Hq) as Hr. pose proof (GrantWaiters_inv q Hq) as Hi.
  rewrite H in Hr, Hi. split_and!; [done| |done].
  apply GrantWaiters_shape in H as (pre & Hw & Hc & _). by exists pre.
Qed.

(** [ConflictingTxns] lists, without duplicates of the requester,
    exactly the other transactions whose grant conflicts with the mode; it
    is empty exactly when [CanGrant] allows the request. *)
Theorem ConflictingTxns_correct q mode t id :
  (id ∈ ConflictingTxns q mode t <->
     exists g, g ∈ q_granted q /\ rq_TxnID g = id /\ id <> t
               /\ LockCompatible mode (rq_Mode g) = false)
  /\ (CanGrant q mode t = true <-> ConflictingTxns q mode t = []).
Proof.
  split; [apply ConflictingTxns_spec|]. split.
  - intros Hc. destruct (ConflictingTxns q mode t) as [|x l] eqn:E; [done|].
    assert (x ∈ ConflictingTxns q mode t) as Hx by (rewrite E; by left).
    apply ConflictingTxns_spec in Hx as (g & Hg & <- & Hne & Hb).
    by rewrite (CanGrant_others q mode t g Hc Hg Hne) in Hb.
  - intros He. unfold CanGrant. apply forallb_forall. intros g Hg. apply list_elem_of_In in Hg.
    destruct (N.eqb_spec (rq_TxnID g) t) as [Ht|Ht]; [done|]. simpl.
    destruct (LockCompatible mode (rq_Mode g)) eqn:Ec; [done|].
    assert (rq_TxnID g ∈ ConflictingTxns q mode t) as Hx by (apply ConflictingTxns_spec; eauto).
    rewrite He in Hx. by apply elem_of_nil in Hx.
Qed.

(** The lock table is keyed by [ResourceID.String]: on resources whose
    table name has no colon (and whose gap bound has no comma) the key
    determines the resource. Without that restriction it does not: a row of
    table [a:b] and a row of table [a] share one queue. *)
Theorem ResourceID_String_key :
  (forall r1 r2, wf_resource r1 -> wf_resource r2 ->
     ResourceID_String r1 = ResourceID_String r2 -> r1 = r2)
  /\ (exists r1 r2, r1 = ResourceForRow "a:b" "c" /\ r2 = ResourceForRow "a" "b:c"
       /\ r1 <> r2 /\ ResourceID_String r1 = ResourceID_String r2).
Proof.
  split; [apply ResourceID_String_inj_wf|].
  exists (ResourceForRow "a:b" "c"), (ResourceForRow "a" "b:c"). split_and!; done.
Qed.

Lemma GrantWaiters_correct_witness :
  let r := ResourceForRow "accounts" "1" in
  let q := mkQueue r [] [NewRequest 1 7 LockS; NewRequest 2 8 LockS; NewRequest 3 9 LockX] in
  (q_granted (GrantWaiters q).1, q_waiting (GrantWaiters q).1)
    = grant_ref (q_granted q) (q_waiting q)
  /\ (exists pre, q_waiting q = pre ++ q_waiting (GrantWaiters q).1
        /\ (GrantWaiters q).2 = set_status StatusGranted <$> pre)
  /\ queue_inv (GrantWaiters q).1.
Proof.
  intros r q. apply (GrantWaiters_correct q); [constructor|]. reflexivity.
Defined.
