(* ===== verification/Acquire.v ===== *)
(** * The lock acquisition protocol ([internal/lock/grant.go], [table.go])

    The lock table, [AcquireLockCtx], [ReleaseLock] and [ReleaseAllLocks].
    A call of [AcquireLockCtx] that has to wait is cut at its [select]: the
    part up to the wait is [acquire], and the branches of the [select] are
    [wait_granted] and [wait_cancelled]. Each part runs under the queue's
    mutex, so a run of the lock manager is a sequence of these parts; the
    relation [lstep] lists them. *)

From Stdlib Require Import ZArith NArith Lia String.
From stdpp Require Import base tactics numbers list gmap strings.
From S2P Require Import Prelude Types Lock.

(** ** The interface to the wait-for graph (grant.go, [WFGInterface]) *)

Class WFGInterface (G : Type) := {
  wfg_AddEdge : G -> N -> N -> G;
  wfg_RemoveEdges : G -> N -> G;
}.

(** What the [select] in [AcquireLockCtx] can end with besides a grant. *)
Inductive CancelReason := CancelAbort | CancelCtx | CancelTimeout.

Definition cancel_error (r : CancelReason) : TxnError :=
  match r with
  | CancelAbort => txnError ErrTxnAborted "transaction aborted while waiting for lock"
  | CancelCtx => txnError ErrTxnAborted "client disconnected while waiting for lock"
  | CancelTimeout => txnError ErrLockTimeout "lock acquisition timed out"
  end.

(** A goroutine blocked in the [select]: the request it waits for. *)
Record Waiter := mkWaiter { w_res : ResourceID; w_mode : Mode; w_req : N }.

Section Acquire.
Context {G : Type} `{WFGInterface G}.

(** The lock table, the held set of every transaction, the wait-for
    graph, the request channels closed so far, the request allocator and
    the transactions blocked in a [select]. *)
Record LockSt := mkLockSt {
  ls_table : gmap string Queue;
  ls_held : gmap N HeldSet;
  ls_wfg : G;
  ls_closed : gset N;
  ls_next : N;
  ls_blocked : gmap N Waiter;
}.

Definition held_of (st : LockSt) (t : N) : HeldSet := default ∅ (ls_held st !! t).

Definition with_queue (st : LockSt) (r : ResourceID) (q : Queue) : LockSt :=
  mkLockSt (<[ResourceID_String r := q]> (ls_table st)) (ls_held st) (ls_wfg st)
    (ls_closed st) (ls_next st) (ls_blocked st).

Definition with_held (st : LockSt) (t : N) (h : HeldSet) : LockSt :=
  mkLockSt (ls_table st) (<[t := h]> (ls_held st)) (ls_wfg st)
    (ls_closed st) (ls_next st) (ls_blocked st).

Definition with_wfg (st : LockSt) (g : G) : LockSt :=
  mkLockSt (ls_table st) (ls_held st) g (ls_closed st) (ls_next st) (ls_blocked st).

Definition with_closed (st : LockSt) (c : gset N) : LockSt :=
  mkLockSt (ls_table st) (ls_held st) (ls_wfg st) c (ls_next st) (ls_blocked st).

Definition with_blocked (st : LockSt) (b : gmap N Waiter) : LockSt :=
  mkLockSt (ls_table st) (ls_held st) (ls_wfg st) (ls_closed st) (ls_next st) b.

(** The allocation of a request object. *)
Definition fresh_request (st : LockSt) : LockSt * N :=
  (mkLockSt (ls_table st) (ls_held st) (ls_wfg st) (ls_closed st)
     (ls_next st + 1) (ls_blocked st), ls_next st).

(** ** table.go *)

Definition Table_Get (st : LockSt) (r : ResourceID) : option Queue :=
  ls_table st !! ResourceID_String r.

Definition GetOrCreate (st : LockSt) (r : ResourceID) : LockSt * Queue :=
  match Table_Get st r with
  | Some q => (st, q)
  | None => (with_queue st r (NewQueue r), NewQueue r)
  end.

Definition Table_Delete (st : LockSt) (r : ResourceID) : LockSt :=
  mkLockSt (delete (ResourceID_String r) (ls_table st)) (ls_held st) (ls_wfg st)
    (ls_closed st) (ls_next st) (ls_blocked st).

Definition Table_Snapshot (st : LockSt) : list QueueSnapshot :=
  List.filter (fun s => (0 <? length (qs_Granted s)) || (0 <? length (qs_Waiting s)))
              ((fun kv => Queue_Snapshot kv.2) <$> map_to_list (ls_table st)).

(** ** grant.go *)

Inductive AcquireOutcome := AcqGranted | AcqWait (req : N).

(** [AcquireLockCtx] up to its [select] (or its early return). *)
Definition acquire (st : LockSt) (t : N) (r : ResourceID) (mode : Mode)
    : LockSt * AcquireOutcome :=
  let '(st, q) := GetOrCreate st r in
  let held := held_of st t in
  let stronger :=
    match Held_Get held r with
    | Some existing => LockStrength mode <=? LockStrength existing
    | None => false
    end in
  if stronger then (st, AcqGranted)
  else
    (* upgrade: the weaker grant is dropped first *)
    let '(q, held) :=
      match Held_Get held r with
      | Some existing =>
          if LockStrength existing <? LockStrength mode
          then ((RemoveGranted q t).1, Held_Delete held r) else (q, held)
      | None => (q, held)
      end in
    if CanGrant q mode t then
      let '(st, id) := fresh_request st in
      let q := AddGranted q (NewRequest id t mode) in
      (with_held (with_queue st r q) t (Held_Set held r mode), AcqGranted)
    else
      let conflictors := ConflictingTxns q mode t in
      let '(st, id) := fresh_request st in
      let req := NewRequest id t mode in
      let q :=
        match Held_Get held r with
        | Some existing =>
            if LockStrength existing <? LockStrength mode
            then AddWaitingFront q req else AddWaiting q req
        | None => AddWaiting q req
        end in
      let g := fold_left (fun g c => wfg_AddEdge g t c) conflictors (ls_wfg st) in
      let st := with_wfg (with_held (with_queue st r q) t held) g in
      (with_blocked st (<[t := mkWaiter r mode id]> (ls_blocked st)), AcqWait id).

(** [close(req.GrantedCh)] for each request; closing twice panics. *)
Fixpoint close_all (gs : list Request) (closed : gset N) : option (gset N) :=
  match gs with
  | [] => Some closed
  | g :: gs => if bool_decide (rq_id g ∈ closed) then None
               else close_all gs ({[rq_id g]} ∪ closed)
  end.

(** [q.GrantWaiters()] inside the table. *)
Definition grant_waiters (st : LockSt) (r : ResourceID) (q : Queue) : option LockSt :=
  let '(q', gs) := GrantWaiters q in
  match close_all gs (ls_closed st) with
  | None => None
  | Some c => Some (with_closed (with_queue st r q') c)
  end.

(** The branch [case <-req.GrantedCh]. *)
Definition wait_granted (st : LockSt) (t : N) (w : Waiter) : LockSt :=
  let st := with_wfg st (wfg_RemoveEdges (ls_wfg st) t) in
  let st := with_held st t (Held_Set (held_of st t) (w_res w) (w_mode w)) in
  with_blocked st (delete t (ls_blocked st)).

(** The branches [case <-abortCh], [case <-ctx.Done()], [case <-timer.C]:
    the same clean-up, three error values. *)
Definition wait_cancelled (st : LockSt) (t : N) (w : Waiter) (why : CancelReason)
    : option (LockSt * TxnError) :=
  let st := with_blocked st (delete t (ls_blocked st)) in
  let q := default (NewQueue (w_res w)) (Table_Get st (w_res w)) in
  let q := (RemoveWaiting q t).1 in
  let q := (RemoveGranted q t).1 in
  match grant_waiters st (w_res w) q with
  | None => None
  | Some st => Some (with_wfg st (wfg_RemoveEdges (ls_wfg st) t), cancel_error why)
  end.

Definition ReleaseLock (st : LockSt) (t : N) (r : ResourceID) : option LockSt :=
  match Table_Get st r with
  | None => Some st
  | Some q =>
      match grant_waiters st r (RemoveGranted q t).1 with
      | None => None
      | Some st => Some (with_held st t (Held_Delete (held_of st t) r))
      end
  end.

(** One iteration of the loop of [ReleaseAllLocks]. *)
Definition release_one (st : LockSt) (t : N) (r : ResourceID) : option LockSt :=
  match Table_Get st r with
  | None => Some (with_held st t (Held_Delete (held_of st t) r))
  | Some q =>
      match grant_waiters st r (RemoveGranted q t).1 with
      | None => None
      | Some st =>
          let empty :=
            match Table_Get st r with
            | Some q => (length (q_granted q) =? 0) && (length (q_waiting q) =? 0)
            | None => false
            end in
          let st := if empty then Table_Delete st r else st in
          Some (with_held st t (Held_Delete (held_of st t) r))
      end
  end.

Fixpoint release_each (st : LockSt) (t : N) (rs : list ResourceID) : option LockSt :=
  match rs with
  | [] => Some st
  | r :: rs => match release_one st t r with
               | None => None
               | Some st => release_each st t rs
               end
  end.

Definition ReleaseAllLocks (st : LockSt) (t : N) : option LockSt :=
  match release_each st t (Held_Keys (held_of st t)) with
  | None => None
  | Some st => Some (with_wfg st (wfg_RemoveEdges (ls_wfg st) t))
  end.

(** ** Runs of the lock manager

    A transaction runs one operation at a time; an abort releases its
    locks from another goroutine, also while it is blocked. *)

Inductive lstep (st : LockSt) : LockSt -> Prop :=
| step_acquire t r mode st' o :
    ls_blocked st !! t = None -> wf_resource r ->
    acquire st t r mode = (st', o) -> lstep st st'
| step_granted t w :
    ls_blocked st !! t = Some w -> w_req w ∈ ls_closed st ->
    lstep st (wait_granted st t w)
| step_cancelled t w why st' e :
    ls_blocked st !! t = Some w ->
    wait_cancelled st t w why = Some (st', e) -> lstep st st'
| step_release t r st' :
    wf_resource r -> (forall w, ls_blocked st !! t = Some w -> w_res w <> r) ->
    ReleaseLock st t r = Some st' -> lstep st st'
| step_release_all t st' :
    ReleaseAllLocks st t = Some st' -> lstep st st'.

Definition lock_init (g : G) : LockSt := mkLockSt ∅ ∅ g ∅ 0 ∅.

Inductive lreach (g : G) : LockSt -> Prop :=
| lreach_init : lreach g (lock_init g)
| lreach_step st st' : lreach g st -> lstep st st' -> lreach g st'.

(** ** The invariant

    Stated on the components it depends on; the wait-for graph plays no
    role in it. *)

Definition held_in (hd : gmap N HeldSet) (t : N) : HeldSet := default ∅ (hd !! t).

Definition waits_as (bl : gmap N Waiter) (q : Queue) (rq : Request) : Prop :=
  bl !! rq_TxnID rq = Some (mkWaiter (q_res q) (rq_Mode rq) (rq_id rq)).

Record queue_ok (hd : gmap N HeldSet) (cl : gset N) (bl : gmap N Waiter)
    (k : string) (q : Queue) : Prop := {
  qo_key : k = ResourceID_String (q_res q);
  qo_wf : wf_resource (q_res q);
  qo_inv : queue_inv q;
  (* every grant is held, or its goroutine has not woken up yet *)
  qo_granted : forall g, g ∈ q_granted q ->
    held_in hd (rq_TxnID g) !! q_res q = Some (rq_Mode g)
    \/ (waits_as bl q g /\ rq_id g ∈ cl);
  qo_waiting : forall g, g ∈ q_waiting q -> waits_as bl q g /\ rq_id g ∉ cl;
  qo_granted_nodup : NoDup (rq_TxnID <$> q_granted q);
  qo_waiting_nodup : NoDup (rq_TxnID <$> q_waiting q);
}.

Record Linv (tb : gmap string Queue) (hd : gmap N HeldSet) (cl : gset N) (nx : N)
    (bl : gmap N Waiter) : Prop := {
  li_queue : forall k q, tb !! k = Some q -> queue_ok hd cl bl k q;
  (* what a transaction holds is granted *)
  li_held : forall t r m, held_in hd t !! r = Some m ->
    exists q g, tb !! ResourceID_String r = Some q /\ q_res q = r
                /\ g ∈ q_granted q /\ rq_TxnID g = t /\ rq_Mode g = m;
  (* a blocked transaction waits for a resource it does not hold *)
  li_blocked : forall t w, bl !! t = Some w ->
    held_in hd t !! w_res w = None
    /\ (w_req w < nx)%N
    /\ exists q g, tb !! ResourceID_String (w_res w) = Some q /\ q_res q = w_res w
         /\ (g ∈ q_granted q \/ g ∈ q_waiting q) /\ rq_TxnID g = t;
  (* request identities are unique among the blocked *)
  li_req_inj : forall t1 t2 w1 w2,
    bl !! t1 = Some w1 -> bl !! t2 = Some w2 -> w_req w1 = w_req w2 -> t1 = t2;
  li_closed : forall id, id ∈ cl -> (id < nx)%N;
}.

Definition lock_inv (st : LockSt) : Prop :=
  Linv (ls_table st) (ls_held st) (ls_closed st) (ls_next st) (ls_blocked st).

Lemma held_in_insert hd t t' h :
  held_in (<[t := h]> hd) t' = if decide (t = t') then h else held_in hd t'.
Proof. unfold held_in. rewrite lookup_insert. by case_decide. Qed.

Lemma close_all_spec gs cl :
  NoDup (rq_id <$> gs) -> (forall g, g ∈ gs -> rq_id g ∉ cl) ->
  exists c, close_all gs cl = Some c
            /\ forall id, id ∈ c <-> id ∈ cl \/ id ∈ (rq_id <$> gs).
Proof.
  revert cl. induction gs as [|g gs IH]; intros cl Hn Hc; simpl.
  - exists cl. split; [done|]. intros id. rewrite elem_of_nil. tauto.
  - rewrite fmap_cons in Hn. apply NoDup_cons in Hn as [Hg Hn].
    rewrite bool_decide_false by (apply Hc; by left).
    destruct (IH ({[rq_id g]} ∪ cl) Hn) as (c & -> & Hc').
    + intros g' Hg'. rewrite elem_of_union, elem_of_singleton. intros [He|He].
      * apply Hg. rewrite <-He. by apply list_elem_of_fmap_2.
      * by apply (Hc g'); [right|].
    + exists c. split; [done|]. intros id. rewrite Hc', elem_of_cons. set_solver.
Qed.

(** A request is in at most one place: a granted one is not waiting. *)
Lemma granted_not_waiting tb hd cl nx bl k q g w :
  Linv tb hd cl nx bl -> tb !! k = Some q ->
  g ∈ q_granted q -> w ∈ q_waiting q -> rq_TxnID g <> rq_TxnID w.
Proof.
  intros HI Hq Hg Hw Heq. destruct (li_queue _ _ _ _ _ HI k q Hq) as [? ? ? HG HW ? ?].
  destruct (HW w Hw) as [Hww Hwc]. unfold waits_as in Hww.
  destruct (li_blocked _ _ _ _ _ HI _ _ Hww) as (Hh & _ & _). simpl in Hh.
  destruct (HG g Hg) as [Hh'|[Hgw Hgc]]; [congruence|].
  unfold waits_as in Hgw. rewrite Heq, Hww in Hgw. simplify_eq. congruence.
Qed.

Lemma waiting_ids_nodup tb hd cl nx bl k q :
  Linv tb hd cl nx bl -> tb !! k = Some q -> NoDup (rq_id <$> q_waiting q).
Proof.
  intros HI Hq. destruct (li_queue _ _ _ _ _ HI k q Hq) as [? ? ? _ HW _ HN].
  revert HW HN. generalize (q_waiting q) as ws. intros ws HW HN.
  induction ws as [|w ws IH]; rewrite ?fmap_nil, ?fmap_cons in *; [constructor|].
  apply NoDup_cons in HN as [Hw HN]. apply NoDup_cons. split.
  - intros (w' & Heq & Hw')%list_elem_of_fmap. apply Hw.
    destruct (HW w) as [H1 _]; [by left|]. destruct (HW w') as [H2 _]; [by right|].
    assert (rq_TxnID w = rq_TxnID w') as ->; [|by apply list_elem_of_fmap_2].
    exact (li_req_inj _ _ _ _ _ HI _ _ _ _ H1 H2 Heq).
  - apply IH; [|done]. intros g Hg. apply HW. by right.
Qed.

(** Elements of the lists the queue operations produce. *)
Lemma RemoveGranted_elem q t g :
  g ∈ q_granted (RemoveGranted q t).1 <-> g ∈ q_granted q /\ rq_TxnID g <> t.
Proof.
  simpl. rewrite !list_elem_of_In, filter_In. unfold of_txn.
  destruct (N.eqb_spec (rq_TxnID g) t); simpl; intuition congruence.
Qed.

Lemma RemoveGranted_nodup q t :
  NoDup (rq_TxnID <$> q_granted q) -> NoDup (rq_TxnID <$> q_granted (RemoveGranted q t).1).
Proof.
  simpl. induction (q_granted q) as [|g gs IH]; simpl; [done|].
  intros [Hg Hn]%NoDup_cons. destruct (negb _); [|by apply IH].
  apply NoDup_cons. split; [|by apply IH].
  intros (g' & Heq & Hg')%list_elem_of_fmap. apply Hg.
  apply list_elem_of_In, filter_In in Hg' as [Hg' _]. rewrite Heq.
  apply list_elem_of_fmap_2. by apply list_elem_of_In.
Qed.

Lemma remove_first_elem t ws g :
  NoDup (rq_TxnID <$> ws) -> g ∈ (remove_first t ws).1 <-> g ∈ ws /\ rq_TxnID g <> t.
Proof.
  induction ws as [|w ws IH]; simpl; [set_solver|]. intros [Hw Hn]%NoDup_cons.
  unfold of_txn. destruct (N.eqb_spec (rq_TxnID w) t) as [<-|Hne]; simpl.
  - rewrite elem_of_cons. split.
    + intros Hg. split; [by right|]. intros He. apply Hw. rewrite <-He.
      by apply list_elem_of_fmap_2.
    + by intros [[->|Hg] Hne].
  - destruct (remove_first t ws) as [ws' f]. simpl in *.
    rewrite !elem_of_cons, (IH Hn). split; [|tauto]. intros [->|?]; tauto.
Qed.

Lemma remove_first_nodup t ws :
  NoDup (rq_TxnID <$> ws) -> NoDup (rq_TxnID <$> (remove_first t ws).1).
Proof.
  induction ws as [|w ws IH]; simpl; [done|]. intros [Hw Hn]%NoDup_cons.
  destruct (of_txn t w); simpl; [done|].
  destruct (remove_first t ws) as [ws' f] eqn:E. simpl in *.
  apply NoDup_cons. split; [|by apply IH].
  intros (g & Heq & Hg)%list_elem_of_fmap. apply Hw. rewrite Heq.
  apply list_elem_of_fmap_2. apply (remove_first_incl t). by rewrite E.
Qed.

(** The key of a queue of the table determines its resource. *)
Lemma queue_res_key tb hd cl nx bl q r :
  Linv tb hd cl nx bl -> wf_resource r -> tb !! ResourceID_String r = Some q -> q_res q = r.
Proof.
  intros HI Hr Hq. destruct (li_queue _ _ _ _ _ HI _ _ Hq) as [Hk Hw _ _ _ _ _].
  symmetry. by apply ResourceID_String_inj_wf.
Qed.

Lemma held_ext tb hd hd' cl nx bl :
  (forall t, held_in hd' t = held_in hd t) -> Linv tb hd cl nx bl -> Linv tb hd' cl nx bl.
Proof.
  intros He [Hq Hh Hb Hr Hc]. split.
  - intros k q Hk. destruct (Hq k q Hk) as [? ? ? HG ? ? ?]. split; try done.
    intros g Hg. rewrite He. by apply HG.
  - intros t r m. rewrite He. apply Hh.
  - intros t w. rewrite He. apply Hb.
  - done.
  - done.
Qed.

(** Replacing a queue by one with the grants and waits of one transaction
    [t] taken out, together with what [t] holds or waits for there. *)
Lemma Linv_remove tb hd hd' cl nx bl bl' q q' t :
  let r := q_res q in
  Linv (<[ResourceID_String r := q]> tb) hd cl nx bl ->
  q_res q' = r -> queue_inv q' ->
  (forall g, g ∈ q_granted q' <-> g ∈ q_granted q /\ rq_TxnID g <> t) ->
  (forall g, g ∈ q_waiting q' <-> g ∈ q_waiting q /\ rq_TxnID g <> t) ->
  NoDup (rq_TxnID <$> q_granted q') -> NoDup (rq_TxnID <$> q_waiting q') ->
  held_in hd' t !! r = None ->
  (forall t' r', (t', r') <> (t, r) -> held_in hd' t' !! r' = held_in hd t' !! r') ->
  (forall t', t' <> t -> bl' !! t' = bl !! t') ->
  (forall w, bl' !! t = Some w -> bl !! t = Some w /\ w_res w <> r) ->
  (forall w, bl !! t = Some w -> bl' !! t = Some w \/ w_res w = r) ->
  Linv (<[ResourceID_String r := q']> tb) hd' cl nx bl'.
Proof.
  intros r [Hq Hh Hb Hr Hc] Hres Hqi HG HW HnG HnW Hht Hho Hbo Hbt Hbt'.
  pose proof (Hq _ _ (lookup_insert_eq _ _ _)) as Hqk.
  assert (Hbl : forall t' w, bl' !! t' = Some w -> bl !! t' = Some w).
  { intros t' w Hw. destruct (decide (t' = t)) as [->|Hne]; [by apply Hbt|by rewrite <-Hbo]. }
  assert (Hwait : forall k q2 g, <[ResourceID_String r := q']> tb !! k = Some q2 ->
    k <> ResourceID_String r -> waits_as bl q2 g -> waits_as bl' q2 g).
  { intros k q2 g Hk Hne Hw. unfold waits_as in *.
    destruct (decide (rq_TxnID g = t)) as [Ht|Ht]; [|by rewrite Hbo].
    rewrite Ht in *. destruct (Hbt' _ Hw) as [?|Hr2]; [done|]. simpl in Hr2.
    rewrite lookup_insert_ne in Hk by done.
    rewrite <-(lookup_insert_ne tb (ResourceID_String r) k q) in Hk by done.
    destruct (Hq _ _ Hk) as [Hkey _ _ _ _ _ _]. congruence. }
  split.
  - intros k q2 Hk. destruct (decide (k = ResourceID_String r)) as [->|Hne].
    + rewrite lookup_insert_eq in Hk. simplify_eq.
      destruct Hqk as [Hkey Hwf Hi HG0 HW0 _ _]. split; [by rewrite Hres|by rewrite Hres|done| | |done|done].
      * intros g [Hg Hne]%HG. rewrite Hres.
        destruct (HG0 g Hg) as [He|[He Hcl]].
        -- left. rewrite Hho; [done|]. intros ?; simplify_eq.
        -- right. split; [|done]. unfold waits_as in *. rewrite Hbo, Hres; done.
      * intros g [Hg Hne]%HW. destruct (HW0 g Hg) as [He Hcl]. split; [|done].
        unfold waits_as in *. rewrite Hbo, Hres; done.
    + pose proof Hk as Hk0. rewrite lookup_insert_ne in Hk by done.
      rewrite <-(lookup_insert_ne tb (ResourceID_String r) k q) in Hk by done.
      destruct (Hq _ _ Hk) as [Hkey Hwf Hi HG0 HW0 Hn1 Hn2]. split; try done.
      * intros g Hg. destruct (HG0 g Hg) as [He|[He Hcl]].
        -- left. rewrite Hho; [done|]. intros ?. simplify_eq. congruence.
        -- right. split; [|done]. by eapply Hwait.
      * intros g Hg. destruct (HW0 g Hg) as [He Hcl]. split; [|done]. by eapply Hwait.
  - intros t' r' m Hm. destruct (decide ((t', r') = (t, r))) as [[= -> ->]|Hne]; [congruence|].
    rewrite Hho in Hm by done. destruct (Hh _ _ _ Hm) as (q2 & g & Hk & Hres2 & Hg & Ht & Hmm).
    destruct (decide (ResourceID_String r' = ResourceID_String r)) as [He|He].
    + rewrite He, lookup_insert_eq in Hk |- *. simplify_eq. exists q', g. split_and!; try done.
      apply HG. split; [done|]. intros Ht. apply Hne. rewrite <-Ht. done.
    + rewrite lookup_insert_ne in Hk |- * by done. by exists q2, g.
  - intros t' w Hw. pose proof (Hbl _ _ Hw) as Hw0.
    destruct (Hb _ _ Hw0) as (Hn & Hlt & q2 & g & Hk & Hres2 & Hg & Ht).
    assert ((t', w_res w) <> (t, r)) as Hne.
    { intros [= -> Hr2]. destruct (Hbt _ Hw). done. }
    split; [by rewrite Hho|]. split; [done|].
    destruct (decide (ResourceID_String (w_res w) = ResourceID_String r)) as [He|He].
    + rewrite He, lookup_insert_eq in Hk |- *. simplify_eq. exists q', g. rewrite Hres.
      split_and!; try done. rewrite HG, HW.
      assert (rq_TxnID g <> t) as Hg2 by (intros Ht2; apply Hne; rewrite Ht2, <-Hres2; done).
      tauto.
    + rewrite lookup_insert_ne in Hk |- * by done. by exists q2, g.
  - intros t1 t2 w1 w2 H1%Hbl H2%Hbl. by apply Hr.
  - done.
Qed.

(** Granting waiters never closes a channel twice, and keeps the invariant. *)
Lemma Linv_grant_queue hd cl cl' bl q q' pre :
  queue_ok hd cl bl (ResourceID_String (q_res q)) q -> queue_inv q' ->
  q_waiting q = pre ++ q_waiting q' ->
  q_granted q' = q_granted q ++ (set_status StatusGranted <$> pre) -> q_res q' = q_res q ->
  NoDup (rq_id <$> q_waiting q) ->
  (forall g w, g ∈ q_granted q -> w ∈ q_waiting q -> rq_TxnID g <> rq_TxnID w) ->
  (forall id, id ∈ cl' <-> id ∈ cl \/ id ∈ (rq_id <$> pre)) ->
  queue_ok hd cl' bl (ResourceID_String (q_res q)) q'.
Proof.
  intros [_ Hwf _ HG HW HnG HnW] Hi Hw Hgr Hres Hids Hdis Hcl.
  rewrite Hw in HW, HnW, Hids, Hdis. rewrite fmap_app in HnW, Hids.
  apply NoDup_app in HnW as (Hn1 & Hn2 & Hn3). apply NoDup_app in Hids as (_ & Hi2 & _).
  assert (Hfm : rq_TxnID <$> (set_status StatusGranted <$> pre) = rq_TxnID <$> pre).
  { rewrite <-list_fmap_compose. by apply list_fmap_ext. }
  split; [by rewrite Hres|by rewrite Hres|done| | | |done].
  - rewrite Hgr, Hres. intros g [Hg|(w & -> & Hp)%list_elem_of_fmap]%elem_of_app.
    + destruct (HG g Hg) as [?|[Ha Hc]]; [by left|right]. unfold waits_as in *.
      rewrite Hres, Hcl. auto.
    + right. simpl. destruct (HW w) as [Ha _]; [set_solver|]. unfold waits_as in *. simpl.
      rewrite Hres, Hcl. split; [done|]. right. by apply list_elem_of_fmap_2.
  - intros g Hg. destruct (HW g) as [Ha Hc]; [set_solver|]. unfold waits_as in *.
    rewrite Hres, Hcl. split; [done|]. intros [?|Hp]; [done|].
    apply (Hi2 _ Hp). by apply list_elem_of_fmap_2.
  - rewrite Hgr, fmap_app, Hfm. apply NoDup_app. split_and!; [done| |done].
    intros t (g & -> & Hg)%list_elem_of_fmap (w & He & Hp)%list_elem_of_fmap.
    apply (Hdis g w); [done|set_solver|done].
Qed.

Lemma Linv_grant tb hd cl nx bl q q' gs :
  let k := ResourceID_String (q_res q) in
  Linv (<[k := q]> tb) hd cl nx bl -> GrantWaiters q = (q', gs) ->
  exists c, close_all gs cl = Some c /\ Linv (<[k := q']> tb) hd c nx bl.
Proof.
  intros k HI Hg. pose proof (lookup_insert_eq tb k q) as Hk.
  pose proof (waiting_ids_nodup _ _ _ _ _ _ _ HI Hk) as Hids.
  pose proof (fun g w => granted_not_waiting _ _ _ _ _ _ _ g w HI Hk) as Hdis.
  pose proof (li_queue _ _ _ _ _ HI _ _ Hk) as Hqo.
  pose proof (GrantWaiters_inv q (qo_inv _ _ _ _ _ Hqo)) as Hi. rewrite Hg in Hi.
  destruct (GrantWaiters_shape _ _ _ Hg) as (pre & Hw & -> & Hgr & Hres).
  assert (Hidpre : rq_id <$> (set_status StatusGranted <$> pre) = rq_id <$> pre).
  { rewrite <-list_fmap_compose. by apply list_fmap_ext. }
  assert (Hpre : forall w, w ∈ pre -> waits_as bl q w /\ rq_id w ∉ cl).
  { intros w Hp. apply (qo_waiting _ _ _ _ _ Hqo). rewrite Hw. set_solver. }
  destruct (close_all_spec (set_status StatusGranted <$> pre) cl) as (c & -> & Hc).
  { rewrite Hidpre. rewrite Hw, fmap_app in Hids. by apply NoDup_app in Hids as [? _]. }
  { intros g (w & -> & Hp)%list_elem_of_fmap. by destruct (Hpre w Hp). }
  exists c. split; [done|]. rewrite Hidpre in Hc. destruct HI as [Hq Hh Hb Hr Hcl]. split.
  - intros k2 q2 Hk2. destruct (decide (k2 = k)) as [->|Hne].
    + rewrite lookup_insert_eq in Hk2. simplify_eq. by eapply Linv_grant_queue.
    + rewrite lookup_insert_ne in Hk2 by done.
      rewrite <-(lookup_insert_ne tb k k2 q) in Hk2 by done.
      destruct (Hq _ _ Hk2) as [Hkey Hwf2 Hi2 HG HW Hn1 Hn2]. split; try done.
      * intros g Hg2. destruct (HG g Hg2) as [?|[Ha Hcl2]]; [by left|right]. rewrite Hc. auto.
      * intros g Hg2. destruct (HW g Hg2) as [Ha Hcl2]. split; [done|]. rewrite Hc.
        intros [?|(w & He & Hp)%list_elem_of_fmap]; [done|]. destruct (Hpre w Hp) as [Hb2 _].
        pose proof (Hr _ _ _ _ Ha Hb2 He) as Ht. unfold waits_as in Ha, Hb2.
        rewrite Ht, Hb2 in Ha. injection Ha as Hres2 _ _.
        apply Hne. rewrite Hkey. unfold k. congruence.
  - intros t r m (q2 & g & Hk2 & Hr2 & Hg2 & Ht & Hm)%Hh.
    destruct (decide (ResourceID_String r = k)) as [He|He].
    + rewrite He, lookup_insert_eq in Hk2 |- *. simplify_eq. exists q', g.
      rewrite Hgr. split_and!; try done. set_solver.
    + rewrite lookup_insert_ne in Hk2 |- * by done. by exists q2, g.
  - intros t w (H1 & H2 & q2 & g & Hk2 & Hr2 & Hg2 & Ht)%Hb. split_and!; [done|done|].
    destruct (decide (ResourceID_String (w_res w) = k)) as [He|He].
    + rewrite He, lookup_insert_eq in Hk2 |- *. simplify_eq. exists q'.
      rewrite Hgr. destruct Hg2 as [Hg2|Hg2]; 
        [exists g; split_and!; try done; [congruence|set_solver]|].
      rewrite Hw in Hg2. apply elem_of_app in Hg2 as [Hg2|Hg2]; 
        [|exists g; split_and!; try done; [congruence|set_solver]].
      exists (set_status StatusGranted g). split_and!; try done; [congruence|].
      left. apply elem_of_app. right. by apply list_elem_of_fmap_2.
    + rewrite lookup_insert_ne in Hk2 |- * by done. by exists q2, g.
  - done.
  - intros id [?|(w & -> & Hp)%list_elem_of_fmap]%Hc; [by apply Hcl|].
    destruct (Hpre w Hp) as [Ha _]. by destruct (Hb _ _ Ha) as (_ & ? & _).
Qed.

Lemma grant_waiters_inv st q :
  Linv (<[ResourceID_String (q_res q) := q]> (ls_table st)) (ls_held st) (ls_closed st)
       (ls_next st) (ls_blocked st) ->
  exists c, grant_waiters st (q_res q) q
            = Some (with_closed (with_queue st (q_res q) (GrantWaiters q).1) c)
    /\ lock_inv (with_closed (with_queue st (q_res q) (GrantWaiters q).1) c).
Proof.
  intros HI. unfold grant_waiters. destruct (GrantWaiters q) as [q' gs] eqn:Hg.
  destruct (Linv_grant _ _ _ _ _ _ _ _ HI Hg) as (c & -> & HI'). by exists c.
Qed.

Lemma insert_lookup_id (tb : gmap string Queue) k q : tb !! k = Some q -> <[k := q]> tb = tb.
Proof. apply insert_id. Qed.

(** Nothing of [t] waits in a queue [t] is not blocked on. *)
Lemma not_blocked_not_waiting tb hd cl nx bl k q t g :
  Linv tb hd cl nx bl -> tb !! k = Some q ->
  (forall w, bl !! t = Some w -> w_res w <> q_res q) ->
  g ∈ q_waiting q -> rq_TxnID g <> t.
Proof.
  intros HI Hk Hb Hg <-. destruct (li_queue _ _ _ _ _ HI _ _ Hk) as [_ _ _ _ HW _ _].
  destruct (HW g Hg) as [Hw _]. by apply (Hb _ Hw).
Qed.

(** Taking the grant of [t] out of a queue, with its entry of the held set. *)
Lemma Linv_release tb hd cl nx bl q t :
  let r := q_res q in
  Linv tb hd cl nx bl -> tb !! ResourceID_String r = Some q ->
  (forall w, bl !! t = Some w -> w_res w <> r) ->
  Linv (<[ResourceID_String r := (RemoveGranted q t).1]> tb)
       (<[t := delete r (held_in hd t)]> hd) cl nx bl.
Proof.
  intros r HI Hk Hb. pose proof (li_queue _ _ _ _ _ HI _ _ Hk) as Hqo.
  apply (Linv_remove tb hd _ cl nx bl bl q _ t).
  - by rewrite insert_lookup_id.
  - done.
  - apply RemoveGranted_inv, (qo_inv _ _ _ _ _ Hqo).
  - intros g. apply RemoveGranted_elem.
  - intros g. simpl. split; [|by intros [? _]]. intros Hg. split; [done|].
    by eapply not_blocked_not_waiting.
  - apply RemoveGranted_nodup, (qo_granted_nodup _ _ _ _ _ Hqo).
  - apply (qo_waiting_nodup _ _ _ _ _ Hqo).
  - rewrite held_in_insert, decide_True by done. apply lookup_delete_eq.
  - intros t' r' Hne. rewrite held_in_insert. case_decide as He; [|done]. subst t'.
    rewrite lookup_delete_ne; [done|]. intros <-. by apply Hne.
  - done.
  - intros w Hw. split; [done|]. by apply Hb.
  - intros w Hw. by left.
Qed.

Lemma grant_waiters_held st t h r q :
  grant_waiters (with_held st t h) r q
  = (fun st => with_held st t h) <$> grant_waiters st r q.
Proof.
  unfold grant_waiters. destruct (GrantWaiters q). simpl. by destruct (close_all _ _).
Qed.

Lemma grant_waiters_same_held st r q st' :
  grant_waiters st r q = Some st' ->
  ls_held st' = ls_held st /\ ls_blocked st' = ls_blocked st /\ ls_wfg st' = ls_wfg st
  /\ ls_table st' = <[ResourceID_String r := (GrantWaiters q).1]> (ls_table st).
Proof. unfold grant_waiters. intros H'. cases. Qed.

(** Dropping a queue without entries. *)
Lemma Linv_delete tb hd cl nx bl k q :
  Linv tb hd cl nx bl -> tb !! k = Some q -> q_granted q = [] -> q_waiting q = [] ->
  Linv (delete k tb) hd cl nx bl.
Proof.
  intros [Hq Hh Hb Hr Hc] Hk HG HW. split; [| | |done|done].
  - intros k2 q2 Hk2. apply lookup_delete_Some in Hk2 as [_ Hk2]. by apply Hq.
  - intros t r m (q2 & g & Hk2 & ? & Hg & ?)%Hh. exists q2, g. split_and!; try done; [|tauto..].
    rewrite lookup_delete_ne; [done|]. intros ->. simplify_eq. rewrite HG in Hg. set_solver.
  - intros t w (? & ? & q2 & g & Hk2 & ? & Hg & ?)%Hb. split_and!; try done. exists q2, g.
    split_and!; try done. rewrite lookup_delete_ne; [done|]. intros ->. simplify_eq.
    rewrite HG, HW in Hg. set_solver.
Qed.

(** [ReleaseLock] and the loop body of [ReleaseAllLocks] do not panic and
    keep the invariant. *)
Lemma grant_after_release st t r q :
  lock_inv st -> wf_resource r -> Table_Get st r = Some q ->
  (forall w, ls_blocked st !! t = Some w -> w_res w <> r) ->
  exists st', grant_waiters st r (RemoveGranted q t).1 = Some st'
    /\ lock_inv (with_held st' t (Held_Delete (held_of st t) r)).
Proof.
  intros HI Hr Hk Hb. unfold Table_Get in Hk.
  pose proof (queue_res_key _ _ _ _ _ _ _ HI Hr Hk) as Hres. subst r.
  pose proof (Linv_release _ _ _ _ _ _ t HI Hk Hb) as HL.
  destruct (grant_waiters_inv (with_held st t (delete (q_res q) (held_of st t)))
              (RemoveGranted q t).1 HL) as (c & Hg & HI').
  rewrite grant_waiters_held in Hg. simpl q_res in Hg.
  destruct (grant_waiters st _ _) as [st'|]; [|done]. apply (inj Some) in Hg.
  exists st'. split; [done|]. unfold Held_Delete. by rewrite Hg.
Qed.

Lemma ReleaseLock_inv st t r :
  lock_inv st -> wf_resource r ->
  (forall w, ls_blocked st !! t = Some w -> w_res w <> r) ->
  exists st', ReleaseLock st t r = Some st' /\ lock_inv st'.
Proof.
  intros HI Hr Hb. unfold ReleaseLock. destruct (Table_Get st r) as [q|] eqn:Hk; [|by eauto].
  destruct (grant_after_release st t r q HI Hr Hk Hb) as (st' & Hg & HI').
  rewrite Hg. apply grant_waiters_same_held in Hg as (Hh & _).
  eexists. split; [done|]. unfold held_of in *. by rewrite Hh.
Qed.

Lemma release_one_inv st t r m :
  lock_inv st -> held_of st t !! r = Some m ->
  exists st', release_one st t r = Some st' /\ lock_inv st'
    /\ held_of st' t = delete r (held_of st t) /\ ls_blocked st' = ls_blocked st.
Proof.
  intros HI Hm. destruct (li_held _ _ _ _ _ HI _ _ _ Hm) as (q & g & Hk & Hres & Hg & Ht & Hgm).
  pose proof (qo_wf _ _ _ _ _ (li_queue _ _ _ _ _ HI _ _ Hk)) as Hwf. rewrite Hres in Hwf.
  destruct (grant_after_release st t r q HI Hwf Hk) as (st' & Hgr & HI').
  { intros w Hw He. destruct (li_blocked _ _ _ _ _ HI _ _ Hw) as (Hn & _).
    unfold held_of, held_in in *. congruence. }
  unfold release_one, Table_Get. rewrite Hk, Hgr. cbv iota beta.
  apply grant_waiters_same_held in Hgr as (Hh & Hb & _ & Htb).
  assert (Hho : held_of st' t = held_of st t) by (unfold held_of; by rewrite Hh).
  rewrite Htb, lookup_insert_eq. eexists. split; [done|]. rewrite <-Hho in HI' |- *.
  split; [|split; [by unfold held_of; destruct (_ && _); simpl; rewrite lookup_insert_eq, Hh|
                   by destruct (_ && _)]].
  destruct (_ && _) eqn:E; [|done]. breflect.
  apply (Linv_delete _ _ _ _ _ _ (GrantWaiters (RemoveGranted q t).1).1); simpl.
  - done.
  - by rewrite Htb, lookup_insert_eq.
  - by apply length_zero_iff_nil.
  - by apply length_zero_iff_nil.
Qed.

Lemma release_each_inv rs st t :
  lock_inv st -> NoDup rs -> (forall r, r ∈ rs -> is_Some (held_of st t !! r)) ->
  exists st', release_each st t rs = Some st' /\ lock_inv st'
    /\ (forall r, held_of st' t !! r = if decide (r ∈ rs) then None else held_of st t !! r).
Proof.
  revert st. induction rs as [|r rs IH]; intros st HI Hn Hrs; cbn [release_each].
  { exists st. split_and!; [done|done|]. intros r. case_decide; set_solver. }
  apply NoDup_cons in Hn as [Hr Hn]. destruct (Hrs r) as [m Hm]; [by left|].
  destruct (release_one_inv st t r m HI Hm) as (st1 & -> & HI1 & Hh1 & _).
  destruct (IH st1 HI1 Hn) as (st2 & -> & HI2 & Hh2).
  { intros r' Hr'. rewrite Hh1, lookup_delete_ne by set_solver. apply Hrs. by right. }
  exists st2. split_and!; [done|done|]. intros r'. rewrite Hh2, Hh1.
  destruct (decide (r' = r)) as [->|Hne].
  - rewrite lookup_delete_eq. repeat case_decide; set_solver.
  - rewrite lookup_delete_ne by done. repeat case_decide; set_solver.
Qed.

Lemma Held_Keys_elem (h : HeldSet) r : r ∈ Held_Keys h <-> is_Some (h !! r).
Proof.
  unfold Held_Keys. rewrite list_elem_of_fmap. split.
  - intros ([r' m] & -> & Hm%elem_of_map_to_list). by exists m.
  - intros [m Hm%elem_of_map_to_list]. by exists (r, m).
Qed.

Lemma ReleaseAllLocks_inv st t :
  lock_inv st ->
  exists st', ReleaseAllLocks st t = Some st' /\ lock_inv st' /\ held_of st' t = ∅.
Proof.
  intros HI. unfold ReleaseAllLocks.
  destruct (release_each_inv (Held_Keys (held_of st t)) st t HI) as (st' & -> & HI' & Hh).
  { apply NoDup_fst_map_to_list. }
  { intros r. by rewrite Held_Keys_elem. }
  eexists. split_and!; [done|done|]. apply map_eq. intros r.
  transitivity (held_of st' t !! r); [done|]. rewrite Hh, lookup_empty.
  case_decide as Hd; [done|]. rewrite Held_Keys_elem in Hd. by apply eq_None_not_Some.
Qed.

(** The clean-up of a cancelled wait. *)
Lemma wait_cancelled_inv st t w why :
  lock_inv st -> ls_blocked st !! t = Some w ->
  exists st' e, wait_cancelled st t w why = Some (st', e) /\ lock_inv st'
    /\ ls_blocked st' = delete t (ls_blocked st)
    /\ forall q g, Table_Get st' (w_res w) = Some q ->
         g ∈ q_granted q \/ g ∈ q_waiting q -> rq_TxnID g <> t.
Proof.
  intros HI Hw. destruct (li_blocked _ _ _ _ _ HI _ _ Hw) as (Hn & _ & q & g & Hk & Hres & _).
  pose proof (li_queue _ _ _ _ _ HI _ _ Hk) as Hqo.
  unfold wait_cancelled, Table_Get. cbn [ls_table with_blocked]. rewrite Hk. cbn [from_option]. unfold id.
  set (q1 := (RemoveWaiting q t).1). set (q2 := (RemoveGranted q1 t).1).
  assert (Hw1 : q_res q1 = q_res q /\ q_granted q1 = q_granted q
                /\ q_waiting q1 = (remove_first t (q_waiting q)).1).
  { unfold q1, RemoveWaiting. by destruct (remove_first t (q_waiting q)). }
  destruct Hw1 as (Hr1 & Hg1 & Hw1).
  assert (HG2 : forall x, x ∈ q_granted q2 <-> x ∈ q_granted q /\ rq_TxnID x <> t).
  { intros x. unfold q2. by rewrite RemoveGranted_elem, Hg1. }
  assert (HW2 : forall x, x ∈ q_waiting q2 <-> x ∈ q_waiting q /\ rq_TxnID x <> t).
  { intros x. unfold q2. simpl. rewrite Hw1. apply remove_first_elem, (qo_waiting_nodup _ _ _ _ _ Hqo). }
  assert (Hr2 : q_res q2 = w_res w) by (unfold q2; simpl; congruence).
  destruct (grant_waiters_inv (with_blocked st (delete t (ls_blocked st))) q2) as (c & Hg & HI').
  { rewrite Hr2, <-Hres. simpl.
    apply (Linv_remove _ (ls_held st) _ _ _ (ls_blocked st) _ q q2 t).
    - rewrite insert_lookup_id; [done|]. by rewrite Hres.
    - congruence.
    - apply RemoveGranted_inv, RemoveWaiting_inv, (qo_inv _ _ _ _ _ Hqo).
    - done.
    - done.
    - apply RemoveGranted_nodup. rewrite Hg1. apply (qo_granted_nodup _ _ _ _ _ Hqo).
    - unfold q2. simpl. rewrite Hw1. apply remove_first_nodup, (qo_waiting_nodup _ _ _ _ _ Hqo).
    - by rewrite Hres.
    - done.
    - intros t' Hne. by rewrite lookup_delete_ne.
    - intros w'. by rewrite lookup_delete_eq.
    - intros w' Hw'. right. congruence. }
  rewrite Hr2 in Hg, HI'. rewrite Hg.
  eexists _, _. split; [done|]. split; [done|]. split; [done|].
  intros q3 x Hq3. simpl in Hq3. rewrite lookup_insert_eq in Hq3.
  apply (inj Some) in Hq3 as <-. clearbody q2. clear Hg HI'.
  destruct (GrantWaiters q2) as [q4 gs] eqn:E.
  destruct (GrantWaiters_shape _ _ _ E) as (pre & Hpw & -> & Hgr & _). simpl. rewrite Hgr.
  assert (Hp : forall x, x ∈ pre \/ x ∈ q_waiting q4 -> rq_TxnID x <> t).
  { intros y Hy. apply (HW2 y). rewrite Hpw. set_solver. }
  intros [[Hx|(y & -> & Hy)%list_elem_of_fmap]%elem_of_app|?].
  - by destruct (proj1 (HG2 x) Hx).
  - apply (Hp y). by left.
  - apply Hp. by right.
Qed.

(** Waking up: the grant becomes a held lock. *)
Lemma wait_granted_inv st t w :
  lock_inv st -> ls_blocked st !! t = Some w -> w_req w ∈ ls_closed st ->
  lock_inv (wait_granted st t w).
Proof.
  intros [Hq Hh Hb Hr Hc] Hw Hcl.
  set (hd := <[t := <[w_res w := w_mode w]> (held_of st t)]> (ls_held st)).
  change (Linv (ls_table st) hd (ls_closed st) (ls_next st) (delete t (ls_blocked st))).
  assert (Hho : forall t' r', (t', r') <> (t, w_res w) ->
    held_in hd t' !! r' = held_in (ls_held st) t' !! r').
  { intros t' r' Hne. unfold hd. rewrite held_in_insert. case_decide as He; [|done]. subst t'.
    rewrite lookup_insert_ne; [done|]. intros <-. by apply Hne. }
  assert (Hht : held_in hd t !! w_res w = Some (w_mode w)).
  { unfold hd. rewrite held_in_insert, decide_True by done. apply lookup_insert_eq. }
  clearbody hd.
  destruct (Hb _ _ Hw) as (Hn & _ & q & g & Hk & Hres & Hgw & Ht).
  destruct (Hq _ _ Hk) as [_ Hwf _ HG HW _ _].
  assert (g ∈ q_granted q /\ waits_as (ls_blocked st) q g) as [Hg Hwg].
  { destruct Hgw as [Hg|Hg].
    - split; [done|]. destruct (HG g Hg) as [He|[He _]]; [|done]. rewrite Ht, Hres in He. congruence.
    - destruct (HW g Hg) as [He Hno]. unfold waits_as in He. rewrite Ht, Hw in He. simplify_eq.
      done. }
  unfold waits_as in Hwg. rewrite Ht, Hw in Hwg. simplify_eq. simpl in *.
  split.
  - intros k q2 Hk2. destruct (Hq _ _ Hk2) as [Hkey Hwf2 Hi HG2 HW2 Hn1 Hn2]. split; try done.
    + intros x Hx. destruct (decide ((rq_TxnID x, q_res q2) = (rq_TxnID g, q_res q))) as [[= E1 E2]|Hne].
      * left. rewrite E1, E2, Hht.
        assert (q2 = q) as -> by (rewrite Hkey, E2 in Hk2; congruence).
        f_equal. destruct (HG2 x Hx) as [He|[He _]].
        -- rewrite E1 in He. congruence.
        -- unfold waits_as in He. rewrite E1, Hw in He. by simplify_eq.
      * rewrite Hho by done. destruct (HG2 x Hx) as [?|[He Hcx]]; [by left|right].
        split; [|done]. unfold waits_as in *. rewrite lookup_delete_ne; [done|].
        intros E1. rewrite <-E1, Hw in He. simplify_eq. apply Hne. congruence.
    + intros x Hx. destruct (HW2 x Hx) as [He Hcx]. split; [|done]. unfold waits_as in *.
      rewrite lookup_delete_ne; [done|]. intros E1. rewrite <-E1, Hw in He. simplify_eq. congruence.
  - intros t' r' m. destruct (decide ((t', r') = (rq_TxnID g, q_res q))) as [[= -> ->]|Hne].
    + rewrite Hht. intros [= <-]. by exists q, g.
    + rewrite Hho by done. apply Hh.
  - intros t' w'. rewrite lookup_delete_Some. intros [Hne Hw'].
    destruct (Hb _ _ Hw') as (? & ? & ?). split; [|done]. rewrite Hho; [done|]. congruence.
  - intros t1 t2 w1 w2. rewrite !lookup_delete_Some. intros [_ ?] [_ ?]. by apply Hr.
  - done.
Qed.

Lemma GetOrCreate_inv st r st' q :
  lock_inv st -> wf_resource r -> GetOrCreate st r = (st', q) ->
  lock_inv st' /\ Table_Get st' r = Some q /\ q_res q = r
  /\ ls_held st' = ls_held st /\ ls_blocked st' = ls_blocked st.
Proof.
  intros HI Hr. unfold GetOrCreate. destruct (Table_Get st r) as [q0|] eqn:Hk; intros [= <- <-].
  { split_and!; try done. by eapply queue_res_key. }
  split_and!; try done; [|by unfold Table_Get; simpl; rewrite lookup_insert_eq].
  destruct HI as [Hq Hh Hb Hri Hc]. unfold Table_Get in Hk. split; simpl; [| | |done|done].
  - intros k q [[<- <-]|[_ Hk2]]%lookup_insert_Some; [|by apply Hq].
    split; simpl; try done; try (intros g Hg; by apply elem_of_nil in Hg); constructor.
  - intros t r' m (q & g & Hk2 & ?)%Hh. exists q, g. split; [|done].
    rewrite lookup_insert_ne; [done|]. congruence.
  - intros t w (? & ? & q & g & Hk2 & ?)%Hb. split_and!; try done. exists q, g. split; [|done].
    rewrite lookup_insert_ne; [done|]. congruence.
Qed.

(** Adding an entry for a transaction that has none in the queue. *)
Lemma no_entry tb hd cl nx bl q t :
  Linv tb hd cl nx bl -> tb !! ResourceID_String (q_res q) = Some q ->
  bl !! t = None -> held_in hd t !! q_res q = None ->
  (forall g, g ∈ q_granted q -> rq_TxnID g <> t) /\ (forall g, g ∈ q_waiting q -> rq_TxnID g <> t).
Proof.
  intros HI Hk Hb Hh. destruct (li_queue _ _ _ _ _ HI _ _ Hk) as [_ _ _ HG HW _ _]. split.
  - intros g Hg <-. destruct (HG g Hg) as [?|[Hw _]]; [congruence|]. unfold waits_as in Hw. congruence.
  - intros g Hg <-. destruct (HW g Hg) as [Hw _]. unfold waits_as in Hw. congruence.
Qed.

Lemma not_elem_txn (gs : list Request) t :
  (forall g, g ∈ gs -> rq_TxnID g <> t) -> t ∉ (rq_TxnID <$> gs).
Proof. intros H' (g & -> & Hg)%list_elem_of_fmap. by apply (H' g). Qed.

Lemma Linv_AddGranted tb hd cl nx bl q t m :
  let r := q_res q in
  Linv (<[ResourceID_String r := q]> tb) hd cl nx bl ->
  bl !! t = None -> held_in hd t !! r = None -> CanGrant q m t = true ->
  Linv (<[ResourceID_String r := AddGranted q (NewRequest nx t m)]> tb)
       (<[t := <[r := m]> (held_in hd t)]> hd) cl (nx + 1) bl.
Proof.
  intros r HI Hbt Hht Hcan. pose proof (lookup_insert_eq tb (ResourceID_String r) q) as Hk.
  destruct (no_entry _ _ _ _ _ q t HI Hk Hbt Hht) as [HnG HnW].
  destruct HI as [Hq Hh Hb Hri Hc]. pose proof (Hq _ _ Hk) as Hqo.
  assert (Hho : forall t' r', (t', r') <> (t, r) ->
    held_in (<[t := <[r := m]> (held_in hd t)]> hd) t' !! r' = held_in hd t' !! r').
  { intros t' r' Hne. rewrite held_in_insert. case_decide as He; [|done]. subst t'.
    rewrite lookup_insert_ne; [done|]. intros <-. by apply Hne. }
  assert (Hht' : held_in (<[t := <[r := m]> (held_in hd t)]> hd) t !! r = Some m).
  { rewrite held_in_insert, decide_True by done. apply lookup_insert_eq. }
  generalize dependent (<[t := <[r := m]> (held_in hd t)]> hd). intros hd' Hho Hht'.
  split; [| | |done|].
  - intros k q2 [[<- <-]|[Hne Hk2]]%lookup_insert_Some.
    + destruct Hqo as [Hkey Hwf Hi HG HW Hn1 Hn2]. split; simpl; try done.
      * by apply AddGranted_inv.
      * intros g [Hg| ->%list_elem_of_singleton]%elem_of_app; [|by left].
        destruct (HG g Hg) as [?|?]; [left|by right]. rewrite Hho; [done|].
        intros [= E]. by apply (HnG g).
      * rewrite fmap_app. simpl. apply NoDup_app. split_and!; [done| |repeat constructor; set_solver].
        intros x Hx ->%list_elem_of_singleton. by apply (not_elem_txn _ _ HnG).
    + rewrite <-(lookup_insert_ne tb (ResourceID_String r) k q) in Hk2 by done.
      destruct (Hq _ _ Hk2) as [Hkey Hwf Hi HG HW Hn1 Hn2]. split; try done.
      intros g Hg. rewrite Hho; [by apply HG|]. intros [= E1 E2]. by rewrite E2 in Hkey.
  - intros t' r' m'. destruct (decide ((t', r') = (t, r))) as [[= -> ->]|Hne].
    + rewrite Hht'. intros [= <-]. eexists _, _. rewrite lookup_insert_eq. split; [done|].
      split; [done|]. split; [apply elem_of_app; right; by apply list_elem_of_singleton|]. done.
    + rewrite Hho by done. intros (q2 & g & Hk2 & Hr2 & Hg & ?)%Hh.
      apply lookup_insert_Some in Hk2 as [[He <-]|[He Hk2]].
      * eexists _, g. rewrite <-He, lookup_insert_eq. split; [done|]. split; [done|].
        split; [simpl; set_solver|done].
      * exists q2, g. rewrite lookup_insert_ne by done. done.
  - intros t' w Hw. assert (t' <> t) as Hne by congruence.
    destruct (Hb _ _ Hw) as (Hn & Hlt & q2 & g & Hk2 & Hr2 & Hg & ?).
    split; [rewrite Hho; [done|congruence]|]. split; [lia|].
    apply lookup_insert_Some in Hk2 as [[He <-]|[He Hk2]].
    + eexists _, g. rewrite <-He, lookup_insert_eq. split; [done|]. split; [done|].
      split; [simpl; set_solver|done].
    + exists q2, g. by rewrite lookup_insert_ne by done.
  - intros id Hid. apply Hc in Hid. lia.
Qed.

Lemma Linv_AddWaiting tb hd cl nx bl q t m :
  let r := q_res q in
  Linv (<[ResourceID_String r := q]> tb) hd cl nx bl ->
  bl !! t = None -> held_in hd t !! r = None ->
  Linv (<[ResourceID_String r := AddWaiting q (NewRequest nx t m)]> tb) hd cl (nx + 1)
       (<[t := mkWaiter r m nx]> bl).
Proof.
  intros r HI Hbt Hht. pose proof (lookup_insert_eq tb (ResourceID_String r) q) as Hk.
  destruct (no_entry _ _ _ _ _ q t HI Hk Hbt Hht) as [HnG HnW].
  destruct HI as [Hq Hh Hb Hri Hc]. pose proof (Hq _ _ Hk) as Hqo.
  assert (Hbo : forall q' g, waits_as bl q' g -> waits_as (<[t := mkWaiter r m nx]> bl) q' g).
  { intros q' g Hw. unfold waits_as in *. rewrite lookup_insert_ne; [done|congruence]. }
  split.
  - intros k q2 [[<- <-]|[Hne Hk2]]%lookup_insert_Some.
    + destruct Hqo as [Hkey Hwf Hi HG HW Hn1 Hn2]. split; simpl; try done.
      * intros g Hg. destruct (HG g Hg) as [?|[? ?]]; [by left|right]. split; [by apply Hbo|done].
      * intros g [Hg| ->%list_elem_of_singleton]%elem_of_app.
        -- destruct (HW g Hg). split; [by apply Hbo|done].
        -- unfold waits_as. simpl. rewrite lookup_insert_eq. split; [done|].
           intros Hx%Hc. lia.
      * rewrite fmap_app. simpl. apply NoDup_app. split_and!; [done| |repeat constructor; set_solver].
        intros x Hx ->%list_elem_of_singleton. by apply (not_elem_txn _ _ HnW).
    + rewrite <-(lookup_insert_ne tb (ResourceID_String r) k q) in Hk2 by done.
      destruct (Hq _ _ Hk2) as [Hkey Hwf Hi HG HW Hn1 Hn2]. split; try done.
      * intros g Hg. destruct (HG g Hg) as [?|[? ?]]; [by left|right]. split; [by apply Hbo|done].
      * intros g Hg. destruct (HW g Hg). split; [by apply Hbo|done].
  - intros t' r' m' (q2 & g & Hk2 & Hr2 & Hg & ?)%Hh.
    apply lookup_insert_Some in Hk2 as [[He <-]|[He Hk2]].
    + eexists _, g. rewrite <-He, lookup_insert_eq. split; [done|]. done.
    + exists q2, g. by rewrite lookup_insert_ne by done.
  - intros t' w [[<- <-]|[Hne Hw]]%lookup_insert_Some; simpl.
    + split; [done|]. split; [lia|]. eexists _, _. rewrite lookup_insert_eq. split; [done|].
      split; [done|]. split; [right; apply elem_of_app; right; by apply list_elem_of_singleton|done].
    + destruct (Hb _ _ Hw) as (Hn & Hlt & q2 & g & Hk2 & Hr2 & Hg & ?).
      split; [done|]. split; [lia|]. apply lookup_insert_Some in Hk2 as [[He <-]|[He Hk2]].
      * eexists _, g. rewrite <-He, lookup_insert_eq. split; [done|]. split; [done|].
        split; [simpl; set_solver|done].
      * exists q2, g. by rewrite lookup_insert_ne by done.
  - intros t1 t2 w1 w2 [[<- <-]|[Hne1 H1]]%lookup_insert_Some
                       [[<- <-]|[Hne2 H2]]%lookup_insert_Some Heq; simpl in *; [done| | |by eapply Hri].
    + destruct (Hb _ _ H2) as (_ & ? & _). lia.
    + destruct (Hb _ _ H1) as (_ & ? & _). lia.
  - intros id Hid%Hc. lia.
Qed.

Lemma insert_held_in hd t : forall t', held_in (<[t := held_in hd t]> hd) t' = held_in hd t'.
Proof. intros t'. rewrite held_in_insert. case_decide; congruence. Qed.

(** The state in front of the grant decision of [acquire]: the weaker grant
    has been dropped, and [t] has nothing on the resource. *)
Lemma upgrade_drop_inv st t r q (mode : Mode) q' h :
  lock_inv st -> Table_Get st r = Some q -> q_res q = r -> ls_blocked st !! t = None ->
  (match Held_Get (held_of st t) r with
   | Some existing =>
       if LockStrength existing <? LockStrength mode
       then ((RemoveGranted q t).1, Held_Delete (held_of st t) r) else (q, held_of st t)
   | None => (q, held_of st t)
   end) = (q', h) ->
  (match Held_Get (held_of st t) r with
   | Some existing => LockStrength mode <=? LockStrength existing | None => false end) = false ->
  h !! r = None /\ q_res q' = r
  /\ Linv (<[ResourceID_String r := q']> (ls_table st)) (<[t := h]> (ls_held st)) (ls_closed st)
       (ls_next st) (ls_blocked st).
Proof.
  intros HI Hk <- Hb. unfold Held_Get, Table_Get in *.
  destruct (held_of st t !! q_res q) as [ex|] eqn:He; intros Heq Hs.
  - apply Nat.leb_gt in Hs. apply Nat.ltb_lt in Hs. rewrite Hs in Heq. simplify_eq.
    split; [apply lookup_delete_eq|]. split; [done|].
    apply Linv_release; [done|done|]. intros w Hw. congruence.
  - simplify_eq. split_and!; try done. rewrite insert_lookup_id by done.
    eapply held_ext; [|exact HI]. apply insert_held_in.
Qed.

Lemma acquire_inv st t r mode st' o :
  lock_inv st -> wf_resource r -> ls_blocked st !! t = None ->
  acquire st t r mode = (st', o) -> lock_inv st'.
Proof.
  intros HI Hr Hb. unfold acquire. destruct (GetOrCreate st r) as [st1 q] eqn:Hg.
  destruct (GetOrCreate_inv _ _ _ _ HI Hr Hg) as (HI1 & Hk & Hres & Hh & Hb1).
  rewrite <-Hb1 in Hb. match goal with |- (if ?c then _ else _) = _ -> _ => destruct c eqn:Hs end;
    [by intros [= <- <-]|].
  match goal with |- (let '(_, _) := ?x in _) = _ -> _ => destruct x as [q2 h2] eqn:Hd end.
  destruct (upgrade_drop_inv st1 t r q mode _ _ HI1 Hk Hres Hb Hd Hs) as (Hn & Hr2 & HL).
  rewrite <-Hr2 in HL, Hn |- *.
  assert (Hin : held_in (<[t := h2]> (ls_held st1)) t = h2)
    by (rewrite held_in_insert; by rewrite decide_True).
  assert (Hn' : held_in (<[t := h2]> (ls_held st1)) t !! q_res q2 = None) by (by rewrite Hin).
  destruct (CanGrant q2 mode t) eqn:Hc.
  - intros [= <- <-]. unfold lock_inv. simpl.
    pose proof (Linv_AddGranted _ _ _ _ _ _ t mode HL Hb Hn' Hc) as HA.
    rewrite Hin, insert_insert_eq in HA. exact HA.
  - unfold Held_Get. rewrite Hn. intros [= <- <-]. unfold lock_inv. simpl.
    exact (Linv_AddWaiting _ _ _ _ _ _ t mode HL Hb Hn').
Qed.

Lemma lstep_inv st st' : lock_inv st -> lstep st st' -> lock_inv st'.
Proof.
  intros HI [t r m st2 o Hb Hr Ha|t w Hw Hc|t w why st2 e Hw Hc|t r st2 Hr Hb Hc|t st2 Hc].
  - by eapply acquire_inv.
  - by apply wait_granted_inv.
  - destruct (wait_cancelled_inv st t w why HI Hw) as (st3 & e3 & He & HI' & _). congruence.
  - destruct (ReleaseLock_inv st t r HI Hr Hb) as (st3 & He & HI'). congruence.
  - destruct (ReleaseAllLocks_inv st t HI) as (st3 & He & HI' & _). congruence.
Qed.

Lemma lock_init_inv g : lock_inv (lock_init g).
Proof.
  split; unfold held_in; simpl; intros *; rewrite ?lookup_empty; try done; set_solver.
Qed.

Lemma lreach_inv g st : lreach g st -> lock_inv st.
Proof. induction 1; [apply lock_init_inv|by eapply lstep_inv]. Qed.

(** Two grants of one queue are compatible. *)
Lemma queue_inv_compatible q g1 g2 :
  queue_inv q -> g1 ∈ q_granted q -> g2 ∈ q_granted q -> rq_TxnID g1 <> rq_TxnID g2 ->
  LockCompatible (rq_Mode g1) (rq_Mode g2) = true.
Proof.
  unfold queue_inv, pairwise_compatible. intros Hp. revert g1 g2.
  induction Hp as [|g gs Hf Hp IH]; intros g1 g2; [by intros ?%elem_of_nil|].
  rewrite Forall_forall in Hf.
  intros [->|H1]%elem_of_cons [->|H2]%elem_of_cons Hne; [done|by apply Hf| |by apply IH].
  rewrite LockCompatible_sym. by apply Hf.
Qed.

Lemma held_compatible st t1 t2 r m1 m2 :
  lock_inv st -> t1 <> t2 ->
  held_of st t1 !! r = Some m1 -> held_of st t2 !! r = Some m2 -> LockCompatible m1 m2 = true.
Proof.
  intros HI Hne H1 H2.
  destruct (li_held _ _ _ _ _ HI _ _ _ H1) as (q1 & g1 & Hk1 & _ & Hg1 & <- & <-).
  destruct (li_held _ _ _ _ _ HI _ _ _ H2) as (q2 & g2 & Hk2 & _ & Hg2 & <- & <-).
  rewrite Hk1 in Hk2. simplify_eq.
  apply (queue_inv_compatible q2); try done. apply (qo_inv _ _ _ _ _ (li_queue _ _ _ _ _ HI _ _ Hk1)).
Qed.

(** What [acquire] decides, and the state it decides in. *)
Lemma acquire_outcome st t r mode :
  let q := (GetOrCreate st r).2 in
  (acquire st t r mode).2 = AcqGranted <->
    (exists ex, held_of st t !! r = Some ex /\ LockStrength mode <= LockStrength ex)
    \/ (forall g, g ∈ q_granted q -> rq_TxnID g <> t -> LockCompatible mode (rq_Mode g) = true).
Proof.
  unfold acquire. destruct (GetOrCreate st r) as [st1 q] eqn:Hg. cbn [snd].
  assert (Hh : held_of st1 t = held_of st t).
  { unfold GetOrCreate in Hg. destruct (Table_Get st r); by simplify_eq. }
  rewrite Hh. unfold Held_Get.
  assert (Hcan : forall q', q_granted q' = q_granted q \/ q' = (RemoveGranted q t).1 ->
    CanGrant q' mode t = true <->
    (forall g, g ∈ q_granted q -> rq_TxnID g <> t -> LockCompatible mode (rq_Mode g) = true)).
  { intros q' Hq'. split.
    - intros Hc g Hg1 Hg2. apply (CanGrant_others q' mode t); [done| |done].
      destruct Hq' as [->| ->]; [done|]. by apply RemoveGranted_elem.
    - intros Ha. apply forallb_forall. intros g Hg1%list_elem_of_In. apply orb_true_iff.
      destruct (N.eqb_spec (rq_TxnID g) t) as [?|Hne]; [by left|right]. apply Ha; [|done].
      destruct Hq' as [<-| ->]; [done|]. by apply RemoveGranted_elem in Hg1 as [? _]. }
  destruct (held_of st t !! r) as [ex|].
  - destruct (Nat.leb_spec (LockStrength mode) (LockStrength ex)) as [Hle|Hlt]; simpl.
    { split; [|done]. intros _. left. by exists ex. }
    rewrite (proj2 (Nat.ltb_lt _ _) Hlt), <-(Hcan (RemoveGranted q t).1) by (by right).
    destruct (CanGrant _ mode t) eqn:Hc; simpl; [tauto|]. split; [done|].
    intros [(ex' & [= <-] & ?)|?]; [lia|done].
  - rewrite <-(Hcan q) by (by left). destruct (CanGrant q mode t) eqn:Hc; simpl; [tauto|].
    split; [done|]. by intros [(ex & ? & _)|?].
Qed.
End Acquire.

(** ** Executable runs, for concrete schedules *)

Inductive LockOp :=
| OpAcquire (t : N) (r : ResourceID) (m : Mode)
| OpWake (t : N)
| OpCancel (t : N) (why : CancelReason)
| OpReleaseAll (t : N).

#[export] Instance wf_resource_dec r : Decision (wf_resource r).
Proof. unfold wf_resource. destruct (r_Type r); apply _. Defined.

Definition exec_op {G} `{WFGInterface G} (st : LockSt) (op : LockOp) : option (@LockSt G) :=
  match op with
  | OpAcquire t r m =>
      if bool_decide (ls_blocked st !! t = None /\ wf_resource r)
      then Some (acquire st t r m).1 else None
  | OpWake t =>
      match ls_blocked st !! t with
      | Some w => if bool_decide (w_req w ∈ ls_closed st) then Some (wait_granted st t w) else None
      | None => None
      end
  | OpCancel t why =>
      match ls_blocked st !! t with
      | Some w => fst <$> wait_cancelled st t w why
      | None => None
      end
  | OpReleaseAll t => ReleaseAllLocks st t
  end.

#[export] Instance Waiter_eq_dec : EqDecision Waiter.
Proof. solve_decision. Defined.

Fixpoint exec_ops {G} `{WFGInterface G} (st : LockSt) (ops : list LockOp) : option (@LockSt G) :=
  match ops with
  | [] => Some st
  | op :: ops => exec_op st op ≫= fun st => exec_ops st ops
  end.

Lemma exec_op_step {G} `{WFGInterface G} (st st' : @LockSt G) op :
  exec_op st op = Some st' -> lstep st st'.
Proof.
  destruct op as [t r m|t|t why|t]; simpl; intros He.
  - case_bool_decide as Hb; [|done]. destruct Hb. injection He as <-.
    apply (step_acquire _ t r m _ (acquire st t r m).2); [done|done|].
    by destruct (acquire st t r m).
  - destruct (ls_blocked st !! t) as [w|] eqn:Hw; [|done]. case_bool_decide; [|done].
    injection He as <-. by apply step_granted.
  - destruct (ls_blocked st !! t) as [w|] eqn:Hw; [|done].
    destruct (wait_cancelled st t w why) as [[st2 e]|] eqn:Hc; [|done].
    injection He as <-. by eapply step_cancelled.
  - by eapply step_release_all.
Qed.

Lemma exec_ops_reach {G} `{WFGInterface G} g (st st' : @LockSt G) ops :
  lreach g st -> exec_ops st ops = Some st' -> lreach g st'.
Proof.
  revert st. induction ops as [|op ops IH]; intros st Hr He; simpl in He; [by simplify_eq|].
  destruct (exec_op st op) as [st1|] eqn:E; [|done].
  apply (IH st1); [|done]. apply (lreach_step _ st); [done|]. by eapply exec_op_step.
Qed.

(** ** Properties *)


(** Clean-up always succeeds: in a reachable state [ReleaseAllLocks]
    runs to its end (no granted channel is closed twice) and leaves the
    transaction with no lock; a cancelled wait also runs to its end and
    leaves no request of the transaction in the queue, whether it was still
    waiting or had been granted in the meantime. *)
Theorem lock_cleanup {G} `{WFGInterface G} (g : G) st t :
  lreach g st ->
  (exists st', ReleaseAllLocks st t = Some st' /\ held_of st' t = ∅)
  /\ forall w why, ls_blocked st !! t = Some w ->
     exists st' e, wait_cancelled st t w why = Some (st', e) /\ ls_blocked st' !! t = None
       /\ forall q rq, Table_Get st' (w_res w) = Some q ->
            rq ∈ q_granted q \/ rq ∈ q_waiting q -> rq_TxnID rq <> t.
Proof.
  intros Hr%lreach_inv. split.
  - destruct (ReleaseAllLocks_inv st t Hr) as (st' & He & _ & Hh). by exists st'.
  - intros w why Hw. destruct (wait_cancelled_inv st t w why Hr Hw) as (st' & e & He & _ & Hb & Hn).
    exists st', e. split_and!; [done| |done]. by rewrite Hb, lookup_delete_eq.
Qed.

(** [AcquireLockCtx] returns at once exactly when the transaction
    already holds a lock of at least the requested strength, or when no
    other transaction holds a conflicting mode. The waiting list is not
    looked at: a compatible request overtakes the requests that wait. *)
Theorem acquire_decision {G} `{WFGInterface G} (st : @LockSt G) t r mode :
  (acquire st t r mode).2 = AcqGranted <->
    (exists ex, held_of st t !! r = Some ex /\ LockStrength mode <= LockStrength ex)
    \/ (forall rq, rq ∈ q_granted (GetOrCreate st r).2 -> rq_TxnID rq <> t ->
          LockCompatible mode (rq_Mode rq) = true).
Proof. apply acquire_outcome. Qed.

(** An upgrade is not atomic: a transaction that holds a weaker lock
    and has to wait for the stronger one has given the weaker lock up
    before it waits, so between the two another transaction can be granted
    a conflicting lock. *)
Theorem upgrade_gives_up_lock {G} `{WFGInterface G} (st : @LockSt G) t r mode ex st' req :
  held_of st t !! r = Some ex -> acquire st t r mode = (st', AcqWait req) ->
  held_of st' t !! r = None.
Proof.
  intros Hh. unfold acquire. destruct (GetOrCreate st r) as [st1 q] eqn:Hg.
  assert (Hh1 : held_of st1 t = held_of st t).
  { unfold GetOrCreate in Hg. destruct (Table_Get st r); by simplify_eq. }
  rewrite Hh1. unfold Held_Get. rewrite Hh.
  destruct (Nat.leb_spec (LockStrength mode) (LockStrength ex)) as [Hle|Hlt]; [done|].
  rewrite (proj2 (Nat.ltb_lt _ _) Hlt). destruct (CanGrant _ mode t); [done|].
  intros [= <- _]. unfold held_of. simpl. rewrite lookup_insert_eq. apply lookup_delete_eq.
Qed.

(** A graph that forgets everything, to evaluate schedules with. *)
Definition wfg_unit : WFGInterface unit :=
  {| wfg_AddEdge := fun _ _ _ => tt; wfg_RemoveEdges := fun _ _ => tt |}.

Definition row1 : ResourceID := ResourceForRow "t" "1".

(** Two readers of one row; both then ask for the exclusive lock. *)
Definition upgrade_run : list LockOp :=
  [OpAcquire 1 row1 LockS; OpAcquire 2 row1 LockS; OpAcquire 1 row1 LockX;
   OpAcquire 2 row1 LockX].

Definition run_ops (ops : list LockOp) : option (@LockSt unit) :=
  @exec_ops unit wfg_unit (@lock_init unit tt) ops.

Definition run_state (n : nat) : @LockSt unit :=
  default (lock_init tt) (run_ops (take n upgrade_run)).

Lemma run_state_reach n :
  run_ops (take n upgrade_run) = Some (run_state n) -> @lreach unit wfg_unit tt (run_state n).
Proof. apply (@exec_ops_reach unit wfg_unit tt (lock_init tt)), lreach_init. Qed.


Lemma lock_cleanup_witness :
  exists w st' e, ls_blocked (run_state 3) !! 1%N = Some w
    /\ @wait_cancelled unit wfg_unit (run_state 3) 1 w CancelTimeout = Some (st', e).
Proof.
  destruct (@lock_cleanup unit wfg_unit tt (run_state 3) 1) as [_ Hc].
  { apply run_state_reach. vm_compute. reflexivity. }
  assert (Hw : ls_blocked (run_state 3) !! 1%N = Some (mkWaiter row1 LockX 2))
    by (vm_compute; reflexivity).
  destruct (Hc _ CancelTimeout Hw) as (st' & e & He & _).
  exists (mkWaiter row1 LockX 2), st', e. split; [exact Hw|exact He].
Defined.

(** The lost protection is real: after the upgrade request of the first
    reader the second one gets the exclusive lock. *)
Lemma upgrade_gives_up_lock_witness :
  held_of (@acquire unit wfg_unit (run_state 2) 1 row1 LockX).1 1 !! row1 = None
  /\ (@acquire unit wfg_unit (run_state 3) 2 row1 LockX).2 = AcqGranted.
Proof.
  split; [|vm_compute; reflexivity].
  apply (@upgrade_gives_up_lock unit wfg_unit (run_state 2) 1 row1 LockX LockS _ 2).
  - vm_compute. reflexivity.
  - vm_compute. reflexivity.
Defined.

(** ** A queue deleted after its lookup

    [GetOrCreate] returns a reference to the queue and the caller locks it
    afterwards; [ReleaseAllLocks] deletes an empty queue after it has
    unlocked it. Here queues are objects and the table has references. *)

Record QueueRefs := mkRefs {
  qr_objs : gmap nat Queue;
  qr_table : gmap string nat;
  qr_next : nat;
}.

Definition ref_GetOrCreate (h : QueueRefs) (r : ResourceID) : QueueRefs * nat :=
  match qr_table h !! ResourceID_String r with
  | Some i => (h, i)
  | None =>
      let i := qr_next h in
      (mkRefs (<[i := NewQueue r]> (qr_objs h)) (<[ResourceID_String r := i]> (qr_table h)) (S i), i)
  end.

Definition ref_Delete (h : QueueRefs) (r : ResourceID) : QueueRefs :=
  mkRefs (qr_objs h) (delete (ResourceID_String r) (qr_table h)) (qr_next h).

Definition ref_set (h : QueueRefs) (i : nat) (q : Queue) : QueueRefs :=
  mkRefs (<[i := q]> (qr_objs h)) (qr_table h) (qr_next h).

(** What [AcquireLockCtx] does to its queue and held set under the queue's
    mutex, when it does not have to wait. *)
Definition queue_acquire (q : Queue) (held : HeldSet) (t : N) (r : ResourceID) (mode : Mode) (id : N) : option (Queue * HeldSet) :=
  if match Held_Get held r with Some ex => LockStrength mode <=? LockStrength ex | None => false end
  then Some (q, held)
  else
    let '(q, held) :=
      match Held_Get held r with
      | Some ex => if LockStrength ex <? LockStrength mode then ((RemoveGranted q t).1, Held_Delete held r) else (q, held)
      | None => (q, held)
      end in
    if CanGrant q mode t then Some (AddGranted q (NewRequest id t mode), Held_Set held r mode) else None.

(** The part of [AcquireLockCtx] in [acquire] is this one. *)
Lemma acquire_queue_acquire {G} `{WFGInterface G} (st : @LockSt G) t r mode :
  let st1 := (GetOrCreate st r).1 in let q := (GetOrCreate st r).2 in
  (acquire st t r mode).2 = AcqGranted ->
  exists q' held', queue_acquire q (held_of st t) t r mode (ls_next st) = Some (q', held')
    /\ held_of (acquire st t r mode).1 t = held'
    /\ ls_table (acquire st t r mode).1 !! ResourceID_String r = Some q'.
Proof.
  cbn zeta. unfold acquire, queue_acquire. destruct (GetOrCreate st r) as [st1 q] eqn:Hg. cbn [fst snd].
  assert (E : held_of st1 t = held_of st t /\ ls_next st1 = ls_next st /\ ls_table st1 !! ResourceID_String r = Some q).
  { unfold GetOrCreate, Table_Get in Hg. destruct (ls_table st !! _) eqn:Hk; simplify_eq; [done|].
    cbn. by rewrite lookup_insert_eq. }
  destruct E as (E1 & E2 & E3). rewrite E1. destruct (match Held_Get _ r with Some _ => _ | None => _ end).
  { intros _. eexists _, _. split; [done|]. cbn. by rewrite E1. }
  destruct (match Held_Get _ r with Some _ => _ | None => _ end) as [q1 h1].
  destruct (CanGrant q1 mode t); cbn; [|done]. intros _. eexists _, _. split; [done|]. rewrite E2. unfold held_of. cbn.
  by rewrite !lookup_insert_eq.
Qed.

(** The transaction [t0] has the only request of the queue [i] of a
    resource; a call of [t1] has looked the queue up. When [t0] releases its
    locks before that call locks the queue, the queue is deleted, and then
    [t1] gets any mode in the deleted queue and [t2] any mode in a new one. *)
Theorem deleted_queue_two_holders h r i q rq t1 t2 m1 m2 held1 held2 id1 id2 :
  ref_GetOrCreate h r = (h, i) -> qr_objs h !! i = Some q -> i < qr_next h ->
  q_granted q = [rq] -> q_waiting q = [] -> held1 !! r = None -> held2 !! r = None ->
  let q0 := (GrantWaiters (RemoveGranted q (rq_TxnID rq)).1).1 in
  (length (q_granted q0) =? 0) && (length (q_waiting q0) =? 0) = true
  /\ let h0 := ref_Delete (ref_set h i q0) r in
     exists q1 h2 j q2,
       queue_acquire q0 held1 t1 r m1 id1 = Some (q1, Held_Set held1 r m1)
       /\ ref_GetOrCreate (ref_set h0 i q1) r = (h2, j) /\ j <> i
       /\ qr_objs h2 !! i = Some q1 /\ qr_objs h2 !! j = Some (NewQueue r)
       /\ queue_acquire (NewQueue r) held2 t2 r m2 id2 = Some (q2, Held_Set held2 r m2).
Proof.
  intros Hg Hq Hi Hgr Hw Hh1 Hh2 q0.
  assert (E : q0 = mkQueue (q_res q) [] []).
  { unfold q0, RemoveGranted. rewrite Hgr. cbn [List.filter]. unfold of_txn. rewrite N.eqb_refl. cbn [negb fst]. unfold GrantWaiters. cbn. by rewrite Hw. }
  split; [by rewrite E|]. cbn zeta. eexists _, _, (qr_next h), _.
  split; [unfold queue_acquire, Held_Get; rewrite Hh1, E; cbn; done|].
  split; [unfold ref_GetOrCreate; cbn; rewrite lookup_delete_eq; done|]. split; [lia|].
  cbn. rewrite lookup_insert_ne by lia. rewrite !lookup_insert_eq.
  split_and!; [done|done|]. unfold queue_acquire, Held_Get. by rewrite Hh2.
Qed.

Lemma deleted_queue_two_holders_witness :
  let q := AddGranted (NewQueue row1) (NewRequest 0 1 LockX) in
  let h := mkRefs {[0 := q]} {[ResourceID_String row1 := 0]} 1 in
  exists q1 h2 j q2,
    queue_acquire (GrantWaiters (RemoveGranted q 1).1).1 ∅ 2 row1 LockX 1 = Some (q1, Held_Set ∅ row1 LockX)
    /\ ref_GetOrCreate (ref_set (ref_Delete (ref_set h 0 (GrantWaiters (RemoveGranted q 1).1).1) row1) 0 q1) row1 = (h2, j)
    /\ queue_acquire (NewQueue row1) ∅ 3 row1 LockX 2 = Some (q2, Held_Set ∅ row1 LockX).
Proof.
  intros q h.
  destruct (deleted_queue_two_holders h row1 0 q (set_status StatusGranted (NewRequest 0 1 LockX)) 2 3 LockX LockX ∅ ∅ 1 2)
    as [_ (q1 & h2 & j & q2 & E1 & E2 & _ & _ & _ & E3)]; try reflexivity; [cbn; lia|].
  exists q1, h2, j, q2. split; [exact E1|]. split; [exact E2|exact E3].
Defined.
