(* ===== verification/Deadlock.v ===== *)
(** * Deadlock detection and prevention ([internal/deadlock])

    graph.go, detector.go, history.go and prevention.go: the wait-for
    graph, the depth-first search of [FindCycle] with its colours, parent
    pointers and cycle reconstruction, one tick of the detector, the bounded
    history and the two prevention policies. The graph is the instance of
    the interface [WFGInterface] the lock manager calls. *)

From Stdlib Require Import NArith Lia String.
From stdpp Require Import base tactics numbers list gmap sets relations.
From S2P Require Import Prelude Types Lock Acquire.

(** ** graph.go *)

Notation WaitForGraph := (gmap N (gset N)).

Definition NewWaitForGraph : WaitForGraph := ∅.

(** [g.edges[v]]; a missing node reads as the nil map. *)
Definition succs (g : WaitForGraph) (v : N) : gset N := default ∅ (g !! v).

Definition AddEdge (g : WaitForGraph) (from to : N) : WaitForGraph :=
  let g := <[from := {[to]} ∪ succs g from]> g in
  match g !! to with
  | None => <[to := ∅]> g
  | Some _ => g
  end.

Definition RemoveNode (g : WaitForGraph) (txnID : N) : WaitForGraph :=
  (fun tos => tos ∖ {[txnID]}) <$> delete txnID g.

Definition RemoveEdges (g : WaitForGraph) (txnID : N) : WaitForGraph := delete txnID g.

Definition Nodes (g : WaitForGraph) : list N := (map_to_list g).*1.

Definition Edges (g : WaitForGraph) : list (N * N) :=
  map_to_list g ≫= fun '(from, tos) => (fun to => (from, to)) <$> elements tos.

#[export] Instance wfg_graph : WFGInterface WaitForGraph :=
  {| wfg_AddEdge := AddEdge; wfg_RemoveEdges := RemoveEdges |}.

Definition selectVictim (cycle : list N) : N :=
  fold_left (fun maxID id => if (maxID <? id)%N then id else maxID) cycle 0%N.

(** The variables the search shares: [color] (0 white, 1 gray, 2 black;
    a missing key reads 0), [parent], [cycleStart] and [cycleEnd]. *)
Record DfsSt := mkDfs {
  d_color : gmap N nat;
  d_parent : gmap N N;
  d_start : N;
  d_end : N;
}.

Definition color (s : DfsSt) (v : N) : nat := default 0 (d_color s !! v).
Definition parent (s : DfsSt) (v : N) : N := default 0%N (d_parent s !! v).
Definition set_color (s : DfsSt) (v : N) (c : nat) : DfsSt :=
  mkDfs (<[v := c]> (d_color s)) (d_parent s) (d_start s) (d_end s).
Definition set_parent (s : DfsSt) (w v : N) : DfsSt :=
  mkDfs (d_color s) (<[w := v]> (d_parent s)) (d_start s) (d_end s).
Definition set_cycle (s : DfsSt) (w v : N) : DfsSt := mkDfs (d_color s) (d_parent s) w v.

Section FindCycle.
(** The order in which Go's [range] visits the keys of a map is unspecified:
    [iter v s] is the order in which the search visits the successors [s] of
    [v], [iter_nodes] the order of the outer loop. *)
Context (iter : N -> gset N -> list N) (iter_nodes : gset N -> list N).

Section Search.
Context (g : WaitForGraph).

(** The loop over the successors of [v], with the recursive call abstracted. *)
Fixpoint dfs_loop (rec : N -> DfsSt -> option (bool * DfsSt)) (v : N) (ws : list N) (s : DfsSt)
    : option (bool * DfsSt) :=
  match ws with
  | [] => Some (false, set_color s v 2)
  | w :: ws =>
      if color s w =? 1 then Some (true, set_cycle s w v)
      else if color s w =? 0 then
        match rec w (set_parent s w v) with
        | None => None
        | Some (true, s) => Some (true, s)
        | Some (false, s) => dfs_loop rec v ws s
        end
      else dfs_loop rec v ws s
  end.

(** [None]: out of fuel. *)
Fixpoint dfs (fuel : nat) (v : N) (s : DfsSt) : option (bool * DfsSt) :=
  match fuel with
  | 0 => None
  | S fuel => dfs_loop (dfs fuel) v (iter v (succs g v)) (set_color s v 1)
  end.

(** [for cur := cycleEnd; cur != cycleStart; cur = parent[cur]]. *)
Fixpoint rebuild (fuel : nat) (s : DfsSt) (cur : N) (cycle : list N) : option (list N) :=
  if (cur =? d_start s)%N then Some cycle
  else match fuel with
       | 0 => None
       | S fuel => rebuild fuel s (parent s cur) (cur :: cycle)
       end.

Fixpoint outer_loop (fuel : nat) (nodes : list N) (s : DfsSt) : option (option (N * list N)) :=
  match nodes with
  | [] => Some None
  | node :: nodes =>
      if color s node =? 0 then
        match dfs fuel node s with
        | None => None
        | Some (true, s) =>
            match rebuild fuel s (d_end s) [d_start s] with
            | None => None
            | Some cycle =>
                let cycle := cycle ++ [d_start s] in
                Some (Some (selectVictim cycle, cycle))
            end
        | Some (false, s) => outer_loop fuel nodes s
        end
      else outer_loop fuel nodes s
  end.

(** Every node the search can visit. *)
Definition all_nodes : gset N := dom g ∪ ⋃ (map_to_list g).*2.

Definition FindCycle_fuel (fuel : nat) : option (option (N * list N)) :=
  outer_loop fuel (iter_nodes (dom g)) (mkDfs ∅ ∅ 0 0).

(** [Some None]: no cycle; [Some (Some (victim, cycle))]. *)
Definition FindCycle : option (option (N * list N)) := FindCycle_fuel (S (size all_nodes)).
End Search.
End FindCycle.

(** ** history.go *)

Record DeadlockRecord := mkRecord {
  dr_ID : string;
  dr_Cycle : list N;
  dr_Victim : N;
  dr_VictimReason : string;
}.

Record History := mkHistory { h_records : list DeadlockRecord; h_maxSize : nat }.

Definition NewHistory : History := mkHistory [] 100.

Definition History_Add (h : History) (r : DeadlockRecord) : History :=
  let rs := h_records h ++ [r] in
  mkHistory (if h_maxSize h <? length rs then drop (length rs - h_maxSize h) rs else rs)
            (h_maxSize h).

(** ** detector.go

    One tick; the record's identifier, built from the clock, is an argument.
    The result names the victim and the cycle handed to the abort callback,
    which the caller runs. *)

Record Detector := mkDetector { det_graph : WaitForGraph; det_history : History }.

Definition Detector_tick iter iter_nodes (id : string) (d : Detector)
    : option (Detector * option (N * list N)) :=
  match FindCycle iter iter_nodes (det_graph d) with
  | None => None
  | Some None => Some (d, None)
  | Some (Some (victim, cycle)) =>
      let h := History_Add (det_history d) (mkRecord id cycle victim "youngest") in
      Some (mkDetector (RemoveNode (det_graph d) victim) h, Some (victim, cycle))
  end.

(** ** prevention.go *)

Inductive Action := ActionWait | ActionDie | ActionWound.

Definition WaitDie (requesterID holderID : N) : Action :=
  if (requesterID <? holderID)%N then ActionWait else ActionDie.

Definition WoundWait (requesterID holderID : N) : Action :=
  if (requesterID <? holderID)%N then ActionWound else ActionWait.

(** ** The specification: edges and cycles *)

Definition edge (g : WaitForGraph) (x y : N) : Prop := y ∈ succs g x.

Definition acyclic (g : WaitForGraph) : Prop := forall x, ~ tc (edge g) x x.

(** A non-empty list is a cycle when every element has an edge to the next
    one and the last one to the first. *)
Fixpoint walk (g : WaitForGraph) (x : N) (l : list N) : Prop :=
  match l with
  | [] => True
  | y :: l => edge g x y /\ walk g y l
  end.

Definition is_cycle (g : WaitForGraph) (l : list N) : Prop :=
  match l with
  | [] => False
  | x :: l' => walk g x (l' ++ [x])
  end.

(** ** The search *)

(** Nodes in the order they were finished, latest first: each has edges only
    to nodes finished before it. *)
Inductive topo (g : WaitForGraph) : list N -> Prop :=
| topo_nil : topo g []
| topo_cons u B : topo g B -> u ∉ B -> (forall w, edge g u w -> w ∈ B) -> topo g (u :: B).

Lemma topo_closed g B x y : topo g B -> x ∈ B -> edge g x y -> y ∈ B.
Proof.
  induction 1 as [|u B Ht IH Hu He]; [set_solver|].
  intros [->|Hx]%elem_of_cons Hxy; right; auto.
Qed.

Lemma topo_closed_tc g B x y : topo g B -> x ∈ B -> tc (edge g) x y -> y ∈ B.
Proof. intros Ht Hx Hxy. revert Hx. induction Hxy; eauto using topo_closed. Qed.

Lemma topo_acyclic g B x : topo g B -> x ∈ B -> ~ tc (edge g) x x.
Proof.
  induction 1 as [|u B Ht IH Hu He]; [set_solver|].
  intros [->|Hx]%elem_of_cons Hc; [|by apply IH].
  apply Hu. inversion Hc as [? ? Hd|? w ? Hd Hr]; subst; [by apply He|].
  by apply (topo_closed_tc g B w); [|apply He|].
Qed.

(** The gray nodes form a stack linked by parent pointers along edges. *)
Fixpoint linked (g : WaitForGraph) (s : DfsSt) (path : list N) : Prop :=
  match path with
  | v :: (u :: _) as rest => parent s v = u /\ edge g u v /\ linked g s rest
  | _ => True
  end.

Record dfs_inv (g : WaitForGraph) (path B : list N) (s : DfsSt) : Prop := {
  di_gray : forall x, color s x = 1 <-> x ∈ path;
  di_black : forall x, color s x = 2 <-> x ∈ B;
  di_range : forall x, color s x <= 2;
  di_nodup : NoDup path;
  di_nodes : forall x, x ∈ path -> x ∈ all_nodes g;
  di_linked : linked g s path;
  di_topo : topo g B;
}.

Lemma color_set s v c x : color (set_color s v c) x = if decide (v = x) then c else color s x.
Proof. unfold color, set_color. simpl. rewrite lookup_insert. by case_decide. Qed.

Lemma parent_set s w v x : parent (set_parent s w v) x = if decide (w = x) then v else parent s x.
Proof. unfold parent, set_parent. simpl. rewrite lookup_insert. by case_decide. Qed.

Lemma linked_ext g s s' path :
  (forall x, x ∈ path -> parent s' x = parent s x) -> linked g s path -> linked g s' path.
Proof.
  induction path as [|v [|u path] IH]; simpl; try done. intros He (Hp & Hed & Hl).
  split_and!; [rewrite He; [done|by left]|done|]. apply IH; [|done].
  intros x Hx. apply He. by right.
Qed.

Lemma edge_nodes g x y : edge g x y -> y ∈ all_nodes g.
Proof.
  unfold edge, succs, all_nodes. destruct (g !! x) as [tos|] eqn:E; simpl; [|set_solver].
  intros Hy. apply elem_of_union. right. apply elem_of_union_list. exists tos. split; [|done].
  apply list_elem_of_fmap. exists (x, tos). split; [done|]. by apply elem_of_map_to_list.
Qed.

Lemma path_bound g path B s :
  dfs_inv g path B s -> length path <= size (all_nodes g).
Proof.
  intros [_ _ _ Hn Hp _ _]. rewrite <-(size_list_to_set (C := gset N) path Hn).
  apply subseteq_size. intros x. rewrite elem_of_list_to_set. apply Hp.
Qed.

(** Colouring [v] gray when it is entered, with its parent on top of the stack. *)
Lemma enter_inv g path B s v :
  dfs_inv g path B s -> color s v = 0 -> v ∈ all_nodes g ->
  (match path with [] => True | u :: _ => parent s v = u /\ edge g u v end) ->
  dfs_inv g (v :: path) B (set_color s v 1).
Proof.
  intros [HG HB HR Hn Hp Hl Ht] Hv Hv2 Hpar.
  assert (v ∉ path) by (rewrite <-HG; lia). assert (v ∉ B) by (rewrite <-HB; lia).
  split.
  - intros x. rewrite color_set, elem_of_cons, <-HG. case_decide; [subst; tauto|]. split; [tauto|].
    by intros [->|?].
  - intros x. rewrite color_set, <-HB. case_decide; [subst|done]. lia.
  - intros x. rewrite color_set. case_decide; [lia|done].
  - by constructor.
  - intros x [->|Hx]%elem_of_cons; auto.
  - destruct path as [|u path]; [done|]. destruct Hpar. split_and!; [done|done|].
    by apply (linked_ext g s).
  - done.
Qed.

(** Leaving [v] after all its successors turned black. *)
Lemma leave_inv g path B s v :
  dfs_inv g (v :: path) B s -> (forall w, edge g v w -> w ∈ B) ->
  dfs_inv g path (v :: B) (set_color s v 2).
Proof.
  intros [HG HB HR Hn Hp Hl Ht] Hs. apply NoDup_cons in Hn as [Hv Hn].
  assert (Hg : color s v = 1) by (apply HG; by left). split.
  - intros x. rewrite color_set. case_decide as He; [subst x; split; [done|by intros ?]|].
    rewrite HG, elem_of_cons. split; [|tauto]. intros [->|?]; done.
  - intros x. rewrite color_set, elem_of_cons. case_decide as He; [subst; tauto|].
    rewrite HB. split; [tauto|]. by intros [->|?].
  - intros x. rewrite color_set. case_decide; [lia|done].
  - done.
  - intros x Hx. apply Hp. by right.
  - destruct path as [|u path]; [done|]. destruct Hl as (_ & _ & Hl).
    by apply (linked_ext g s).
  - constructor; [done| |done]. rewrite <-HB. lia.
Qed.

Lemma set_parent_inv g path B s w v :
  dfs_inv g path B s -> color s w = 0 -> dfs_inv g path B (set_parent s w v).
Proof.
  intros [HG HB HR Hn Hp Hl Ht] Hw. split; try done.
  apply (linked_ext g s); [|done]. intros x Hx. rewrite parent_set.
  case_decide as He; [|done]. subst x. apply HG in Hx. unfold color in *. lia.
Qed.

(** What a call of the search leaves behind when it found a cycle: a stack
    linked by parent pointers, from [cycleEnd] down to [cycleStart]. *)
Definition found_st (g : WaitForGraph) (s : DfsSt) : Prop :=
  exists path rest, linked g s (path ++ d_start s :: rest)
    /\ (forall x, x ∈ path -> x <> d_start s)
    /\ head (path ++ [d_start s]) = Some (d_end s)
    /\ edge g (d_end s) (d_start s) /\ length path <= size (all_nodes g)
    /\ (forall x, x ∈ path -> x ∈ all_nodes g).

Definition dfs_post (g : WaitForGraph) (path B : list N) (v : N)
    (r : option (bool * DfsSt)) : Prop :=
  match r with
  | None => False
  | Some (true, s) => found_st g s
  | Some (false, s) => exists B', dfs_inv g path B' s /\ B ⊆ B' /\ v ∈ B'
  end.

Section SearchProofs.
Context (iter : N -> gset N -> list N) (g : WaitForGraph).
Hypothesis iter_elem : forall v s x, x ∈ iter v s <-> x ∈ s.

Lemma found_at g' path B s w v :
  dfs_inv g' (v :: path) B s -> color s w = 1 -> edge g' v w -> found_st g' (set_cycle s w v).
Proof.
  intros HI Hw He. pose proof (path_bound _ _ _ _ HI) as Hb.
  destruct HI as [HG HB HR Hn Hp Hl Ht]. apply HG in Hw.
  apply list_elem_of_split in Hw as (p1 & p2 & Hsp).
  rewrite Hsp in Hn, Hl, Hb, Hp. exists p1, p2. split_and!; simpl.
  - by apply (linked_ext g' s).
  - intros x Hx ->. apply NoDup_app in Hn as (_ & Hn & _). apply (Hn _ Hx). by left.
  - destruct p1; simpl in *; congruence.
  - done.
  - rewrite length_app in Hb. simpl in Hb. lia.
  - intros x Hx. apply Hp. set_solver.
Qed.

Lemma dfs_loop_spec rec v path :
  (forall w s B, dfs_inv g (v :: path) B s -> color s w = 0 -> edge g v w -> parent s w = v ->
     dfs_post g (v :: path) B w (rec w s)) ->
  forall ws s B, dfs_inv g (v :: path) B s -> (forall w, w ∈ ws -> edge g v w) ->
  (forall w, edge g v w -> w ∈ ws \/ w ∈ B) ->
  dfs_post g path B v (dfs_loop rec v ws s).
Proof.
  intros Hrec ws. induction ws as [|w ws IH]; intros s B HI Hws Hall; simpl.
  - exists (v :: B). split_and!; [|set_solver|by left]. apply leave_inv; [done|].
    intros w Hw. destruct (Hall w Hw) as [?%elem_of_nil|?]; done.
  - assert (Hvw : edge g v w) by (apply Hws; by left).
    destruct (Nat.eqb_spec (color s w) 1) as [H1|H1]; [by apply (found_at g path B)|].
    destruct (Nat.eqb_spec (color s w) 0) as [H0|H0].
    + pose proof (Hrec w (set_parent s w v) B) as Hr.
      destruct (rec w (set_parent s w v)) as [[[] s']|]; simpl in Hr.
      * apply Hr; [by apply set_parent_inv|done|done|].
        rewrite parent_set. by rewrite decide_True.
      * destruct Hr as (B' & HI' & HB' & Hw'); [by apply set_parent_inv|done|done| |].
        { rewrite parent_set. by rewrite decide_True. }
        specialize (IH s' B' HI').
        destruct (dfs_loop rec v ws s') as [[[] s2]|]; simpl in *.
        -- apply IH; [set_solver|]. intros x Hx. destruct (Hall x Hx) as [[->|?]%elem_of_cons|?]; auto.
        -- destruct IH as (B2 & ? & ? & ?); [set_solver| |].
           { intros x Hx. destruct (Hall x Hx) as [[->|?]%elem_of_cons|?]; auto. }
           exists B2. split_and!; [done|set_solver|done].
        -- apply IH; [set_solver|]. intros x Hx. destruct (Hall x Hx) as [[->|?]%elem_of_cons|?]; auto.
      * apply Hr; [by apply set_parent_inv|done|done|].
        rewrite parent_set. by rewrite decide_True.
    + apply IH; [done|set_solver|]. intros x Hx.
      destruct (Hall x Hx) as [[->|?]%elem_of_cons|?]; [right|by left|by right].
      apply (di_black _ _ _ _ HI). pose proof (di_range _ _ _ _ HI w). lia.
Qed.

Lemma dfs_spec fuel : forall v s path B,
  dfs_inv g path B s -> color s v = 0 -> v ∈ all_nodes g ->
  (match path with [] => True | u :: _ => parent s v = u /\ edge g u v end) ->
  size (all_nodes g) < fuel + length path ->
  dfs_post g path B v (dfs iter g fuel v s).
Proof.
  induction fuel as [|fuel IH]; intros v s path B HI Hv Hv2 Hpar Hf.
  { pose proof (path_bound _ _ _ _ HI). simpl in Hf. lia. }
  cbn [dfs]. pose proof (enter_inv _ _ _ _ _ HI Hv Hv2 Hpar) as HI'.
  apply dfs_loop_spec; [|done| |].
  - intros w s' B' HIw Hw Hvw Hpw. apply IH; [done|done|by eapply edge_nodes|done|simpl; lia].
  - intros w. unfold edge. by rewrite iter_elem.
  - intros w Hw. left. by rewrite iter_elem.
Qed.

(** Walking the parent pointers from [cycleEnd] back to [cycleStart]. *)
Lemma rebuild_spec s path rest acc fuel :
  linked g s (path ++ d_start s :: rest) -> (forall x, x ∈ path -> x <> d_start s) ->
  length path <= fuel ->
  rebuild fuel s (default 0%N (head (path ++ [d_start s]))) acc = Some (rev path ++ acc).
Proof.
  revert acc fuel. induction path as [|v path IH]; intros acc fuel Hl Hne Hf; simpl.
  { destruct fuel; simpl; by rewrite N.eqb_refl. }
  destruct fuel as [|fuel]; simpl in Hf; [lia|]. simpl.
  rewrite (proj2 (N.eqb_neq v (d_start s))) by (apply Hne; by left).
  rewrite <-app_assoc. simpl. rewrite <-(IH (v :: acc) fuel).
  - f_equal. destruct path; by destruct Hl as (-> & _).
  - destruct path; by destruct Hl as (_ & _ & Hl).
  - intros x Hx. apply Hne. by right.
  - lia.
Qed.

Lemma walk_app x l1 y l2 : walk g x (l1 ++ y :: l2) <-> walk g x (l1 ++ [y]) /\ walk g y l2.
Proof.
  revert x. induction l1 as [|z l1 IH]; intros x; simpl; [tauto|]. rewrite IH. tauto.
Qed.

(** The stack, read from the bottom, is a walk along the edges. *)
Lemma linked_walk s path c rest :
  linked g s (path ++ c :: rest) -> walk g c (rev path).
Proof.
  induction path as [|v path IH]; intros Hl; simpl; [done|].
  assert (Hr : linked g s (path ++ c :: rest)) by (destruct path; by destruct Hl as (_ & _ & Hl)).
  assert (He : edge g (default c (head path)) v).
  { destruct path; simpl in *; tauto. }
  specialize (IH Hr). clear Hl Hr. destruct path as [|u path]; [done|]. simpl in *.
  rewrite <-app_assoc. simpl. apply walk_app. split; [done|]. simpl. tauto.
Qed.
End SearchProofs.

Lemma selectVictim_from l m :
  let v := fold_left (fun maxID id => if (maxID <? id)%N then id else maxID) l m in
  (m <= v)%N /\ (forall x, x ∈ l -> (x <= v)%N) /\ (v = m \/ v ∈ l).
Proof.
  revert m. induction l as [|y l IH]; intros m; simpl.
  - split_and!; [lia|set_solver|by left].
  - destruct (N.ltb_spec m y) as [Hl|Hl].
    + destruct (IH y) as (H1 & H2 & H3). split_and!; [lia| |].
      * intros x [->|Hx]%elem_of_cons; auto.
      * right. apply elem_of_cons. tauto.
    + destruct (IH m) as (H1 & H2 & H3). split_and!; [lia| |].
      * intros x [->|Hx]%elem_of_cons; [lia|auto].
      * destruct H3 as [?|?]; [by left|right]. by apply elem_of_cons; right.
Qed.

Lemma selectVictim_max l : l <> [] ->
  selectVictim l ∈ l /\ forall x, x ∈ l -> (x <= selectVictim l)%N.
Proof.
  intros Hl. destruct (selectVictim_from l 0) as (_ & H2 & H3). fold (selectVictim l) in *.
  split; [|done]. destruct H3 as [H3|?]; [|done]. destruct l as [|x l]; [done|].
  assert ((x <= selectVictim (x :: l))%N) as Hx by (apply H2; by left).
  assert (x = 0%N) as -> by lia. rewrite H3. by left.
Qed.

Section FindCycleProofs.
Context (iter : N -> gset N -> list N) (iter_nodes : gset N -> list N).
Hypothesis iter_elem : forall v s x, x ∈ iter v s <-> x ∈ s.
Hypothesis iter_nodes_elem : forall s x, x ∈ iter_nodes s <-> x ∈ s.

(** What [FindCycle] promises. *)
Definition cycle_found (g : WaitForGraph) (victim : N) (cycle : list N) : Prop :=
  exists l start, is_cycle g (l ++ [start]) /\ cycle = l ++ [start; start]
    /\ victim ∈ l ++ [start] /\ forall x, x ∈ l ++ [start] -> (x <= victim)%N.

Lemma found_cycle g s fuel :
  found_st g s -> size (all_nodes g) <= fuel ->
  exists l, rebuild fuel s (d_end s) [d_start s] = Some (l ++ [d_start s])
            /\ is_cycle g (l ++ [d_start s]).
Proof.
  intros (path & rest & Hl & Hne & Hh & He & Hlen & _) Hf.
  pose proof (rebuild_spec g s path rest [d_start s] fuel Hl Hne) as Hr.
  rewrite Hh in Hr. simpl in Hr. rewrite Hr by lia.
  exists (rev path). split; [done|].
  assert (Hw : walk g (d_start s) (rev path ++ [d_start s])).
  { destruct path as [|ce path].
    - simpl in *. injection Hh as Hd. rewrite <-Hd in He at 1. done.
    - injection Hh as ->. pose proof (linked_walk g s _ _ _ Hl) as Hw. simpl in *.
      rewrite <-app_assoc. simpl. apply walk_app. done. }
  destruct (rev path) as [|x m]; simpl in *; [done|].
  rewrite <-app_assoc. simpl. apply walk_app. simpl. tauto.
Qed.

Lemma outer_loop_spec g fuel nodes s B :
  size (all_nodes g) < fuel -> dfs_inv g [] B s ->
  (forall x, x ∈ nodes -> x ∈ all_nodes g) -> (forall x, x ∈ dom g -> x ∈ B \/ x ∈ nodes) ->
  exists r, outer_loop iter g fuel nodes s = Some r
    /\ match r with
       | None => acyclic g
       | Some (victim, cycle) => cycle_found g victim cycle
       end.
Proof.
  intros Hf. revert s B. induction nodes as [|v nodes IH]; intros s B HI Hv Hd; simpl.
  { exists None. split; [done|]. intros x Hc.
    assert (x ∈ B) as HB.
    { assert (exists y, edge g x y) as [y Hy] by (inversion Hc; subst; eauto).
      destruct (Hd x) as [?|?%elem_of_nil]; [|done|done]. apply elem_of_dom.
      unfold edge, succs in Hy. destruct (g !! x); [by eexists|set_solver]. }
    by apply (topo_acyclic g B x (di_topo _ _ _ _ HI)). }
  destruct (Nat.eqb_spec (color s v) 0) as [H0|H0].
  - pose proof (dfs_spec iter g iter_elem fuel v s [] B HI H0) as Hs.
    specialize (Hs (Hv v ltac:(by left)) I ltac:(simpl; lia)).
    destruct (dfs iter g fuel v s) as [[[] s']|]; simpl in Hs; [| |done].
    + destruct (found_cycle g s' fuel Hs) as (l & -> & Hc); [lia|]. eexists. split; [done|].
      simpl. rewrite <-app_assoc. simpl. exists l, (d_start s'). split_and!; [done|done| |].
      * destruct (selectVictim_max (l ++ [d_start s'; d_start s'])) as [Hin _]; [by destruct l|].
        set_solver.
      * intros x Hx. apply selectVictim_max; [by destruct l|]. set_solver.
    + destruct Hs as (B' & HI' & HB & Hv').
      apply (IH s' B' HI'); [set_solver|]. intros x Hx.
      destruct (Hd x Hx) as [?|[->|?]%elem_of_cons]; auto.
  - apply (IH s B HI); [set_solver|]. intros x Hx.
    destruct (Hd x Hx) as [?|[->|?]%elem_of_cons]; [by left|left|by right].
    apply (di_black _ _ _ _ HI). pose proof (di_range _ _ _ _ HI v).
    assert (color s v <> 1) as Hg1 by (rewrite (di_gray _ _ _ _ HI); apply not_elem_of_nil). lia.
Qed.

Lemma FindCycle_spec g :
  exists r, FindCycle iter iter_nodes g = Some r
    /\ match r with
       | None => acyclic g
       | Some (victim, cycle) => cycle_found g victim cycle
       end.
Proof.
  apply (outer_loop_spec g _ _ _ []); [lia| | |].
  - split; try done; unfold color; simpl; try (intros x; rewrite lookup_empty; simpl);
      try constructor; try done; try lia; set_solver.
  - intros x Hx. rewrite iter_nodes_elem in Hx. unfold all_nodes. set_solver.
  - intros x Hx. right. by rewrite iter_nodes_elem.
Qed.
End FindCycleProofs.

(** ** The graph operations *)

Lemma succs_insert g x s y : succs (<[x := s]> g) y = if decide (x = y) then s else succs g y.
Proof. unfold succs. rewrite lookup_insert. by case_decide. Qed.

Lemma edge_AddEdge g from to x y :
  edge (AddEdge g from to) x y <-> edge g x y \/ (x = from /\ y = to).
Proof.
  unfold edge, AddEdge.
  assert (H1 : y ∈ succs (<[from := {[to]} ∪ succs g from]> g) x
               <-> y ∈ succs g x \/ (x = from /\ y = to)).
  { rewrite succs_insert. case_decide; set_solver. }
  destruct (_ !! to) as [|] eqn:E; [done|]. rewrite succs_insert. case_decide as He; [|done].
  subst x. unfold succs in H1 at 1. rewrite E in H1. exact H1.
Qed.

Lemma edge_RemoveNode g v x y :
  edge (RemoveNode g v) x y <-> edge g x y /\ x <> v /\ y <> v.
Proof.
  unfold edge, RemoveNode, succs. rewrite lookup_fmap.
  destruct (decide (x = v)) as [->|Hne].
  - rewrite lookup_delete_eq. set_solver.
  - rewrite lookup_delete_ne by done. destruct (g !! x); simpl; set_solver.
Qed.

Lemma edge_RemoveEdges g v x y : edge (RemoveEdges g v) x y <-> edge g x y /\ x <> v.
Proof.
  unfold edge, RemoveEdges, succs. destruct (decide (x = v)) as [->|Hne].
  - rewrite lookup_delete_eq. set_solver.
  - rewrite lookup_delete_ne by done. tauto.
Qed.

Lemma all_nodes_spec g x : x ∈ all_nodes g <-> x ∈ dom g \/ exists y, edge g y x.
Proof.
  split.
  - intros [?|(s & Hs & Hx)%elem_of_union_list]%elem_of_union; [by left|right].
    apply list_elem_of_fmap in Hs as ([y s'] & -> & Hy%elem_of_map_to_list).
    exists y. unfold edge, succs. by rewrite Hy.
  - intros [?|[y Hy]]; [unfold all_nodes; set_solver|by eapply edge_nodes].
Qed.

Lemma all_nodes_RemoveNode g v : all_nodes (RemoveNode g v) ⊆ all_nodes g ∖ {[v]}.
Proof.
  intros x. rewrite elem_of_difference, elem_of_singleton, !all_nodes_spec. intros [Hd|[y Hy]].
  - unfold RemoveNode in Hd. rewrite dom_fmap, dom_delete in Hd. set_solver.
  - apply edge_RemoveNode in Hy as (? & ? & ?). eauto.
Qed.

Lemma walk_tc g x l y : walk g x (l ++ [y]) -> tc (edge g) x y.
Proof.
  revert x. induction l as [|z l IH]; intros x; simpl; [intros [? _]; by constructor|].
  intros [He Hw]. eapply tc_l; [done|]. by apply IH.
Qed.

Lemma is_cycle_tc g l x : is_cycle g l -> x ∈ l -> tc (edge g) x x.
Proof.
  destruct l as [|y l]; [done|]. simpl. intros Hw [->|Hx]%elem_of_cons; [by eapply walk_tc|].
  apply list_elem_of_split in Hx as (l1 & l2 & ->). rewrite <-app_assoc in Hw. simpl in Hw.
  apply walk_app in Hw as [H1 H2]. apply walk_tc in H1, H2.
  by transitivity y.
Qed.

(** Edges that go only one way up or down the identifiers close no cycle. *)
Lemma monotone_acyclic g (R : N -> N -> Prop) `{!StrictOrder R} :
  (forall x y, edge g x y -> R x y) -> acyclic g.
Proof.
  intros HR x Hc. assert (forall a b, tc (edge g) a b -> R a b) as Htc.
  { induction 1; [by apply HR|]. etrans; [by apply HR|done]. }
  by apply (irreflexivity R x), Htc.
Qed.

(** Ticks of the detector with no lock activity in between; the victims in
    order. *)
Fixpoint run_ticks iter iter_nodes (n : nat) (d : Detector) : option (Detector * list N) :=
  match n with
  | 0 => Some (d, [])
  | S n =>
      match Detector_tick iter iter_nodes "" d with
      | None => None
      | Some (d', None) => Some (d', [])
      | Some (d', Some (victim, _)) =>
          match run_ticks iter iter_nodes n d' with
          | None => None
          | Some (d'', vs) => Some (d'', victim :: vs)
          end
      end
  end.

Lemma tc_last_edge g x y : tc (edge g) x y -> exists z, edge g z y.
Proof. induction 1; eauto. Qed.

Lemma cycle_victim_node g victim cycle : cycle_found g victim cycle -> victim ∈ all_nodes g.
Proof.
  intros (l & st & Hc & _ & Hv & _). apply all_nodes_spec. right.
  by eapply tc_last_edge, is_cycle_tc.
Qed.

Section TickProofs.
Context (iter : N -> gset N -> list N) (iter_nodes : gset N -> list N).
Hypothesis iter_elem : forall v s x, x ∈ iter v s <-> x ∈ s.
Hypothesis iter_nodes_elem : forall s x, x ∈ iter_nodes s <-> x ∈ s.

Lemma run_ticks_spec n d :
  size (all_nodes (det_graph d)) < n ->
  exists d' vs, run_ticks iter iter_nodes n d = Some (d', vs) /\ acyclic (det_graph d')
    /\ NoDup vs /\ (forall v, v ∈ vs -> v ∈ all_nodes (det_graph d))
    /\ (forall x y, edge (det_graph d') x y <->
          edge (det_graph d) x y /\ x ∉ vs /\ y ∉ vs).
Proof.
  revert d. induction n as [|n IH]; intros d Hn; [lia|]. cbn [run_ticks].
  unfold Detector_tick.
  destruct (FindCycle_spec iter iter_nodes iter_elem iter_nodes_elem (det_graph d)) as (r & -> & Hr).
  destruct r as [[victim cycle]|].
  - pose proof (cycle_victim_node _ _ _ Hr) as Hv.
    pose proof (all_nodes_RemoveNode (det_graph d) victim) as Hsub.
    assert (size (all_nodes (RemoveNode (det_graph d) victim)) < n).
    { apply (Nat.lt_le_trans _ (size (all_nodes (det_graph d)))); [|lia].
      apply subset_size. split; [set_solver|]. intros Hs. specialize (Hs _ Hv).
      apply Hsub in Hs. set_solver. }
    set (d1 := mkDetector _ _). destruct (IH d1) as (d' & vs & -> & Ha & Hn' & Hin & He); [done|].
    exists d', (victim :: vs). split_and!; [done|done| | |].
    + constructor; [|done]. intros Hvs%Hin%Hsub. set_solver.
    + intros v [->|Hvs]%elem_of_cons; [done|]. apply Hin, Hsub in Hvs. set_solver.
    + intros x y. rewrite He. unfold d1. simpl. rewrite edge_RemoveNode. set_solver.
  - exists d, []. split_and!; [done|done|constructor|set_solver|set_solver].
Qed.
End TickProofs.

Lemma History_Add_last h r :
  length (h_records (History_Add h r)) = Nat.min (h_maxSize h) (S (length (h_records h)))
  /\ (0 < h_maxSize h -> last (h_records (History_Add h r)) = Some r).
Proof.
  unfold History_Add. simpl. rewrite length_app. simpl.
  destruct (Nat.ltb_spec (h_maxSize h) (length (h_records h) + 1)) as [Hl|Hl].
  - split; [rewrite length_drop, length_app; simpl; lia|]. intros H0.
    rewrite drop_app_le by lia. apply last_snoc.
  - split; [rewrite length_app; simpl; lia|]. intros _. apply last_snoc.
Qed.

Lemma fold_AddEdge cs g t x y :
  edge (fold_left (fun g c => AddEdge g t c) cs g) x y <-> edge g x y \/ (x = t /\ y ∈ cs).
Proof.
  revert g. induction cs as [|c cs IH]; intros g; simpl; [set_solver|].
  rewrite IH, edge_AddEdge, elem_of_cons. naive_solver.
Qed.

(** ** Properties *)

(** C24. [FindCycle] terminates on every graph, for every iteration order
    of the maps it ranges over. It reports no cycle exactly when the graph
    is acyclic; a reported list is the nodes of a cycle, from the successor
    of the node where it was found to that node, followed by that node once
    more, and the victim is its youngest transaction. *)
Theorem FindCycle_correct iter iter_nodes g :
  (forall v s x, x ∈ iter v s <-> x ∈ s) -> (forall s x, x ∈ iter_nodes s <-> x ∈ s) ->
  exists r, FindCycle iter iter_nodes g = Some r
    /\ (r = None <-> acyclic g)
    /\ forall victim cycle, r = Some (victim, cycle) -> cycle_found g victim cycle.
Proof.
  intros H1 H2. destruct (FindCycle_spec iter iter_nodes H1 H2 g) as (r & Hr & Hs).
  exists r. split; [done|]. destruct r as [[v c]|].
  - split; [|by intros ? ? [= <- <-]]. split; [done|]. intros Ha.
    destruct Hs as (l & st & Hc & _ & Hv & _). destruct (Ha v). by eapply is_cycle_tc.
  - split; [tauto|done].
Qed.

(** C32. The detector resolves every deadlock of the graph: when no new
    edge appears, at most as many ticks as the graph has nodes find a
    cycle, and the next one finds none; no transaction is chosen twice, and
    what remains is the graph without the victims, which has no cycle. *)
Theorem detector_drains iter iter_nodes d :
  (forall v s x, x ∈ iter v s <-> x ∈ s) -> (forall s x, x ∈ iter_nodes s <-> x ∈ s) ->
  exists d' vs, run_ticks iter iter_nodes (S (size (all_nodes (det_graph d)))) d = Some (d', vs)
    /\ acyclic (det_graph d') /\ NoDup vs
    /\ (forall x y, edge (det_graph d') x y <-> edge (det_graph d) x y /\ x ∉ vs /\ y ∉ vs).
Proof.
  intros H1 H2.
  destruct (run_ticks_spec iter iter_nodes H1 H2 (S (size (all_nodes (det_graph d)))) d)
    as (d' & vs & ? & ? & ? & _ & ?); [lia|]. by exists d', vs.
Qed.

(** Both prevention policies prevent: a graph all of whose waits were
    allowed by [WaitDie], or all by [WoundWait] with distinct transactions,
    has no cycle. *)
Theorem prevention_acyclic g :
  ((forall x y, edge g x y -> WaitDie x y = ActionWait) -> acyclic g)
  /\ ((forall x y, edge g x y -> WoundWait x y = ActionWait /\ x <> y) -> acyclic g).
Proof.
  unfold WaitDie, WoundWait. split; intros Hw.
  - apply (monotone_acyclic g N.lt). intros x y Hxy%Hw. by destruct (N.ltb_spec x y).
  - apply (monotone_acyclic g (flip N.lt)). intros x y [Hxy Hne]%Hw. unfold flip.
    destruct (N.ltb_spec x y); [done|lia].
Qed.

(** A request that has to wait is in the wait-for graph when
    [AcquireLockCtx] reaches its [select]: there is an edge to every
    transaction that holds a conflicting lock on the resource, and no other
    edge is new. *)
Theorem acquire_wait_edges (st st' : @LockSt WaitForGraph) t r mode req q x y :
  acquire st t r mode = (st', AcqWait req) -> Table_Get st' r = Some q ->
  edge (ls_wfg st') x y <->
    edge (ls_wfg st) x y
    \/ (x = t /\ exists rq, rq ∈ q_granted q /\ rq_TxnID rq = y /\ y <> t
                            /\ LockCompatible mode (rq_Mode rq) = false).
Proof.
  unfold acquire. destruct (GetOrCreate st r) as [st1 q1] eqn:Hg.
  assert (Hw : ls_wfg st1 = ls_wfg st).
  { unfold GetOrCreate in Hg. destruct (Table_Get st r); by simplify_eq. }
  match goal with |- (if ?c then _ else _) = _ -> _ => destruct c; [done|] end.
  match goal with |- (let '(_, _) := ?x in _) = _ -> _ => destruct x as [q2 h2] end.
  destruct (CanGrant q2 mode t); [done|]. intros [= <- <-] Hq.
  unfold Table_Get in Hq. simpl in Hq |- *. rewrite lookup_insert_eq in Hq. injection Hq as <-.
  rewrite fold_AddEdge, Hw, ConflictingTxns_spec.
  by destruct (Held_Get h2 r); [destruct (_ <? _)|].
Qed.

(** The visiting order that follows the identifiers. *)
Definition iter_elements (v : N) (s : gset N) : list N := elements s.

Lemma FindCycle_correct_witness :
  exists r, FindCycle iter_elements elements (AddEdge (AddEdge ∅ 1 2) 2 1) = Some r
    /\ r = Some (2%N, [1; 2; 2]%N).
Proof.
  destruct (FindCycle_correct iter_elements elements (AddEdge (AddEdge ∅ 1 2) 2 1))
    as (r & Hr & _); [intros; apply elem_of_elements..|].
  exists r. split; [exact Hr|]. vm_compute in Hr. by injection Hr as <-.
Defined.

Lemma detector_drains_witness :
  exists d' vs,
    run_ticks iter_elements elements 4
      (mkDetector (AddEdge (AddEdge (AddEdge ∅ 1 2) 2 1) 3 2) NewHistory) = Some (d', vs)
    /\ acyclic (det_graph d') /\ vs = [2]%N.
Proof.
  destruct (detector_drains iter_elements elements
    (mkDetector (AddEdge (AddEdge (AddEdge ∅ 1 2) 2 1) 3 2) NewHistory))
    as (d' & vs & Hr & Ha & _); [intros; apply elem_of_elements..|].
  exists d', vs. split; [exact Hr|]. split; [exact Ha|]. vm_compute in Hr. by injection Hr as _ <-.
Defined.

(** ** A deadlock the graph does not show *)

Definition rowA : ResourceID := ResourceForRow "t" "1".
Definition rowB : ResourceID := ResourceForRow "t" "2".

(** Transaction 3 holds B; 1 holds A; 2 and then 3 wait for A; 1 commits, so
    A goes to 2; 2 then asks for B. *)
Definition stale_run : list LockOp :=
  [OpAcquire 3 rowB LockX; OpAcquire 1 rowA LockX; OpAcquire 2 rowA LockX;
   OpAcquire 3 rowA LockX; OpReleaseAll 1; OpWake 2; OpAcquire 2 rowB LockX].

Definition stale_state : @LockSt WaitForGraph :=
  default (lock_init ∅) (exec_ops (lock_init ∅) stale_run).

(** The edges of a waiting transaction name the holders at the time it
    started to wait and are not revised when the lock passes to another
    transaction: the lock manager reaches a state in which transactions 2
    and 3 wait for each other's exclusive lock, while the wait-for graph has
    no cycle and [FindCycle] reports none. *)
Theorem stale_edges_hide_deadlock :
  lreach ∅ stale_state
  /\ held_of stale_state 2 !! rowA = Some LockX /\ held_of stale_state 3 !! rowB = Some LockX
  /\ w_res <$> ls_blocked stale_state !! 2%N = Some rowB
  /\ w_res <$> ls_blocked stale_state !! 3%N = Some rowA
  /\ FindCycle iter_elements elements (ls_wfg stale_state) = Some None
  /\ acyclic (ls_wfg stale_state).
Proof.
  assert (Hf : FindCycle iter_elements elements (ls_wfg stale_state) = Some None)
    by (vm_compute; reflexivity).
  split; [|split; [vm_compute; reflexivity|]; split; [vm_compute; reflexivity|];
            split; [vm_compute; reflexivity|]; split; [vm_compute; reflexivity|];
            split; [exact Hf|]].
  - apply (exec_ops_reach _ (lock_init ∅) _ stale_run); [constructor|]. vm_compute. reflexivity.
  - destruct (FindCycle_spec iter_elements elements) with (g := ls_wfg stale_state)
      as (r & Hr & Hs); [intros; apply elem_of_elements..|].
    rewrite Hf in Hr. by injection Hr as <-.
Qed.

Lemma acquire_wait_edges_witness :
  let st := (acquire (lock_init ∅) 1 rowA LockX).1 in
  let st' := (acquire st 2 rowA LockS).1 in
  edge (ls_wfg st') 2 1.
Proof.
  intros st st'.
  apply (acquire_wait_edges st st' 2 rowA LockS 1 (default (NewQueue rowA) (Table_Get st' rowA)) 2 1).
  - vm_compute. reflexivity.
  - vm_compute. reflexivity.
  - right. split; [done|]. exists (NewRequest 0 1 LockX). split_and!; try done.
    vm_compute. left.
Defined.
