(* ===== verification/Storage.v ===== *)
(** * Tables, the catalog and the row codec ([internal/storage])

    row.go, table.go, catalog.go and encode.go: the in-memory row store, the
    registry of tables and the byte format of rows and keys on pages. *)

From Stdlib Require Import ZArith NArith Lia Strings.Byte String SpecFloat.
From stdpp Require Import base tactics numbers list gmap strings sorting pretty.
From S2P Require Import Prelude Types.

(** A [[]types.Value]: [None] is the nil slice. *)
Notation Values := (option (list Value)).

Definition values_list (v : Values) : list Value := default [] v.

(** ** row.go *)

Notation RowKey := string.

Record Row := mkRow { row_Key : RowKey; row_Values : Values }.

(** ** table.go *)

Record Column := mkColumn {
  col_Name : string;
  col_Type : Z;
  col_NotNull : bool;
  col_PK : bool;
}.

Record Table := mkTable {
  t_Name : string;
  t_Columns : list Column;
  t_rows : gmap RowKey Values;
}.

Definition NewTable (name : string) (columns : list Column) : Table := mkTable name columns ∅.

(** A missing key reads as [(nil, false)]. *)
Definition GetRow (t : Table) (key : RowKey) : Values * bool :=
  match t_rows t !! key with
  | Some v => (v, true)
  | None => (None, false)
  end.

Definition PutRow (t : Table) (key : RowKey) (values : Values) : Table :=
  mkTable (t_Name t) (t_Columns t) (<[key := values]> (t_rows t)).

Definition DeleteRow (t : Table) (key : RowKey) : Table * bool :=
  match t_rows t !! key with
  | Some _ => (mkTable (t_Name t) (t_Columns t) (delete key (t_rows t)), true)
  | None => (t, false)
  end.

(** The order of the rows is unspecified in the code; here it is that of
    the map. [None] is the nil filter. *)
Definition Scan (t : Table) (filter : option (Row -> bool)) : list Row :=
  List.filter (fun r => match filter with None => true | Some f => f r end)
    ((fun '(k, v) => mkRow k v) <$> map_to_list (t_rows t)).

Definition Keys (t : Table) : list RowKey := merge_sort String.le (map_to_list (t_rows t)).*1.

Definition Count (t : Table) : nat := size (t_rows t).

(** ** catalog.go *)

Notation Catalog := (gmap string Table).

Definition NewCatalog : Catalog := ∅.
Definition Register (c : Catalog) (table : Table) : Catalog := <[t_Name table := table]> c.
Definition Lookup (c : Catalog) (name : string) : option Table := c !! name.
Definition List (c : Catalog) : list string := merge_sort String.le (map_to_list c).*1.

(** ** seed.go *)

(** The bit pattern of a finite float. *)
Definition bits_of_float (f : spec_float) : N :=
  match f with
  | S754_finite s m e =>
      let field := if (N.size (Npos m) <? 53)%N then 0%N else Z.to_N (e + 1075) in
      (N.shiftl (if s then 1 else 0) 63 + N.shiftl field 52 + N.land (Npos m) (N.ones 52))%N
  | _ => 0%N
  end.

(** [float64(i) * 9.99]. *)
Definition price_of (i : nat) : N :=
  bits_of_float (SFmul prec64 emax64 (float_of_int (Z.of_nat i)) (float_of_bits 4621813488089437307)).

Definition AccountColumns : list Column :=
  [mkColumn "id" TypeInt true true; mkColumn "owner" TypeText true false;
   mkColumn "balance" TypeFloat true false; mkColumn "branch" TypeText true false].

Definition ProductColumns : list Column :=
  [mkColumn "id" TypeInt true true; mkColumn "name" TypeText true false;
   mkColumn "price" TypeFloat true false; mkColumn "category" TypeText true false;
   mkColumn "stock" TypeInt true false].

Definition InventoryColumns : list Column :=
  [mkColumn "product_id" TypeInt true true; mkColumn "warehouse" TypeText true false;
   mkColumn "quantity" TypeInt true false].

Definition seed_table (name : string) (cols : list Column) (n : nat) (row : nat -> list Value)
    : Table :=
  fold_left (fun t i => PutRow t (pretty i) (Some (row i))) (seq 1 n) (NewTable name cols).

Definition seed_accounts : Table :=
  seed_table "accounts" AccountColumns 100 (fun i =>
    [IntVal (Z.of_nat i); TextVal ("owner-" +:+ pretty i);
     FloatVal 4666723172467343360 (* 10000.0 *);
     TextVal (nth ((i - 1) mod 5) ["north"; "south"; "east"; "west"; "central"] "")]).

Definition seed_products : Table :=
  seed_table "products" ProductColumns 50 (fun i =>
    [IntVal (Z.of_nat i); TextVal ("product-" +:+ pretty i); FloatVal (price_of i);
     TextVal (nth ((i - 1) mod 5) ["electronics"; "clothing"; "food"; "books"; "toys"] "");
     IntVal (Z.of_nat (i * 10))]).

Definition seed_inventory : Table :=
  seed_table "inventory" InventoryColumns 50 (fun i =>
    [IntVal (Z.of_nat i); TextVal (nth ((i - 1) mod 3) ["WH-A"; "WH-B"; "WH-C"] "");
     IntVal (Z.of_nat (i * 10))]).

Definition SeedCatalog (c : Catalog) : Catalog :=
  Register (Register (Register c seed_accounts) seed_products) seed_inventory.

(** ** encode.go *)

Definition EncodeRow (key : RowKey) (vals : Values) : option (list byte) :=
  match EncodeValues (values_list vals) with
  | None => None
  | Some valBytes =>
      let keyBytes := bytes_of_string key in
      let keyLen := length keyBytes in
      let valLen := length valBytes in
      fill (2 + keyLen + 4 + valLen)
        (le_put 2 (N.of_nat keyLen) ++ keyBytes ++ le_put 4 (N.of_nat valLen) ++ valBytes)
  end.

Inductive RowError :=
| RowShortKeyLen
| RowShortKey
| RowShortValues
| RowBadValues (e : DecodeError).

(** The key, the values and the number of bytes consumed. *)
Definition DecodeRow (b : list byte) : result RowError (RowKey * list Value * nat) :=
  if length b <? 2 then Err RowShortKeyLen
  else
    let keyLen := N.to_nat (le_get (take 2 b)) in
    if length b <? 2 + keyLen + 4 then Err RowShortKey
    else
      let key := string_of_bytes (take keyLen (drop 2 b)) in
      let valLen := N.to_nat (le_get (take 4 (drop (2 + keyLen) b))) in
      if length b <? 2 + keyLen + 4 + valLen then Err RowShortValues
      else
        match DecodeValues (take valLen (drop (2 + keyLen + 4) b)) with
        | Err e => Err (RowBadValues e)
        | Ok vals => Ok (key, vals, 2 + keyLen + 4 + valLen)
        end.

Definition EncodeKey (key : RowKey) : option (list byte) :=
  let kb := bytes_of_string key in
  fill (2 + length kb) (le_put 2 (N.of_nat (length kb)) ++ kb).

Inductive KeyError := KeyShort | KeyShortBody.

Definition DecodeKey (b : list byte) : result KeyError (RowKey * nat) :=
  if length b <? 2 then Err KeyShort
  else
    let klen := N.to_nat (le_get (take 2 b)) in
    if length b <? 2 + klen then Err KeyShortBody
    else Ok (string_of_bytes (take klen (drop 2 b)), 2 + klen).

(** ** Lemmas *)

Lemma GetRow_PutRow t k v k' :
  GetRow (PutRow t k v) k' = if decide (k = k') then (v, true) else GetRow t k'.
Proof. unfold GetRow, PutRow. simpl. rewrite lookup_insert. by case_decide. Qed.

Lemma t_rows_DeleteRow t k : t_rows (DeleteRow t k).1 = delete k (t_rows t).
Proof.
  unfold DeleteRow. destruct (t_rows t !! k) eqn:E; simpl; [done|]. by rewrite delete_id.
Qed.

Lemma t_Name_DeleteRow t k : t_Name (DeleteRow t k).1 = t_Name t.
Proof. unfold DeleteRow. by destruct (t_rows t !! k). Qed.

Lemma EncodeRow_shape key vals vb :
  EncodeValues (values_list vals) = Some vb ->
  EncodeRow key vals
  = Some (le_put 2 (N.of_nat (String.length key)) ++ bytes_of_string key
          ++ le_put 4 (N.of_nat (length vb)) ++ vb).
Proof.
  intros He. unfold EncodeRow. rewrite He, length_bytes_of_string.
  set (bs := _ ++ _). replace (_ + _ + _ + _) with (length bs); [apply fill_exact|].
  unfold bs. rewrite !length_app, !le_put_length, length_bytes_of_string. lia.
Qed.

Lemma drop_skip {A} (a b : list A) n k : length a = n -> drop (n + k) (a ++ b) = drop k b.
Proof. intros <-. by rewrite drop_app_add. Qed.

Lemma DecodeRow_encoded key vb vals rest :
  (N.of_nat (String.length key) < 65536)%N -> (N.of_nat (length vb) < 4294967296)%N ->
  DecodeValues vb = Ok vals ->
  DecodeRow (le_put 2 (N.of_nat (String.length key)) ++ bytes_of_string key
             ++ le_put 4 (N.of_nat (length vb)) ++ vb ++ rest)
  = Ok (key, vals, 2 + String.length key + 4 + length vb).
Proof.
  intros Hk Hv Hd. unfold DecodeRow.
  set (b := le_put 2 _ ++ _).
  assert (Hlen : length b = 2 + String.length key + 4 + length vb + length rest).
  { unfold b. rewrite !length_app, !le_put_length, length_bytes_of_string. lia. }
  rewrite Hlen. destruct (Nat.ltb_spec (2 + String.length key + 4 + length vb + length rest) 2); [lia|].
  unfold b. rewrite le_get_field by exact Hk. rewrite Nat2N.id.
  destruct (Nat.ltb_spec (2 + String.length key + 4 + length vb + length rest)
              (2 + String.length key + 4)); [lia|].
  rewrite drop_le_put, take_app_length' by (by rewrite length_bytes_of_string).
  rewrite drop_skip by apply le_put_length.
  rewrite drop_app_length' by (by rewrite length_bytes_of_string).
  rewrite le_get_field by exact Hv. rewrite Nat2N.id.
  destruct (Nat.ltb_spec (2 + String.length key + 4 + length vb + length rest)
              (2 + String.length key + 4 + length vb)); [lia|].
  replace (2 + String.length key + 4) with (2 + (String.length key + (4 + 0))) by lia.
  rewrite drop_skip by apply le_put_length.
  rewrite drop_skip by apply length_bytes_of_string.
  rewrite drop_skip by apply le_put_length. rewrite drop_0, take_app_length, Hd.
  rewrite string_of_bytes_of_string. repeat f_equal; lia.
Qed.

(** ** Properties *)

(** A row whose key is shorter than 64 KiB and whose values the value
    codec carries comes back unchanged from [DecodeRow], in front of
    whatever bytes follow it, and the consumed count is the number of bytes
    [EncodeRow] wrote; likewise a key alone. *)
Theorem EncodeRow_DecodeRow key vals rest :
  (N.of_nat (String.length key) < 65536)%N ->
  (N.of_nat (length vals) <= 65535)%N -> Forall canonical vals ->
  (N.of_nat (encodedSize vals) < 4294967296)%N ->
  (exists b, EncodeRow key (Some vals) = Some b
     /\ DecodeRow (b ++ rest) = Ok (key, vals, length b))
  /\ (exists b, EncodeKey key = Some b /\ DecodeKey (b ++ rest) = Ok (key, length b)).
Proof.
  intros Hk Hn Hc Hs. split.
  - destruct (decode_encode_app vals [] Hn Hc) as (vb & He & Hd). rewrite app_nil_r in Hd.
    assert (Hl : length vb = encodedSize vals).
    { rewrite EncodeValues_shape in He.
      destruct (N.ltb_spec 65535 (N.of_nat (length vals))); [lia|].
      destruct (encodeLoop vals) eqn:E; simplify_eq/=.
      unfold encodedSize. by rewrite length_app, le_put_length, (encodeLoop_length _ _ E). }
    rewrite (EncodeRow_shape key (Some vals) vb He). eexists. split; [done|].
    rewrite <-!app_assoc. rewrite (DecodeRow_encoded key vb vals rest Hk); [|by rewrite Hl|done].
    rewrite !length_app, !le_put_length, length_bytes_of_string. do 2 f_equal. lia.
  - exists (le_put 2 (N.of_nat (String.length key)) ++ bytes_of_string key). split.
    + unfold EncodeKey. rewrite length_bytes_of_string.
      set (bs := _ ++ _). replace (2 + String.length key) with (length bs); [apply fill_exact|].
      unfold bs. by rewrite length_app, le_put_length, length_bytes_of_string.
    + unfold DecodeKey. rewrite <-app_assoc, !length_app, le_put_length, length_bytes_of_string.
      destruct (Nat.ltb_spec (2 + (String.length key + length rest)) 2); [lia|].
      rewrite le_get_field by exact Hk. rewrite Nat2N.id.
      destruct (Nat.ltb_spec (2 + (String.length key + length rest)) (2 + String.length key)); [lia|].
      rewrite drop_le_put, take_app_length' by (by rewrite length_bytes_of_string).
      by rewrite string_of_bytes_of_string.
Qed.

Lemma EncodeRow_DecodeRow_witness :
  exists b, EncodeRow "k1" (Some [IntVal 5; TextVal "x"]) = Some b
    /\ DecodeRow (b ++ [x00]) = Ok ("k1", [IntVal 5; TextVal "x"], length b).
Proof.
  apply (EncodeRow_DecodeRow "k1" [IntVal 5; TextVal "x"] [x00]).
  - simpl. lia.
  - simpl. lia.
  - repeat constructor; unfold canonical, int64; simpl; intuition (lia || reflexivity).
  - vm_compute. reflexivity.
Defined.
