(* ===== verification/Mvcc.v ===== *)
(** * Version chains, visibility and vacuum ([internal/mvcc])

    version.go, chain.go, visibility.go, write_conflict.go, store.go and
    vacuum.go. A chain is the list of its versions, newest first; the
    interfaces [TxnStatusChecker] and [SnapshotView] of visibility.go are
    type classes, and the laws the visibility rules rely on are the class
    [StatusLaws], which the transaction manager discharges. *)

From Stdlib Require Import NArith Lia String.
From stdpp Require Import base tactics numbers list gmap strings.
From S2P Require Import Prelude Types Storage.

(** ** version.go *)

Record Version := mkVersion {
  ver_XMin : N;
  ver_XMax : N;  (* 0: live *)
  ver_Data : Values;
  ver_LSN : N;
}.

Definition set_XMax (v : Version) (x : N) : Version :=
  mkVersion (ver_XMin v) x (ver_Data v) (ver_LSN v).

(** ** chain.go *)

Record VersionChain := mkChain {
  ch_versions : list Version;
  ch_key : RowKey;
  ch_tombstoned : bool;
}.

Definition NewVersionChain (key : RowKey) : VersionChain := mkChain [] key false.

Definition with_versions (c : VersionChain) (vs : list Version) : VersionChain :=
  mkChain vs (ch_key c) (ch_tombstoned c).

Definition Prepend (c : VersionChain) (v : Version) : VersionChain :=
  with_versions c (v :: ch_versions c).

Definition Head (c : VersionChain) : option Version := head (ch_versions c).

(** The loop of [SetXMax]: the first live version created by [xmin]. *)
Fixpoint set_xmax_loop (xmin xmax : N) (vs : list Version) : list Version * bool :=
  match vs with
  | [] => ([], false)
  | v :: vs =>
      if (ver_XMin v =? xmin)%N && (ver_XMax v =? 0)%N then (set_XMax v xmax :: vs, true)
      else let (vs', b) := set_xmax_loop xmin xmax vs in (v :: vs', b)
  end.

Definition SetXMax (c : VersionChain) (xmin xmax : N) : VersionChain * bool :=
  let (vs, b) := set_xmax_loop xmin xmax (ch_versions c) in (with_versions c vs, b).

Definition ClearXMax (c : VersionChain) (txnID : N) : VersionChain :=
  with_versions c
    ((fun v => if (ver_XMax v =? txnID)%N then set_XMax v 0 else v) <$> ch_versions c).

Definition RemoveByXMin (c : VersionChain) (txnID : N) : VersionChain :=
  with_versions c (List.filter (fun v => negb (ver_XMin v =? txnID)%N) (ch_versions c)).

Definition Prune (c : VersionChain) (pred : Version -> bool) : VersionChain :=
  with_versions c (List.filter (fun v => negb (pred v)) (ch_versions c)).

Definition FindVisible (c : VersionChain) (isVisible : Version -> bool) : option Version :=
  List.find isVisible (ch_versions c).

(** [for v := head; ...; if IsVisible(v) { visible = v; break }] followed by
    [visible.XMax = id]: the superseded version and the changed list. *)
Fixpoint supersede (isVisible : Version -> bool) (id : N) (vs : list Version)
    : option (Version * list Version) :=
  match vs with
  | [] => None
  | v :: vs =>
      if isVisible v then Some (v, set_XMax v id :: vs)
      else match supersede isVisible id vs with
           | None => None
           | Some (w, vs') => Some (w, v :: vs')
           end
  end.

(** ** visibility.go *)

Class TxnStatusChecker (M : Type) := {
  IsCommitted : M -> N -> bool;
  IsAborted : M -> N -> bool;
  IsActive : M -> N -> bool;
  TxnStatus : M -> N -> bool * bool;
}.

Class SnapshotView (S : Type) := {
  ContainsID : S -> N -> bool;
  GetXmin : S -> N;
  GetXmax : S -> N;
}.

Section Visibility.
Context {M S : Type} `{TxnStatusChecker M} `{SnapshotView S}.

Definition IsVisible (v : Version) (txnID : N) (snap : S) (mgr : M) : bool :=
  let xmin := ver_XMin v in
  let xmax := ver_XMax v in
  let selfCreated := (xmin =? txnID)%N in
  let committedBeforeSnapshot := (xmin <? GetXmin snap)%N && negb (IsAborted mgr xmin) in
  let committedDuringWindow :=
    (GetXmin snap <=? xmin)%N && (xmin <? GetXmax snap)%N && IsCommitted mgr xmin
    && negb (ContainsID snap xmin) in
  let xminVisible := selfCreated || committedBeforeSnapshot || committedDuringWindow in
  if negb xminVisible then false
  else if (xmax =? 0)%N then true
  else if (xmax =? txnID)%N then false
  else if ContainsID snap xmax then true
  else if (GetXmax snap <=? xmax)%N then true
  else if IsAborted mgr xmax then true
  else false.

(** ** write_conflict.go

    [None]: no conflict; [Some w]: the conflicting transaction. *)
Fixpoint checkWriteConflictLocked (txnID : N) (vs : list Version) (snap : S) (mgr : M)
    : option N :=
  match vs with
  | [] => None
  | v :: vs =>
      if (ver_XMin v =? txnID)%N then checkWriteConflictLocked txnID vs snap mgr
      else
        let '(active, committed) := TxnStatus mgr (ver_XMin v) in
        if active then Some (ver_XMin v)
        else if ContainsID snap (ver_XMin v) && committed then Some (ver_XMin v)
        else checkWriteConflictLocked txnID vs snap mgr
  end.

Definition CheckWriteConflict (txnID : N) (c : VersionChain) (snap : S) (mgr : M) : option N :=
  checkWriteConflictLocked txnID (ch_versions c) snap mgr.
End Visibility.

(** ** store.go *)

Notation tableStore := (gmap string VersionChain).
Notation Store := (gmap string tableStore).

Definition NewStore : Store := ∅.

Definition getTable (s : Store) (table : string) : Store * tableStore :=
  match s !! table with
  | Some ts => (s, ts)
  | None => (<[table := ∅]> s, ∅)
  end.

Definition GetChain (s : Store) (table key : string) : option VersionChain :=
  match s !! table with
  | None => None
  | Some ts => ts !! key
  end.

Definition set_chain (s : Store) (table key : string) (c : VersionChain) : Store :=
  <[table := <[key := c]> (default ∅ (s !! table))]> s.

Definition GetOrCreateChain (s : Store) (table key : string) : Store * VersionChain :=
  let (s, ts) := getTable s table in
  match ts !! key with
  | Some c =>
      if negb (ch_tombstoned c) then (s, c)
      else let c' := NewVersionChain key in (set_chain s table key c', c')
  | None => let c' := NewVersionChain key in (set_chain s table key c', c')
  end.

Definition EvictChain (s : Store) (table key : string) : Store :=
  match s !! table with
  | Some ts => <[table := delete key ts]> s
  | None => s
  end.

Definition ForEachChain (f : VersionChain -> VersionChain) (s : Store) : Store :=
  (fun ts : tableStore => f <$> ts) <$> s.

(** In the order of the map; the code's order is unspecified. *)
Definition ForEachChainInTable (s : Store) (table : string) : list (string * VersionChain) :=
  map_to_list (default (∅ : tableStore) (s !! table)).

(** [AllVersions]: the chains under the key [table:key]. *)
Definition AllVersions (s : Store) : list (string * list Version) :=
  map_to_list s ≫= fun '(table, ts) =>
    (fun '(key, c) => (table +:+ ":" +:+ key, ch_versions c)) <$> map_to_list (ts : tableStore).

Definition seed_row (table : string) (seedTxnID : N) (s : Store) (row : Row) : Store :=
  let '(s, c) := GetOrCreateChain s table (row_Key row) in
  set_chain s table (row_Key row) (Prepend c (mkVersion seedTxnID 0 (row_Values row) 0)).

Definition SeedMVCCStore (s : Store) (table : string) (rows : list Row) (seedTxnID : N) : Store :=
  fold_left (seed_row table seedTxnID) rows s.

Definition Clear (s : Store) : Store := ∅.

Definition ReapEmpty (s : Store) : Store :=
  (fun ts : tableStore => filter (fun kc => ch_versions kc.2 <> []) ts) <$> s.

(** ** vacuum.go *)

Definition vacuum_pred {M} `{TxnStatusChecker M} (mgr : M) (horizon : N) (v : Version) : bool :=
  negb (ver_XMax v =? 0)%N && (ver_XMax v <=? horizon)%N && IsCommitted mgr (ver_XMax v).

Definition store_versions (s : Store) : nat :=
  sum_list_with (fun ts : tableStore =>
    sum_list_with (fun c => length (ch_versions c)) (map_to_list ts).*2) (map_to_list s).*2.

(** [pruneVersions] up to its call of [PruneHistory]: the store and the
    number of versions removed. *)
Definition pruneVersions {M} `{TxnStatusChecker M} (mgr : M) (horizon : N) (s : Store)
    : Store * nat :=
  let s' := ForEachChain (fun c => Prune c (vacuum_pred mgr horizon)) s in
  (ReapEmpty s', store_versions s - store_versions s').

Definition Vacuum_Stats (s : Store) : nat * nat :=
  (sum_list_with (fun ts : tableStore => size ts) (map_to_list s).*2, store_versions s).

(** ** What a snapshot sees

    [cm] is the set of transactions that have committed. A snapshot sees
    the transactions that had committed when it was taken; a transaction
    also sees itself. *)

Section VisibilitySpec.
Context {M S : Type} `{TxnStatusChecker M} `{SnapshotView S}.

Definition sees (cm : N -> Prop) (snap : S) (t x : N) : Prop :=
  x = t \/ ((x < GetXmax snap)%N /\ ContainsID snap x = false /\ cm x).

(** What visibility relies on: the manager's answers about transactions
    that were not active in the snapshot are the truth (the reader itself is
    never asked about). *)
Record snapshot_laws (cm : N -> Prop) (t : N) (snap : S) (mgr : M) : Prop := {
  sl_order : (GetXmin snap <= GetXmax snap)%N;
  sl_below : forall x, (x < GetXmin snap)%N -> ContainsID snap x = false;
  sl_aborted : forall x, x <> t -> (x < GetXmax snap)%N -> ContainsID snap x = false ->
    (IsAborted mgr x = true <-> ~ cm x);
  sl_committed : forall x, x <> t -> (GetXmin snap <= x < GetXmax snap)%N -> ContainsID snap x = false ->
    (IsCommitted mgr x = true <-> cm x);
}.

Lemma creator_visible cm snap mgr t x :
  snapshot_laws cm t snap mgr -> (forall y, cm y \/ ~ cm y) ->
  ((x =? t)%N || ((x <? GetXmin snap)%N && negb (IsAborted mgr x))
   || ((GetXmin snap <=? x)%N && (x <? GetXmax snap)%N && IsCommitted mgr x
       && negb (ContainsID snap x))) = true
  <-> sees cm snap t x.
Proof.
  intros [Ho Hb Ha Hc] Hdec. unfold sees.
  destruct (N.eqb_spec x t) as [->|Hne]; simpl; [tauto|].
  destruct (N.ltb_spec x (GetXmin snap)) as [Hlt|Hge]; simpl.
  - rewrite (proj2 (N.leb_gt _ _)) by lia. simpl. rewrite orb_false_r, negb_true_iff.
    specialize (Hb x Hlt). assert ((x < GetXmax snap)%N) as Hx by lia.
    specialize (Ha x Hne Hx Hb). destruct (IsAborted mgr x).
    + split; [done|]. intros [?|(_ & _ & Hcm)]; [done|]. by destruct (proj1 Ha eq_refl).
    + split; [|done]. intros _. right. split_and!; try done. destruct (Hdec x) as [?|Hn]; [done|].
      by apply Ha in Hn.
  - rewrite (proj2 (N.leb_le _ _)) by lia. simpl.
    destruct (N.ltb_spec x (GetXmax snap)) as [Hx|Hx]; simpl; [|split; [done|intros [?|?]; [done|lia]]].
    destruct (ContainsID snap x) eqn:Ec; simpl; [rewrite andb_false_r; split; [done|intros [?|(_ & ? & _)]; done]|].
    rewrite andb_true_r. rewrite (Hc x Hne (conj Hge Hx) Ec). tauto.
Qed.

Lemma IsVisible_spec cm snap mgr t v :
  snapshot_laws cm t snap mgr -> (forall y, cm y \/ ~ cm y) ->
  IsVisible v t snap mgr = true <->
    sees cm snap t (ver_XMin v) /\ (ver_XMax v = 0%N \/ ~ sees cm snap t (ver_XMax v)).
Proof.
  intros Hl Hdec. rewrite <-(creator_visible cm snap mgr t (ver_XMin v) Hl Hdec).
  unfold IsVisible. destruct (_ || _ || _); cbn [negb]; [|split; [done|by intros [? _]]].
  destruct Hl as [Ho Hb Ha Hc]. unfold sees. set (x := ver_XMax v).
  destruct (N.eqb_spec x 0) as [->|Hx0]; [tauto|].
  destruct (N.eqb_spec x t) as [->|Hne].
  { split; [done|]. intros [_ [?|Hn]]; [done|]. exfalso. apply Hn. by left. }
  destruct (ContainsID snap x) eqn:Ec.
  { split; [|done]. intros _. split; [done|]. right. intros [?|(_ & ? & _)]; done. }
  destruct (N.leb_spec (GetXmax snap) x) as [Hx|Hx].
  { split; [|done]. intros _. split; [done|]. right. intros [?|(? & _)]; [done|lia]. }
  specialize (Ha x Hne Hx Ec). destruct (IsAborted mgr x).
  - split; [|done]. intros _. split; [done|]. right. intros [?|(_ & _ & Hcm)]; [done|].
    by apply Ha.
  - split; [done|]. intros [_ [?|Hn]]; [done|]. exfalso. apply Hn. right. split_and!; try done.
    destruct (Hdec x) as [?|Hnc]; [done|]. by apply Ha in Hnc.
Qed.

Lemma checkWriteConflict_None t vs (snap : S) (mgr : M) :
  checkWriteConflictLocked t vs snap mgr = None <->
  forall v, v ∈ vs -> ver_XMin v = t
    \/ ((TxnStatus mgr (ver_XMin v)).1 = false
        /\ (ContainsID snap (ver_XMin v) && (TxnStatus mgr (ver_XMin v)).2) = false).
Proof.
  induction vs as [|v vs IH]; simpl; [split; [set_solver|done]|].
  destruct (N.eqb_spec (ver_XMin v) t) as [Ht|Ht].
  { rewrite IH. set_solver. }
  destruct (TxnStatus mgr (ver_XMin v)) as [a c] eqn:Es.
  destruct a.
  { split; [done|]. intros Hv. destruct (Hv v) as [?|[? _]]; [set_solver|done|by rewrite Es in *]. }
  destruct (ContainsID snap (ver_XMin v) && c) eqn:Ec.
  { split; [done|]. intros Hv. destruct (Hv v) as [?|[_ Hc]]; [set_solver|done|].
    rewrite Es in Hc. simpl in Hc. congruence. }
  rewrite IH. split.
  - intros Hv w [->|Hw]%elem_of_cons; [|by apply Hv]. right. rewrite Es. done.
  - intros Hv w Hw. apply Hv. by right.
Qed.
End VisibilitySpec.

(** ** Undo of a transaction's changes to a chain *)

Definition undo_versions (t : N) (vs : list Version) : list Version :=
  (fun v => if (ver_XMax v =? t)%N then set_XMax v 0 else v)
  <$> List.filter (fun v => negb (ver_XMin v =? t)%N) vs.

Lemma undo_chain_versions c t :
  ch_versions (ClearXMax (RemoveByXMin c t) t) = undo_versions t (ch_versions c).
Proof. done. Qed.

(** A chain the transaction has not touched. *)
Definition untouched (t : N) (vs : list Version) : Prop :=
  Forall (fun v => ver_XMin v <> t /\ ver_XMax v <> t) vs.

Lemma undo_untouched t vs : untouched t vs -> undo_versions t vs = vs.
Proof.
  unfold undo_versions. induction 1 as [|v vs [H1 H2] Hv IH]; simpl; [done|].
  rewrite (proj2 (N.eqb_neq _ _) H1). simpl. rewrite (proj2 (N.eqb_neq _ _) H2). f_equal. exact IH.
Qed.

Lemma undo_own_version t v vs : ver_XMin v = t -> undo_versions t (v :: vs) = undo_versions t vs.
Proof. intros <-. unfold undo_versions. simpl. by rewrite N.eqb_refl. Qed.

Lemma undo_supersede t p vs w vs' :
  supersede p t vs = Some (w, vs') -> ver_XMax w = 0%N \/ ver_XMax w = t ->
  undo_versions t vs' = undo_versions t vs.
Proof.
  revert w vs'. induction vs as [|v vs IH]; intros w vs' Hs Hw; simpl in Hs; [done|].
  destruct (p v).
  - simplify_eq. unfold undo_versions. simpl. destruct (N.eqb_spec (ver_XMin w) t); simpl; [done|].
    rewrite N.eqb_refl. f_equal. destruct w as [a b d l]. unfold set_XMax. simpl in *.
    destruct (N.eqb_spec b t); [done|]. by destruct Hw as [->|?].
  - destruct (supersede p t vs) as [[w0 vs0]|] eqn:E; [|done]. simplify_eq.
    unfold undo_versions in *. simpl. specialize (IH _ _ eq_refl Hw).
    destruct (N.eqb_spec (ver_XMin v) t); simpl; [done|]. f_equal. exact IH.
Qed.

Lemma supersede_find p t vs : 
  match supersede p t vs with
  | Some (w, _) => List.find p vs = Some w
  | None => List.find p vs = None
  end.
Proof.
  induction vs as [|v vs IH]; simpl; [done|]. destruct (p v); [done|].
  destruct (supersede p t vs) as [[w vs']|]; done.
Qed.

(** Taking out versions a reader does not see leaves what it reads. *)
Lemma find_filter_invisible (p pred : Version -> bool) vs :
  (forall v, v ∈ vs -> pred v = true -> p v = false) ->
  List.find p (List.filter (fun v => negb (pred v)) vs) = List.find p vs.
Proof.
  induction vs as [|v vs IH]; intros Hv; simpl; [done|].
  assert (IH' : List.find p (List.filter (fun v => negb (pred v)) vs) = List.find p vs)
    by (apply IH; intros x Hx; apply Hv; by right).
  destruct (pred v) eqn:Ep; simpl; [rewrite (Hv v); [done|by left|done]|].
  by destruct (p v).
Qed.
