(* ===== verification/WalRecord.v ===== *)
(** * WAL records: the byte format and the log scan ([internal/wal])

    record.go: [encodeRecord] and [decodeRecord] with their CRC-32, and the
    read loop that manager.go, checkpoint.go and recovery.go each repeat over
    the log file. The active transaction table of a checkpoint record is
    serialised by [encoding/gob]: the interface [GobATT] stands for that
    codec. *)

From Stdlib Require Import ZArith NArith Lia Strings.Byte String.
From stdpp Require Import base tactics numbers list gmap strings.
From S2P Require Import Prelude Types.

(** ** lsn.go *)

Definition LSNInvalid : N := 0.

(** ** record.go *)

Definition RecordBegin : N := 1.
Definition RecordWrite : N := 2.
Definition RecordCommit : N := 3.
Definition RecordAbort : N := 4.
Definition RecordCLR : N := 5.
Definition RecordCheckpointBegin : N := 6.
Definition RecordCheckpointEnd : N := 7.

Record ATTEntry := mkATT { att_LastLSN : N; att_FirstLSN : N; att_Status : N }.

#[export] Instance ATTEntry_eq_dec : EqDecision ATTEntry.
Proof. solve_decision. Defined.

Record LogRecord := mkLogRecord {
  lr_LSN : N;
  lr_Type : N;
  lr_TxnID : N;
  lr_PrevLSN : N;
  lr_UndoNextLSN : N;
  lr_Op : N;
  lr_Table : string;
  lr_Key : string;
  lr_Before : list byte;
  lr_After : list byte;
  lr_ATT : gmap N ATTEntry;
  lr_BeginLSN : N;
  lr_Timestamp : Z;
}.

#[export] Instance wal_byte_eq_dec : EqDecision byte := Byte.byte_eq_dec.

#[export] Instance LogRecord_eq_dec : EqDecision LogRecord.
Proof. solve_decision. Defined.

(** The composite literal [LogRecord{}]. *)
Definition zeroRecord : LogRecord := mkLogRecord 0 0 0 0 0 0 "" "" [] [] ∅ 0 0.

Definition set_LSN (r : LogRecord) (lsn : N) : LogRecord :=
  mkLogRecord lsn (lr_Type r) (lr_TxnID r) (lr_PrevLSN r) (lr_UndoNextLSN r) (lr_Op r)
    (lr_Table r) (lr_Key r) (lr_Before r) (lr_After r) (lr_ATT r) (lr_BeginLSN r)
    (lr_Timestamp r).

(** [crc32.ChecksumIEEE]: the reflected CRC-32 with polynomial 0xEDB88320. *)
Fixpoint crc_bits (n : nat) (crc : N) : N :=
  match n with
  | 0 => crc
  | S n => crc_bits n (if N.testbit crc 0 then N.lxor (N.shiftr crc 1) 3988292384
                       else N.shiftr crc 1)
  end.

Definition ChecksumIEEE (bs : list byte) : N :=
  N.lxor (fold_left (fun crc b => crc_bits 8 (N.lxor crc (Byte.to_N b))) bs 4294967295%N) 4294967295%N.

(** The codec of [map[uint64]ATTEntry]. *)
Class GobATT := {
  gob_encode : gmap N ATTEntry -> list byte;
  gob_decode : list byte -> option (gmap N ATTEntry);
}.

Class GobRoundTrip `{GobATT} := {
  gob_decode_encode : forall m, gob_decode (gob_encode m) = Some m;
}.

Section Record.
Context `{GobATT}.

Definition hdrFixed : nat := 33.

Definition encode_body (rec : LogRecord) : list byte :=
  let t := lr_Type rec in
  if (t =? RecordBegin)%N then le_put 8 (u64_of_int (lr_Timestamp rec))
  else if (t =? RecordWrite)%N then
    le_put 8 (lr_UndoNextLSN rec) ++ le_put 1 (lr_Op rec)
    ++ le_put 2 (N.of_nat (String.length (lr_Table rec)))
    ++ le_put 2 (N.of_nat (String.length (lr_Key rec)))
    ++ le_put 4 (N.of_nat (length (lr_Before rec)))
    ++ le_put 4 (N.of_nat (length (lr_After rec)))
    ++ bytes_of_string (lr_Table rec) ++ bytes_of_string (lr_Key rec)
    ++ lr_Before rec ++ lr_After rec
  else if (t =? RecordCommit)%N || (t =? RecordAbort)%N then le_put 8 (lr_PrevLSN rec)
  else if (t =? RecordCLR)%N then le_put 8 (lr_UndoNextLSN rec)
  else if (t =? RecordCheckpointBegin)%N then
    let gobBytes := gob_encode (lr_ATT rec) in
    le_put 4 (N.of_nat (length gobBytes)) ++ gobBytes
  else if (t =? RecordCheckpointEnd)%N then le_put 8 (lr_BeginLSN rec)
  else [].

(** What the CRC covers: the bytes from offset 8 on. *)
Definition encode_payload (rec : LogRecord) : list byte :=
  le_put 1 (lr_Type rec) ++ le_put 8 (lr_LSN rec) ++ le_put 8 (lr_TxnID rec)
  ++ le_put 8 (lr_PrevLSN rec) ++ encode_body rec.

Definition encodeRecord (rec : LogRecord) : list byte :=
  let payload := encode_payload rec in
  le_put 4 (N.of_nat (8 + length payload)) ++ le_put 4 (ChecksumIEEE payload) ++ payload.

Inductive WalError :=
| WalTooShort
| WalClaims
| WalCRC
| WalBodyShort
| WalTruncated
| WalGob
| WalUnknownType.

(** The fields of the body, in front of the common ones. *)
Definition decode_body (base : LogRecord) (body : list byte) : result WalError LogRecord :=
  let t := lr_Type base in
  let set := fun undo op table key before after att beginLSN ts =>
    mkLogRecord (lr_LSN base) t (lr_TxnID base) (lr_PrevLSN base) undo op table key before after
      att beginLSN ts in
  if (t =? RecordBegin)%N then
    if length body <? 8 then Err WalBodyShort
    else Ok (set 0%N 0%N "" "" [] [] ∅ 0%N (int_of_u64 (le_get (take 8 body))))
  else if (t =? RecordWrite)%N then
    if length body <? 21 then Err WalBodyShort
    else
      let undo := le_get (take 8 body) in
      let op := le_get (take 1 (drop 8 body)) in
      let tableLen := N.to_nat (le_get (take 2 (drop 9 body))) in
      let keyLen := N.to_nat (le_get (take 2 (drop 11 body))) in
      let beforeLen := N.to_nat (le_get (take 4 (drop 13 body))) in
      let afterLen := N.to_nat (le_get (take 4 (drop 17 body))) in
      if length body <? 21 + tableLen + keyLen + beforeLen + afterLen then Err WalTruncated
      else
        let rest := drop 21 body in
        Ok (set undo op (string_of_bytes (take tableLen rest))
              (string_of_bytes (take keyLen (drop tableLen rest)))
              (take beforeLen (drop (tableLen + keyLen) rest))
              (take afterLen (drop (tableLen + keyLen + beforeLen) rest)) ∅ 0%N 0%Z)
  else if (t =? RecordCommit)%N || (t =? RecordAbort)%N then
    if length body <? 8 then Err WalBodyShort
    else Ok (set 0%N 0%N "" "" [] [] ∅ 0%N 0%Z)
  else if (t =? RecordCLR)%N then
    if length body <? 8 then Err WalBodyShort
    else Ok (set (le_get (take 8 body)) 0%N "" "" [] [] ∅ 0%N 0%Z)
  else if (t =? RecordCheckpointBegin)%N then
    if length body <? 4 then Err WalBodyShort
    else
      let gobLen := N.to_nat (le_get (take 4 body)) in
      if length body <? 4 + gobLen then Err WalTruncated
      else match gob_decode (take gobLen (drop 4 body)) with
           | None => Err WalGob
           | Some att => Ok (set 0%N 0%N "" "" [] [] att 0%N 0%Z)
           end
  else if (t =? RecordCheckpointEnd)%N then
    if length body <? 8 then Err WalBodyShort
    else Ok (set 0%N 0%N "" "" [] [] ∅ (le_get (take 8 body)) 0%Z)
  else Err WalUnknownType.

(** [None]: the slice expressions panic on a claimed length below the
    header. *)
Definition decodeRecord (b : list byte) : option (result WalError LogRecord) :=
  if length b <? hdrFixed then Some (Err WalTooShort)
  else
    let totalLen := N.to_nat (le_get (take 4 b)) in
    if length b <? totalLen then Some (Err WalClaims)
    else
      match slice b 8 totalLen with
      | None => None
      | Some covered =>
          if negb (le_get (take 4 (drop 4 b)) =? ChecksumIEEE covered)%N then Some (Err WalCRC)
          else
            match slice b 33 totalLen with
            | None => None
            | Some body =>
                Some (decode_body
                  (mkLogRecord (le_get (take 8 (drop 9 b))) (le_get (take 1 (drop 8 b)))
                     (le_get (take 8 (drop 17 b))) (le_get (take 8 (drop 25 b)))
                     0 0 "" "" [] [] ∅ 0 0) body)
            end
      end.

(** The read loop over a log file: read 4 bytes, read the rest of the
    record, decode; stop at the end of the file, at a length below the
    header, at a short read and at a record that does not decode. *)
Fixpoint read_loop (fuel : nat) (file : list byte) : list LogRecord :=
  match fuel with
  | 0 => []
  | S fuel =>
      if length file <? 4 then []
      else
        let totalLen := N.to_nat (le_get (take 4 file)) in
        if totalLen <? hdrFixed then []
        else if length file <? totalLen then []
        else
          match decodeRecord (take totalLen file) with
          | Some (Ok rec) => rec :: read_loop fuel (drop totalLen file)
          | _ => []
          end
  end.

(** Every record takes at least one byte: the length of the file is fuel
    enough. *)
Definition scan_log (file : list byte) : list LogRecord := read_loop (length file) file.

(** [highestLSNInBytes] skips a record that does not decode. *)
Fixpoint highest_loop (fuel : nat) (maxLSN : N) (data : list byte) : option N :=
  match fuel with
  | 0 => Some maxLSN
  | S fuel =>
      if length data <? hdrFixed then Some maxLSN
      else
        let totalLen := N.to_nat (le_get (take 4 data)) in
        if (totalLen <? hdrFixed) || (length data <? totalLen) then Some maxLSN
        else
          match decodeRecord (take totalLen data) with
          | None => None
          | Some r =>
              let maxLSN :=
                match r with
                | Ok rec => if (maxLSN <? lr_LSN rec)%N then lr_LSN rec else maxLSN
                | Err _ => maxLSN
                end in
              highest_loop fuel maxLSN (drop totalLen data)
          end
  end.

Definition highestLSNInBytes (data : list byte) : option N := highest_loop (length data) 0 data.
End Record.

(** ** The checksum fits in its field *)

Lemma lt_pow2_bits (a k : N) : (a < 2 ^ k)%N <-> forall i, (k <= i)%N -> N.testbit a i = false.
Proof.
  split.
  - intros Ha i Hi. destruct (N.eq_dec a 0%N) as [->|Hn]; [apply N.bits_0|].
    apply N.bits_above_log2. apply N.log2_lt_pow2 in Ha; lia.
  - intros Hb. destruct (N.eq_dec a 0%N) as [->|Hn]; [apply N.neq_0_lt_0, N.pow_nonzero; lia|].
    apply N.log2_lt_pow2; [lia|]. destruct (N.lt_ge_cases (N.log2 a) k) as [?|Hge]; [done|].
    specialize (Hb _ Hge). by rewrite N.bit_log2 in Hb.
Qed.

Lemma lxor_lt_pow2 (a b k : N) : (a < 2 ^ k -> b < 2 ^ k -> N.lxor a b < 2 ^ k)%N.
Proof.
  rewrite !lt_pow2_bits. intros Ha Hb i Hi. by rewrite N.lxor_spec, Ha, Hb.
Qed.

Lemma shiftr_lt_pow2 (a n k : N) : (a < 2 ^ k -> N.shiftr a n < 2 ^ k)%N.
Proof. rewrite !lt_pow2_bits. intros Ha i Hi. rewrite N.shiftr_spec'. apply Ha. lia. Qed.

Lemma crc_bits_bound n crc : (crc < 2 ^ 32 -> crc_bits n crc < 2 ^ 32)%N.
Proof.
  revert crc. induction n as [|n IH]; intros crc Hc; cbn [crc_bits]; [done|]. apply IH.
  destruct (N.testbit crc 0); [apply lxor_lt_pow2; [|done]|]; by apply shiftr_lt_pow2.
Qed.

Lemma ChecksumIEEE_bound bs : (ChecksumIEEE bs < 4294967296)%N.
Proof.
  change 4294967296%N with (2 ^ 32)%N. unfold ChecksumIEEE. apply lxor_lt_pow2; [|done].
  assert (Hf : forall bs crc, (crc < 2 ^ 32)%N ->
    (fold_left (fun crc b => crc_bits 8 (N.lxor crc (Byte.to_N b))) bs crc < 2 ^ 32)%N).
  { clear bs. induction bs as [|b bs IH]; intros crc Hc; cbn [fold_left]; [done|].
    apply IH, crc_bits_bound, lxor_lt_pow2; [done|].
    pose proof (Byte.to_N_bounded b). apply (N.le_lt_trans _ 255); [lia|done]. }
  by apply Hf.
Qed.

#[global] Opaque ChecksumIEEE.

Section RecordProofs.
Context `{GobATT, !GobRoundTrip}.

(** What a record's type carries of it; the other fields come back zero. *)
Definition wire (r : LogRecord) : LogRecord :=
  let t := lr_Type r in
  let has := fun c : N => bool_decide (t = c) in
  mkLogRecord (lr_LSN r) t (lr_TxnID r) (lr_PrevLSN r)
    (if has RecordWrite || has RecordCLR then lr_UndoNextLSN r else 0)
    (if has RecordWrite then lr_Op r else 0)
    (if has RecordWrite then lr_Table r else "")
    (if has RecordWrite then lr_Key r else "")
    (if has RecordWrite then lr_Before r else [])
    (if has RecordWrite then lr_After r else [])
    (if has RecordCheckpointBegin then lr_ATT r else ∅)
    (if has RecordCheckpointEnd then lr_BeginLSN r else 0)
    (if has RecordBegin then lr_Timestamp r else 0%Z).

(** Fields within their widths. *)
Record rec_ok (r : LogRecord) : Prop := {
  ro_type : (1 <= lr_Type r <= 7)%N;
  ro_lsn : (lr_LSN r < two64)%N;
  ro_txn : (lr_TxnID r < two64)%N;
  ro_prev : (lr_PrevLSN r < two64)%N;
  ro_undo : (lr_UndoNextLSN r < two64)%N;
  ro_begin : (lr_BeginLSN r < two64)%N;
  ro_op : (lr_Op r < 256)%N;
  ro_table : (N.of_nat (String.length (lr_Table r)) < 65536)%N;
  ro_key : (N.of_nat (String.length (lr_Key r)) < 65536)%N;
  ro_ts : int64 (lr_Timestamp r);
  ro_len : (N.of_nat (8 + length (encode_payload r)) < 4294967296)%N;
}.

Lemma take_drop_field w v pre rest n :
  length pre = n -> (v < 256 ^ N.of_nat w)%N ->
  le_get (take w (drop n (pre ++ le_put w v ++ rest))) = v.
Proof. intros <- Hv. rewrite drop_app_length. by apply le_get_field. Qed.

Ltac body_len := rewrite ?length_app, ?le_put_length, ?length_bytes_of_string; simpl; lia.

Lemma decode_write_body base u op t k bf af :
  (u < two64)%N -> (op < 256)%N -> (N.of_nat (String.length t) < 65536)%N -> (N.of_nat (String.length k) < 65536)%N ->
  (N.of_nat (length bf) < 4294967296)%N -> (N.of_nat (length af) < 4294967296)%N ->
  lr_Type base = RecordWrite ->
  decode_body base
    (le_put 8 u ++ le_put 1 op ++ le_put 2 (N.of_nat (String.length t))
     ++ le_put 2 (N.of_nat (String.length k)) ++ le_put 4 (N.of_nat (length bf))
     ++ le_put 4 (N.of_nat (length af))
     ++ bytes_of_string t ++ bytes_of_string k ++ bf ++ af)
  = Ok (mkLogRecord (lr_LSN base) RecordWrite (lr_TxnID base) (lr_PrevLSN base) u op t k bf af
          ∅ 0 0).
Proof.
  intros Hu Hop Ht Hk Hb Ha Hty. unfold decode_body. rewrite Hty. cbn [N.eqb Pos.eqb RecordWrite RecordBegin].
  set (body := le_put 8 u ++ _).
  assert (Hlen : length body = 21 + String.length t + String.length k + length bf + length af)
    by (unfold body; body_len).
  rewrite Hlen, (proj2 (Nat.ltb_ge _ 21)) by lia.
  assert (F1 : le_get (take 8 body) = u) by (by apply le_get_field).
  assert (F2 : le_get (take 1 (drop 8 body)) = op) by (apply take_drop_field; [apply le_put_length|done]).
  assert (F3 : le_get (take 2 (drop 9 body)) = N.of_nat (String.length t)).
  { unfold body. rewrite app_assoc. apply take_drop_field; [body_len|]. done. }
  assert (F4 : le_get (take 2 (drop 11 body)) = N.of_nat (String.length k)).
  { unfold body. rewrite 2!app_assoc. apply take_drop_field; [body_len|]. done. }
  assert (F5 : le_get (take 4 (drop 13 body)) = N.of_nat (length bf)).
  { unfold body. rewrite 3!app_assoc. apply take_drop_field; [body_len|]. done. }
  assert (F6 : le_get (take 4 (drop 17 body)) = N.of_nat (length af)).
  { unfold body. rewrite 4!app_assoc. apply take_drop_field; [body_len|]. done. }
  rewrite F1, F2, F3, F4, F5, F6, !Nat2N.id, (proj2 (Nat.ltb_ge _ _)) by lia.
  assert (Hd : drop 21 body = bytes_of_string t ++ bytes_of_string k ++ bf ++ af).
  { unfold body. rewrite 5!app_assoc. apply drop_app_length'. body_len. }
  rewrite Hd. rewrite take_app_length' by body_len.
  rewrite drop_app_length' by body_len. rewrite take_app_length' by body_len.
  rewrite (app_assoc (bytes_of_string t)), drop_app_length' by body_len.
  rewrite take_app_length. rewrite app_assoc, drop_app_length' by body_len.
  rewrite take_ge by lia. by rewrite !string_of_bytes_of_string.
Qed.

Lemma type_cases r : rec_ok r ->
  lr_Type r = RecordBegin \/ lr_Type r = RecordWrite \/ lr_Type r = RecordCommit
  \/ lr_Type r = RecordAbort \/ lr_Type r = RecordCLR \/ lr_Type r = RecordCheckpointBegin
  \/ lr_Type r = RecordCheckpointEnd.
Proof.
  intros [[H1 H2] _ _ _ _ _ _ _ _ _ _].
  unfold RecordBegin, RecordWrite, RecordCommit, RecordAbort, RecordCLR, RecordCheckpointBegin,
    RecordCheckpointEnd. lia.
Qed.

Lemma two64_256 : (256 ^ N.of_nat 8)%N = two64.
Proof. vm_compute. reflexivity. Qed.

Lemma le_get_field8 v rest : (v < two64)%N -> le_get (take 8 (le_put 8 v ++ rest)) = v.
Proof. intros Hv. apply le_get_field. by rewrite two64_256. Qed.

Lemma take_drop_field8 v pre rest n :
  length pre = n -> (v < two64)%N -> le_get (take 8 (drop n (pre ++ le_put 8 v ++ rest))) = v.
Proof. intros Hp Hv. apply take_drop_field; [exact Hp|]. by rewrite two64_256. Qed.

Lemma field8 v : (v < two64)%N -> le_get (take 8 (le_put 8 v)) = v.
Proof. intros Hv. rewrite <-(app_nil_r (le_put 8 v)). by apply le_get_field. Qed.

Lemma decode_body_encode r :
  rec_ok r ->
  decode_body (mkLogRecord (lr_LSN r) (lr_Type r) (lr_TxnID r) (lr_PrevLSN r)
                 0 0 "" "" [] [] ∅ 0 0) (encode_body r) = Ok (wire r).
Proof.
  intros Hr. pose proof Hr as [_ _ _ Hp Hu Hb Hop Ht Hk Hts Hlen].
  unfold encode_payload in Hlen. rewrite !length_app in Hlen.
  destruct r as [lsn ty txn prev undo op tb key bf af att bl ts]; simpl in *.
  destruct (type_cases _ Hr) as [E|[E|[E|[E|[E|[E|E]]]]]]; simpl in E; subst ty.
  - unfold encode_body, decode_body, wire. simpl. rewrite le_put_length. simpl.
    rewrite field8 by apply u64_of_int_bound. by rewrite int_of_u64_of_int.
  - assert (Hl2 : (N.of_nat (length bf + length af) < 4294967296)%N).
    { unfold encode_body in Hlen. simpl in Hlen. rewrite !length_app in Hlen. lia. }
    unfold encode_body. simpl. rewrite decode_write_body; try done; simpl; lia.
  - unfold encode_body, decode_body, wire. simpl. by rewrite le_put_length.
  - unfold encode_body, decode_body, wire. simpl. by rewrite le_put_length.
  - unfold encode_body, decode_body, wire. simpl. rewrite le_put_length. simpl. by rewrite field8.
  - unfold encode_body in Hlen. simpl in Hlen. rewrite length_app, le_put_length in Hlen.
    unfold encode_body, decode_body, wire. simpl. rewrite length_app, le_put_length.
    rewrite le_get_field by (simpl; lia). rewrite Nat2N.id.
    rewrite !(proj2 (Nat.ltb_ge _ _)) by lia.
    by rewrite drop_le_put, take_ge, gob_decode_encode by lia.
  - unfold encode_body, decode_body, wire. simpl. rewrite le_put_length. simpl. by rewrite field8.
Qed.

Lemma encodeRecord_length r : length (encodeRecord r) = 8 + length (encode_payload r).
Proof. unfold encodeRecord. by rewrite !length_app, !le_put_length. Qed.

Lemma encode_payload_length r : length (encode_payload r) = 25 + length (encode_body r).
Proof. unfold encode_payload. rewrite !length_app, !le_put_length. lia. Qed.

Lemma encodeRecord_head r rest :
  rec_ok r -> le_get (take 4 (encodeRecord r ++ rest)) = N.of_nat (length (encodeRecord r)).
Proof.
  intros Hr. rewrite encodeRecord_length. unfold encodeRecord. rewrite <-app_assoc.
  apply le_get_field, (ro_len _ Hr).
Qed.

Lemma decodeRecord_encode r : rec_ok r -> decodeRecord (encodeRecord r) = Some (Ok (wire r)).
Proof.
  intros Hr. pose proof (encodeRecord_head r [] Hr) as Hh. rewrite app_nil_r in Hh.
  pose proof (encodeRecord_length r) as Hl. pose proof (encode_payload_length r) as Hpl.
  unfold decodeRecord. rewrite Hh, Nat2N.id, Nat.ltb_irrefl.
  rewrite (proj2 (Nat.ltb_ge _ hdrFixed)) by (unfold hdrFixed; lia).
  unfold slice. rewrite Nat.leb_refl, andb_true_r, !andb_true_r.
  rewrite !(proj2 (Nat.leb_le _ _)) by lia.
  assert (D8 : drop 8 (encodeRecord r) = encode_payload r).
  { unfold encodeRecord. rewrite app_assoc. apply drop_app_length'.
    by rewrite length_app, !le_put_length. }
  assert (D33 : drop 33 (encodeRecord r) = encode_body r).
  { change 33 with (8 + 25). rewrite <-drop_drop, D8. unfold encode_payload.
    rewrite 3!app_assoc. apply drop_app_length'. by rewrite !length_app, !le_put_length. }
  rewrite D8, D33, (take_ge (encode_payload r)), (take_ge (encode_body r)) by lia.
  assert (Hc : le_get (take 4 (drop 4 (encodeRecord r))) = ChecksumIEEE (encode_payload r)).
  { unfold encodeRecord. rewrite drop_le_put. apply le_get_field, ChecksumIEEE_bound. }
  rewrite Hc, N.eqb_refl. simpl negb. cbv iota. f_equal.
  rewrite <-(decode_body_encode r Hr). pose proof Hr as [Hty Hlsn Htx Hpr _ _ _ _ _ _ _].
  assert (Dn : forall n, drop (8 + n) (encodeRecord r) = drop n (encode_payload r)).
  { intros n. by rewrite <-D8, drop_drop. }
  pose proof (Dn 1) as D9. pose proof (Dn 9) as D17. pose proof (Dn 17) as D25. simpl in D9, D17, D25.
  rewrite D9, D17, D25. unfold encode_payload.
  rewrite le_get_field by (simpl; lia). f_equal. f_equal.
  - rewrite drop_le_put. by apply le_get_field8.
  - rewrite app_assoc. apply take_drop_field8; [by rewrite length_app, !le_put_length|done].
  - rewrite 2!app_assoc. apply take_drop_field8; [by rewrite !length_app, !le_put_length|done].
Qed.

(** ** The scan *)

(** Bytes at which the read loop stops at once. *)
Definition stops (tail : list byte) : Prop := forall fuel, read_loop fuel tail = [].

Definition log_bytes (recs : list LogRecord) : list byte := concat (encodeRecord <$> recs).

Lemma stops_nil : stops [].
Proof. by intros [|fuel]. Qed.

(** A record cut off in the middle of a write. *)
Lemma stops_torn r k : rec_ok r -> k < length (encodeRecord r) -> stops (take k (encodeRecord r)).
Proof.
  intros Hr Hk [|fuel]; [done|]. cbn [read_loop]. rewrite length_take.
  destruct (Nat.ltb_spec (k `min` length (encodeRecord r)) 4) as [H4|H4]; [done|].
  rewrite take_take. replace (4 `min` k) with 4 by lia.
  pose proof (encodeRecord_head r [] Hr) as Hh. rewrite app_nil_r in Hh. rewrite Hh, Nat2N.id.
  destruct (_ <? hdrFixed); [done|].
  by rewrite (proj2 (Nat.ltb_lt (k `min` length (encodeRecord r)) (length (encodeRecord r)))) by lia.
Qed.

Lemma read_loop_recs recs tail fuel :
  Forall rec_ok recs -> stops tail -> length recs <= fuel ->
  read_loop fuel (log_bytes recs ++ tail) = wire <$> recs.
Proof.
  intros Hok Ht. revert fuel. induction Hok as [|r recs Hr Hok IH]; intros fuel Hf; [apply Ht|].
  destruct fuel as [|fuel]; simpl in Hf; [lia|].
  change (log_bytes (r :: recs)) with (encodeRecord r ++ log_bytes recs). cbn [read_loop].
  rewrite <-app_assoc.
  rewrite encodeRecord_head, Nat2N.id by done.
  pose proof (encodeRecord_length r) as Hl. pose proof (encode_payload_length r) as Hpl.
  rewrite length_app. rewrite !(proj2 (Nat.ltb_ge _ _)) by (unfold hdrFixed; lia).
  rewrite take_app_length, decodeRecord_encode by done.
  rewrite drop_app_length, IH by lia. done.
Qed.

Lemma log_bytes_length recs : length recs <= length (log_bytes recs).
Proof.
  induction recs as [|r recs IH]; [simpl; lia|].
  change (log_bytes (r :: recs)) with (encodeRecord r ++ log_bytes recs).
  rewrite length_app, encodeRecord_length. simpl. lia.
Qed.

Lemma scan_log_recs recs tail :
  Forall rec_ok recs -> stops tail -> scan_log (log_bytes recs ++ tail) = wire <$> recs.
Proof.
  intros Hok Ht. unfold scan_log. apply read_loop_recs; [done|done|].
  rewrite length_app. pose proof (log_bytes_length recs). lia.
Qed.

Lemma log_bytes_app r1 r2 : log_bytes (r1 ++ r2) = log_bytes r1 ++ log_bytes r2.
Proof. unfold log_bytes. by rewrite fmap_app, concat_app. Qed.

(** [highestLSNInBytes] over whole records is the largest LSN. *)
Lemma highest_loop_recs recs fuel m :
  Forall rec_ok recs -> length recs <= fuel ->
  highest_loop fuel m (log_bytes recs)
  = Some (fold_left (fun m r => if (m <? lr_LSN r)%N then lr_LSN r else m) recs m).
Proof.
  intros Hok. revert fuel m. induction Hok as [|r recs Hr Hok IH]; intros fuel m Hf.
  { by destruct fuel. }
  destruct fuel as [|fuel]; simpl in Hf; [lia|].
  change (log_bytes (r :: recs)) with (encodeRecord r ++ log_bytes recs). cbn [highest_loop fold_left].
  rewrite encodeRecord_head, Nat2N.id by done.
  pose proof (encodeRecord_length r) as Hl. pose proof (encode_payload_length r) as Hpl.
  rewrite length_app. rewrite !(proj2 (Nat.ltb_ge _ _)) by (unfold hdrFixed; lia).
  simpl orb. cbv iota. rewrite take_app_length, decodeRecord_encode by done.
  rewrite drop_app_length. simpl. apply IH. lia.
Qed.

Lemma highestLSNInBytes_recs recs :
  Forall rec_ok recs ->
  highestLSNInBytes (log_bytes recs)
  = Some (fold_left (fun m r => if (m <? lr_LSN r)%N then lr_LSN r else m) recs 0%N).
Proof. intros Hok. unfold highestLSNInBytes. by rewrite highest_loop_recs by (done || apply log_bytes_length). Qed.
End RecordProofs.

(** ** Properties *)

(** A log record whose fields fit their widths decodes to what its type
    carries of it, the checksum included; the length prefix is the number of
    bytes written. *)
Theorem encodeRecord_decodeRecord `{GobRoundTrip} r :
  rec_ok r ->
  decodeRecord (encodeRecord r) = Some (Ok (wire r))
  /\ le_get (take 4 (encodeRecord r)) = N.of_nat (length (encodeRecord r)).
Proof.
  intros Hr. split; [by apply decodeRecord_encode|].
  rewrite <-(app_nil_r (encodeRecord r)) at 1. by apply encodeRecord_head.
Qed.

(** C37. Crash tolerance of the scan: a log of complete records, each with
    fields that fit their widths, followed by a record cut off anywhere by
    a crash reads back as exactly the complete records, in order. *)
Theorem scan_log_torn_tail `{GobRoundTrip} recs r k :
  Forall rec_ok recs -> rec_ok r -> k < length (encodeRecord r) ->
  scan_log (log_bytes recs ++ take k (encodeRecord r)) = wire <$> recs.
Proof. intros Hok Hr Hk. apply scan_log_recs; [done|]. by apply stops_torn. Qed.

(** A codec that satisfies the round trip, for tables coded through their
    numbering. *)
#[export] Instance ATTEntry_countable : Countable ATTEntry.
Proof.
  refine (inj_countable' (fun e => (att_LastLSN e, att_FirstLSN e, att_Status e))
            (fun '(a, b, c) => mkATT a b c) _). by intros [].
Defined.

Definition gob_countable : GobATT :=
  {| gob_encode := fun m => le_put (Pos.to_nat (encode m)) (Npos (encode m));
     gob_decode := fun b => match le_get b with Npos p => decode p | N0 => None end |}.

Lemma lt_pow256 p : (Npos p < 256 ^ N.of_nat (Pos.to_nat p))%N.
Proof.
  rewrite positive_nat_N. apply (N.lt_le_trans _ (2 ^ Npos p)); [apply N.pow_gt_lin_r; lia|].
  apply N.pow_le_mono_l. lia.
Qed.

Lemma gob_countable_roundtrip : @GobRoundTrip gob_countable.
Proof.
  split. intros m. cbn [gob_encode gob_decode gob_countable].
  rewrite le_get_put_small by apply lt_pow256. apply decode_encode.
Qed.

(** A commit record, as the log manager writes it. *)
Definition commit_rec (lsn txn prev : N) : LogRecord :=
  mkLogRecord lsn RecordCommit txn prev 0 0 "" "" [] [] ∅ 0 0.

Lemma commit_rec_ok `{GobATT} lsn txn prev :
  (lsn < two64)%N -> (txn < two64)%N -> (prev < two64)%N -> rec_ok (commit_rec lsn txn prev).
Proof.
  intros H1 H2 H3. split; simpl; try done; unfold int64; try lia.
Qed.

Lemma encodeRecord_decodeRecord_witness :
  @decodeRecord gob_countable (@encodeRecord gob_countable (commit_rec 7 3 6))
  = Some (Ok (wire (commit_rec 7 3 6))).
Proof.
  refine (proj1 (@encodeRecord_decodeRecord gob_countable gob_countable_roundtrip
                   (commit_rec 7 3 6) _)).
  by apply commit_rec_ok.
Defined.

Lemma scan_log_torn_tail_witness :
  @scan_log gob_countable
    (@log_bytes gob_countable [commit_rec 7 3 6]
     ++ take 10 (@encodeRecord gob_countable (commit_rec 8 4 5))) = [wire (commit_rec 7 3 6)].
Proof.
  apply (@scan_log_torn_tail gob_countable gob_countable_roundtrip
           [commit_rec 7 3 6] (commit_rec 8 4 5) 10).
  - constructor; [by apply commit_rec_ok|constructor].
  - by apply commit_rec_ok.
  - rewrite encodeRecord_length, encode_payload_length. lia.
Defined.
