(* ===== verification/Page.v ===== *)
(** * Slotted pages ([internal/storage/page.go])

    A page is its 4 KiB byte array together with the header fields the code
    keeps in memory. [None] is a run-time panic (a slice out of range, or the
    explicit panic of [Compact]). The last part shows that a page behaves
    like a list of slots: [PageSpec] is that list with the free-space offset,
    and every run of operations on a page gives the answers of the list. *)

From Stdlib Require Import ZArith NArith Lia Strings.Byte String.
From stdpp Require Import base tactics numbers list gmap strings.
From S2P Require Import Prelude Types Storage WalRecord.

(** ** Byte arrays *)

Definition blen (bs : list byte) : N := N.of_nat (length bs).

(** [d[off : off+n]] *)
Definition sub (off n : N) (d : list byte) : list byte := take (N.to_nat n) (drop (N.to_nat off) d).

Definition sub_checked (off n : N) (d : list byte) : option (list byte) :=
  if (off + n <=? blen d)%N then Some (sub off n d) else None.

(** The bytes [bs] stored at [off]. *)
Definition store (off : N) (bs d : list byte) : list byte :=
  take (N.to_nat off) d ++ bs ++ drop (N.to_nat off + length bs) d.

Definition store_checked (off : N) (bs d : list byte) : option (list byte) :=
  if (off + blen bs <=? blen d)%N then Some (store off bs d) else None.

(** [copy(d[off:], bs)] stops at the end of the array. *)
Definition copy_at (off : N) (bs d : list byte) : option (list byte) :=
  if (off <=? blen d)%N then Some (store off (take (N.to_nat (blen d - off)) bs) d) else None.

Definition u16 (n : N) : N := (n mod 65536)%N.

(** ** The page *)

Definition PageSize : N := 4096.
Definition PageHeaderSize : N := 32.
Definition SlotSize : N := 4.
Definition MinFreeSpace : N := 64.

Record Page := mkPage {
  pg_id : N;
  pg_pageLSN : N;
  pg_slotCount : N;
  pg_freeSpaceOffset : N;
  pg_flags : byte;
  pg_data : list byte;
}.

Inductive PageError := ErrPageFull | ErrSlotNotFound | ErrPageCRC.

Definition with_data (p : Page) (d : list byte) : Page :=
  mkPage (pg_id p) (pg_pageLSN p) (pg_slotCount p) (pg_freeSpaceOffset p) (pg_flags p) d.
Definition with_slotCount (p : Page) (n : N) : Page :=
  mkPage (pg_id p) (pg_pageLSN p) n (pg_freeSpaceOffset p) (pg_flags p) (pg_data p).
Definition with_freeSpaceOffset (p : Page) (n : N) : Page :=
  mkPage (pg_id p) (pg_pageLSN p) (pg_slotCount p) n (pg_flags p) (pg_data p).

Definition computeHeaderCRC (p : Page) : N := ChecksumIEEE (take 20 (pg_data p)).

(** The bytes 0 to 19 of the header. *)
Definition header_fields (p : Page) : list byte :=
  le_put 8 (pg_id p) ++ le_put 8 (pg_pageLSN p) ++ le_put 2 (pg_slotCount p) ++ le_put 2 (pg_freeSpaceOffset p).

Definition syncHeader (p : Page) : Page :=
  let p := with_data p (store 0 (header_fields p) (pg_data p)) in
  let p := with_data p (store 20 (le_put 4 (computeHeaderCRC p)) (pg_data p)) in
  with_data p (store 24 [pg_flags p] (pg_data p)).

Definition loadHeader (d : list byte) : Page :=
  mkPage (le_get (sub 0 8 d)) (le_get (sub 8 8 d)) (le_get (sub 16 2 d)) (le_get (sub 18 2 d))
    (nth 24 d x00) d.

Definition NewPage (id : N) : Page :=
  syncHeader (mkPage id 0 0 PageSize x00 (replicate (N.to_nat PageSize) x00)).

Definition SetPageLSN (p : Page) (lsn : N) : Page :=
  syncHeader (mkPage (pg_id p) lsn (pg_slotCount p) (pg_freeSpaceOffset p) (pg_flags p) (pg_data p)).

Definition slotDirEnd (p : Page) : N := PageHeaderSize + pg_slotCount p * SlotSize.

Definition FreeSpace (p : Page) : Z := Z.of_N (pg_freeSpaceOffset p) - Z.of_N (slotDirEnd p).

Definition IsFull (p : Page) : bool := (FreeSpace p <? Z.of_N (MinFreeSpace + SlotSize))%Z.

Definition getSlot (p : Page) (i : N) : option (N * N) :=
  let base := (PageHeaderSize + i * SlotSize)%N in
  off ← sub_checked base 2 (pg_data p);
  ln ← sub_checked (base + 2) 2 (pg_data p);
  Some (le_get off, le_get ln).

Definition setSlot (p : Page) (i : N) (offset length : N) : option Page :=
  let base := (PageHeaderSize + i * SlotSize)%N in
  d ← store_checked base (le_put 2 offset) (pg_data p);
  d ← store_checked (base + 2) (le_put 2 length) d;
  Some (with_data p d).

Definition is_tombstone (s : N * N) : bool := (s.1 =? 0)%N && (s.2 =? 0)%N.

(** [KeyLen:2][key][ValLen:2][vals] *)
Definition page_record (key : RowKey) (vals : list byte) : list byte :=
  let kb := bytes_of_string key in
  le_put 2 (blen kb) ++ kb ++ le_put 2 (blen vals) ++ vals.

(** The first tombstone among [k] slots from [i] on; the outer [None] is a
    panic. *)
Fixpoint find_tombstone (p : Page) (i : N) (k : nat) : option (option N) :=
  match k with
  | O => Some None
  | S k =>
      s ← getSlot p i;
      if is_tombstone s then Some (Some i) else find_tombstone p (i + 1) k
  end.

Definition InsertRow (p : Page) (key : RowKey) (vals : list byte) : option (Page * result PageError N) :=
  let record := page_record key vals in
  let needed := blen record in
  tombstoneIdx ← find_tombstone p 0 (N.to_nat (pg_slotCount p));
  let extraSlotSpace := match tombstoneIdx with None => SlotSize | Some _ => 0%N end in
  if (FreeSpace p <? Z.of_N (needed + extraSlotSpace))%Z then Some (p, Err ErrPageFull)
  else
    let p := with_freeSpaceOffset p (u16 (pg_freeSpaceOffset p + (65536 - u16 needed))) in
    d ← copy_at (pg_freeSpaceOffset p) record (pg_data p);
    let p := with_data p d in
    let '(slotID, p) :=
      match tombstoneIdx with
      | Some i => (i, p)
      | None => (pg_slotCount p, with_slotCount p (u16 (pg_slotCount p + 1)))
      end in
    p ← setSlot p slotID (pg_freeSpaceOffset p) (u16 needed);
    Some (syncHeader p, Ok slotID).

Definition UpdateRow (p : Page) (slotID : Z) (key : RowKey) (vals : list byte)
    : option (Page * result PageError N) :=
  if (slotID <? 0)%Z || (Z.of_N (pg_slotCount p) <=? slotID)%Z then Some (p, Err ErrSlotNotFound)
  else
    let i := Z.to_N slotID in
    '(off, ln) ← getSlot p i;
    if is_tombstone (off, ln) then Some (p, Err ErrSlotNotFound)
    else
      let newRecord := page_record key vals in
      if (blen newRecord <=? ln)%N then
        d ← copy_at off newRecord (pg_data p);
        p ← setSlot (with_data p d) i off (u16 (blen newRecord));
        Some (syncHeader p, Ok i)
      else
        p ← setSlot p i 0 0;
        InsertRow p key vals.

Definition DeleteRow (p : Page) (slotID : Z) : option Page :=
  if (slotID <? 0)%Z || (Z.of_N (pg_slotCount p) <=? slotID)%Z then Some p
  else p ← setSlot p (Z.to_N slotID) 0 0; Some (syncHeader p).

(** The inner [None]: ["", nil, false]. *)
Definition GetRow (p : Page) (slotID : Z) : option (option (RowKey * list byte)) :=
  if (slotID <? 0)%Z || (Z.of_N (pg_slotCount p) <=? slotID)%Z then Some None
  else
    '(off, ln) ← getSlot p (Z.to_N slotID);
    if is_tombstone (off, ln) then Some None
    else
      rec ← slice (pg_data p) (N.to_nat off) (N.to_nat (u16 (off + ln)));
      if length rec <? 2 then Some None
      else
        let klen := N.to_nat (le_get (take 2 rec)) in
        if length rec <? 2 + klen + 2 then Some None
        else
          let vlen := N.to_nat (le_get (take 2 (drop (2 + klen) rec))) in
          if length rec <? 2 + klen + 2 + vlen then Some None
          else Some (Some (string_of_bytes (take klen (drop 2 rec)), take vlen (drop (2 + klen + 2) rec))).

Fixpoint has_deleted (p : Page) (i : N) (k : nat) : option bool :=
  match k with
  | O => Some false
  | S k => s ← getSlot p i; if is_tombstone s then Some true else has_deleted p (i + 1) k
  end.

Definition HasDeletedSlots (p : Page) : option bool := has_deleted p 0 (N.to_nat (pg_slotCount p)).

(** The live rows of [k] slots from [i] on. *)
Fixpoint live_rows (p : Page) (i : N) (k : nat) : option (list (RowKey * list byte)) :=
  match k with
  | O => Some []
  | S k =>
      r ← GetRow p (Z.of_N i);
      rest ← live_rows p (i + 1) k;
      Some (match r with Some kv => kv :: rest | None => rest end)
  end.

(** A failing insert is the explicit panic. *)
Fixpoint reinsert (p : Page) (rows : list (RowKey * list byte)) (idx : gmap RowKey N)
    : option (Page * gmap RowKey N) :=
  match rows with
  | [] => Some (p, idx)
  | (k, v) :: rows =>
      '(p, r) ← InsertRow p k v;
      match r with
      | Err _ => None
      | Ok sid => reinsert p rows (<[k := sid]> idx)
      end
  end.

Definition Compact (p : Page) : option (Page * gmap RowKey N) :=
  rows ← live_rows p 0 (N.to_nat (pg_slotCount p));
  let p := with_freeSpaceOffset (with_slotCount p 0) PageSize in
  let p := with_data p (take (N.to_nat PageHeaderSize) (pg_data p)
                        ++ replicate (N.to_nat (PageSize - PageHeaderSize)) x00) in
  reinsert p rows ∅.

Definition Serialize (p : Page) : Page * list byte := let p := syncHeader p in (p, pg_data p).

Definition Deserialize (b : list byte) : Page * option PageError :=
  let p := loadHeader b in
  (p, if (le_get (sub 20 4 b) =? computeHeaderCRC p)%N then None else Some ErrPageCRC).

(** ** Lemmas on byte arrays *)

Lemma blen_app a b : blen (a ++ b) = (blen a + blen b)%N.
Proof. unfold blen. rewrite length_app. lia. Qed.

Lemma blen_le_put w v : blen (le_put w v) = N.of_nat w.
Proof. unfold blen. by rewrite le_put_length. Qed.

Lemma blen_store off bs d : (off + blen bs <= blen d)%N -> blen (store off bs d) = blen d.
Proof. unfold blen, store. intros Hl. rewrite !length_app, length_take, length_drop. lia. Qed.

Lemma sub_length off n d : (off + n <= blen d)%N -> blen (sub off n d) = n.
Proof. unfold blen, sub. intros Hl. rewrite length_take, length_drop. lia. Qed.

Lemma sub_store_same off bs d : (off + blen bs <= blen d)%N -> sub off (blen bs) (store off bs d) = bs.
Proof.
  unfold blen, sub, store. intros Hl.
  rewrite drop_app_length' by (rewrite length_take; lia). by rewrite Nat2N.id, take_app_length.
Qed.

Lemma sub_store_other off' n off bs d :
  (off + blen bs <= blen d)%N -> (off' + n <= off \/ off + blen bs <= off')%N ->
  sub off' n (store off bs d) = sub off' n d.
Proof.
  unfold blen, sub, store. intros Hl Hd. apply list_eq. intros i.
  destruct (decide (i < N.to_nat n)) as [Hi|Hi]; [|by rewrite !lookup_take_ge by lia].
  rewrite !lookup_take_lt, !lookup_drop by lia. destruct Hd as [Hd|Hd].
  - rewrite lookup_app_l by (rewrite length_take; lia). by rewrite lookup_take_lt by lia.
  - rewrite lookup_app_r by (rewrite length_take; lia). rewrite lookup_app_r by (rewrite length_take; lia).
    rewrite length_take, lookup_drop. f_equal. lia.
Qed.

Lemma sub_app off n m d : sub off (n + m) d = sub off n d ++ sub (off + n) m d.
Proof.
  unfold sub. rewrite <-(take_drop (N.to_nat n) (take (N.to_nat (n + m)) _)), take_take, skipn_firstn_comm, drop_drop.
  f_equal; f_equal; try lia. f_equal. lia.
Qed.

Lemma sub_checked_ok off n d : (off + n <= blen d)%N -> sub_checked off n d = Some (sub off n d).
Proof. intros Hl. unfold sub_checked. by rewrite (proj2 (N.leb_le _ _) Hl). Qed.

Lemma store_checked_ok off bs d : (off + blen bs <= blen d)%N -> store_checked off bs d = Some (store off bs d).
Proof. intros Hl. unfold store_checked. by rewrite (proj2 (N.leb_le _ _) Hl). Qed.

Lemma copy_at_ok off bs d : (off + blen bs <= blen d)%N -> copy_at off bs d = Some (store off bs d).
Proof.
  intros Hl. unfold copy_at. rewrite (proj2 (N.leb_le _ _)) by lia.
  rewrite take_ge; [done|]. unfold blen in *. lia.
Qed.

Lemma store_store off a b d :
  (off + blen a + blen b <= blen d)%N -> store (off + blen a) b (store off a d) = store off (a ++ b) d.
Proof.
  intros Hl. unfold store, blen in *. rewrite <-!app_assoc.
  replace (N.to_nat (off + N.of_nat (length a))) with (length (take (N.to_nat off) d) + length a)
    by (rewrite length_take; lia).
  rewrite take_app_add, take_app_length, <-app_assoc. f_equal. f_equal. f_equal.
  rewrite <-Nat.add_assoc, drop_app_add, drop_app_add, drop_drop, length_app. f_equal. lia.
Qed.

Lemma u16_small n : (n < 65536)%N -> u16 n = n.
Proof. apply N.mod_small. Qed.

Lemma le_get_put2 n : (n < 65536)%N -> le_get (le_put 2 n) = n.
Proof. intros Hn. by rewrite le_get_put_small. Qed.

(** ** The header is apart from slots and records *)

Lemma blen_header p : blen (header_fields p) = 20%N.
Proof. unfold header_fields. by rewrite !blen_app, !blen_le_put. Qed.

(** [syncHeader] in one store. *)
Definition full_header (p : Page) : list byte :=
  header_fields p ++ le_put 4 (ChecksumIEEE (header_fields p)) ++ [pg_flags p].

Lemma blen_full_header p : blen (full_header p) = 25%N.
Proof. unfold full_header. by rewrite !blen_app, blen_header, blen_le_put. Qed.

Lemma syncHeader_data p :
  blen (pg_data p) = PageSize -> syncHeader p = with_data p (store 0 (full_header p) (pg_data p)).
Proof.
  intros Hl. unfold syncHeader, computeHeaderCRC. cbn [pg_data pg_flags with_data]. unfold with_data. simpl. f_equal.
  assert (Hh : take 20 (store 0 (header_fields p) (pg_data p)) = header_fields p).
  { pose proof (sub_store_same 0 (header_fields p) (pg_data p)) as Hs. rewrite blen_header in Hs.
    apply Hs. rewrite Hl. unfold PageSize. lia. }
  rewrite Hh. set (c := le_put 4 (ChecksumIEEE (header_fields p))).
  pose proof (store_store 0 (header_fields p) c (pg_data p)) as S1.
  pose proof (store_store 0 (header_fields p ++ c) [pg_flags p] (pg_data p)) as S2.
  rewrite blen_app, blen_header in S2. rewrite blen_header in S1. unfold c in S1, S2. rewrite blen_le_put in S1, S2.
  fold c in S1, S2. change (0 + 20)%N with 20%N in S1. change (0 + (20 + N.of_nat 4))%N with 24%N in S2.
  rewrite Hl in S1, S2. rewrite S1, S2 by (unfold PageSize, blen; simpl; lia).
  unfold full_header. by rewrite <-app_assoc.
Qed.

Lemma syncHeader_sub p off n :
  blen (pg_data p) = PageSize -> (25 <= off)%N -> sub off n (pg_data (syncHeader p)) = sub off n (pg_data p).
Proof.
  intros Hl Ho. rewrite syncHeader_data by done. simpl. apply sub_store_other; rewrite blen_full_header; [|lia].
  rewrite Hl. unfold PageSize. lia.
Qed.

Lemma syncHeader_len p : blen (pg_data p) = PageSize -> blen (pg_data (syncHeader p)) = PageSize.
Proof.
  intros Hl. rewrite syncHeader_data by done. simpl. rewrite blen_store; [done|]. rewrite blen_full_header, Hl.
  unfold PageSize. lia.
Qed.

(** ** Slots *)

Definition slot_pos (i : nat) : N := (PageHeaderSize + N.of_nat i * SlotSize)%N.

Definition slot_bytes (s : N * N) : list byte := le_put 2 s.1 ++ le_put 2 s.2.

Lemma getSlot_bytes p i s :
  (slot_pos i + 4 <= blen (pg_data p))%N -> sub (slot_pos i) 4 (pg_data p) = slot_bytes s ->
  (s.1 < 65536)%N -> (s.2 < 65536)%N -> getSlot p (N.of_nat i) = Some s.
Proof.
  intros Hl Hs H1 H2. unfold getSlot. fold (slot_pos i).
  rewrite !sub_checked_ok by lia. simpl. change 4%N with (2 + 2)%N in Hs. rewrite sub_app in Hs.
  apply (app_inj_1 (sub (slot_pos i) 2 (pg_data p))) in Hs as [-> ->].
  - rewrite !le_get_put2 by done. by destruct s.
  - rewrite le_put_length. pose proof (sub_length (slot_pos i) 2 (pg_data p)) as Hb. unfold blen in *. lia.
Qed.

Lemma setSlot_ok p i off ln :
  (slot_pos i + 4 <= blen (pg_data p))%N ->
  setSlot p (N.of_nat i) off ln = Some (with_data p (store (slot_pos i) (slot_bytes (off, ln)) (pg_data p))).
Proof.
  intros Hl. unfold setSlot. fold (slot_pos i). rewrite store_checked_ok by (rewrite blen_le_put; simpl; lia). simpl.
  rewrite store_checked_ok by (rewrite blen_le_put, blen_store; rewrite ?blen_le_put; simpl; lia). simpl.
  pose proof (store_store (slot_pos i) (le_put 2 off) (le_put 2 ln) (pg_data p)) as S.
  rewrite !blen_le_put in S. change (N.of_nat 2) with 2%N in S. by rewrite S by lia.
Qed.

(** ** The representation

    Each slot with the place of its record: [None] is a tombstone. *)

Notation Loc := (option (N * RowKey * list byte)).

Definition word (l : Loc) : N * N :=
  match l with None => (0, 0)%N | Some (o, k, v) => (o, blen (page_record k v)) end.

Definition live_bytes (locs : list Loc) : N := foldr (fun l a => ((word l).2 + a)%N) 0%N locs.

Record recs_ok (free : N) (d : list byte) (locs : list Loc) : Prop := {
  rk_room : (free + live_bytes locs <= PageSize)%N;
  rk_rec : forall i o k v, locs !! i = Some (Some (o, k, v)) ->
    (free <= o)%N /\ (o + blen (page_record k v) <= PageSize)%N
    /\ sub o (blen (page_record k v)) d = page_record k v;
  rk_disj : forall i j o1 k1 v1 o2 k2 v2, i <> j ->
    locs !! i = Some (Some (o1, k1, v1)) -> locs !! j = Some (Some (o2, k2, v2)) ->
    (o1 + blen (page_record k1 v1) <= o2 \/ o2 + blen (page_record k2 v2) <= o1)%N;
}.

Record page_inv (p : Page) (locs : list Loc) : Prop := {
  pi_len : blen (pg_data p) = PageSize;
  pi_count : pg_slotCount p = N.of_nat (length locs);
  pi_low : (slot_pos (length locs) <= pg_freeSpaceOffset p)%N;
  pi_slots : forall i l, locs !! i = Some l -> sub (slot_pos i) 4 (pg_data p) = slot_bytes (word l);
  pi_recs : recs_ok (pg_freeSpaceOffset p) (pg_data p) locs;
}.

Lemma slot_pos_S i : slot_pos (S i) = (slot_pos i + 4)%N.
Proof. unfold slot_pos, SlotSize. lia. Qed.

Lemma slot_pos_mono i j : i < j -> (slot_pos i + 4 <= slot_pos j)%N.
Proof. unfold slot_pos, SlotSize. lia. Qed.

Lemma blen_record k v : blen (page_record k v) = (blen (bytes_of_string k) + blen v + 4)%N.
Proof. unfold page_record. rewrite !blen_app, !blen_le_put. lia. Qed.

Lemma recs_ok_data free d d' locs :
  recs_ok free d locs -> (forall off n, (free <= off)%N -> (off + n <= PageSize)%N -> sub off n d' = sub off n d) ->
  recs_ok free d' locs.
Proof.
  intros [R1 R2 R3] Hd. split; [done| |done]. intros i o k v Hi. destruct (R2 i o k v Hi) as (A & B & C).
  split_and!; [done|done|]. by rewrite Hd.
Qed.

(** Writing one slot and the header on top of intact records. *)
Lemma page_inv_slot p locs i l :
  blen (pg_data p) = PageSize -> locs !! i = Some l ->
  (forall j x, j <> i -> locs !! j = Some x -> sub (slot_pos j) 4 (pg_data p) = slot_bytes (word x)) ->
  (slot_pos (length locs) <= pg_freeSpaceOffset p)%N ->
  pg_slotCount p = N.of_nat (length locs) -> recs_ok (pg_freeSpaceOffset p) (pg_data p) locs ->
  page_inv (with_data p (store (slot_pos i) (slot_bytes (word l)) (pg_data p))) locs.
Proof.
  intros Hlen Hi Hs Hlow Hc Hr. assert (Hil : i < length locs) by (by eapply lookup_lt_Some).
  pose proof (slot_pos_mono i (length locs) Hil) as Hm.
  assert (Hsz : blen (slot_bytes (word l)) = 4%N) by (unfold slot_bytes; by rewrite blen_app, !blen_le_put).
  assert (Hfree : (pg_freeSpaceOffset p <= PageSize)%N) by (destruct Hr; lia).
  assert (Hfit : (slot_pos i + blen (slot_bytes (word l)) <= blen (pg_data p))%N) by (rewrite Hsz, Hlen; lia).
  split; simpl; try done.
  - by rewrite blen_store.
  - intros j x Hj. destruct (decide (j = i)) as [->|Hne].
    + rewrite Hi in Hj. injection Hj as <-. rewrite <-Hsz at 1. by apply sub_store_same.
    + rewrite sub_store_other; [by apply Hs|done|]. rewrite Hsz.
      destruct (Nat.lt_total j i) as [Hlt|[?|Hlt]]; [|done|]; apply slot_pos_mono in Hlt; lia.
  - eapply recs_ok_data; [exact Hr|]. intros off n Ho Hn. apply sub_store_other; [done|]. rewrite Hsz. lia.
Qed.

Lemma page_inv_sync p locs : page_inv p locs -> page_inv (syncHeader p) locs.
Proof.
  intros [I1 I2 I3 I4 I5]. assert (Hd : forall off n, (32 <= off)%N ->
    sub off n (pg_data (syncHeader p)) = sub off n (pg_data p)) by (intros; apply syncHeader_sub; [done|lia]).
  rewrite syncHeader_data in Hd |- * by done. simpl in Hd. split; simpl; try done.
  - rewrite blen_store; [done|]. rewrite blen_full_header, I1. unfold PageSize. lia.
  - intros i l Hi. rewrite Hd by (unfold slot_pos, PageHeaderSize; lia). by apply I4.
  - eapply recs_ok_data; [done|]. intros off n Ho _. apply Hd. unfold slot_pos, PageHeaderSize in I3. lia.
Qed.

Lemma page_inv_getSlot p locs i l : page_inv p locs -> locs !! i = Some l -> getSlot p (N.of_nat i) = Some (word l).
Proof.
  intros [I1 I2 I3 I4 I5] Hi. assert (Hil : i < length locs) by (by eapply lookup_lt_Some).
  pose proof (slot_pos_mono i (length locs) Hil) as Hm.
  assert (Hfree : (pg_freeSpaceOffset p <= PageSize)%N) by (destruct I5; lia).
  assert (Hw : ((word l).1 < 65536 /\ (word l).2 < 65536)%N).
  { destruct l as [[[o k] v]|]; [|done]. destruct (rk_rec _ _ _ I5 i o k v Hi) as (A & B & _).
    unfold PageSize in B. simpl. lia. }
  apply getSlot_bytes; [rewrite I1; lia|by apply I4|apply Hw..].
Qed.

Lemma word_tombstone p locs i l :
  page_inv p locs -> locs !! i = Some l -> is_tombstone (word l) = match l with None => true | Some _ => false end.
Proof.
  intros HI Hi. destruct l as [[[o k] v]|]; [|done]. unfold is_tombstone. simpl.
  rewrite blen_record, andb_false_iff, !N.eqb_neq. lia.
Qed.

Lemma live_bytes_insert locs i l0 l :
  locs !! i = Some l0 -> (live_bytes (<[i := l]> locs) + (word l0).2 = live_bytes locs + (word l).2)%N.
Proof.
  revert i. induction locs as [|x locs IH]; intros [|i] Hi; simpl in *; try done.
  - injection Hi as <-. lia.
  - specialize (IH i Hi). lia.
Qed.

Lemma live_bytes_app a b : live_bytes (a ++ b) = (live_bytes a + live_bytes b)%N.
Proof. induction a as [|x a IH]; simpl; [done|]. rewrite IH. lia. Qed.

(** ** Inserting *)

Fixpoint first_free {A} (l : list (option A)) : option nat :=
  match l with
  | [] => None
  | None :: _ => Some 0
  | Some _ :: l => S <$> first_free l
  end.

Lemma first_free_Some {A} (l : list (option A)) i : first_free l = Some i -> l !! i = Some None.
Proof.
  revert i. induction l as [|[x|] l IH]; intros i; simpl; [done| |by intros [= <-]].
  destruct (first_free l) as [j|]; [|done]. intros [= <-]. by apply IH.
Qed.

Lemma find_tombstone_spec p locs k i :
  page_inv p locs -> i + k = length locs ->
  find_tombstone p (N.of_nat i) k = Some ((fun j => N.of_nat (i + j)) <$> first_free (drop i locs)).
Proof.
  intros HI. revert i. induction k as [|k IH]; intros i Hik; cbn [find_tombstone].
  { by rewrite drop_ge by lia. }
  destruct (lookup_lt_is_Some_2 locs i) as [l Hl]; [lia|].
  rewrite (page_inv_getSlot p locs i l HI Hl). simpl. rewrite (word_tombstone p locs i l HI Hl).
  rewrite (drop_S _ l _ Hl). destruct l as [x|]; simpl; [|by rewrite Nat.add_0_r].
  replace (N.of_nat i + 1)%N with (N.of_nat (S i)) by lia. rewrite IH by lia.
  destruct (first_free (drop (S i) locs)); simpl; [|done]. do 2 f_equal. lia.
Qed.

(** A record written below the others. *)
Lemma recs_ok_add free d locs locs' i k v :
  recs_ok free d locs -> blen d = PageSize -> (blen (page_record k v) <= free)%N ->
  (forall j x, locs' !! j = Some (Some x) ->
     (j = i /\ x = ((free - blen (page_record k v))%N, k, v)) \/ (j <> i /\ locs !! j = Some (Some x))) ->
  (live_bytes locs' = live_bytes locs + blen (page_record k v))%N ->
  recs_ok (free - blen (page_record k v)) (store (free - blen (page_record k v)) (page_record k v) d) locs'.
Proof.
  set (rec := page_record k v). set (f := (free - blen rec)%N). intros [R1 R2 R3] Hd Hle Hl Hb.
  assert (Hf : (f + blen rec = free)%N) by (unfold f; lia).
  assert (Hfit : (f + blen rec <= blen d)%N) by (rewrite Hd; lia). split.
  - lia.
  - intros j o k' v' Hj. destruct (Hl j _ Hj) as [[-> [= -> -> ->]]|[Hne Hj']].
    + split_and!; [unfold f; lia|fold rec; lia|]. fold rec. by apply sub_store_same.
    + destruct (R2 j o k' v' Hj') as (A & B & C). split_and!; [lia|done|].
      rewrite sub_store_other; [done|done|]. right. lia.
  - intros j1 j2 o1 k1 v1 o2 k2 v2 Hne H1 H2.
    destruct (Hl _ _ H1) as [[-> [= -> -> ->]]|[Hn1 H1']]; destruct (Hl _ _ H2) as [[-> [= -> -> ->]]|[Hn2 H2']]; try done.
    + destruct (R2 _ _ _ _ H2') as (A & _). left. fold rec. lia.
    + destruct (R2 _ _ _ _ H1') as (A & _). right. fold rec. lia.
    + by eapply (R3 j1 j2).
Qed.

(** What InsertRow does to the slots; [free] is the free-space offset. *)
Definition insert_at {A} (l : list (option A)) (x : A) : list (option A) * nat :=
  match first_free l with
  | Some i => (<[i := Some x]> l, i)
  | None => (l ++ [Some x], length l)
  end.

(** The bytes the slot directory has after the insertion. *)
Definition dir_after {A} (l : list (option A)) : N :=
  match first_free l with Some _ => slot_pos (length l) | None => slot_pos (S (length l)) end.

Lemma InsertRow_full p locs k v :
  page_inv p locs -> (pg_freeSpaceOffset p < dir_after locs + blen (page_record k v))%N ->
  InsertRow p k v = Some (p, Err ErrPageFull).
Proof.
  intros HI Hf. unfold InsertRow. pose proof HI as [I1 I2 I3 I4 I5].
  rewrite I2, Nat2N.id, (find_tombstone_spec p locs _ 0 HI) by done. simpl mbind. rewrite drop_0.
  unfold FreeSpace, slotDirEnd. rewrite I2. unfold dir_after, slot_pos, PageHeaderSize, SlotSize in *.
  destruct (first_free locs); simpl; rewrite (proj2 (Z.ltb_lt _ _)); try done; lia.
Qed.

(** The record below the others, then its slot. *)
Lemma page_inv_insert p locs locs' i k v :
  let rec := page_record k v in
  let free' := (pg_freeSpaceOffset p - blen rec)%N in
  page_inv p locs -> (slot_pos (length locs') + blen rec <= pg_freeSpaceOffset p)%N ->
  locs' !! i = Some (Some (free', k, v)) -> (forall j, j <> i -> locs' !! j = locs !! j) ->
  (live_bytes locs' = live_bytes locs + blen rec)%N ->
  page_inv (mkPage (pg_id p) (pg_pageLSN p) (N.of_nat (length locs')) free' (pg_flags p)
    (store (slot_pos i) (slot_bytes (free', blen rec)) (store free' rec (pg_data p)))) locs'.
Proof.
  intros rec free' [I1 I2 I3 I4 I5] Hfit Hi Hj Hb. pose proof (rk_room _ _ _ I5) as Hroom.
  assert (Hin : (free' + blen rec <= blen (pg_data p))%N) by (rewrite I1; unfold free'; lia).
  apply (page_inv_slot (mkPage (pg_id p) (pg_pageLSN p) (N.of_nat (length locs')) free' (pg_flags p)
    (store free' rec (pg_data p))) locs' i (Some (free', k, v))); simpl; try done.
  - by rewrite blen_store.
  - intros j x Hne Hx. pose proof (lookup_lt_Some _ _ _ Hx) as Hlt. apply slot_pos_mono in Hlt.
    rewrite Hj in Hx by done. rewrite sub_store_other; [by apply I4|done|]. left. unfold free'. lia.
  - unfold free'. lia.
  - apply (recs_ok_add _ _ locs locs' i k v); try done; [fold rec; lia|]. intros j x Hx.
    destruct (decide (j = i)) as [->|Hne]; [left; rewrite Hi in Hx; by injection Hx as <-|].
    right. by rewrite <-Hj.
Qed.

Lemma page_inv_slots p locs i : page_inv p locs -> i < length locs -> (slot_pos i + 4 <= blen (pg_data p))%N.
Proof.
  intros [I1 I2 I3 I4 [Hr _ _]] Hi. apply slot_pos_mono in Hi. rewrite I1. lia.
Qed.

Lemma InsertRow_ok p locs k v :
  page_inv p locs -> (dir_after locs + blen (page_record k v) <= pg_freeSpaceOffset p)%N ->
  let free' := (pg_freeSpaceOffset p - blen (page_record k v))%N in
  let r := insert_at locs (free', k, v) in
  exists p', InsertRow p k v = Some (p', Ok (N.of_nat r.2)) /\ page_inv p' r.1 /\ pg_freeSpaceOffset p' = free'.
Proof.
  intros HI Hf free' r. pose proof HI as [I1 I2 I3 I4 I5]. pose proof (rk_room _ _ _ I5) as Hroom.
  set (rec := page_record k v) in *. assert (Hrec : (blen rec < 65536)%N) by (unfold PageSize in Hroom; lia).
  assert (Hcount : (slot_pos (length locs) <= PageSize)%N) by lia.
  unfold InsertRow. fold rec. rewrite I2, Nat2N.id, (find_tombstone_spec p locs _ 0 HI) by done.
  simpl mbind. rewrite drop_0. unfold FreeSpace, slotDirEnd. rewrite I2.
  rewrite (proj2 (Z.ltb_ge _ _)).
  2: { unfold dir_after, slot_pos, PageHeaderSize, SlotSize in *. destruct (first_free locs); simpl; lia. }
  rewrite (u16_small (blen rec)) by done. cbn [pg_freeSpaceOffset pg_slotCount with_freeSpaceOffset pg_data].
  replace (u16 (pg_freeSpaceOffset p + (65536 - blen rec))) with free'.
  2: { unfold u16, free'. replace (pg_freeSpaceOffset p + (65536 - blen rec))%N
         with (pg_freeSpaceOffset p - blen rec + 1 * 65536)%N by (unfold PageSize in *; lia).
       rewrite N.Div0.mod_add, N.mod_small; [done|]. unfold PageSize in *. lia. }
  rewrite copy_at_ok by (rewrite I1; unfold free'; fold rec; lia). simpl mbind.
  assert (Hlen : blen (store free' rec (pg_data p)) = PageSize) by (rewrite blen_store; rewrite I1; unfold free'; lia).
  unfold r, insert_at, dir_after in *. destruct (first_free locs) as [i|] eqn:Hff; simpl fmap; cbn iota.
  - pose proof (first_free_Some _ _ Hff) as Hi. pose proof (lookup_lt_Some _ _ _ Hi) as Hil. simpl Nat.add.
    pose proof (slot_pos_mono _ _ Hil) as Hm.
    rewrite setSlot_ok by (simpl; rewrite Hlen; lia). eexists. split; [done|]. split; [|done].
    apply page_inv_sync. unfold with_data. simpl. rewrite I2.
    rewrite <-(length_insert locs i (Some (free', k, v))). apply (page_inv_insert p locs); try done.
    + by rewrite length_insert.
    + by rewrite list_lookup_insert_eq.
    + intros j Hne. by rewrite list_lookup_insert_ne.
    + pose proof (live_bytes_insert locs i None (Some (free', k, v)) Hi) as Hb. simpl in Hb. fold rec in Hb |- *. lia.
  - rewrite slot_pos_S in Hf. rewrite setSlot_ok by (simpl; rewrite Hlen; lia). eexists. split; [done|]. split; [|done].
    apply page_inv_sync. unfold with_data. simpl. rewrite ?I2, u16_small.
    2: { unfold slot_pos, PageSize, SlotSize in *. lia. }
    replace (N.of_nat (length locs) + 1)%N with (N.of_nat (length (locs ++ [Some (free', k, v)]))) by (rewrite length_app; simpl; lia).
    apply (page_inv_insert p locs); try done.
    + rewrite length_app. simpl. rewrite Nat.add_1_r, slot_pos_S. fold rec. lia.
    + by rewrite lookup_app_r, Nat.sub_diag by lia.
    + intros j Hne. destruct (decide (j < length locs)); [by rewrite lookup_app_l|].
      rewrite lookup_app_r by lia. rewrite (lookup_ge_None_2 locs) by lia. destruct (j - length locs) eqn:E; [lia|done].
    + rewrite live_bytes_app. simpl. fold rec. lia.
Qed.

(** ** The other operations *)

(** Any slot replaced, with the records already in place. *)
Lemma page_inv_replace p locs i l0 l d :
  page_inv p locs -> locs !! i = Some l0 -> blen d = PageSize ->
  (forall off n, (off + n <= pg_freeSpaceOffset p)%N -> sub off n d = sub off n (pg_data p)) ->
  recs_ok (pg_freeSpaceOffset p) d (<[i := l]> locs) ->
  page_inv (with_data p (store (slot_pos i) (slot_bytes (word l)) d)) (<[i := l]> locs).
Proof.
  intros [I1 I2 I3 I4 I5] Hi Hd Hsame Hr. pose proof (lookup_lt_Some _ _ _ Hi) as Hil.
  apply (page_inv_slot (with_data p d)); simpl; try done.
  - by rewrite list_lookup_insert_eq.
  - intros j x Hne Hx. rewrite list_lookup_insert_ne in Hx by done. rewrite Hsame; [by apply I4|].
    apply lookup_lt_Some, slot_pos_mono in Hx. lia.
  - by rewrite length_insert.
  - by rewrite length_insert.
Qed.

Lemma recs_ok_tomb free d locs i l0 : recs_ok free d locs -> locs !! i = Some l0 -> recs_ok free d (<[i := None]> locs).
Proof.
  intros [R1 R2 R3] Hi.
  assert (Hl : forall j x, <[i := None]> locs !! j = Some (Some x) -> locs !! j = Some (Some x)).
  { intros j x Hj. destruct (decide (j = i)) as [->|Hne].
    - rewrite list_lookup_insert_eq in Hj; [done|by eapply lookup_lt_Some].
    - by rewrite list_lookup_insert_ne in Hj. }
  split.
  - pose proof (live_bytes_insert locs i l0 None Hi) as Hb. simpl in Hb. lia.
  - intros j o k v Hj. by apply (R2 j), Hl.
  - intros j1 j2 o1 k1 v1 o2 k2 v2 Hne H1 H2. by apply (R3 j1 j2); [|apply Hl..].
Qed.

Lemma setSlot_tomb p locs i l0 :
  page_inv p locs -> locs !! i = Some l0 ->
  exists p', setSlot p (N.of_nat i) 0 0 = Some p' /\ page_inv p' (<[i := None]> locs)
    /\ pg_freeSpaceOffset p' = pg_freeSpaceOffset p.
Proof.
  intros HI Hi. pose proof (lookup_lt_Some _ _ _ Hi) as Hil.
  rewrite setSlot_ok by (by eapply page_inv_slots). eexists. split; [done|]. split; [|done].
  apply (page_inv_replace p locs i l0 None (pg_data p)); [done|done|apply HI|done|].
  eapply recs_ok_tomb; [apply HI|done].
Qed.

Definition in_range (p : Page) (slotID : Z) : bool :=
  negb ((slotID <? 0)%Z || (Z.of_N (pg_slotCount p) <=? slotID)%Z).

(** A slot number is out of range, or names a slot. *)
Lemma slot_cases p locs (s : Z) :
  page_inv p locs ->
  ((s <? 0)%Z || (Z.of_N (pg_slotCount p) <=? s)%Z = true /\ ((s < 0)%Z \/ locs !! Z.to_nat s = None))
  \/ ((s <? 0)%Z || (Z.of_N (pg_slotCount p) <=? s)%Z = false /\ (0 <= s)%Z
      /\ Z.to_N s = N.of_nat (Z.to_nat s) /\ exists l, locs !! Z.to_nat s = Some l).
Proof.
  intros HI. rewrite (pi_count _ _ HI). destruct (Z.ltb_spec s 0); [left; split; [done|by left]|].
  destruct (Z.leb_spec (Z.of_N (N.of_nat (length locs))) s).
  - left. split; [done|]. right. apply lookup_ge_None. lia.
  - right. split_and!; [done|lia|lia|]. apply lookup_lt_is_Some. lia.
Qed.

Lemma DeleteRow_oob p locs s : page_inv p locs -> (s < 0)%Z \/ locs !! Z.to_nat s = None -> DeleteRow p s = Some p.
Proof.
  intros HI Hs. unfold DeleteRow. destruct (slot_cases p locs s HI) as [[-> _]|(_ & H0 & _ & l & Hl)]; [done|].
  destruct Hs as [?|Hs]; [lia|]. by rewrite Hs in Hl.
Qed.

Lemma DeleteRow_ok p locs s l :
  page_inv p locs -> (0 <= s)%Z -> locs !! Z.to_nat s = Some l ->
  exists p', DeleteRow p s = Some p' /\ page_inv p' (<[Z.to_nat s := None]> locs)
    /\ pg_freeSpaceOffset p' = pg_freeSpaceOffset p.
Proof.
  intros HI Hs Hl. unfold DeleteRow.
  destruct (slot_cases p locs s HI) as [[_ [?|Hn]]|(-> & _ & -> & _)]; [lia|by rewrite Hn in Hl|].
  destruct (setSlot_tomb p locs _ l HI Hl) as (p' & -> & HI' & Hf). eexists. split; [done|].
  split; [by apply page_inv_sync|done].
Qed.

(** ** Reading a slot *)

Lemma parse_record k v :
  (blen (page_record k v) < 65536)%N ->
  let rec := page_record k v in
  let klen := N.to_nat (le_get (take 2 rec)) in
  let vlen := N.to_nat (le_get (take 2 (drop (2 + klen) rec))) in
  klen = length (bytes_of_string k) /\ vlen = length v /\ length rec = 2 + klen + 2 + vlen
  /\ string_of_bytes (take klen (drop 2 rec)) = k /\ take vlen (drop (2 + klen + 2) rec) = v.
Proof.
  intros Hb rec klen vlen. rewrite blen_record in Hb.
  assert (Hk : klen = length (bytes_of_string k)).
  { unfold klen, rec, page_record. rewrite le_get_field by (unfold blen in *; simpl; lia). unfold blen. lia. }
  assert (Hd : drop (2 + klen) rec = le_put 2 (blen v) ++ v).
  { unfold rec, page_record. rewrite drop_skip by apply le_put_length. by rewrite Hk, drop_app_length. }
  assert (Hv : vlen = length v).
  { unfold vlen. rewrite Hd, le_get_field by (unfold blen in *; simpl; lia). unfold blen. lia. }
  split_and!; [done|done| | |].
  - unfold rec, page_record. rewrite !length_app, !le_put_length. lia.
  - unfold rec, page_record. rewrite drop_le_put, Hk, take_app_length. apply string_of_bytes_of_string.
  - rewrite <-drop_drop, Hd, drop_le_put, Hv. by rewrite firstn_all.
Qed.

Definition view (l : Loc) : option (RowKey * list byte) :=
  match l with None => None | Some (_, k, v) => Some (k, v) end.

Lemma GetRow_oob p locs s : page_inv p locs -> (s < 0)%Z \/ locs !! Z.to_nat s = None -> GetRow p s = Some None.
Proof.
  intros HI Hs. unfold GetRow. destruct (slot_cases p locs s HI) as [[-> _]|(_ & H0 & _ & l & Hl)]; [done|].
  destruct Hs as [?|Hs]; [lia|]. by rewrite Hs in Hl.
Qed.

Lemma GetRow_ok p locs s l :
  page_inv p locs -> (0 <= s)%Z -> locs !! Z.to_nat s = Some l -> GetRow p s = Some (view l).
Proof.
  intros HI Hs Hl. unfold GetRow.
  destruct (slot_cases p locs s HI) as [[_ [?|Hn]]|(-> & _ & -> & _)]; [lia|by rewrite Hn in Hl|].
  rewrite (page_inv_getSlot p locs _ l HI Hl). cbn [mbind option_bind]. pose proof (word_tombstone p locs _ l HI Hl) as Ht.
  destruct l as [[[o k] v]|]; cbn [word] in *; rewrite Ht; [|done].
  destruct (rk_rec _ _ _ (pi_recs _ _ HI) _ _ _ _ Hl) as (A & B & C). set (rec := page_record k v) in *.
  rewrite u16_small by (unfold PageSize in B; lia).
  assert (Hsl : slice (pg_data p) (N.to_nat o) (N.to_nat (o + blen rec)) = Some rec).
  { unfold slice. pose proof (pi_len _ _ HI) as Hlen. unfold blen in Hlen at 1.
    rewrite (proj2 (Nat.leb_le _ _)), (proj2 (Nat.leb_le (N.to_nat (o + blen rec)) _)) by lia. simpl.
    f_equal. rewrite <-C at 2. unfold sub. f_equal. lia. }
  rewrite Hsl. cbn [mbind option_bind].
  destruct (parse_record k v) as (E1 & E2 & E3 & E4 & E5); [fold rec; unfold PageSize in B; lia|]. fold rec in E1, E2, E3, E4, E5.
  do 3 (rewrite (proj2 (Nat.ltb_ge _ _)) by lia). by rewrite E4, E5.
Qed.

(** ** Updating in place *)

Lemma recs_ok_inplace free d locs i o k0 v0 k v :
  recs_ok free d locs -> blen d = PageSize -> locs !! i = Some (Some (o, k0, v0)) ->
  (blen (page_record k v) <= blen (page_record k0 v0))%N ->
  recs_ok free (store o (page_record k v) d) (<[i := Some (o, k, v)]> locs).
Proof.
  intros [R1 R2 R3] Hd Hi Hle. pose proof (lookup_lt_Some _ _ _ Hi) as Hil. destruct (R2 i o k0 v0 Hi) as (A & B & C).
  assert (Hfit : (o + blen (page_record k v) <= blen d)%N) by (rewrite Hd; lia).
  assert (Hl : forall j x, <[i := Some (o, k, v)]> locs !! j = Some (Some x) ->
    (j = i /\ x = (o, k, v)) \/ (j <> i /\ locs !! j = Some (Some x))).
  { intros j x Hj. destruct (decide (j = i)) as [->|Hne].
    - rewrite list_lookup_insert_eq in Hj by done. injection Hj as <-. by left.
    - rewrite list_lookup_insert_ne in Hj by done. by right. }
  split.
  - pose proof (live_bytes_insert locs i _ (Some (o, k, v)) Hi) as Hb. cbn [word snd] in Hb. lia.
  - intros j o' k' v' Hj. destruct (Hl j _ Hj) as [[-> [= -> -> ->]]|[Hne Hj']].
    + split_and!; [done|lia|]. by apply sub_store_same.
    + destruct (R2 j o' k' v' Hj') as (A' & B' & C'). split_and!; [done|done|].
      rewrite sub_store_other; [done|done|]. destruct (R3 j i o' k' v' o k0 v0 Hne Hj' Hi); lia.
  - intros j1 j2 o1 k1 v1 o2 k2 v2 Hne H1 H2.
    destruct (Hl _ _ H1) as [[-> [= -> -> ->]]|[Hn1 H1']]; destruct (Hl _ _ H2) as [[-> [= -> -> ->]]|[Hn2 H2']]; try done.
    + destruct (R3 j2 i o2 k2 v2 o k0 v0 Hn2 H2' Hi); lia.
    + destruct (R3 j1 i o1 k1 v1 o k0 v0 Hn1 H1' Hi); lia.
    + by eapply (R3 j1 j2).
Qed.

Lemma update_inplace p locs i o k0 v0 k v :
  page_inv p locs -> locs !! i = Some (Some (o, k0, v0)) ->
  (blen (page_record k v) <= blen (page_record k0 v0))%N ->
  exists d p', copy_at o (page_record k v) (pg_data p) = Some d
    /\ setSlot (with_data p d) (N.of_nat i) o (u16 (blen (page_record k v))) = Some p'
    /\ page_inv (syncHeader p') (<[i := Some (o, k, v)]> locs)
    /\ pg_freeSpaceOffset (syncHeader p') = pg_freeSpaceOffset p.
Proof.
  intros HI Hi Hle. pose proof HI as [I1 I2 I3 I4 I5]. pose proof (lookup_lt_Some _ _ _ Hi) as Hil.
  destruct (rk_rec _ _ _ I5 i o k0 v0 Hi) as (A & B & _). set (rec := page_record k v) in *.
  assert (Hfit : (o + blen rec <= blen (pg_data p))%N) by (rewrite I1; lia).
  assert (Hlen : blen (store o rec (pg_data p)) = PageSize) by (by rewrite blen_store).
  exists (store o rec (pg_data p)). rewrite copy_at_ok by done.
  rewrite u16_small by (unfold PageSize in *; lia).
  rewrite setSlot_ok by (simpl; rewrite Hlen, <-I1; by eapply page_inv_slots).
  eexists. split; [done|]. split; [done|]. split; [|done]. apply page_inv_sync.
  apply (page_inv_replace p locs i (Some (o, k0, v0)) (Some (o, k, v))); try done.
  - intros off n Hoff. apply sub_store_other; [done|]. left. lia.
  - by eapply recs_ok_inplace.
Qed.

(** ** The page as a list of slots *)

Record PageSpec := mkSpec { ps_rows : list (option (RowKey * list byte)); ps_free : N }.

Definition row_bytes (r : option (RowKey * list byte)) : N :=
  match r with None => 0%N | Some (k, v) => blen (page_record k v) end.

Definition slot_at (s : PageSpec) (i : Z) : option (option (RowKey * list byte)) :=
  if (i <? 0)%Z then None else ps_rows s !! Z.to_nat i.

Definition spec_insert (s : PageSpec) (k : RowKey) (v : list byte) : PageSpec * result PageError N :=
  if (ps_free s <? dir_after (ps_rows s) + blen (page_record k v))%N then (s, Err ErrPageFull)
  else
    let '(rows, i) := insert_at (ps_rows s) (k, v) in
    (mkSpec rows (ps_free s - blen (page_record k v)), Ok (N.of_nat i)).

Definition spec_update (s : PageSpec) (i : Z) (k : RowKey) (v : list byte) : PageSpec * result PageError N :=
  match slot_at s i with
  | Some (Some old) =>
      if (blen (page_record k v) <=? row_bytes (Some old))%N then
        (mkSpec (<[Z.to_nat i := Some (k, v)]> (ps_rows s)) (ps_free s), Ok (Z.to_N i))
      else spec_insert (mkSpec (<[Z.to_nat i := None]> (ps_rows s)) (ps_free s)) k v
  | _ => (s, Err ErrSlotNotFound)
  end.

Definition spec_delete (s : PageSpec) (i : Z) : PageSpec :=
  match slot_at s i with
  | Some _ => mkSpec (<[Z.to_nat i := None]> (ps_rows s)) (ps_free s)
  | None => s
  end.

Definition spec_get (s : PageSpec) (i : Z) : option (RowKey * list byte) := default None (slot_at s i).

(** The live rows move to the front, in order. *)
Definition live (rows : list (option (RowKey * list byte))) : list (RowKey * list byte) := omap id rows.

Fixpoint index_from (i : nat) (rows : list (RowKey * list byte)) (idx : gmap RowKey N) : gmap RowKey N :=
  match rows with
  | [] => idx
  | (k, _) :: rows => index_from (S i) rows (<[k := N.of_nat i]> idx)
  end.

Definition total_bytes (rows : list (RowKey * list byte)) : N :=
  foldr (fun kv a => (blen (page_record kv.1 kv.2) + a)%N) 0%N rows.

Definition spec_compact (s : PageSpec) : PageSpec * gmap RowKey N :=
  let rows := live (ps_rows s) in
  (mkSpec (Some <$> rows) (PageSize - total_bytes rows), index_from 0 rows ∅).

Definition rep (p : Page) (s : PageSpec) : Prop :=
  exists locs, page_inv p locs /\ ps_rows s = view <$> locs /\ ps_free s = pg_freeSpaceOffset p.

Lemma first_free_view locs : first_free (view <$> locs) = first_free locs.
Proof. induction locs as [|[[[o k] v]|] locs IH]; [done| |done].
  rewrite fmap_cons. cbn [first_free view]. by rewrite IH.
Qed.

Lemma dir_after_view locs : dir_after (view <$> locs) = dir_after locs.
Proof. unfold dir_after. by rewrite first_free_view, length_fmap. Qed.

Lemma insert_at_view locs o k v :
  insert_at (view <$> locs) (k, v) = (view <$> (insert_at locs (o, k, v)).1, (insert_at locs (o, k, v)).2).
Proof.
  unfold insert_at. rewrite first_free_view. destruct (first_free locs) as [i|]; simpl.
  - by rewrite list_fmap_insert.
  - by rewrite fmap_app, length_fmap.
Qed.

Lemma rep_insert p s k v :
  rep p s -> exists p', InsertRow p k v = Some (p', (spec_insert s k v).2) /\ rep p' (spec_insert s k v).1.
Proof.
  intros (locs & HI & Hr & Hf). unfold spec_insert. rewrite Hr, Hf, dir_after_view.
  destruct (N.ltb_spec (pg_freeSpaceOffset p) (dir_after locs + blen (page_record k v))) as [Hlt|Hge].
  - exists p. split; [by eapply InsertRow_full|]. by exists locs.
  - destruct (InsertRow_ok p locs k v HI Hge) as (p' & E & HI' & Hf'). exists p'.
    rewrite (insert_at_view locs (pg_freeSpaceOffset p - blen (page_record k v))). split; [done|]. by eexists.
Qed.

(** A slot of the specification, seen in the page. *)
Lemma slot_at_cases p s locs i :
  page_inv p locs -> ps_rows s = view <$> locs ->
  (slot_at s i = None /\ ((i < 0)%Z \/ locs !! Z.to_nat i = None))
  \/ exists l, slot_at s i = Some (view l) /\ (0 <= i)%Z /\ locs !! Z.to_nat i = Some l.
Proof.
  intros HI Hr. unfold slot_at. destruct (Z.ltb_spec i 0); [left; split; [done|by left]|].
  rewrite Hr, list_lookup_fmap. destruct (locs !! Z.to_nat i) as [l|] eqn:Hl; simpl; [right; by eauto|left; by auto].
Qed.

Lemma rep_update p s i k v :
  rep p s -> exists p', UpdateRow p i k v = Some (p', (spec_update s i k v).2) /\ rep p' (spec_update s i k v).1.
Proof.
  intros (locs & HI & Hr & Hf). unfold spec_update, UpdateRow.
  destruct (slot_cases p locs i HI) as [[-> Hoob]|(-> & Hi & Ei & Hl)];
    destruct (slot_at_cases p s locs i HI Hr) as [[-> Hn]|(l & -> & Hp & Hl')].
  - exists p. split; [done|]. by exists locs.
  - destruct Hoob as [?|Hn]; [lia|by rewrite Hn in Hl'].
  - destruct Hl as [l Hl], Hn as [?|Hn]; [lia|by rewrite Hn in Hl].
  - clear Hl. rename Hl' into Hl. rewrite Ei, (page_inv_getSlot p locs _ l HI Hl). cbn [mbind option_bind].
    pose proof (word_tombstone p locs _ l HI Hl) as Ht.
    destruct l as [[[o k0] v0]|]; cbn [word view] in *; rewrite Ht; [|exists p; split; [done|by exists locs]].
    cbn [row_bytes]. destruct (N.leb_spec (blen (page_record k v)) (blen (page_record k0 v0))) as [Hle|Hgt].
    + destruct (update_inplace p locs _ o k0 v0 k v HI Hl Hle) as (d & p' & -> & E & HI' & Hf').
      cbn [mbind option_bind]. rewrite E. cbn [mbind option_bind]. eexists. split; [done|]. eexists. split; [exact HI'|].
      split; [simpl; by rewrite Hr, list_fmap_insert|by rewrite Hf'].
    + destruct (setSlot_tomb p locs _ _ HI Hl) as (p1 & -> & HI1 & Hf1). cbn [mbind option_bind].
      apply rep_insert. exists (<[Z.to_nat i := None]> locs). split_and!; [done| |simpl; congruence].
      simpl. by rewrite Hr, list_fmap_insert.
Qed.

Lemma rep_delete p s i : rep p s -> exists p', DeleteRow p i = Some p' /\ rep p' (spec_delete s i).
Proof.
  intros (locs & HI & Hr & Hf). unfold spec_delete.
  destruct (slot_at_cases p s locs i HI Hr) as [[-> Hn]|(l & -> & Hp & Hl)].
  - exists p. split; [by eapply DeleteRow_oob|]. by exists locs.
  - destruct (DeleteRow_ok p locs i l HI Hp Hl) as (p' & E & HI' & Hf'). exists p'. split; [done|].
    eexists. split; [exact HI'|]. split; [simpl; by rewrite Hr, list_fmap_insert|by rewrite Hf'].
Qed.

Lemma rep_get p s i : rep p s -> GetRow p i = Some (spec_get s i).
Proof.
  intros (locs & HI & Hr & Hf). unfold spec_get.
  destruct (slot_at_cases p s locs i HI Hr) as [[-> Hn]|(l & -> & Hp & Hl)].
  - by eapply GetRow_oob.
  - by eapply GetRow_ok.
Qed.

(** ** Compaction *)

Lemma live_rows_spec p locs k i :
  page_inv p locs -> i + k = length locs ->
  live_rows p (N.of_nat i) k = Some (live (view <$> drop i locs)).
Proof.
  intros HI. revert i. induction k as [|k IH]; intros i Hik; cbn [live_rows].
  { by rewrite drop_ge by lia. }
  destruct (lookup_lt_is_Some_2 locs i) as [l Hl]; [lia|].
  rewrite (GetRow_ok p locs _ l HI) by (rewrite ?nat_N_Z, ?Nat2Z.id; (lia || done)). cbn [mbind option_bind].
  replace (N.of_nat i + 1)%N with (N.of_nat (S i)) by lia. rewrite IH by lia. cbn [mbind option_bind].
  rewrite (drop_S _ l _ Hl). unfold live. rewrite fmap_cons. cbn [omap list_omap id]. by destruct (view l).
Qed.

Lemma total_live locs : total_bytes (live (view <$> locs)) = live_bytes locs.
Proof.
  induction locs as [|[[[o k] v]|] locs IH]; [done|..].
  - change (blen (page_record k v) + total_bytes (live (view <$> locs))
      = blen (page_record k v) + live_bytes locs)%N. by rewrite IH.
  - change (total_bytes (live (view <$> locs)) = 0 + live_bytes locs)%N. by rewrite IH.
Qed.

Lemma live_length rows : length (live rows) <= length rows.
Proof. unfold live. induction rows as [|[x|] rows IH]; cbn [omap list_omap id length]; lia. Qed.

Lemma insert_at_live {A} (l : list A) x : insert_at (Some <$> l) x = (Some <$> (l ++ [x]), length l).
Proof.
  assert (Hf : first_free (Some <$> l) = None).
  { induction l as [|y l IH]; [done|]. rewrite fmap_cons. cbn [first_free]. by rewrite IH. }
  unfold insert_at. by rewrite Hf, length_fmap, fmap_app.
Qed.

Lemma dir_after_live {A} (l : list A) : dir_after (Some <$> l) = slot_pos (S (length l)).
Proof.
  unfold dir_after. assert (Hf : first_free (Some <$> l) = None).
  { induction l as [|y l IH]; [done|]. rewrite fmap_cons. cbn [first_free]. by rewrite IH. }
  by rewrite Hf, length_fmap.
Qed.

(** Re-inserting rows that fit never fails. *)
Lemma reinsert_ok rows p done idx free :
  rep p (mkSpec (Some <$> done) free) ->
  (slot_pos (length done + length rows) + total_bytes rows <= free)%N ->
  exists p', reinsert p rows idx = Some (p', index_from (length done) rows idx)
    /\ rep p' (mkSpec (Some <$> (done ++ rows)) (free - total_bytes rows)).
Proof.
  revert p done idx free. induction rows as [|[k v] rows IH]; intros p dn idx free Hrep Hfit.
  { exists p. rewrite app_nil_r. simpl. by rewrite N.sub_0_r. }
  cbn [reinsert index_from]. destruct (rep_insert p _ k v Hrep) as (p1 & E & Hrep1). rewrite E. cbn [mbind option_bind].
  cbn [total_bytes foldr fst snd length] in Hfit. fold (total_bytes rows) in Hfit.
  unfold spec_insert in Hrep1 |- *. cbn [ps_rows ps_free] in *.
  assert (Hsp : (slot_pos (S (length dn)) <= slot_pos (length dn + S (length rows)))%N).
  { unfold slot_pos, SlotSize. lia. }
  rewrite dir_after_live in *. rewrite (proj2 (N.ltb_ge _ _)) in Hrep1 |- * by lia.
  rewrite insert_at_live in *. cbn [fst snd] in *.
  destruct (IH p1 (dn ++ [(k, v)]) (<[k := N.of_nat (length dn)]> idx) (free - blen (page_record k v))%N Hrep1)
    as (p2 & E2 & Hrep2).
  - rewrite length_app. simpl length. replace (length dn + 1 + length rows) with (length dn + S (length rows)) by lia. lia.
  - exists p2. rewrite length_app, Nat.add_1_r in E2. split; [done|].
    rewrite <-app_assoc in Hrep2. cbn [total_bytes foldr fst snd]. fold (total_bytes rows).
    by rewrite N.sub_add_distr.
Qed.

Lemma rep_compact p s : rep p s -> exists p', Compact p = Some (p', (spec_compact s).2) /\ rep p' (spec_compact s).1.
Proof.
  intros (locs & HI & Hr & Hf). pose proof HI as [I1 I2 I3 I4 I5]. pose proof (rk_room _ _ _ I5) as Hroom.
  unfold Compact. rewrite I2, Nat2N.id, (live_rows_spec p locs _ 0 HI) by done. cbn [mbind option_bind].
  rewrite drop_0, <-Hr. set (p0 := with_data _ _).
  assert (H0 : rep p0 (mkSpec (Some <$> []) PageSize)).
  { exists []. split; [|done]. split; try done.
    - unfold p0. cbn [pg_data with_data with_freeSpaceOffset with_slotCount]. rewrite blen_app. unfold blen.
      rewrite length_take, length_replicate. unfold blen in I1. unfold PageHeaderSize, PageSize in *. lia. }
  pose proof (live_length (view <$> locs)) as Hll. rewrite length_fmap in Hll.
  destruct (reinsert_ok (live (ps_rows s)) p0 [] ∅ PageSize H0) as (p' & E & Hrep').
  - rewrite Hr, total_live. simpl Nat.add.
    assert (slot_pos (length (live (view <$> locs))) <= slot_pos (length locs))%N by (unfold slot_pos, SlotSize; lia). lia.
  - exists p'. done.
Qed.

(** ** Reading a page back *)

Lemma syncHeader_bytes p :
  blen (pg_data p) = PageSize -> pg_data (syncHeader p) = full_header p ++ drop 25 (pg_data p).
Proof.
  intros Hl. rewrite syncHeader_data by done. unfold store. cbn [pg_data with_data].
  pose proof (blen_full_header p) as Hb. unfold blen in Hb. change (N.to_nat 0) with 0.
  rewrite Nat.add_0_l. by replace (length (full_header p)) with 25 by lia.
Qed.

Lemma syncHeader_idem p : blen (pg_data p) = PageSize -> syncHeader (syncHeader p) = syncHeader p.
Proof.
  intros Hl. pose proof (syncHeader_len p Hl) as Hl'. pose proof (syncHeader_bytes p Hl) as Hb.
  pose proof (syncHeader_bytes (syncHeader p) Hl') as Hb'.
  assert (Hh : full_header (syncHeader p) = full_header p) by done.
  assert (Hd : pg_data (syncHeader (syncHeader p)) = pg_data (syncHeader p)).
  { rewrite Hb', Hh, Hb at 1. rewrite drop_app_length'; [done|].
    pose proof (blen_full_header p) as H25. unfold blen in H25. lia. }
  rewrite (syncHeader_data (syncHeader p)) in Hd |- * by done. cbn [pg_data with_data] in Hd. rewrite Hd.
  by destruct (syncHeader p).
Qed.

(** The fields read from a header just written. *)
Lemma loadHeader_sync p :
  blen (pg_data p) = PageSize -> (pg_slotCount p < 65536)%N -> (pg_freeSpaceOffset p < 65536)%N ->
  loadHeader (pg_data (syncHeader p))
  = mkPage (pg_id p mod two64) (pg_pageLSN p mod two64) (pg_slotCount p) (pg_freeSpaceOffset p) (pg_flags p)
      (pg_data (syncHeader p)).
Proof.
  intros Hl Hc Hf. pose proof (syncHeader_bytes p Hl) as Hd. set (d := pg_data (syncHeader p)) in *.
  unfold full_header, header_fields in Hd. rewrite <-!app_assoc in Hd. unfold loadHeader, sub.
  change (N.to_nat 0) with 0. change (N.to_nat 8) with 8. change (N.to_nat 16) with (8 + (8 + 0)).
  change (N.to_nat 18) with (8 + (8 + (2 + 0))). change (N.to_nat 2) with 2.
  assert (F0 : le_get (take 8 (drop 0 d)) = (pg_id p mod two64)%N).
  { rewrite Hd, drop_0, take_le_put. apply le_get_put. }
  assert (F1 : le_get (take 8 (drop 8 d)) = (pg_pageLSN p mod two64)%N).
  { rewrite Hd, drop_le_put, take_le_put. apply le_get_put. }
  assert (F2 : le_get (take 2 (drop (8 + (8 + 0)) d)) = pg_slotCount p).
  { rewrite Hd, !drop_skip, drop_0, take_le_put by apply le_put_length. by apply le_get_put2. }
  assert (F3 : le_get (take 2 (drop (8 + (8 + (2 + 0))) d)) = pg_freeSpaceOffset p).
  { rewrite Hd, !drop_skip, drop_0, take_le_put by apply le_put_length. by apply le_get_put2. }
  assert (F4 : nth 24 d x00 = pg_flags p).
  { rewrite Hd. do 5 (rewrite app_nth2; rewrite le_put_length; [|lia]). done. }
  by rewrite F0, F1, F2, F3, F4.
Qed.

Lemma header_crc p :
  blen (pg_data p) = PageSize ->
  le_get (sub 20 4 (pg_data (syncHeader p))) = ChecksumIEEE (take 20 (pg_data (syncHeader p))).
Proof.
  intros Hl. rewrite syncHeader_bytes by done. unfold full_header, sub. rewrite <-!app_assoc.
  pose proof (blen_header p) as Hb. unfold blen in Hb.
  rewrite (drop_app_length' (header_fields p)), (take_app_length' (header_fields p)) by lia.
  change (N.to_nat 4) with 4. rewrite take_le_put. apply le_get_put_small. apply ChecksumIEEE_bound.
Qed.

Lemma page_inv_width p locs :
  page_inv p locs -> (pg_slotCount p < 65536)%N /\ (pg_freeSpaceOffset p < 65536)%N.
Proof.
  intros [I1 I2 I3 I4 [Hroom _ _]]. rewrite I2. unfold slot_pos, SlotSize, PageSize in *. lia.
Qed.

Lemma Deserialize_Serialize p locs :
  page_inv p locs ->
  Deserialize (Serialize p).2
  = (mkPage (pg_id p mod two64) (pg_pageLSN p mod two64) (pg_slotCount p) (pg_freeSpaceOffset p) (pg_flags p)
       (pg_data (syncHeader p)), None).
Proof.
  intros HI. pose proof (page_inv_width p locs HI) as [Hc Hf]. pose proof (pi_len _ _ HI) as Hl.
  unfold Serialize, Deserialize. cbn [snd]. rewrite (loadHeader_sync p Hl Hc Hf). unfold computeHeaderCRC.
  cbn [pg_data]. by rewrite (header_crc p Hl), N.eqb_refl.
Qed.

Lemma page_inv_reload p locs id lsn :
  page_inv p locs ->
  page_inv (mkPage id lsn (pg_slotCount p) (pg_freeSpaceOffset p) (pg_flags p) (pg_data (syncHeader p))) locs.
Proof.
  intros HI. destruct (page_inv_sync p locs HI) as [J1 J2 J3 J4 J5].
  split; [exact J1|exact J2|exact J3|exact J4|exact J5].
Qed.

(** ** Runs *)

Inductive PageOp :=
| PInsert (k : RowKey) (v : list byte)
| PUpdate (slotID : Z) (k : RowKey) (v : list byte)
| PDelete (slotID : Z)
| PGet (slotID : Z)
| PCompact
| PSetLSN (lsn : N)
| PReload.

Inductive PageOut :=
| OSlot (r : result PageError N)
| ORow (r : option (RowKey * list byte))
| OIndex (idx : gmap RowKey N)
| OLoad (err : option PageError)
| ONone.

Definition exec_page (p : Page) (o : PageOp) : option (Page * PageOut) :=
  match o with
  | PInsert k v => '(p, r) ← InsertRow p k v; Some (p, OSlot r)
  | PUpdate i k v => '(p, r) ← UpdateRow p i k v; Some (p, OSlot r)
  | PDelete i => p ← DeleteRow p i; Some (p, ONone)
  | PGet i => r ← GetRow p i; Some (p, ORow r)
  | PCompact => '(p, idx) ← Compact p; Some (p, OIndex idx)
  | PSetLSN lsn => Some (SetPageLSN p lsn, ONone)
  | PReload => let '(p, err) := Deserialize (Serialize p).2 in Some (p, OLoad err)
  end.

Definition spec_page (s : PageSpec) (o : PageOp) : PageSpec * PageOut :=
  match o with
  | PInsert k v => let '(s, r) := spec_insert s k v in (s, OSlot r)
  | PUpdate i k v => let '(s, r) := spec_update s i k v in (s, OSlot r)
  | PDelete i => (spec_delete s i, ONone)
  | PGet i => (s, ORow (spec_get s i))
  | PCompact => let '(s, idx) := spec_compact s in (s, OIndex idx)
  | PSetLSN _ => (s, ONone)
  | PReload => (s, OLoad None)
  end.

Fixpoint exec_pages (p : Page) (os : list PageOp) : option (Page * list PageOut) :=
  match os with
  | [] => Some (p, [])
  | o :: os => '(p, out) ← exec_page p o; '(p, outs) ← exec_pages p os; Some (p, out :: outs)
  end.

Fixpoint spec_pages (s : PageSpec) (os : list PageOp) : PageSpec * list PageOut :=
  match os with
  | [] => (s, [])
  | o :: os => let '(s, out) := spec_page s o in let '(s, outs) := spec_pages s os in (s, out :: outs)
  end.

Definition empty_spec : PageSpec := mkSpec [] PageSize.

Lemma rep_NewPage id : rep (NewPage id) empty_spec.
Proof.
  exists []. split; [|done]. apply page_inv_sync.
  assert (Hl : blen (replicate (N.to_nat PageSize) x00) = PageSize) by (unfold blen; by rewrite length_replicate, N2Nat.id).
  split; [exact Hl|reflexivity|unfold slot_pos, PageHeaderSize, PageSize; simpl; lia|done|].
  split; [unfold live_bytes; simpl; lia|done|done].
Qed.

Lemma rep_step p s o : rep p s -> exists p', exec_page p o = Some (p', (spec_page s o).2) /\ rep p' (spec_page s o).1.
Proof.
  intros Hr. destruct o; cbn [exec_page spec_page].
  - destruct (rep_insert p s k v Hr) as (p' & -> & Hr'). destruct (spec_insert s k v). by exists p'.
  - destruct (rep_update p s slotID k v Hr) as (p' & -> & Hr'). destruct (spec_update s slotID k v). by exists p'.
  - destruct (rep_delete p s slotID Hr) as (p' & -> & Hr'). by exists p'.
  - rewrite (rep_get p s slotID Hr). by exists p.
  - destruct (rep_compact p s Hr) as (p' & -> & Hr'). destruct (spec_compact s). by exists p'.
  - destruct Hr as (locs & HI & E1 & E2). eexists. split; [done|]. exists locs. split; [|done].
    apply page_inv_sync. destruct HI as [I1 I2 I3 I4 I5]. split; [exact I1|exact I2|exact I3|exact I4|exact I5].
  - destruct Hr as (locs & HI & E1 & E2). rewrite (Deserialize_Serialize p locs HI).
    eexists. split; [done|]. exists locs. split; [by apply page_inv_reload|done].
Qed.

(** C9. A page behaves like its list of slots: from a new page on, no sequence
    of inserts, updates, deletes, reads, compactions and trips to disk
    panics, and each gives the answer of the specification - in particular
    rows come back as written, a row fits exactly when the free space allows
    it, and compaction keeps the live rows and frees everything else. *)
Theorem page_refines id os :
  exists p, exec_pages (NewPage id) os = Some (p, (spec_pages empty_spec os).2)
    /\ rep p (spec_pages empty_spec os).1.
Proof.
  assert (Hrun : forall p s, rep p s ->
    exists p', exec_pages p os = Some (p', (spec_pages s os).2) /\ rep p' (spec_pages s os).1).
  { induction os as [|o os IH]; intros p s Hr; cbn [exec_pages spec_pages]; [by exists p|].
    destruct (rep_step p s o Hr) as (p1 & -> & Hr1). cbn [mbind option_bind]. destruct (spec_page s o) as [s1 out].
    destruct (IH p1 s1 Hr1) as (p2 & -> & Hr2). cbn [mbind option_bind].
    destruct (spec_pages s1 os) as [s2 outs]. by exists p2. }
  apply Hrun, rep_NewPage.
Qed.

(** Page and header survive the trip to disk. *)
Theorem page_disk_roundtrip p s :
  rep p s -> (pg_id p < two64)%N -> (pg_pageLSN p < two64)%N ->
  exists p', Deserialize (Serialize p).2 = (p', None) /\ rep p' s /\ pg_id p' = pg_id p /\ pg_pageLSN p' = pg_pageLSN p.
Proof.
  intros (locs & HI & E1 & E2) Hi Hl. rewrite (Deserialize_Serialize p locs HI).
  eexists. split; [done|]. cbn [pg_id pg_pageLSN]. rewrite !N.mod_small by done. split; [|done].
  exists locs. split; [by apply page_inv_reload|done].
Qed.

Module PageRun.

(** An update that outgrows its slot and does not fit elsewhere has already
    deleted the row. *)
Theorem update_loses_row :
  (spec_pages empty_spec
    [PInsert "a" (repeat x01 2000); PInsert "b" (repeat x01 1900); PUpdate 0 "a" (repeat x02 2100); PGet 0]).2
  = [OSlot (Ok 0%N); OSlot (Ok 1%N); OSlot (Err ErrPageFull); ORow None].
Proof. vm_compute. reflexivity. Qed.
End PageRun.
