(* ===== verification/Heap.v ===== *)
(** * Heap files ([internal/storage/heap.go])

    A heap file is the list of its bytes with the fields the code keeps in
    memory. Page 0 is the meta page. [hf_io] says how the coming calls of
    the operating system that write or sync the file end: any of them may
    fail, a write after some of its bytes. A read fails at the end of the
    file or on a bad header. [None] is a run-time panic: a meta page whose
    table name and free list do not fit. *)

From Stdlib Require Import ZArith NArith Lia Strings.Byte String.
From stdpp Require Import base tactics numbers list gmap strings.
From S2P Require Import Prelude Types Storage WalRecord Page.

(** ** The file *)

(** [WriteAt]: a gap before the offset is filled with zeros. *)
Definition WriteAt (off : N) (bs f : list byte) : list byte :=
  store off bs (f ++ replicate (N.to_nat off + length bs - length f) x00).

(** [ReadAt] of [n] bytes; [None] when the file ends before. *)
Definition ReadAt (off n : N) (f : list byte) : option (list byte) := sub_checked off n f.

(** How one [WriteAt], [Sync] or [Close] of the file ends; a failing write
    may have written its first [n] bytes. *)
Inductive IoResult := IoOk | IoFail (n : nat).

Record HeapFile := mkHeap {
  hf_file : list byte;
  hf_tableName : string;
  hf_lastPageID : N;
  hf_freeList : list N;
  hf_io : list IoResult;   (* of the coming calls; when it is empty they succeed *)
}.

Inductive HeapError :=
| ErrReadPage (id : N) | ErrBadPage (id : N)
| ErrMetaShort | ErrMetaName | ErrMetaFreeList
| ErrInitMeta | ErrAllocate | ErrPersistMeta.

Definition with_file (h : HeapFile) (f : list byte) : HeapFile :=
  mkHeap f (hf_tableName h) (hf_lastPageID h) (hf_freeList h) (hf_io h).
Definition with_lastPageID (h : HeapFile) (n : N) : HeapFile :=
  mkHeap (hf_file h) (hf_tableName h) n (hf_freeList h) (hf_io h).
Definition with_freeList (h : HeapFile) (l : list N) : HeapFile :=
  mkHeap (hf_file h) (hf_tableName h) (hf_lastPageID h) l (hf_io h).
Definition with_io (h : HeapFile) (io : list IoResult) : HeapFile :=
  mkHeap (hf_file h) (hf_tableName h) (hf_lastPageID h) (hf_freeList h) io.

(** [h.file.WriteAt(bs, off)]; [false]: an error. *)
Definition file_WriteAt (h : HeapFile) (off : N) (bs : list byte) : HeapFile * bool :=
  let done bs := with_file h (WriteAt off bs (hf_file h)) in
  match hf_io h with
  | [] => (done bs, true)
  | IoOk :: io => (with_io (done bs) io, true)
  | IoFail n :: io => (with_io (match take n bs with [] => h | bs => done bs end) io, false)
  end.

(** [h.file.Sync()] and [h.file.Close()]. *)
Definition file_call (h : HeapFile) : HeapFile * bool :=
  match hf_io h with
  | [] => (h, true)
  | IoOk :: io => (with_io h io, true)
  | IoFail _ :: io => (with_io h io, false)
  end.

(** ** The meta page *)

(** The loop of [writeMeta] over the free list. *)
Fixpoint put_free_list (off : N) (l : list N) (d : list byte) : option (list byte) :=
  match l with
  | [] => Some d
  | pid :: l => d ← store_checked off (le_put 8 pid) d; put_free_list (off + 8) l d
  end.

Definition meta_area (h : HeapFile) : option (list byte) :=
  let d := replicate (N.to_nat (PageSize - PageHeaderSize)) x00 in
  let nameBytes := bytes_of_string (hf_tableName h) in
  d ← store_checked 0 (le_put 8 (hf_lastPageID h)) d;
  d ← store_checked 8 (le_put 2 (blen nameBytes)) d;
  d ← copy_at 10 nameBytes d;
  d ← store_checked (10 + blen nameBytes) (le_put 2 (N.of_nat (length (hf_freeList h)))) d;
  put_free_list (10 + blen nameBytes + 2) (hf_freeList h) d.

Definition meta_page (d : list byte) : list byte := replicate (N.to_nat PageHeaderSize) x00 ++ d.

Definition writeMeta (h : HeapFile) : option (HeapFile * bool) :=
  d ← meta_area h;
  Some (file_WriteAt h 0 (meta_page d)).

Fixpoint get_free_list (off : N) (n : nat) (d : list byte) : list N :=
  match n with
  | O => []
  | S n => le_get (sub off 8 d) :: get_free_list (off + 8) n d
  end.

Definition readMeta (h : HeapFile) : result HeapError HeapFile :=
  match ReadAt 0 PageSize (hf_file h) with
  | None => Err (ErrReadPage 0)
  | Some raw =>
      let d := drop (N.to_nat PageHeaderSize) raw in
      if (blen d <? 10)%N then Err ErrMetaShort
      else
        let nameLen := le_get (sub 8 2 d) in
        if (blen d <? 10 + nameLen + 2)%N then Err ErrMetaName
        else
          let freeListLen := le_get (sub (10 + nameLen) 2 d) in
          if (blen d <? 10 + nameLen + 2 + freeListLen * 8)%N then Err ErrMetaFreeList
          else Ok (mkHeap (hf_file h) (string_of_bytes (sub 10 nameLen d)) (le_get (sub 0 8 d))
                     (get_free_list (10 + nameLen + 2) (N.to_nat freeListLen) d) (hf_io h))
  end.

Definition OpenHeapFile (tableName : string) (io : list IoResult) (file : list byte) : option (result HeapError HeapFile) :=
  let h := mkHeap file tableName 0 [] io in
  if length file =? 0 then
    '(h, ok) ← writeMeta h;
    Some (if ok : bool then Ok h else Err ErrInitMeta)
  else Some (readMeta h).

(** ** Pages *)

Definition ReadPage (h : HeapFile) (id : N) : result HeapError Page :=
  match ReadAt (id * PageSize) PageSize (hf_file h) with
  | None => Err (ErrReadPage id)
  | Some raw =>
      match Deserialize raw with
      | (p, None) => Ok p
      | (_, Some _) => Err (ErrBadPage id)
      end
  end.

Definition WritePage (h : HeapFile) (p : Page) : HeapFile * bool :=
  let '(p, raw) := Serialize p in file_WriteAt h (pg_id p * PageSize) raw.

Definition WriteDurablePage (h : HeapFile) (p : Page) : HeapFile * bool :=
  match WritePage h p with
  | (h, false) => (h, false)
  | (h, true) => file_call h
  end.

(** [h.lastPageID--] after a failed write of the page; after a failed write
    of the meta page the new id comes with the error. *)
Definition AllocatePage (h : HeapFile) : option (HeapFile * N * option HeapError) :=
  let newID := u64_add (hf_lastPageID h) 1 in
  match WritePage (with_lastPageID h newID) (NewPage newID) with
  | (h, false) => Some (with_lastPageID h (u64_sub (hf_lastPageID h) 1), 0%N, Some ErrAllocate)
  | (h, true) =>
      '(h, ok) ← writeMeta h;
      Some (h, newID, if ok : bool then None else Some ErrPersistMeta)
  end.

Definition AddToFreeList (h : HeapFile) (id : N) : HeapFile := with_freeList h (hf_freeList h ++ [id]).

Definition TakeFromFreeList (h : HeapFile) : HeapFile * option N :=
  match last (hf_freeList h) with
  | None => (h, None)
  | Some id => (with_freeList h (take (length (hf_freeList h) - 1) (hf_freeList h)), Some id)
  end.

Definition PageCount (h : HeapFile) : N := hf_lastPageID h + 1.
Definition LastPageID (h : HeapFile) : N := hf_lastPageID h.

Definition Close (h : HeapFile) : option (HeapFile * bool) :=
  '(h, ok) ← writeMeta h;
  Some (if ok : bool then file_call h else (h, false)).

(** ** When no write fails *)

Definition put_page (h : HeapFile) (p : Page) : HeapFile :=
  let '(p, raw) := Serialize p in with_file h (WriteAt (pg_id p * PageSize) raw (hf_file h)).

Definition put_meta (h : HeapFile) : option HeapFile :=
  d ← meta_area h;
  Some (with_file h (WriteAt 0 (meta_page d) (hf_file h))).

Definition put_new_page (h : HeapFile) : option (HeapFile * N) :=
  let newID := u64_add (hf_lastPageID h) 1 in
  h ← put_meta (put_page (with_lastPageID h newID) (NewPage newID));
  Some (h, newID).

Lemma file_WriteAt_ok h off bs : hf_io h = [] -> file_WriteAt h off bs = (with_file h (WriteAt off bs (hf_file h)), true).
Proof. unfold file_WriteAt. by intros ->. Qed.

Lemma WritePage_ok h p : hf_io h = [] -> WritePage h p = (put_page h p, true).
Proof. intros Hio. unfold WritePage, put_page. destruct (Serialize p). by apply file_WriteAt_ok. Qed.

Lemma put_page_io h p : hf_io (put_page h p) = hf_io h.
Proof. unfold put_page. by destruct (Serialize p). Qed.

Lemma WriteDurablePage_ok h p : hf_io h = [] -> WriteDurablePage h p = (put_page h p, true).
Proof.
  intros Hio. unfold WriteDurablePage. rewrite WritePage_ok by done. unfold file_call. by rewrite put_page_io, Hio.
Qed.

Lemma writeMeta_io h : hf_io h = [] -> writeMeta h = h ← put_meta h; Some (h, true).
Proof.
  intros Hio. unfold writeMeta, put_meta. destruct (meta_area h); [|done]. cbn [mbind option_bind].
  by rewrite file_WriteAt_ok.
Qed.

Lemma put_meta_io h h' : put_meta h = Some h' -> hf_io h' = hf_io h.
Proof. unfold put_meta, meta_page. destruct (meta_area h); [|done]. by intros [= <-]. Qed.

Lemma AllocatePage_io h : hf_io h = [] -> AllocatePage h = '(h, id) ← put_new_page h; Some (h, id, None).
Proof.
  intros Hio. unfold AllocatePage, put_new_page. rewrite WritePage_ok by done.
  rewrite writeMeta_io by (by rewrite put_page_io). by destruct (put_meta _).
Qed.

Lemma Close_io h : hf_io h = [] -> Close h = h ← put_meta h; Some (h, true).
Proof.
  intros Hio. unfold Close. rewrite writeMeta_io by done. destruct (put_meta h) as [h'|] eqn:Hm; [|done].
  cbn [mbind option_bind]. unfold file_call. by rewrite (put_meta_io h h' Hm), Hio.
Qed.

(** What a write can leave of the file, whether it fails or not. *)
Lemma file_WriteAt_cases h off bs h' ok :
  file_WriteAt h off bs = (h', ok) ->
  exists n, (h' = with_io h (hf_io h') \/ h' = with_io (with_file h (WriteAt off (take n bs) (hf_file h))) (hf_io h'))
    /\ (ok = true -> h' = with_io (with_file h (WriteAt off bs (hf_file h))) (hf_io h')).
Proof.
  unfold file_WriteAt. destruct (hf_io h) as [|[|n] io].
  - intros [= <- <-]. exists (length bs). rewrite firstn_all. by destruct h; auto.
  - intros [= <- <-]. exists (length bs). rewrite firstn_all. by destruct h; auto.
  - intros [= <- <-]. exists n. split; [|done]. destruct (take n bs); auto.
Qed.

(** ** Lemmas *)

Lemma blen_WriteAt off bs f : blen (WriteAt off bs f) = N.max (blen f) (off + blen bs).
Proof.
  unfold WriteAt. rewrite blen_store; rewrite blen_app; unfold blen; rewrite length_replicate; lia.
Qed.

Lemma ReadAt_WriteAt off bs f : ReadAt off (blen bs) (WriteAt off bs f) = Some bs.
Proof.
  unfold ReadAt. rewrite sub_checked_ok by (rewrite blen_WriteAt; lia). f_equal. unfold WriteAt.
  apply sub_store_same. rewrite blen_app. unfold blen. rewrite length_replicate. lia.
Qed.

Lemma sub_app_l off n a b : (off + n <= blen a)%N -> sub off n (a ++ b) = sub off n a.
Proof.
  unfold sub, blen. intros Hl. rewrite drop_app_le by lia. rewrite take_app_le by (rewrite length_drop; lia). done.
Qed.

Lemma ReadAt_WriteAt_other off' n off bs f :
  (off' + n <= blen f)%N -> (off' + n <= off \/ off + blen bs <= off')%N ->
  ReadAt off' n (WriteAt off bs f) = ReadAt off' n f.
Proof.
  intros Hl Hd. unfold ReadAt. rewrite !sub_checked_ok by (rewrite ?blen_WriteAt; lia). f_equal. unfold WriteAt.
  rewrite sub_store_other; [by apply sub_app_l| |done]. rewrite blen_app. unfold blen. rewrite length_replicate. lia.
Qed.

(** ** The meta page round trip *)

Definition free_bytes (l : list N) : list byte := concat (le_put 8 <$> l).

Definition meta_bytes (h : HeapFile) : list byte :=
  le_put 8 (hf_lastPageID h) ++ le_put 2 (blen (bytes_of_string (hf_tableName h)))
  ++ bytes_of_string (hf_tableName h) ++ le_put 2 (N.of_nat (length (hf_freeList h))) ++ free_bytes (hf_freeList h).

Definition meta_size (h : HeapFile) : N :=
  12 + blen (bytes_of_string (hf_tableName h)) + 8 * N.of_nat (length (hf_freeList h)).

(** The room after the page header. *)
Definition MetaRoom : N := PageSize - PageHeaderSize.

Lemma blen_free_bytes l : blen (free_bytes l) = (8 * N.of_nat (length l))%N.
Proof.
  induction l as [|x l IH]; [done|]. unfold free_bytes in *. rewrite fmap_cons. cbn [concat].
  rewrite blen_app, blen_le_put, IH. cbn [length]. lia.
Qed.

Lemma blen_meta h : blen (meta_bytes h) = meta_size h.
Proof. unfold meta_bytes, meta_size. rewrite !blen_app, !blen_le_put, blen_free_bytes. lia. Qed.

(** Fields written one after the other. *)
Lemma store_next a b z : (blen a + blen b <= blen z)%N -> store_checked (blen a) b (store 0 a z) = Some (store 0 (a ++ b) z).
Proof.
  intros Hl. rewrite store_checked_ok by (rewrite blen_store; lia). f_equal.
  apply (store_store 0 a b z). lia.
Qed.

Lemma copy_next a b z : (blen a + blen b <= blen z)%N -> copy_at (blen a) b (store 0 a z) = Some (store 0 (a ++ b) z).
Proof.
  intros Hl. rewrite copy_at_ok by (rewrite blen_store; lia). f_equal. apply (store_store 0 a b z). lia.
Qed.

Lemma put_free_list_ok l a z :
  (blen a + blen (free_bytes l) <= blen z)%N -> put_free_list (blen a) l (store 0 a z) = Some (store 0 (a ++ free_bytes l) z).
Proof.
  revert a. induction l as [|x l IH]; intros a Hl; cbn [put_free_list].
  - by rewrite app_nil_r.
  - change (free_bytes (x :: l)) with (le_put 8 x ++ free_bytes l) in *.
    rewrite blen_app, blen_le_put in Hl. rewrite store_next by (rewrite blen_le_put; lia). cbn [mbind option_bind].
    replace (blen a + 8)%N with (blen (a ++ le_put 8 x)) by (rewrite blen_app, blen_le_put; lia).
    rewrite IH by (rewrite blen_app, blen_le_put; lia). by rewrite <-app_assoc.
Qed.

Lemma put_free_list_panics l off d : (blen d < off + 8 * N.of_nat (length l))%N -> (off <= blen d)%N -> put_free_list off l d = None.
Proof.
  revert off d. induction l as [|x l IH]; intros off d Hl Ho; cbn [put_free_list length] in *; [lia|].
  unfold store_checked. rewrite blen_le_put. destruct (N.leb_spec (off + N.of_nat 8) (blen d)); [|done].
  cbn [mbind option_bind]. apply IH; rewrite blen_store; rewrite ?blen_le_put; lia.
Qed.

Lemma blen_zeros : blen (replicate (N.to_nat MetaRoom) x00) = MetaRoom.
Proof. unfold blen. by rewrite length_replicate, N2Nat.id. Qed.

Lemma meta_area_ok h :
  (meta_size h <= MetaRoom)%N ->
  meta_area h = Some (store 0 (meta_bytes h) (replicate (N.to_nat MetaRoom) x00)).
Proof.
  intros Hfit. unfold meta_area. fold MetaRoom. set (z := replicate _ _). pose proof blen_zeros as Hz. fold z in Hz.
  unfold meta_size in Hfit. set (nb := bytes_of_string (hf_tableName h)) in *. set (fl := hf_freeList h) in *.
  rewrite store_checked_ok by (rewrite blen_le_put, Hz; unfold MetaRoom, PageSize, PageHeaderSize; lia). cbn [mbind option_bind].
  set (a1 := le_put 8 (hf_lastPageID h)). assert (L1 : blen a1 = 8%N) by apply blen_le_put.
  rewrite <-L1, store_next by (rewrite L1, blen_le_put; lia). cbn [mbind option_bind].
  set (a2 := a1 ++ le_put 2 (blen nb)). assert (L2 : blen a2 = 10%N) by (unfold a2; by rewrite blen_app, L1, blen_le_put).
  rewrite <-L2, copy_next by (rewrite L2; lia). cbn [mbind option_bind].
  set (a3 := a2 ++ nb). assert (L3 : blen a3 = (10 + blen nb)%N) by (unfold a3; by rewrite blen_app, L2).
  rewrite L2, <-L3, store_next by (rewrite L3, blen_le_put; lia). cbn [mbind option_bind].
  set (a4 := a3 ++ _). replace (blen a3 + 2)%N with (blen a4) by (unfold a4; by rewrite blen_app, blen_le_put).
  rewrite put_free_list_ok. 2: { unfold a4. rewrite blen_app, L3, blen_le_put, blen_free_bytes. lia. }
  f_equal. unfold a4, a3, a2, a1, meta_bytes. by rewrite <-!app_assoc.
Qed.

Lemma sub_mid a b c : sub (blen a) (blen b) (a ++ b ++ c) = b.
Proof. unfold sub, blen. rewrite !Nat2N.id, drop_app_length. by rewrite take_app_length. Qed.

Lemma get_free_list_ok l a c :
  Forall (fun x => x < two64)%N l -> get_free_list (blen a) (length l) (a ++ free_bytes l ++ c) = l.
Proof.
  intros Hl. revert a. induction Hl as [|x l Hx Hl IH]; intros a; [done|]. cbn [length get_free_list].
  change (free_bytes (x :: l)) with (le_put 8 x ++ free_bytes l). rewrite <-app_assoc.
  pose proof (sub_mid a (le_put 8 x) (free_bytes l ++ c)) as Hs. rewrite blen_le_put in Hs. change (N.of_nat 8) with 8%N in Hs.
  rewrite Hs, le_get_put_small by (change (256 ^ N.of_nat 8)%N with two64; done). f_equal.
  replace (blen a + 8)%N with (blen (a ++ le_put 8 x)) by (rewrite blen_app, blen_le_put; lia).
  rewrite app_assoc. apply IH.
Qed.

Lemma meta_area_fields h d :
  meta_area h = Some d -> (meta_size h <= MetaRoom)%N ->
  blen d = MetaRoom /\ d = meta_bytes h ++ drop (length (meta_bytes h)) (replicate (N.to_nat MetaRoom) x00).
Proof.
  intros Hd Hfit. rewrite meta_area_ok in Hd by done. apply (inj Some) in Hd as <-. split.
  - pose proof blen_zeros as Hz. rewrite blen_store by (rewrite Hz, blen_meta; lia). exact Hz.
  - unfold store. change (N.to_nat 0) with 0. by rewrite Nat.add_0_l.
Qed.

Lemma put_meta_panics h : (MetaRoom < meta_size h)%N -> put_meta h = None.
Proof.
  intros Hbig. unfold put_meta. enough (meta_area h = None) as -> by done. unfold meta_area. fold MetaRoom.
  set (z := replicate _ _). pose proof blen_zeros as Hz. fold z in Hz. unfold meta_size in Hbig.
  set (nb := bytes_of_string (hf_tableName h)) in *.
  rewrite store_checked_ok by (rewrite blen_le_put, Hz; unfold MetaRoom, PageSize, PageHeaderSize; lia). cbn [mbind option_bind].
  set (d1 := store 0 _ z). assert (L1 : blen d1 = MetaRoom).
  { unfold d1. rewrite blen_store; [done|]. rewrite blen_le_put, Hz. unfold MetaRoom, PageSize, PageHeaderSize. lia. }
  rewrite store_checked_ok by (rewrite blen_le_put, L1; unfold MetaRoom, PageSize, PageHeaderSize; lia). cbn [mbind option_bind].
  set (d2 := store 8 _ d1). assert (L2 : blen d2 = MetaRoom).
  { unfold d2. rewrite blen_store; [done|]. rewrite blen_le_put, L1. unfold MetaRoom, PageSize, PageHeaderSize. lia. }
  unfold copy_at. destruct (N.leb_spec 10 (blen d2)); [|done]. cbn [mbind option_bind]. set (d3 := store 10 _ d2).
  assert (L3 : blen d3 = MetaRoom).
  { unfold d3. rewrite blen_store; [done|]. unfold blen in *. rewrite length_take. lia. }
  unfold store_checked at 1. rewrite blen_le_put, L3. destruct (N.leb_spec (10 + blen nb + N.of_nat 2) MetaRoom); [|done].
  cbn [mbind option_bind]. apply put_free_list_panics; rewrite blen_store; rewrite ?blen_le_put, ?L3; lia.
Qed.

(** The fields of the meta page, read from its bytes. *)
Lemma meta_read h d z :
  d = meta_bytes h ++ z -> (meta_size h <= MetaRoom)%N -> (hf_lastPageID h < two64)%N ->
  Forall (fun x => x < two64)%N (hf_freeList h) ->
  let nl := blen (bytes_of_string (hf_tableName h)) in
  le_get (sub 0 8 d) = hf_lastPageID h /\ le_get (sub 8 2 d) = nl
  /\ le_get (sub (10 + nl) 2 d) = N.of_nat (length (hf_freeList h))
  /\ string_of_bytes (sub 10 nl d) = hf_tableName h
  /\ get_free_list (10 + nl + 2) (length (hf_freeList h)) d = hf_freeList h.
Proof.
  intros Hd Hfit Hlast Hfl nl. unfold meta_size in Hfit. fold nl in Hfit.
  set (nb := bytes_of_string (hf_tableName h)) in *. set (fl := hf_freeList h) in *.
  set (a1 := le_put 8 (hf_lastPageID h)). assert (L1 : blen a1 = 8%N) by apply blen_le_put.
  set (a2 := le_put 2 (blen nb)). assert (L2 : blen a2 = 2%N) by apply blen_le_put.
  set (a3 := le_put 2 (N.of_nat (length fl))). assert (L3 : blen a3 = 2%N) by apply blen_le_put.
  assert (Hd' : d = a1 ++ a2 ++ nb ++ a3 ++ free_bytes fl ++ z).
  { rewrite Hd. unfold meta_bytes. fold nb fl a1 a2 a3. by rewrite <-!app_assoc. }
  unfold MetaRoom, PageSize, PageHeaderSize in Hfit. split_and!.
  - rewrite Hd'. pose proof (sub_mid [] a1 (a2 ++ nb ++ a3 ++ free_bytes fl ++ z)) as Hs. rewrite L1 in Hs.
    change (blen []) with 0%N in Hs. simpl app in Hs at 1. rewrite Hs. by apply le_get_put_small.
  - rewrite Hd'. pose proof (sub_mid a1 a2 (nb ++ a3 ++ free_bytes fl ++ z)) as Hs. rewrite L1, L2 in Hs. rewrite Hs.
    apply le_get_put2. unfold nl in Hfit. lia.
  - pose proof (sub_mid (a1 ++ a2 ++ nb) a3 (free_bytes fl ++ z)) as Hs. rewrite !blen_app, L1, L2, L3 in Hs.
    rewrite <-!app_assoc, <-Hd' in Hs. replace (8 + (2 + blen nb))%N with (10 + nl)%N in Hs by (unfold nl; lia). rewrite Hs.
    apply le_get_put2. lia.
  - pose proof (sub_mid (a1 ++ a2) nb (a3 ++ free_bytes fl ++ z)) as Hs. rewrite !blen_app, L1, L2 in Hs.
    rewrite <-!app_assoc, <-Hd' in Hs. change (8 + 2)%N with 10%N in Hs. unfold nl. rewrite Hs. apply string_of_bytes_of_string.
  - pose proof (get_free_list_ok fl (a1 ++ a2 ++ nb ++ a3) z Hfl) as Hs. rewrite !blen_app, L1, L2, L3 in Hs.
    rewrite <-!app_assoc, <-Hd' in Hs. by replace (10 + nl + 2)%N with (8 + (2 + (blen nb + 2)))%N by (unfold nl; lia).
Qed.

(** A file that starts with the meta page of [h] opens with its fields. *)
Lemma OpenHeapFile_meta h h' name io f :
  (hf_lastPageID h < two64)%N -> Forall (fun x => x < two64)%N (hf_freeList h) -> (meta_size h <= MetaRoom)%N ->
  put_meta h = Some h' -> ReadAt 0 PageSize f = ReadAt 0 PageSize (hf_file h') ->
  OpenHeapFile name io f = Some (Ok (with_io (with_file h' f) io)).
Proof.
  intros Hlast Hfl Hfit. unfold put_meta, meta_page. destruct (meta_area h) as [d|] eqn:Hd; [|done]. cbn [mbind option_bind].
  intros Hw Hread. apply (inj Some) in Hw as <-. destruct (meta_area_fields h d Hd Hfit) as [Hlen Hbytes].
  cbn [hf_file with_file] in Hread. set (raw := replicate _ x00 ++ d) in Hread.
  assert (Hraw : blen raw = PageSize).
  { unfold raw. rewrite blen_app, Hlen. unfold blen. by rewrite length_replicate, N2Nat.id. }
  rewrite <-Hraw in Hread at 2. rewrite ReadAt_WriteAt in Hread. unfold OpenHeapFile.
  destruct (Nat.eqb_spec (length f) 0) as [Hz|_].
  { unfold ReadAt, sub_checked, blen in Hread. by rewrite Hz in Hread. }
  unfold readMeta. cbn [hf_file]. rewrite Hread. do 2 f_equal.
  assert (Hdrop : drop (N.to_nat PageHeaderSize) raw = d) by (unfold raw; by rewrite drop_app_length' by (by rewrite length_replicate)).
  rewrite Hdrop. destruct (meta_read h d _ Hbytes Hfit Hlast Hfl) as (E1 & E2 & E3 & E4 & E5).
  rewrite E2, E3, Hlen. unfold meta_size in Hfit.
  rewrite !(proj2 (N.ltb_ge _ _)) by (unfold MetaRoom, PageSize, PageHeaderSize in *; lia).
  rewrite E1, E4, Nat2N.id, E5. done.
Qed.

Lemma put_meta_ok h : (meta_size h <= MetaRoom)%N -> exists h', put_meta h = Some h'.
Proof. intros Hfit. unfold put_meta. rewrite (meta_area_ok h Hfit). cbn [mbind option_bind]. by eexists. Qed.

Lemma put_meta_size h h' : put_meta h = Some h' -> (meta_size h <= MetaRoom)%N -> (PageSize <= blen (hf_file h'))%N.
Proof.
  unfold put_meta, meta_page. destruct (meta_area h) as [d|] eqn:Hd; [|done]. cbn [mbind option_bind]. intros Hw Hfit.
  apply (inj Some) in Hw as <-. destruct (meta_area_fields h d Hd Hfit) as [Hl _]. cbn [hf_file with_file].
  rewrite blen_WriteAt, blen_app, Hl. unfold blen. rewrite length_replicate. unfold MetaRoom, PageSize, PageHeaderSize. lia.
Qed.

(** The meta page: table name, highest page and free list come back from the
    file, also after a later page write, complete or not, when they fit
    behind the page header and their write succeeded; when they do not fit,
    writing them panics. *)
Theorem heap_meta_roundtrip h :
  (hf_lastPageID h < two64)%N -> Forall (fun x => x < two64)%N (hf_freeList h) ->
  ((meta_size h <= MetaRoom)%N ->
     exists h' ok, writeMeta h = Some (h', ok) /\ (hf_io h = [] -> ok = true)
       /\ hf_lastPageID h' = hf_lastPageID h /\ hf_freeList h' = hf_freeList h /\ hf_tableName h' = hf_tableName h
       /\ (ok = true -> forall name p h2 r, (1 <= pg_id p)%N -> WritePage h' p = (h2, r) ->
             OpenHeapFile name (hf_io h2) (hf_file h2) = Some (Ok h2)))
  /\ ((MetaRoom < meta_size h)%N -> writeMeta h = None).
Proof.
  intros Hlast Hfl. split.
  2: { intros Hbig. unfold writeMeta. pose proof (put_meta_panics h Hbig) as Hn. unfold put_meta in Hn. by destruct (meta_area h). }
  intros Hfit. destruct (put_meta_ok h Hfit) as [h1 Hw]. pose proof (put_meta_size h h1 Hw Hfit) as Hlen.
  pose proof Hw as Hw'. unfold writeMeta. unfold put_meta in Hw'. destruct (meta_area h) as [d|]; [|done].
  cbn [mbind option_bind] in Hw' |- *. apply (inj Some) in Hw'.
  destruct (file_WriteAt h 0 (meta_page d)) as [h' ok] eqn:Hf. exists h', ok. split; [done|].
  split; [intros Hio; rewrite file_WriteAt_ok in Hf by done; congruence|].
  destruct (file_WriteAt_cases _ _ _ _ _ Hf) as (n & Hc & Hok).
  split_and!; [destruct Hc as [->| ->]; done..|]. intros -> name p h2 r Hp Hwp. specialize (Hok eq_refl). rewrite Hw' in Hok.
  unfold WritePage in Hwp. destruct (Serialize p) as [q raw] eqn:Hq.
  assert (Hqid : pg_id q = pg_id p) by (by injection Hq as <- _).
  destruct (file_WriteAt_cases _ _ _ _ _ Hwp) as (m & Hc2 & _).
  rewrite (OpenHeapFile_meta h h1 name _ (hf_file h2) Hlast Hfl Hfit Hw).
  - do 2 f_equal. destruct Hc2 as [E|E]; rewrite E, Hok; done.
  - destruct Hc2 as [E|E]; rewrite E, Hok; [done|]. cbn [hf_file with_io with_file].
    apply ReadAt_WriteAt_other; [lia|]. left. rewrite Hqid. unfold PageSize. lia.
Qed.

Lemma heap_meta_roundtrip_witness :
  exists h', writeMeta (mkHeap [] "items" 3 [2%N] [IoOk; IoFail 5]) = Some (h', true)
    /\ (WritePage h' (NewPage 3)).2 = false
    /\ OpenHeapFile "" [] (hf_file (WritePage h' (NewPage 3)).1) = Some (Ok (WritePage h' (NewPage 3)).1).
Proof.
  destruct (heap_meta_roundtrip (mkHeap [] "items" 3 [2%N] [IoOk; IoFail 5])) as [Hok _];
    [vm_compute; reflexivity|repeat constructor|].
  destruct Hok as (h' & ok & Hw & _ & _ & _ & _ & Ho); [vm_compute; discriminate|].
  assert (E : ok = true /\ hf_io h' = [IoFail 5]).
  { assert (E : (fun x => (hf_io x.1, x.2)) <$> writeMeta (mkHeap [] "items" 3 [2%N] [IoOk; IoFail 5]) = Some ([IoFail 5], true))
      by (vm_compute; reflexivity). rewrite Hw in E. injection E as E1 E2. by split. }
  destruct E as [-> Eio]. exists h'. split; [exact Hw|]. unfold WritePage in *. destruct (Serialize (NewPage 3)) as [q raw] eqn:Hq.
  assert (Ef : exists h2, file_WriteAt h' (pg_id q * PageSize) raw = (with_io h2 [], false)) by (unfold file_WriteAt; rewrite Eio; by eexists).
  destruct Ef as [h2 Ef]. split; [by rewrite Ef|].
  specialize (Ho eq_refl "" (NewPage 3) (with_io h2 []) false). rewrite Hq, Ef in Ho. rewrite Ef. apply Ho; [vm_compute; discriminate|reflexivity].
Defined.

(** ** Pages in the file *)

(** A page as the code leaves it: well-formed, with its header in place. *)
Definition page_wf (p : Page) : Prop :=
  (exists locs, page_inv p locs) /\ syncHeader p = p /\ (pg_id p < two64)%N /\ (pg_pageLSN p < two64)%N.

Lemma syncHeader_fields p :
  pg_id (syncHeader p) = pg_id p /\ pg_pageLSN (syncHeader p) = pg_pageLSN p
  /\ pg_slotCount (syncHeader p) = pg_slotCount p /\ pg_freeSpaceOffset (syncHeader p) = pg_freeSpaceOffset p
  /\ pg_flags (syncHeader p) = pg_flags p.
Proof. done. Qed.

Lemma page_wf_Deserialize p : page_wf p -> Deserialize (pg_data p) = (p, None).
Proof.
  intros ((locs & HI) & Hs & Hi & Hl). pose proof (Deserialize_Serialize p locs HI) as E.
  unfold Serialize in E. cbn [snd] in E. rewrite Hs, !N.mod_small in E by done. rewrite E. by destruct p.
Qed.

Lemma page_wf_len p : page_wf p -> blen (pg_data p) = PageSize.
Proof. intros ((locs & HI) & _). apply HI. Qed.

Lemma Serialize_wf p : page_wf p -> Serialize p = (p, pg_data p).
Proof. intros (_ & Hs & _). unfold Serialize. by rewrite Hs. Qed.

Lemma put_page_wf h p :
  page_wf p -> put_page h p = with_file h (WriteAt (pg_id p * PageSize) (pg_data p) (hf_file h)).
Proof. intros Hp. unfold put_page. by rewrite (Serialize_wf p Hp). Qed.

Lemma ReadPage_put_page h p : page_wf p -> ReadPage (put_page h p) (pg_id p) = Ok p.
Proof.
  intros Hp. rewrite put_page_wf by done. unfold ReadPage. cbn [hf_file with_file].
  rewrite <-(page_wf_len p Hp) at 2. by rewrite ReadAt_WriteAt, page_wf_Deserialize.
Qed.

(** Where the file has a whole page. *)
Lemma ReadPage_within h id p : ReadPage h id = Ok p -> (id * PageSize + PageSize <= blen (hf_file h))%N.
Proof.
  unfold ReadPage, ReadAt, sub_checked. destruct (N.leb_spec (id * PageSize + PageSize) (blen (hf_file h))); [done|]. done.
Qed.

Lemma ReadPage_file h off bs id q :
  ReadPage h id = Ok q -> (id * PageSize + PageSize <= off \/ off + blen bs <= id * PageSize)%N ->
  ReadPage (with_file h (WriteAt off bs (hf_file h))) id = Ok q.
Proof.
  intros Hr Hd. pose proof (ReadPage_within h id q Hr) as Hw. revert Hr. unfold ReadPage. cbn [hf_file with_file].
  by rewrite ReadAt_WriteAt_other.
Qed.

Lemma ReadPage_put_page_other h p id q :
  page_wf p -> id <> pg_id p -> ReadPage h id = Ok q -> ReadPage (put_page h p) id = Ok q.
Proof.
  intros Hp Hne Hr. rewrite put_page_wf by done. apply ReadPage_file; [done|].
  rewrite (page_wf_len p Hp). unfold PageSize. lia.
Qed.

Lemma ReadPage_put_meta h h' id q :
  put_meta h = Some h' -> (1 <= id)%N -> ReadPage h id = Ok q -> ReadPage h' id = Ok q.
Proof.
  unfold put_meta, meta_page. destruct (meta_area h) as [d|] eqn:Hd; [|done]. intros Hw Hid Hr.
  cbn [mbind option_bind] in Hw. apply (inj Some) in Hw as <-. apply ReadPage_file; [done|]. right.
  destruct (N.le_gt_cases (meta_size h) MetaRoom) as [Hfit|Hbig].
  - destruct (meta_area_fields h d Hd Hfit) as [Hl _]. rewrite blen_app, Hl. unfold blen. rewrite length_replicate.
    unfold MetaRoom, PageSize, PageHeaderSize in *. lia.
  - pose proof (put_meta_panics h Hbig) as Hn. unfold put_meta in Hn. by rewrite Hd in Hn.
Qed.

(** Reading from the file depends on the file only. *)
Lemma ReadPage_hf h h' id : hf_file h = hf_file h' -> ReadPage h id = ReadPage h' id.
Proof. unfold ReadPage. by intros ->. Qed.

Lemma page_wf_NewPage id : (id < two64)%N -> page_wf (NewPage id).
Proof.
  intros Hid. destruct (rep_NewPage id) as (locs & HI & _). split; [by exists locs|].
  split; [|done]. unfold NewPage. set (p := mkPage _ _ _ _ _ _).
  assert (Hl : blen (pg_data p) = PageSize) by (unfold p, blen; cbn [pg_data]; by rewrite length_replicate, N2Nat.id).
  by apply syncHeader_idem.
Qed.

(** ** Page operations keep pages as the code leaves them *)

Lemma store_checked_len off bs d d' : store_checked off bs d = Some d' -> blen d' = blen d.
Proof.
  unfold store_checked. destruct (N.leb_spec (off + blen bs) (blen d)); [|done]. intros Heq. apply (inj Some) in Heq as <-.
  by apply blen_store.
Qed.

Lemma copy_at_len off bs d d' : copy_at off bs d = Some d' -> blen d' = blen d.
Proof.
  unfold copy_at. destruct (N.leb_spec off (blen d)); [|done]. intros Heq. apply (inj Some) in Heq as <-.
  apply blen_store. unfold blen in *. rewrite length_take. lia.
Qed.

(** [setSlot] writes behind the header. *)
Lemma setSlot_header p i off ln p' :
  setSlot p i off ln = Some p' ->
  blen (pg_data p') = blen (pg_data p) /\ sub 0 25 (pg_data p') = sub 0 25 (pg_data p) /\ full_header p' = full_header p
  /\ pg_id p' = pg_id p /\ pg_pageLSN p' = pg_pageLSN p.
Proof.
  unfold setSlot. set (base := (PageHeaderSize + i * SlotSize)%N).
  destruct (store_checked base _ _) as [d1|] eqn:H1; [|done]. cbn [mbind option_bind].
  destruct (store_checked (base + 2) _ d1) as [d2|] eqn:H2; [|done]. cbn [mbind option_bind].
  intros Heq. apply (inj Some) in Heq as <-. cbn [pg_data pg_id pg_pageLSN with_data].
  pose proof (store_checked_len _ _ _ _ H1) as L1. pose proof (store_checked_len _ _ _ _ H2) as L2.
  revert H1 H2. unfold store_checked.
  destruct (N.leb_spec (base + blen (le_put 2 off)) (blen (pg_data p))) as [B1|]; [|done].
  destruct (N.leb_spec (base + 2 + blen (le_put 2 ln)) (blen d1)) as [B2|]; [|done].
  intros E1 E2. apply (inj Some) in E1 as <-. apply (inj Some) in E2 as <-.
  split; [congruence|]. split; [|done].
  rewrite sub_store_other, sub_store_other; [done|done| |done|]; left; unfold base, PageHeaderSize; lia.
Qed.

Lemma synced_iff p : blen (pg_data p) = PageSize -> syncHeader p = p <-> sub 0 25 (pg_data p) = full_header p.
Proof.
  intros Hl. pose proof (syncHeader_bytes p Hl) as Hb. pose proof (blen_full_header p) as Hf. unfold blen in Hf.
  assert (Hf' : length (full_header p) = 25) by lia. split.
  - intros Hs. rewrite Hs in Hb. rewrite Hb. unfold sub. change (N.to_nat 0) with 0. change (N.to_nat 25) with 25.
    rewrite drop_0. by rewrite take_app_length'.
  - intros Hs. rewrite syncHeader_data in Hb |- * by done. cbn [pg_data with_data] in Hb. rewrite Hb, <-Hs. unfold sub.
    change (N.to_nat 0) with 0. change (N.to_nat 25) with 25. rewrite drop_0, take_drop. by destruct p.
Qed.

(** The same page, with the same LSN, in order. *)
Definition page_kept (p p' : Page) : Prop :=
  page_wf p' /\ pg_id p' = pg_id p /\ pg_pageLSN p' = pg_pageLSN p.

Lemma page_wf_synced q p p' :
  page_wf p -> (exists locs, page_inv p' locs) -> blen (pg_data q) = PageSize -> p' = syncHeader q ->
  pg_id q = pg_id p -> pg_pageLSN q = pg_pageLSN p -> page_kept p p'.
Proof.
  intros (_ & _ & Hi & Hl) HI Hq -> E1 E2. split; [|by split]. split; [done|].
  split; [by apply syncHeader_idem|]. destruct (syncHeader_fields q) as (-> & -> & _). by rewrite E1, E2.
Qed.

Lemma InsertRow_sync p k v p' sid :
  InsertRow p k v = Some (p', Ok sid) ->
  exists q, p' = syncHeader q /\ blen (pg_data q) = blen (pg_data p) /\ pg_id q = pg_id p /\ pg_pageLSN q = pg_pageLSN p.
Proof.
  unfold InsertRow. destruct (find_tombstone p 0 _) as [ti|]; [|done]. cbn [mbind option_bind].
  destruct (_ <? _)%Z; [by intros [= _ ?]|]. set (p1 := with_freeSpaceOffset p _).
  destruct (copy_at _ _ (pg_data p1)) as [d|] eqn:Hc; [|done]. cbn [mbind option_bind]. apply copy_at_len in Hc.
  set (pq := match ti with Some i => _ | None => _ end).
  assert (Hpq : blen (pg_data pq.2) = blen (pg_data p) /\ pg_id pq.2 = pg_id p /\ pg_pageLSN pq.2 = pg_pageLSN p)
    by (by destruct ti).
  destruct pq as [si p2]. cbn [snd] in Hpq. destruct Hpq as (L & E1 & E2).
  destruct (setSlot p2 si _ _) as [p3|] eqn:Hs; [|done]. cbn [mbind option_bind]. intros Heq.
  apply (inj Some) in Heq. injection Heq as <- _. apply setSlot_header in Hs as (S1 & _ & _ & S2 & S3).
  exists p3. split; [done|]. by rewrite S1, S2, S3, L, E1, E2.
Qed.

Lemma InsertRow_err p k v p' e : InsertRow p k v = Some (p', Err e) -> p' = p.
Proof.
  unfold InsertRow. destruct (find_tombstone p 0 _) as [ti|]; [|done]. cbn [mbind option_bind].
  destruct (_ <? _)%Z; [by intros [= <- _]|]. destruct (copy_at _ _ _); [|done]. cbn [mbind option_bind].
  destruct (match ti with Some i => _ | None => _ end) as [si p2]. destruct (setSlot p2 _ _ _); [|done].
  cbn [mbind option_bind]. intros Heq. by apply (inj Some) in Heq.
Qed.

Lemma page_wf_rep p : page_wf p -> exists s, rep p s.
Proof. intros ((locs & HI) & _). by exists (mkSpec (view <$> locs) (pg_freeSpaceOffset p)), locs. Qed.

Lemma rep_inv p s : rep p s -> exists locs, page_inv p locs.
Proof. intros (locs & HI & _). by exists locs. Qed.

Lemma InsertRow_kept p s k v :
  page_wf p -> rep p s ->
  exists p', InsertRow p k v = Some (p', (spec_insert s k v).2) /\ rep p' (spec_insert s k v).1 /\ page_kept p p'.
Proof.
  intros Hw Hr. destruct (rep_insert p s k v Hr) as (p' & Hi & Hr'). exists p'. split; [done|]. split; [done|].
  destruct (spec_insert s k v).2 as [sid|e].
  - destruct (InsertRow_sync p k v p' sid Hi) as (q & -> & L & E1 & E2).
    apply (page_wf_synced q); try done; [by apply (rep_inv _ _ Hr')|]. by rewrite L, page_wf_len.
  - apply InsertRow_err in Hi as ->. by split.
Qed.

(** A page whose slot is overwritten keeps its header. *)
Lemma setSlot_kept p i off ln p' :
  page_wf p -> setSlot p i off ln = Some p' -> (exists locs, page_inv p' locs) -> page_kept p p'.
Proof.
  intros (HI0 & Hs & Hi & Hl) Hset HI. destruct (setSlot_header p i off ln p' Hset) as (L & H1 & H2 & E1 & E2).
  assert (Hlen : blen (pg_data p) = PageSize) by (destruct HI0 as [locs HI0]; apply HI0).
  split; [|by split]. split; [done|]. split; [|by rewrite E1, E2].
  apply synced_iff; [congruence|]. rewrite H1, H2. by apply synced_iff.
Qed.

Lemma UpdateRow_kept p s i k v :
  page_wf p -> rep p s ->
  exists p', UpdateRow p i k v = Some (p', (spec_update s i k v).2) /\ rep p' (spec_update s i k v).1 /\ page_kept p p'.
Proof.
  intros Hw Hr. destruct (rep_update p s i k v Hr) as (p' & Hu & Hr'). exists p'. split; [done|]. split; [done|].
  destruct (rep_inv _ _ Hr') as [locs' HI']. revert Hu. unfold UpdateRow.
  destruct ((i <? 0)%Z || (Z.of_N (pg_slotCount p) <=? i)%Z) eqn:Hb; [intros [= <- _]; by split|].
  destruct (getSlot p (Z.to_N i)) as [[off ln]|] eqn:Hg; [|done]. cbn [mbind option_bind].
  destruct (is_tombstone (off, ln)) eqn:Htomb; [intros [= <- _]; by split|]. destruct (_ <=? ln)%N.
  - destruct (copy_at off _ (pg_data p)) as [d|] eqn:Hc; [|done]. cbn [mbind option_bind]. apply copy_at_len in Hc.
    destruct (setSlot (with_data p d) _ _ _) as [q|] eqn:Hs; [|done]. cbn [mbind option_bind]. intros Heq.
    apply (inj Some) in Heq. injection Heq as <- _. apply setSlot_header in Hs as (S1 & _ & _ & S2 & S3).
    apply (page_wf_synced q); try done; [by exists locs'|]. rewrite S1. cbn. by rewrite Hc, page_wf_len.
  - destruct Hr as (locs & HI & Er & Ef).
    destruct (slot_cases p locs i HI) as [[Hf _]|(_ & H0 & Ei & l & Hl)]; [congruence|]. rewrite Ei.
    destruct (setSlot_tomb p locs (Z.to_nat i) l HI Hl) as (q & Hq & HIq & Hfq). rewrite Hq. cbn [mbind option_bind].
    assert (Kq : page_kept p q) by (eapply setSlot_kept; [done|done|by eexists]). destruct Kq as (Wq & E1 & E2).
    destruct (spec_update s i k v).2 as [sid|e].
    + intros Hi. destruct (InsertRow_sync q k v p' sid Hi) as (q' & -> & L & F1 & F2).
      apply (page_wf_synced q'); try done; [by exists locs'|by rewrite L, page_wf_len|congruence|congruence].
    + intros Hi. apply InsertRow_err in Hi as ->. by split.
Qed.

Lemma DeleteRow_kept p s i :
  page_wf p -> rep p s -> exists p', DeleteRow p i = Some p' /\ rep p' (spec_delete s i) /\ page_kept p p'.
Proof.
  intros Hw Hr. destruct (rep_delete p s i Hr) as (p' & Hd & Hr'). exists p'. split; [done|]. split; [done|].
  revert Hd. unfold DeleteRow. destruct (_ || _); [intros [= <-]; by split|].
  destruct (setSlot p _ 0 0) as [q|] eqn:Hs; [|done]. cbn [mbind option_bind]. intros Heq. apply (inj Some) in Heq.
  subst p'. apply setSlot_header in Hs as (S1 & _ & _ & S2 & S3).
  apply (page_wf_synced q); try done; [by apply (rep_inv _ _ Hr')|]. by rewrite S1, page_wf_len.
Qed.

Lemma SetPageLSN_kept p s lsn :
  page_wf p -> rep p s -> (lsn < two64)%N ->
  rep (SetPageLSN p lsn) s /\ page_wf (SetPageLSN p lsn) /\ pg_id (SetPageLSN p lsn) = pg_id p.
Proof.
  intros Hw Hr Hl. destruct (rep_step p s (PSetLSN lsn) Hr) as (p' & Hp & Hr'). cbn in Hp, Hr'. injection Hp as <-.
  split; [done|]. split; [|done]. split; [by apply (rep_inv _ _ Hr')|]. split; [|split; [apply Hw|done]].
  unfold SetPageLSN. apply syncHeader_idem. cbn. by apply page_wf_len.
Qed.

Lemma IsFull_rep p s :
  rep p s -> IsFull p = (Z.of_N (ps_free s) - Z.of_N (slot_pos (length (ps_rows s))) <? Z.of_N (MinFreeSpace + SlotSize))%Z.
Proof.
  intros (locs & HI & Er & Ef). unfold IsFull, FreeSpace, slotDirEnd. rewrite Er, Ef, length_fmap, (pi_count _ _ HI). done.
Qed.
