(* ===== verification/Wal.v ===== *)
(** * The log manager, checkpoints and recovery ([internal/wal])

    manager.go (group commit: [appendRecord], [doFlush], [Flush]),
    checkpoint.go and recovery.go, with the storage applier of
    [cmd/server/main.go]. The log file is a list of bytes; a crash leaves
    the file and an arbitrary prefix of the bytes of the flush in progress. *)

From Stdlib Require Import ZArith NArith Lia Strings.Byte String Sorted.
From stdpp Require Import base tactics numbers list gmap strings.
From S2P Require Import Prelude Types Storage WalRecord.

(** ** writer.go: the interface the transaction manager writes through *)

Class WALWriter (W : Type) := {
  wal_Begin : W -> N -> W * result GoError N;
  wal_Write : W -> N -> N -> N -> string -> string -> list byte -> list byte -> W * result GoError N;
  wal_Commit : W -> N -> N -> W * result GoError N;
  wal_Abort : W -> N -> N -> W * result GoError N;
  wal_CLR : W -> N -> N -> N -> W * result GoError N;
  wal_Flush : W -> N -> W * result GoError unit;
}.

(** [NoopWriter]. *)
#[export] Instance NoopWriter : WALWriter unit :=
  {| wal_Begin := fun w _ => (w, Ok LSNInvalid);
     wal_Write := fun w _ _ _ _ _ _ _ => (w, Ok LSNInvalid);
     wal_Commit := fun w _ _ => (w, Ok LSNInvalid);
     wal_Abort := fun w _ _ => (w, Ok LSNInvalid);
     wal_CLR := fun w _ _ _ => (w, Ok LSNInvalid);
     wal_Flush := fun w _ => (w, Ok tt) |}.

(** ** manager.go *)

Record WalMgr := mkWal {
  w_file : list byte;
  w_buf : list byte;
  w_next : N;
  w_flushed : N;
  w_txnLSN : gmap N N;
}.

Section Manager.
Context `{GobATT}.

Definition scanHighestLSN (file : list byte) : N :=
  fold_left (fun m r => if (m <? lr_LSN r)%N then lr_LSN r else m) (scan_log file) 0%N.

Definition OpenManager (file : list byte) : WalMgr :=
  let maxLSN := scanHighestLSN file in
  mkWal file [] (u64_add maxLSN 1) maxLSN ∅.

(** [assignLSN] and the rest of [appendRecord] are two steps of the calling
    goroutine; other goroutines can run in between. *)
Definition assignLSN (w : WalMgr) : WalMgr * N :=
  (mkWal (w_file w) (w_buf w) (u64_add (w_next w) 1) (w_flushed w) (w_txnLSN w), w_next w).

Definition bufferRecord (w : WalMgr) (rec : LogRecord) : WalMgr :=
  mkWal (w_file w) (w_buf w ++ encodeRecord rec) (w_next w) (w_flushed w)
    (<[lr_TxnID rec := lr_LSN rec]> (w_txnLSN w)).

Definition appendRecord (w : WalMgr) (rec : LogRecord) : WalMgr * N :=
  let (w, lsn) := assignLSN w in
  (bufferRecord w (set_LSN rec lsn), lsn).

(** How the write and the fsync of a flush end; a failed write may have put
    a prefix on disk. *)
Inductive FlushIO := IOok | IOfail (written : nat).

Definition doFlush (w : WalMgr) (io : FlushIO) : option WalMgr :=
  match w_buf w with
  | [] => Some w
  | toWrite =>
      match io with
      | IOfail n => Some (mkWal (w_file w ++ take n toWrite) [] (w_next w) (w_flushed w) (w_txnLSN w))
      | IOok =>
          match highestLSNInBytes toWrite with
          | None => None
          | Some maxLSN =>
              Some (mkWal (w_file w ++ toWrite) [] (w_next w)
                      (if (w_flushed w <? maxLSN)%N then maxLSN else w_flushed w) (w_txnLSN w))
          end
      end
  end.

(** [Flush(lsn)] returns when this holds. *)
Definition Flush_done (w : WalMgr) (lsn : N) : bool := (lsn <=? w_flushed w)%N.

(** The records the log operations append. *)
Definition begin_record (txnID : N) (ts : Z) : LogRecord :=
  mkLogRecord 0 RecordBegin txnID LSNInvalid 0 0 "" "" [] [] ∅ 0 ts.
Definition write_record (txnID prevLSN op : N) (table key : string) (before after : list byte)
    : LogRecord :=
  mkLogRecord 0 RecordWrite txnID prevLSN prevLSN op table key before after ∅ 0 0.
Definition commit_record (txnID lastLSN : N) : LogRecord :=
  mkLogRecord 0 RecordCommit txnID lastLSN 0 0 "" "" [] [] ∅ 0 0.
Definition abort_record (txnID lastLSN : N) : LogRecord :=
  mkLogRecord 0 RecordAbort txnID lastLSN 0 0 "" "" [] [] ∅ 0 0.
Definition clr_record (txnID prevLSN undoNextLSN : N) : LogRecord :=
  mkLogRecord 0 RecordCLR txnID prevLSN undoNextLSN 0 "" "" [] [] ∅ 0 0.
Definition checkpoint_begin_record (att : gmap N ATTEntry) : LogRecord :=
  mkLogRecord 0 RecordCheckpointBegin 0 0 0 0 "" "" [] [] att 0 0.
Definition checkpoint_end_record (beginLSN : N) : LogRecord :=
  mkLogRecord 0 RecordCheckpointEnd 0 0 0 0 "" "" [] [] ∅ beginLSN 0.

(** [Flush] in a run where the flusher goroutine is the only one to act
    while the caller waits. *)
Definition Flush (w : WalMgr) (lsn : N) : option WalMgr :=
  if Flush_done w lsn then Some w else doFlush w IOok.

Definition Commit (w : WalMgr) (txnID lastLSN : N) : option (WalMgr * N) :=
  let (w, lsn) := appendRecord w (commit_record txnID lastLSN) in
  (fun w => (w, lsn)) <$> Flush w lsn.

Definition Iterate (w : WalMgr) (fromLSN : N) : option (WalMgr * list LogRecord) :=
  (fun w => (w, List.filter (fun r => fromLSN <=? lr_LSN r)%N (scan_log (w_file w))))
  <$> doFlush w IOok.

(** ** checkpoint.go *)

Definition WriteCheckpoint (w : WalMgr) (activeTxns : gmap N ATTEntry) : option (WalMgr * N) :=
  let (w, beginLSN) := appendRecord w (checkpoint_begin_record activeTxns) in
  let (w, endLSN) := appendRecord w (checkpoint_end_record beginLSN) in
  (fun w => (w, endLSN)) <$> Flush w endLSN.

Record CheckpointState := mkCheckpoint { cp_ATT : gmap N ATTEntry; cp_EndLSN : N }.

(** The loop's variables: [attMap] and [lastCP]. *)
Definition checkpoint_step (acc : gmap N (gmap N ATTEntry) * option (N * N)) (rec : LogRecord)
    : gmap N (gmap N ATTEntry) * option (N * N) :=
  let '(attMap, lastCP) := acc in
  if (lr_Type rec =? RecordCheckpointBegin)%N then (<[lr_LSN rec := lr_ATT rec]> attMap, lastCP)
  else if (lr_Type rec =? RecordCheckpointEnd)%N
       then (attMap, Some (lr_LSN rec, lr_BeginLSN rec))
  else (attMap, lastCP).

Definition FindLastCheckpoint (file : list byte) : CheckpointState :=
  match fold_left checkpoint_step (scan_log file) (∅, None) with
  | (_, None) => mkCheckpoint ∅ LSNInvalid
  | (attMap, Some (endLSN, beginLSN)) => mkCheckpoint (default ∅ (attMap !! beginLSN)) endLSN
  end.

(** ** recovery.go *)

Record RedoOp := mkRedo {
  ro_TxnID : N;
  ro_LSN : N;
  ro_Op : N;
  ro_Table : string;
  ro_Key : string;
  ro_After : list byte;
}.

Record UndoOp := mkUndoOp {
  uo_TxnID : N;
  uo_LSN : N;
  uo_Op : N;
  uo_Table : string;
  uo_Key : string;
  uo_Before : list byte;
  uo_PrevLSN : N;
}.

Record RecoveryResult := mkRecovery {
  rr_Committed : gset N;
  rr_Aborted : gset N;
  rr_RedoOps : list RedoOp;
  rr_UndoTxns : gmap N N;
}.

Definition readAllRecordsFrom (file : list byte) (fromLSN : N) : list LogRecord :=
  List.filter (fun r => fromLSN <=? lr_LSN r)%N (scan_log file).

(** The body of the analysis loop. *)
Definition analysis_step (att : gmap N ATTEntry) (rec : LogRecord) : gmap N ATTEntry :=
  let t := lr_Type rec in
  let fresh := mkATT (lr_LSN rec) (lr_LSN rec) 0 in
  match att !! lr_TxnID rec with
  | None =>
      if (t =? RecordBegin)%N || (t =? RecordWrite)%N || (t =? RecordCLR)%N
      then <[lr_TxnID rec := fresh]> att else att
  | Some e =>
      if (t =? RecordWrite)%N || (t =? RecordCLR)%N
      then <[lr_TxnID rec := mkATT (lr_LSN rec) (att_FirstLSN e) (att_Status e)]> att
      else if (t =? RecordCommit)%N
      then <[lr_TxnID rec := mkATT (lr_LSN rec) (att_FirstLSN e) 1]> att
      else if (t =? RecordAbort)%N
      then <[lr_TxnID rec := mkATT (lr_LSN rec) (att_FirstLSN e) 2]> att
      else att
  end.

Definition redoStart (att : gmap N ATTEntry) : N :=
  fold_left (fun start (e : ATTEntry) =>
    if (start =? LSNInvalid)%N || (att_FirstLSN e <? start)%N then att_FirstLSN e else start)
    (map_to_list att).*2 LSNInvalid.

Definition redo_of (rec : LogRecord) : RedoOp :=
  mkRedo (lr_TxnID rec) (lr_LSN rec) (lr_Op rec) (lr_Table rec) (lr_Key rec) (lr_After rec).

Definition is_redo (att : gmap N ATTEntry) (rec : LogRecord) : bool :=
  (lr_Type rec =? RecordWrite)%N
  && match att !! lr_TxnID rec with Some e => (att_Status e =? 1)%N | None => false end.

Definition with_status (s : N) (att : gmap N ATTEntry) : gset N :=
  dom (filter (fun kv => att_Status kv.2 = s) att).

Definition RunRecovery (file : list byte) : RecoveryResult :=
  let cp := FindLastCheckpoint file in
  let scanFromLSN := if negb (cp_EndLSN cp =? LSNInvalid)%N then cp_EndLSN cp else 1%N in
  let att := fold_left analysis_step (readAllRecordsFrom file scanFromLSN) (cp_ATT cp) in
  let start := redoStart att in
  let redoOps :=
    if negb (start =? LSNInvalid)%N
    then redo_of <$> List.filter (is_redo att) (readAllRecordsFrom file start) else [] in
  mkRecovery (with_status 1 att) (with_status 2 att) redoOps
    (att_LastLSN <$> filter (fun kv => att_Status kv.2 = 0%N) att).
End Manager.

(** The log manager behind the interface, in runs where each call completes
    before the next one starts. The clock is not modelled: a BEGIN record
    carries the timestamp 0. *)
#[export] Instance walManager `{GobATT} : WALWriter WalMgr :=
  let app := fun (w : WalMgr) rec =>
    ((appendRecord w rec).1, Ok (E := GoError) (appendRecord w rec).2) in
  {| wal_Begin := fun w t => app w (begin_record t 0);
     wal_Write := fun w t prev op table key before after =>
       app w (write_record t prev op table key before after);
     wal_Commit := fun w t last =>
       match Commit w t last with
       | Some (w, lsn) => (w, Ok lsn)
       | None => (w, Err (EOther "wal: panic"))
       end;
     wal_Abort := fun w t last => app w (abort_record t last);
     wal_CLR := fun w t prev next => app w (clr_record t prev next);
     wal_Flush := fun w lsn =>
       match Flush w lsn with
       | Some w => (w, Ok tt)
       | None => (w, Err (EOther "wal: panic"))
       end |}.

(** The storage backend recovery writes to. *)
Class StorageApplier (S : Type) := {
  SetRow : S -> string -> string -> list byte -> S;
  ApplierDeleteRow : S -> string -> string -> S;
}.

Definition apply_redo {S} `{StorageApplier S} (store : S) (op : RedoOp) : S :=
  if (ro_Op op =? 0)%N || (ro_Op op =? 1)%N then SetRow store (ro_Table op) (ro_Key op) (ro_After op)
  else if (ro_Op op =? 2)%N then ApplierDeleteRow store (ro_Table op) (ro_Key op)
  else store.

Definition ApplyRedoOps {S} `{StorageApplier S} (ops : list RedoOp) (store : S) : S :=
  fold_left apply_redo ops store.

Definition apply_undo {S W} `{StorageApplier S} `{WALWriter W} (acc : S * option W) (op : UndoOp)
    : S * option W :=
  let '(store, w) := acc in
  let store :=
    if (uo_Op op =? 0)%N then ApplierDeleteRow store (uo_Table op) (uo_Key op)
    else if (uo_Op op =? 1)%N || (uo_Op op =? 2)%N
         then SetRow store (uo_Table op) (uo_Key op) (uo_Before op)
    else store in
  (store, (fun w => (wal_CLR w (uo_TxnID op) (uo_LSN op) (uo_PrevLSN op)).1) <$> w).

Definition ApplyUndoOps {S W} `{StorageApplier S} `{WALWriter W} (ops : list UndoOp) (store : S)
    (w : option W) : S * option W :=
  fold_left apply_undo (rev ops) (store, w).

(** [walStorageApplier] of cmd/server/main.go: the catalog. *)
#[export] Instance walStorageApplier : StorageApplier Catalog :=
  {| SetRow := fun c table key vals =>
       match Lookup c table with
       | None => c
       | Some tbl =>
           match DecodeValues vals with
           | Err _ => c
           | Ok decoded => <[table := PutRow tbl key (Some decoded)]> c
           end
       end;
     ApplierDeleteRow := fun c table key =>
       match Lookup c table with
       | None => c
       | Some tbl => <[table := (DeleteRow tbl key).1]> c
       end |}.

(** ** Runs of the log manager

    [hist] is the sequence of records appended so far, with their LSNs. *)

Definition lsn_lt (a b : LogRecord) : Prop := (lr_LSN a < lr_LSN b)%N.

(** Records as the log manager produces them: in range, in LSN order, with
    no field their type does not carry. *)
Record wf_log `{GobATT} (rs : list LogRecord) : Prop := {
  wl_ok : Forall rec_ok rs;
  wl_wire : Forall (fun r => wire r = r) rs;
  wl_sorted : StronglySorted lsn_lt rs;
  wl_pos : Forall (fun r => 1 <= lr_LSN r)%N rs;
}.

Section Runs.
Context `{GobATT, !GobRoundTrip}.

Inductive wreach : WalMgr -> list LogRecord -> Prop :=
| wr_open rs : wf_log rs -> Forall (fun r => lr_LSN r + 1 < two64)%N rs ->
    wreach (OpenManager (log_bytes rs)) rs
| wr_append w h rec :
    wreach w h -> rec_ok (set_LSN rec (w_next w)) -> wire rec = rec -> (w_next w + 1 < two64)%N ->
    wreach (appendRecord w rec).1 (h ++ [set_LSN rec (w_next w)])
| wr_flush w h w' : wreach w h -> doFlush w IOok = Some w' -> wreach w' h.

Lemma fold_max_spec (rs : list LogRecord) m :
  let v := fold_left (fun m r => if (m <? lr_LSN r)%N then lr_LSN r else m) rs m in
  (m <= v)%N /\ Forall (fun r => lr_LSN r <= v)%N rs
  /\ (v = m \/ exists r, r ∈ rs /\ lr_LSN r = v).
Proof.
  revert m. induction rs as [|r rs IH]; intros m; simpl.
  - split_and!; [lia|constructor|by left].
  - specialize (IH (if (m <? lr_LSN r)%N then lr_LSN r else m)) as (H1 & H2 & H3).
    destruct (N.ltb_spec m (lr_LSN r)) as [Hl|Hl]; split_and!; try lia.
    + constructor; [lia|done].
    + right. destruct H3 as [->|(r' & ? & ?)]; [exists r; set_solver|exists r'; set_solver].
    + constructor; [lia|done].
    + destruct H3 as [->|(r' & ? & ?)]; [by left|right; exists r'; set_solver].
Qed.

Lemma wire_LSN r lsn : wire (set_LSN r lsn) = set_LSN (wire r) lsn.
Proof. done. Qed.

Record wal_inv (w : WalMgr) (h f b : list LogRecord) : Prop := {
  wi_split : h = f ++ b;
  wi_file : w_file w = log_bytes f;
  wi_buf : w_buf w = log_bytes b;
  wi_log : wf_log h;
  wi_next : Forall (fun r => lr_LSN r < w_next w)%N h;
  wi_pos : (1 <= w_next w < two64)%N;
  wi_flushed : Forall (fun r => lr_LSN r <= w_flushed w)%N f;
  wi_pending : Forall (fun r => w_flushed w < lr_LSN r)%N b;
  wi_bound : (w_flushed w < w_next w)%N;
}.

Lemma StronglySorted_snoc rs r :
  StronglySorted lsn_lt rs -> Forall (fun x => lsn_lt x r) rs -> StronglySorted lsn_lt (rs ++ [r]).
Proof.
  induction 1 as [|x rs Hs IH Hx]; intros Hr; simpl; [repeat constructor|].
  apply Forall_cons in Hr as [Hr1 Hr2]. constructor; [by apply IH|].
  apply Forall_app. split; [done|by constructor].
Qed.

Lemma scan_wf rs tail : wf_log rs -> stops tail -> scan_log (log_bytes rs ++ tail) = rs.
Proof.
  intros [Hok Hw _ _] Ht. rewrite scan_log_recs by done. clear -Hw.
  induction Hw as [|r rs Hr Hw IH]; [done|]. by rewrite fmap_cons, Hr, IH.
Qed.

Lemma open_inv rs :
  wf_log rs -> Forall (fun r => lr_LSN r + 1 < two64)%N rs ->
  wal_inv (OpenManager (log_bytes rs)) rs rs [].
Proof.
  intros Hl Hb. unfold OpenManager, scanHighestLSN.
  rewrite <-(app_nil_r (log_bytes rs)), (scan_wf rs []) by (done || apply stops_nil).
  destruct (fold_max_spec rs 0) as (H1 & H2 & H3). set (m := fold_left _ rs 0%N) in *.
  assert (Hm : (m + 1 < two64)%N).
  { destruct H3 as [->|(r & Hr & <-)]; [done|]. rewrite Forall_forall in Hb. by apply Hb. }
  assert (Hu : u64_add m 1 = (m + 1)%N) by (by apply u64_add_small).
  split; cbn [w_file w_buf w_next w_flushed OpenManager]; rewrite ?app_nil_r; try done.
  - rewrite Hu. eapply Forall_impl; [done|]. simpl. lia.
  - rewrite Hu. lia.
  - rewrite Hu. lia.
Qed.

Lemma append_inv w h f b rec :
  wal_inv w h f b -> rec_ok (set_LSN rec (w_next w)) -> wire rec = rec ->
  (w_next w + 1 < two64)%N ->
  wal_inv (appendRecord w rec).1 (h ++ [set_LSN rec (w_next w)]) f (b ++ [set_LSN rec (w_next w)]).
Proof.
  intros [Hs Hf Hb [Hok Hw Hso Hp] Hn Hpos Hfl Hpe Hbd] Hr Hwi Hlt.
  assert (Hu : u64_add (w_next w) 1 = (w_next w + 1)%N) by (by apply u64_add_small).
  unfold appendRecord, assignLSN. cbn [fst]. split; cbn [bufferRecord w_file w_buf w_next w_flushed].
  - by rewrite Hs, app_assoc.
  - done.
  - rewrite Hb, log_bytes_app. f_equal. unfold log_bytes. simpl. by rewrite app_nil_r.
  - split.
    + apply Forall_app. split; [done|by constructor].
    + apply Forall_app. split; [done|]. constructor; [|done]. by rewrite wire_LSN, Hwi.
    + by apply StronglySorted_snoc.
    + apply Forall_app. split; [done|]. constructor; [simpl; lia|done].
  - rewrite Hu. apply Forall_app. split; [|constructor; [simpl; lia|done]].
    eapply Forall_impl; [done|]. simpl. lia.
  - rewrite Hu. lia.
  - done.
  - apply Forall_app. split; [done|]. constructor; [simpl; lia|done].
  - rewrite Hu. lia.
Qed.

Lemma flush_inv w h f b :
  wal_inv w h f b -> exists w', doFlush w IOok = Some w' /\ wal_inv w' h h [].
Proof.
  intros HI. pose proof HI as [Hs Hf Hb Hl Hn Hpos Hfl Hpe Hbd]. unfold doFlush. rewrite Hb.
  assert (Hbok : Forall rec_ok b).
  { destruct Hl as [Hok _ _ _]. rewrite Hs in Hok. by apply Forall_app in Hok as [_ ?]. }
  destruct (log_bytes b) as [|x bs] eqn:E.
  { exists w. split; [done|]. assert (b = []) as ->.
    { pose proof (log_bytes_length b) as Hlen. rewrite E in Hlen. destruct b; [done|simpl in Hlen; lia]. }
    rewrite app_nil_r in Hs. by subst f. }
  rewrite <-E, highestLSNInBytes_recs by done.
  destruct (fold_max_spec b 0) as (H1 & H2 & H3). set (m := fold_left _ b 0%N) in *.
  eexists. split; [done|]. split; cbn [w_file w_buf w_next w_flushed]; try done.
  - by rewrite app_nil_r.
  - by rewrite Hf, Hs, log_bytes_app.
  - rewrite Hs. apply Forall_app.
    destruct (N.ltb_spec (w_flushed w) m); split; try done.
    + eapply Forall_impl; [exact Hfl|]. simpl. lia.
    + eapply Forall_impl; [exact H2|]. simpl. lia.
  - destruct (N.ltb_spec (w_flushed w) m); [|done].
    destruct H3 as [->|(r & Hr & <-)]; [lia|]. rewrite Forall_forall in Hn. apply Hn.
    rewrite Hs. set_solver.
Qed.

Lemma wreach_inv w h : wreach w h -> exists f b, wal_inv w h f b.
Proof.
  induction 1 as [rs Hl Hb|w h rec Hw (f & b & IH) Hr Hwi Hlt|w h w' Hw (f & b & IH) Hfl].
  - exists rs, []. by apply open_inv.
  - exists f, (b ++ [set_LSN rec (w_next w)]). by apply append_inv.
  - destruct (flush_inv _ _ _ _ IH) as (w2 & He & HI). simplify_eq. eauto.
Qed.

(** ** Crashes *)

(** The file after a crash during a flush: a prefix of the pending bytes
    may have reached it. *)
Definition crash_image (w : WalMgr) (k : nat) : list byte := w_file w ++ take k (w_buf w).

Lemma take_log_bytes rs k :
  Forall rec_ok rs ->
  exists n tail, take k (log_bytes rs) = log_bytes (take n rs) ++ tail /\ stops tail.
Proof.
  intros Hok. revert k. induction Hok as [|r rs Hr Hok IH]; intros k.
  { exists 0, []. split; [by destruct k|apply stops_nil]. }
  change (log_bytes (r :: rs)) with (encodeRecord r ++ log_bytes rs).
  destruct (Nat.lt_ge_cases k (length (encodeRecord r))) as [Hlt|Hge].
  - exists 0, (take k (encodeRecord r)). rewrite take_app_le by lia. split; [done|].
    by apply stops_torn.
  - destruct (IH (k - length (encodeRecord r))) as (n & tail & He & Ht).
    exists (S n), tail. rewrite take_app_ge, He by done. simpl.
    change (log_bytes (r :: take n rs)) with (encodeRecord r ++ log_bytes (take n rs)).
    by rewrite app_assoc.
Qed.

Lemma wf_log_app r1 r2 : wf_log (r1 ++ r2) -> wf_log r1.
Proof.
  intros [Ho Hw Hs Hp]. apply Forall_app in Ho as [? _], Hw as [? _], Hp as [? _].
  split; try done. clear -Hs. induction r1 as [|r r1 IH]; [constructor|].
  simpl in Hs. apply StronglySorted_inv in Hs as [Hs Hf]. constructor; [by apply IH|].
  by apply Forall_app in Hf as [? _].
Qed.

Lemma crash_scan w h k :
  wreach w h ->
  exists h1 h2, h = h1 ++ h2 /\ scan_log (crash_image w k) = h1 /\ wf_log h1
    /\ forall r, r ∈ h -> (lr_LSN r <= w_flushed w)%N -> r ∈ h1.
Proof.
  intros (f & b & HI)%wreach_inv. pose proof HI as [Hs Hf Hb Hl Hn Hpos Hfl Hpe Hbd].
  assert (Hbok : Forall rec_ok b).
  { destruct Hl as [Hok _ _ _]. rewrite Hs in Hok. by apply Forall_app in Hok as [_ ?]. }
  destruct (take_log_bytes b k Hbok) as (n & tail & He & Ht).
  assert (Hl1 : wf_log (f ++ take n b)).
  { apply (wf_log_app _ (drop n b)). rewrite <-app_assoc, take_drop. by rewrite <-Hs. }
  exists (f ++ take n b), (drop n b). split_and!.
  - by rewrite <-app_assoc, take_drop.
  - unfold crash_image. rewrite Hf, Hb, He, app_assoc, <-log_bytes_app. by apply scan_wf.
  - done.
  - intros r Hr Hle. rewrite Hs in Hr. apply elem_of_app in Hr as [Hr|Hr]; [set_solver|].
    rewrite Forall_forall in Hpe. apply Hpe in Hr. lia.
Qed.
End Runs.

(** ** Recovery *)

Definition of_txn_rec (t : N) (r : LogRecord) : bool := (lr_TxnID r =? t)%N.

Definition is_terminal (r : LogRecord) : bool :=
  (lr_Type r =? RecordCommit)%N || (lr_Type r =? RecordAbort)%N.

Definition opens (r : LogRecord) : bool :=
  (lr_Type r =? RecordBegin)%N || (lr_Type r =? RecordWrite)%N || (lr_Type r =? RecordCLR)%N.

(** The last COMMIT or ABORT record of a transaction decides its outcome. *)
Definition outcome (rs : list LogRecord) (t : N) : option LogRecord :=
  last (List.filter (fun r => of_txn_rec t r && is_terminal r) rs).

Definition committed_in (rs : list LogRecord) (t : N) : bool :=
  match outcome rs t with
  | Some r => (lr_Type r =? RecordCommit)%N
  | None => false
  end.

(** Logs without checkpoints in which no transaction starts with its end. *)
Definition plain_log (rs : list LogRecord) : Prop :=
  Forall (fun r => 1 <= lr_Type r <= 5)%N rs
  /\ forall t r, head (List.filter (of_txn_rec t) rs) = Some r -> opens r = true.

(** What the analysis knows of one transaction after the records [rs]. *)
Definition att_spec (rs : list LogRecord) (t : N) (e : option ATTEntry) : Prop :=
  match e with
  | None => List.filter (of_txn_rec t) rs = []
  | Some e =>
      (exists r, r ∈ rs /\ lr_LSN r = att_FirstLSN e)
      /\ (forall r, r ∈ rs -> lr_TxnID r = t -> (att_FirstLSN e <= lr_LSN r)%N)
      /\ att_Status e = match outcome rs t with
                        | None => 0%N
                        | Some r => if (lr_Type r =? RecordCommit)%N then 1%N else 2%N
                        end
  end.

Lemma filter_snoc {A} (f : A -> bool) l x :
  List.filter f (l ++ [x]) = List.filter f l ++ (if f x then [x] else []).
Proof. rewrite List.filter_app. simpl. by destruct (f x). Qed.

Lemma outcome_snoc rs r t :
  outcome (rs ++ [r]) t
  = if of_txn_rec t r && is_terminal r then Some r else outcome rs t.
Proof.
  unfold outcome. rewrite filter_snoc. destruct (_ && _); [apply last_snoc|by rewrite app_nil_r].
Qed.

Lemma filter_nil_outcome rs t : List.filter (of_txn_rec t) rs = [] -> outcome rs t = None.
Proof.
  intros Hf. unfold outcome. replace (List.filter _ rs) with (@nil LogRecord); [done|].
  symmetry. induction rs as [|r rs IH]; [done|]. simpl in *.
  destruct (of_txn_rec t r); [done|]. simpl. by apply IH.
Qed.

Lemma plain_log_snoc rs r : plain_log (rs ++ [r]) ->
  plain_log rs /\ (1 <= lr_Type r <= 5)%N
  /\ (List.filter (of_txn_rec (lr_TxnID r)) rs = [] -> opens r = true).
Proof.
  intros [Ht Ho]. apply Forall_app in Ht as [Ht Hr]. apply Forall_cons in Hr as [Hr _].
  split_and!; try lia.
  - split; [done|]. intros t x Hx. apply (Ho t). rewrite filter_snoc.
    destruct (List.filter (of_txn_rec t) rs); simplify_eq/=. done.
  - intros He. apply (Ho (lr_TxnID r)). rewrite filter_snoc, He. unfold of_txn_rec.
    by rewrite N.eqb_refl.
Qed.

(** Records of other transactions do not change what is known of [t]. *)
Lemma att_spec_other rs r t e :
  lr_TxnID r <> t -> att_spec rs t e -> att_spec (rs ++ [r]) t e.
Proof.
  intros Hne. unfold att_spec. assert (Hf : of_txn_rec t r = false) by (by apply N.eqb_neq).
  destruct e as [e|].
  - intros ((x & Hx & Hl) & Hm & Hs). split_and!.
    + exists x. split; [set_solver|done].
    + intros y [Hy|Hy%list_elem_of_singleton]%elem_of_app Ht; [by apply Hm|congruence].
    + by rewrite outcome_snoc, Hf.
  - intros He. rewrite filter_snoc, Hf, He. done.
Qed.

(** One more record of [t]. *)
Lemma att_spec_same rs r e lsn st :
  att_spec rs (lr_TxnID r) (Some e) -> (forall x, x ∈ rs -> lsn_lt x r) ->
  st = (if is_terminal r then if (lr_Type r =? RecordCommit)%N then 1%N else 2%N
        else att_Status e) ->
  att_spec (rs ++ [r]) (lr_TxnID r) (Some (mkATT lsn (att_FirstLSN e) st)).
Proof.
  intros ((x & Hx & Hl) & Hm & Hs) Hlt ->. unfold att_spec. simpl. split_and!.
  - exists x. split; [set_solver|done].
  - intros y [Hy|Hy%list_elem_of_singleton]%elem_of_app Ht; [by apply Hm|]. subst y.
    specialize (Hlt _ Hx). unfold lsn_lt in Hlt. lia.
  - rewrite outcome_snoc. unfold of_txn_rec. rewrite N.eqb_refl. simpl.
    by destruct (is_terminal r).
Qed.

Lemma analysis_snoc rs r att :
  plain_log (rs ++ [r]) -> (forall x, x ∈ rs -> lsn_lt x r) ->
  (forall t, att_spec rs t (att !! t)) ->
  forall t, att_spec (rs ++ [r]) t (analysis_step att r !! t).
Proof.
  intros (_ & Hty & Hop)%plain_log_snoc Hlt Hatt t.
  pose proof (Hatt (lr_TxnID r)) as Hself. unfold analysis_step.
  destruct (att !! lr_TxnID r) as [e|] eqn:Ee.
  - assert (Hgo : forall st, st = (if is_terminal r then
        if (lr_Type r =? RecordCommit)%N then 1%N else 2%N else att_Status e) ->
      forall lsn, att_spec (rs ++ [r]) t (<[lr_TxnID r := mkATT lsn (att_FirstLSN e) st]> att !! t)).
    { intros st Hst lsn. destruct (decide (lr_TxnID r = t)) as [<-|Hne].
      - rewrite lookup_insert_eq. by apply att_spec_same.
      - rewrite lookup_insert_ne by done. by apply att_spec_other. }
    assert (Hkeep : is_terminal r = false -> att_spec (rs ++ [r]) t (att !! t)).
    { intros Hnt. destruct (decide (lr_TxnID r = t)) as [<-|Hne]; [|by apply att_spec_other].
      rewrite Ee. destruct e as [l f s]. apply (att_spec_same rs r (mkATT l f s)); [done|done|].
      by rewrite Hnt. }
    unfold is_terminal in *.
    destruct (N.eqb_spec (lr_Type r) RecordWrite) as [Hw|Hw].
    { apply Hgo. by rewrite Hw. }
    destruct (N.eqb_spec (lr_Type r) RecordCLR) as [Hc|Hc]; simpl.
    { apply Hgo. by rewrite Hc. }
    destruct (N.eqb_spec (lr_Type r) RecordCommit) as [Hm|Hm]; [by apply Hgo|].
    destruct (N.eqb_spec (lr_Type r) RecordAbort) as [Ha|Ha]; [by apply Hgo|by apply Hkeep].
  - specialize (Hop Hself). unfold opens in Hop. rewrite Hop.
    assert (Hnt : is_terminal r = false).
    { unfold is_terminal, RecordBegin, RecordWrite, RecordCLR, RecordCommit, RecordAbort in *.
      apply orb_false_iff. rewrite !N.eqb_neq. rewrite !orb_true_iff, !N.eqb_eq in Hop. lia. }
    destruct (decide (lr_TxnID r = t)) as [<-|Hne];
      [rewrite lookup_insert_eq|rewrite lookup_insert_ne by done; by apply att_spec_other].
    unfold att_spec. simpl. split_and!.
    + exists r. split; [set_solver|done].
    + intros y [Hy|Hy%list_elem_of_singleton]%elem_of_app Ht; [|subst; lia]. exfalso.
      assert (y ∈ List.filter (of_txn_rec (lr_TxnID r)) rs) as Hin.
      { apply list_elem_of_In, filter_In. split; [by apply list_elem_of_In|]. by apply N.eqb_eq. }
      rewrite Hself in Hin. by apply elem_of_nil in Hin.
    + rewrite outcome_snoc, Hnt, andb_false_r, filter_nil_outcome; done.
Qed.

Lemma sorted_snoc_inv rs r : StronglySorted lsn_lt (rs ++ [r]) ->
  StronglySorted lsn_lt rs /\ forall x, x ∈ rs -> lsn_lt x r.
Proof.
  induction rs as [|y rs IH]; simpl; [intros _; split; [constructor|by intros x ?%elem_of_nil]|].
  intros [Hs Hf]%StronglySorted_inv. destruct (IH Hs) as [H1 H2].
  apply Forall_app in Hf as [Hf Hr]. apply Forall_cons in Hr as [Hr _]. split; [by constructor|].
  intros x [->|Hx]%elem_of_cons; auto.
Qed.

Lemma analysis_spec rs :
  plain_log rs -> StronglySorted lsn_lt rs ->
  forall t, att_spec rs t (fold_left analysis_step rs ∅ !! t).
Proof.
  induction rs as [|r rs IH] using rev_ind; intros Hp Hs; [done|].
  destruct (sorted_snoc_inv _ _ Hs) as [Hs' Hlt]. rewrite fold_left_app. simpl.
  apply analysis_snoc; [done|done|]. apply IH; [|done]. by apply plain_log_snoc in Hp as [? _].
Qed.

Lemma redoStart_fold (es : list ATTEntry) m :
  (forall e, e ∈ es -> (1 <= att_FirstLSN e)%N) ->
  let s := fold_left (fun start (e : ATTEntry) =>
    if (start =? LSNInvalid)%N || (att_FirstLSN e <? start)%N then att_FirstLSN e else start) es m in
  (forall e, e ∈ es -> (s <= att_FirstLSN e)%N) /\ (m <> 0 -> s <= m /\ s <> 0)%N
  /\ (s = 0 -> es = [])%N.
Proof.
  revert m. induction es as [|e es IH]; intros m Hp; simpl.
  { split_and!; [set_solver|lia|done]. }
  assert (He : (1 <= att_FirstLSN e)%N) by (apply Hp; by left).
  set (m' := if (m =? LSNInvalid)%N || (att_FirstLSN e <? m)%N then att_FirstLSN e else m).
  destruct (IH m') as (H1 & H2 & H3); [intros x Hx; apply Hp; by right|].
  assert (Hm' : (m' <> 0 /\ m' <= att_FirstLSN e /\ (m <> 0 -> m' <= m))%N).
  { unfold m', LSNInvalid. destruct (N.eqb_spec m 0); simpl; [lia|].
    destruct (N.ltb_spec (att_FirstLSN e) m); lia. }
  destruct Hm' as (Hn & Hle & Hm). destruct (H2 Hn) as [H4 H5].
  split_and!.
  - intros x [->|Hx]%elem_of_cons; [lia|by apply H1].
  - intros Hm0. specialize (Hm Hm0). lia.
  - intros Hs. lia.
Qed.

Lemma filter_ge_all (rs : list LogRecord) n :
  (forall r, r ∈ rs -> (n <= lr_LSN r)%N) -> List.filter (fun r => n <=? lr_LSN r)%N rs = rs.
Proof.
  intros Hn. induction rs as [|r rs IH]; [done|]. simpl.
  rewrite (proj2 (N.leb_le n (lr_LSN r))) by (apply Hn; by left). f_equal. apply IH.
  intros x Hx. apply Hn. by right.
Qed.

Lemma filter_filter_sub {A} (f g : A -> bool) l :
  (forall x, x ∈ l -> f x = true -> g x = true) -> List.filter f (List.filter g l) = List.filter f l.
Proof.
  intros Hfg. induction l as [|x l IH]; [done|]. simpl.
  assert (IH' : List.filter f (List.filter g l) = List.filter f l)
    by (apply IH; intros y Hy; apply Hfg; by right).
  destruct (g x) eqn:Eg; simpl; [by rewrite IH'|].
  destruct (f x) eqn:Ef; [|done]. rewrite Hfg in Eg; [done|by left|done].
Qed.

Lemma filter_ext_elem {A} (f g : A -> bool) l :
  (forall x, x ∈ l -> f x = g x) -> List.filter f l = List.filter g l.
Proof.
  intros Hfg. induction l as [|x l IH]; [done|]. simpl. rewrite (Hfg x) by (by left).
  rewrite IH by (intros y Hy; apply Hfg; by right). done.
Qed.

Lemma checkpoint_none rs acc :
  Forall (fun r => 1 <= lr_Type r <= 5)%N rs -> fold_left checkpoint_step rs acc = acc.
Proof.
  induction 1 as [|r rs Hr Hrs IH]; [done|]. simpl.
  replace (checkpoint_step acc r) with acc; [done|].
  unfold checkpoint_step, RecordCheckpointBegin, RecordCheckpointEnd. destruct acc.
  destruct (N.eqb_spec (lr_Type r) 6); [lia|]. destruct (N.eqb_spec (lr_Type r) 7); [lia|done].
Qed.

Lemma with_status_spec s att t :
  t ∈ with_status s att <-> exists e, att !! t = Some e /\ att_Status e = s.
Proof.
  unfold with_status. rewrite elem_of_dom. split.
  - intros [e [Hl Hs]%map_lookup_filter_Some]. by exists e.
  - intros (e & Hl & Hs). exists e. by apply map_lookup_filter_Some.
Qed.

Section RecoveryProofs.
Context `{GobATT, !GobRoundTrip}.

Lemma recovery_records file rs :
  scan_log file = rs -> wf_log rs -> plain_log rs ->
  (forall t, t ∈ rr_Committed (RunRecovery file) <-> committed_in rs t = true)
  /\ rr_RedoOps (RunRecovery file)
     = redo_of <$> List.filter (fun r => (lr_Type r =? RecordWrite)%N && committed_in rs (lr_TxnID r)) rs.
Proof.
  intros Hscan [Hok Hw Hs Hpos] Hp. unfold RunRecovery, FindLastCheckpoint, readAllRecordsFrom.
  rewrite Hscan, checkpoint_none by apply Hp. cbn [cp_EndLSN cp_ATT negb N.eqb LSNInvalid].
  rewrite Forall_forall in Hpos. rewrite (filter_ge_all rs 1) by done.
  pose proof (analysis_spec rs Hp Hs) as Hatt. set (att := fold_left analysis_step rs ∅) in *.
  assert (Hc : forall t, match att !! t with Some e => (att_Status e =? 1)%N | None => false end
                         = committed_in rs t).
  { intros t. specialize (Hatt t). unfold att_spec, committed_in in *.
    destruct (att !! t) as [e|]; [|by rewrite filter_nil_outcome].
    destruct Hatt as (_ & _ & ->). destruct (outcome rs t) as [r|]; [|done].
    by destruct (lr_Type r =? RecordCommit)%N. }
  assert (Hfirst : forall e, e ∈ (map_to_list att).*2 -> (1 <= att_FirstLSN e)%N).
  { intros e ([t e'] & -> & Ht%elem_of_map_to_list)%list_elem_of_fmap. specialize (Hatt t).
    rewrite Ht in Hatt. destruct Hatt as ((r & Hr & He) & _). simpl. rewrite <-He. by apply Hpos. }
  destruct (redoStart_fold _ LSNInvalid Hfirst) as (H1 & _ & H3). fold (redoStart att) in *.
  cbn [rr_Committed rr_RedoOps]. split.
  - intros t. rewrite with_status_spec, <-Hc. destruct (att !! t) as [e|]; split.
    + intros (e' & [= <-] & ->). done.
    + intros He%N.eqb_eq. by exists e.
    + by intros (? & ? & _).
    + done.
  - assert (Hr : List.filter (is_redo att) rs = List.filter (fun r =>
        (lr_Type r =? RecordWrite)%N && committed_in rs (lr_TxnID r)) rs).
    { apply filter_ext_elem. intros r _. unfold is_redo. by rewrite Hc. }
    rewrite <-Hr. destruct (N.eqb_spec (redoStart att) LSNInvalid) as [He|He]; simpl.
    + assert (Hnil : att = ∅).
      { apply map_to_list_empty_iff. specialize (H3 He). by apply fmap_nil_inv in H3. }
      assert (Hf : forall l, List.filter (is_redo att) l = []); [|by rewrite Hf].
      intros l. induction l as [|r l IH]; [done|]. simpl. unfold is_redo at 1.
      by rewrite Hnil, lookup_empty, andb_false_r, <-Hnil.
    + f_equal. apply filter_filter_sub. intros r Hr' Hred. apply N.leb_le.
      unfold is_redo in Hred. apply andb_true_iff in Hred as [_ Hred].
      destruct (att !! lr_TxnID r) as [e|] eqn:Ee; [|done].
      transitivity (att_FirstLSN e).
      * apply H1, list_elem_of_fmap. exists (lr_TxnID r, e). split; [done|].
        by apply elem_of_map_to_list.
      * specialize (Hatt (lr_TxnID r)). rewrite Ee in Hatt. by apply Hatt.
Qed.
End RecoveryProofs.

Lemma plain_log_prefix h1 h2 : plain_log (h1 ++ h2) -> plain_log h1.
Proof.
  revert h1. induction h2 as [|r h2 IH] using rev_ind; intros h1; [by rewrite app_nil_r|].
  rewrite app_assoc. intros (? & _ & _)%plain_log_snoc. by apply IH.
Qed.

Lemma outcome_commit rs t c :
  c ∈ rs -> lr_TxnID c = t -> lr_Type c = RecordCommit ->
  (forall r, r ∈ rs -> lr_TxnID r = t -> lr_Type r <> RecordAbort) -> committed_in rs t = true.
Proof.
  intros Hc Ht Hty Hna. unfold committed_in, outcome.
  set (l := List.filter _ rs).
  assert (Hl : forall r, r ∈ l -> lr_Type r = RecordCommit).
  { intros r Hr. unfold l in Hr. apply list_elem_of_In, filter_In in Hr as [Hr Hb].
    apply andb_true_iff in Hb as [Hb1 Hb2]. apply N.eqb_eq in Hb1. unfold is_terminal in Hb2.
    apply list_elem_of_In in Hr. destruct (N.eqb_spec (lr_Type r) RecordCommit) as [?|?]; [done|].
    destruct (N.eqb_spec (lr_Type r) RecordAbort) as [He|?]; [|done].
    by destruct (Hna r Hr Hb1). }
  assert (Hin : c ∈ l).
  { apply list_elem_of_In, filter_In. split; [by apply list_elem_of_In|].
    unfold of_txn_rec, is_terminal. by rewrite Ht, Hty, N.eqb_refl. }
  destruct (last l) as [r|] eqn:El.
  - apply N.eqb_eq, Hl. by apply last_Some_elem_of.
  - apply last_None in El. rewrite El in Hin. by apply elem_of_nil in Hin.
Qed.

Lemma committed_in_elem rs t :
  committed_in rs t = true -> exists c, c ∈ rs /\ lr_TxnID c = t /\ lr_Type c = RecordCommit.
Proof.
  unfold committed_in, outcome. destruct (last _) as [r|] eqn:El; [|done]. intros Hr%N.eqb_eq.
  apply last_Some_elem_of, list_elem_of_In, filter_In in El as [Hin [Ht _]%andb_true_iff].
  exists r. split_and!; [by apply list_elem_of_In|by apply N.eqb_eq|done].
Qed.

(** ** Properties *)

(** Durability of the log: whatever was appended and however a crash
    cuts the flush in progress, the log reads back as a prefix of the
    appended records, and that prefix contains every record up to the
    flushed LSN, the point up to which [Flush] has returned. *)
Theorem wal_crash_durability `{GobRoundTrip} w h k :
  wreach w h ->
  exists h1 h2, h = h1 ++ h2 /\ scan_log (crash_image w k) = h1
    /\ forall r, r ∈ h -> Flush_done w (lr_LSN r) = true -> r ∈ h1.
Proof.
  intros Hr. destruct (crash_scan w h k Hr) as (h1 & h2 & He & Hs & _ & Hf).
  exists h1, h2. split_and!; [done|done|]. intros r Hin Hle%N.leb_le. by apply Hf.
Qed.


(** ** Redo on the catalog *)

Definition redo_hits (table key : string) (op : RedoOp) : Prop :=
  ro_Table op = table /\ ro_Key op = key.

Definition catalog_row (c : Catalog) (table key : string) : option Values :=
  Lookup c table ≫= fun t => t_rows t !! key.

Lemma apply_redo_other (c : Catalog) op table key :
  ~ redo_hits table key op -> catalog_row (apply_redo c op) table key = catalog_row c table key.
Proof.
  intros Hn. unfold redo_hits in Hn. unfold apply_redo, SetRow, ApplierDeleteRow, walStorageApplier.
  assert (Hins : forall tb', (forall tb, Lookup c (ro_Table op) = Some tb ->
      forall k, k <> ro_Key op -> t_rows tb' !! k = t_rows tb !! k) ->
    is_Some (Lookup c (ro_Table op)) ->
    catalog_row (<[ro_Table op := tb']> c) table key = catalog_row c table key).
  { intros tb' Htb' [tb Htb]. unfold catalog_row, Lookup in *.
    destruct (decide (ro_Table op = table)) as [<-|Hne].
    - rewrite lookup_insert_eq, Htb. simpl. apply Htb'; [done|]. intros ->. by apply Hn.
    - by rewrite lookup_insert_ne. }
  destruct (_ || _).
  - destruct (Lookup c (ro_Table op)) as [tb|] eqn:Htb; [|done].
    destruct (DecodeValues (ro_After op)); [|done]. apply Hins; [|by eexists].
    intros tb2 [= <-] k Hk. simpl. by rewrite lookup_insert_ne.
  - destruct (ro_Op op =? 2)%N; [|done].
    destruct (Lookup c (ro_Table op)) as [tb|] eqn:Htb; [|done]. apply Hins; [|by eexists].
    intros tb2 [= <-] k Hk. rewrite t_rows_DeleteRow. by rewrite lookup_delete_ne.
Qed.

Lemma apply_redo_dom (c : Catalog) op table :
  is_Some (Lookup (apply_redo c op) table) <-> is_Some (Lookup c table).
Proof.
  unfold apply_redo, SetRow, ApplierDeleteRow, walStorageApplier, Lookup.
  assert (Hi : forall tb tb', c !! ro_Table op = Some tb ->
    is_Some (<[ro_Table op := tb']> c !! table) <-> is_Some (c !! table)).
  { intros tb tb' Htb. destruct (decide (ro_Table op = table)) as [<-|?].
    - rewrite lookup_insert_eq, Htb. split; by eexists.
    - by rewrite lookup_insert_ne. }
  repeat case_match; try done; by eapply Hi.
Qed.

Lemma ApplyRedoOps_rows (ops : list RedoOp) (c : Catalog) table key :
  Forall (fun op => ~ redo_hits table key op) ops ->
  catalog_row (ApplyRedoOps ops c) table key = catalog_row c table key.
Proof.
  unfold ApplyRedoOps. intros Hf. revert c. induction Hf as [|op ops Hop Hf IH]; intros c; [done|].
  simpl. rewrite IH. by apply apply_redo_other.
Qed.

Lemma ApplyRedoOps_dom (ops : list RedoOp) (c : Catalog) table :
  is_Some (Lookup (ApplyRedoOps ops c) table) <-> is_Some (Lookup c table).
Proof.
  unfold ApplyRedoOps. revert c. induction ops as [|op ops IH]; intros c; [done|]. simpl.
  by rewrite IH, apply_redo_dom.
Qed.

Lemma ApplyRedoOps_app (pre post : list RedoOp) op (c : Catalog) :
  ApplyRedoOps (pre ++ op :: post) c = ApplyRedoOps post (apply_redo (ApplyRedoOps pre c) op).
Proof. unfold ApplyRedoOps. by rewrite fold_left_app. Qed.

(** Redo restores each row of a known table to what the last redone
    write to it left: the decoded after-image of an insert or update, no row
    after a delete; rows no operation touches keep their value. *)
Theorem ApplyRedoOps_last_writer (c : Catalog) pre op post table key :
  is_Some (Lookup c table) -> redo_hits table key op ->
  Forall (fun op => ~ redo_hits table key op) post ->
  (forall vals, (ro_Op op < 2)%N -> DecodeValues (ro_After op) = Ok vals ->
     catalog_row (ApplyRedoOps (pre ++ op :: post) c) table key = Some (Some vals))
  /\ (ro_Op op = 2%N -> catalog_row (ApplyRedoOps (pre ++ op :: post) c) table key = None)
  /\ (Forall (fun op => ~ redo_hits table key op) pre ->
      catalog_row (ApplyRedoOps pre c) table key = catalog_row c table key).
Proof.
  intros Hc [Ht Hk] Hpost. split_and!; [| |apply ApplyRedoOps_rows].
  - intros vals Hop Hd. rewrite ApplyRedoOps_app.
    rewrite (ApplyRedoOps_rows post) by done.
    destruct (proj2 (ApplyRedoOps_dom pre c table) Hc) as [tb Htb].
    unfold apply_redo. assert ((ro_Op op =? 0)%N || (ro_Op op =? 1)%N = true) as ->.
    { apply orb_true_iff. rewrite !N.eqb_eq. lia. }
    simpl. rewrite Ht, Hk, Htb, Hd. unfold catalog_row, Lookup. rewrite lookup_insert_eq. simpl.
    by rewrite lookup_insert_eq.
  - intros Hop. rewrite ApplyRedoOps_app.
    rewrite (ApplyRedoOps_rows post) by done.
    destruct (proj2 (ApplyRedoOps_dom pre c table) Hc) as [tb Htb].
    unfold apply_redo. rewrite Hop. simpl. rewrite Ht, Hk, Htb.
    unfold catalog_row, Lookup. rewrite lookup_insert_eq. simpl.
    by rewrite t_rows_DeleteRow, lookup_delete_eq.
Qed.

(** ** Where the promise of [Flush] breaks

    Evaluated with a concrete codec of the checkpoint table; no record of
    these runs uses it. *)

Notation openG := (@OpenManager gob_countable).
Notation appendG := (@appendRecord gob_countable).
Notation bufferG := (@bufferRecord gob_countable).
Notation flushG := (@doFlush gob_countable).
Notation scanG := (@scan_log gob_countable).

Definition flushed_or (w : WalMgr) (io : FlushIO) : WalMgr := default w (flushG w io).

(** Transaction 1 is assigned LSN 1; before it reaches the buffer,
    transaction 2 appends LSN 2 and the flusher runs; then transaction 1
    buffers its record and calls [Flush(1)]. *)
Definition early_run : WalMgr :=
  let (w, lsn) := assignLSN (openG []) in
  let w := (appendG w (commit_record 2 0)).1 in
  let w := flushed_or w IOok in
  bufferG w (set_LSN (commit_record 1 0) lsn).

(** The first flush fails, the next one succeeds. *)
Definition failed_run : WalMgr :=
  let w := (appendG (openG []) (commit_record 1 0)).1 in
  let w := flushed_or w (IOfail 0) in
  let w := (appendG w (commit_record 2 0)).1 in
  flushed_or w IOok.

(** The log ends in a torn record; it is reopened, appended to and flushed. *)
Definition torn_run : WalMgr :=
  let torn := take 20 (@encodeRecord gob_countable (set_LSN (commit_record 7 0) 1)) in
  let w := (appendG (openG torn) (commit_record 1 0)).1 in
  flushed_or w IOok.

(** [Flush(1)] reports LSN 1 durable although a crash at this point
    loses it, in three ways: the LSN is assigned before the record is in the
    buffer, so a flush of a later LSN covers it; a failed flush drops its
    bytes while a later successful one advances the flushed LSN past them;
    and a reopened log is appended to behind a torn record, which hides all
    that follows from the scan. *)
Theorem Flush_covers_lost_records :
  (Flush_done early_run 1 = true /\ scanG (w_file early_run) = [set_LSN (commit_record 2 0) 2])
  /\ (Flush_done failed_run 1 = true /\ scanG (w_file failed_run) = [set_LSN (commit_record 2 0) 2])
  /\ (Flush_done torn_run 1 = true /\ scanG (w_file torn_run) = []).
Proof. vm_compute. split_and!; reflexivity. Qed.

(** A run that commits one transaction. *)
Definition demo0 : WalMgr := openG [].
Definition demo1 : WalMgr := (appendG demo0 (write_record 5 0 0 "t" "k" [] [])).1.
Definition demo2 : WalMgr := (appendG demo1 (commit_record 5 1)).1.
Definition demo3 : WalMgr := flushed_or demo2 IOok.
Definition demo_hist : list LogRecord :=
  [set_LSN (write_record 5 0 0 "t" "k" [] []) 1; set_LSN (commit_record 5 1) 2].

Lemma small_rec_ok r :
  (1 <= lr_Type r <= 5)%N -> (lr_LSN r < 1000)%N -> (lr_TxnID r < 1000)%N ->
  (lr_PrevLSN r < 1000)%N -> (lr_UndoNextLSN r < 1000)%N -> lr_BeginLSN r = 0%N -> (lr_Op r < 256)%N ->
  String.length (lr_Table r) <= 10 -> String.length (lr_Key r) <= 10 -> lr_Timestamp r = 0%Z ->
  (N.of_nat (8 + length (@encode_payload gob_countable r)) < 4294967296)%N -> @rec_ok gob_countable r.
Proof.
  intros. split; try done; unfold two64, int64 in *; try lia.
Qed.

Lemma demo_reach : @wreach gob_countable demo3 demo_hist.
Proof.
  apply (@wr_flush gob_countable demo2); [|vm_compute; reflexivity].
  change demo_hist with ([set_LSN (write_record 5 0 0 "t" "k" [] []) 1]
                         ++ [set_LSN (commit_record 5 1) (w_next demo1)]).
  apply (@wr_append gob_countable); [| |reflexivity|vm_compute; reflexivity].
  - change [set_LSN (write_record 5 0 0 "t" "k" [] []) 1]
      with ([] ++ [set_LSN (write_record 5 0 0 "t" "k" [] []) (w_next demo0)]).
    apply (@wr_append gob_countable); [| |reflexivity|vm_compute; reflexivity].
    + apply (@wr_open gob_countable []); [|constructor]. split; constructor.
    + apply small_rec_ok; try (simpl; lia); vm_compute; try done; reflexivity.
  - apply small_rec_ok; try (simpl; lia); vm_compute; try done; reflexivity.
Qed.

Lemma demo_plain : plain_log demo_hist.
Proof.
  split; [repeat constructor; done|]. intros t r. unfold demo_hist, of_txn_rec.
  cbn [List.filter set_LSN lr_TxnID write_record commit_record].
  destruct (N.eqb_spec 5 t); [|done]. by intros [= <-].
Qed.

Lemma wal_crash_durability_witness :
  exists h1 h2, demo_hist = h1 ++ h2 /\ scanG (@crash_image demo3 0) = h1
    /\ set_LSN (commit_record 5 1) 2 ∈ h1.
Proof.
  destruct (@wal_crash_durability gob_countable gob_countable_roundtrip demo3 demo_hist 0 demo_reach)
    as (h1 & h2 & He & Hs & Hf).
  exists h1, h2. split; [exact He|]. split; [exact Hs|]. apply Hf; [|vm_compute; reflexivity].
  right. left.
Defined.


Lemma ApplyRedoOps_last_writer_witness :
  let c : Catalog := Register NewCatalog (NewTable "t" []) in
  let op := mkRedo 1 1 0 "t" "k" [x00; x00] in
  catalog_row (ApplyRedoOps ([op] ++ op :: []) c) "t" "k" = Some (Some []).
Proof.
  intros c op.
  apply (ApplyRedoOps_last_writer c [op] op [] "t" "k").
  - by eexists.
  - done.
  - constructor.
  - done.
  - vm_compute. reflexivity.
Defined.
