(* ===== verification/Pool.v ===== *)
(** * The buffer pool ([internal/storage/buffer_pool.go])

    A frame is an object with an identity: the pool's map, the LRU list and
    the callers hold references to it, and callers change its page in place
    ([set_page]). Elements of the LRU list have identities too. The log is
    reached through the interface [Flusher]. Page writes can fail, as the
    heap files say. The calls run one after the other: the code releases the
    pool's mutex during I/O, and calls of other goroutines inside such a
    window are not part of these runs. [None] is the panic of an overfull
    meta page. *)

From Stdlib Require Import ZArith NArith Lia Strings.Byte String.
From stdpp Require Import base tactics numbers list gmap strings sorting.
From S2P Require Import Prelude Types Storage WalRecord Page Heap.

(** flusherIface; [false] is an error. *)
Class Flusher (W : Type) := {
  fl_FlushedLSN : W -> N;
  fl_Flush : W -> N -> W * bool;
}.

Record Frame := mkFrame {
  fr_page : Page;
  fr_tableID : string;
  fr_dirty : bool;
  fr_pinCount : Z;
  fr_lruElem : option nat;
}.

Record BufferPool (W : Type) := mkPool {
  bp_frames : gmap (string * N) nat;
  bp_objs : gmap nat Frame;
  bp_lruList : list (nat * nat);
  bp_capacity : nat;
  bp_heaps : gmap string HeapFile;
  bp_flusher : option W;
  bp_next : nat;
}.
Arguments mkPool {W}. Arguments bp_frames {W}. Arguments bp_objs {W}. Arguments bp_lruList {W}.
Arguments bp_capacity {W}. Arguments bp_heaps {W}. Arguments bp_flusher {W}. Arguments bp_next {W}.

Inductive PoolError :=
| ErrAllFramesPinned
| ErrNoHeap (table : string)
| ErrHeap (e : HeapError)
| ErrWALFlush
| ErrPageWrite.

Definition set_pin (z : Z) (f : Frame) : Frame :=
  mkFrame (fr_page f) (fr_tableID f) (fr_dirty f) z (fr_lruElem f).
Definition set_lru (e : option nat) (f : Frame) : Frame :=
  mkFrame (fr_page f) (fr_tableID f) (fr_dirty f) (fr_pinCount f) e.
Definition set_dirty (d : bool) (f : Frame) : Frame :=
  mkFrame (fr_page f) (fr_tableID f) d (fr_pinCount f) (fr_lruElem f).
Definition set_fpage (p : Page) (f : Frame) : Frame :=
  mkFrame p (fr_tableID f) (fr_dirty f) (fr_pinCount f) (fr_lruElem f).

Section Pool.
Context {W : Type} `{Flusher W}.
Implicit Types b : BufferPool W.

Definition with_frames b (x : gmap (string * N) nat) : BufferPool W :=
  mkPool x (bp_objs b) (bp_lruList b) (bp_capacity b) (bp_heaps b) (bp_flusher b) (bp_next b).
Definition with_objs b (x : gmap nat Frame) : BufferPool W :=
  mkPool (bp_frames b) x (bp_lruList b) (bp_capacity b) (bp_heaps b) (bp_flusher b) (bp_next b).
Definition with_lruList b (x : list (nat * nat)) : BufferPool W :=
  mkPool (bp_frames b) (bp_objs b) x (bp_capacity b) (bp_heaps b) (bp_flusher b) (bp_next b).
Definition with_heaps b (x : gmap string HeapFile) : BufferPool W :=
  mkPool (bp_frames b) (bp_objs b) (bp_lruList b) (bp_capacity b) x (bp_flusher b) (bp_next b).
Definition with_flusher b (x : option W) : BufferPool W :=
  mkPool (bp_frames b) (bp_objs b) (bp_lruList b) (bp_capacity b) (bp_heaps b) x (bp_next b).
Definition with_next b (x : nat) : BufferPool W :=
  mkPool (bp_frames b) (bp_objs b) (bp_lruList b) (bp_capacity b) (bp_heaps b) (bp_flusher b) x.

Definition NewBufferPool (capacity : nat) (heaps : gmap string HeapFile) (flusher : option W) : BufferPool W :=
  mkPool ∅ ∅ [] capacity heaps flusher 0.

Definition upd_frame b (fid : nat) (g : Frame -> Frame) : BufferPool W := with_objs b (alter g fid (bp_objs b)).

(** The caller's write to [f.page]. *)
Definition set_page b (fid : nat) (p : Page) : BufferPool W := upd_frame b fid (set_fpage p).

Definition frame_page b (fid : nat) : option Page := fr_page <$> bp_objs b !! fid.

Definition totalFrames b : nat := size (bp_frames b).

(** The log up to [lsn], when it is not flushed that far; [false]: the
    flush failed. *)
Definition flush_wal b (lsn : N) : BufferPool W * bool :=
  match bp_flusher b with
  | None => (b, true)
  | Some w =>
      if (fl_FlushedLSN w <? lsn)%N then
        let (w, ok) := fl_Flush w lsn in (with_flusher b (Some w), ok)
      else (b, true)
  end.

(** The page goes to its file, when the table has one; [false]: the write
    or the sync failed. *)
Definition write_heap b (table : string) (p : Page) : BufferPool W * bool :=
  match bp_heaps b !! table with
  | None => (b, true)
  | Some h => let (h, ok) := WriteDurablePage h p in (with_heaps b (<[table := h]> (bp_heaps b)), ok)
  end.

(** The first element of the LRU list whose frame is not pinned. *)
Fixpoint find_victim (objs : gmap nat Frame) (l : list (nat * nat)) : option (nat * nat * Frame) :=
  match l with
  | [] => None
  | (e, fid) :: l =>
      match objs !! fid with
      | Some f => if (0 <? fr_pinCount f)%Z then find_victim objs l else Some (e, fid, f)
      | None => find_victim objs l
      end
  end.

Definition remove_elem (e : nat) (l : list (nat * nat)) : list (nat * nat) :=
  List.filter (fun x => negb (x.1 =? e)) l.

(** The three parts of [evictLocked]: the victim leaves the LRU list; a
    dirty one is written, the mutex being free meanwhile, and the errors of
    the flush and of the write are ignored; the frame leaves the map. *)
Definition evict_pick b : option (BufferPool W * Frame) :=
  match find_victim (bp_objs b) (bp_lruList b) with
  | None => None
  | Some (e, fid, f) =>
      Some (upd_frame (with_lruList b (remove_elem e (bp_lruList b))) fid (set_lru None), f)
  end.

Definition evict_write b (f : Frame) : BufferPool W :=
  if fr_dirty f then (write_heap (flush_wal b (pg_pageLSN (fr_page f))).1 (fr_tableID f) (fr_page f)).1 else b.

Definition evict_drop b (f : Frame) : BufferPool W :=
  with_frames b (delete (fr_tableID f, pg_id (fr_page f)) (bp_frames b)).

(** [false]: ErrAllFramesPinned. *)
Definition evictLocked b : BufferPool W * bool :=
  match evict_pick b with
  | None => (b, false)
  | Some (b, f) => (evict_drop (evict_write b f) f, true)
  end.

Definition Evict b : BufferPool W * bool := evictLocked b.

(** [for bp.totalFrames() >= bp.capacity]: each round takes an element off
    the LRU list. *)
Fixpoint evict_loop (fuel : nat) b : BufferPool W * bool :=
  if bp_capacity b <=? totalFrames b then
    match fuel with
    | O => (b, false)
    | S fuel =>
        match evictLocked b with
        | (b, false) => (b, false)
        | (b, true) => evict_loop fuel b
        end
    end
  else (b, true).

Definition make_room b : BufferPool W * bool := evict_loop (S (length (bp_lruList b))) b.

(** A page in the pool is pinned and leaves the LRU list. *)
Definition fetch_cached b (tableID : string) (pageID : N) : option (BufferPool W * nat) :=
  match bp_frames b !! (tableID, pageID) with
  | None => None
  | Some fid =>
      let elem := bp_objs b !! fid ≫= fr_lruElem in
      let b := upd_frame b fid (fun f => set_pin (fr_pinCount f + 1) f) in
      let b := match elem with
               | Some e => upd_frame (with_lruList b (remove_elem e (bp_lruList b))) fid (set_lru None)
               | None => b
               end in
      Some (b, fid)
  end.

(** A fresh frame, pinned once. *)
Definition add_frame b (tableID : string) (pageID : N) (p : Page) : BufferPool W * nat :=
  let fid := bp_next b in
  let b := with_objs b (<[fid := mkFrame p tableID false 1 None]> (bp_objs b)) in
  (with_next (with_frames b (<[(tableID, pageID) := fid]> (bp_frames b))) (S fid), fid).

Definition FetchPage b (tableID : string) (pageID : N) : BufferPool W * result PoolError nat :=
  match fetch_cached b tableID pageID with
  | Some (b, fid) => (b, Ok fid)
  | None =>
      match make_room b with
      | (b, false) => (b, Err ErrAllFramesPinned)
      | (b, true) =>
          match bp_heaps b !! tableID with
          | None => (b, Err (ErrNoHeap tableID))
          | Some heap =>
              match ReadPage heap pageID with
              | Err e => (b, Err (ErrHeap e))
              | Ok page =>
                  match fetch_cached b tableID pageID with
                  | Some (b, fid) => (b, Ok fid)
                  | None => let (b, fid) := add_frame b tableID pageID page in (b, Ok fid)
                  end
              end
          end
      end
  end.

Definition Pool_NewPage b (tableID : string) : option (BufferPool W * result PoolError (N * nat)) :=
  match bp_heaps b !! tableID with
  | None => Some (b, Err (ErrNoHeap tableID))
  | Some heap =>
      '(heap, pageID, err) ← AllocatePage heap;
      let b := with_heaps b (<[tableID := heap]> (bp_heaps b)) in
      match err with
      | Some e => Some (b, Err (ErrHeap e))
      | None =>
          match make_room b with
          | (b, false) => Some (b, Err ErrAllFramesPinned)
          | (b, true) => let (b, fid) := add_frame b tableID pageID (NewPage pageID) in Some (b, Ok (pageID, fid))
          end
      end
  end.

Definition UnpinPage b (tableID : string) (pageID : N) (dirty : bool) : BufferPool W :=
  match bp_frames b !! (tableID, pageID) with
  | None => b
  | Some fid =>
      let b := if dirty then upd_frame b fid (set_dirty true) else b in
      let pin := default 0%Z (fr_pinCount <$> bp_objs b !! fid) in
      let b := upd_frame b fid (set_pin (pin - 1)) in
      if (pin - 1 <=? 0)%Z then
        let e := bp_next b in
        with_next (upd_frame (with_lruList b (bp_lruList b ++ [(e, fid)])) fid (set_lru (Some e))) (S e)
      else b
  end.

Definition FlushPage b (tableID : string) (pageID : N) : BufferPool W * option PoolError :=
  match bp_frames b !! (tableID, pageID) ≫= fun fid => (fun f => (fid, f)) <$> bp_objs b !! fid with
  | None => (b, None)
  | Some (fid, f) =>
      if negb (fr_dirty f) then (b, None)
      else
        match flush_wal b (pg_pageLSN (fr_page f)) with
        | (b, false) => (b, Some ErrWALFlush)
        | (b, true) =>
            match bp_heaps b !! tableID with
            | None => (b, Some (ErrNoHeap tableID))
            | Some _ =>
                match write_heap b tableID (fr_page f) with
                | (b, false) => (b, Some ErrPageWrite)
                | (b, true) => (upd_frame b fid (set_dirty false), None)
                end
            end
        end
  end.

(** The dirty pages with their LSNs. Go's map order is unspecified, and so
    is the order of pages with equal LSNs; here it is that of the map. *)
Definition dirty_pages b : list (string * N * N) :=
  omap (fun '(x, fid) =>
          match bp_objs b !! fid with
          | Some f => if fr_dirty f then Some (x, pg_pageLSN (fr_page f)) else None
          | None => None
          end) (map_to_list (bp_frames b)).

Definition lsn_le (x y : string * N * N) : Prop := (x.2 <= y.2)%N.
#[global] Instance lsn_le_dec : RelDecision lsn_le.
Proof. intros x y. unfold lsn_le. apply _. Defined.

Fixpoint flush_loop b (l : list (string * N * N)) : BufferPool W * option PoolError :=
  match l with
  | [] => (b, None)
  | (tableID, pageID, _) :: l =>
      match FlushPage b tableID pageID with
      | (b, Some e) => (b, Some e)
      | (b, None) => flush_loop b l
      end
  end.

Definition FlushAllDirty b : BufferPool W * option PoolError := flush_loop b (merge_sort lsn_le (dirty_pages b)).
End Pool.
