(* ===== verification/PoolInv.v ===== *)
(** * The buffer pool is transparent

    What a table's page holds is its frame's page when the pool has it and
    the file's otherwise ([page_of]). Fetching, unpinning, flushing and
    evicting pages, in any order, leave that unchanged; only a caller's write
    to a pinned frame and the allocation of a page change it. And a page
    reaches the file only after the log has been flushed up to its LSN, when
    the flush succeeds. *)

From Stdlib Require Import ZArith NArith Lia Strings.Byte String.
From stdpp Require Import base tactics numbers list gmap strings sorting.
From S2P Require Import Prelude Types Storage WalRecord Page Heap Wal Pool.

(** ** Heap files in order *)

(** As every step leaves them when no write fails, and with none failing
    later. *)
Record heap_ok (h : HeapFile) : Prop := {
  hk_io : hf_io h = [];
  hk_len : blen (hf_file h) = ((hf_lastPageID h + 1) * PageSize)%N;
  hk_meta : forall p, ReadPage h 0 <> Ok p;
  hk_pages : forall id, (1 <= id <= hf_lastPageID h)%N ->
    exists p, ReadPage h id = Ok p /\ page_wf p /\ pg_id p = id;
}.

Lemma heap_ok_read h id p :
  heap_ok h -> ReadPage h id = Ok p -> (1 <= id <= hf_lastPageID h)%N /\ page_wf p /\ pg_id p = id.
Proof.
  intros [_ K1 K2 K3] Hr. pose proof (ReadPage_within h id p Hr) as Hw. rewrite K1 in Hw.
  assert (Hid : (1 <= id <= hf_lastPageID h)%N).
  { destruct (N.eq_dec id 0%N) as [->|Hne]; [by apply K2 in Hr|]. unfold PageSize in Hw. lia. }
  split; [done|]. destruct (K3 id Hid) as (q & Hq & Hwf & Hqi). rewrite Hr in Hq. injection Hq as <-. done.
Qed.

Lemma ReadPage_cong h f id :
  ReadAt (id * PageSize) PageSize f = ReadAt (id * PageSize) PageSize (hf_file h) ->
  ReadPage (with_file h f) id = ReadPage h id.
Proof. unfold ReadPage. cbn [hf_file with_file]. by intros ->. Qed.

Lemma ReadPage_put_page_ne h p id :
  heap_ok h -> page_wf p -> (pg_id p <= hf_lastPageID h)%N -> id <> pg_id p ->
  ReadPage (put_page h p) id = ReadPage h id.
Proof.
  intros HK Hp Hr Hne. rewrite put_page_wf by done. apply ReadPage_cong. pose proof (hk_len h HK) as Hl.
  pose proof (page_wf_len p Hp) as Hd.
  destruct (N.le_gt_cases (id * PageSize + PageSize) (blen (hf_file h))) as [Hin|Hout].
  - apply ReadAt_WriteAt_other; [done|]. rewrite Hd. unfold PageSize. lia.
  - unfold ReadAt, sub_checked. rewrite blen_WriteAt, Hd.
    rewrite !(proj2 (N.leb_gt _ _)); [done|done|]. unfold PageSize in *. lia.
Qed.

Lemma heap_ok_put_page h p :
  heap_ok h -> page_wf p -> (1 <= pg_id p <= hf_lastPageID h)%N -> heap_ok (put_page h p).
Proof.
  intros HK Hp Hr. assert (Hl : hf_lastPageID (put_page h p) = hf_lastPageID h) by (by rewrite put_page_wf).
  split.
  - rewrite put_page_io. apply HK.
  - rewrite Hl, put_page_wf by done. cbn [hf_file with_file]. rewrite blen_WriteAt, (page_wf_len p Hp), (hk_len h HK).
    unfold PageSize. lia.
  - intros q. rewrite ReadPage_put_page_ne by (done || lia). apply (hk_meta h HK).
  - rewrite Hl. intros id Hid. destruct (N.eq_dec id (pg_id p)) as [->|Hne].
    + exists p. by rewrite ReadPage_put_page.
    + rewrite ReadPage_put_page_ne by (done || lia). by apply (hk_pages h HK).
Qed.

(** The meta page is not a page: its header is zero, its checksum is not. *)
Lemma meta_not_page h h' : put_meta h = Some h' -> forall p, ReadPage h' 0 <> Ok p.
Proof.
  unfold put_meta, meta_page. destruct (meta_area h) as [d|] eqn:Hd; [|done]. intros Hw p.
  cbn [mbind option_bind] in Hw. apply (inj Some) in Hw as <-.
  destruct (N.le_gt_cases (meta_size h) MetaRoom) as [Hfit|Hbig].
  2: { pose proof (put_meta_panics h Hbig) as Hn. unfold put_meta in Hn. by rewrite Hd in Hn. }
  destruct (meta_area_fields h d Hd Hfit) as [Hl _]. set (z := replicate (N.to_nat PageHeaderSize) x00).
  assert (Hraw : blen (z ++ d) = PageSize) by (rewrite blen_app, Hl; reflexivity).
  unfold ReadPage. cbn [hf_file with_file]. rewrite <-Hraw at 2. change (0 * PageSize)%N with 0%N.
  rewrite ReadAt_WriteAt. unfold Deserialize, computeHeaderCRC. cbn [pg_data loadHeader].
  assert (Hc : le_get (sub 20 4 (z ++ d)) = 0%N) by reflexivity.
  assert (Ht : take 20 (z ++ d) = replicate 20 x00) by reflexivity.
  rewrite Hc, Ht. by vm_compute.
Qed.

Lemma put_meta_keeps h h' :
  put_meta h = Some h' -> (PageSize <= blen (hf_file h))%N ->
  blen (hf_file h') = blen (hf_file h) /\ hf_lastPageID h' = hf_lastPageID h /\ hf_freeList h' = hf_freeList h
  /\ forall id, (1 <= id)%N -> ReadPage h' id = ReadPage h id.
Proof.
  unfold put_meta, meta_page. destruct (meta_area h) as [d|] eqn:Hd; [|done]. intros Hw Hlen.
  cbn [mbind option_bind] in Hw. apply (inj Some) in Hw as <-. cbn [hf_file hf_lastPageID hf_freeList with_file].
  destruct (N.le_gt_cases (meta_size h) MetaRoom) as [Hfit|Hbig].
  2: { pose proof (put_meta_panics h Hbig) as Hn. unfold put_meta in Hn. by rewrite Hd in Hn. }
  destruct (meta_area_fields h d Hd Hfit) as [Hl _]. set (z := replicate (N.to_nat PageHeaderSize) x00).
  assert (Hraw : blen (z ++ d) = PageSize) by (rewrite blen_app, Hl; reflexivity).
  split; [rewrite blen_WriteAt, Hraw; lia|]. split; [done|]. split; [done|].
  intros id Hid. apply ReadPage_cong.
  destruct (N.le_gt_cases (id * PageSize + PageSize) (blen (hf_file h))) as [Hin|Hout].
  - apply ReadAt_WriteAt_other; [done|]. rewrite Hraw. unfold PageSize. lia.
  - unfold ReadAt, sub_checked. rewrite blen_WriteAt, Hraw. rewrite !(proj2 (N.leb_gt _ _)); [done|done|lia].
Qed.

Lemma put_new_page_ok h h' id :
  heap_ok h -> (hf_lastPageID h + 1 < two64)%N -> put_new_page h = Some (h', id) ->
  id = (hf_lastPageID h + 1)%N /\ heap_ok h' /\ hf_lastPageID h' = id /\ hf_freeList h' = hf_freeList h
  /\ ReadPage h' id = Ok (NewPage id) /\ forall j, j <> id -> (1 <= j)%N -> ReadPage h' j = ReadPage h j.
Proof.
  intros HK Hw. unfold put_new_page. rewrite u64_add_small by done. set (nid := (hf_lastPageID h + 1)%N).
  set (h1 := with_lastPageID h nid). set (h2 := put_page h1 (NewPage nid)).
  destruct (put_meta h2) as [h3|] eqn:Hm; [|done]. cbn [mbind option_bind]. intros Heq. apply (inj Some) in Heq as [= <- <-].
  pose proof (page_wf_NewPage nid Hw) as Hp. assert (Hpid : pg_id (NewPage nid) = nid) by done.
  assert (Hlen2 : blen (hf_file h2) = ((nid + 1) * PageSize)%N).
  { unfold h2. rewrite put_page_wf by done. cbn [hf_file with_file with_lastPageID h1].
    rewrite blen_WriteAt, (page_wf_len _ Hp), (hk_len h HK), Hpid. fold nid. unfold PageSize. lia. }
  destruct (put_meta_keeps h2 h3 Hm) as (E1 & E2 & E3 & E4); [rewrite Hlen2; unfold PageSize; lia|].
  assert (Hl2 : hf_lastPageID h2 = nid /\ hf_freeList h2 = hf_freeList h) by (unfold h2; by rewrite put_page_wf).
  destruct Hl2 as [Hl2 Hf2].
  assert (Hnew : ReadPage h3 nid = Ok (NewPage nid)).
  { rewrite E4 by (unfold nid; lia). unfold h2. rewrite <-Hpid at 2. by apply ReadPage_put_page. }
  assert (Hold : forall j, j <> nid -> (1 <= j)%N -> ReadPage h3 j = ReadPage h j).
  { intros j Hj H1. rewrite E4 by done. unfold h2. rewrite put_page_wf by done. rewrite Hpid.
    transitivity (ReadPage h1 j); [|done]. apply ReadPage_cong.
    change (hf_file h1) with (hf_file h). pose proof (hk_len h HK) as Hl.
    destruct (N.le_gt_cases (j * PageSize + PageSize) (blen (hf_file h))) as [Hin|Hout].
    - apply ReadAt_WriteAt_other; [done|]. rewrite (page_wf_len _ Hp). unfold PageSize. lia.
    - unfold ReadAt, sub_checked. rewrite blen_WriteAt, (page_wf_len _ Hp), Hl.
      rewrite !(proj2 (N.leb_gt _ _)); [done|fold nid; unfold PageSize in *; lia..]. }
  split_and!; [done| |congruence|congruence|done|done]. split.
  - rewrite (put_meta_io _ _ Hm). unfold h2. rewrite put_page_io. apply HK.
  - by rewrite E1, E2, Hlen2, Hl2.
  - by apply (meta_not_page h2).
  - rewrite E2, Hl2. intros j Hj. destruct (N.eq_dec j nid) as [->|Hne]; [by eexists|].
    rewrite Hold by (done || lia). apply (hk_pages h HK). unfold nid in *. lia.
Qed.

(** ** The invariant of the pool *)

Section Inv.
Context {W : Type} `{Flusher W}.
Implicit Types b : BufferPool W.

Definition disk_of b (x : string * N) : option Page :=
  match bp_heaps b !! x.1 with
  | Some h => match ReadPage h x.2 with Ok p => Some p | Err _ => None end
  | None => None
  end.

Definition page_of b (x : string * N) : option Page :=
  match bp_frames b !! x with
  | Some fid => frame_page b fid
  | None => disk_of b x
  end.

Definition in_file b (x : string * N) : Prop :=
  exists h, bp_heaps b !! x.1 = Some h /\ (1 <= x.2 <= hf_lastPageID h)%N.

Record frame_ok b (x : string * N) (fid : nat) (f : Frame) : Prop := {
  fo_key : (fr_tableID f, pg_id (fr_page f)) = x;
  fo_wf : page_wf (fr_page f);
  fo_lru : match fr_lruElem f with
           | Some e => fr_pinCount f = 0%Z /\ (e, fid) ∈ bp_lruList b
           | None => (0 < fr_pinCount f)%Z
           end;
  fo_file : in_file b x;
  fo_clean : fr_dirty f = false -> fr_pinCount f = 0%Z -> disk_of b x = Some (fr_page f);
}.

Record pool_ok b : Prop := {
  po_frames : forall x fid, bp_frames b !! x = Some fid -> exists f, bp_objs b !! fid = Some f /\ frame_ok b x fid f;
  po_lru : forall e fid, (e, fid) ∈ bp_lruList b -> exists f, bp_objs b !! fid = Some f /\ fr_lruElem f = Some e
             /\ bp_frames b !! (fr_tableID f, pg_id (fr_page f)) = Some fid;
  po_elems : NoDup (bp_lruList b).*1;
  po_heaps : forall t h, bp_heaps b !! t = Some h -> heap_ok h;
  po_objs : forall fid, is_Some (bp_objs b !! fid) -> fid < bp_next b;
  po_fresh : forall e fid, (e, fid) ∈ bp_lruList b -> e < bp_next b;
}.

(** Different keys have different frames. *)
Lemma frames_inj b x y fid : pool_ok b -> bp_frames b !! x = Some fid -> bp_frames b !! y = Some fid -> x = y.
Proof.
  intros HP Hx Hy. destruct (po_frames b HP x fid Hx) as (f & Hf & [Kx _ _ _ _]).
  destruct (po_frames b HP y fid Hy) as (f' & Hf' & [Ky _ _ _ _]). rewrite Hf in Hf'. injection Hf' as <-. congruence.
Qed.

Lemma lru_inj b e fid fid' : pool_ok b -> (e, fid) ∈ bp_lruList b -> (e, fid') ∈ bp_lruList b -> fid = fid'.
Proof.
  intros HP H1 H2. pose proof (po_elems b HP) as Hnd. revert H1 H2 Hnd. generalize (bp_lruList b) as l.
  induction l as [|[e' g] l IH]; intros H1 H2 Hnd; [by apply elem_of_nil in H1|].
  apply NoDup_cons in Hnd as [Hn Hnd]. cbn [fst fmap list_fmap] in Hn.
  apply elem_of_cons in H1 as [E1|H1]; apply elem_of_cons in H2 as [E2|H2]; simplify_eq; try done.
  - exfalso. apply Hn. by apply (list_elem_of_fmap_2 fst) in H2.
  - exfalso. apply Hn. by apply (list_elem_of_fmap_2 fst) in H1.
  - by apply IH.
Qed.

Lemma elem_of_remove_elem e x l : x ∈ remove_elem e l <-> x ∈ l /\ x.1 <> e.
Proof.
  unfold remove_elem. rewrite !list_elem_of_In, List.filter_In, negb_true_iff, Nat.eqb_neq. done.
Qed.

Lemma NoDup_remove_elem e l : NoDup l.*1 -> NoDup (remove_elem e l).*1.
Proof.
  induction l as [|[e' g] l IH]; [done|]. intros [Hn Hnd]%NoDup_cons. unfold remove_elem. cbn [List.filter fst].
  destruct (negb (e' =? e)); [|by apply IH]. rewrite fmap_cons. apply NoDup_cons. split; [|by apply IH].
  intros Hin. apply Hn. apply list_elem_of_fmap in Hin as (y & -> & Hy). apply list_elem_of_fmap.
  exists y. split; [done|]. by apply (elem_of_remove_elem e y l) in Hy as [? _].
Qed.

(** A step that changes one frame object, the LRU list and nothing else. *)
Lemma pool_ok_frame b b' x fid f f' :
  pool_ok b -> bp_frames b !! x = Some fid -> bp_objs b !! fid = Some f ->
  bp_frames b' = bp_frames b -> bp_heaps b' = bp_heaps b -> bp_objs b' = <[fid := f']> (bp_objs b) ->
  bp_next b <= bp_next b' -> NoDup (bp_lruList b').*1 ->
  (forall e g, g <> fid -> (e, g) ∈ bp_lruList b' <-> (e, g) ∈ bp_lruList b) ->
  (forall e, (e, fid) ∈ bp_lruList b' -> fr_lruElem f' = Some e) ->
  (forall e g, (e, g) ∈ bp_lruList b' -> e < bp_next b') ->
  frame_ok b' x fid f' -> pool_ok b'.
Proof.
  intros HP Hx Hf E1 E2 E3 Hn Hnd Hlru Hown Hfresh Hok. split; rewrite ?E1, ?E2; try done.
  - intros y g Hy. destruct (decide (g = fid)) as [->|Hne].
    + pose proof (frames_inj b x y fid HP Hx Hy) as <-. exists f'. by rewrite E3, lookup_insert_eq.
    + destruct (po_frames b HP y g Hy) as (fg & Hfg & [K1 K2 K3 K4 K5]). exists fg.
      rewrite E3, lookup_insert_ne by done. split; [done|]. split; try done.
      * destruct (fr_lruElem fg) as [e|]; [|done]. by rewrite Hlru.
      * unfold in_file in *. by rewrite E2.
      * intros Hd Hz. specialize (K5 Hd Hz). unfold disk_of in *. by rewrite E2.
  - intros e g Hg. destruct (decide (g = fid)) as [->|Hne].
    + exists f'. rewrite E3, lookup_insert_eq. split; [done|]. split; [by apply Hown|].
      by rewrite (fo_key _ _ _ _ Hok).
    + rewrite Hlru in Hg by done. destruct (po_lru b HP e g Hg) as (fg & Hfg & He & Hfr). exists fg.
      by rewrite E3, lookup_insert_ne.
  - apply (po_heaps b HP).
  - intros g Hg. rewrite E3, lookup_insert_is_Some in Hg. destruct Hg as [<-|[_ Hg]].
    + pose proof (po_objs b HP fid (ex_intro _ f Hf)). lia.
    + pose proof (po_objs b HP g Hg). lia.
Qed.

Lemma page_of_frame b b' x fid f f' :
  pool_ok b -> bp_frames b !! x = Some fid -> bp_objs b !! fid = Some f ->
  bp_frames b' = bp_frames b -> bp_heaps b' = bp_heaps b -> bp_objs b' = <[fid := f']> (bp_objs b) ->
  fr_page f' = fr_page f -> forall y, page_of b' y = page_of b y.
Proof.
  intros HP Hx Hf E1 E2 E3 Hpg y. unfold page_of, disk_of, frame_page. rewrite E1, E2.
  destruct (bp_frames b !! y) as [g|]; [|done]. rewrite E3. destruct (decide (g = fid)) as [->|Hne].
  - rewrite lookup_insert_eq, Hf. simpl. by rewrite Hpg.
  - by rewrite lookup_insert_ne.
Qed.

(** ** Fetching a page in the pool *)

Lemma alter_Some {A} (g : A -> A) (m : gmap nat A) i x : m !! i = Some x -> alter g i m = <[i := g x]> m.
Proof.
  intros Hi. apply map_eq. intros j. destruct (decide (j = i)) as [->|Hne].
  - by rewrite lookup_alter_eq, lookup_insert_eq, Hi.
  - by rewrite lookup_alter_ne, lookup_insert_ne.
Qed.

Lemma fetch_cached_shape b t pid b' fid :
  pool_ok b -> fetch_cached b t pid = Some (b', fid) ->
  exists f, bp_frames b !! (t, pid) = Some fid /\ bp_objs b !! fid = Some f
    /\ b' = with_lruList (with_objs b (<[fid := set_lru None (set_pin (fr_pinCount f + 1) f)]> (bp_objs b)))
              (match fr_lruElem f with Some e => remove_elem e (bp_lruList b) | None => bp_lruList b end).
Proof.
  intros HP. unfold fetch_cached. destruct (bp_frames b !! (t, pid)) as [g|] eqn:Hx; [|done].
  destruct (po_frames b HP _ _ Hx) as (f & Hf & HO). rewrite Hf. cbn [mbind option_bind].
  set (f1 := set_pin (fr_pinCount f + 1) f). intros Heq. exists f.
  destruct (fr_lruElem f) as [e|] eqn:He; injection Heq as <- <-; (split; [done|]; split; [done|]);
    unfold upd_frame, with_objs, with_lruList; simpl; rewrite (alter_Some _ _ _ _ Hf); f_equal.
  - rewrite (alter_Some (set_lru None) _ _ f1) by (by rewrite lookup_insert_eq). by rewrite insert_insert_eq.
  - unfold f1, set_lru, set_pin. simpl. by rewrite He.
Qed.

Lemma fetch_cached_ok b t pid b' fid :
  pool_ok b -> fetch_cached b t pid = Some (b', fid) ->
  pool_ok b' /\ (forall y, page_of b' y = page_of b y) /\ bp_frames b' !! (t, pid) = Some fid
  /\ bp_frames b' = bp_frames b /\ bp_heaps b' = bp_heaps b.
Proof.
  intros HP Hc. destruct (fetch_cached_shape b t pid b' fid HP Hc) as (f & Hx & Hf & ->).
  destruct (po_frames b HP _ _ Hx) as (f0 & Hf0 & HO). rewrite Hf in Hf0. injection Hf0 as <-.
  set (f' := set_lru None _).
  assert (Hown : forall e, fr_lruElem f <> Some e -> (e, fid) ∉ bp_lruList b).
  { intros e Hne Hin. destruct (po_lru b HP e fid Hin) as (f2 & Hf2 & He & _). rewrite Hf in Hf2. injection Hf2 as <-. done. }
  split; [|split; [by apply (page_of_frame b _ (t, pid) fid f f')|done]].
  apply (pool_ok_frame b _ (t, pid) fid f f'); try done.
  - simpl. destruct (fr_lruElem f); [apply NoDup_remove_elem|]; apply (po_elems b HP).
  - intros e h Hne. simpl. destruct (fr_lruElem f) as [e0|] eqn:He; [|done]. rewrite elem_of_remove_elem. simpl.
    split; [by intros [? _]|]. intros Hin. split; [done|]. intros ->.
    destruct HO as [_ _ Hl _ _]. rewrite He in Hl. destruct Hl as [_ Hl]. by apply Hne, (lru_inj b e0 h fid HP).
  - intros e Hin. simpl in Hin. exfalso. destruct (fr_lruElem f) as [e0|] eqn:He.
    + apply elem_of_remove_elem in Hin as [Hin Hne]. simpl in Hne. apply (Hown e); [congruence|done].
    + by apply (Hown e).
  - intros e h Hin. simpl in Hin |- *. apply (po_fresh b HP e h). destruct (fr_lruElem f); [|done].
    by apply elem_of_remove_elem in Hin as [? _].
  - destruct HO as [K1 K2 K3 K4 K5].
    assert (Hp : (0 < fr_pinCount f + 1)%Z) by (destruct (fr_lruElem f); [destruct K3|]; lia).
    split; try done. simpl. lia.
Qed.

(** ** Unpinning *)

Definition pinned b (x : string * N) : Prop :=
  exists fid f, bp_frames b !! x = Some fid /\ bp_objs b !! fid = Some f /\ (0 < fr_pinCount f)%Z.

(** An unpin that does not mark the page dirty must not be the last one of
    a page that differs from the file's. *)
Definition may_unpin b (x : string * N) (dirty : bool) : Prop :=
  exists fid f, bp_frames b !! x = Some fid /\ bp_objs b !! fid = Some f /\ (0 < fr_pinCount f)%Z
    /\ (dirty || fr_dirty f = true \/ (1 < fr_pinCount f)%Z \/ disk_of b x = Some (fr_page f)).

(** What an unpin of a pinned page leaves. *)
Definition unpinned b (fid : nat) (f : Frame) (dirty : bool) : BufferPool W :=
  let last := (fr_pinCount f - 1 <=? 0)%Z in
  let f' := mkFrame (fr_page f) (fr_tableID f) (dirty || fr_dirty f) (fr_pinCount f - 1) (if last then Some (bp_next b) else None) in
  mkPool (bp_frames b) (<[fid := f']> (bp_objs b))
    (if last then bp_lruList b ++ [(bp_next b, fid)] else bp_lruList b)
    (bp_capacity b) (bp_heaps b) (bp_flusher b) (if last then S (bp_next b) else bp_next b).

Lemma UnpinPage_shape b t pid dirty fid f :
  pool_ok b -> bp_frames b !! (t, pid) = Some fid -> bp_objs b !! fid = Some f -> (0 < fr_pinCount f)%Z ->
  fr_lruElem f = None /\ UnpinPage b t pid dirty = unpinned b fid f dirty.
Proof.
  intros HP Hx Hf Hpin. destruct (po_frames b HP _ _ Hx) as (f0 & Hf0 & [_ _ K3 _ _]).
  rewrite Hf in Hf0. injection Hf0 as <-.
  assert (He : fr_lruElem f = None) by (destruct (fr_lruElem f); [lia|done]). split; [done|].
  unfold UnpinPage, unpinned. rewrite Hx.
  destruct dirty; unfold upd_frame, with_objs, with_lruList, with_next; simpl;
    rewrite ?(alter_Some _ _ _ _ Hf), ?lookup_insert_eq, ?Hf; simpl; destruct (_ <=? 0)%Z; f_equal;
    rewrite ?(alter_Some _ _ _ _ (lookup_insert_eq _ _ _)), ?insert_insert_eq, ?(alter_Some _ _ _ _ Hf);
    rewrite ?(alter_Some _ _ _ _ (lookup_insert_eq _ _ _)), ?insert_insert_eq; unfold set_pin, set_dirty, set_lru; simpl;
    rewrite ?He; done.
Qed.

Lemma UnpinPage_ok b t pid dirty :
  pool_ok b -> may_unpin b (t, pid) dirty ->
  pool_ok (UnpinPage b t pid dirty) /\ forall y, page_of (UnpinPage b t pid dirty) y = page_of b y.
Proof.
  intros HP (fid & f & Hx & Hf & Hpin & Hcl).
  destruct (UnpinPage_shape b t pid dirty fid f HP Hx Hf Hpin) as [He E].
  destruct (po_frames b HP _ _ Hx) as (f0 & Hf0 & [K1 K2 K3 K4 K5]). rewrite Hf in Hf0. injection Hf0 as <-.
  assert (Hnot : forall e, (e, fid) ∉ bp_lruList b).
  { intros e Hin. destruct (po_lru b HP e fid Hin) as (f2 & Hf2 & He2 & _). congruence. }
  revert E. unfold unpinned. set (last := (fr_pinCount f - 1 <=? 0)%Z). set (f' := mkFrame _ _ _ _ _). intros E.
  rewrite E. split; [|apply (page_of_frame b _ (t, pid) fid f f'); done].
  apply (pool_ok_frame b _ (t, pid) fid f f'); simpl; try done.
  - destruct last; lia.
  - destruct last; [|apply (po_elems b HP)]. rewrite fmap_app. apply NoDup_app. split; [apply (po_elems b HP)|].
    split; [|apply NoDup_singleton]. intros e [[e' g] [-> Hin]]%list_elem_of_fmap Hs.
    apply list_elem_of_singleton in Hs. simpl in Hs. apply (po_fresh b HP) in Hin. lia.
  - intros e g Hne. destruct last; [|done]. rewrite elem_of_app, list_elem_of_singleton. naive_solver.
  - intros e Hin. destruct last; [|by apply Hnot in Hin].
    apply elem_of_app in Hin as [Hin|Hin]; [by apply Hnot in Hin|]. apply list_elem_of_singleton in Hin. congruence.
  - intros e g Hin. destruct last; [|by apply (po_fresh b HP e g)].
    apply elem_of_app in Hin as [Hin|Hin]; [apply (po_fresh b HP) in Hin; lia|]. apply list_elem_of_singleton in Hin.
    injection Hin as -> _. lia.
  - split; simpl; try done.
    + unfold last. destruct (Z.leb_spec (fr_pinCount f - 1) 0); [|lia]. split; [lia|]. apply elem_of_app. right. by left.
    + intros Hd Hz. destruct Hcl as [Hc|[Hc|Hc]]; [congruence|lia|exact Hc].
Qed.

(** ** Writing to the file *)

Lemma flush_wal_same b lsn :
  let b' := (flush_wal b lsn).1 in
  bp_frames b' = bp_frames b /\ bp_objs b' = bp_objs b /\ bp_lruList b' = bp_lruList b
  /\ bp_capacity b' = bp_capacity b /\ bp_heaps b' = bp_heaps b /\ bp_next b' = bp_next b.
Proof.
  unfold flush_wal. destruct (bp_flusher b) as [w|]; [|done]. destruct (_ <? _)%N; [|done].
  by destruct (fl_Flush w lsn).
Qed.

(** A page write that does not fail. *)
Definition put_heap b (table : string) (p : Page) : BufferPool W :=
  match bp_heaps b !! table with
  | None => b
  | Some h => with_heaps b (<[table := put_page h p]> (bp_heaps b))
  end.

Lemma write_heap_ok b t p :
  (forall t h, bp_heaps b !! t = Some h -> heap_ok h) -> write_heap b t p = (put_heap b t p, true).
Proof.
  intros HK. unfold write_heap, put_heap. destruct (bp_heaps b !! t) as [h|] eqn:Hh; [|done].
  by rewrite (WriteDurablePage_ok h p (hk_io h (HK t h Hh))).
Qed.

Lemma disk_of_write b t p y :
  pool_ok b -> page_wf p -> in_file b (t, pg_id p) ->
  disk_of (put_heap b t p) y = if decide (y = (t, pg_id p)) then Some p else disk_of b y.
Proof.
  intros HP Hp (h & Hh & Hr). cbn [fst snd] in *. unfold put_heap. rewrite Hh. unfold disk_of.
  cbn [bp_heaps with_heaps]. destruct y as [t' id]. cbn [fst snd]. pose proof (po_heaps b HP t h Hh) as HK.
  destruct (decide (t' = t)) as [->|Hne].
  - rewrite lookup_insert_eq, Hh. case_decide as Hd.
    + injection Hd as ->. by rewrite ReadPage_put_page.
    + rewrite ReadPage_put_page_ne; [done|done|done|lia|congruence].
  - rewrite lookup_insert_ne by done. rewrite decide_False; [done|congruence].
Qed.

Lemma put_heap_last b t p t' h' :
  page_wf p -> bp_heaps (put_heap b t p) !! t' = Some h' ->
  exists h, bp_heaps b !! t' = Some h /\ hf_lastPageID h = hf_lastPageID h'.
Proof.
  intros Hp. unfold put_heap. destruct (bp_heaps b !! t) as [h|] eqn:Hh; [|by eauto].
  cbn [bp_heaps with_heaps]. intros [[<- <-]|[_ Hl]]%lookup_insert_Some; [|by eauto].
  exists h. split; [done|]. by rewrite put_page_wf.
Qed.

Lemma put_heap_in_file b t p y : page_wf p -> in_file b y -> in_file (put_heap b t p) y.
Proof.
  intros Hp (h & Hh & Hr). unfold put_heap. destruct (bp_heaps b !! t) as [h0|] eqn:H0; [|by exists h].
  unfold in_file. cbn [bp_heaps with_heaps]. destruct (decide (t = y.1)) as [->|Hne].
  - rewrite lookup_insert_eq. exists (put_page h0 p). split; [done|]. rewrite Hh in H0. injection H0 as <-.
    by rewrite put_page_wf.
  - rewrite lookup_insert_ne by done. by exists h.
Qed.

Lemma put_heap_heaps b t p :
  pool_ok b -> page_wf p -> in_file b (t, pg_id p) ->
  forall t' h', bp_heaps (put_heap b t p) !! t' = Some h' -> heap_ok h'.
Proof.
  intros HP Hp (h & Hh & Hr) t' h'. cbn [fst snd] in *. unfold put_heap. rewrite Hh.
  cbn [bp_heaps with_heaps]. intros [[<- <-]|[_ Hl]]%lookup_insert_Some; [|by eapply po_heaps].
  apply heap_ok_put_page; [by eapply po_heaps|done|done].
Qed.

(** ** Evicting *)

Lemma find_victim_Some objs l e fid f :
  find_victim objs l = Some (e, fid, f) -> (e, fid) ∈ l /\ objs !! fid = Some f /\ (fr_pinCount f <= 0)%Z.
Proof.
  induction l as [|[e' g] l IH]; [done|]. cbn [find_victim]. destruct (objs !! g) as [f'|] eqn:Hg.
  - destruct (Z.ltb_spec 0 (fr_pinCount f')).
    + intros Hv. destruct (IH Hv) as (? & ? & ?). split_and!; [by right|done|done].
    + intros [= -> -> ->]. split_and!; [by left|done|done].
  - intros Hv. destruct (IH Hv) as (? & ? & ?). split_and!; [by right|done|done].
Qed.

(** The pool without the frame at [x], whose page the file has. *)
Lemma pool_ok_drop b b' x fid f :
  pool_ok b -> bp_frames b !! x = Some fid -> bp_objs b !! fid = Some f ->
  bp_frames b' = delete x (bp_frames b) -> bp_objs b' = <[fid := set_lru None f]> (bp_objs b) ->
  bp_next b' = bp_next b ->
  (forall e, fr_lruElem f = Some e -> bp_lruList b' = remove_elem e (bp_lruList b)) -> is_Some (fr_lruElem f) ->
  (forall y, in_file b y -> in_file b' y) -> (forall t h, bp_heaps b' !! t = Some h -> heap_ok h) ->
  (forall y, disk_of b' y = if decide (y = x) then Some (fr_page f) else disk_of b y) ->
  pool_ok b' /\ forall y, page_of b' y = page_of b y.
Proof.
  intros HP Hx Hf E1 E2 E3 Hlru [e He] Hin Hheaps Hdisk. specialize (Hlru e He).
  assert (Hdel : forall y g, bp_frames b' !! y = Some g -> y <> x /\ g <> fid /\ bp_frames b !! y = Some g).
  { intros y g Hy. rewrite E1 in Hy. apply lookup_delete_Some in Hy as [Hne Hy]. split_and!; [done| |done].
    intros ->. apply Hne. by eapply frames_inj. }
  split.
  - split; try done.
    + intros y g Hy. destruct (Hdel y g Hy) as (Hne & Hg & Hy'). destruct (po_frames b HP y g Hy') as (fg & Hfg & [K1 K2 K3 K4 K5]).
      exists fg. rewrite E2, lookup_insert_ne by done. split; [done|]. split; try done.
      * destruct (fr_lruElem fg) as [e'|]; [|done]. destruct K3 as [K3 K3']. split; [done|]. rewrite Hlru.
        apply elem_of_remove_elem. split; [done|]. simpl. intros ->. apply Hg.
        destruct (po_frames b HP x fid Hx) as (f0 & Hf0 & [_ _ L _ _]). rewrite Hf in Hf0. injection Hf0 as <-.
        rewrite He in L. destruct L as [_ L]. by apply (lru_inj b e).
      * by apply Hin.
      * intros Hd Hz. rewrite Hdisk, decide_False by done. by apply K5.
    + intros e' g Hg. rewrite Hlru in Hg. apply elem_of_remove_elem in Hg as [Hg Hne]. simpl in Hne.
      destruct (po_lru b HP e' g Hg) as (fg & Hfg & He' & Hfr).
      assert (Hgf : g <> fid) by (intros ->; congruence).
      exists fg. rewrite E2, lookup_insert_ne by done. split; [done|]. split; [done|]. rewrite E1.
      rewrite lookup_delete_ne; [done|]. intros ->. congruence.
    + rewrite Hlru. apply NoDup_remove_elem, (po_elems b HP).
    + intros g Hg. rewrite E3. rewrite E2, lookup_insert_is_Some in Hg.
      destruct Hg as [<-|[_ Hg]]; apply (po_objs b HP); [by exists f|done].
    + intros e' g Hg. rewrite E3. rewrite Hlru in Hg. apply elem_of_remove_elem in Hg as [Hg _]. by eapply po_fresh.
  - intros y. unfold page_of. rewrite E1. destruct (decide (y = x)) as [->|Hne].
    + rewrite lookup_delete_eq, Hx, Hdisk, decide_True by done. unfold frame_page. by rewrite Hf.
    + rewrite lookup_delete_ne by done. destruct (bp_frames b !! y) as [g|] eqn:Hy.
      * unfold frame_page. rewrite E2, lookup_insert_ne; [done|]. intros <-. apply Hne. by eapply frames_inj.
      * by rewrite Hdisk, decide_False.
Qed.

Lemma remove_elem_shorter e g l : (e, g) ∈ l -> length (remove_elem e l) < length l.
Proof.
  induction l as [|[e' g'] l IH]; [by intros ?%elem_of_nil|]. unfold remove_elem in *. cbn [List.filter fst length].
  destruct (Nat.eqb_spec e' e) as [->|Hne]; cbn [negb].
  - intros _. pose proof (List.filter_length_le (fun x : nat * nat => negb (x.1 =? e)) l). lia.
  - intros [[= -> ->]|Hin]%elem_of_cons; [done|]. specialize (IH Hin). cbn [length]. lia.
Qed.

(** What an eviction leaves. *)
Record evicted b b' (e fid : nat) (f : Frame) (x : string * N) : Prop := {
  ev_lru : (e, fid) ∈ bp_lruList b;
  ev_objs : bp_objs b !! fid = Some f;
  ev_elem : fr_lruElem f = Some e;
  ev_frames : bp_frames b !! x = Some fid;
  ev_ok : frame_ok b x fid f;
  ev_pin : fr_pinCount f = 0%Z;
  ev_frames' : bp_frames b' = delete x (bp_frames b);
  ev_objs' : bp_objs b' = <[fid := set_lru None f]> (bp_objs b);
  ev_lru' : bp_lruList b' = remove_elem e (bp_lruList b);
  ev_next' : bp_next b' = bp_next b;
  ev_cap' : bp_capacity b' = bp_capacity b;
  ev_heaps' : bp_heaps b' = if fr_dirty f then bp_heaps (put_heap b (fr_tableID f) (fr_page f)) else bp_heaps b;
  ev_disk' : forall y, disk_of b' y = if decide (y = x) then Some (fr_page f) else disk_of b y;
}.

Lemma evictLocked_shape b b' :
  pool_ok b -> evictLocked b = (b', true) -> exists e fid f x, evicted b b' e fid f x.
Proof.
  intros HP. unfold evictLocked, evict_pick. destruct (find_victim _ _) as [[[e fid] f]|] eqn:Hv; [|done].
  apply find_victim_Some in Hv as (Hin & Hf & Hpin). destruct (po_lru b HP e fid Hin) as (f0 & Hf0 & He & Hx).
  rewrite Hf in Hf0. injection Hf0 as <-. set (x := (fr_tableID f, pg_id (fr_page f))) in *.
  destruct (po_frames b HP x fid Hx) as (f0 & Hf0 & HO). rewrite Hf in Hf0. injection Hf0 as <-.
  pose proof HO as [K1 K2 K3 K4 K5]. set (b1 := upd_frame _ fid (set_lru None)).
  assert (E1 : bp_frames b1 = bp_frames b /\ bp_objs b1 = <[fid := set_lru None f]> (bp_objs b)
    /\ bp_lruList b1 = remove_elem e (bp_lruList b) /\ bp_heaps b1 = bp_heaps b /\ bp_next b1 = bp_next b
    /\ bp_capacity b1 = bp_capacity b).
  { unfold b1, upd_frame. simpl. by rewrite (alter_Some _ _ _ _ Hf). }
  destruct E1 as (F1 & F2 & F3 & F4 & F5 & F6).
  set (b2 := evict_write b1 f).
  assert (E2 : bp_frames b2 = bp_frames b /\ bp_objs b2 = <[fid := set_lru None f]> (bp_objs b)
    /\ bp_lruList b2 = remove_elem e (bp_lruList b) /\ bp_next b2 = bp_next b /\ bp_capacity b2 = bp_capacity b
    /\ bp_heaps b2 = if fr_dirty f then bp_heaps (put_heap b (fr_tableID f) (fr_page f)) else bp_heaps b).
  { unfold b2, evict_write. destruct (fr_dirty f); [|by split_and!].
    destruct (flush_wal_same b1 (pg_pageLSN (fr_page f))) as (G1 & G2 & G3 & G4 & G5 & G6).
    rewrite write_heap_ok by (rewrite G5, F4; apply HP). cbn [fst].
    unfold put_heap. rewrite G5, F4. destruct (bp_heaps b !! fr_tableID f); simpl; split_and!; congruence. }
  destruct E2 as (G1 & G2 & G3 & G4 & G5 & G6). clearbody b1 b2. intros [= <-].
  assert (Hz : fr_pinCount f = 0%Z) by (rewrite He in K3; lia).
  exists e, fid, f, x. split; simpl; try done; [by rewrite G1|]. intros y.
  change (disk_of b2 y = if decide (y = x) then Some (fr_page f) else disk_of b y). destruct (fr_dirty f) eqn:Hd.
  - etrans; [|exact (disk_of_write b (fr_tableID f) (fr_page f) y HP K2 K4)]. unfold disk_of. by rewrite G6.
  - transitivity (disk_of b y); [unfold disk_of; by rewrite G6|]. case_decide as Hy; [|done]. subst y. by rewrite K5.
Qed.

Lemma evictLocked_false b b' : evictLocked b = (b', false) -> b' = b.
Proof. unfold evictLocked, evict_pick. destruct (find_victim _ _) as [[[e fid] f]|]; [done|]. by intros [= <-]. Qed.

Lemma evictLocked_ok b b' ok :
  pool_ok b -> evictLocked b = (b', ok) ->
  pool_ok b' /\ (forall y, page_of b' y = page_of b y) /\ bp_capacity b' = bp_capacity b
  /\ (forall x, pinned b x -> pinned b' x) /\ (forall x, in_file b x -> in_file b' x)
  /\ (forall x, bp_frames b !! x = None -> bp_frames b' !! x = None).
Proof.
  intros HP Hev. destruct ok; [|apply evictLocked_false in Hev as ->; by split_and!].
  destruct (evictLocked_shape b b' HP Hev) as (e & fid & f & x & [Hin Hf He Hx HO Hz G1 G2 G3 G4 G5 G6 Hdisk]).
  pose proof HO as [K1 K2 K3 K4 K5].
  assert (Hfile : forall y, in_file b y -> in_file b' y).
  { intros y Hy. unfold in_file. rewrite G6. destruct (fr_dirty f); [|done]. by apply put_heap_in_file. }
  destruct (pool_ok_drop b b' x fid f) as [HP' Hpg]; try done.
  - intros e' He'. rewrite G3. congruence.
  - intros t h Ht. rewrite G6 in Ht. destruct (fr_dirty f); [|by eapply po_heaps]. eapply put_heap_heaps; [done|done| |done].
    by rewrite K1.
  - split; [done|]. split; [done|]. split; [done|]. split; [|split; [done|]].
    + intros y (g & fg & Hg & Hfg & Hp). exists g, fg. rewrite G1, G2.
      assert (Hne : g <> fid) by (intros ->; rewrite Hf in Hfg; injection Hfg as <-; lia).
      rewrite lookup_insert_ne, lookup_delete_ne by (done || (intros ->; congruence)). done.
    + intros y Hy. rewrite G1. apply lookup_delete_None. by right.
Qed.

(** Steps that change no page. *)
Record transparent b b' : Prop := {
  tr_ok : pool_ok b';
  tr_page : forall y, page_of b' y = page_of b y;
  tr_pinned : forall x, pinned b x -> pinned b' x;
  tr_file : forall x, in_file b x -> in_file b' x;
}.

Lemma transparent_refl b : pool_ok b -> transparent b b.
Proof. by split. Qed.

Lemma transparent_trans b1 b2 b3 : transparent b1 b2 -> transparent b2 b3 -> transparent b1 b3.
Proof. intros [A1 A2 A3 A4] [B1 B2 B3 B4]. split; [done|..]; intros; [by rewrite B2, A2|auto..]. Qed.

Lemma evict_loop_ok fuel b b' ok :
  pool_ok b -> evict_loop fuel b = (b', ok) ->
  transparent b b' /\ (forall x, bp_frames b !! x = None -> bp_frames b' !! x = None).
Proof.
  revert b. induction fuel as [|fuel IH]; intros b HP; cbn [evict_loop]; destruct (_ <=? _).
  - intros [= <- _]. by split; [apply transparent_refl|].
  - intros [= <- _]. by split; [apply transparent_refl|].
  - destruct (evictLocked b) as [b1 o] eqn:He. destruct (evictLocked_ok b b1 o HP He) as (E1 & E2 & E3 & E4 & E5 & E6).
    destruct o; [|intros [= <- _]; by split; [split|]]. intros Hl. destruct (IH b1 E1 Hl) as [T1 T2].
    split; [eapply transparent_trans; [|exact T1]; by split|]. auto.
  - intros [= <- _]. by split; [apply transparent_refl|].
Qed.

Lemma fetch_cached_transparent b t pid b' fid :
  pool_ok b -> fetch_cached b t pid = Some (b', fid) ->
  transparent b b' /\ bp_frames b' !! (t, pid) = Some fid /\ pinned b' (t, pid).
Proof.
  intros HP Hc. destruct (fetch_cached_ok b t pid b' fid HP Hc) as (E1 & E2 & E3 & E4 & E5).
  assert (Hpin : forall x, bp_frames b !! x = Some fid -> pinned b' x).
  { intros x Hx. revert Hc. unfold fetch_cached. destruct (bp_frames b !! (t, pid)) as [g|] eqn:Hg; [|done].
    destruct (po_frames b HP _ _ Hg) as (f & Hf & [_ _ K3 _ _]). rewrite Hf. cbn [mbind option_bind]. intros Heq.
    assert (g = fid) as -> by (destruct (fr_lruElem f); by injection Heq as _ <-).
    exists fid, (set_lru None (set_pin (fr_pinCount f + 1) f)). rewrite E4. split; [done|].
    assert (Hp : (0 < fr_pinCount f + 1)%Z) by (destruct (fr_lruElem f); [destruct K3|]; lia). split; [|done].
    destruct (fr_lruElem f) as [e|] eqn:He; injection Heq as <-; unfold upd_frame; simpl.
    - by rewrite lookup_alter_eq, lookup_alter_eq, Hf.
    - rewrite lookup_alter_eq, Hf. simpl. unfold set_lru, set_pin. simpl. by rewrite He. }
  split; [|split; [done|apply Hpin; by rewrite <-E4]]. split; [done|done| |].
  - intros x (g & f & Hg & Hf & Hp). destruct (decide (g = fid)) as [->|Hne]; [by apply Hpin|].
    exists g, f. rewrite E4. split; [done|]. split; [|done]. revert Hc. unfold fetch_cached.
    destruct (bp_frames b !! (t, pid)) as [g'|]; [|done]. intros Hc.
    destruct (bp_objs b !! g' ≫= fr_lruElem); injection Hc as <- <-; unfold upd_frame; simpl; by rewrite ?lookup_alter_ne.
  - intros x. unfold in_file. by rewrite E5.
Qed.

(** A frame is added for a page not in the pool. *)
Lemma add_frame_ok b t pid p b' fid :
  pool_ok b -> bp_frames b !! (t, pid) = None -> page_wf p -> pg_id p = pid -> in_file b (t, pid) ->
  disk_of b (t, pid) = Some p -> add_frame b t pid p = (b', fid) ->
  transparent b b' /\ bp_frames b' !! (t, pid) = Some fid /\ pinned b' (t, pid).
Proof.
  intros HP Hn Hp Hid Hin Hd. unfold add_frame. intros [= <- <-]. set (fid := bp_next b).
  set (f := mkFrame p t false 1 None).
  assert (Hfr : forall y g, bp_frames b !! y = Some g -> g <> fid).
  { intros y g Hy ->. destruct (po_frames b HP y fid Hy) as (f0 & Hf0 & _).
    pose proof (po_objs b HP fid (ex_intro _ f0 Hf0)). unfold fid in *. lia. }
  assert (Hlru : forall e g, (e, g) ∈ bp_lruList b -> g <> fid).
  { intros e g Hg ->. destruct (po_lru b HP e fid Hg) as (f0 & Hf0 & _).
    pose proof (po_objs b HP fid (ex_intro _ f0 Hf0)). unfold fid in *. lia. }
  split; [|split; [simpl; by rewrite lookup_insert_eq|exists fid, f; simpl; by rewrite !lookup_insert_eq]].
  split.
  - split; simpl; try apply HP.
    + intros y g Hy. apply lookup_insert_Some in Hy as [[<- <-]|[Hne Hy]].
      * exists f. rewrite lookup_insert_eq. split; [done|]. split; simpl; try done. by rewrite Hid.
      * destruct (po_frames b HP y g Hy) as (fg & Hfg & [K1 K2 K3 K4 K5]). exists fg.
        rewrite lookup_insert_ne by (intros <-; by apply (Hfr y fid)). split; [done|]. by split.
    + intros e g Hg. destruct (po_lru b HP e g Hg) as (fg & Hfg & He & Hf). exists fg.
      rewrite lookup_insert_ne by (intros <-; by apply (Hlru e fid)). split; [done|]. split; [done|].
      rewrite lookup_insert_ne; [done|]. intros Heq. rewrite <-Heq in Hf. congruence.
    + intros g Hg. apply lookup_insert_is_Some in Hg as [<-|[_ Hg]]; [unfold fid; lia|].
      pose proof (po_objs b HP g Hg). lia.
    + intros e g Hg. pose proof (po_fresh b HP e g Hg). lia.
  - intros y. unfold page_of, frame_page. simpl. destruct (decide (y = (t, pid))) as [->|Hne].
    + by rewrite lookup_insert_eq, lookup_insert_eq, Hn.
    + rewrite lookup_insert_ne by done. destruct (bp_frames b !! y) as [g|] eqn:Hy; [|done].
      rewrite lookup_insert_ne; [done|]. intros <-. by apply (Hfr y fid).
  - intros x (g & fg & Hg & Hfg & Hpin). exists g, fg. simpl.
    rewrite lookup_insert_ne by congruence. rewrite lookup_insert_ne by (intros <-; by apply (Hfr x fid)). done.
  - done.
Qed.

Lemma FetchPage_ok b t pid b' r :
  pool_ok b -> FetchPage b t pid = (b', r) ->
  transparent b b'
  /\ match r with
     | Ok fid => bp_frames b' !! (t, pid) = Some fid /\ pinned b' (t, pid)
     | Err e => e = ErrAllFramesPinned \/ page_of b (t, pid) = None
     end.
Proof.
  intros HP. unfold FetchPage. destruct (fetch_cached b t pid) as [[b1 fid]|] eqn:Hc.
  { intros [= <- <-]. by apply fetch_cached_transparent. }
  assert (Hn : bp_frames b !! (t, pid) = None).
  { revert Hc. unfold fetch_cached. destruct (bp_frames b !! (t, pid)); [|done]. by destruct (_ ≫= _). }
  unfold make_room. destruct (evict_loop _ b) as [b1 ok] eqn:He. destruct (evict_loop_ok _ _ _ _ HP He) as [T1 Hn1].
  specialize (Hn1 _ Hn). destruct ok; [|intros [= <- <-]; by auto].
  assert (Hpg : page_of b (t, pid) = disk_of b1 (t, pid)).
  { rewrite <-(tr_page _ _ T1). unfold page_of. by rewrite Hn1. }
  unfold disk_of in Hpg. cbn [fst snd] in Hpg.
  destruct (bp_heaps b1 !! t) as [h|] eqn:Hh; [|intros [= <- <-]; by auto].
  destruct (ReadPage h pid) as [p|e] eqn:Hr; [|intros [= <- <-]; by auto].
  assert (Hc1 : fetch_cached b1 t pid = None) by (unfold fetch_cached; by rewrite Hn1). rewrite Hc1.
  destruct (add_frame b1 t pid p) as [b2 fid] eqn:Ha. intros [= <- <-].
  pose proof (tr_ok _ _ T1) as HP1. destruct (heap_ok_read h pid p (po_heaps b1 HP1 t h Hh) Hr) as (H1 & H2 & H3).
  destruct (add_frame_ok b1 t pid p b2 fid HP1 Hn1 H2 H3) as (T2 & E1 & E2); [by exists h|..].
  - unfold disk_of. cbn [fst snd]. by rewrite Hh, Hr.
  - done.
  - split; [by eapply transparent_trans|done].
Qed.

(** ** Flushing *)

Lemma write_frame_ok b t pid fid f :
  pool_ok b -> bp_frames b !! (t, pid) = Some fid -> bp_objs b !! fid = Some f ->
  let b' := put_heap b t (fr_page f) in
  transparent b b' /\ disk_of b' (t, pid) = Some (fr_page f) /\ bp_frames b' = bp_frames b /\ bp_objs b' = bp_objs b
  /\ bp_lruList b' = bp_lruList b /\ bp_next b' = bp_next b.
Proof.
  intros HP Hx Hf b'. destruct (po_frames b HP _ _ Hx) as (f0 & Hf0 & HO). rewrite Hf in Hf0. injection Hf0 as <-.
  pose proof HO as [K1 K2 _ K4 _]. injection K1 as Kt Kid.
  assert (E : bp_frames b' = bp_frames b /\ bp_objs b' = bp_objs b /\ bp_lruList b' = bp_lruList b /\ bp_next b' = bp_next b).
  { unfold b', put_heap. by destruct (bp_heaps b !! t). }
  destruct E as (E1 & E2 & E3 & E4).
  assert (Hdisk : forall y, disk_of b' y = if decide (y = (t, pid)) then Some (fr_page f) else disk_of b y).
  { intros y. rewrite <-Kid. apply disk_of_write; [done|done|by rewrite Kid]. }
  assert (Hfile : forall y, in_file b y -> in_file b' y) by (intros y; by apply put_heap_in_file).
  assert (HP' : pool_ok b').
  { split; rewrite ?E1, ?E2, ?E3, ?E4; try apply HP.
    - intros y g Hy. destruct (po_frames b HP y g Hy) as (fg & Hfg & [J1 J2 J3 J4 J5]). exists fg. split; [done|].
      split; try done; [by rewrite E3|by apply Hfile|]. intros Hd Hz. rewrite Hdisk. case_decide as Hy'; [|by apply J5].
      subst y. congruence.
    - intros t' h'. eapply put_heap_heaps; [done|done|by rewrite Kid]. }
  split; [|split; [by rewrite Hdisk, decide_True|done]]. split; [done| |unfold pinned; by rewrite E1, E2|done].
  intros y. unfold page_of, frame_page. rewrite E1, E2. destruct (bp_frames b !! y) as [g|] eqn:Hy; [done|].
  rewrite Hdisk, decide_False; [done|]. intros ->. congruence.
Qed.

Lemma transparent_same b b' :
  pool_ok b -> bp_frames b' = bp_frames b -> bp_objs b' = bp_objs b -> bp_lruList b' = bp_lruList b ->
  bp_heaps b' = bp_heaps b -> bp_next b' = bp_next b -> transparent b b'.
Proof.
  intros HP E1 E2 E3 E4 E5. split.
  - split; rewrite ?E1, ?E2, ?E3, ?E4, ?E5; try apply HP. intros y g Hy.
    destruct (po_frames b HP y g Hy) as (fg & Hfg & [J1 J2 J3 J4 J5]). exists fg. split; [done|].
    split; try done; unfold in_file, disk_of in *; by rewrite ?E3, ?E4.
  - intros y. unfold page_of, frame_page, disk_of. by rewrite E1, E2, E4.
  - intros y. unfold pinned. by rewrite E1, E2.
  - intros y. unfold in_file. by rewrite E4.
Qed.

Lemma FlushPage_ok b t pid b' r :
  pool_ok b -> FlushPage b t pid = (b', r) -> transparent b b' /\ bp_frames b' = bp_frames b.
Proof.
  intros HP. unfold FlushPage. destruct (bp_frames b !! (t, pid)) as [fid|] eqn:Hx; cbn [mbind option_bind].
  2: { intros [= <- _]. split; [by apply transparent_refl|done]. }
  destruct (bp_objs b !! fid) as [f|] eqn:Hf; cbn [fmap option_fmap option_map].
  2: { intros [= <- _]. split; [by apply transparent_refl|done]. }
  destruct (negb _); [intros [= <- _]; split; [by apply transparent_refl|done]|].
  destruct (flush_wal_same b (pg_pageLSN (fr_page f))) as (G1 & G2 & G3 & G4 & G5 & G6).
  destruct (flush_wal b _) as [b1 [|]]; simpl in G1, G2, G3, G4, G5, G6.
  2: { intros [= <- _]. split; [by apply transparent_same|done]. }
  assert (T1 : transparent b b1) by (by apply transparent_same). rewrite G5.
  destruct (bp_heaps b !! t) as [h|] eqn:Hh; [|intros [= <- _]; by split].
  rewrite write_heap_ok by (apply (tr_ok _ _ T1)). intros [= <- _].
  destruct (write_frame_ok b1 t pid fid f (tr_ok _ _ T1)) as (T2 & Hd & E1 & E2 & E3 & E4); [by rewrite G1|by rewrite G2|].
  set (b2 := put_heap b1 t (fr_page f)) in *. pose proof (tr_ok _ _ T2) as HP2.
  assert (Hx2 : bp_frames b2 !! (t, pid) = Some fid) by (by rewrite E1, G1).
  assert (Hf2 : bp_objs b2 !! fid = Some f) by (by rewrite E2, G2).
  assert (Eo : bp_objs (upd_frame b2 fid (set_dirty false)) = <[fid := set_dirty false f]> (bp_objs b2)).
  { unfold upd_frame. simpl. by apply alter_Some. }
  destruct (po_frames b2 HP2 _ _ Hx2) as (f0 & Hf0 & HO). rewrite Hf2 in Hf0. injection Hf0 as <-. destruct HO as [K1 K2 K3 K4 K5].
  split; [|simpl; by rewrite E1, G1]. eapply transparent_trans; [exact T1|]. eapply transparent_trans; [exact T2|]. split.
  - apply (pool_ok_frame b2 _ (t, pid) fid f (set_dirty false f)); try done.
    + apply (po_elems b2 HP2).
    + intros e Hin. simpl in *. destruct (po_lru b2 HP2 e fid Hin) as (f3 & Hf3 & He & _). congruence.
    + apply (po_fresh b2 HP2).
  - by apply (page_of_frame b2 _ (t, pid) fid f (set_dirty false f)).
  - intros y (g & fg & Hg & Hfg & Hp). destruct (decide (g = fid)) as [->|Hne].
    + exists fid, (set_dirty false f). rewrite Eo, lookup_insert_eq. split; [done|]. split; [done|]. simpl. congruence.
    + exists g, fg. by rewrite Eo, lookup_insert_ne.
  - done.
Qed.

Lemma flush_loop_ok l b b' r : pool_ok b -> flush_loop b l = (b', r) -> transparent b b'.
Proof.
  revert b. induction l as [|[[t pid] lsn] l IH]; intros b HP; cbn [flush_loop].
  - intros [= <- _]. by apply transparent_refl.
  - destruct (FlushPage b t pid) as [b1 o] eqn:Hf. destruct (FlushPage_ok b t pid b1 o HP Hf) as [T _].
    destruct o; [by intros [= <- _]|]. intros Hl. eapply transparent_trans; [exact T|]. eapply IH; [apply T|done].
Qed.

(** ** The writes of callers *)

Lemma set_page_ok b x fid p :
  pool_ok b -> bp_frames b !! x = Some fid -> pinned b x -> page_wf p -> pg_id p = x.2 ->
  pool_ok (set_page b fid p)
  /\ (forall y, page_of (set_page b fid p) y = if decide (y = x) then Some p else page_of b y)
  /\ (forall y, pinned b y -> pinned (set_page b fid p) y) /\ bp_frames (set_page b fid p) = bp_frames b.
Proof.
  intros HP Hx (g & f & Hg & Hf & Hpin) Hp Hid. rewrite Hx in Hg. injection Hg as <-.
  destruct (po_frames b HP _ _ Hx) as (f0 & Hf0 & [K1 K2 K3 K4 K5]). rewrite Hf in Hf0. injection Hf0 as <-.
  assert (Hno : fr_lruElem f = None) by (destruct (fr_lruElem f); [lia|done]).
  assert (Eo : bp_objs (set_page b fid p) = <[fid := set_fpage p f]> (bp_objs b)) by (unfold set_page, upd_frame; simpl; by apply alter_Some).
  split_and!; [| | |done].
  - apply (pool_ok_frame b _ x fid f (set_fpage p f)); try done.
    + apply (po_elems b HP).
    + intros e Hin. simpl in *. destruct (po_lru b HP e fid Hin) as (f3 & Hf3 & He & _). congruence.
    + apply (po_fresh b HP).
    + split; [simpl; rewrite Hid; destruct x; simpl in *; congruence|exact Hp|simpl; by rewrite Hno|exact K4|simpl; lia].
  - intros y. unfold page_of, frame_page. cbn [set_page]. change (bp_frames (set_page b fid p)) with (bp_frames b).
    rewrite Eo. case_decide as Hy.
    + subst y. by rewrite Hx, lookup_insert_eq.
    + destruct (bp_frames b !! y) as [h|] eqn:Hh; [|done]. rewrite lookup_insert_ne; [done|].
      intros <-. apply Hy. by eapply frames_inj.
  - intros y (g & fg & Hg & Hfg & Hpg). destruct (decide (g = fid)) as [->|Hne].
    + exists fid, (set_fpage p f). rewrite Eo, lookup_insert_eq. split; [done|]. split; [done|]. simpl. congruence.
    + exists g, fg. by rewrite Eo, lookup_insert_ne.
Qed.

(** A page is allocated in the file. *)
Lemma pool_allocate b t h h' id :
  pool_ok b -> bp_heaps b !! t = Some h -> (hf_lastPageID h + 1 < two64)%N -> put_new_page h = Some (h', id) ->
  let b' := with_heaps b (<[t := h']> (bp_heaps b)) in
  pool_ok b' /\ (forall y, page_of b' y = if decide (y = (t, id)) then Some (NewPage id) else page_of b y)
  /\ (forall x, pinned b x -> pinned b' x) /\ in_file b' (t, id) /\ bp_frames b' !! (t, id) = None
  /\ (forall y, disk_of b' y = if decide (y = (t, id)) then Some (NewPage id) else disk_of b y).
Proof.
  intros HP Hh Hw Ha b'. pose proof (po_heaps b HP t h Hh) as HK.
  destruct (put_new_page_ok h h' id HK Hw Ha) as (Eid & HK' & El & Ef & Er & Eo).
  assert (Hdisk : forall y, disk_of b' y = if decide (y = (t, id)) then Some (NewPage id) else disk_of b y).
  { intros [t' j]. unfold disk_of, b'. cbn [fst snd bp_heaps with_heaps]. destruct (decide (t' = t)) as [->|Hne].
    - rewrite lookup_insert_eq, Hh. case_decide as Hd; [injection Hd as ->; by rewrite Er|].
      destruct (N.eq_dec j 0%N) as [->|Hj]; [|rewrite Eo; [done|congruence|lia]].
      pose proof (hk_meta h HK) as M1. pose proof (hk_meta h' HK') as M2.
      destruct (ReadPage h' 0) as [p|]; [by destruct (M2 p)|]. by destruct (ReadPage h 0) as [p|]; [destruct (M1 p)|].
    - rewrite lookup_insert_ne by done. rewrite decide_False; [done|congruence]. }
  assert (Hn : bp_frames b !! (t, id) = None).
  { destruct (bp_frames b !! (t, id)) as [fid|] eqn:Hx; [|done].
    destruct (po_frames b HP _ _ Hx) as (f & _ & [_ _ _ (h0 & Hh0 & Hr) _]). cbn [fst snd] in *.
    rewrite Hh in Hh0. injection Hh0 as <-. lia. }
  assert (Hfile : forall y, in_file b y -> in_file b' y).
  { intros [t' j] (h0 & Hh0 & Hr). unfold in_file, b'. cbn [fst snd bp_heaps with_heaps] in *.
    destruct (decide (t' = t)) as [->|Hne]; [|rewrite lookup_insert_ne by done; by exists h0].
    rewrite lookup_insert_eq. exists h'. split; [done|]. rewrite Hh in Hh0. injection Hh0 as <-. lia. }
  split_and!; [|..|done|done].
  - split; try apply HP.
    + intros y g Hy. destruct (po_frames b HP y g Hy) as (fg & Hfg & [J1 J2 J3 J4 J5]). exists fg. split; [done|].
      split; try done; [by apply Hfile|]. intros Hd Hz. rewrite Hdisk, decide_False; [by apply J5|]. intros ->. simpl in Hy. congruence.
    + intros t' h0 Hl. unfold b' in Hl. cbn [bp_heaps with_heaps] in Hl. apply lookup_insert_Some in Hl as [[<- <-]|[_ Hl]]; [done|by eapply po_heaps].
  - intros y. unfold page_of. change (bp_frames b') with (bp_frames b). change (frame_page b') with (frame_page b).
    rewrite Hdisk. destruct (bp_frames b !! y) as [g|] eqn:Hy; [|done]. rewrite decide_False; [done|]. intros ->. congruence.
  - done.
  - exists h'. cbn [fst snd bp_heaps with_heaps b']. rewrite lookup_insert_eq. split; [done|]. lia.
Qed.

Lemma Pool_NewPage_ok b t h b' r :
  pool_ok b -> bp_heaps b !! t = Some h -> (hf_lastPageID h + 1 < two64)%N -> Pool_NewPage b t = Some (b', r) ->
  let id := (hf_lastPageID h + 1)%N in
  pool_ok b' /\ (forall y, page_of b' y = if decide (y = (t, id)) then Some (NewPage id) else page_of b y)
  /\ (forall x, pinned b x -> pinned b' x)
  /\ match r with
     | Ok (pid, fid) => pid = id /\ bp_frames b' !! (t, id) = Some fid /\ pinned b' (t, id)
     | Err e => e = ErrAllFramesPinned
     end.
Proof.
  intros HP Hh Hw. unfold Pool_NewPage. rewrite Hh, (AllocatePage_io h (hk_io h (po_heaps b HP t h Hh))).
  destruct (put_new_page h) as [[h' pid]|] eqn:Ha; [|done]. cbn [mbind option_bind]. destruct (pool_allocate b t h h' pid HP Hh Hw Ha) as (HP1 & Hpg & Hpin & Hfile & Hn & Hd).
  destruct (put_new_page_ok h h' pid (po_heaps b HP t h Hh) Hw Ha) as (-> & _). set (b1 := with_heaps _ _) in *.
  set (id := (hf_lastPageID h + 1)%N) in *.
  unfold make_room. destruct (evict_loop _ b1) as [b2 ok] eqn:He. destruct (evict_loop_ok _ _ _ _ HP1 He) as [T Hn2].
  assert (Hpg2 : forall y, page_of b2 y = if decide (y = (t, id)) then Some (NewPage id) else page_of b y).
  { intros y. rewrite (tr_page _ _ T). apply Hpg. }
  destruct ok; [|intros [= <- <-]; split_and!; [apply T|done| |done]; intros x Hx; apply (tr_pinned _ _ T); auto].
  destruct (add_frame b2 t id (NewPage id)) as [b3 fid] eqn:Haf. intros [= <- <-]. specialize (Hn2 _ Hn).
  assert (Hd2 : disk_of b2 (t, id) = Some (NewPage id)).
  { specialize (Hpg2 (t, id)). rewrite decide_True in Hpg2 by done. unfold page_of in Hpg2. by rewrite Hn2 in Hpg2. }
  destruct (add_frame_ok b2 t id (NewPage id) b3 fid (tr_ok _ _ T) Hn2 (page_wf_NewPage id Hw) eq_refl (tr_file _ _ T _ Hfile) Hd2 Haf)
    as (T3 & E1 & E2).
  split; [apply T3|]. split; [intros y; rewrite (tr_page _ _ T3); apply Hpg2|].
  split; [intros x Hx; apply (tr_pinned _ _ T3), (tr_pinned _ _ T); auto|]. split; [reflexivity|]. split; [exact E1|exact E2].
Qed.

(** ** Runs *)

(** One call, and the page it changes. *)
Inductive pool_step b : option (string * N * Page) -> BufferPool W -> Prop :=
| st_fetch t pid b' r : FetchPage b t pid = (b', r) -> pool_step b None b'
| st_unpin t pid dirty : may_unpin b (t, pid) dirty -> pool_step b None (UnpinPage b t pid dirty)
| st_flush t pid b' r : FlushPage b t pid = (b', r) -> pool_step b None b'
| st_flush_all b' r : FlushAllDirty b = (b', r) -> pool_step b None b'
| st_evict b' r : Evict b = (b', r) -> pool_step b None b'
| st_write t pid fid p :
    bp_frames b !! (t, pid) = Some fid -> pinned b (t, pid) -> page_wf p -> pg_id p = pid ->
    pool_step b (Some (t, pid, p)) (set_page b fid p)
| st_new t h b' r :
    bp_heaps b !! t = Some h -> (hf_lastPageID h + 1 < two64)%N -> Pool_NewPage b t = Some (b', r) ->
    pool_step b (Some (t, (hf_lastPageID h + 1)%N, NewPage (hf_lastPageID h + 1))) b'.

Inductive pool_run b : list (string * N * Page) -> BufferPool W -> Prop :=
| pr_nil : pool_run b [] b
| pr_step ws b1 o b2 : pool_run b ws b1 -> pool_step b1 o b2 -> pool_run b (ws ++ option_list o) b2.

(** The last write to a page, or what it was. *)
Definition written (ws : list (string * N * Page)) (old : option Page) (x : string * N) : option Page :=
  foldl (fun acc w => if decide (w.1 = x) then Some w.2 else acc) old ws.

Lemma pool_step_ok b o b' :
  pool_ok b -> pool_step b o b' ->
  pool_ok b' /\ forall y, page_of b' y = written (option_list o) (page_of b y) y.
Proof.
  intros HP Hs. destruct Hs as [t pid b' r Hf|t pid d Hu|t pid b' r Hf|b' r Hf|b' r He|t pid fid p Hx Hpin Hp Hid|t h b' r Hh Hw Hn].
  - destruct (FetchPage_ok b t pid b' r HP Hf) as [T _]. split; [apply T|]. apply (tr_page _ _ T).
  - by apply UnpinPage_ok.
  - destruct (FlushPage_ok b t pid b' r HP Hf) as [T _]. split; [apply T|]. apply (tr_page _ _ T).
  - unfold FlushAllDirty in Hf. pose proof (flush_loop_ok _ _ _ _ HP Hf) as T. split; [apply T|]. apply (tr_page _ _ T).
  - destruct (evictLocked_ok b b' r HP He) as (E1 & E2 & _). by split.
  - destruct (set_page_ok b (t, pid) fid p HP Hx Hpin Hp Hid) as (E1 & E2 & _). split; [done|]. intros y. rewrite E2.
    simpl. by repeat case_decide.
  - destruct (Pool_NewPage_ok b t h b' r HP Hh Hw Hn) as (E1 & E2 & _). split; [done|]. intros y. rewrite E2.
    simpl. by repeat case_decide.
Qed.

(** C6. As long as heap writes succeed ([pool_ok]), pages that were changed
    are unpinned dirty ([may_unpin]) and calls follow one another: whatever
    is fetched, unpinned, flushed, evicted and allocated, and however small
    the pool is, every page is what the last write to it left; no eviction
    loses an update and no fetch brings back an old page. *)
Theorem pool_transparent b ws b' :
  pool_ok b -> pool_run b ws b' -> pool_ok b' /\ forall x, page_of b' x = written ws (page_of b x) x.
Proof.
  intros HP Hr. induction Hr as [|ws b1 o b2 Hr IH Hs]; [done|]. destruct IH as [HP1 Hpg].
  destruct (pool_step_ok b1 o b2 HP1 Hs) as [HP2 Hpg2]. split; [done|]. intros x. rewrite Hpg2, Hpg.
  unfold written. by rewrite foldl_app.
Qed.
End Inv.

(** ** The log goes first *)

Section Wal.
Context {W : Type} `{Flusher W}.
Implicit Types b : BufferPool W.

Definition flush_law : Prop := forall (w w' : W) lsn, fl_Flush w lsn = (w', true) -> (lsn <= fl_FlushedLSN w')%N.

Definition log_covers b (lsn : N) : Prop := forall w, bp_flusher b = Some w -> (lsn <= fl_FlushedLSN w)%N.

(** The file of the table has the place of the page. *)
Definition has_room b (x : string * N) : Prop :=
  forall h, bp_heaps b !! x.1 = Some h -> (x.2 * PageSize + PageSize <= blen (hf_file h))%N.

Lemma has_room_check b x :
  match bp_heaps b !! x.1 with Some h => (x.2 * PageSize + PageSize <=? blen (hf_file h))%N | None => true end = true -> has_room b x.
Proof. intros Hc h Hh. rewrite Hh in Hc. by apply N.leb_le. Qed.

Lemma WriteDurablePage_any h p h' ok :
  page_wf p -> (pg_id p * PageSize + PageSize <= blen (hf_file h))%N -> WriteDurablePage h p = (h', ok) ->
  (forall id, id <> pg_id p -> ReadPage h' id = ReadPage h id) /\ (ok = true -> ReadPage h' (pg_id p) = Ok p).
Proof.
  intros Hp Hroom. unfold WriteDurablePage, WritePage. rewrite (Serialize_wf p Hp).
  destruct (file_WriteAt h _ _) as [h1 ok1] eqn:Hw. pose proof (file_WriteAt_cases _ _ _ _ _ Hw) as (n & Hc & Hok).
  intros Hs. assert (E : hf_file h' = hf_file h1 /\ (ok = true -> ok1 = true)).
  { destruct ok1; [|by injection Hs as <- <-]. revert Hs. unfold file_call. destruct (hf_io h1) as [|[]]; by intros [= <- <-]. }
  destruct E as [E Eok]. split.
  - intros id Hne. rewrite (ReadPage_hf _ _ id E). destruct Hc as [Hc|Hc]; rewrite Hc; [done|].
    rewrite (ReadPage_hf _ (with_file h (WriteAt (pg_id p * PageSize) (take n (pg_data p)) (hf_file h))) id) by done.
    apply ReadPage_cong. pose proof (page_wf_len p Hp) as Hl.
    assert (Hn : (blen (take n (pg_data p)) <= PageSize)%N) by (rewrite <-Hl; unfold blen; rewrite length_take; lia).
    destruct (N.le_gt_cases (id * PageSize + PageSize) (blen (hf_file h))) as [Hin|Hout].
    + apply ReadAt_WriteAt_other; [done|]. unfold PageSize in *. lia.
    + unfold ReadAt, sub_checked. rewrite blen_WriteAt. rewrite !(proj2 (N.leb_gt _ _)); [done|done|]. lia.
  - intros ->. rewrite (ReadPage_hf _ _ _ E), (Hok (Eok eq_refl)).
    rewrite (ReadPage_hf _ (put_page h p)); [by apply ReadPage_put_page|]. by rewrite put_page_wf.
Qed.

Lemma write_heap_any b t p b' ok :
  page_wf p -> has_room b (t, pg_id p) -> write_heap b t p = (b', ok) ->
  bp_frames b' = bp_frames b /\ bp_objs b' = bp_objs b /\ bp_flusher b' = bp_flusher b
  /\ (forall y, y <> (t, pg_id p) -> disk_of b' y = disk_of b y)
  /\ (ok = true -> (exists h, bp_heaps b !! t = Some h) -> disk_of b' (t, pg_id p) = Some p).
Proof.
  intros Hp Hroom. unfold write_heap. destruct (bp_heaps b !! t) as [h|] eqn:Hh.
  2: { intros [= <- <-]. split_and!; try done. intros _ [h Hc]. congruence. }
  destruct (WriteDurablePage h p) as [h' ok'] eqn:Hw. intros [= <- <-].
  destruct (WriteDurablePage_any h p h' ok' Hp (Hroom h Hh) Hw) as [E1 E2]. split_and!; [done|done|done| |].
  - intros [t' id] Hy. unfold disk_of. cbn [fst snd bp_heaps with_heaps]. destruct (decide (t' = t)) as [->|Hne].
    + rewrite lookup_insert_eq, Hh. rewrite E1; [done|]. congruence.
    + by rewrite lookup_insert_ne.
  - intros Hok _. unfold disk_of. cbn [fst snd bp_heaps with_heaps]. by rewrite lookup_insert_eq, (E2 Hok).
Qed.

Lemma flush_wal_covers b lsn b' : flush_law -> flush_wal b lsn = (b', true) -> log_covers b' lsn.
Proof.
  intros HL. unfold flush_wal, log_covers. destruct (bp_flusher b) as [w|] eqn:Hw.
  - destruct (N.ltb_spec (fl_FlushedLSN w) lsn) as [Hlt|Hge].
    + destruct (fl_Flush w lsn) as [w' ok] eqn:Hf. intros [= <- ->]. simpl. intros v [= <-]. by eapply HL.
    + intros [= <-] v. rewrite Hw. by intros [= <-].
  - intros [= <-] v. by rewrite Hw.
Qed.

(** C10. FlushPage of a dirty page that the file has room for, whatever the
    log and the file answer: no other page of any file changes, and the
    page's place in the file is written only after the log has been flushed
    up to the page's LSN. Without an error the file has the page and the
    frame is clean. With an error the frame stays as it was, dirty; either
    no file is touched, or the error is that of the page write, after which
    the page's place may hold a part of it. *)
Theorem wal_before_page b t pid fid f b' r :
  flush_law -> bp_frames b !! (t, pid) = Some fid -> bp_objs b !! fid = Some f -> fr_dirty f = true ->
  page_wf (fr_page f) -> pg_id (fr_page f) = pid -> has_room b (t, pid) ->
  FlushPage b t pid = (b', r) ->
  (forall y, y <> (t, pid) -> disk_of b' y = disk_of b y)
  /\ match r with
     | None => log_covers b' (pg_pageLSN (fr_page f)) /\ disk_of b' (t, pid) = Some (fr_page f)
         /\ bp_objs b' !! fid = Some (set_dirty false f)
     | Some e => bp_objs b' !! fid = Some f
         /\ (bp_heaps b' = bp_heaps b \/ e = ErrPageWrite /\ log_covers b' (pg_pageLSN (fr_page f)))
     end.
Proof.
  intros HL Hx Hf Hd Hp Hid Hroom. unfold FlushPage. rewrite Hx. cbn [mbind option_bind]. rewrite Hf.
  cbn [fmap option_fmap option_map]. rewrite Hd. simpl negb. cbn iota.
  destruct (flush_wal_same b (pg_pageLSN (fr_page f))) as (G1 & G2 & G3 & G4 & G5 & G6).
  destruct (flush_wal b _) as [b1 ok] eqn:Hw. simpl in G1, G2, G3, G4, G5, G6.
  assert (Hsame : forall y, disk_of b1 y = disk_of b y) by (intros y; unfold disk_of; by rewrite G5).
  destruct ok; [|intros [= <- <-]; rewrite G2; by auto].
  destruct (bp_heaps b1 !! t) as [h|] eqn:Hh; [|intros [= <- <-]; rewrite G2; by auto].
  pose proof (flush_wal_covers _ _ _ HL Hw) as Hc.
  destruct (write_heap b1 t (fr_page f)) as [b2 ok] eqn:Hwh.
  destruct (write_heap_any b1 t (fr_page f) b2 ok Hp) as (E1 & E2 & E3 & E4 & E5); [|done|].
  { intros h0. rewrite G5, Hid. apply Hroom. }
  rewrite Hid in E4, E5. assert (Hc2 : log_covers b2 (pg_pageLSN (fr_page f))) by (unfold log_covers in *; by rewrite E3).
  destruct ok; intros [= <- <-].
  - split; [intros y Hy; etrans; [exact (E4 y Hy)|apply Hsame]|]. split; [exact Hc2|]. split; [apply (E5 eq_refl); by exists h|].
    unfold upd_frame. simpl. by rewrite (alter_Some _ _ _ f), lookup_insert_eq by (by rewrite E2, G2).
  - split; [intros y Hy; rewrite (E4 y Hy); apply Hsame|]. rewrite E2, G2. auto.
Qed.

(** C38. An eviction of a dirty page reports success whatever the log and the
    file answer, and the frame is gone: the page is what its file has then.
    That is the page when the write and the sync succeed; when the write
    fails before its first byte it is the file's old page, and what was
    written to the page since the last flush is lost. *)
Theorem evict_ignores_errors b e fid f :
  find_victim (bp_objs b) (bp_lruList b) = Some (e, fid, f) -> fr_dirty f = true -> page_wf (fr_page f) ->
  let x := (fr_tableID f, pg_id (fr_page f)) in
  has_room b x ->
  exists b', evictLocked b = (b', true) /\ bp_frames b' !! x = None
    /\ (forall y, y <> x -> disk_of b' y = disk_of b y)
    /\ forall h, bp_heaps b !! x.1 = Some h ->
         ((WriteDurablePage h (fr_page f)).2 = true -> page_of b' x = Some (fr_page f))
         /\ (forall io, hf_io h = IoFail 0 :: io -> page_of b' x = disk_of b x).
Proof.
  intros Hv Hd Hp x Hroom. unfold evictLocked, evict_pick. rewrite Hv. set (b1 := upd_frame _ fid _). eexists. split; [done|].
  split; [simpl; by rewrite lookup_delete_eq|]. unfold evict_write. rewrite Hd. set (lsn := pg_pageLSN (fr_page f)).
  destruct (flush_wal_same b1 lsn) as (G1 & G2 & G3 & G4 & G5 & G6). set (b2 := (flush_wal b1 lsn).1) in *.
  change (bp_heaps b1) with (bp_heaps b) in G5.
  destruct (write_heap b2 (fr_tableID f) (fr_page f)) as [b3 ok] eqn:Hw. cbn [fst].
  destruct (write_heap_any b2 (fr_tableID f) (fr_page f) b3 ok Hp) as (E1 & E2 & E3 & E4 & E5); [|done|].
  { intros h0. rewrite G5. apply Hroom. }
  split.
  { intros y Hy. etrans; [exact (E4 y Hy)|]. unfold disk_of. by rewrite G5. }
  intros h Hh. assert (Hpg : page_of (evict_drop b3 f) x = disk_of b3 x).
  { unfold page_of, evict_drop. simpl. by rewrite lookup_delete_eq. }
  rewrite Hpg. revert Hw. unfold write_heap. rewrite G5. assert (Hh' : bp_heaps b !! fr_tableID f = Some h) by exact Hh. rewrite Hh'.
  destruct (WriteDurablePage h (fr_page f)) as [h' ok'] eqn:Hwd. intros [= <- <-]. split.
  - cbn [snd]. intros ->. apply (E5 eq_refl). exists h. by rewrite G5.
  - intros io Hio. unfold disk_of. simpl. rewrite lookup_insert_eq, Hh'.
    assert (h' = with_io h io) as ->; [|done]. revert Hwd. unfold WriteDurablePage, WritePage.
    destruct (Serialize (fr_page f)) as [q raw]. unfold file_WriteAt. rewrite Hio. by intros [= <- _].
Qed.
End Wal.

(** ** The log manager behind the pool *)

(** [wal.Manager.Flush] waits until the flushed LSN has reached the LSN; a
    call that waits for ever is not an [ok] one here. *)
#[export] Instance walFlusher `{GobATT} : Flusher WalMgr := {|
  fl_FlushedLSN := w_flushed;
  fl_Flush := fun w lsn =>
    match Flush w lsn with
    | Some w => (w, Flush_done w lsn)
    | None => (w, false)
    end
|}.

Lemma walFlusher_law `{GobATT} : flush_law (W := WalMgr).
Proof.
  intros w w' lsn. cbn. destruct (Flush w lsn) as [v|]; [|done]. intros [= <- Hd]. by apply N.leb_le.
Qed.

(** ** From empty files *)

Lemma OpenHeapFile_new name h : OpenHeapFile name [] [] = Some (Ok h) -> heap_ok h /\ hf_lastPageID h = 0%N /\ hf_freeList h = [].
Proof.
  unfold OpenHeapFile. cbn [length Nat.eqb]. rewrite writeMeta_io by done. destruct (put_meta _) as [h'|] eqn:Hm; [|done]. cbn [mbind option_bind].
  intros Hw. injection Hw as <-. pose proof (meta_not_page _ _ Hm) as Hmp. revert Hm. unfold put_meta.
  destruct (meta_area _) as [d|] eqn:Hd; [|done]. cbn [mbind option_bind]. intros Hw. apply (inj Some) in Hw as <-.
  set (h := mkHeap [] name 0 [] []) in *. cbn [hf_file hf_lastPageID with_file hf_freeList h]. split; [|done].
  destruct (N.le_gt_cases (meta_size h) MetaRoom) as [Hfit|Hbig].
  2: { pose proof (put_meta_panics h Hbig) as Hn. unfold put_meta in Hn. by rewrite Hd in Hn. }
  destruct (meta_area_fields h d Hd Hfit) as [Hl _]. split; [done| |exact Hmp|cbn; lia].
  cbn [hf_file hf_lastPageID with_file h]. cbn [hf_file hf_lastPageID with_file h]. rewrite blen_WriteAt.
  assert (Hraw : blen (replicate (N.to_nat PageHeaderSize) x00 ++ d) = PageSize) by (rewrite blen_app, Hl; reflexivity).
  unfold meta_page; rewrite Hraw. reflexivity.
Qed.

Lemma pool_ok_new {W} `{Flusher W} n heaps (w : option W) :
  (forall t h, heaps !! t = Some h -> heap_ok h) -> pool_ok (NewBufferPool n heaps w).
Proof.
  intros Hh. split; cbn; try done.
  - intros e fid Hin. by apply elem_of_nil in Hin.
  - apply NoDup_nil_2.
  - intros fid [f Hf]. done.
  - intros e fid Hin. by apply elem_of_nil in Hin.
Qed.

Module PoolRun.

#[local] Instance gob : GobATT := gob_countable.

Definition heap0 : HeapFile := match OpenHeapFile "t" [] [] with Some (Ok h) => h | _ => mkHeap [] "" 0 [] [] end.

(** The log has a record in its buffer; the pool has one frame. *)
Definition log1 : WalMgr := (appendRecord (OpenManager []) (commit_record 1 0)).1.
Definition b0 : BufferPool WalMgr := NewBufferPool 1 {["t" := heap0]} (Some log1).

(** A page is allocated, written, stamped and unpinned dirty; another one
    takes its frame. *)
Definition new_or (b : BufferPool WalMgr) : BufferPool WalMgr := match Pool_NewPage b "t" with Some (b, _) => b | None => b end.
Definition row_page : Page := match InsertRow (NewPage 1) "a" [x07] with Some (p, _) => p | None => NewPage 1 end.
Definition p1 : Page := SetPageLSN row_page 1.
Definition b1 : BufferPool WalMgr := new_or b0.
Definition b2 : BufferPool WalMgr := set_page b1 0 p1.
Definition b3 : BufferPool WalMgr := UnpinPage b2 "t" 1 true.
Definition b4 : BufferPool WalMgr := new_or b3.

Lemma p1_wf : page_wf p1 /\ pg_id p1 = 1%N.
Proof.
  assert (Hw : page_wf (NewPage 1)) by (by apply page_wf_NewPage).
  destruct (InsertRow_kept (NewPage 1) empty_spec "a" [x07] Hw (rep_NewPage 1)) as (q & Hi & Hr & Hq & Hid & _).
  assert (E : row_page = q) by (unfold row_page; by rewrite Hi).
  unfold p1. rewrite E. destruct (SetPageLSN_kept q _ 1 Hq Hr) as (_ & Hw1 & Hid1); [done|].
  split; [exact Hw1|]. rewrite Hid1. exact Hid.
Qed.

Lemma b0_ok : pool_ok b0.
Proof.
  apply pool_ok_new. intros t h Hh. apply lookup_singleton_Some in Hh as [<- <-].
  by apply (OpenHeapFile_new "t" heap0); vm_compute.
Qed.

(** Frame 0 in the states of the run. *)
Lemma b1_new : Pool_NewPage b0 "t" = Some (b1, Ok (1%N, 0)).
Proof. vm_compute. reflexivity. Qed.
Lemma b4_new : exists fid, Pool_NewPage b3 "t" = Some (b4, Ok (2%N, fid)).
Proof. eexists. vm_compute. reflexivity. Qed.
Lemma b0_heap : exists h, bp_heaps b0 !! "t" = Some h /\ hf_lastPageID h = 0%N.
Proof. eexists. split; vm_compute; reflexivity. Qed.
Lemma b3_heap : exists h, bp_heaps b3 !! "t" = Some h /\ hf_lastPageID h = 1%N.
Proof. eexists. split; vm_compute; reflexivity. Qed.
Lemma b1_frame : bp_frames b1 !! ("t", 1%N) = Some 0 /\ (fr_pinCount <$> bp_objs b1 !! 0) = Some 1%Z.
Proof. split; vm_compute; reflexivity. Qed.
Lemma b2_frame : bp_frames b2 !! ("t", 1%N) = Some 0 /\ (fr_pinCount <$> bp_objs b2 !! 0) = Some 1%Z.
Proof. split; vm_compute; reflexivity. Qed.
Lemma b3_frame : exists f, bp_frames b3 !! ("t", 1%N) = Some 0 /\ bp_objs b3 !! 0 = Some f /\ fr_dirty f = true /\ fr_page f = p1.
Proof. eexists. split_and!; vm_compute; reflexivity. Qed.

Lemma step1 : pool_step b0 (Some ("t", 1%N, NewPage 1)) b1.
Proof.
  destruct b0_heap as (h & Hh & Hl). pose proof (st_new b0 "t" h b1 (Ok (1%N, 0)) Hh) as Hs. rewrite Hl in Hs. exact (Hs eq_refl b1_new).
Qed.

Lemma step2 : pool_step b1 (Some ("t", 1%N, p1)) b2.
Proof.
  destruct b1_frame as [Hx Hp]. destruct p1_wf as [Hw Hi]. apply (st_write b1 "t" 1 0 p1 Hx); [|done|done].
  apply fmap_Some in Hp as (f & Hf & Hp). exists 0, f. split_and!; [done|done|]. by rewrite <-Hp.
Qed.

Lemma step3 : pool_step b2 None b3.
Proof.
  destruct b2_frame as [Hx Hp]. apply (st_unpin b2 "t" 1 true). apply fmap_Some in Hp as (f & Hf & Hp).
  exists 0, f. split_and!; [done|done|by rewrite <-Hp|by left].
Qed.

Lemma step4 : pool_step b3 (Some ("t", 2%N, NewPage 2)) b4.
Proof.
  destruct b3_heap as (h & Hh & Hl). destruct b4_new as [fid Hn]. pose proof (st_new b3 "t" h b4 (Ok (2%N, fid)) Hh) as Hs.
  rewrite Hl in Hs. exact (Hs eq_refl Hn).
Qed.

Lemma b3_ok : pool_ok b3.
Proof.
  destruct (pool_step_ok _ _ _ b0_ok step1) as [H1 _]. destruct (pool_step_ok _ _ _ H1 step2) as [H2 _].
  by destruct (pool_step_ok _ _ _ H2 step3).
Qed.

Lemma pool_transparent_witness : bp_frames b4 !! ("t", 1%N) = None /\ page_of b4 ("t", 1%N) = Some p1.
Proof.
  split; [vm_compute; reflexivity|].
  destruct (pool_transparent b0 ([("t", 1%N, NewPage 1)] ++ [("t", 1%N, p1)] ++ [] ++ [("t", 2%N, NewPage 2)]) b4) as [_ Hp].
  - exact b0_ok.
  - exact (pr_step b0 _ b3 _ b4 (pr_step b0 _ b2 _ b3 (pr_step b0 _ b1 _ b2 (pr_step b0 _ b0 _ b1 (pr_nil b0) step1) step2) step3) step4).
  - rewrite Hp. reflexivity.
Defined.

(** The disk fails at the next call. *)
Definition b3f : BufferPool WalMgr := with_heaps b3 ((fun h => with_io h [IoFail 0]) <$> bp_heaps b3).

Lemma b3_room : has_room b3 ("t", 1%N) /\ has_room b3f ("t", 1%N).
Proof. split; apply has_room_check; vm_compute; reflexivity. Qed.

Lemma wal_before_page_witness :
  exists b' bf, FlushPage b3 "t" 1 = (b', None) /\ log_covers b' 1 /\ disk_of b' ("t", 1%N) = Some p1
    /\ FlushPage b3f "t" 1 = (bf, Some ErrPageWrite) /\ (fr_dirty <$> bp_objs bf !! 0) = Some true.
Proof.
  destruct b3_frame as (f & Hx & Hf & Hd & Hp). exists (FlushPage b3 "t" 1).1, (FlushPage b3f "t" 1).1.
  destruct p1_wf as [Hw Hi]. destruct b3_room as [Hr Hrf]. rewrite <-Hp in Hw, Hi.
  assert (E : FlushPage b3 "t" 1 = ((FlushPage b3 "t" 1).1, None)) by (vm_compute; reflexivity).
  assert (Ef : FlushPage b3f "t" 1 = ((FlushPage b3f "t" 1).1, Some ErrPageWrite)) by (vm_compute; reflexivity).
  destruct (wal_before_page b3 "t" 1 0 f _ None walFlusher_law Hx Hf Hd Hw Hi Hr E) as [_ (Hc & Hk & _)].
  destruct (wal_before_page b3f "t" 1 0 f _ _ walFlusher_law Hx Hf Hd Hw Hi Hrf Ef) as [_ [Hk2 _]].
  rewrite Hp in Hc, Hk. split_and!; [exact E|exact Hc|exact Hk|exact Ef|]. rewrite Hk2. cbn. by rewrite Hd.
Defined.

(** The eviction that makes room for a second page drops the row. *)
Lemma evict_ignores_errors_witness :
  exists b', evictLocked b3f = (b', true) /\ page_of b3f ("t", 1%N) = Some p1 /\ page_of b' ("t", 1%N) = Some (NewPage 1).
Proof.
  destruct b3_frame as (f & Hx & Hf & Hd & Hp). destruct p1_wf as [Hw Hi]. destruct b3_room as [_ Hrf].
  assert (Hv : find_victim (bp_objs b3f) (bp_lruList b3f) = Some (1, 0, f)).
  { change (bp_objs b3f) with (bp_objs b3). change (bp_lruList b3f) with (bp_lruList b3).
    assert (El : bp_lruList b3 = [(1, 0)]) by (vm_compute; reflexivity).
    assert (Ep : (fr_pinCount <$> bp_objs b3 !! 0) = Some 0%Z) by (vm_compute; reflexivity).
    rewrite El. cbn [find_victim]. rewrite Hf in Ep |- *. injection Ep as ->. done. }
  assert (Ht : fr_tableID f = "t").
  { assert (E : (fr_tableID <$> bp_objs b3 !! 0) = Some "t") by (vm_compute; reflexivity). rewrite Hf in E. by injection E. }
  rewrite <-Hp in Hw, Hi. destruct (evict_ignores_errors b3f 1 0 f Hv Hd Hw) as (b' & E1 & _ & _ & E2); [by rewrite Ht, Hi|].
  exists b'. split; [exact E1|]. rewrite Ht, Hi in E2.
  split; [unfold page_of, frame_page; change (bp_frames b3f) with (bp_frames b3); rewrite Hx; change (bp_objs b3f) with (bp_objs b3); rewrite Hf; by rewrite <-Hp|].
  assert (Hh : exists h, bp_heaps b3f !! "t" = Some h /\ hf_io h = [IoFail 0]).
  { destruct b3_heap as (h & Hh & _). exists (with_io h [IoFail 0]). split; [|reflexivity].
    unfold b3f. cbn [bp_heaps with_heaps]. rewrite lookup_fmap, Hh. reflexivity. }
  destruct Hh as (h & Hh & Hio). destruct (E2 h Hh) as [_ E3]. rewrite (E3 [] Hio). vm_compute. reflexivity.
Defined.
End PoolRun.
