(* ===== verification/PoolPins.v ===== *)
(** * Pins: when the buffer pool can answer

    [PoolInv] shows that the pool changes no page; here is when its
    operations succeed. A fetch or an allocation finds room as long as fewer
    pages are pinned than the pool has frames. [pin_of] counts the pins of a
    page and [settled] says that its frame may be dropped: it is dirty, and
    so will be written, or the file has it. The relation [quiet] collects
    what an operation leaves alone. *)

From Stdlib Require Import ZArith NArith Lia Strings.Byte String.
From stdpp Require Import base tactics numbers list gmap strings sorting.
From S2P Require Import Prelude Types Storage WalRecord Page Heap Wal Pool PoolInv.

Section Pins.
Context {W : Type} `{Flusher W}.
Implicit Types b : BufferPool W.

Definition frame_at b (x : string * N) : option Frame := bp_frames b !! x ≫= fun fid => bp_objs b !! fid.

Definition pin_of b (x : string * N) : Z := default 0%Z (fr_pinCount <$> frame_at b x).

Definition settled b (x : string * N) : Prop :=
  forall f, frame_at b x = Some f -> fr_dirty f = true \/ disk_of b x = Some (fr_page f).

Definition heap_info b (t : string) : option (N * list N * string) :=
  (fun h => (hf_lastPageID h, hf_freeList h, hf_tableName h)) <$> bp_heaps b !! t.

Definition pinset b : gset (string * N) := dom (filter (fun p => 0 < pin_of b p.1)%Z (bp_frames b)).

Definition one (x : string * N) (k : Z) : string * N -> Z := fun y => if decide (y = x) then k else 0%Z.

(** No page changes; pins change by [d]. *)
Record quiet (d : string * N -> Z) b b' : Prop := {
  quiet_ok : pool_ok b';
  qt_page : forall x, page_of b' x = page_of b x;
  qt_cap : bp_capacity b' = bp_capacity b;
  qt_info : forall t, heap_info b' t = heap_info b t;
  qt_pin : forall x, pin_of b' x = (pin_of b x + d x)%Z;
  qt_settled : forall x, settled b x -> settled b' x;
  qt_frames : forall x fid, bp_frames b !! x = Some fid -> (0 < pin_of b x)%Z -> bp_frames b' !! x = Some fid;
}.

Lemma pool_quiet_refl b : pool_ok b -> quiet (fun _ => 0%Z) b b.
Proof. intros HP. split; try done. intros x. lia. Qed.

Lemma pool_quiet_trans d1 d2 b1 b2 b3 :
  (forall x, 0 <= d1 x \/ pin_of b1 x <= 0)%Z -> quiet d1 b1 b2 -> quiet d2 b2 b3 -> quiet (fun x => d1 x + d2 x)%Z b1 b3.
Proof.
  intros Hd [A0 A1 A2 A3 A4 A5 A6] [B0 B1 B2 B3 B4 B5 B6]. split; [done|congruence|congruence|congruence| |by auto|].
  - intros x. rewrite B4, A4. lia.
  - intros x fid Hx Hp. destruct (Hd x) as [Hz|Hz]; [|lia]. apply B6; [by apply A6|]. rewrite A4. lia.
Qed.

Lemma quiet_ext d1 d2 b b' : (forall x, d1 x = d2 x) -> quiet d1 b b' -> quiet d2 b b'.
Proof. intros Hd [A0 A1 A2 A3 A4 A5 A6]. split; try done. intros x. by rewrite A4, Hd. Qed.

Lemma quiet_page d b b' x : quiet d b b' -> page_of b' x = page_of b x.
Proof. intros Q. apply Q. Qed.

Lemma in_file_info b x : in_file b x <-> exists l fl n, heap_info b x.1 = Some (l, fl, n) /\ (1 <= x.2 <= l)%N.
Proof.
  unfold in_file, heap_info. split.
  - intros (h & -> & Hr). by exists (hf_lastPageID h), (hf_freeList h), (hf_tableName h).
  - intros (l & fl & n & Hi & Hr). apply fmap_Some in Hi as (h & Hh & [= -> -> ->]). by exists h.
Qed.

Lemma quiet_file d b b' x : quiet d b b' -> in_file b x -> in_file b' x.
Proof. intros Q. rewrite !in_file_info. by rewrite (qt_info _ _ _ Q). Qed.

Lemma frame_at_Some b x f :
  frame_at b x = Some f <-> exists fid, bp_frames b !! x = Some fid /\ bp_objs b !! fid = Some f.
Proof. unfold frame_at. rewrite bind_Some. done. Qed.

Lemma frame_at_ok b x fid : pool_ok b -> bp_frames b !! x = Some fid -> exists f, frame_at b x = Some f /\ frame_ok b x fid f.
Proof.
  intros HP Hx. destruct (po_frames b HP x fid Hx) as (f & Hf & HO). exists f. split; [|done].
  apply frame_at_Some. by exists fid.
Qed.

Lemma frame_at_None b x : pool_ok b -> frame_at b x = None <-> bp_frames b !! x = None.
Proof.
  intros HP. unfold frame_at. destruct (bp_frames b !! x) as [fid|] eqn:Hx; [|done].
  destruct (po_frames b HP x fid Hx) as (f & Hf & _). cbn [mbind option_bind]. by rewrite Hf.
Qed.

Lemma pin_of_nonneg b x : pool_ok b -> (0 <= pin_of b x)%Z.
Proof.
  intros HP. unfold pin_of. destruct (frame_at b x) as [f|] eqn:Hf; [|done].
  apply frame_at_Some in Hf as (fid & Hx & Hf). destruct (po_frames b HP x fid Hx) as (f0 & Hf0 & [_ _ K _ _]).
  rewrite Hf in Hf0. injection Hf0 as <-. cbn. destruct (fr_lruElem f); lia.
Qed.

Lemma elem_of_pinset b x : x ∈ pinset b <-> (0 < pin_of b x)%Z.
Proof.
  unfold pinset. rewrite elem_of_dom. split.
  - intros [fid Hf]. by apply map_lookup_filter_Some in Hf as [_ Hf].
  - intros Hp. unfold pin_of, frame_at in Hp. destruct (bp_frames b !! x) as [fid|] eqn:Hx; [|cbn in Hp; lia].
    exists fid. apply map_lookup_filter_Some. split; [done|]. cbn. unfold pin_of, frame_at. by rewrite Hx.
Qed.

Lemma pinset_frames b x : x ∈ pinset b -> is_Some (bp_frames b !! x).
Proof. unfold pinset. rewrite elem_of_dom. intros [fid Hf]. apply map_lookup_filter_Some in Hf as [Hf _]. by exists fid. Qed.

Lemma pinset_quiet d b b' : (forall x, d x = 0%Z) -> quiet d b b' -> pinset b' = pinset b.
Proof. intros Hd Q. apply set_eq. intros x. rewrite !elem_of_pinset, (qt_pin _ _ _ Q), Hd, Z.add_0_r. done. Qed.

(** One frame's record changes. *)
Lemma frame_at_insert b b' x fid f' :
  pool_ok b -> bp_frames b !! x = Some fid -> bp_frames b' = bp_frames b -> bp_objs b' = <[fid := f']> (bp_objs b) ->
  forall y, frame_at b' y = if decide (y = x) then Some f' else frame_at b y.
Proof.
  intros HP Hx E1 E2 y. unfold frame_at. rewrite E1, E2. case_decide as Hy.
  - subst y. rewrite Hx. cbn [mbind option_bind]. by rewrite lookup_insert_eq.
  - destruct (bp_frames b !! y) as [g|] eqn:Hg; [|done]. cbn [mbind option_bind]. rewrite lookup_insert_ne; [done|].
    intros <-. apply Hy. by apply (frames_inj b _ _ fid).
Qed.

(** ** Evicting *)

Lemma evict_quiet b b' :
  pool_ok b -> evictLocked b = (b', true) ->
  quiet (fun _ => 0%Z) b b' /\ length (bp_lruList b') < length (bp_lruList b)
  /\ (forall x, bp_frames b !! x = None -> bp_frames b' !! x = None).
Proof.
  intros HP Hev. destruct (evictLocked_ok b b' true HP Hev) as (E1 & E2 & E3 & E4 & E5 & E6).
  destruct (evictLocked_shape b b' HP Hev) as (e & fid & f & x & [Hin Hf He Hx HO Hz G1 G2 G3 G4 G5 G6 Hdisk]).
  split; [|split; [rewrite G3; by eapply remove_elem_shorter|done]].
  assert (Hat : forall y, frame_at b' y = if decide (y = x) then None else frame_at b y).
  { intros y. unfold frame_at. rewrite G1. case_decide as Hy; [subst y; by rewrite lookup_delete_eq|].
    rewrite lookup_delete_ne by done. destruct (bp_frames b !! y) as [g|] eqn:Hg; [|done]. cbn [mbind option_bind].
    rewrite G2, lookup_insert_ne; [done|]. intros <-. apply Hy. by apply (frames_inj b _ _ fid). }
  split; [done|done|done| | | |].
  - intros t. unfold heap_info. rewrite G6. destruct (fr_dirty f); [|done]. unfold put_heap.
    destruct (bp_heaps b !! fr_tableID f) as [h|] eqn:Hh; [|done]. cbn [bp_heaps with_heaps].
    destruct (decide (t = fr_tableID f)) as [->|Hne]; [|by rewrite lookup_insert_ne].
    rewrite lookup_insert_eq, Hh, put_page_wf by apply HO. done.
  - intros y. unfold pin_of. rewrite Hat. case_decide as Hy; [|lia]. subst y.
    assert (Hfx : frame_at b x = Some f) by (apply frame_at_Some; by exists fid). rewrite Hfx. cbn. lia.
  - intros y Hs g. rewrite Hat, Hdisk. case_decide as Hy; [done|]. apply Hs.
  - intros y g Hg Hp. rewrite G1. apply lookup_delete_Some. split; [|done]. intros <-. revert Hp. unfold pin_of.
    assert (Hfx : frame_at b x = Some f) by (apply frame_at_Some; by exists fid). rewrite Hfx. cbn. lia.
Qed.

Lemma find_victim_exists objs l e fid f :
  (e, fid) ∈ l -> objs !! fid = Some f -> (fr_pinCount f <= 0)%Z -> find_victim objs l <> None.
Proof.
  intros Hin Hf Hp. induction l as [|[e' g] l IH]; [by apply elem_of_nil in Hin|]. cbn [find_victim].
  apply elem_of_cons in Hin as [[= <- <-]|Hin].
  - rewrite Hf. by rewrite (proj2 (Z.ltb_ge _ _) Hp).
  - destruct (objs !! g) as [fg|]; [|by apply IH]. destruct (0 <? fr_pinCount fg)%Z; [by apply IH|done].
Qed.

(** When not every frame is pinned, one can be evicted. *)
Lemma evict_exists b :
  pool_ok b -> size (pinset b) < totalFrames b -> exists b', evictLocked b = (b', true).
Proof.
  intros HP Hlt. assert (Hx : exists x fid, bp_frames b !! x = Some fid /\ x ∉ pinset b).
  { destruct (decide (dom (bp_frames b) ⊆ pinset b)) as [Hs|Hs].
    - apply subseteq_size in Hs. unfold totalFrames in Hlt. rewrite size_dom in Hs. lia.
    - destruct (set_choose_L (dom (bp_frames b) ∖ pinset b)) as [x Hx].
      { intros Heq. apply Hs. intros y Hy. destruct (decide (y ∈ pinset b)); [done|]. set_solver. }
      apply elem_of_difference in Hx as [Hx Hn]. apply elem_of_dom in Hx as [fid Hx]. by exists x, fid. }
  destruct Hx as (x & fid & Hx & Hn). destruct (frame_at_ok b x fid HP Hx) as (f & Hf & [_ _ K _ _]).
  rewrite elem_of_pinset in Hn. unfold pin_of in Hn. rewrite Hf in Hn. cbn in Hn.
  apply frame_at_Some in Hf as (g & Hg & Hf). rewrite Hx in Hg. injection Hg as <-.
  destruct (fr_lruElem f) as [e|]; [|lia]. destruct K as [Hz Hin].
  pose proof (find_victim_exists (bp_objs b) _ e fid f Hin Hf) as Hv. unfold evictLocked, evict_pick.
  destruct (find_victim _ _) as [[[e' g'] f']|]; [by eexists|]. exfalso. apply Hv; [lia|done].
Qed.

Lemma evict_loop_quiet fuel b :
  pool_ok b -> size (pinset b) < bp_capacity b -> length (bp_lruList b) < fuel ->
  exists b', evict_loop fuel b = (b', true) /\ quiet (fun _ => 0%Z) b b'
    /\ (forall x, bp_frames b !! x = None -> bp_frames b' !! x = None).
Proof.
  revert b. induction fuel as [|fuel IH]; intros b HP Hc Hl; [lia|]. cbn [evict_loop].
  destruct (Nat.leb_spec (bp_capacity b) (totalFrames b)) as [Hfull|_].
  2: { exists b. split; [done|]. split; [by apply pool_quiet_refl|done]. }
  destruct (evict_exists b HP) as [b1 He]; [lia|]. rewrite He.
  destruct (evict_quiet b b1 HP He) as (Q & Hlen & Hn).
  destruct (IH b1 (quiet_ok _ _ _ Q)) as (b2 & E & Q2 & Hn2).
  - by rewrite (pinset_quiet _ _ _ (fun _ => eq_refl) Q), (qt_cap _ _ _ Q).
  - lia.
  - exists b2. split; [done|]. split; [|by auto]. exact (pool_quiet_trans _ _ _ _ _ (fun _ => or_introl (Z.le_refl 0)) Q Q2).
Qed.

Lemma make_room_quiet b :
  pool_ok b -> size (pinset b) < bp_capacity b ->
  exists b', make_room b = (b', true) /\ quiet (fun _ => 0%Z) b b'
    /\ (forall x, bp_frames b !! x = None -> bp_frames b' !! x = None).
Proof. intros HP Hc. apply evict_loop_quiet; [done|done|lia]. Qed.

(** ** Fetching *)

Lemma disk_of_heaps b b' x : bp_heaps b' = bp_heaps b -> disk_of b' x = disk_of b x.
Proof. unfold disk_of. by intros ->. Qed.

Lemma fetch_cached_quiet b t pid b' fid :
  pool_ok b -> fetch_cached b t pid = Some (b', fid) -> quiet (one (t, pid) 1) b b'.
Proof.
  intros HP Hc. destruct (fetch_cached_transparent b t pid b' fid HP Hc) as (T & _).
  destruct (fetch_cached_shape b t pid b' fid HP Hc) as (f & Hx & Hf & E).
  assert (Hfx : frame_at b (t, pid) = Some f) by (apply frame_at_Some; by exists fid).
  set (f' := set_lru None _) in E.
  assert (Hat : forall y, frame_at b' y = if decide (y = (t, pid)) then Some f' else frame_at b y).
  { apply (frame_at_insert b b' (t, pid) fid f' HP Hx); by rewrite E. }
  assert (E1 : bp_heaps b' = bp_heaps b) by (by rewrite E).
  split; [apply T|apply T|by rewrite E|unfold heap_info; by rewrite E1| | |by rewrite E].
  - intros y. unfold pin_of, one. rewrite Hat. case_decide as Hy; [|lia]. subst y. rewrite Hfx. cbn. lia.
  - intros y Hs g. rewrite Hat, (disk_of_heaps b b' y E1). case_decide as Hy; [|apply Hs].
    intros [= <-]. subst y. cbn. by apply Hs.
Qed.

Lemma add_frame_quiet b t pid p b' fid :
  pool_ok b -> bp_frames b !! (t, pid) = None -> page_wf p -> pg_id p = pid -> in_file b (t, pid) ->
  disk_of b (t, pid) = Some p -> add_frame b t pid p = (b', fid) -> quiet (one (t, pid) 1) b b'.
Proof.
  intros HP Hn Hp Hid Hin Hd Ha. destruct (add_frame_ok b t pid p b' fid HP Hn Hp Hid Hin Hd Ha) as (T & _).
  unfold add_frame in Ha. injection Ha as Ha <-. set (f := mkFrame p t false 1 None) in Ha.
  assert (Hat : forall y, frame_at b' y = if decide (y = (t, pid)) then Some f else frame_at b y).
  { intros y. rewrite <-Ha. unfold frame_at. cbn. case_decide as Hy.
    - subst y. by rewrite lookup_insert_eq; cbn; rewrite lookup_insert_eq.
    - rewrite lookup_insert_ne by done. destruct (bp_frames b !! y) as [g|] eqn:Hg; [|done]. cbn.
      rewrite lookup_insert_ne; [done|]. intros <-. destruct (po_frames b HP y _ Hg) as (f0 & Hf0 & _).
      pose proof (po_objs b HP _ (ex_intro _ f0 Hf0)). lia. }
  assert (E1 : bp_heaps b' = bp_heaps b) by (by rewrite <-Ha).
  split; [apply T|apply T|by rewrite <-Ha|unfold heap_info; by rewrite E1| | |].
  - intros y. unfold pin_of, one. rewrite Hat. case_decide as Hy; [|lia]. subst y.
    rewrite (proj2 (frame_at_None b _ HP) Hn). done.
  - intros y Hs g. rewrite Hat, (disk_of_heaps b b' y E1). case_decide as Hy; [|apply Hs].
    intros [= <-]. subst y. by right.
  - intros y g Hy _. rewrite <-Ha. cbn. rewrite lookup_insert_ne; [done|]. intros <-. congruence.
Qed.

Lemma in_file_read b t pid : pool_ok b -> in_file b (t, pid) ->
  exists h p, bp_heaps b !! t = Some h /\ ReadPage h pid = Ok p /\ page_wf p /\ pg_id p = pid.
Proof.
  intros HP (h & Hh & Hr). destruct (hk_pages h (po_heaps b HP t h Hh) pid Hr) as (p & Hp & Hw & Hi). by exists h, p.
Qed.

Lemma page_of_frame_page b x fid : bp_frames b !! x = Some fid -> page_of b x = frame_page b fid.
Proof. unfold page_of. by intros ->. Qed.

Lemma fetch_quiet b t pid :
  pool_ok b -> in_file b (t, pid) -> size (pinset b) < bp_capacity b \/ (0 < pin_of b (t, pid))%Z ->
  exists b' fid, FetchPage b t pid = (b', Ok fid) /\ quiet (one (t, pid) 1) b b'
    /\ bp_frames b' !! (t, pid) = Some fid /\ frame_page b' fid = page_of b (t, pid).
Proof.
  intros HP Hin Hroom. enough (exists b' fid, FetchPage b t pid = (b', Ok fid) /\ quiet (one (t, pid) 1) b b'
    /\ bp_frames b' !! (t, pid) = Some fid) as (b' & fid & E1 & Q & E2).
  { exists b', fid. split_and!; try done. rewrite <-(quiet_page _ _ _ (t, pid) Q). symmetry. by apply page_of_frame_page. }
  unfold FetchPage. destruct (fetch_cached b t pid) as [[b1 fid]|] eqn:Hc.
  { exists b1, fid. split; [done|]. split; [by eapply fetch_cached_quiet|]. by apply (fetch_cached_ok b t pid b1 fid HP Hc). }
  assert (Hn : bp_frames b !! (t, pid) = None).
  { revert Hc. unfold fetch_cached. destruct (bp_frames b !! (t, pid)); [|done]. by destruct (_ ≫= _). }
  destruct Hroom as [Hroom|Hp].
  2: { unfold pin_of in Hp. rewrite (proj2 (frame_at_None b _ HP) Hn) in Hp. cbn in Hp. lia. }
  destruct (make_room_quiet b HP Hroom) as (b1 & -> & Q & Hn1). specialize (Hn1 _ Hn). pose proof (quiet_ok _ _ _ Q) as HP1.
  pose proof (quiet_file _ _ _ _ Q Hin) as Hin1.
  destruct (in_file_read b1 t pid HP1 Hin1) as (h & p & Hh & Hr & Hw & Hi). rewrite Hh, Hr.
  assert (Hc1 : fetch_cached b1 t pid = None) by (unfold fetch_cached; by rewrite Hn1). rewrite Hc1.
  destruct (add_frame b1 t pid p) as [b2 fid] eqn:Ha. exists b2, fid. split; [done|].
  assert (Hd : disk_of b1 (t, pid) = Some p) by (unfold disk_of; cbn [fst snd]; by rewrite Hh, Hr).
  split; [|by destruct (add_frame_ok b1 t pid p b2 fid HP1 Hn1 Hw Hi Hin1 Hd Ha) as (_ & ? & _)].
  eapply quiet_ext; [|exact (pool_quiet_trans _ _ _ _ _ (fun _ => or_introl (Z.le_refl 0)) Q (add_frame_quiet b1 t pid p b2 fid HP1 Hn1 Hw Hi Hin1 Hd Ha))].
  done.
Qed.

(** ** Unpinning *)

Lemma unpin_quiet b t pid dirty :
  pool_ok b -> (0 < pin_of b (t, pid))%Z -> dirty = true \/ (1 < pin_of b (t, pid))%Z \/ settled b (t, pid) ->
  let b' := UnpinPage b t pid dirty in
  quiet (one (t, pid) (-1)) b b' /\ (dirty = true -> settled b' (t, pid)).
Proof.
  intros HP Hpin Hs b'. unfold pin_of in Hpin, Hs. destruct (frame_at b (t, pid)) as [f|] eqn:Hfx; [|cbn in Hpin; lia].
  cbn in Hpin, Hs. pose proof Hfx as (fid & Hx & Hf)%frame_at_Some.
  assert (Hm : may_unpin b (t, pid) dirty).
  { exists fid, f. split_and!; try done. destruct Hs as [->|[Hs|Hs]]; [by left|by right; left|].
    destruct (Hs f Hfx) as [Hd|Hd]; [left; rewrite Hd; by destruct dirty|by right; right]. }
  destruct (UnpinPage_ok b t pid dirty HP Hm) as [HP' Hpg].
  destruct (UnpinPage_shape b t pid dirty fid f HP Hx Hf Hpin) as [He E]. fold b' in HP', Hpg, E.
  set (f' := mkFrame (fr_page f) (fr_tableID f) (dirty || fr_dirty f) (fr_pinCount f - 1)
    (if (fr_pinCount f - 1 <=? 0)%Z then Some (bp_next b) else None)).
  assert (Hat : forall y, frame_at b' y = if decide (y = (t, pid)) then Some f' else frame_at b y).
  { apply (frame_at_insert b b' (t, pid) fid f' HP Hx); by rewrite E. }
  assert (E1 : bp_heaps b' = bp_heaps b) by (by rewrite E).
  split.
  - split; [done|done|by rewrite E|unfold heap_info; by rewrite E1| | |by rewrite E].
    + intros y. unfold pin_of, one. rewrite Hat. case_decide as Hy; [|lia]. subst y. rewrite Hfx. cbn. lia.
    + intros y Hsy g. rewrite Hat, (disk_of_heaps b b' y E1). case_decide as Hy; [|apply Hsy].
      intros [= <-]. subst y. cbn. destruct (Hsy f Hfx) as [->|?]; [left; by destruct dirty|by right].
  - intros -> g. rewrite Hat, decide_True by done. intros [= <-]. by left.
Qed.
(** ** Writing to a pinned page *)

Lemma set_page_pins b x fid p :
  pool_ok b -> bp_frames b !! x = Some fid -> (0 < pin_of b x)%Z -> page_wf p -> pg_id p = x.2 ->
  let b' := set_page b fid p in
  pool_ok b' /\ (forall y, page_of b' y = if decide (y = x) then Some p else page_of b y)
  /\ bp_frames b' = bp_frames b /\ bp_capacity b' = bp_capacity b /\ (forall t, heap_info b' t = heap_info b t)
  /\ (forall y, pin_of b' y = pin_of b y) /\ (forall y, y <> x -> settled b y -> settled b' y).
Proof.
  intros HP Hx Hpin Hw Hid b'. destruct (frame_at_ok b x fid HP Hx) as (f & Hfx & HO).
  assert (Hpn : pinned b x).
  { unfold pin_of in Hpin. rewrite Hfx in Hpin. apply frame_at_Some in Hfx as (g & Hg & Hf). by exists g, f. }
  destruct (set_page_ok b x fid p HP Hx Hpn Hw Hid) as (E1 & E2 & _).
  pose proof Hfx as (g & Hg & Hf)%frame_at_Some. rewrite Hx in Hg. injection Hg as <-.
  assert (Hat : forall y, frame_at b' y = if decide (y = x) then Some (set_fpage p f) else frame_at b y).
  { apply (frame_at_insert b b' x fid _ HP Hx); [done|]. unfold b', set_page, upd_frame. cbn.
    by rewrite (alter_Some _ _ _ _ Hf). }
  split_and!; try done.
  - intros y. unfold pin_of. rewrite Hat. case_decide as Hy; [|done]. subst y. by rewrite Hfx.
  - intros y Hy Hs g. rewrite Hat, decide_False by done. apply Hs.
Qed.

Lemma set_page_twice b fid p q : set_page (set_page b fid p) fid q = set_page b fid q.
Proof.
  unfold set_page, upd_frame, with_objs. cbn. f_equal. apply map_eq. intros i. destruct (decide (i = fid)) as [->|Hne].
  - rewrite !lookup_alter_eq. by destruct (bp_objs b !! fid).
  - by rewrite !lookup_alter_ne.
Qed.

(** ** Allocating *)

Definition info_size (fl : list N) (n : string) : N := 12 + blen (bytes_of_string n) + 8 * N.of_nat (length fl).

Lemma put_new_page_succeeds h :
  (hf_lastPageID h + 1 < two64)%N -> (info_size (hf_freeList h) (hf_tableName h) <= MetaRoom)%N ->
  exists h', put_new_page h = Some (h', (hf_lastPageID h + 1)%N) /\ hf_tableName h' = hf_tableName h.
Proof.
  intros Hl Hfit. unfold put_new_page. rewrite u64_add_small by done. set (id := (hf_lastPageID h + 1)%N).
  set (h2 := put_page _ _).
  assert (E : hf_freeList h2 = hf_freeList h /\ hf_tableName h2 = hf_tableName h).
  { unfold h2. by rewrite put_page_wf by (by apply page_wf_NewPage). }
  destruct E as [E1 E2]. unfold put_meta. assert (Hm : (meta_size h2 <= MetaRoom)%N) by (unfold meta_size; by rewrite E1, E2).
  rewrite (meta_area_ok h2 Hm). cbn [mbind option_bind]. eexists. split; [done|]. done.
Qed.

Lemma new_quiet b t l fl n :
  pool_ok b -> heap_info b t = Some (l, fl, n) -> (l + 1 < two64)%N -> (info_size fl n <= MetaRoom)%N ->
  size (pinset b) < bp_capacity b ->
  let id := (l + 1)%N in
  exists b' fid, Pool_NewPage b t = Some (b', Ok (id, fid)) /\ pool_ok b' /\ bp_capacity b' = bp_capacity b
    /\ (forall t', heap_info b' t' = if decide (t' = t) then Some (id, fl, n) else heap_info b t')
    /\ (forall y, page_of b' y = if decide (y = (t, id)) then Some (NewPage id) else page_of b y)
    /\ bp_frames b' !! (t, id) = Some fid /\ (forall y, pin_of b' y = pin_of b y + one (t, id) 1 y)%Z
    /\ (forall y, settled b y -> settled b' y)
    /\ (forall y g, bp_frames b !! y = Some g -> (0 < pin_of b y)%Z -> bp_frames b' !! y = Some g).
Proof.
  intros HP Hi Hl Hfit Hroom id. unfold heap_info in Hi. apply fmap_Some in Hi as (h & Hh & [= -> -> ->]).
  destruct (put_new_page_succeeds h Hl Hfit) as (h' & Ha & Hn').
  destruct (put_new_page_ok h h' id (po_heaps b HP t h Hh) Hl Ha) as (_ & _ & El & Ef & _).
  unfold Pool_NewPage. rewrite Hh, (AllocatePage_io h (hk_io h (po_heaps b HP t h Hh))), Ha. cbn [mbind option_bind]. fold id in Ha |- *.
  destruct (pool_allocate b t h h' id HP Hh Hl Ha) as (HP1 & Hpg1 & _ & Hin1 & Hn1 & Hd1). set (b1 := with_heaps _ _) in *.
  assert (Hpin1 : forall y, pin_of b1 y = pin_of b y) by done.
  assert (Hps1 : pinset b1 = pinset b) by done.
  assert (Hs1 : forall y, settled b y -> settled b1 y).
  { intros y Hs g Hg. rewrite Hd1. case_decide as Hy; [|by apply Hs]. subst y.
    change (frame_at b1) with (frame_at b) in Hg. rewrite (proj2 (frame_at_None b _ HP) Hn1) in Hg. done. }
  destruct (make_room_quiet b1 HP1) as (b2 & -> & Q & Hn2); [by rewrite Hps1|].
  specialize (Hn2 _ Hn1). pose proof (quiet_ok _ _ _ Q) as HP2. pose proof (quiet_file _ _ _ _ Q Hin1) as Hin2.
  destruct (add_frame b2 t id (NewPage id)) as [b3 fid] eqn:Haf.
  assert (Hd2 : disk_of b2 (t, id) = Some (NewPage id)).
  { pose proof (quiet_page _ _ _ (t, id) Q) as Hp. rewrite Hpg1, decide_True in Hp by done. unfold page_of in Hp. by rewrite Hn2 in Hp. }
  assert (Hw : page_wf (NewPage id)) by (by apply page_wf_NewPage).
  pose proof (add_frame_quiet b2 t id _ b3 fid HP2 Hn2 Hw eq_refl Hin2 Hd2 Haf) as Q3.
  destruct (add_frame_ok b2 t id _ b3 fid HP2 Hn2 Hw eq_refl Hin2 Hd2 Haf) as (_ & Hx3 & _).
  pose proof (pool_quiet_trans _ _ _ _ _ (fun _ => or_introl (Z.le_refl 0)) Q Q3) as QQ.
  exists b3, fid. split; [done|]. split; [apply QQ|]. split; [apply (qt_cap _ _ _ QQ)|]. split_and!; [| |done| | |].
  - intros t'. rewrite (qt_info _ _ _ QQ). unfold heap_info, b1. cbn. case_decide as Ht.
    + subst t'. rewrite lookup_insert_eq. cbn. by rewrite El, Ef, Hn'.
    + by rewrite lookup_insert_ne.
  - intros y. rewrite (quiet_page _ _ _ _ QQ). apply Hpg1.
  - intros y. rewrite (qt_pin _ _ _ QQ), Hpin1. lia.
  - intros y Hs. apply (qt_settled _ _ _ QQ). auto.
  - intros y g Hg Hp. apply (qt_frames _ _ _ QQ y g); [exact Hg|by rewrite Hpin1].
Qed.
(** ** Safe states *)

(** Every frame may be dropped or is pinned. *)
Definition safe b : Prop := pool_ok b /\ forall x, settled b x \/ (0 < pin_of b x)%Z.

(** [k] more pages can be pinned. *)
Definition room b (k : nat) : Prop := size (pinset b) + k <= bp_capacity b.

Lemma page_of_wf b x p : pool_ok b -> page_of b x = Some p -> in_file b x /\ page_wf p /\ pg_id p = x.2.
Proof.
  intros HP. unfold page_of. destruct (bp_frames b !! x) as [fid|] eqn:Hx.
  - destruct (po_frames b HP x fid Hx) as (f & Hf & [K1 K2 _ K4 _]). unfold frame_page. rewrite Hf. cbn. intros [= <-].
    split; [done|]. split; [done|]. by rewrite <-K1.
  - unfold disk_of. destruct (bp_heaps b !! x.1) as [h|] eqn:Hh; [|done].
    destruct (ReadPage h x.2) as [q|] eqn:Hr; [|done]. intros [= ->].
    destruct (heap_ok_read h x.2 p (po_heaps b HP _ _ Hh) Hr) as (H1 & H2 & H3). split; [by exists h|done].
Qed.

Lemma in_file_page b x : pool_ok b -> in_file b x -> exists p, page_of b x = Some p.
Proof.
  intros HP Hin. unfold page_of. destruct (bp_frames b !! x) as [fid|] eqn:Hx.
  - destruct (po_frames b HP x fid Hx) as (f & Hf & _). exists (fr_page f). unfold frame_page. by rewrite Hf.
  - destruct x as [t pid]. destruct (in_file_read b t pid HP Hin) as (h & p & Hh & Hr & _). exists p.
    unfold disk_of. cbn [fst snd]. by rewrite Hh, Hr.
Qed.

Lemma safe_quiet d b b' : (forall x, 0 <= d x)%Z -> safe b -> quiet d b b' -> safe b'.
Proof.
  intros Hd [HP Hs] Q. split; [apply Q|]. intros x. specialize (Hd x). rewrite (qt_pin _ _ _ Q).
  destruct (Hs x); [left; by apply (qt_settled _ _ _ Q)|right; lia].
Qed.

Lemma room_le b b' k j :
  bp_capacity b' = bp_capacity b -> size (pinset b') + k <= size (pinset b) + j -> room b j -> room b' k.
Proof. unfold room. lia. Qed.

Lemma room_pins b b' k :
  bp_capacity b' = bp_capacity b -> (forall x, pin_of b' x = pin_of b x) -> room b k -> room b' k.
Proof.
  intros Hc Hp. apply room_le; [done|]. enough (pinset b' = pinset b) as -> by done. apply set_eq. intros x.
  by rewrite !elem_of_pinset, Hp.
Qed.

Lemma size_pinset_one b b' x :
  (forall y, pin_of b' y = pin_of b y + one x 1 y)%Z -> size (pinset b') <= S (size (pinset b)).
Proof.
  intros Hp. transitivity (size ({[x]} ∪ pinset b)).
  - apply subseteq_size. intros y. rewrite elem_of_union, elem_of_singleton, !elem_of_pinset, Hp. unfold one.
    case_decide; [by left|]. intros. right. lia.
  - pose proof (size_union_alt {[x]} (pinset b)) as E. rewrite E, size_singleton.
    pose proof (subseteq_size (pinset b ∖ {[x]}) (pinset b)) as Hs. specialize (Hs ltac:(set_solver)). lia.
Qed.

Lemma room_one b b' x k :
  bp_capacity b' = bp_capacity b -> (forall y, pin_of b' y = pin_of b y + one x 1 y)%Z -> room b (S k) -> room b' k.
Proof. intros Hc Hp. apply room_le; [done|]. pose proof (size_pinset_one b b' x Hp). lia. Qed.

(** A page opened: fetched and pinned, to be read or written. *)
Record opened b b' (x : string * N) (fid : nat) (p : Page) : Prop := {
  op_quiet : quiet (one x 1) b b';
  op_safe : safe b';
  op_frame : bp_frames b' !! x = Some fid;
  op_fpage : frame_page b' fid = Some p;
  op_page : page_of b x = Some p;
  op_wf : page_wf p;
  op_id : pg_id p = x.2;
  op_pin : (0 < pin_of b' x)%Z;
  op_settled : settled b' x \/ (1 < pin_of b' x)%Z;
}.

Lemma one_nonneg x y k : (0 <= k)%Z -> (0 <= one x k y)%Z.
Proof. unfold one. by case_decide. Qed.

Lemma fetch_open b t pid :
  safe b -> in_file b (t, pid) -> room b 1 ->
  exists b' fid p, FetchPage b t pid = (b', Ok fid) /\ opened b b' (t, pid) fid p.
Proof.
  intros Hs Hin Hr. pose proof Hs as [HP Hset]. destruct (fetch_quiet b t pid HP Hin) as (b' & fid & E & Q & Hx & Hpg).
  { left. unfold room in Hr. lia. }
  destruct (in_file_page b (t, pid) HP Hin) as [p Hp]. exists b', fid, p. split; [done|].
  destruct (page_of_wf b (t, pid) p HP Hp) as (_ & Hw & Hi).
  assert (Hs' : safe b') by (eapply safe_quiet; [|done|done]; intros y; by apply one_nonneg).
  pose proof (qt_pin _ _ _ Q (t, pid)) as Hpin. unfold one in Hpin. rewrite decide_True in Hpin by done.
  pose proof (pin_of_nonneg b (t, pid) HP) as Hn.
  split; try done; [congruence|lia|]. destruct (Hset (t, pid)) as [Hz|Hz]; [left; by apply (qt_settled _ _ _ Q)|right; lia].
Qed.

Lemma unpin_safe b t pid dirty :
  safe b -> (0 < pin_of b (t, pid))%Z -> dirty = true \/ settled b (t, pid) \/ (1 < pin_of b (t, pid))%Z ->
  quiet (one (t, pid) (-1)) b (UnpinPage b t pid dirty) /\ safe (UnpinPage b t pid dirty).
Proof.
  intros [HP Hset] Hpin Hs. destruct (unpin_quiet b t pid dirty HP Hpin) as [Q Hd]; [naive_solver|]. split; [done|].
  split; [apply Q|]. intros y. rewrite (qt_pin _ _ _ Q). unfold one. case_decide as Hy.
  - subst y. destruct Hs as [Hs|[Hs|Hs]]; [left; by apply Hd|left; by apply (qt_settled _ _ _ Q)|right; lia].
  - destruct (Hset y); [left; by apply (qt_settled _ _ _ Q)|right; lia].
Qed.

Lemma set_page_safe b x fid p :
  safe b -> bp_frames b !! x = Some fid -> (0 < pin_of b x)%Z -> page_wf p -> pg_id p = x.2 -> safe (set_page b fid p).
Proof.
  intros [HP Hset] Hx Hpin Hw Hid. destruct (set_page_pins b x fid p HP Hx Hpin Hw Hid) as (E1 & _ & _ & _ & _ & E2 & E3).
  split; [done|]. intros y. rewrite E2. destruct (decide (y = x)) as [->|Hy]; [by right|].
  destruct (Hset y); [left; by apply E3|by right].
Qed.

Lemma frame_page_set b x fid p :
  pool_ok b -> bp_frames b !! x = Some fid -> frame_page (set_page b fid p) fid = Some p.
Proof.
  intros HP Hx. destruct (po_frames b HP x fid Hx) as (f & Hf & _). unfold frame_page, set_page, upd_frame. cbn.
  rewrite lookup_alter_eq, Hf. done.
Qed.
(** ** The free list *)

Lemma set_free_safe b t h fl :
  safe b -> bp_heaps b !! t = Some h ->
  let b' := with_heaps b (<[t := with_freeList h fl]> (bp_heaps b)) in
  safe b' /\ (forall x, page_of b' x = page_of b x) /\ (forall x, pin_of b' x = pin_of b x)
  /\ (forall t', heap_info b' t' = if decide (t' = t) then Some (hf_lastPageID h, fl, hf_tableName h) else heap_info b t').
Proof.
  intros [HP Hset] Hh b'.
  assert (Hd : forall x, disk_of b' x = disk_of b x).
  { intros x. unfold disk_of, b'. cbn. destruct (decide (x.1 = t)) as [->|Hne]; [|by rewrite lookup_insert_ne].
    rewrite lookup_insert_eq, Hh. by rewrite (ReadPage_hf (with_freeList h fl) h). }
  assert (Hi : forall x, in_file b x -> in_file b' x).
  { intros x (h0 & Hh0 & Hr). unfold in_file, b'. cbn. destruct (decide (x.1 = t)) as [Hx|Hne].
    - rewrite Hx, lookup_insert_eq. eexists. split; [done|]. rewrite Hx, Hh in Hh0. by injection Hh0 as <-.
    - rewrite lookup_insert_ne by done. by exists h0. }
  assert (HP' : pool_ok b').
  { split; try apply HP.
    - intros y g Hy. destruct (po_frames b HP y g Hy) as (fg & Hfg & [J1 J2 J3 J4 J5]). exists fg. split; [done|].
      split; try done; [by apply Hi|]. by rewrite Hd.
    - intros t' h0 Hl. unfold b' in Hl. cbn in Hl. apply lookup_insert_Some in Hl as [[<- <-]|[_ Hl]]; [|by eapply po_heaps].
      destruct (po_heaps b HP t h Hh) as [K0 K1 K2 K3].
      split; [done|done|intros p; by rewrite (ReadPage_hf (with_freeList h fl) h)|].
      intros id Hid. rewrite (ReadPage_hf (with_freeList h fl) h) by done. by apply K3. }
  split_and!; [|..].
  - split; [done|]. intros x. destruct (Hset x) as [Hs|Hs]; [left|by right]. intros f Hf. rewrite Hd. by apply Hs.
  - intros x. unfold page_of. by rewrite Hd.
  - done.
  - intros t'. unfold heap_info, b'. cbn. case_decide as Ht; [subst; by rewrite lookup_insert_eq|by rewrite lookup_insert_ne].
Qed.
(** ** A file registered with the pool *)

Lemma add_heap_safe b t h :
  safe b -> bp_heaps b !! t = None -> heap_ok h -> hf_lastPageID h = 0%N ->
  let b' := with_heaps b (<[t := h]> (bp_heaps b)) in
  safe b' /\ bp_capacity b' = bp_capacity b /\ (forall x, pin_of b' x = pin_of b x)
  /\ (forall t', heap_info b' t' = if decide (t' = t) then Some (0%N, hf_freeList h, hf_tableName h) else heap_info b t').
Proof.
  intros [HP Hset] Hn HK Hl b'.
  assert (Hd : forall x, x.1 <> t -> disk_of b' x = disk_of b x) by (intros x Hx; unfold disk_of, b'; cbn; by rewrite lookup_insert_ne).
  assert (Hin : forall x, in_file b x -> x.1 <> t /\ in_file b' x).
  { intros x (h0 & Hh0 & Hr). assert (Hx : x.1 <> t) by (intros Hx; rewrite Hx in Hh0; congruence). split; [done|].
    exists h0. unfold b'. cbn. by rewrite lookup_insert_ne. }
  assert (HP' : pool_ok b').
  { split; try apply HP.
    - intros y g Hy. destruct (po_frames b HP y g Hy) as (fg & Hfg & [J1 J2 J3 J4 J5]). exists fg. split; [done|].
      destruct (Hin y J4) as [Hy1 Hy2]. split; try done. by rewrite Hd.
    - intros t' h0 Hl0. unfold b' in Hl0. cbn in Hl0. apply lookup_insert_Some in Hl0 as [[<- <-]|[_ Hl0]]; [done|by eapply po_heaps]. }
  split_and!; try done.
  - split; [done|]. intros x. destruct (Hset x) as [Hs|Hs]; [left|by right]. intros f Hf. pose proof Hf as (fid & Hx & Hf')%frame_at_Some.
    destruct (po_frames b HP x fid Hx) as (f0 & Hf0 & [_ _ _ J4 _]). destruct (Hin x J4) as [Hx1 _]. rewrite Hd by done. by apply Hs.
  - intros t'. unfold heap_info, b'. cbn. case_decide as Ht; [subst; rewrite lookup_insert_eq; cbn; by rewrite Hl|by rewrite lookup_insert_ne].
Qed.

(** ** Flushing *)

(** The file has the page. *)
Definition synced b (x : string * N) : Prop := disk_of b x = page_of b x.

Lemma FlushPage_synced b t pid b' :
  pool_ok b -> FlushPage b t pid = (b', None) ->
  (forall t', heap_info b' t' = heap_info b t') /\ (forall x, synced b x -> synced b' x)
  /\ (forall x, settled b x -> settled b' x) /\ (settled b (t, pid) -> synced b' (t, pid)).
Proof.
  intros HP HE. destruct (FlushPage_ok b t pid b' None HP HE) as [T _]. revert HE. unfold FlushPage.
  destruct (bp_frames b !! (t, pid)) as [fid|] eqn:Hx; cbn [mbind option_bind].
  2: { intros [= <-]. split_and!; try done. intros _. unfold synced, page_of. by rewrite Hx. }
  destruct (po_frames b HP _ _ Hx) as (f & Hf & [K1 K2 _ K4 _]). rewrite Hf. cbn [fmap option_fmap option_map].
  assert (Hfx : frame_at b (t, pid) = Some f) by (apply frame_at_Some; by exists fid).
  destruct (fr_dirty f) eqn:Hd; cbn [negb].
  2: { intros [= <-]. split_and!; try done. intros Hs. destruct (Hs f Hfx) as [?|Hdk]; [congruence|].
       unfold synced, page_of, frame_page. by rewrite Hx, Hf. }
  destruct (flush_wal_same b (pg_pageLSN (fr_page f))) as (G1 & G2 & G3 & G4 & G5 & G6).
  destruct (flush_wal b _) as [b1 [|]]; simpl in G1, G2, G3, G4, G5, G6; [|done]. rewrite G5.
  destruct (bp_heaps b !! t) as [h|] eqn:Hh; [|done]. injection K1 as Kt Kid.
  assert (T1 : transparent b b1) by (by apply transparent_same).
  rewrite write_heap_ok by (apply (tr_ok _ _ T1)). intros [= Eb].
  assert (Hdisk : forall y, disk_of b' y = if decide (y = (t, pid)) then Some (fr_page f) else disk_of b y).
  { intros y. rewrite <-Eb. etrans; [apply (disk_of_write b1 t (fr_page f) y (tr_ok _ _ T1) K2); rewrite Kid; by apply (tr_file _ _ T1)|].
    rewrite Kid. case_decide; [done|]. by apply disk_of_heaps. }
  assert (Hpx : page_of b (t, pid) = Some (fr_page f)) by (rewrite (page_of_frame_page b _ fid Hx); unfold frame_page; by rewrite Hf).
  split_and!.
  - intros t'. rewrite <-Eb. unfold heap_info, put_heap. rewrite G5, Hh, put_page_wf by done. cbn.
    destruct (decide (t' = t)) as [->|Hne]; [|by rewrite lookup_insert_ne].
    by rewrite lookup_insert_eq, Hh.
  - intros x Hsy. unfold synced. rewrite Hdisk, (tr_page _ _ T). case_decide; [by subst|done].
  - intros x Hs. assert (Hat : forall y, frame_at b' y = if decide (y = (t, pid)) then Some (set_dirty false f) else frame_at b y).
    { assert (E1 : bp_frames b' = bp_frames b /\ bp_objs b' = alter (set_dirty false) fid (bp_objs b)).
      { rewrite <-Eb. unfold put_heap. rewrite G5, Hh. cbn. by rewrite G1, G2. }
      destruct E1 as [E1 E2]. apply (frame_at_insert b b' (t, pid) fid _ HP Hx E1). rewrite E2. by apply alter_Some. }
    intros g. rewrite Hat, Hdisk. case_decide as Hxy; [|apply Hs]. intros [= <-]. by right.
  - intros _. unfold synced. rewrite Hdisk, (tr_page _ _ T), decide_True by done. done.
Qed.

Lemma flush_loop_synced l b b' :
  pool_ok b -> flush_loop b l = (b', None) ->
  (forall t, heap_info b' t = heap_info b t)
  /\ forall x, settled b x -> synced b x \/ (exists lsn, (x, lsn) ∈ l) -> synced b' x.
Proof.
  revert b. induction l as [|[[t pid] lsn] l IH]; intros b HP; cbn [flush_loop].
  { intros [= <-]. split; [done|]. intros x _ [?|[? Hin]]; [done|]. by apply elem_of_nil in Hin. }
  destruct (FlushPage b t pid) as [b1 o] eqn:Hf. destruct (FlushPage_ok b t pid b1 o HP Hf) as [T _]. destruct o; [done|].
  destruct (FlushPage_synced b t pid b1 HP Hf) as (F1 & F2 & F3 & F4). intros Hl. destruct (IH b1 (tr_ok _ _ T) Hl) as [I1 I2].
  split; [intros t'; by rewrite I1, F1|]. intros x Hset [Hs|[lsn' Hin]]; [apply I2; auto|].
  apply elem_of_cons in Hin as [[= -> ->]|Hin]; apply I2; auto. right. by exists lsn'.
Qed.

(** After [FlushAllDirty] the file has every page that was settled. *)
Lemma FlushAllDirty_synced b b' :
  pool_ok b -> FlushAllDirty b = (b', None) ->
  transparent b b' /\ (forall t, heap_info b' t = heap_info b t) /\ forall x, settled b x -> synced b' x.
Proof.
  intros HP HE. unfold FlushAllDirty in HE. split; [by eapply flush_loop_ok|].
  destruct (flush_loop_synced _ b b' HP HE) as [F1 F2]. split; [done|]. intros x Hs. apply F2; [done|].
  destruct (frame_at b x) as [f|] eqn:Hfx.
  2: { left. unfold synced, page_of. by rewrite (proj1 (frame_at_None b _ HP) Hfx). }
  pose proof Hfx as (fid & Hx & Hf)%frame_at_Some. destruct (Hs f Hfx) as [Hd|Hd].
  - right. exists (pg_pageLSN (fr_page f)). rewrite merge_sort_Permutation. unfold dirty_pages. apply list_elem_of_omap.
    exists (x, fid). split; [by apply elem_of_map_to_list|]. by rewrite Hf, Hd.
  - left. unfold synced, page_of, frame_page. by rewrite Hx, Hf.
Qed.

(** ** A new pool *)

Lemma frame_at_new n heaps (w : option W) x : frame_at (NewBufferPool n heaps w) x = None.
Proof. done. Qed.

Lemma pool_new n heaps (w : option W) :
  (forall t h, heaps !! t = Some h -> heap_ok h) ->
  safe (NewBufferPool n heaps w) /\ (forall x, pin_of (NewBufferPool n heaps w) x = 0%Z)
  /\ forall k, k <= n -> room (NewBufferPool n heaps w) k.
Proof.
  intros Hh. split_and!.
  - split; [by apply pool_ok_new|]. intros x. left. intros f. by rewrite frame_at_new.
  - intros x. unfold pin_of. by rewrite frame_at_new.
  - intros k Hk. unfold room. assert (pinset (NewBufferPool n heaps w) = ∅) as ->; [|rewrite size_empty; cbn; lia].
    apply set_eq. intros x. rewrite elem_of_pinset. unfold pin_of. rewrite frame_at_new. cbn. split; [lia|by intros []%elem_of_empty].
Qed.
End Pins.
