(* ===== verification/PagedTable.v ===== *)
(** * Paged tables ([internal/storage/paged_table.go])

    A table whose rows live on the slotted pages of its heap file, reached
    through the buffer pool, and whose index maps keys to locations. The
    index is an interface ([RowIndex]): the in-memory map of
    [STORAGE_MODE=memory] is the instance here. The table's heap file is the
    one the pool has for it, as [cmd/server/main.go] wires them. The pool is
    shared with other tables and threaded through every call; [None] is a
    run-time panic. *)

From Stdlib Require Import ZArith NArith Lia Strings.Byte String.
From stdpp Require Import base tactics numbers list gmap strings sorting.
From S2P Require Import Prelude Types Storage WalRecord Page Heap Wal Pool PoolInv PoolPins.

Record rowLocation := mkLoc { rl_pageID : N; rl_slotID : N }.

#[global] Instance rowLocation_eq_dec : EqDecision rowLocation.
Proof. solve_decision. Defined.

(** What a table asks of its index; an insert that fails returns [false]. *)
Class RowIndex (W I : Type) := {
  indexReset : I -> I;
  indexSearch : BufferPool W -> I -> RowKey -> option (BufferPool W * option rowLocation);
  indexInsert : BufferPool W -> I -> RowKey -> rowLocation -> option (BufferPool W * I * bool);
  indexDelete : BufferPool W -> I -> RowKey -> option (BufferPool W * I);
  indexAllKeys : BufferPool W -> I -> option (BufferPool W * list RowKey);
  indexCount : BufferPool W -> I -> option (BufferPool W * nat);
  indexSorted : bool;
}.

(** [useMap]. The order of the keys is that of the map; Go's is
    unspecified. *)
#[export] Instance mapIndex {W} : RowIndex W (gmap RowKey rowLocation) := {|
  indexReset := fun _ => ∅;
  indexSearch := fun b i key => Some (b, i !! key);
  indexInsert := fun b i key loc => Some (b, <[key := loc]> i, true);
  indexDelete := fun b i key => Some (b, delete key i);
  indexAllKeys := fun b i => Some (b, (map_to_list i).*1);
  indexCount := fun b i => Some (b, size i);
  indexSorted := false
|}.

Record PagedTable (I : Type) := mkPT {
  pt_name : string;
  pt_columns : list Column;
  pt_index : I;
  pt_insertPageID : N;
  pt_nextLSN : N;
}.
Arguments mkPT {I}. Arguments pt_name {I}. Arguments pt_columns {I}. Arguments pt_index {I}.
Arguments pt_insertPageID {I}. Arguments pt_nextLSN {I}.

Section Table.
Context {W I : Type} `{Flusher W} `{RowIndex W I}.
Implicit Types (b : BufferPool W) (pt : PagedTable I).

(** [tableID: name]. *)
Definition pt_tableID pt : string := pt_name pt.

Definition with_index pt (i : I) : PagedTable I :=
  mkPT (pt_name pt) (pt_columns pt) i (pt_insertPageID pt) (pt_nextLSN pt).
Definition with_insertPageID pt (n : N) : PagedTable I :=
  mkPT (pt_name pt) (pt_columns pt) (pt_index pt) n (pt_nextLSN pt).

Definition SetNextLSN pt (lsn : N) : PagedTable I :=
  mkPT (pt_name pt) (pt_columns pt) (pt_index pt) (pt_insertPageID pt) lsn.

Definition TableName pt : string := pt_name pt.
Definition TableColumns pt : list Column := pt_columns pt.

(** ** RebuildIndex *)

(** The slots [sid], [sid+1], ... ([k] of them) of a page; the last
    component is [hasSpace], [Err] a failed insert into the index. *)
Fixpoint rebuild_slots b (i : I) (page : Page) (pid : N) (sid : N) (k : nat) (hasSpace : bool)
    : option (BufferPool W * result unit (I * bool)) :=
  match k with
  | O => Some (b, Ok (i, hasSpace))
  | S k =>
      r ← Page.GetRow page (Z.of_N sid);
      match r with
      | None => rebuild_slots b i page pid (sid + 1) k hasSpace
      | Some (key, _) =>
          '(b, i, ok) ← indexInsert b i key (mkLoc pid sid);
          if ok : bool then rebuild_slots b i page pid (sid + 1) k true else Some (b, Err tt)
      end
  end.

(** Pages [pid], [pid+1], ... ([n] of them). *)
Fixpoint rebuild_pages b pt (pid : N) (n : nat) : option (BufferPool W * result (option PoolError) (PagedTable I)) :=
  match n with
  | O => Some (b, Ok pt)
  | S n =>
      match FetchPage b (pt_tableID pt) pid with
      | (b, Err e) => Some (b, Err (Some e))
      | (b, Ok fid) =>
          page ← frame_page b fid;
          '(b, r) ← rebuild_slots b (pt_index pt) page pid 0 (N.to_nat (pg_slotCount page)) false;
          let b := UnpinPage b (pt_tableID pt) pid false in
          match r with
          | Err _ => Some (b, Err None)
          | Ok (i, hasSpace) =>
              let pt := with_index pt i in
              let pt := if hasSpace && negb (IsFull page) then with_insertPageID pt pid else pt in
              rebuild_pages b pt (pid + 1) n
          end
      end
  end.

Definition RebuildIndex b pt : option (BufferPool W * result (option PoolError) (PagedTable I)) :=
  let pt := with_index pt (indexReset (pt_index pt)) in
  heap ← bp_heaps b !! pt_tableID pt;
  rebuild_pages b pt 1 (N.to_nat (LastPageID heap)).

(** With an empty index to start from. *)
Definition NewPagedTable (name : string) (cols : list Column) (index : I) b
    : option (BufferPool W * result (option PoolError) (PagedTable I)) :=
  RebuildIndex b (mkPT name cols index 0 0).

(** ** Rows *)

Definition GetRow b pt (key : RowKey) : option (BufferPool W * option (list Value)) :=
  '(b, o) ← indexSearch b (pt_index pt) key;
  match o with
  | None => Some (b, None)
  | Some loc =>
      match FetchPage b (pt_tableID pt) (rl_pageID loc) with
      | (b, Err _) => Some (b, None)
      | (b, Ok fid) =>
          page ← frame_page b fid;
          r ← Page.GetRow page (Z.of_N (rl_slotID loc));
          let b := UnpinPage b (pt_tableID pt) (rl_pageID loc) false in
          Some (b, match r with
                   | None => None
                   | Some (_, valBytes) => match DecodeValues valBytes with Ok vals => Some vals | Err _ => None end
                   end)
      end
  end.

(** [f.page.InsertRow] on the frame. *)
Definition insert_into b (fid : nat) (key : RowKey) (valBytes : list byte) : option (BufferPool W * result PageError N) :=
  page ← frame_page b fid;
  '(page, r) ← Page.InsertRow page key valBytes;
  Some (set_page b fid page, r).

(** [f.page.SetPageLSN]. *)
Definition stamp b (fid : nat) (lsn : N) : option (BufferPool W) :=
  page ← frame_page b fid; Some (set_page b fid (SetPageLSN page lsn)).

(** [pt.indexInsert], which ignores the error. *)
Definition index_put b pt (key : RowKey) (loc : rowLocation) : option (BufferPool W * PagedTable I) :=
  '(b, i, _) ← indexInsert b (pt_index pt) key loc; Some (b, with_index pt i).

(** The tries of [putRowNew] end in [true] when they return. *)
Definition try_insert_page b pt (key : RowKey) (valBytes : list byte) (lsn : N)
    : option (BufferPool W * PagedTable I * bool) :=
  if (pt_insertPageID pt =? 0)%N then Some (b, pt, false)
  else
    match FetchPage b (pt_tableID pt) (pt_insertPageID pt) with
    | (b, Err _) => Some (b, pt, false)
    | (b, Ok fid) =>
        '(b, r) ← insert_into b fid key valBytes;
        match r with
        | Ok sid =>
            b ← stamp b fid lsn;
            '(b, pt) ← index_put b pt key (mkLoc (pt_insertPageID pt) sid);
            page ← frame_page b fid;
            let pt := if IsFull page then with_insertPageID pt 0 else pt in
            Some (UnpinPage b (pt_tableID pt) (pt_insertPageID pt) true, pt, true)
        | Err _ =>
            Some (UnpinPage b (pt_tableID pt) (pt_insertPageID pt) false, with_insertPageID pt 0, false)
        end
    end.

Definition try_free_list b pt (key : RowKey) (valBytes : list byte) (lsn : N)
    : option (BufferPool W * PagedTable I * bool) :=
  heap ← bp_heaps b !! pt_tableID pt;
  match TakeFromFreeList heap with
  | (_, None) => Some (b, pt, false)
  | (heap, Some pid) =>
      let b := with_heaps b (<[pt_tableID pt := heap]> (bp_heaps b)) in
      match FetchPage b (pt_tableID pt) pid with
      | (b, Err _) => Some (b, pt, false)
      | (b, Ok fid) =>
          '(b, r) ← insert_into b fid key valBytes;
          match r with
          | Ok sid =>
              b ← stamp b fid lsn;
              '(b, pt) ← index_put b pt key (mkLoc pid sid);
              page ← frame_page b fid;
              let pt := if negb (IsFull page) then with_insertPageID pt pid else pt in
              Some (UnpinPage b (pt_tableID pt) pid true, pt, true)
          | Err _ => Some (UnpinPage b (pt_tableID pt) pid false, pt, false)
          end
      end
  end.

Definition put_new_page b pt (key : RowKey) (valBytes : list byte) (lsn : N) : option (BufferPool W * PagedTable I) :=
  '(b, r) ← Pool_NewPage b (pt_tableID pt);
  match r with
  | Err _ => Some (b, pt)
  | Ok (pageID, fid) =>
      '(b, r) ← insert_into b fid key valBytes;
      match r with
      | Err _ => Some (UnpinPage b (pt_tableID pt) pageID false, pt)
      | Ok sid =>
          b ← stamp b fid lsn;
          '(b, pt) ← index_put b pt key (mkLoc pageID sid);
          page ← frame_page b fid;
          let pt := if negb (IsFull page) then with_insertPageID pt pageID else pt in
          Some (UnpinPage b (pt_tableID pt) pageID true, pt)
      end
  end.

Definition putRowNew b pt (key : RowKey) (valBytes : list byte) (lsn : N) : option (BufferPool W * PagedTable I) :=
  '(b, pt, returned) ← try_insert_page b pt key valBytes lsn;
  if returned : bool then Some (b, pt)
  else
    '(b, pt, returned) ← try_free_list b pt key valBytes lsn;
    if returned : bool then Some (b, pt) else put_new_page b pt key valBytes lsn.

(** The update in place; [true] when it returns. *)
Definition try_update b pt (key : RowKey) (valBytes : list byte) (lsn : N)
    : option (BufferPool W * PagedTable I * bool) :=
  '(b, o) ← indexSearch b (pt_index pt) key;
  match o with
  | None => Some (b, pt, false)
  | Some loc =>
      match FetchPage b (pt_tableID pt) (rl_pageID loc) with
      | (b, Err _) => Some (b, pt, false)
      | (b, Ok fid) =>
          page ← frame_page b fid;
          '(page, r) ← Page.UpdateRow page (Z.of_N (rl_slotID loc)) key valBytes;
          let b := set_page b fid page in
          match r with
          | Ok newSlotID =>
              b ← stamp b fid lsn;
              '(b, pt) ← index_put b pt key (mkLoc (rl_pageID loc) newSlotID);
              Some (UnpinPage b (pt_tableID pt) (rl_pageID loc) true, pt, true)
          | Err _ => Some (UnpinPage b (pt_tableID pt) (rl_pageID loc) false, pt, false)
          end
      end
  end.

Definition PutRow b pt (key : RowKey) (values : list Value) : option (BufferPool W * PagedTable I) :=
  valBytes ← EncodeValues values;
  let lsn := pt_nextLSN pt in
  '(b, pt, returned) ← try_update b pt key valBytes lsn;
  if returned : bool then Some (b, pt) else putRowNew b pt key valBytes lsn.

(** No slot of the page is alive. *)
Fixpoint all_gone (page : Page) (i : N) (k : nat) : option bool :=
  match k with
  | O => Some true
  | S k => r ← Page.GetRow page (Z.of_N i); match r with Some _ => Some false | None => all_gone page (i + 1) k end
  end.

Definition DeleteRow b pt (key : RowKey) : option (BufferPool W * PagedTable I * bool) :=
  '(b, o) ← indexSearch b (pt_index pt) key;
  match o with
  | None => Some (b, pt, false)
  | Some loc =>
      match FetchPage b (pt_tableID pt) (rl_pageID loc) with
      | (b, Err _) => Some (b, pt, false)
      | (b, Ok fid) =>
          page ← frame_page b fid;
          page ← Page.DeleteRow page (Z.of_N (rl_slotID loc));
          let b := set_page b fid page in
          b ← stamp b fid (pt_nextLSN pt);
          page ← frame_page b fid;
          allGone ← all_gone page 0 (N.to_nat (pg_slotCount page));
          let b := UnpinPage b (pt_tableID pt) (rl_pageID loc) true in
          '(b, i) ← indexDelete b (pt_index pt) key;
          let pt := with_index pt i in
          if allGone : bool then
            heap ← bp_heaps b !! pt_tableID pt;
            let b := with_heaps b (<[pt_tableID pt := AddToFreeList heap (rl_pageID loc)]> (bp_heaps b)) in
            let pt := if (pt_insertPageID pt =? rl_pageID loc)%N then with_insertPageID pt 0 else pt in
            Some (b, pt, true)
          else Some (b, pt, true)
      end
  end.

Fixpoint scan_keys b pt (filter : option (Row -> bool)) (keys : list RowKey) : option (BufferPool W * list Row) :=
  match keys with
  | [] => Some (b, [])
  | key :: keys =>
      '(b, o) ← GetRow b pt key;
      match o with
      | None => scan_keys b pt filter keys
      | Some vals =>
          let row := mkRow key (Some vals) in
          '(b, rows) ← scan_keys b pt filter keys;
          Some (b, if match filter with None => true | Some f => f row end then row :: rows else rows)
      end
  end.

Definition Scan b pt (filter : option (Row -> bool)) : option (BufferPool W * list Row) :=
  '(b, keys) ← indexAllKeys b (pt_index pt); scan_keys b pt filter keys.

Definition Keys b pt : option (BufferPool W * list RowKey) :=
  '(b, keys) ← indexAllKeys b (pt_index pt);
  Some (b, if indexSorted (W := W) (I := I) then keys else merge_sort String.le keys).

Definition Count b pt : option (BufferPool W * nat) := indexCount b (pt_index pt).
End Table.
