(* ===== verification/PagedInv.v ===== *)
(** * Paged tables refine maps

    A paged table whose live slots and index entries correspond one to one
    ([table_rep]) behaves like the map from keys to rows it stores: every
    operation gives the map's answer and leaves the correspondence in place.
    The index is used through its laws ([IndexLaws]), which the in-memory map
    satisfies. *)

From Stdlib Require Import ZArith NArith Lia Strings.Byte String.
From stdpp Require Import base tactics numbers list gmap strings sorting.
From S2P Require Import Prelude Types Storage WalRecord Page Heap Wal Pool PoolInv PoolPins PagedTable.

(** ** Slots *)

(** The row in slot [i]. *)
Definition slot_row (s : PageSpec) (i : N) : option (RowKey * list byte) := ps_rows s !! N.to_nat i ≫= id.

Lemma GetRow_slot p s i : rep p s -> Page.GetRow p (Z.of_N i) = Some (slot_row s i).
Proof.
  intros Hr. rewrite (rep_get p s _ Hr). unfold spec_get, slot_at, slot_row.
  rewrite (proj2 (Z.ltb_ge _ _)) by lia. rewrite <-!Z_N_nat, !N2Z.id. by destruct (ps_rows s !! N.to_nat i).
Qed.

Lemma slot_row_insert rows free i r j :
  (i < N.of_nat (length rows))%N ->
  slot_row (mkSpec (<[N.to_nat i := r]> rows) free) j = if decide (j = i) then r else slot_row (mkSpec rows free) j.
Proof.
  intros Hi. unfold slot_row. cbn [ps_rows]. case_decide as Hj.
  - subst j. rewrite list_lookup_insert_eq by lia. done.
  - rewrite list_lookup_insert_ne by lia. done.
Qed.

Lemma slot_row_free rows free free' j : slot_row (mkSpec rows free) j = slot_row (mkSpec rows free') j.
Proof. done. Qed.

(** An insert takes a slot that held no row. *)
Lemma slot_row_spec_insert s k v i :
  (spec_insert s k v).2 = Ok i ->
  slot_row s i = None /\ forall j, slot_row (spec_insert s k v).1 j = if decide (j = i) then Some (k, v) else slot_row s j.
Proof.
  unfold spec_insert. destruct (_ <? _)%N; [done|]. unfold insert_at. destruct (first_free (ps_rows s)) as [n|] eqn:Hf.
  - cbn [fst snd]. intros [= <-]. apply first_free_Some in Hf. split; [unfold slot_row; by rewrite Nat2N.id, Hf|].
    intros j. apply lookup_lt_Some in Hf as Hn. destruct s as [rows free]. cbn [ps_rows ps_free] in *.
    etrans; [|apply slot_row_insert; lia]. by rewrite Nat2N.id.
  - cbn [fst snd]. intros [= <-]. destruct s as [rows free]. unfold slot_row. cbn [ps_rows ps_free]. rewrite Nat2N.id.
    split; [by rewrite lookup_ge_None_2 by lia|]. intros j. case_decide as Hj.
    + subst j. by rewrite Nat2N.id, list_lookup_middle by done.
    + destruct (decide (N.to_nat j < length rows)) as [Hl|Hl]; [by rewrite lookup_app_l by done|].
      rewrite !lookup_ge_None_2; [done|lia|rewrite length_app; cbn; lia].
Qed.

(** An update moves the row to the slot it returns. *)
Lemma slot_row_spec_update s i k v old i' :
  slot_row s i = Some old -> (spec_update s (Z.of_N i) k v).2 = Ok i' ->
  (slot_row s i' = None \/ i' = i)
  /\ forall j, slot_row (spec_update s (Z.of_N i) k v).1 j
       = if decide (j = i') then Some (k, v) else if decide (j = i) then None else slot_row s j.
Proof.
  intros Hi. unfold spec_update, slot_at. rewrite (proj2 (Z.ltb_ge _ _)) by lia. rewrite <-!Z_N_nat, !N2Z.id.
  unfold slot_row in Hi. destruct (ps_rows s !! N.to_nat i) as [r|] eqn:Hr; [|done]. cbn in Hi. subst r.
  apply lookup_lt_Some in Hr as Hl. destruct (_ <=? _)%N.
  - cbn [fst snd]. intros [= <-]. split; [by right|]. intros j. destruct s as [rows free]. cbn [ps_rows ps_free] in *.
    rewrite slot_row_insert by lia. by repeat case_decide.
  - intros Hins. destruct (slot_row_spec_insert _ _ _ _ Hins) as [Hn Hj]. destruct s as [rows free]. cbn [ps_rows ps_free] in *.
    rewrite slot_row_insert in Hn by lia. split; [case_decide; [by right|by left]|].
    intros j. rewrite Hj. destruct (decide (j = i')); [done|]. rewrite slot_row_insert by lia. done.
Qed.

Lemma slot_row_spec_delete s i j :
  slot_row (spec_delete s (Z.of_N i)) j = if decide (j = i) then None else slot_row s j.
Proof.
  unfold spec_delete, slot_at. rewrite (proj2 (Z.ltb_ge _ _)) by lia. rewrite <-!Z_N_nat, !N2Z.id.
  destruct s as [rows free]. cbn [ps_rows ps_free]. destruct (rows !! N.to_nat i) as [r|] eqn:Hr.
  - apply lookup_lt_Some in Hr. apply slot_row_insert. lia.
  - case_decide; [|done]. subst j. unfold slot_row. cbn [ps_rows]. by rewrite Hr.
Qed.

(** ** Index entries and rows *)

(** [R] gives the row at each location. *)
Record rows_rep (ix : gmap RowKey rowLocation) (R : rowLocation -> option (RowKey * list byte))
    (m : gmap RowKey (list Value)) : Prop := {
  rr_located : forall k l, ix !! k = Some l <-> exists v, R l = Some (k, v);
  rr_values : forall l k v, R l = Some (k, v) -> exists vals, m !! k = Some vals /\ DecodeValues v = Ok vals;
  rr_dom : forall k, is_Some (m !! k) -> is_Some (ix !! k);
}.

Lemma rows_rep_ext ix R R' m : (forall l, R' l = R l) -> rows_rep ix R m -> rows_rep ix R' m.
Proof. intros HR [A1 A2 A3]. split; [|intros l k v; rewrite HR; eauto|done]. intros k l. rewrite A1. by setoid_rewrite HR. Qed.

Lemma rows_rep_put ix R R' m k l v vals :
  rows_rep ix R m -> DecodeValues v = Ok vals -> (R l = None \/ ix !! k = Some l) ->
  (forall l', R' l' = if decide (l' = l) then Some (k, v) else if decide (ix !! k = Some l') then None else R l') ->
  rows_rep (<[k := l]> ix) R' (<[k := vals]> m).
Proof.
  intros [A1 A2 A3] Hd Hl HR. split.
  - intros k' l'. rewrite HR. destruct (decide (k' = k)) as [->|Hk].
    + rewrite lookup_insert_eq. split.
      * intros [= <-]. exists v. by rewrite decide_True.
      * case_decide as Hl'; [by subst|]. case_decide as Hi; [by intros [? ?]|]. intros Hv. by apply A1 in Hv.
    + rewrite lookup_insert_ne, A1 by done. case_decide as Hl'.
      * subst l'. split; [|by intros [? [= ]]]. intros [w Hw]. destruct Hl as [Hn|Hi]; [by rewrite Hn in Hw|].
        apply A1 in Hi as [w' Hw']. rewrite Hw in Hw'. by injection Hw'.
      * case_decide as Hi; [|done]. split; [|by intros [? ?]]. intros [w Hw]. apply A1 in Hi as [w' Hw'].
        rewrite Hw in Hw'. by injection Hw'.
  - intros l' k' w. rewrite HR. case_decide as Hl'.
    + intros [= <- <-]. exists vals. by rewrite lookup_insert_eq.
    + case_decide as Hi; [done|]. intros Hw. destruct (decide (k' = k)) as [->|Hk].
      * exfalso. apply Hi, A1. by exists w.
      * rewrite lookup_insert_ne by done. by eapply A2.
  - intros k'. rewrite !lookup_insert_is_Some. intros [?|[? ?]]; [by left|right; auto].
Qed.

Lemma rows_rep_delete ix R R' m k l :
  rows_rep ix R m -> ix !! k = Some l -> (forall l', R' l' = if decide (l' = l) then None else R l') ->
  rows_rep (delete k ix) R' (delete k m).
Proof.
  intros [A1 A2 A3] Hl HR. assert (Hk : forall k' w, R l = Some (k', w) -> k' = k).
  { intros k' w Hw. apply A1 in Hl as [w' Hw']. rewrite Hw in Hw'. by injection Hw'. }
  split.
  - intros k' l'. rewrite lookup_delete_Some, A1, HR. split.
    + intros [Hne [w Hw]]. exists w. rewrite decide_False; [done|]. intros ->. by apply Hne, eq_sym, (Hk k' w).
    + case_decide as Hl'; [by intros [? ?]|]. intros [w Hw]. split; [|by exists w]. intros <-. apply Hl'.
      assert (Hx : ix !! k = Some l') by (apply A1; by exists w). congruence.
  - intros l' k' w. rewrite HR. case_decide as Hl'; [done|]. intros Hw. destruct (decide (k' = k)) as [->|Hne].
    + assert (Hx : ix !! k = Some l') by (apply A1; by exists w). congruence.
    + rewrite lookup_delete_ne by done. by eapply A2.
  - intros k'. rewrite !lookup_delete_is_Some. intros [? ?]. auto.
Qed.

Lemma rows_rep_lookup ix R m k :
  rows_rep ix R m ->
  match ix !! k with
  | Some l => exists v vals, R l = Some (k, v) /\ DecodeValues v = Ok vals /\ m !! k = Some vals
  | None => m !! k = None
  end.
Proof.
  intros [A1 A2 A3]. destruct (ix !! k) as [l|] eqn:Hk.
  - apply A1 in Hk as [v Hv]. destruct (A2 l k v Hv) as (vals & Hm & Hd). by exists v, vals.
  - destruct (m !! k) as [vals|] eqn:Hm; [|done]. destruct (A3 k) as [l Hl]; [by exists vals|]. congruence.
Qed.

Lemma rows_rep_dom ix R m : rows_rep ix R m -> dom ix = dom m.
Proof.
  intros HR. apply set_eq. intros k. rewrite !elem_of_dom. pose proof (rows_rep_lookup ix R m k HR) as Hl.
  destruct (ix !! k); [|by rewrite Hl]. destruct Hl as (v & vals & _ & _ & ->). by split.
Qed.

(** ** What a table relies on *)

(** A step of the index: it may change its own files only. *)
Record index_step {W} `{Flusher W} (own : string -> Prop) (b b' : BufferPool W) : Prop := {
  ix_safe : safe b';
  ix_cap : bp_capacity b' = bp_capacity b;
  ix_pin : forall x, pin_of b' x = pin_of b x;
  ix_page : forall x, ~ own x.1 -> page_of b' x = page_of b x;
  ix_info : forall t, ~ own t -> heap_info b' t = heap_info b t;
  ix_settled : forall x, ~ own x.1 -> settled b x -> settled b' x;
  ix_frames : forall x fid, bp_frames b !! x = Some fid -> (0 < pin_of b x)%Z -> bp_frames b' !! x = Some fid;
}.

Definition loc_ok (l : rowLocation) : Prop := (rl_pageID l < two64)%N /\ (rl_slotID l < 65536)%N.

(** The index represents a map; its operations succeed when [ix_room] more
    pages can be pinned, an insert when [may_insert] holds. *)
Class IndexLaws (W I : Type) `{Flusher W} `{RowIndex W I} := {
  own : I -> string -> Prop;
  index_rep : BufferPool W -> I -> gmap RowKey rowLocation -> Prop;
  ix_room : nat;
  may_insert : BufferPool W -> I -> RowKey -> Prop;
  index_frame : forall b b' i m,
    index_rep b i m -> (forall x, own i x.1 -> page_of b' x = page_of b x) ->
    (forall t, own i t -> heap_info b' t = heap_info b t) -> index_rep b' i m;
  may_insert_frame : forall b b' i k,
    may_insert b i k -> (forall t, own i t -> heap_info b' t = heap_info b t) -> may_insert b' i k;
  search_law : forall b i m k,
    safe b -> room b ix_room -> index_rep b i m ->
    exists b', indexSearch b i k = Some (b', m !! k) /\ index_step (own i) b b' /\ index_rep b' i m
      /\ (forall k, may_insert b i k -> may_insert b' i k);
  insert_law : forall b i m k l,
    safe b -> room b ix_room -> index_rep b i m -> may_insert b i k -> loc_ok l ->
    exists b' i', indexInsert b i k l = Some (b', i', true) /\ index_step (own i) b b'
      /\ index_rep b' i' (<[k := l]> m) /\ (forall t, own i' t <-> own i t);
  delete_law : forall b i m k,
    safe b -> room b ix_room -> index_rep b i m -> is_Some (m !! k) ->
    exists b' i', indexDelete b i k = Some (b', i') /\ index_step (own i) b b'
      /\ index_rep b' i' (delete k m) /\ (forall t, own i' t <-> own i t);
  keys_law : forall b i m,
    safe b -> room b ix_room -> index_rep b i m ->
    exists b' ks, indexAllKeys b i = Some (b', ks) /\ index_step (own i) b b' /\ index_rep b' i m
      /\ NoDup ks /\ (forall k, k ∈ ks <-> is_Some (m !! k))
      /\ (indexSorted (W := W) (I := I) = true -> StronglySorted String.le ks);
  count_law : forall b i m,
    safe b -> room b ix_room -> index_rep b i m ->
    exists b', indexCount b i = Some (b', size m) /\ index_step (own i) b b' /\ index_rep b' i m;
}.

Lemma index_step_refl {W} `{Flusher W} own (b : BufferPool W) : safe b -> index_step own b b.
Proof. by split. Qed.

#[export] Instance mapIndexLaws {W} `{Flusher W} : IndexLaws W (gmap RowKey rowLocation).
Proof.
  refine {| own := fun _ _ => False; index_rep := fun _ i m => i = m; ix_room := 0; may_insert := fun _ _ _ => True |};
    try done; cbn.
  - intros b i m k Hs _ ->. exists b. split; [done|]. split; [by apply index_step_refl|done].
  - intros b i m k l Hs _ -> _ _. eexists _, _. split; [done|]. split; [by apply index_step_refl|done].
  - intros b i m k Hs _ -> _. eexists _, _. split; [done|]. split; [by apply index_step_refl|done].
  - intros b i m Hs _ ->. eexists _, _. split; [done|]. split; [by apply index_step_refl|]. split; [done|].
    split; [apply NoDup_fst_map_to_list|]. split; [|done]. intros k. rewrite list_elem_of_fmap. split.
    + intros ([k' l] & -> & Hin). apply elem_of_map_to_list in Hin. by exists l.
    + intros [l Hl]. exists (k, l). split; [done|]. by apply elem_of_map_to_list.
  - intros b i m Hs _ ->. exists b. split; [done|]. split; [by apply index_step_refl|done].
Defined.

Section Rep.
Context {W I : Type} `{HF : Flusher W} `{HI : RowIndex W I} `{HL : !IndexLaws W I}.
Implicit Types (b : BufferPool W) (pt : PagedTable I).

Definition row_of b (t : string) (l : rowLocation) : option (RowKey * list byte) :=
  match page_of b (t, rl_pageID l) with
  | Some p => default None (Page.GetRow p (Z.of_N (rl_slotID l)))
  | None => None
  end.

Record table_inv b pt (ix : gmap RowKey rowLocation) (last : N) (fl : list N) (n : string)
    (m : gmap RowKey (list Value)) : Prop := {
  ti_safe : safe b;
  ti_index : index_rep b (pt_index pt) ix;
  ti_own : ~ own (pt_index pt) (pt_tableID pt);
  ti_info : heap_info b (pt_tableID pt) = Some (last, fl, n);
  ti_last : (last < two64)%N;
  ti_free : Forall (fun pid => 1 <= pid <= last)%N fl;
  ti_insert : (pt_insertPageID pt <= last)%N;
  ti_lsn : (pt_nextLSN pt < two64)%N;
  ti_rows : rows_rep ix (row_of b (pt_tableID pt)) m;
}.

(** The paged table stores [m]. *)
Definition table_rep b pt (m : gmap RowKey (list Value)) : Prop :=
  exists ix last fl n, table_inv b pt ix last fl n m.

Lemma row_of_page b t pid p s : page_of b (t, pid) = Some p -> rep p s ->
  forall i, row_of b t (mkLoc pid i) = slot_row s i.
Proof. intros Hp Hr i. unfold row_of. cbn. by rewrite Hp, (GetRow_slot p s i Hr). Qed.

Lemma row_of_same b b' t : (forall pid, page_of b' (t, pid) = page_of b (t, pid)) -> forall l, row_of b' t l = row_of b t l.
Proof. intros Hp l. unfold row_of. by rewrite Hp. Qed.

Lemma row_of_write b b' t pid p s :
  (forall j, page_of b' (t, j) = if decide (j = pid) then Some p else page_of b (t, j)) -> rep p s ->
  forall l, row_of b' t l = if decide (rl_pageID l = pid) then slot_row s (rl_slotID l) else row_of b t l.
Proof.
  intros Hp Hr [j i]. cbn. case_decide as Hj.
  - subst j. apply (row_of_page b' t pid p s); [|done]. rewrite Hp. by rewrite decide_True.
  - unfold row_of. cbn. by rewrite Hp, decide_False.
Qed.

Lemma row_of_in b t l r : pool_ok b -> row_of b t l = Some r -> in_file b (t, rl_pageID l).
Proof.
  intros HP. unfold row_of. destruct (page_of b (t, rl_pageID l)) as [p|] eqn:Hp; [|done]. intros _.
  by destruct (page_of_wf b _ p HP Hp).
Qed.

Lemma slot_row_width p s i r : rep p s -> slot_row s i = Some r -> (i < 65536)%N.
Proof.
  intros (locs & HP & Er & _) Hi. unfold slot_row in Hi. destruct (ps_rows s !! N.to_nat i) as [x|] eqn:Hx; [|done].
  apply lookup_lt_Some in Hx. rewrite Er, length_fmap in Hx. destruct (page_inv_width p locs HP) as [Hw _].
  rewrite (pi_count _ _ HP) in Hw. lia.
Qed.

(** ** Writing a row *)

(** Page [x] holds [p]; nothing else of the tables changed; the pins changed
    by [d]. *)
Record wrote (own : string -> Prop) (x : string * N) (p : Page) (d : string * N -> Z) b b' : Prop := {
  wr_safe : safe b';
  wr_cap : bp_capacity b' = bp_capacity b;
  wr_pin : forall y, pin_of b' y = (pin_of b y + d y)%Z;
  wr_page : forall y, ~ own y.1 -> page_of b' y = if decide (y = x) then Some p else page_of b y;
  wr_info : forall t, ~ own t -> heap_info b' t = heap_info b t;
}.

(** From an opened page on: the changed page, its LSN and the index entry. *)
Lemma write_entry b (x : string * N) fid p s i ix key l lsn :
  safe b -> bp_frames b !! x = Some fid -> (0 < pin_of b x)%Z -> page_wf p -> rep p s -> pg_id p = x.2 -> (lsn < two64)%N ->
  ~ own i x.1 -> index_rep b i ix -> room b ix_room -> may_insert b i key -> loc_ok l ->
  exists b3 b4 i', stamp (set_page b fid p) fid lsn = Some b3 /\ indexInsert b3 i key l = Some (b4, i', true)
    /\ wrote (own i) x (SetPageLSN p lsn) (fun _ => 0%Z) b b4 /\ bp_frames b4 !! x = Some fid
    /\ frame_page b4 fid = Some (SetPageLSN p lsn) /\ index_rep b4 i' (<[key := l]> ix) /\ (forall t, own i' t <-> own i t).
Proof.
  intros Hs Hx Hpin Hw Hr Hid Hlsn Hown Hix Hroom Hmay Hloc. pose proof Hs as [HP _].
  destruct (SetPageLSN_kept p s lsn Hw Hr Hlsn) as (Hr2 & Hw2 & Hid2). set (p2 := SetPageLSN p lsn) in *.
  assert (E3 : stamp (set_page b fid p) fid lsn = Some (set_page b fid p2)).
  { unfold stamp. rewrite (frame_page_set b x fid p HP Hx). cbn [mbind option_bind]. by rewrite set_page_twice. }
  set (b3 := set_page b fid p2) in *. assert (Hid2' : pg_id p2 = x.2) by congruence.
  destruct (set_page_pins b x fid p2 HP Hx Hpin Hw2 Hid2') as (HP3 & Hpg3 & Hf3 & Hc3 & Hi3 & Hp3 & Hs3).
  pose proof (set_page_safe b x fid p2 Hs Hx Hpin Hw2 Hid2') as Hsafe3. fold b3 in HP3, Hpg3, Hf3, Hc3, Hi3, Hp3, Hsafe3.
  assert (Hix3 : index_rep b3 i ix).
  { eapply index_frame; [done| |by intros t _]. intros y Hy. rewrite Hpg3, decide_False; [done|]. by intros ->. }
  assert (Hmay3 : may_insert b3 i key) by (eapply may_insert_frame; [done|by intros t _]).
  assert (Hroom3 : room b3 ix_room) by (by apply (room_pins b)).
  destruct (insert_law b3 i ix key l Hsafe3 Hroom3 Hix3 Hmay3 Hloc) as (b4 & i' & E4 & St & Hix4 & Hown4).
  assert (Hx4 : bp_frames b4 !! x = Some fid) by (apply (ix_frames _ _ _ St); [by rewrite Hf3|by rewrite Hp3]).
  exists b3, b4, i'. split; [done|]. split; [done|].
  assert (Hpg4 : forall y, ~ own i y.1 -> page_of b4 y = if decide (y = x) then Some p2 else page_of b y).
  { intros y Hy. by rewrite (ix_page _ _ _ St y Hy), Hpg3. }
  split_and!; try done.
  - split; [apply St|by rewrite (ix_cap _ _ _ St)| |done|].
    + intros y. rewrite (ix_pin _ _ _ St), Hp3. lia.
    + intros t Ht. by rewrite (ix_info _ _ _ St t Ht), Hi3.
  - rewrite <-(page_of_frame_page b4 x fid Hx4), Hpg4 by done. by rewrite decide_True.
Qed.
(** ** The invariant along the way *)

Lemma table_inv_quiet d b b' pt ix last fl n m :
  quiet d b b' -> safe b' -> table_inv b pt ix last fl n m -> table_inv b' pt ix last fl n m.
Proof.
  intros Q Hs [T1 T2 T3 T4 T5 T6 T7 T8 T9]. split; try done.
  - eapply index_frame; [done|intros; by apply (qt_page _ _ _ Q)|intros; by apply (qt_info _ _ _ Q)].
  - by rewrite (qt_info _ _ _ Q).
  - eapply rows_rep_ext; [|done]. apply row_of_same. intros pid. apply (qt_page _ _ _ Q).
Qed.

Lemma table_inv_index b b' pt ix last fl n m :
  index_step (own (pt_index pt)) b b' -> index_rep b' (pt_index pt) ix ->
  table_inv b pt ix last fl n m -> table_inv b' pt ix last fl n m.
Proof.
  intros St Hix [T1 T2 T3 T4 T5 T6 T7 T8 T9]. split; try done.
  - apply St.
  - by rewrite (ix_info _ _ _ St).
  - eapply rows_rep_ext; [|done]. apply row_of_same. intros pid. by apply (ix_page _ _ _ St).
Qed.

Lemma table_inv_room b b' d pt ix last fl n m :
  quiet d b b' -> safe b' -> (forall x, d x = 0%Z) -> table_inv b pt ix last fl n m ->
  table_inv b' pt ix last fl n m /\ forall k, room b k -> room b' k.
Proof.
  intros Q Hs Hd T. split; [by eapply table_inv_quiet|]. intros k. apply room_pins; [apply (qt_cap _ _ _ Q)|].
  intros x. rewrite (qt_pin _ _ _ Q), Hd. lia.
Qed.

Lemma table_inv_file b pt ix last fl n m pid :
  table_inv b pt ix last fl n m -> (1 <= pid <= last)%N -> in_file b (pt_tableID pt, pid).
Proof. intros T Hp. apply in_file_info. exists last, fl, n. split; [apply T|done]. Qed.

Lemma table_inv_loc b pt ix last fl n m key l :
  table_inv b pt ix last fl n m -> ix !! key = Some l -> (1 <= rl_pageID l <= last)%N.
Proof.
  intros T Hl. apply (rr_located _ _ _ (ti_rows _ _ _ _ _ _ _ T)) in Hl as [v Hv].
  apply row_of_in in Hv; [|apply (ti_safe _ _ _ _ _ _ _ T)].
  apply in_file_info in Hv as (l' & fl' & n' & Hi & Hr). cbn [fst snd] in *. rewrite (ti_info _ _ _ _ _ _ _ T) in Hi.
  by injection Hi as <- _ _.
Qed.

(** The row of [key] is written to slot [sid] of page [pid]. *)
Lemma table_inv_put b pt ix last fl n m key pid p s sid v vals b' i' ins :
  table_inv b pt ix last fl n m -> DecodeValues v = Ok vals ->
  wrote (own (pt_index pt)) (pt_tableID pt, pid) p (fun _ => 0%Z) b b' -> rep p s ->
  (forall i, slot_row s i = if decide (i = sid) then Some (key, v)
     else if decide (ix !! key = Some (mkLoc pid i)) then None else row_of b (pt_tableID pt) (mkLoc pid i)) ->
  (forall l, ix !! key = Some l -> rl_pageID l = pid) ->
  row_of b (pt_tableID pt) (mkLoc pid sid) = None \/ ix !! key = Some (mkLoc pid sid) ->
  index_rep b' i' (<[key := mkLoc pid sid]> ix) -> (forall t, own i' t <-> own (pt_index pt) t) -> (ins <= last)%N ->
  table_inv b' (with_insertPageID (with_index pt i') ins) (<[key := mkLoc pid sid]> ix) last fl n (<[key := vals]> m).
Proof.
  intros [T1 T2 T3 T4 T5 T6 T7 T8 T9] Hd Wr Hr Hslot Hpage Hsid Hix Hown Hins. split; try done.
  - apply Wr.
  - cbn. by rewrite Hown.
  - etrans; [apply (wr_info _ _ _ _ _ _ Wr); exact T3|exact T4].
  - apply (rows_rep_put ix (row_of b (pt_tableID pt)) _ m key (mkLoc pid sid) v vals T9 Hd Hsid).
    intros l. change (pt_tableID (with_insertPageID (with_index pt i') ins)) with (pt_tableID pt).
    rewrite (row_of_write b b' (pt_tableID pt) pid p s); [|intros j; rewrite (wr_page _ _ _ _ _ _ Wr) by exact T3; by repeat case_decide; congruence|done].
    destruct l as [j i]. cbn [rl_pageID rl_slotID]. destruct (decide (j = pid)) as [->|Hj].
    + rewrite Hslot. repeat case_decide; congruence.
    + rewrite decide_False by congruence. rewrite decide_False; [done|]. intros Hl. by apply Hj, (Hpage (mkLoc j i)).
Qed.

(** A row goes onto an opened page that has room for it. *)
Lemma put_on_page b pt ix last fl n m key pid fid p s sid v vals :
  table_inv b pt ix last fl n m -> ix !! key = None -> DecodeValues v = Ok vals ->
  bp_frames b !! (pt_tableID pt, pid) = Some fid -> (0 < pin_of b (pt_tableID pt, pid))%Z ->
  page_of b (pt_tableID pt, pid) = Some p -> rep p s -> (spec_insert s key v).2 = Ok sid ->
  room b ix_room -> may_insert b (pt_index pt) key ->
  exists b2 b3 b4 i' p2, insert_into b fid key v = Some (b2, Ok sid) /\ stamp b2 fid (pt_nextLSN pt) = Some b3
    /\ index_put b3 pt key (mkLoc pid sid) = Some (b4, with_index pt i') /\ frame_page b4 fid = Some p2
    /\ bp_frames b4 !! (pt_tableID pt, pid) = Some fid
    /\ wrote (own (pt_index pt)) (pt_tableID pt, pid) p2 (fun _ => 0%Z) b b4
    /\ forall ins, (ins <= last)%N -> table_inv b4 (with_insertPageID (with_index pt i') ins)
         (<[key := mkLoc pid sid]> ix) last fl n (<[key := vals]> m).
Proof.
  intros T Hk Hd Hx Hpin Hp Hr Hsp Hroom Hmay. pose proof T as [T1 T2 T3 T4 T5 T6 T7 T8 T9]. pose proof T1 as [HP _].
  destruct (page_of_wf b _ p HP Hp) as (Hin & Hw & Hid). cbn [snd] in Hid.
  assert (Hfp : frame_page b fid = Some p) by (by rewrite <-(page_of_frame_page b _ fid Hx)).
  destruct (InsertRow_kept p s key v Hw Hr) as (p1 & Hins & Hr1 & Hw1 & Hid1 & _). rewrite Hsp in Hins.
  destruct (slot_row_spec_insert s key v sid Hsp) as [Hfree Hslot].
  assert (Hloc : loc_ok (mkLoc pid sid)).
  { split; cbn; [rewrite <-Hid; apply Hw|]. eapply (slot_row_width p1); [done|]. rewrite Hslot, decide_True by done. done. }
  destruct (write_entry b (pt_tableID pt, pid) fid p1 _ (pt_index pt) ix key (mkLoc pid sid) (pt_nextLSN pt)
    T1 Hx Hpin Hw1 Hr1 ltac:(cbn; congruence) T8 T3 T2 Hroom Hmay Hloc) as (b3 & b4 & i' & E3 & E4 & Wr & Hx4 & Hfp4 & Hix4 & Hown4).
  exists (set_page b fid p1), b3, b4, i', (SetPageLSN p1 (pt_nextLSN pt)).
  split_and!; try done.
  - unfold insert_into. rewrite Hfp. cbn [mbind option_bind]. by rewrite Hins.
  - unfold index_put. by rewrite E4.
  - intros ins Hi. destruct (SetPageLSN_kept p1 _ (pt_nextLSN pt) Hw1 Hr1 T8) as (Hr2 & _).
    eapply (table_inv_put b pt ix last fl n m key pid _ _ sid v vals b4 i' ins T Hd Wr Hr2); try done.
    + intros i. rewrite Hslot. rewrite (row_of_page b (pt_tableID pt) pid p s Hp Hr). case_decide; [done|].
      rewrite decide_False; [done|]. by rewrite Hk.
    + intros l Hl. by rewrite Hk in Hl.
    + left. by rewrite (row_of_page b (pt_tableID pt) pid p s Hp Hr).
Qed.
(** ** The tries of [putRowNew] *)

Lemma UnpinPage_zero b t d : pool_ok b -> UnpinPage b t 0 d = b.
Proof.
  intros HP. unfold UnpinPage. destruct (bp_frames b !! (t, 0%N)) as [fid|] eqn:Hx; [|done].
  destruct (po_frames b HP _ _ Hx) as (f & _ & [_ _ _ (h & _ & Hr) _]). cbn in Hr. lia.
Qed.

(** The pins are as before, or the insert page has become full and keeps
    the pin of this call. *)
Definition pins_after b pt b' : Prop :=
  (forall x, pin_of b' x = pin_of b x)
  \/ (exists p, page_of b' (pt_tableID pt, pt_insertPageID pt) = Some p /\ IsFull p = true)
     /\ forall x, pin_of b' x = (pin_of b x + one (pt_tableID pt, pt_insertPageID pt) 1 x)%Z.

(** The row is stored. *)
Definition put_done b pt (m : gmap RowKey (list Value)) (key : RowKey) (vals : list Value) b' (pt' : PagedTable I) : Prop :=
  table_rep b' pt' (<[key := vals]> m) /\ bp_capacity b' = bp_capacity b /\ pt_name pt' = pt_name pt.

(** Nothing is stored; the next try goes on. *)
Record put_next b pt ix last (fl : list N) n m b' (pt' : PagedTable I) : Prop := {
  pn_inv : exists fl', table_inv b' pt' ix last fl' n m /\ length fl' <= length fl;
  pn_cap : bp_capacity b' = bp_capacity b;
  pn_pin : forall x, pin_of b' x = pin_of b x;
  pn_info : forall t, t <> pt_tableID pt -> heap_info b' t = heap_info b t;
  pn_same : pt_name pt' = pt_name pt /\ pt_index pt' = pt_index pt /\ pt_nextLSN pt' = pt_nextLSN pt;
}.

(** Written, then unpinned dirty. *)
Lemma close_page b b1 b4 x fid p2 own0 d :
  bp_capacity b1 = bp_capacity b -> (forall y, pin_of b1 y = pin_of b y + one x 1 y)%Z ->
  (0 < pin_of b1 x)%Z -> wrote own0 x p2 (fun _ => 0%Z) b1 b4 -> bp_frames b4 !! x = Some fid -> d = true ->
  let b5 := UnpinPage b4 x.1 x.2 d in
  quiet (one x (-1)) b4 b5 /\ safe b5 /\ bp_capacity b5 = bp_capacity b /\ forall y, pin_of b5 y = pin_of b y.
Proof.
  intros Hc Hp Hpin Wr Hx -> b5. destruct x as [t pid]. cbn [fst snd] in b5. destruct (unpin_safe b4 t pid true) as [Q5 Hs5].
  - apply Wr.
  - rewrite (wr_pin _ _ _ _ _ _ Wr). lia.
  - by left.
  - fold b5 in Q5, Hs5. split_and!; try done.
    + by rewrite (qt_cap _ _ _ Q5), (wr_cap _ _ _ _ _ _ Wr), Hc.
    + intros y. rewrite (qt_pin _ _ _ Q5), (wr_pin _ _ _ _ _ _ Wr), Hp. unfold one. case_decide; lia.
Qed.

Lemma table_inv_insertPageID b pt ix last fl n m ins :
  table_inv b pt ix last fl n m -> (ins <= last)%N -> table_inv b (with_insertPageID pt ins) ix last fl n m.
Proof. intros [T1 T2 T3 T4 T5 T6 T7 T8 T9] Hi. by split. Qed.

Lemma with_insertPageID_same pt : with_insertPageID pt (pt_insertPageID pt) = pt.
Proof. by destruct pt. Qed.

(** An opened page that is only read is closed again. *)
Lemma close_clean b b1 t pid fid p :
  opened b b1 (t, pid) fid p ->
  let b2 := UnpinPage b1 t pid false in
  quiet (fun _ => 0%Z) b b2 /\ safe b2.
Proof.
  intros O b2. destruct (unpin_safe b1 t pid false (op_safe _ _ _ _ _ O) (op_pin _ _ _ _ _ O)) as [Q2 Hs2].
  { right. apply (op_settled _ _ _ _ _ O). }
  split; [|done]. eapply quiet_ext; [|eapply pool_quiet_trans; [|exact (op_quiet _ _ _ _ _ O)|exact Q2]].
  - intros y. unfold one. cbn. case_decide; lia.
  - intros y. left. by apply one_nonneg.
Qed.

Lemma frame_page_id b fid p : frame_page b fid = Some p -> set_page b fid p = b.
Proof.
  unfold frame_page, set_page, upd_frame, with_objs. intros Hf. destruct b. cbn in *. f_equal. apply map_eq. intros i.
  destruct (decide (i = fid)) as [->|Hne]; [|by rewrite lookup_alter_ne]. rewrite lookup_alter_eq.
  apply fmap_Some in Hf as (f & -> & ->). cbn. by destruct f.
Qed.

Lemma insert_into_full b fid p s key v e :
  frame_page b fid = Some p -> page_wf p -> rep p s -> (spec_insert s key v).2 = Err e ->
  insert_into b fid key v = Some (b, Err e).
Proof.
  intros Hf Hw Hr He. unfold insert_into. rewrite Hf. cbn [mbind option_bind].
  destruct (InsertRow_kept p s key v Hw Hr) as (p' & Hi & _ & _). rewrite Hi, He. cbn [mbind option_bind].
  rewrite He in Hi. apply InsertRow_err in Hi as ->. by rewrite frame_page_id.
Qed.

Lemma try_insert_page_ok b pt ix last fl n m key v vals :
  table_inv b pt ix last fl n m -> ix !! key = None -> DecodeValues v = Ok vals ->
  room b (S ix_room) -> may_insert b (pt_index pt) key ->
  exists b' pt' r, try_insert_page b pt key v (pt_nextLSN pt) = Some (b', pt', r)
    /\ if r : bool then put_done b pt m key vals b' pt' /\ pins_after b pt b' else put_next b pt ix last fl n m b' pt'.
Proof.
  intros T Hk Hd Hroom Hmay. unfold try_insert_page. destruct (N.eqb_spec (pt_insertPageID pt) 0) as [Hz|Hz].
  { exists b, pt, false. split; [done|]. split; try done. by exists fl. }
  pose proof (ti_insert _ _ _ _ _ _ _ T) as Hins. pose proof (ti_own _ _ _ _ _ _ _ T) as Hown.
  assert (Hin : in_file b (pt_tableID pt, pt_insertPageID pt)) by (eapply table_inv_file; [done|lia]).
  destruct (fetch_open b _ _ (ti_safe _ _ _ _ _ _ _ T) Hin) as (b1 & fid & p & -> & O); [unfold room in *; lia|].
  pose proof (op_quiet _ _ _ _ _ O) as Q. pose proof (table_inv_quiet _ _ _ _ _ _ _ _ _ Q (op_safe _ _ _ _ _ O) T) as T1.
  assert (Hroom1 : room b1 ix_room) by (eapply (room_one b b1); [apply (qt_cap _ _ _ Q)|apply (qt_pin _ _ _ Q)|done]).
  assert (Hmay1 : may_insert b1 (pt_index pt) key) by (eapply may_insert_frame; [done|intros; apply (qt_info _ _ _ Q)]).
  assert (Hp1 : page_of b1 (pt_tableID pt, pt_insertPageID pt) = Some p) by (rewrite (qt_page _ _ _ Q); apply (op_page _ _ _ _ _ O)).
  destruct (page_wf_rep p (op_wf _ _ _ _ _ O)) as [s Hr]. destruct (spec_insert s key v).2 as [sid|e] eqn:Hsp.
  - destruct (put_on_page b1 pt ix last fl n m key _ fid p s sid v vals T1 Hk Hd (op_frame _ _ _ _ _ O) (op_pin _ _ _ _ _ O)
      Hp1 Hr Hsp Hroom1 Hmay1) as (b2 & b3 & b4 & i' & p2 & -> & E3 & E4 & Hfp & Hx4 & Wr & Tput).
    cbn [mbind option_bind]. rewrite E3. cbn [mbind option_bind]. rewrite E4. cbn [mbind option_bind]. rewrite Hfp.
    cbn [mbind option_bind]. eexists _, _, true. split; [done|]. destruct (IsFull p2) eqn:Hfull; cbn.
    + rewrite UnpinPage_zero by apply (wr_safe _ _ _ _ _ _ Wr). split; [split_and!; [|..|done]|].
      * eexists _, _, _, _. apply Tput. lia.
      * by rewrite (wr_cap _ _ _ _ _ _ Wr), (qt_cap _ _ _ Q).
      * right. split; [exists p2; rewrite (wr_page _ _ _ _ _ _ Wr), decide_True by done; done|].
        intros x. rewrite (wr_pin _ _ _ _ _ _ Wr), (qt_pin _ _ _ Q). lia.
    + destruct (close_page b b1 b4 (pt_tableID pt, pt_insertPageID pt) fid p2 _ true (qt_cap _ _ _ Q) (qt_pin _ _ _ Q)
        (op_pin _ _ _ _ _ O) Wr Hx4 eq_refl)
        as (Q5 & Hs5 & Hc5 & Hp5). split; [split_and!; [|done|done]|by left].
      eexists _, _, _, _. eapply table_inv_quiet; [exact Q5|done|]. apply (Tput (pt_insertPageID pt)). lia.
  - rewrite (insert_into_full b1 fid p s key v e (op_fpage _ _ _ _ _ O) (op_wf _ _ _ _ _ O) Hr Hsp). cbn [mbind option_bind].
    eexists _, _, false. split; [done|]. destruct (close_clean _ _ _ _ _ _ O) as [Q2 Hs2]. split; try done.
    + exists fl. split; [|done]. apply table_inv_insertPageID; [|lia]. by eapply table_inv_quiet.
    + apply (qt_cap _ _ _ Q2).
    + intros x. rewrite (qt_pin _ _ _ Q2). lia.
    + intros t _. apply (qt_info _ _ _ Q2).
Qed.
(** The free list changes in memory. *)
Lemma table_inv_free b pt ix last fl n m h fl' :
  table_inv b pt ix last fl n m -> bp_heaps b !! pt_tableID pt = Some h -> Forall (fun pid => 1 <= pid <= last)%N fl' ->
  let b' := with_heaps b (<[pt_tableID pt := with_freeList h fl']> (bp_heaps b)) in
  table_inv b' pt ix last fl' n m /\ (forall x, pin_of b' x = pin_of b x)
  /\ (forall t, t <> pt_tableID pt -> heap_info b' t = heap_info b t).
Proof.
  intros [T1 T2 T3 T4 T5 T6 T7 T8 T9] Hh Hfl b'. destruct (set_free_safe b (pt_tableID pt) h fl' T1 Hh) as (S1 & S2 & S3 & S4).
  fold b' in S1, S2, S3, S4. split_and!; [|done|intros t Ht; by rewrite S4, decide_False].
  assert (Hl : hf_lastPageID h = last /\ hf_tableName h = n).
  { unfold heap_info in T4. rewrite Hh in T4. by injection T4 as <- <- <-. }
  destruct Hl as [Hl Hn]. split; try done.
  - eapply index_frame; [done|intros; apply S2|]. intros t Ht. rewrite S4, decide_False; [done|]. by intros ->.
  - rewrite S4, decide_True by done. by rewrite Hl, Hn.
  - eapply rows_rep_ext; [|done]. apply row_of_same. intros pid. apply S2.
Qed.

Lemma table_inv_heap b pt ix last fl n m :
  table_inv b pt ix last fl n m -> exists h, bp_heaps b !! pt_tableID pt = Some h /\ hf_freeList h = fl.
Proof.
  intros T. pose proof (ti_info _ _ _ _ _ _ _ T) as Hi. unfold heap_info in Hi.
  apply fmap_Some in Hi as (h & Hh & [= _ -> _]). by exists h.
Qed.

Lemma try_free_list_ok b pt ix last fl n m key v vals :
  table_inv b pt ix last fl n m -> ix !! key = None -> DecodeValues v = Ok vals ->
  room b (S ix_room) -> may_insert b (pt_index pt) key ->
  exists b' pt' r, try_free_list b pt key v (pt_nextLSN pt) = Some (b', pt', r)
    /\ if r : bool then put_done b pt m key vals b' pt' /\ (forall x, pin_of b' x = pin_of b x) else put_next b pt ix last fl n m b' pt'.
Proof.
  intros T Hk Hd Hroom Hmay. unfold try_free_list. destruct (table_inv_heap _ _ _ _ _ _ _ T) as (h & Hh & Hfl). rewrite Hh.
  cbn [mbind option_bind]. unfold TakeFromFreeList. rewrite Hfl. destruct (list.last fl) as [pid|] eqn:Hlast.
  2: { exists b, pt, false. split; [done|]. split; try done. by exists fl. }
  set (fl' := take (length fl - 1) fl).
  pose proof (ti_free _ _ _ _ _ _ _ T) as Hfree.
  assert (Hpid : (1 <= pid <= last)%N).
  { apply last_Some in Hlast as [l' ->]. rewrite Forall_app, Forall_singleton in Hfree. apply Hfree. }
  destruct (table_inv_free b pt ix last fl n m h fl' T Hh) as (T0 & Hpin0 & Hinfo0); [by apply Forall_take|].
  set (b0 := with_heaps _ _) in *. assert (Hlen : length fl' <= length fl) by (unfold fl'; rewrite length_take; lia).
  pose proof (ti_own _ _ _ _ _ _ _ T) as Hown.
  assert (Hroom0 : room b0 (S ix_room)) by (by apply (room_pins b)).
  destruct (fetch_open b0 _ _ (ti_safe _ _ _ _ _ _ _ T0) (table_inv_file _ _ _ _ _ _ _ pid T0 Hpid)) as (b1 & fid & p & -> & O);
    [unfold room in *; lia|].
  pose proof (op_quiet _ _ _ _ _ O) as Q. pose proof (table_inv_quiet _ _ _ _ _ _ _ _ _ Q (op_safe _ _ _ _ _ O) T0) as T1.
  assert (Hroom1 : room b1 ix_room) by (eapply (room_one b0 b1); [apply (qt_cap _ _ _ Q)|apply (qt_pin _ _ _ Q)|done]).
  assert (Hmay1 : may_insert b1 (pt_index pt) key).
  { eapply may_insert_frame; [done|]. intros t Ht. rewrite (qt_info _ _ _ Q). apply Hinfo0. by intros ->. }
  assert (Hp1 : page_of b1 (pt_tableID pt, pid) = Some p) by (rewrite (qt_page _ _ _ Q); apply (op_page _ _ _ _ _ O)).
  destruct (page_wf_rep p (op_wf _ _ _ _ _ O)) as [s Hr]. destruct (spec_insert s key v).2 as [sid|e] eqn:Hsp.
  - destruct (put_on_page b1 pt ix last fl' n m key _ fid p s sid v vals T1 Hk Hd (op_frame _ _ _ _ _ O) (op_pin _ _ _ _ _ O)
      Hp1 Hr Hsp Hroom1 Hmay1) as (b2 & b3 & b4 & i' & p2 & -> & E3 & E4 & Hfp & Hx4 & Wr & Tput).
    cbn [mbind option_bind]. rewrite E3. cbn [mbind option_bind]. rewrite E4. cbn [mbind option_bind]. rewrite Hfp.
    cbn [mbind option_bind]. eexists _, _, true. split; [done|].
    destruct (close_page b0 b1 b4 (pt_tableID pt, pid) fid p2 _ true (qt_cap _ _ _ Q) (qt_pin _ _ _ Q)
        (op_pin _ _ _ _ _ O) Wr Hx4 eq_refl) as (Q5 & Hs5 & Hc5 & Hp5).
    split; [split_and!; [|by destruct (IsFull p2)|by destruct (IsFull p2)]|by destruct (IsFull p2)].
    destruct (IsFull p2); cbn [negb]; eexists _, _, _, _; (eapply table_inv_quiet; [exact Q5|done|]).
    + apply (Tput (pt_insertPageID pt)). apply T.
    + apply (Tput pid). lia.
  - rewrite (insert_into_full b1 fid p s key v e (op_fpage _ _ _ _ _ O) (op_wf _ _ _ _ _ O) Hr Hsp). cbn [mbind option_bind].
    eexists _, _, false. split; [done|]. destruct (close_clean _ _ _ _ _ _ O) as [Q2 Hs2]. split; try done.
    + exists fl'. split; [|done]. by eapply table_inv_quiet.
    + apply (qt_cap _ _ _ Q2).
    + intros x. rewrite (qt_pin _ _ _ Q2), Hpin0. lia.
    + intros t Ht. rewrite (qt_info _ _ _ Q2). by apply Hinfo0.
Qed.
(** The record fits on an empty page. *)
Definition row_fits (key : RowKey) (v : list byte) : bool := (slot_pos 1 + blen (page_record key v) <=? PageSize)%N.

(** A page can be added to the file. *)
Definition can_grow (last : N) (fl : list N) (n : string) : Prop := (last + 1 < two64)%N /\ (info_size fl n <= MetaRoom)%N.

Lemma spec_insert_empty key v : row_fits key v = true -> (spec_insert empty_spec key v).2 = Ok 0%N.
Proof.
  unfold row_fits, spec_insert, empty_spec, dir_after. cbn [ps_rows ps_free first_free length]. intros Hf%N.leb_le.
  by rewrite (proj2 (N.ltb_ge _ _) Hf).
Qed.

Lemma table_inv_new b pt ix last fl n m :
  table_inv b pt ix last fl n m -> can_grow last fl n -> room b (S ix_room) ->
  let x := (pt_tableID pt, (last + 1)%N) in
  exists b' fid, Pool_NewPage b (pt_tableID pt) = Some (b', Ok ((last + 1)%N, fid))
    /\ table_inv b' pt ix (last + 1) fl n m /\ bp_frames b' !! x = Some fid /\ page_of b' x = Some (NewPage (last + 1))
    /\ bp_capacity b' = bp_capacity b /\ (forall y, pin_of b' y = pin_of b y + one x 1 y)%Z
    /\ (forall t, t <> pt_tableID pt -> heap_info b' t = heap_info b t).
Proof.
  intros T [Hl Hfit] Hroom x. pose proof T as [T1 T2 T3 T4 T5 T6 T7 T8 T9]. pose proof T1 as [HP Hset].
  destruct (new_quiet b (pt_tableID pt) last fl n HP T4 Hl Hfit) as (b' & fid & E & HP' & Hc & Hi & Hpg & Hx & Hp & Hs & _);
    [unfold room in Hroom; lia|].
  fold x in Hpg, Hx, Hp. exists b', fid. split; [done|]. split_and!; try done; [|by rewrite Hpg, decide_True|intros t Ht; by rewrite Hi, decide_False].
  assert (Hnone : page_of b x = None).
  { destruct (page_of b x) as [p|] eqn:Hpx; [|done]. destruct (page_of_wf b x p HP Hpx) as (Hin & _).
    apply in_file_info in Hin as (l' & fl' & n' & Hi' & Hr). cbn [fst snd x] in *. rewrite T4 in Hi'. injection Hi' as <- _ _. lia. }
  split; try done.
  - split; [done|]. intros y. rewrite Hp. pose proof (one_nonneg x y 1). destruct (Hset y); [left; auto|right; lia].
  - eapply index_frame; [done|..].
    + intros y Hy. rewrite Hpg, decide_False; [done|]. intros ->. by apply T3.
    + intros t Ht. rewrite Hi, decide_False; [done|]. by intros ->.
  - by rewrite Hi, decide_True.
  - eapply Forall_impl; [done|]. cbn. lia.
  - lia.
  - eapply rows_rep_ext; [|done]. intros [pid i]. unfold row_of. cbn. rewrite Hpg. case_decide as Hd; [|done].
    injection Hd as ->. fold x. rewrite Hnone, (GetRow_slot _ _ _ (rep_NewPage (last + 1))). done.
Qed.

Lemma put_row_new_page_ok b pt ix last fl n m key v vals :
  table_inv b pt ix last fl n m -> ix !! key = None -> DecodeValues v = Ok vals -> row_fits key v = true ->
  can_grow last fl n -> room b (S ix_room) -> may_insert b (pt_index pt) key ->
  exists b' pt', put_new_page b pt key v (pt_nextLSN pt) = Some (b', pt') /\ put_done b pt m key vals b' pt'
    /\ forall x, pin_of b' x = pin_of b x.
Proof.
  intros T Hk Hd Hfits Hgrow Hroom Hmay. unfold put_new_page.
  destruct (table_inv_new b pt ix last fl n m T Hgrow Hroom) as (b1 & fid & -> & T1 & Hx & Hpg & Hc & Hp & Hi).
  set (x := (pt_tableID pt, (last + 1)%N)) in *. cbn [mbind option_bind]. pose proof (ti_own _ _ _ _ _ _ _ T) as Hown.
  assert (Hpin : (0 < pin_of b1 x)%Z).
  { rewrite Hp. unfold one. rewrite decide_True by done. pose proof (ti_safe _ _ _ _ _ _ _ T) as [HP _].
    pose proof (pin_of_nonneg b x HP). lia. }
  assert (Hroom1 : room b1 ix_room) by (by eapply room_one).
  assert (Hmay1 : may_insert b1 (pt_index pt) key).
  { eapply may_insert_frame; [done|]. intros t Ht. apply Hi. by intros ->. }
  destruct (put_on_page b1 pt ix _ fl n m key _ fid _ _ 0%N v vals T1 Hk Hd Hx Hpin Hpg (rep_NewPage _) (spec_insert_empty key v Hfits)
    Hroom1 Hmay1) as (b2 & b3 & b4 & i' & p2 & -> & E3 & E4 & Hfp & Hx4 & Wr & Tput).
  cbn [mbind option_bind]. rewrite E3. cbn [mbind option_bind]. rewrite E4. cbn [mbind option_bind]. rewrite Hfp.
  cbn [mbind option_bind]. eexists _, _. split; [done|].
  destruct (close_page b b1 b4 x fid p2 _ true Hc Hp Hpin Wr Hx4 eq_refl) as (Q5 & Hs5 & Hc5 & Hp5).
  split; [split_and!; [|by destruct (IsFull p2)|by destruct (IsFull p2)]|by destruct (IsFull p2)].
  destruct (IsFull p2); cbn [negb]; eexists _, _, _, _; (eapply table_inv_quiet; [exact Q5|done|]).
  - apply (Tput (pt_insertPageID pt)). apply T1.
  - apply (Tput (last + 1)%N). lia.
Qed.

(** ** PutRow *)

Lemma putRowNew_ok b pt ix last fl n m key v vals :
  table_inv b pt ix last fl n m -> ix !! key = None -> DecodeValues v = Ok vals -> row_fits key v = true ->
  can_grow last fl n -> room b (S ix_room) -> may_insert b (pt_index pt) key ->
  exists b' pt', putRowNew b pt key v (pt_nextLSN pt) = Some (b', pt') /\ put_done b pt m key vals b' pt' /\ pins_after b pt b'.
Proof.
  intros T Hk Hd Hfits Hgrow Hroom Hmay. unfold putRowNew.
  destruct (try_insert_page_ok b pt ix last fl n m key v vals T Hk Hd Hroom Hmay) as (b1 & pt1 & r1 & -> & H1).
  cbn [mbind option_bind]. destruct r1; [by exists b1, pt1|].
  destruct H1 as [(fl1 & T1 & Hl1) C1 P1 I1 (N1 & X1 & L1)].
  assert (Hroom1 : room b1 (S ix_room)) by (by apply (room_pins b)).
  assert (Hmay1 : may_insert b1 (pt_index pt1) key).
  { rewrite X1. eapply may_insert_frame; [done|]. intros t Ht. apply I1. intros ->. by apply (ti_own _ _ _ _ _ _ _ T). }
  assert (Hgrow1 : can_grow last fl1 n).
  { destruct Hgrow as [G1 G2]. split; [done|]. unfold info_size in *. lia. }
  rewrite <-L1. destruct (try_free_list_ok b1 pt1 ix last fl1 n m key v vals T1 Hk Hd Hroom1 Hmay1) as (b2 & pt2 & r2 & -> & H2).
  cbn [mbind option_bind]. destruct r2.
  { destruct H2 as [(D1 & D2 & D3) P2]. exists b2, pt2. split; [done|]. split; [split_and!; [done|congruence|congruence]|].
    left. intros x. by rewrite P2. }
  destruct H2 as [(fl2 & T2 & Hl2) C2 P2 I2 (N2 & X2 & L2)].
  assert (Hroom2 : room b2 (S ix_room)) by (by apply (room_pins b1)).
  assert (Hmay2 : may_insert b2 (pt_index pt2) key).
  { rewrite X2. eapply may_insert_frame; [done|]. intros t Ht. apply I2. intros ->. by apply (ti_own _ _ _ _ _ _ _ T1). }
  assert (Hgrow2 : can_grow last fl2 n).
  { destruct Hgrow1 as [G1 G2]. split; [done|]. unfold info_size in *. lia. }
  rewrite <-L2. destruct (put_row_new_page_ok b2 pt2 ix last fl2 n m key v vals T2 Hk Hd Hfits Hgrow2 Hroom2 Hmay2)
    as (b3 & pt3 & -> & (D1 & D2 & D3) & P3).
  exists b3, pt3. split; [done|]. split; [split_and!; [done|congruence|congruence]|]. left. intros x. by rewrite P3, P2.
Qed.

(** The page that holds [key], if any, takes the new bytes. *)
Definition update_fits b pt (key : RowKey) (v : list byte) : Prop :=
  forall pid i p old, page_of b (pt_tableID pt, pid) = Some p -> Page.GetRow p (Z.of_N i) = Some (Some (key, old)) ->
    exists p' i', Page.UpdateRow p (Z.of_N i) key v = Some (p', Ok i').

Lemma try_update_new b pt ix last fl n m key v :
  table_inv b pt ix last fl n m -> ix !! key = None -> room b ix_room ->
  exists b', try_update b pt key v (pt_nextLSN pt) = Some (b', pt, false) /\ table_inv b' pt ix last fl n m
    /\ index_step (own (pt_index pt)) b b' /\ (forall k, may_insert b (pt_index pt) k -> may_insert b' (pt_index pt) k).
Proof.
  intros T Hk Hroom. unfold try_update.
  destruct (search_law b (pt_index pt) ix key (ti_safe _ _ _ _ _ _ _ T) Hroom (ti_index _ _ _ _ _ _ _ T)) as (b1 & -> & St & Hix & Hm).
  cbn [mbind option_bind]. rewrite Hk. exists b1. split; [done|]. split; [|done]. by eapply table_inv_index.
Qed.

Lemma try_update_ok b pt ix last fl n m key v vals l :
  table_inv b pt ix last fl n m -> ix !! key = Some l -> DecodeValues v = Ok vals -> update_fits b pt key v ->
  room b (S ix_room) -> may_insert b (pt_index pt) key ->
  exists b' pt', try_update b pt key v (pt_nextLSN pt) = Some (b', pt', true) /\ put_done b pt m key vals b' pt'
    /\ forall x, pin_of b' x = pin_of b x.
Proof.
  intros T Hk Hd Hfits Hroom Hmay. unfold try_update.
  destruct (search_law b (pt_index pt) ix key (ti_safe _ _ _ _ _ _ _ T)) as (b0 & -> & St & Hix & Hm);
    [unfold room in *; lia|apply T|]. cbn [mbind option_bind]. rewrite Hk. destruct l as [pid sid]. cbn [rl_pageID rl_slotID].
  pose proof (table_inv_index b b0 pt ix last fl n m St Hix T) as T0. pose proof (ti_own _ _ _ _ _ _ _ T) as Hown.
  pose proof (table_inv_loc _ _ _ _ _ _ _ _ _ T Hk) as Hpid. cbn [rl_pageID] in Hpid.
  assert (Hroom0 : room b0 (S ix_room)) by (apply (room_pins b); [apply (ix_cap _ _ _ St)|apply (ix_pin _ _ _ St)|done]).
  destruct (fetch_open b0 _ _ (ti_safe _ _ _ _ _ _ _ T0) (table_inv_file _ _ _ _ _ _ _ pid T0 Hpid)) as (b1 & fid & p & -> & O);
    [unfold room in *; lia|].
  pose proof (op_quiet _ _ _ _ _ O) as Q. pose proof (table_inv_quiet _ _ _ _ _ _ _ _ _ Q (op_safe _ _ _ _ _ O) T0) as T1.
  assert (Hroom1 : room b1 ix_room) by (eapply (room_one b0 b1); [apply (qt_cap _ _ _ Q)|apply (qt_pin _ _ _ Q)|done]).
  assert (Hmay1 : may_insert b1 (pt_index pt) key) by (eapply may_insert_frame; [by apply Hm|intros; apply (qt_info _ _ _ Q)]).
  assert (Hp1 : page_of b1 (pt_tableID pt, pid) = Some p) by (rewrite (qt_page _ _ _ Q); apply (op_page _ _ _ _ _ O)).
  pose proof (op_wf _ _ _ _ _ O) as Hw. pose proof (op_id _ _ _ _ _ O) as Hid. cbn [snd] in Hid.
  destruct (page_wf_rep p Hw) as [s Hr]. rewrite (op_fpage _ _ _ _ _ O). cbn [mbind option_bind].
  pose proof (row_of_page b1 (pt_tableID pt) pid p s Hp1 Hr) as Hrow.
  destruct (proj1 (rr_located _ _ _ (ti_rows _ _ _ _ _ _ _ T1) key (mkLoc pid sid)) Hk) as [old Hold]. rewrite Hrow in Hold.
  destruct (Hfits pid sid p old) as (p' & i' & Hu).
  { rewrite <-(ix_page _ _ _ St) by done. apply (op_page _ _ _ _ _ O). }
  { by rewrite (GetRow_slot p s sid Hr), Hold. }
  destruct (UpdateRow_kept p s (Z.of_N sid) key v Hw Hr) as (p1 & Hu1 & Hr1 & Hw1 & Hid1 & _).
  rewrite Hu in Hu1. injection Hu1 as <- Hsp. rewrite Hu. cbn [mbind option_bind]. symmetry in Hsp.
  destruct (slot_row_spec_update s sid key v _ i' Hold Hsp) as [Hfree Hslot].
  assert (Hloc : loc_ok (mkLoc pid i')).
  { split; cbn; [rewrite <-Hid; apply Hw|]. eapply (slot_row_width p'); [done|]. rewrite Hslot, decide_True by done. done. }
  destruct (write_entry b1 (pt_tableID pt, pid) fid p' _ (pt_index pt) ix key (mkLoc pid i') (pt_nextLSN pt)
    (op_safe _ _ _ _ _ O) (op_frame _ _ _ _ _ O) (op_pin _ _ _ _ _ O) Hw1 Hr1 ltac:(cbn; congruence) (ti_lsn _ _ _ _ _ _ _ T)
    Hown (ti_index _ _ _ _ _ _ _ T1) Hroom1 Hmay1 Hloc) as (b3 & b4 & ii & E3 & E4 & Wr & Hx4 & Hfp4 & Hix4 & Hown4).
  rewrite E3. cbn [mbind option_bind]. unfold index_put. rewrite E4. cbn [mbind option_bind].
  destruct (close_page b0 b1 b4 (pt_tableID pt, pid) fid _ _ true (qt_cap _ _ _ Q) (qt_pin _ _ _ Q) (op_pin _ _ _ _ _ O) Wr Hx4 eq_refl)
    as (Q5 & Hs5 & Hc5 & Hp5).
  eexists _, _. split; [done|]. split; [split_and!; [|etrans; [apply Hc5|apply (ix_cap _ _ _ St)]|done]|].
  2: { intros x. etrans; [apply Hp5|apply (ix_pin _ _ _ St)]. }
  destruct (SetPageLSN_kept p' _ (pt_nextLSN pt) Hw1 Hr1 (ti_lsn _ _ _ _ _ _ _ T)) as (Hr2 & _).
  eexists _, _, _, _. eapply table_inv_quiet; [exact Q5|done|]. rewrite <-(with_insertPageID_same (with_index pt ii)).
  eapply (table_inv_put b1 pt ix last fl n m key pid _ _ i' v vals b4 ii _ T1 Hd Wr Hr2); try done.
  - intros i. rewrite Hslot, Hrow. destruct (decide (i = i')); [done|]. repeat case_decide; congruence.
  - intros l Hl. rewrite Hk in Hl. by injection Hl as <-.
  - rewrite Hrow. destruct Hfree as [?| ->]; [by left|by right].
  - apply T.
Qed.

Lemma pt_PutRow_ok b pt ix last fl n m key values v vals :
  table_inv b pt ix last fl n m -> EncodeValues values = Some v -> DecodeValues v = Ok vals ->
  row_fits key v = true -> update_fits b pt key v -> can_grow last fl n -> room b (S ix_room) ->
  may_insert b (pt_index pt) key ->
  exists b' pt', PutRow b pt key values = Some (b', pt') /\ put_done b pt m key vals b' pt' /\ pins_after b pt b'.
Proof.
  intros T He Hd Hfits Hup Hgrow Hroom Hmay. unfold PutRow. rewrite He. cbn [mbind option_bind].
  destruct (ix !! key) as [l|] eqn:Hk.
  - destruct (try_update_ok b pt ix last fl n m key v vals l T Hk Hd Hup Hroom Hmay) as (b' & pt' & -> & D & P).
    cbn [mbind option_bind]. exists b', pt'. split; [done|]. split; [done|by left].
  - destruct (try_update_new b pt ix last fl n m key v T Hk) as (b1 & -> & T1 & St & Hm); [unfold room in *; lia|].
    cbn [mbind option_bind].
    destruct (putRowNew_ok b1 pt ix last fl n m key v vals T1 Hk Hd Hfits Hgrow) as (b' & pt' & -> & (D1 & D2 & D3) & P).
    + apply (room_pins b); [apply (ix_cap _ _ _ St)|apply (ix_pin _ _ _ St)|done].
    + by apply Hm.
    + exists b', pt'. split; [done|]. split; [split_and!; [done|by rewrite D2, (ix_cap _ _ _ St)|done]|].
      destruct P as [P|[P1 P2]]; [left|right; split; [done|]]; intros x; [rewrite P|rewrite P2]; by rewrite (ix_pin _ _ _ St).
Qed.
(** ** Reading *)

(** A step that stores nothing. *)
Definition kept b pt ix last fl n m b' : Prop :=
  table_inv b' pt ix last fl n m /\ bp_capacity b' = bp_capacity b /\ forall x, pin_of b' x = pin_of b x.

Lemma kept_refl b pt ix last fl n m : table_inv b pt ix last fl n m -> kept b pt ix last fl n m b.
Proof. by split. Qed.

Lemma kept_trans b pt ix last fl n m b1 b2 :
  kept b pt ix last fl n m b1 -> kept b1 pt ix last fl n m b2 -> kept b pt ix last fl n m b2.
Proof. intros (A1 & A2 & A3) (B1 & B2 & B3). split_and!; [done|congruence|]. intros x. by rewrite B3, A3. Qed.

Lemma kept_index b pt ix last fl n m b' :
  table_inv b pt ix last fl n m -> index_step (own (pt_index pt)) b b' -> index_rep b' (pt_index pt) ix ->
  kept b pt ix last fl n m b'.
Proof. intros T St Hix. split_and!; [by eapply table_inv_index|apply (ix_cap _ _ _ St)|apply (ix_pin _ _ _ St)]. Qed.

Lemma kept_room b pt ix last fl n m b' k : kept b pt ix last fl n m b' -> room b k -> room b' k.
Proof. intros (_ & Hc & Hp). by apply room_pins. Qed.

Lemma pt_GetRow_ok b pt ix last fl n m key :
  table_inv b pt ix last fl n m -> room b (S ix_room) ->
  exists b', GetRow b pt key = Some (b', m !! key) /\ kept b pt ix last fl n m b'.
Proof.
  intros T Hroom. unfold GetRow.
  destruct (search_law b (pt_index pt) ix key (ti_safe _ _ _ _ _ _ _ T)) as (b0 & -> & St & Hix & _);
    [unfold room in *; lia|apply T|]. cbn [mbind option_bind].
  pose proof (kept_index b pt ix last fl n m b0 T St Hix) as K0. pose proof K0 as (T0 & _).
  pose proof (rows_rep_lookup _ _ _ key (ti_rows _ _ _ _ _ _ _ T0)) as Hl.
  destruct (ix !! key) as [[pid sid]|] eqn:Hk; [|exists b0; by rewrite Hl]. cbn [rl_pageID rl_slotID].
  destruct Hl as (v & vals & Hv & Hd & ->).
  pose proof (table_inv_loc _ _ _ _ _ _ _ _ _ T0 Hk) as Hpid. cbn [rl_pageID] in Hpid.
  pose proof (kept_room _ _ _ _ _ _ _ _ _ K0 Hroom) as Hroom0.
  destruct (fetch_open b0 _ _ (ti_safe _ _ _ _ _ _ _ T0) (table_inv_file _ _ _ _ _ _ _ pid T0 Hpid)) as (b1 & fid & p & -> & O);
    [unfold room in *; lia|].
  rewrite (op_fpage _ _ _ _ _ O). cbn [mbind option_bind]. destruct (page_wf_rep p (op_wf _ _ _ _ _ O)) as [s Hr].
  rewrite (GetRow_slot p s sid Hr). cbn [mbind option_bind].
  rewrite (row_of_page b0 _ pid p s (op_page _ _ _ _ _ O) Hr) in Hv. rewrite Hv, Hd.
  destruct (close_clean _ _ _ _ _ _ O) as [Q2 Hs2]. eexists. split; [done|]. eapply kept_trans; [done|].
  split_and!; [by eapply table_inv_quiet|apply (qt_cap _ _ _ Q2)|]. intros x. rewrite (qt_pin _ _ _ Q2). lia.
Qed.

Lemma pt_Keys_ok b pt ix last fl n m :
  table_inv b pt ix last fl n m -> room b (S ix_room) ->
  exists b' ks, Keys b pt = Some (b', ks) /\ kept b pt ix last fl n m b' /\ NoDup ks
    /\ (forall k, k ∈ ks <-> is_Some (m !! k)) /\ StronglySorted String.le ks.
Proof.
  intros T Hroom. unfold Keys.
  destruct (keys_law b (pt_index pt) ix (ti_safe _ _ _ _ _ _ _ T)) as (b' & ks & -> & St & Hix & Hnd & Hin & Hsort);
    [unfold room in *; lia|apply T|]. cbn [mbind option_bind]. eexists _, _. split; [done|]. split; [by apply kept_index|].
  assert (Hks : forall k, k ∈ ks <-> is_Some (m !! k)).
  { intros k. rewrite Hin, <-!elem_of_dom. by rewrite (rows_rep_dom _ _ _ (ti_rows _ _ _ _ _ _ _ T)). }
  destruct indexSorted; [by auto|]. pose proof (merge_sort_Permutation String.le ks) as Hperm.
  split_and!; [by rewrite Hperm|intros k; by rewrite Hperm|]. apply (StronglySorted_merge_sort _ _).
Qed.

Lemma pt_Count_ok b pt ix last fl n m :
  table_inv b pt ix last fl n m -> room b (S ix_room) ->
  exists b', Count b pt = Some (b', size m) /\ kept b pt ix last fl n m b'.
Proof.
  intros T Hroom. unfold Count.
  destruct (count_law b (pt_index pt) ix (ti_safe _ _ _ _ _ _ _ T)) as (b' & E & St & Hix);
    [unfold room in *; lia|apply T|]. exists b'. split; [|by apply kept_index].
  rewrite E. do 2 f_equal. by rewrite <-!size_dom, (rows_rep_dom _ _ _ (ti_rows _ _ _ _ _ _ _ T)).
Qed.

(** The rows of [ks] in order. *)
Definition rows_at (m : gmap RowKey (list Value)) (filter : option (Row -> bool)) (ks : list RowKey) : list Row :=
  List.filter (fun r => match filter with None => true | Some f => f r end)
    (omap (fun k => (fun vals => mkRow k (Some vals)) <$> m !! k) ks).

Lemma scan_keys_ok ks b pt ix last fl n m filter :
  table_inv b pt ix last fl n m -> room b (S ix_room) ->
  exists b', scan_keys b pt filter ks = Some (b', rows_at m filter ks) /\ kept b pt ix last fl n m b'.
Proof.
  revert b. induction ks as [|k ks IH]; intros b T Hroom; cbn [scan_keys].
  { exists b. split; [done|]. by apply kept_refl. }
  destruct (pt_GetRow_ok b pt ix last fl n m k T Hroom) as (b1 & -> & K1). cbn [mbind option_bind].
  destruct (IH b1) as (b2 & E2 & K2); [apply K1|by eapply kept_room|]. pose proof (kept_trans _ _ _ _ _ _ _ _ _ K1 K2) as K.
  exists b2. split; [|done]. unfold rows_at in *. cbn [omap list_omap]. rewrite E2.
  destruct (m !! k) as [vals|]; cbn; [|done]. destruct filter as [f|]; [|done]. by destruct (f _).
Qed.

Lemma pt_Scan_ok b pt ix last fl n m filter :
  table_inv b pt ix last fl n m -> room b (S ix_room) ->
  exists b' ks, Scan b pt filter = Some (b', rows_at m filter ks) /\ kept b pt ix last fl n m b'
    /\ NoDup ks /\ (forall k, k ∈ ks <-> is_Some (m !! k)).
Proof.
  intros T Hroom. unfold Scan.
  destruct (keys_law b (pt_index pt) ix (ti_safe _ _ _ _ _ _ _ T)) as (b1 & ks & -> & St & Hix & Hnd & Hin & _);
    [unfold room in *; lia|apply T|]. cbn [mbind option_bind]. pose proof (kept_index _ _ _ _ _ _ _ _ T St Hix) as K1.
  destruct (scan_keys_ok ks b1 pt ix last fl n m filter) as (b2 & -> & K2); [apply K1|by eapply kept_room|].
  exists b2, ks. split; [done|]. split; [by eapply kept_trans|]. split; [done|].
  intros k. rewrite Hin, <-!elem_of_dom. by rewrite (rows_rep_dom _ _ _ (ti_rows _ _ _ _ _ _ _ T)).
Qed.

(** ** DeleteRow *)

Lemma all_gone_total p s i k : rep p s -> is_Some (all_gone p i k).
Proof.
  intros Hr. revert i. induction k as [|k IH]; intros i; cbn [all_gone]; [done|]. rewrite (GetRow_slot p s i Hr).
  cbn [mbind option_bind]. destruct (slot_row s i); [done|apply IH].
Qed.

Lemma pt_DeleteRow_ok b pt ix last fl n m key :
  table_inv b pt ix last fl n m -> room b (S ix_room) ->
  exists b' pt', DeleteRow b pt key = Some (b', pt', bool_decide (is_Some (m !! key)))
    /\ table_rep b' pt' (delete key m) /\ bp_capacity b' = bp_capacity b /\ pt_name pt' = pt_name pt
    /\ forall x, pin_of b' x = pin_of b x.
Proof.
  intros T Hroom. unfold DeleteRow.
  destruct (search_law b (pt_index pt) ix key (ti_safe _ _ _ _ _ _ _ T)) as (b0 & -> & St & Hix & _);
    [unfold room in *; lia|apply T|]. cbn [mbind option_bind].
  pose proof (kept_index b pt ix last fl n m b0 T St Hix) as K0. pose proof K0 as (T0 & C0 & P0).
  pose proof (rows_rep_lookup _ _ _ key (ti_rows _ _ _ _ _ _ _ T0)) as Hl. pose proof (ti_own _ _ _ _ _ _ _ T) as Hown.
  destruct (ix !! key) as [[pid sid]|] eqn:Hk.
  2: { exists b0, pt. rewrite Hl. split; [done|]. split_and!; try done. rewrite delete_id by done. by eexists _, _, _, _. }
  cbn [rl_pageID rl_slotID]. destruct Hl as (v & vals & Hv & _ & Hmk).
  pose proof (table_inv_loc _ _ _ _ _ _ _ _ _ T0 Hk) as Hpid. cbn [rl_pageID] in Hpid.
  pose proof (kept_room _ _ _ _ _ _ _ _ _ K0 Hroom) as Hroom0.
  destruct (fetch_open b0 _ _ (ti_safe _ _ _ _ _ _ _ T0) (table_inv_file _ _ _ _ _ _ _ pid T0 Hpid)) as (b1 & fid & p & -> & O);
    [unfold room in *; lia|].
  pose proof (op_quiet _ _ _ _ _ O) as Q. pose proof (op_wf _ _ _ _ _ O) as Hw. pose proof (op_id _ _ _ _ _ O) as Hid. cbn [snd] in Hid.
  rewrite (op_fpage _ _ _ _ _ O). cbn [mbind option_bind]. destruct (page_wf_rep p Hw) as [s Hr].
  destruct (DeleteRow_kept p s (Z.of_N sid) Hw Hr) as (p1 & -> & Hr1 & Hw1 & Hid1 & _). cbn [mbind option_bind].
  pose proof (ti_lsn _ _ _ _ _ _ _ T) as Hlsn.
  destruct (SetPageLSN_kept p1 _ (pt_nextLSN pt) Hw1 Hr1 Hlsn) as (Hr2 & Hw2 & Hid2). set (p2 := SetPageLSN p1 (pt_nextLSN pt)) in *.
  pose proof (op_safe _ _ _ _ _ O) as Hs1. pose proof Hs1 as [HP1 _]. pose proof (op_frame _ _ _ _ _ O) as Hx.
  unfold stamp. rewrite (frame_page_set b1 _ fid p1 HP1 Hx). cbn [mbind option_bind]. rewrite set_page_twice. fold p2.
  rewrite (frame_page_set b1 _ fid p2 HP1 Hx). cbn [mbind option_bind].
  destruct (all_gone_total p2 _ 0 (N.to_nat (pg_slotCount p2)) Hr2) as [gone ->]. cbn [mbind option_bind].
  set (x := (pt_tableID pt, pid)) in *. set (b3 := set_page b1 fid p2). assert (Hid3 : pg_id p2 = x.2) by (cbn; congruence).
  destruct (set_page_pins b1 x fid p2 HP1 Hx (op_pin _ _ _ _ _ O) Hw2 Hid3) as (_ & Hpg3 & Hf3 & Hc3 & Hi3 & Hp3 & _).
  pose proof (set_page_safe b1 x fid p2 Hs1 Hx (op_pin _ _ _ _ _ O) Hw2 Hid3) as Hs3. fold b3 in Hpg3, Hf3, Hc3, Hi3, Hp3, Hs3.
  assert (Wr : wrote (own (pt_index pt)) x p2 (fun _ => 0%Z) b1 b3) by (split; try done; intros y; rewrite Hp3; lia).
  destruct (close_page b0 b1 b3 x fid p2 _ true (qt_cap _ _ _ Q) (qt_pin _ _ _ Q) (op_pin _ _ _ _ _ O) Wr
    ltac:(by rewrite Hf3) eq_refl) as (Q4 & Hs4 & Hc4 & Hp4).
  cbn [fst snd x] in Q4, Hs4, Hc4, Hp4. set (b4 := UnpinPage b3 (pt_tableID pt) pid true) in *.
  assert (Hpg4 : forall y, page_of b4 y = if decide (y = x) then Some p2 else page_of b0 y).
  { intros y. rewrite (qt_page _ _ _ Q4), Hpg3, (qt_page _ _ _ Q). done. }
  assert (Hi4 : forall t, heap_info b4 t = heap_info b0 t) by (intros t; by rewrite (qt_info _ _ _ Q4), Hi3, (qt_info _ _ _ Q)).
  assert (Hix4 : index_rep b4 (pt_index pt) ix).
  { eapply index_frame; [exact Hix| |done]. intros y Hy. rewrite Hpg4, decide_False; [done|]. by intros ->. }
  assert (Hroom4 : room b4 ix_room) by (apply (room_pins b0); [done|done|unfold room in *; lia]).
  destruct (delete_law b4 (pt_index pt) ix key Hs4 Hroom4 Hix4) as (b5 & i' & -> & St5 & Hix5 & Hown5); [by rewrite Hk|].
  cbn [mbind option_bind]. assert (T5 : table_inv b5 (with_index pt i') (delete key ix) last fl n (delete key m)).
  { destruct T0 as [U1 U2 U3 U4 U5 U6 U7 U8 U9]. split; try done; [apply St5|cbn; by rewrite Hown5|cbn; by rewrite (ix_info _ _ _ St5), Hi4|].
    eapply rows_rep_delete; [exact U9|done|]. intros l. cbn [pt_tableID pt_name with_index].
    rewrite (row_of_write b0 b5 (pt_tableID pt) pid p2 (spec_delete s (Z.of_N sid))); [| |exact Hr2].
    2: { intros j. rewrite (ix_page _ _ _ St5) by done. rewrite Hpg4. unfold x. repeat case_decide; congruence. }
    destruct l as [j i]. cbn [rl_pageID rl_slotID]. destruct (decide (j = pid)) as [->|Hj].
    - rewrite slot_row_spec_delete. rewrite (row_of_page b0 _ pid p s (op_page _ _ _ _ _ O) Hr). repeat case_decide; congruence.
    - rewrite decide_False; [done|]. congruence. }
  assert (C5 : bp_capacity b5 = bp_capacity b) by (by rewrite (ix_cap _ _ _ St5), Hc4).
  assert (P5 : forall y, pin_of b5 y = pin_of b y) by (intros y; by rewrite (ix_pin _ _ _ St5), Hp4, P0).
  rewrite bool_decide_eq_true_2 by (by rewrite Hmk). destruct gone; [|eexists _, _; split; [done|]; split_and!; try done; by eexists _, _, _, _].
  change (pt_tableID (with_index pt i')) with (pt_tableID pt).
  destruct (table_inv_heap _ _ _ _ _ _ _ T5) as (h & Hh & Hfl). pose proof Hh as Hh'.
  change (pt_tableID (with_index pt i')) with (pt_tableID pt) in Hh'. rewrite Hh'. cbn [mbind option_bind]. unfold AddToFreeList. rewrite Hfl.
  destruct (table_inv_free b5 (with_index pt i') _ last fl n _ h (fl ++ [pid]) T5 Hh) as (T6 & P6 & _).
  { apply Forall_app. split; [apply T5|]. by apply Forall_singleton. }
  eexists _, _. split; [done|]. split_and!; [|done|by destruct (_ =? _)%N|done].
  eexists _, _, _, _. destruct (_ =? _)%N; [|exact T6]. apply table_inv_insertPageID; [exact T6|]. lia.
Qed.
End Rep.
