(* ===== verification/PagedRefine.v ===== *)
(** * A paged table is a table, also after a restart

    Both implementations of the code's [TableIface], the in-memory [Table]
    of [Storage] and the paged one, give the same answers ([paged_refines]).
    The index that [RebuildIndex] makes from the pages is the index the table
    had ([rebuild_ok]), so that a table whose dirty pages were flushed comes
    back after a restart ([paged_restart]). The runs at the end show where
    the code leaves these paths. *)

From Stdlib Require Import ZArith NArith Lia Strings.Byte String.
From stdpp Require Import base tactics numbers list gmap strings sorting.
From S2P Require Import Prelude Types Storage WalRecord Page Heap Wal Pool PoolInv PoolPins PagedTable PagedInv.

(** ** The operations of [TableIface] *)

Inductive TableOp :=
| TGet (key : RowKey)
| TPut (key : RowKey) (vals : list Value)
| TDelete (key : RowKey)
| TKeys
| TCount
| TScan (filter : option (Row -> bool)).

Inductive TableOut :=
| ORow (r : option (list Value))
| ODeleted (found : bool)
| OKeys (l : list RowKey)
| OCount (n : nat)
| ORows (l : list Row)
| ODone.

Definition mem_exec (t : Table) (op : TableOp) : Table * TableOut :=
  match op with
  | TGet key => (t, ORow (match Storage.GetRow t key with (v, true) => Some (values_list v) | (_, false) => None end))
  | TPut key vals => (Storage.PutRow t key (Some vals), ODone)
  | TDelete key => let (t, found) := Storage.DeleteRow t key in (t, ODeleted found)
  | TKeys => (t, OKeys (Storage.Keys t))
  | TCount => (t, OCount (Storage.Count t))
  | TScan filter => (t, ORows (Storage.Scan t filter))
  end.

Definition paged_exec {W I} `{Flusher W} `{RowIndex W I} (b : BufferPool W) (pt : PagedTable I) (op : TableOp)
    : option (BufferPool W * PagedTable I * TableOut) :=
  match op with
  | TGet key => '(b, r) ← GetRow b pt key; Some (b, pt, ORow r)
  | TPut key vals => '(b, pt) ← PutRow b pt key vals; Some (b, pt, ODone)
  | TDelete key => '(b, pt, found) ← DeleteRow b pt key; Some (b, pt, ODeleted found)
  | TKeys => '(b, l) ← Keys b pt; Some (b, pt, OKeys l)
  | TCount => '(b, n) ← Count b pt; Some (b, pt, OCount n)
  | TScan filter => '(b, l) ← Scan b pt filter; Some (b, pt, ORows l)
  end.

(** Scans may give the rows in another order. *)
Definition same_out (o o' : TableOut) : Prop :=
  match o, o' with
  | ORows l, ORows l' => l ≡ₚ l'
  | _, _ => o = o'
  end.

Section Refine.
Context {W I : Type} `{HF : Flusher W} `{HI : RowIndex W I} `{HL : !IndexLaws W I}.
Implicit Types (b : BufferPool W) (pt : PagedTable I).

(** What a put asks for: values the codec keeps, a row that fits on a page,
    an update its page has room for, and a file and an index that can grow. *)
Definition op_ok b pt (op : TableOp) : Prop :=
  match op with
  | TPut key vals =>
      (N.of_nat (length vals) <= 65535)%N /\ Forall canonical vals
      /\ (forall v, EncodeValues vals = Some v -> row_fits key v = true /\ update_fits b pt key v)
      /\ (forall last fl n, heap_info b (pt_tableID pt) = Some (last, fl, n) -> can_grow last fl n)
      /\ may_insert b (pt_index pt) key
  | _ => True
  end.

Definition stores b pt (t : Table) : Prop := exists m, table_rep b pt m /\ t_rows t = Some <$> m.

Lemma mem_get t m key : t_rows t = Some <$> m -> (mem_exec t (TGet key)).2 = ORow (m !! key).
Proof.
  intros Ht. cbn. unfold Storage.GetRow. rewrite Ht, lookup_fmap. destruct (m !! key); done.
Qed.

Lemma mem_keys (t : Table) m (ks : list RowKey) :
  t_rows t = Some <$> m -> NoDup ks -> (forall k, k ∈ ks <-> is_Some (m !! k)) -> ks ≡ₚ (map_to_list (t_rows t)).*1.
Proof.
  intros Ht Hnd Hin. apply NoDup_Permutation; [done|apply NoDup_fst_map_to_list|]. intros k. rewrite Hin, Ht, list_elem_of_fmap.
  split.
  - intros [vals Hk]. exists (k, Some vals). split; [done|]. apply elem_of_map_to_list. by rewrite lookup_fmap, Hk.
  - intros ([k' v] & -> & Hk%elem_of_map_to_list). rewrite lookup_fmap in Hk. apply fmap_Some in Hk as (vals & Hk & _). by exists vals.
Qed.

Lemma Scan_rows (t : Table) m filter :
  t_rows t = Some <$> m -> Storage.Scan t filter = rows_at m filter (map_to_list (t_rows t)).*1.
Proof.
  intros Ht. unfold Storage.Scan, rows_at. f_equal. rewrite Ht, map_to_list_fmap.
  assert (Hin : forall k v, (k, v) ∈ map_to_list m -> m !! k = Some v) by (intros k v; apply elem_of_map_to_list).
  induction (map_to_list m) as [|[k v] l IH]; [done|]. cbn. rewrite (Hin k v) by (by left). cbn. f_equal. apply IH.
  intros k' v' Hk. apply Hin. by right.
Qed.

Lemma rows_at_perm m filter ks ks' : ks ≡ₚ ks' -> rows_at m filter ks ≡ₚ rows_at m filter ks'.
Proof.
  intros Hp. unfold rows_at. induction Hp as [|k ks ks' Hp IH|k k' ks|ks1 ks2 ks3 _ IH1 _ IH2]; [done|..].
  - cbn. destruct (m !! k); cbn; [|done]. destruct (match filter with None => _ | Some _ => _ end); [by constructor|done].
  - cbn. destruct (m !! k), (m !! k'); cbn; repeat (destruct (match filter with None => _ | Some _ => _ end)); try done. constructor.
  - by etrans.
Qed.

(** C5. The paged table answers like the in-memory table, up to the order
    of scans, changes like it, and does not panic, when no heap write fails
    and the pool has a frame to spare beyond those of the index. A put also
    needs ([op_ok]) at most 65535 canonical values, a row that fits on a
    page, an update its page has room for, a free list that fits the meta
    page ([can_grow]) and an index that takes the key ([may_insert]: for
    the B+ tree, keys of at most 26 bytes and a file that can grow). A put
    may keep one pin on the pool, nothing else does. *)
Theorem paged_refines b pt t op :
  stores b pt t -> op_ok b pt op -> room b (S ix_room) ->
  exists b' pt' out, paged_exec b pt op = Some (b', pt', out) /\ same_out out (mem_exec t op).2
    /\ stores b' pt' (mem_exec t op).1 /\ bp_capacity b' = bp_capacity b
    /\ match op with TPut _ _ => pins_after b pt b' | _ => forall x, pin_of b' x = pin_of b x end.
Proof.
  intros (m & (ix & last & fl & n & T) & Ht) Hop Hroom. destruct op as [key|key vals|key| | |filter].
  - destruct (pt_GetRow_ok b pt ix last fl n m key T Hroom) as (b' & E & T' & C & P). exists b', pt, (ORow (m !! key)).
    unfold paged_exec. rewrite E, (mem_get t m key Ht). split_and!; try done. exists m. split; [|done]. by exists ix, last, fl, n.
  - destruct Hop as (Hlen & Hcan & Hfit & Hgrow & Hmay). destruct (decode_encode_app vals [] Hlen Hcan) as (v & He & Hd).
    rewrite app_nil_r in Hd. destruct (Hfit v He) as [Hf Hu].
    destruct (pt_PutRow_ok b pt ix last fl n m key vals v vals T He Hd Hf Hu (Hgrow _ _ _ (ti_info _ _ _ _ _ _ _ T)) Hroom Hmay)
      as (b' & pt' & E & (D1 & D2 & D3) & P).
    exists b', pt', ODone. unfold paged_exec. rewrite E. split_and!; try done. exists (<[key := vals]> m). split; [done|].
    cbn. by rewrite Ht, fmap_insert.
  - destruct (pt_DeleteRow_ok b pt ix last fl n m key T Hroom) as (b' & pt' & E & D1 & D2 & D3 & P).
    exists b', pt', (ODeleted (bool_decide (is_Some (m !! key)))). unfold paged_exec. rewrite E. cbn.
    unfold Storage.DeleteRow. rewrite Ht, lookup_fmap. destruct (m !! key) as [v|] eqn:Hk; cbn; split_and!; try done.
    + exists (delete key m). split; [done|]. cbn. by rewrite fmap_delete.
    + exists (delete key m). split; [done|]. by rewrite delete_id.
  - destruct (pt_Keys_ok b pt ix last fl n m T Hroom) as (b' & ks & E & (T' & C & P) & Hnd & Hin & Hs).
    exists b', pt, (OKeys ks). unfold paged_exec. rewrite E. split_and!; try done; [|exists m; split; [by exists ix, last, fl, n|done]].
    cbn. f_equal. unfold Storage.Keys. apply (StronglySorted_unique String.le); [done|apply (StronglySorted_merge_sort _ _)|].
    rewrite merge_sort_Permutation. by apply (mem_keys t m).
  - destruct (pt_Count_ok b pt ix last fl n m T Hroom) as (b' & E & T' & C & P). exists b', pt, (OCount (size m)).
    unfold paged_exec. rewrite E. split_and!; try done; [|exists m; split; [by exists ix, last, fl, n|done]].
    cbn. unfold Storage.Count. by rewrite Ht, map_size_fmap.
  - destruct (pt_Scan_ok b pt ix last fl n m filter T Hroom) as (b' & ks & E & (T' & C & P) & Hnd & Hin).
    exists b', pt, (ORows (rows_at m filter ks)). unfold paged_exec. rewrite E.
    split_and!; try done; [|exists m; split; [by exists ix, last, fl, n|done]].
    cbn. rewrite (Scan_rows t m filter Ht). apply rows_at_perm. by apply (mem_keys t m).
Qed.
End Refine.

(** ** The index rebuilt *)

Section Rebuild.
Context {W : Type} `{HF : Flusher W}.
Implicit Types (b : BufferPool W) (pt : PagedTable (gmap RowKey rowLocation)) (ix : gmap RowKey rowLocation).

(** The locations before slot [sid] of page [pid]. *)
Definition before (pid sid : N) (l : rowLocation) : bool :=
  (rl_pageID l <? pid)%N || ((rl_pageID l =? pid)%N && (rl_slotID l <? sid)%N).

Definition part ix (pid sid : N) : gmap RowKey rowLocation := filter (fun kl => before pid sid kl.2 = true) ix.

Lemma part_ext ix pid sid pid' sid' :
  (forall k l, ix !! k = Some l -> before pid sid l = before pid' sid' l) -> part ix pid sid = part ix pid' sid'.
Proof. intros Hb. apply map_filter_ext. intros k l Hk. cbn. by rewrite (Hb k l Hk). Qed.

Lemma part_row ix R m pid sid k v :
  rows_rep ix R m -> R (mkLoc pid sid) = Some (k, v) ->
  part ix pid (sid + 1) = <[k := mkLoc pid sid]> (part ix pid sid).
Proof.
  intros HR Hv. assert (Hk : ix !! k = Some (mkLoc pid sid)) by (apply (rr_located _ _ _ HR); by exists v).
  apply map_eq. intros k'. destruct (decide (k' = k)) as [->|Hne].
  - rewrite lookup_insert_eq. apply map_lookup_filter_Some. split; [done|]. unfold before. cbn.
    rewrite N.eqb_refl, (proj2 (N.ltb_lt sid (sid + 1))) by lia. apply orb_true_r.
  - rewrite lookup_insert_ne by done. apply option_eq. intros l. unfold part. rewrite !map_lookup_filter_Some.
    split; intros [Hl Hb]; (split; [done|]); revert Hb; unfold before; cbn; rewrite !orb_true_iff, !andb_true_iff, !N.ltb_lt, !N.eqb_eq;
      [|intuition lia]. intros [?|[Hp Hs]]; [by left|]. right. split; [done|]. destruct l as [p i]. cbn in *. subst p.
    destruct (decide (i = sid)) as [->|]; [|lia]. exfalso. apply (rr_located _ _ _ HR) in Hl as [w Hw]. rewrite Hv in Hw.
    injection Hw as -> _. done.
Qed.

Lemma part_none ix R m pid sid :
  rows_rep ix R m -> R (mkLoc pid sid) = None -> part ix pid (sid + 1) = part ix pid sid.
Proof.
  intros HR Hn. apply part_ext. intros k [p i] Hk. apply (rr_located _ _ _ HR) in Hk as [v Hv]. apply eq_true_iff_eq. unfold before.
  cbn. rewrite !orb_true_iff, !andb_true_iff, !N.ltb_lt, !N.eqb_eq. split; [|intuition lia].
  intros [?|[-> Hs]]; [by left|]. right. split; [done|]. destruct (decide (i = sid)) as [->|]; [congruence|lia].
Qed.

Lemma rebuild_slots_ok k b ix R m page s pid sid hs :
  rows_rep ix R m -> rep page s -> (forall i, R (mkLoc pid i) = slot_row s i) ->
  exists hs', rebuild_slots b (part ix pid sid) page pid sid k hs = Some (b, Ok (part ix pid (sid + N.of_nat k), hs')).
Proof.
  intros HR Hr Hrow. revert sid hs. induction k as [|k IH]; intros sid hs; cbn [rebuild_slots].
  { exists hs. by rewrite N.add_0_r. }
  rewrite (GetRow_slot page s sid Hr), <-Hrow. cbn [mbind option_bind].
  replace (sid + N.of_nat (S k))%N with (sid + 1 + N.of_nat k)%N by lia.
  destruct (R (mkLoc pid sid)) as [[key v]|] eqn:Hv.
  - cbn. rewrite <-(part_row ix R m pid sid key v HR Hv). apply IH.
  - rewrite <-(part_none ix R m pid sid HR Hv). apply IH.
Qed.

Lemma part_page ix b t m pid p :
  rows_rep ix (row_of b t) m -> page_of b (t, pid) = Some p -> page_wf p -> part ix (pid + 1) 0 = part ix pid (pg_slotCount p).
Proof.
  intros HR Hp Hw. destruct (page_wf_rep p Hw) as [s Hr]. apply part_ext. intros k [j i] Hk.
  apply (rr_located _ _ _ HR) in Hk as [v Hv]. apply eq_true_iff_eq. unfold before. cbn.
  rewrite !orb_true_iff, !andb_true_iff, !N.ltb_lt, !N.eqb_eq. split; [|intuition lia]. intros [Hj|[_ Hz]]; [|lia].
  destruct (decide (j = pid)) as [->|]; [|left; lia]. right. split; [done|].
  rewrite (row_of_page b t pid p s Hp Hr) in Hv. unfold slot_row in Hv.
  destruct (ps_rows s !! N.to_nat i) as [x|] eqn:Hx; [|done]. apply lookup_lt_Some in Hx.
  destruct Hr as (locs & HP & Er & _). rewrite Er, length_fmap in Hx. rewrite (pi_count _ _ HP). lia.
Qed.

Lemma rebuild_pages_ok n0 b pt pid ix last fl n m :
  safe b -> heap_info b (pt_tableID pt) = Some (last, fl, n) -> rows_rep ix (row_of b (pt_tableID pt)) m -> room b 1 ->
  (1 <= pid)%N -> (pid + N.of_nat n0 = last + 1)%N -> pt_index pt = part ix pid 0 -> (pt_insertPageID pt <= last)%N ->
  exists b' pt', rebuild_pages b pt pid n0 = Some (b', Ok pt') /\ quiet (fun _ => 0%Z) b b' /\ safe b'
    /\ pt_name pt' = pt_name pt /\ pt_nextLSN pt' = pt_nextLSN pt /\ (pt_insertPageID pt' <= last)%N
    /\ pt_index pt' = part ix (last + 1) 0.
Proof.
  revert b pt pid. induction n0 as [|n0 IH]; intros b pt pid Hs Hi HR Hroom Hpid Hlast Hix Hins; cbn [rebuild_pages].
  { exists b, pt. split_and!; try done; [by apply pool_quiet_refl, Hs|]. rewrite Hix. f_equal. lia. }
  assert (Hin : in_file b (pt_tableID pt, pid)) by (apply in_file_info; exists last, fl, n; cbn [fst snd]; split; [done|lia]).
  destruct (fetch_open b _ _ Hs Hin Hroom) as (b1 & fid & p & -> & O). rewrite (op_fpage _ _ _ _ _ O). cbn [mbind option_bind].
  destruct (page_wf_rep p (op_wf _ _ _ _ _ O)) as [s Hr]. pose proof (op_page _ _ _ _ _ O) as Hp. rewrite Hix.
  destruct (rebuild_slots_ok (N.to_nat (pg_slotCount p)) b1 ix (row_of b (pt_tableID pt)) m p s pid 0 false HR Hr
    (row_of_page b _ pid p s Hp Hr)) as [hs ->].
  cbn [mbind option_bind]. rewrite N.add_0_l, N2Nat.id, <-(part_page ix b _ m pid p HR Hp (op_wf _ _ _ _ _ O)).
  destruct (close_clean _ _ _ _ _ _ O) as [Q Hs2]. set (b2 := UnpinPage _ _ _ _) in *.
  set (pt1 := if hs && negb (IsFull p) then _ else _).
  assert (E : pt_name pt1 = pt_name pt /\ pt_nextLSN pt1 = pt_nextLSN pt /\ pt_index pt1 = part ix (pid + 1) 0
    /\ (pt_insertPageID pt1 <= last)%N) by (unfold pt1; destruct (hs && _); cbn; split_and!; done || lia).
  destruct E as (E1 & E2 & E3 & E4). unfold pt_tableID in *.
  destruct (IH b2 pt1 (pid + 1)%N) as (b' & pt' & -> & Q' & Hs' & F1 & F2 & F3 & F4); try done; try lia.
  - rewrite E1. by rewrite (qt_info _ _ _ Q).
  - rewrite E1. eapply rows_rep_ext; [|exact HR]. apply row_of_same. intros j. apply (qt_page _ _ _ Q).
  - apply (room_pins b); [apply (qt_cap _ _ _ Q)| |done]. intros x. rewrite (qt_pin _ _ _ Q). lia.
  - exists b', pt'. split_and!; try done; [|congruence|congruence].
    exact (pool_quiet_trans _ _ _ _ _ (fun _ => or_introl (Z.le_refl 0)) Q Q').
Qed.

(** [RebuildIndex] finds the index that the pages determine. *)
Lemma rebuild_ok b pt ix last fl n m :
  safe b -> heap_info b (pt_tableID pt) = Some (last, fl, n) -> (last < two64)%N ->
  Forall (fun pid => 1 <= pid <= last)%N fl -> (pt_insertPageID pt <= last)%N -> (pt_nextLSN pt < two64)%N ->
  rows_rep ix (row_of b (pt_tableID pt)) m -> room b 1 ->
  exists b' pt', RebuildIndex b pt = Some (b', Ok pt') /\ table_inv b' pt' ix last fl n m /\ pt_name pt' = pt_name pt
    /\ quiet (fun _ => 0%Z) b b'.
Proof.
  intros Hs Hi Hlast Hfl Hins Hlsn HR Hroom. unfold RebuildIndex. set (pt0 := with_index pt _).
  change (pt_tableID pt) with (pt_tableID pt0) in Hi, HR. pose proof Hi as Hi0. unfold heap_info in Hi0.
  destruct (bp_heaps b !! pt_tableID pt0) as [h|] eqn:Hh; [|done]. cbn in Hi0. injection Hi0 as Hl _ _.
  cbn [mbind option_bind]. unfold LastPageID. rewrite Hl.
  assert (Hloc : forall k l, ix !! k = Some l -> (1 <= rl_pageID l <= last)%N).
  { intros k l Hk. apply (rr_located _ _ _ HR) in Hk as [v Hv]. apply row_of_in in Hv; [|apply Hs].
    apply in_file_info in Hv as (l' & fl' & n' & Hi' & Hr). cbn [fst snd] in *. rewrite Hi in Hi'. by injection Hi' as <- _ _. }
  assert (H0 : part ix 1 0 = ∅).
  { apply map_empty. intros k. apply map_lookup_filter_None. right. intros l Hk. cbn. specialize (Hloc k l Hk). unfold before.
    rewrite orb_true_iff, andb_true_iff, !N.ltb_lt. lia. }
  assert (H1 : part ix (last + 1) 0 = ix).
  { apply map_filter_id. intros k l Hk. cbn. specialize (Hloc k l Hk). unfold before. apply orb_true_iff. left. apply N.ltb_lt. lia. }
  destruct (rebuild_pages_ok (N.to_nat last) b pt0 1 ix last fl n m)
    as (b' & pt' & -> & Q & Hs' & F1 & F2 & F3 & F4); try done; [lia|].
  exists b', pt'. split; [done|]. assert (Ht : pt_tableID pt' = pt_tableID pt0) by (by unfold pt_tableID; rewrite F1).
  split_and!; try done. split; try done.
  - cbn. by rewrite F4, H1.
  - by intros [].
  - by rewrite Ht, (qt_info _ _ _ Q).
  - by rewrite F2.
  - rewrite Ht. eapply rows_rep_ext; [|exact HR]. apply row_of_same. intros j. apply (qt_page _ _ _ Q).
Qed.
End Rebuild.

(** ** Restart *)

(** Shutdown closes each heap file; start-up opens it. *)
Definition reopen (t : string) (h : HeapFile) : option HeapFile :=
  '(h, ok) ← Close h;
  r ← OpenHeapFile t [] (hf_file h);
  match r with Ok h => Some h | Err _ => None end.

Definition restart_heaps (heaps : gmap string HeapFile) : gmap string HeapFile := map_imap reopen heaps.

(** What the meta page of a table has to hold. *)
Definition meta_fits (i : N * list N * string) : Prop :=
  (i.1.1 < two64)%N /\ Forall (fun x => x < two64)%N i.1.2 /\ (info_size i.1.2 i.2 <= MetaRoom)%N.

Lemma reopen_ok t h :
  heap_ok h -> meta_fits (hf_lastPageID h, hf_freeList h, hf_tableName h) ->
  exists h', reopen t h = Some h' /\ heap_ok h' /\ hf_lastPageID h' = hf_lastPageID h /\ hf_freeList h' = hf_freeList h
    /\ hf_tableName h' = hf_tableName h /\ forall id, (1 <= id)%N -> ReadPage h' id = ReadPage h id.
Proof.
  intros HK (F1 & F2 & F3). cbn [fst snd] in *. destruct (put_meta_ok h F3) as [h' Hw].
  assert (Hlen : (PageSize <= blen (hf_file h))%N) by (rewrite (hk_len h HK); unfold PageSize; lia).
  destruct (put_meta_keeps h h' Hw Hlen) as (E1 & E2 & E3 & E4).
  assert (En : hf_tableName h' = hf_tableName h).
  { revert Hw. unfold put_meta. destruct (meta_area h); [|done]. cbn [mbind option_bind]. intros Hw. by apply (inj Some) in Hw as <-. }
  exists h'. split_and!; try done.
  - unfold reopen. rewrite (Close_io h (hk_io h HK)), Hw. cbn [mbind option_bind].
    rewrite (OpenHeapFile_meta h h' t [] (hf_file h') F1 F2 F3 Hw eq_refl). cbn [mbind option_bind].
    pose proof (put_meta_io h h' Hw) as Hio. rewrite (hk_io h HK) in Hio. destruct h'. cbn in Hio |- *. by rewrite Hio.
  - split; [rewrite (put_meta_io h h' Hw); apply HK|by rewrite E1, E2, (hk_len h HK)|by eapply meta_not_page|]. rewrite E2. intros id Hid. rewrite E4 by lia. by apply HK.
Qed.

Lemma restart_lookup heaps t h :
  heaps !! t = Some h -> restart_heaps heaps !! t = reopen t h.
Proof. intros Hh. unfold restart_heaps. by rewrite map_lookup_imap, Hh. Qed.

(** The pool after a restart holds the pages of the files. *)
Lemma restart_pool {W} `{Flusher W} (b : BufferPool W) cap (w : option W) :
  pool_ok b -> (forall t i, heap_info b t = Some i -> meta_fits i) ->
  let b' := NewBufferPool cap (restart_heaps (bp_heaps b)) w in
  safe b' /\ (forall t, heap_info b' t = heap_info b t) /\ (forall x, page_of b' x = disk_of b x)
  /\ (1 <= cap -> room b' 1).
Proof.
  intros HP Hfit b'.
  assert (Hre : forall t h, bp_heaps b !! t = Some h -> exists h', restart_heaps (bp_heaps b) !! t = Some h' /\ heap_ok h'
    /\ hf_lastPageID h' = hf_lastPageID h /\ hf_freeList h' = hf_freeList h /\ hf_tableName h' = hf_tableName h
    /\ forall id, (1 <= id)%N -> ReadPage h' id = ReadPage h id).
  { intros t h Hh. rewrite (restart_lookup _ _ _ Hh). apply reopen_ok; [by eapply po_heaps|]. apply (Hfit t). unfold heap_info. by rewrite Hh. }
  assert (Hnone : forall t, bp_heaps b !! t = None -> restart_heaps (bp_heaps b) !! t = None).
  { intros t Hh. unfold restart_heaps. by rewrite map_lookup_imap, Hh. }
  destruct (pool_new cap (restart_heaps (bp_heaps b)) w) as (Hsafe & _ & Hroom).
  { intros t h' Hh'. destruct (bp_heaps b !! t) as [h|] eqn:Hh; [|rewrite (Hnone t Hh) in Hh'; done].
    destruct (Hre t h Hh) as (h2 & E & HK & _). congruence. }
  split_and!; [done|..|by apply Hroom].
  - intros t. unfold heap_info. cbn. destruct (bp_heaps b !! t) as [h|] eqn:Hh; [|by rewrite (Hnone t Hh)].
    destruct (Hre t h Hh) as (h' & -> & _ & E1 & E2 & E3 & _). cbn. congruence.
  - intros [t id]. change (page_of b' (t, id)) with (disk_of b' (t, id)). unfold disk_of. cbn [fst snd].
    cbn [b' NewBufferPool bp_heaps]. destruct (bp_heaps b !! t) as [h|] eqn:Hh; [|by rewrite (Hnone t Hh)].
    destruct (Hre t h Hh) as (h' & -> & HK' & _ & _ & _ & Hr). destruct (N.eq_dec id 0%N) as [->|Hne]; [|by rewrite Hr by lia].
    pose proof (hk_meta h (po_heaps b HP t h Hh)) as M1. pose proof (hk_meta h' HK') as M2.
    destruct (ReadPage h' 0) as [p|]; [by destruct (M2 p)|]. destruct (ReadPage h 0) as [p|]; [by destruct (M1 p)|done].
Qed.

(** C8. A clean shutdown and a start on the same files give the table back.
    When no heap write fails, every page in a frame is the file's or marked
    dirty ([settled]), each table name and free
    list fits its meta page and [FlushAllDirty] reports success, then after
    every heap file is closed [NewPagedTable] on the same files, with at
    least one frame, rebuilds a map index under which the same rows are
    stored. *)
Theorem paged_restart {W I} `{HF : Flusher W} `{HI : RowIndex W I} `{HL : !IndexLaws W I}
    (b b1 : BufferPool W) (pt : PagedTable I) m cols cap (w : option W) :
  table_rep b pt m -> (forall x, settled b x) -> (forall t i, heap_info b t = Some i -> meta_fits i) ->
  FlushAllDirty b = (b1, None) -> 1 <= cap ->
  exists b2 pt2, NewPagedTable (pt_name pt) cols (∅ : gmap RowKey rowLocation) (NewBufferPool cap (restart_heaps (bp_heaps b1)) w)
      = Some (b2, Ok pt2)
    /\ table_rep b2 pt2 m.
Proof.
  intros (ix & last & fl & n & T) Hset Hfit Hflush Hcap. pose proof (ti_safe _ _ _ _ _ _ _ T) as [HP _].
  destruct (FlushAllDirty_synced b b1 HP Hflush) as (Tr & Hi & Hsy). pose proof (tr_ok _ _ Tr) as HP1.
  destruct (restart_pool b1 cap w HP1) as (Hs' & Hi' & Hp' & Hr'); [intros t i; rewrite Hi; apply Hfit|].
  set (b' := NewBufferPool cap _ w) in *. specialize (Hr' Hcap). unfold NewPagedTable.
  set (pt0 := mkPT (pt_name pt) cols (∅ : gmap RowKey rowLocation) 0 0).
  assert (Hpg : forall x, page_of b' x = page_of b x).
  { intros x. rewrite Hp'. etrans; [apply (Hsy x (Hset x))|]. apply (tr_page _ _ Tr). }
  destruct (rebuild_ok b' pt0 ix last fl n m) as (b2 & pt2 & E & T2 & _); try done.
  - change (pt_tableID pt0) with (pt_tableID pt). rewrite Hi', Hi. apply T.
  - apply T.
  - apply T.
  - cbn. lia.
  - change (pt_tableID pt0) with (pt_tableID pt). eapply rows_rep_ext; [|apply T]. apply row_of_same. intros j. apply Hpg.
  - exists b2, pt2. split; [exact E|]. by exists ix, last, fl, n.
Qed.

(** ** From an empty file *)

Lemma table_rep_new {W I} `{HF : Flusher W} `{HI : RowIndex W I} `{HL : !IndexLaws W I} (b : BufferPool W) name cols (i : I) n :
  safe b -> heap_info b name = Some (0%N, [], n) -> index_rep b i ∅ -> ~ own i name ->
  table_rep b (mkPT name cols i 0 0) ∅.
Proof.
  intros Hs Hi Hix Hown. exists ∅, 0%N, [], n. split; try done; cbn.
  assert (Hnone : forall l, row_of b name l = None).
  { intros l. destruct (row_of b name l) as [r|] eqn:Hr; [|done]. apply row_of_in in Hr; [|apply Hs].
    apply in_file_info in Hr as (l' & fl' & n' & Hi' & Hr). cbn [fst snd] in *. rewrite Hi in Hi'. injection Hi' as <- _ _. lia. }
  split.
  - intros k l. rewrite lookup_empty. split; [done|]. intros [v Hv]. change (pt_tableID _) with name in Hv. by rewrite Hnone in Hv.
  - intros l k v Hv. change (pt_tableID _) with name in Hv. by rewrite Hnone in Hv.
  - intros k [? Hk]. by rewrite lookup_empty in Hk.
Qed.

Module PagedRun.

#[local] Instance gob : GobATT := gob_countable.

Definition heap0 : HeapFile :=
  match OpenHeapFile "t" [] [] with Some (Ok h) => h | _ => mkHeap [] "" 0 [] [] end.

Lemma heap0_open : OpenHeapFile "t" [] [] = Some (Ok heap0).
Proof. vm_compute. reflexivity. Qed.

Definition pool0 : BufferPool WalMgr := NewBufferPool 2 {["t" := heap0]} None.
Definition pt0 : PagedTable (gmap RowKey rowLocation) := mkPT "t" [] ∅ 0 0.

Lemma pool0_ok : safe pool0 /\ (forall x, pin_of pool0 x = 0%Z) /\ room pool0 1 /\ heap_info pool0 "t" = Some (0%N, [], "t").
Proof.
  destruct (OpenHeapFile_new "t" heap0 heap0_open) as (HK & E1 & E2).
  destruct (pool_new 2 {["t" := heap0]} (None : option WalMgr)) as (S1 & S2 & S3).
  { intros t h Hh. by apply lookup_singleton_Some in Hh as [<- <-]. }
  split_and!; [done|done|apply S3; lia|]. unfold heap_info. cbn [pool0 NewBufferPool bp_heaps].
  rewrite lookup_singleton_eq. cbn. by rewrite E1, E2.
Qed.

Lemma pt0_rep : table_rep pool0 pt0 ∅.
Proof.
  destruct pool0_ok as (Hs & _ & _ & Hi). apply (table_rep_new pool0 "t" [] (∅ : gmap RowKey rowLocation) "t" Hs Hi); [reflexivity|].
  intros [].
Qed.

Lemma pool0_update key v : update_fits pool0 pt0 key v.
Proof.
  intros pid i p old Hp. destruct pool0_ok as (Hs & _ & _ & Hi).
  destruct (page_of_wf pool0 _ p (proj1 Hs) Hp) as (Hin & _). apply in_file_info in Hin as (l & fl & n & Hi' & Hr).
  cbn [fst snd] in *. change (pt_tableID pt0) with "t" in Hi'. rewrite Hi in Hi'. injection Hi' as <- _ _. lia.
Qed.

Definition row1 : list Value := [IntVal 7; TextVal "abc"].

Lemma pool0_put : op_ok pool0 pt0 (TPut "a" row1).
Proof.
  destruct pool0_ok as (_ & _ & _ & Hi). split_and!; [unfold row1; simpl; lia| |..|done].
  - unfold row1. repeat constructor; unfold canonical, int64; simpl; intuition (lia || reflexivity).
  - intros v Hv. split; [|apply pool0_update]. vm_compute in Hv. injection Hv as <-. by vm_compute.
  - intros last fl n. change (pt_tableID pt0) with "t". rewrite Hi. intros [= <- <- <-]. split; vm_compute; [reflexivity|discriminate].
Qed.

Lemma paged_refines_witness :
  exists b' pt' out, paged_exec pool0 pt0 (TPut "a" row1) = Some (b', pt', out)
    /\ stores b' pt' (Storage.PutRow (NewTable "t" []) "a" (Some row1)).
Proof.
  destruct pool0_ok as (Hs & _ & Hr & Hi).
  destruct (paged_refines pool0 pt0 (NewTable "t" []) (TPut "a" row1)) as (b' & pt' & out & E & _ & S & _).
  - exists ∅. split; [exact pt0_rep|reflexivity].
  - exact pool0_put.
  - exact Hr.
  - exists b', pt', out. split; [exact E|exact S].
Defined.

(** ** Runs *)

Notation state := (BufferPool WalMgr * PagedTable (gmap RowKey rowLocation))%type.

Definition run_put (k : RowKey) (vals : list Value) (s : option state) : option state := '(b, pt) ← s; PutRow b pt k vals.
Definition run_delete (k : RowKey) (s : option state) : option state :=
  '(b, pt) ← s; '(b, pt, _) ← DeleteRow b pt k; Some (b, pt).
Definition run_evict (s : option state) : option state := '(b, pt) ← s; Some ((Evict b).1, pt).

(** A clean shutdown and a start. *)
Definition run_restart (s : option state) : option state :=
  '(b, pt) ← s;
  '(b, r) ← NewPagedTable "t" [] (∅ : gmap RowKey rowLocation) (NewBufferPool 2 (restart_heaps (bp_heaps (FlushAllDirty b).1)) None);
  match r with Ok pt => Some (b, pt) | Err _ => None end.

Definition run_get (k : RowKey) (s : option state) : option (option (list Value)) :=
  match s with
  | Some (b, pt) => match GetRow b pt k with Some (_, o) => Some o | None => None end
  | None => None
  end.

Definition start : option state := Some (pool0, pt0).

Definition text (n : nat) : list Value := [TextVal (string_of_list_ascii (repeat Ascii.zero n))].

(** The third row fills its page, which was read back from the file. *)
Definition filled : option state :=
  run_put "c" (text 1320) (run_evict (run_put "b" (text 1320) (run_put "a" (text 1320) start))).

(** An update does not fit on its page, which was read back from the file;
    the row moves to another page and is deleted there. *)
Definition moved : option state :=
  run_delete "a" (run_put "a" (text 2000) (run_evict (run_put "b" (text 2500) (run_put "a" (text 1000) start)))).

(** An update too big for any page. *)
Definition oversized : option state := run_put "a" (text 5000) (run_put "a" (text 1000) start).

(** Two pages filled up, in a pool of two frames. *)
Definition two_full : option state :=
  foldl (fun s k => run_put k (text 1320) s) start ["a"; "b"; "c"; "d"; "e"; "f"].

(** Rows are lost or come back: the page that becomes full keeps its pin and
    is not marked dirty, so its last row does not survive a clean shutdown;
    the tombstone of an update that failed is not marked dirty either, so a
    row deleted later comes back with its old value; an update that fits on
    no page has deleted the old row; and when all frames have kept a pin, a
    put stores nothing and reports nothing. *)
Theorem paged_lost_writes :
  (run_get "c" filled = Some (Some (text 1320)) /\ run_get "c" (run_restart filled) = Some None)
  /\ (run_get "a" moved = Some None /\ run_get "a" (run_restart moved) = Some (Some (text 1000)))
  /\ run_get "a" oversized = Some None
  /\ (run_get "f" two_full = Some (Some (text 1320)) /\ run_get "g" (run_put "g" (text 1) two_full) = Some None).
Proof. vm_compute. done. Qed.

(** ** A row that survives a restart *)

Definition put1 : state := default (pool0, pt0) (PutRow pool0 pt0 "a" row1).

Lemma put1_eq : PutRow pool0 pt0 "a" row1 = Some put1.
Proof. vm_compute. reflexivity. Qed.

Lemma put1_flush : (FlushAllDirty put1.1).2 = None.
Proof. vm_compute. reflexivity. Qed.

Lemma put1_meta t : heap_info put1.1 t = if decide (t = "t") then Some (1%N, [], "t") else None.
Proof.
  case_decide as Ht; [subst t; vm_compute; reflexivity|]. unfold heap_info.
  assert (Hd : dom (bp_heaps put1.1) = {["t"]}) by (vm_compute; reflexivity).
  destruct (bp_heaps put1.1 !! t) eqn:Hh; [|done]. apply elem_of_dom_2 in Hh. rewrite Hd in Hh.
  apply elem_of_singleton in Hh. contradiction.
Qed.

Lemma put1_ok : table_rep put1.1 put1.2 {["a" := row1]} /\ forall x, settled put1.1 x.
Proof.
  destruct pool0_ok as (Hs & Hp & Hr & Hi). pose proof pool0_put as (Hl & Hc & Hf & Hg & Hm).
  destruct (decode_encode_app row1 [] Hl Hc) as (v & He & Hd). rewrite app_nil_r in Hd. destruct (Hf v He) as [Hf1 Hf2].
  destruct pt0_rep as (ix & last & fl & n & T).
  destruct (pt_PutRow_ok pool0 pt0 ix last fl n ∅ "a" row1 v row1 T He Hd Hf1 Hf2 (Hg _ _ _ (ti_info _ _ _ _ _ _ _ T)) Hr Hm)
    as (b' & pt' & E & (D1 & D2 & D3) & P).
  rewrite put1_eq in E. assert (Eb : put1 = (b', pt')) by congruence. rewrite Eb. cbn [fst snd]. split; [done|].
  pose proof D1 as (ix' & last' & fl' & n' & T'). destruct (ti_safe _ _ _ _ _ _ _ T') as [HP' Hset]. intros x.
  destruct (Hset x) as [|Hx]; [done|]. destruct P as [P|[(p & Hpg & _) _]].
  - rewrite P, Hp in Hx. lia.
  - destruct (page_of_wf b' _ p HP' Hpg) as (Hin & _). apply in_file_info in Hin as (? & ? & ? & _ & Hin). cbn in Hin. lia.
Qed.

Lemma paged_restart_witness :
  exists b2 pt2, NewPagedTable "t" [] (∅ : gmap RowKey rowLocation)
      (NewBufferPool 2 (restart_heaps (bp_heaps (FlushAllDirty put1.1).1)) (None : option WalMgr)) = Some (b2, Ok pt2)
    /\ table_rep b2 pt2 {["a" := row1]}.
Proof.
  destruct put1_ok as [Hrep Hset].
  apply (paged_restart put1.1 (FlushAllDirty put1.1).1 put1.2 {["a" := row1]} [] 2 None Hrep Hset).
  - intros t i Hi. rewrite put1_meta in Hi. destruct (decide (t = "t")) as [Ht|Ht]; [|discriminate]. injection Hi as <-.
    split; [vm_compute; reflexivity|]. split; [constructor|vm_compute; discriminate].
  - rewrite <-put1_flush. apply surjective_pairing.
  - lia.
Defined.
End PagedRun.
