(* ===== verification/BTree.v ===== *)
(** * The B+ tree index ([internal/storage/btree.go])

    Nodes are decoded from and encoded into the area behind the header of
    pages of a heap file of its own, reached through the buffer pool. Errors
    are values; [None] is a run-time panic or a loop that does not end
    within the fuel: a descent visits each page at most once in a tree, so
    the fuel is the number of pages, and so it is for the walk along the
    leaves. *)

From Stdlib Require Import ZArith NArith Lia Strings.Byte String.
From stdpp Require Import base tactics numbers list gmap strings.
From S2P Require Import Prelude Types Storage WalRecord Page Heap Wal Pool PoolInv PoolPins PagedTable.

Definition BTreeOrder : nat := 100.

Definition LeafNode : byte := x00.
Definition InternalNode : byte := x01.

Definition btreeDataOffset : N := PageHeaderSize.
Definition maxDataBytes : N := PageSize - btreeDataOffset.

Record btreeNode := mkNode {
  n_nodeType : byte;
  n_keys : list RowKey;
  n_children : list N;
  n_values : list rowLocation;
  n_rightSibling : N;
  n_pageID : N;
}.

Inductive BTreeError :=
| ErrNodeTooLarge
| ErrTruncated
| ErrFetch (e : PoolError)
| ErrNoHeapFor
| ErrRootPage (got : N).

Definition is_leaf (n : btreeNode) : bool := Byte.eqb (n_nodeType n) LeafNode.

(** ** encodeNode *)

(** [buf] is what has been written so far, [off] its length. *)
Fixpoint put_keys (buf : list byte) (keys : list RowKey) : result BTreeError (list byte) :=
  match keys with
  | [] => Ok buf
  | k :: keys =>
      let kb := bytes_of_string k in
      if (maxDataBytes <? blen buf + 2 + blen kb)%N then Err ErrNodeTooLarge
      else put_keys (buf ++ le_put 2 (blen kb) ++ kb) keys
  end.

Fixpoint put_values (buf : list byte) (values : list rowLocation) : result BTreeError (list byte) :=
  match values with
  | [] => Ok buf
  | loc :: values =>
      if (maxDataBytes <? blen buf + 12)%N then Err ErrNodeTooLarge
      else put_values (buf ++ le_put 8 (rl_pageID loc) ++ le_put 4 (rl_slotID loc)) values
  end.

Fixpoint put_children (buf : list byte) (children : list N) : result BTreeError (list byte) :=
  match children with
  | [] => Ok buf
  | c :: children =>
      if (maxDataBytes <? blen buf + 8)%N then Err ErrNodeTooLarge
      else put_children (buf ++ le_put 8 c) children
  end.

Definition encodeNode (n : btreeNode) : result BTreeError (list byte) :=
  let buf := [n_nodeType n] ++ le_put 2 (N.of_nat (length (n_keys n))) ++ le_put 8 (n_rightSibling n) in
  match put_keys buf (n_keys n) with
  | Err e => Err e
  | Ok buf => if is_leaf n then put_values buf (n_values n) else put_children buf (n_children n)
  end.

(** ** decodeNode *)

(** The loops read from what is left of [data]. *)
Fixpoint get_keys (data : list byte) (k : nat) : option (list RowKey * list byte) :=
  match k with
  | O => Some ([], data)
  | S k =>
      if length data <? 2 then None
      else
        let klen := N.to_nat (le_get (take 2 data)) in
        let data := drop 2 data in
        if length data <? klen then None
        else '(keys, rest) ← get_keys (drop klen data) k; Some (string_of_bytes (take klen data) :: keys, rest)
  end.

Fixpoint get_values (data : list byte) (k : nat) : option (list rowLocation) :=
  match k with
  | O => Some []
  | S k =>
      if length data <? 12 then None
      else
        let loc := mkLoc (le_get (take 8 data)) (le_get (take 4 (drop 8 data))) in
        values ← get_values (drop 12 data) k; Some (loc :: values)
  end.

Fixpoint get_children (data : list byte) (k : nat) : option (list N) :=
  match k with
  | O => Some []
  | S k =>
      if length data <? 8 then None
      else children ← get_children (drop 8 data) k; Some (le_get (take 8 data) :: children)
  end.

Definition decodeNode (pageID : N) (data : list byte) : result BTreeError btreeNode :=
  if length data <? 11 then Err ErrTruncated
  else
    let nodeType := nth 0 data x00 in
    let keyCount := N.to_nat (le_get (take 2 (drop 1 data))) in
    let rightSibling := le_get (take 8 (drop 3 data)) in
    match get_keys (drop 11 data) keyCount with
    | None => Err ErrTruncated
    | Some (keys, rest) =>
        if Byte.eqb nodeType LeafNode then
          match get_values rest keyCount with
          | None => Err ErrTruncated
          | Some values => Ok (mkNode nodeType keys [] values rightSibling pageID)
          end
        else
          match get_children rest (S keyCount) with
          | None => Err ErrTruncated
          | Some children => Ok (mkNode nodeType keys children [] rightSibling pageID)
          end
    end.

(** ** The tree *)

Record BTree := mkBTree { bt_tableID : string; bt_rootID : N }.

(** The page afterwards; it is unchanged when the node is too large. *)
Definition writeNode (p : Page) (n : btreeNode) : result BTreeError Page :=
  match encodeNode n with
  | Err e => Err e
  | Ok enc =>
      if (maxDataBytes <? blen enc)%N then Err ErrNodeTooLarge
      else
        let d := store btreeDataOffset (replicate (N.to_nat maxDataBytes) x00) (pg_data p) in
        Ok (syncHeader (with_data p (store btreeDataOffset enc d)))
  end.

(** [leafSearch]; [fuel] bounds the rounds of the halving. *)
Fixpoint leaf_search (fuel : nat) (keys : list RowKey) (key : RowKey) (lo hi : nat) : nat * bool :=
  match fuel with
  | O => (lo, false)
  | S fuel =>
      if lo <? hi then
        let mid := (lo + hi) / 2 in
        let k := nth mid keys ""%string in
        if String.eqb k key then (mid, true)
        else if String.ltb k key then leaf_search fuel keys key (S mid) hi
        else leaf_search fuel keys key lo mid
      else (lo, false)
  end.

Definition leafSearch (keys : list RowKey) (key : RowKey) : nat * bool :=
  leaf_search (S (length keys)) keys key 0 (length keys).

Fixpoint internalChildIdx (keys : list RowKey) (key : RowKey) : nat :=
  match keys with
  | [] => 0
  | k :: keys => if String.ltb key k then 0 else S (internalChildIdx keys key)
  end.

Definition internalFindChild (keys : list RowKey) (children : list N) (key : RowKey) : option N :=
  children !! internalChildIdx keys key.

(** [append], [copy] and assignment: [x] at position [i]. *)
Definition insert_nth {A} (i : nat) (x : A) (l : list A) : list A := take i l ++ x :: drop i l.

Section Tree.
Context {W : Type} `{Flusher W}.
Implicit Types (b : BufferPool W) (bt : BTree).

Definition readNode b bt (pid : N) : option (BufferPool W * result BTreeError (btreeNode * nat)) :=
  match FetchPage b (bt_tableID bt) pid with
  | (b, Err e) => Some (b, Err (ErrFetch e))
  | (b, Ok fid) =>
      p ← frame_page b fid;
      match decodeNode pid (drop (N.to_nat btreeDataOffset) (pg_data p)) with
      | Err e => Some (UnpinPage b (bt_tableID bt) pid false, Err e)
      | Ok n => Some (b, Ok (n, fid))
      end
  end.

Definition allocNode b bt (nt : byte) : option (BufferPool W * result BTreeError (btreeNode * nat)) :=
  '(b, r) ← Pool_NewPage b (bt_tableID bt);
  match r with
  | Err e => Some (b, Err (ErrFetch e))
  | Ok (pid, fid) => Some (b, Ok (mkNode nt [] [] [] 0 pid, fid))
  end.

(** The error, if any. *)
Definition flushNode b bt (n : btreeNode) (fid : nat) : option (BufferPool W * option BTreeError) :=
  p ← frame_page b fid;
  match writeNode p n with
  | Err e => Some (UnpinPage b (bt_tableID bt) (n_pageID n) false, Some e)
  | Ok p => Some (UnpinPage (set_page b fid p) (bt_tableID bt) (n_pageID n) true, None)
  end.

Definition initRoot b bt : option (BufferPool W * option BTreeError) :=
  '(b, r) ← Pool_NewPage b (bt_tableID bt);
  match r with
  | Err e => Some (b, Some (ErrFetch e))
  | Ok (pageID, fid) =>
      if negb (pageID =? 1)%N then Some (UnpinPage b (bt_tableID bt) pageID false, Some (ErrRootPage pageID))
      else flushNode b bt (mkNode LeafNode [] [] [] 0 1) fid
  end.

Definition NewBTree b (tableID : string) : option (BufferPool W * result BTreeError BTree) :=
  let bt := mkBTree tableID 1 in
  match bp_heaps b !! tableID with
  | None => Some (b, Err ErrNoHeapFor)
  | Some heap =>
      if (LastPageID heap =? 0)%N then
        '(b, e) ← initRoot b bt;
        match e with Some e => Some (b, Err e) | None => Some (b, Ok bt) end
      else Some (b, Ok bt)
  end.

(** Enough for a descent or a walk along the leaves. *)
Definition tree_fuel b bt : nat :=
  match bp_heaps b !! bt_tableID bt with Some h => S (N.to_nat (LastPageID h)) | None => 1 end.

Fixpoint search (fuel : nat) b bt (pid : N) (key : RowKey) : option (BufferPool W * option rowLocation) :=
  match fuel with
  | O => None
  | S fuel =>
      '(b, r) ← readNode b bt pid;
      match r with
      | Err _ => Some (b, None)
      | Ok (n, _) =>
          if is_leaf n then
            let (idx, found) := leafSearch (n_keys n) key in
            let b := UnpinPage b (bt_tableID bt) pid false in
            if found : bool then loc ← n_values n !! idx; Some (b, Some loc) else Some (b, None)
          else
            child ← internalFindChild (n_keys n) (n_children n) key;
            search fuel (UnpinPage b (bt_tableID bt) pid false) bt child key
      end
  end.

Definition Search b bt (key : RowKey) : option (BufferPool W * option rowLocation) :=
  search (tree_fuel b bt) b bt (bt_rootID bt) key.

(** What a recursive insert reports: the separator and the new page on its
    right, page 0 when nothing was split. *)
Definition no_split : RowKey * N := (""%string, 0%N).

(** [flushNode] of a node that was not split. *)
Definition flush_only b bt (n : btreeNode) (fid : nat) : option (BufferPool W * result BTreeError (RowKey * N)) :=
  '(b, e) ← flushNode b bt n fid;
  match e with Some e => Some (b, Err e) | None => Some (b, Ok no_split) end.

Definition with_keys_values (n : btreeNode) (keys : list RowKey) (values : list rowLocation) : btreeNode :=
  mkNode (n_nodeType n) keys (n_children n) values (n_rightSibling n) (n_pageID n).
Definition with_keys_children (n : btreeNode) (keys : list RowKey) (children : list N) : btreeNode :=
  mkNode (n_nodeType n) keys children (n_values n) (n_rightSibling n) (n_pageID n).
Definition with_right (n : btreeNode) (right : N) : btreeNode :=
  mkNode (n_nodeType n) (n_keys n) (n_children n) (n_values n) right (n_pageID n).

(** The right half first, then the left one; [pid] is the left page. *)
Definition flush_halves b bt (pid : N) (right : btreeNode) (rightFrame : nat) (left : btreeNode) (leftFrame : nat)
    (splitKey : RowKey) : option (BufferPool W * result BTreeError (RowKey * N)) :=
  '(b, e) ← flushNode b bt right rightFrame;
  match e with
  | Some e => Some (UnpinPage b (bt_tableID bt) pid false, Err e)
  | None =>
      '(b, e) ← flushNode b bt left leftFrame;
      match e with Some e => Some (b, Err e) | None => Some (b, Ok (splitKey, n_pageID right)) end
  end.

Definition insert_leaf b bt (pid : N) (n : btreeNode) (f : nat) (key : RowKey) (loc : rowLocation)
    : option (BufferPool W * result BTreeError (RowKey * N)) :=
  let (idx, found) := leafSearch (n_keys n) key in
  if found : bool then flush_only b bt (with_keys_values n (n_keys n) (<[idx := loc]> (n_values n))) f
  else
    let n := with_keys_values n (insert_nth idx key (n_keys n)) (insert_nth idx loc (n_values n)) in
    if length (n_keys n) <=? BTreeOrder then flush_only b bt n f
    else
      let mid := length (n_keys n) / 2 in
      splitKey ← n_keys n !! mid;
      '(b, r) ← allocNode b bt LeafNode;
      match r with
      | Err e => Some (UnpinPage b (bt_tableID bt) pid false, Err e)
      | Ok (rightNode, rightFrame) =>
          let rightNode := with_right (with_keys_values rightNode (drop mid (n_keys n)) (drop mid (n_values n)))
                             (n_rightSibling n) in
          let n := with_right (with_keys_values n (take mid (n_keys n)) (take mid (n_values n))) (n_pageID rightNode) in
          flush_halves b bt pid rightNode rightFrame n f splitKey
      end.

(** A child was split: its separator and new page go into [n]. *)
Definition insert_internal b bt (pid : N) (n : btreeNode) (f : nat) (childIdx : nat) (splitKey : RowKey) (newRight : N)
    : option (BufferPool W * result BTreeError (RowKey * N)) :=
  let n := with_keys_children n (insert_nth childIdx splitKey (n_keys n)) (insert_nth (S childIdx) newRight (n_children n)) in
  if length (n_keys n) <=? BTreeOrder then flush_only b bt n f
  else
    let mid := length (n_keys n) / 2 in
    pushUpKey ← n_keys n !! mid;
    '(b, r) ← allocNode b bt InternalNode;
    match r with
    | Err e => Some (UnpinPage b (bt_tableID bt) pid false, Err e)
    | Ok (rightInternal, rightFrame) =>
        let rightInternal := with_keys_children rightInternal (drop (S mid) (n_keys n)) (drop (S mid) (n_children n)) in
        let n := with_keys_children n (take mid (n_keys n)) (take (S mid) (n_children n)) in
        flush_halves b bt pid rightInternal rightFrame n f pushUpKey
    end.

Fixpoint insertRec (fuel : nat) b bt (pid : N) (key : RowKey) (loc : rowLocation)
    : option (BufferPool W * result BTreeError (RowKey * N)) :=
  match fuel with
  | O => None
  | S fuel =>
      '(b, r) ← readNode b bt pid;
      match r with
      | Err e => Some (b, Err e)
      | Ok (n, f) =>
          if is_leaf n then insert_leaf b bt pid n f key loc
          else
            let childIdx := internalChildIdx (n_keys n) key in
            childPID ← n_children n !! childIdx;
            '(b, r) ← insertRec fuel (UnpinPage b (bt_tableID bt) pid false) bt childPID key loc;
            match r with
            | Err e => Some (b, Err e)
            | Ok (splitKey, newRight) =>
                if (newRight =? 0)%N then Some (b, Ok no_split)
                else
                  '(b, r) ← readNode b bt pid;
                  match r with
                  | Err e => Some (b, Err e)
                  | Ok (n, f) => insert_internal b bt pid n f childIdx splitKey newRight
                  end
            end
      end
  end.

Definition Insert b bt (key : RowKey) (loc : rowLocation) : option (BufferPool W * BTree * option BTreeError) :=
  '(b, r) ← insertRec (tree_fuel b bt) b bt (bt_rootID bt) key loc;
  match r with
  | Err e => Some (b, bt, Some e)
  | Ok (newKey, newRight) =>
      if (newRight =? 0)%N then Some (b, bt, None)
      else
        '(b, r) ← allocNode b bt InternalNode;
        match r with
        | Err e => Some (b, bt, Some e)
        | Ok (newRootNode, newRootFrame) =>
            let newRootNode := with_keys_children newRootNode [newKey] [bt_rootID bt; newRight] in
            '(b, e) ← flushNode b bt newRootNode newRootFrame;
            match e with
            | Some e => Some (b, bt, Some e)
            | None => Some (b, mkBTree (bt_tableID bt) (n_pageID newRootNode), None)
            end
        end
  end.

Fixpoint deleteRec (fuel : nat) b bt (pid : N) (key : RowKey) : option (BufferPool W * bool) :=
  match fuel with
  | O => None
  | S fuel =>
      '(b, r) ← readNode b bt pid;
      match r with
      | Err _ => Some (b, false)
      | Ok (n, f) =>
          if is_leaf n then
            let (idx, found) := leafSearch (n_keys n) key in
            if negb found then Some (UnpinPage b (bt_tableID bt) pid false, false)
            else
              let n := with_keys_values n (delete idx (n_keys n)) (delete idx (n_values n)) in
              '(b, e) ← flushNode b bt n f;
              Some (b, match e with Some _ => false | None => true end)
          else
            childPID ← n_children n !! internalChildIdx (n_keys n) key;
            deleteRec fuel (UnpinPage b (bt_tableID bt) pid false) bt childPID key
      end
  end.

Definition Delete b bt (key : RowKey) : option (BufferPool W * bool) :=
  deleteRec (tree_fuel b bt) b bt (bt_rootID bt) key.

(** Page 0 on an error. *)
Fixpoint find_leaf (fuel : nat) b bt (pid : N) (fromKey : RowKey) : option (BufferPool W * N) :=
  match fuel with
  | O => None
  | S fuel =>
      '(b, r) ← readNode b bt pid;
      match r with
      | Err _ => Some (b, 0%N)
      | Ok (n, _) =>
          if is_leaf n then Some (UnpinPage b (bt_tableID bt) pid false, pid)
          else
            childPID ← (if String.eqb fromKey "" then n_children n !! 0
                        else internalFindChild (n_keys n) (n_children n) fromKey);
            find_leaf fuel (UnpinPage b (bt_tableID bt) pid false) bt childPID fromKey
      end
  end.

Definition findLeafPage b bt (fromKey : RowKey) : option (BufferPool W * N) :=
  find_leaf (tree_fuel b bt) b bt (bt_rootID bt) fromKey.

(** The entries of one leaf in range; [true]: a key beyond [to] was met. *)
Fixpoint leaf_range (from to : RowKey) (keys : list RowKey) (values : list rowLocation)
    : option (list (RowKey * rowLocation) * bool) :=
  match keys with
  | [] => Some ([], false)
  | k :: keys =>
      if negb (String.eqb from "") && String.ltb k from then leaf_range from to keys (tail values)
      else if negb (String.eqb to "") && String.ltb to k then Some ([], true)
      else
        match values with
        | [] => None
        | loc :: values => '(l, stop) ← leaf_range from to keys values; Some ((k, loc) :: l, stop)
        end
  end.

Fixpoint range_leaves (fuel : nat) b bt (from to : RowKey) (pid : N) : option (BufferPool W * list (RowKey * rowLocation)) :=
  if (pid =? 0)%N then Some (b, [])
  else
    match fuel with
    | O => None
    | S fuel =>
        '(b, r) ← readNode b bt pid;
        match r with
        | Err _ => Some (b, [])
        | Ok (n, _) =>
            '(l, stop) ← leaf_range from to (n_keys n) (n_values n);
            let b := UnpinPage b (bt_tableID bt) pid false in
            if stop : bool then Some (b, l)
            else '(b, rest) ← range_leaves fuel b bt from to (n_rightSibling n); Some (b, l ++ rest)
        end
    end.

Definition RangeAsc b bt (from to : RowKey) : option (BufferPool W * list (RowKey * rowLocation)) :=
  '(b, pid) ← findLeafPage b bt from;
  range_leaves (tree_fuel b bt) b bt from to pid.

Definition AllKeys b bt : option (BufferPool W * list RowKey) :=
  '(b, entries) ← RangeAsc b bt "" ""; Some (b, entries.*1).

Definition BTree_Count b bt : option (BufferPool W * nat) :=
  '(b, entries) ← RangeAsc b bt "" ""; Some (b, length entries).
End Tree.

(** The index of [STORAGE_MODE=paged]; an insert's error is dropped. *)
#[export] Instance treeIndex {W} `{Flusher W} : RowIndex W BTree := {|
  indexReset := fun bt => bt;
  indexSearch := fun b bt key => Search b bt key;
  indexInsert := fun b bt key loc => '(b, bt, e) ← Insert b bt key loc; Some (b, bt, match e with None => true | Some _ => false end);
  indexDelete := fun b bt key => '(b, _) ← Delete b bt key; Some (b, bt);
  indexAllKeys := fun b bt => AllKeys b bt;
  indexCount := fun b bt => BTree_Count b bt;
  indexSorted := true
|}.

(** [NewPagedTable] with [STORAGE_MODE=paged]: the tree's heap file is the
    one the pool has, or is opened in the directory of the table's; [files]
    gives the bytes of the files there, [io] how the writes to a file opened
    here end. [None] in an error stands for one
    that is not the pool's. *)
Definition NewTreeTable {W} `{Flusher W} (name : string) (cols : list Column) (io : list IoResult) (files : string -> list byte) (b : BufferPool W)
    : option (BufferPool W * result (option PoolError) (PagedTable BTree)) :=
  let btreeTableID := ("btree-" ++ name)%string in
  r ← match bp_heaps b !! btreeTableID with
      | Some _ => Some (Ok b)
      | None =>
          r ← OpenHeapFile btreeTableID io (files btreeTableID);
          match r with
          | Err e => Some (Err e)
          | Ok btreeHeap => Some (Ok (with_heaps b (<[btreeTableID := btreeHeap]> (bp_heaps b))))
          end
      end;
  match r with
  | Err _ => Some (b, Err None)
  | Ok b =>
      '(b, r) ← NewBTree b btreeTableID;
      match r with
      | Err _ => Some (b, Err None)
      | Ok bt => NewPagedTable name cols bt b
      end
  end.
