(* ===== verification/BTreeNode.v ===== *)
(** * B+ tree nodes on pages

    The byte format of nodes: a node within its size comes back from the page
    it is written to ([node_on_page]), and a larger one is refused; how large
    the keys may be for every node of the tree's order to fit. Then the
    searches within a node. *)

From Stdlib Require Import ZArith NArith Lia Strings.Byte String Sorted.
From stdpp Require Import base tactics numbers list gmap strings.
From S2P Require Import Prelude Types Storage WalRecord Page Heap Wal Pool PoolInv PoolPins PagedTable BTree.

(** ** Bytes *)

Definition key_bytes (k : RowKey) : list byte := le_put 2 (blen (bytes_of_string k)) ++ bytes_of_string k.
Definition loc_bytes (l : rowLocation) : list byte := le_put 8 (rl_pageID l) ++ le_put 4 (rl_slotID l).

Definition klen (k : RowKey) : N := blen (bytes_of_string k).

Definition keys_size (keys : list RowKey) : N := foldr (fun k a => (2 + klen k + a)%N) 0%N keys.

Definition node_size (n : btreeNode) : N :=
  11 + keys_size (n_keys n)
  + (if is_leaf n then 12 * N.of_nat (length (n_values n)) else 8 * N.of_nat (length (n_children n))).

Definition node_head (n : btreeNode) : list byte :=
  [n_nodeType n] ++ le_put 2 (N.of_nat (length (n_keys n))) ++ le_put 8 (n_rightSibling n).

Definition node_tail (n : btreeNode) : list byte :=
  if is_leaf n then concat (loc_bytes <$> n_values n) else concat (le_put 8 <$> n_children n).

Definition node_bytes (n : btreeNode) : list byte := node_head n ++ concat (key_bytes <$> n_keys n) ++ node_tail n.

Lemma blen_key_bytes k : blen (key_bytes k) = (2 + klen k)%N.
Proof. unfold key_bytes, klen. by rewrite blen_app, blen_le_put. Qed.

Lemma blen_keys keys : blen (concat (key_bytes <$> keys)) = keys_size keys.
Proof.
  induction keys as [|k keys IH]; [done|]. rewrite fmap_cons. cbn [concat keys_size foldr]. rewrite blen_app, blen_key_bytes.
  unfold keys_size in IH. lia.
Qed.

Lemma blen_concat_fixed {A} (f : A -> list byte) w l :
  (forall x, blen (f x) = w) -> blen (concat (f <$> l)) = (w * N.of_nat (length l))%N.
Proof.
  intros Hf. induction l as [|x l IH]; [by rewrite N.mul_0_r|]. rewrite fmap_cons. cbn [concat length]. rewrite blen_app, Hf, IH. lia.
Qed.

Lemma blen_loc_bytes l : blen (loc_bytes l) = 12%N.
Proof. unfold loc_bytes. by rewrite blen_app, !blen_le_put. Qed.

Lemma blen_node n : blen (node_bytes n) = node_size n.
Proof.
  unfold node_bytes, node_size, node_head, node_tail. rewrite !blen_app, blen_keys, !blen_le_put.
  change (blen [n_nodeType n]) with 1%N. destruct (is_leaf n); [rewrite (blen_concat_fixed _ 12) by apply blen_loc_bytes|rewrite (blen_concat_fixed _ 8) by (intros; apply blen_le_put)];
    lia.
Qed.

(** ** encodeNode *)

Lemma put_keys_spec keys buf :
  put_keys buf keys = if (blen buf + keys_size keys <=? maxDataBytes)%N || (length keys =? 0)
    then Ok (buf ++ concat (key_bytes <$> keys)) else Err ErrNodeTooLarge.
Proof.
  revert buf. induction keys as [|k keys IH]; intros buf; cbn [put_keys].
  { cbn. rewrite orb_true_r. by rewrite app_nil_r. }
  fold (klen k). cbn [length Nat.eqb]. rewrite orb_false_r. cbn [keys_size foldr]. fold (keys_size keys).
  destruct (N.ltb_spec maxDataBytes (blen buf + 2 + klen k)) as [Hlt|Hge].
  { rewrite (proj2 (N.leb_gt _ _)); [done|lia]. }
  change (le_put 2 (klen k) ++ bytes_of_string k) with (key_bytes k). rewrite IH, blen_app, blen_key_bytes.
  rewrite fmap_cons. cbn [concat]. rewrite <-app_assoc.
  destruct keys as [|k' keys]; cbn [length Nat.eqb].
  - rewrite orb_true_r. rewrite (proj2 (N.leb_le _ _)); [done|]. cbn. lia.
  - rewrite orb_false_r. by replace (blen buf + (2 + klen k) + keys_size (k' :: keys))%N with (blen buf + (2 + klen k + keys_size (k' :: keys)))%N by lia.
Qed.

Lemma put_values_ok values buf :
  (blen buf + 12 * N.of_nat (length values) <= maxDataBytes)%N ->
  put_values buf values = Ok (buf ++ concat (loc_bytes <$> values)).
Proof.
  revert buf. induction values as [|l values IH]; intros buf Hf; cbn [put_values]; [by rewrite app_nil_r|]. cbn [length] in Hf.
  rewrite (proj2 (N.ltb_ge _ _)) by lia. change (le_put 8 _ ++ le_put 4 _) with (loc_bytes l).
  rewrite IH by (rewrite blen_app, blen_loc_bytes; lia). rewrite fmap_cons. cbn [concat]. by rewrite <-app_assoc.
Qed.

Lemma put_values_err values buf :
  (maxDataBytes < blen buf + 12 * N.of_nat (length values))%N -> (blen buf <= maxDataBytes)%N ->
  put_values buf values = Err ErrNodeTooLarge.
Proof.
  revert buf. induction values as [|l values IH]; intros buf Hf Hb; cbn [put_values length] in *; [lia|].
  destruct (N.ltb_spec maxDataBytes (blen buf + 12)); [done|]. change (le_put 8 _ ++ le_put 4 _) with (loc_bytes l).
  apply IH; rewrite blen_app, blen_loc_bytes; lia.
Qed.

Lemma put_children_ok children buf :
  (blen buf + 8 * N.of_nat (length children) <= maxDataBytes)%N ->
  put_children buf children = Ok (buf ++ concat (le_put 8 <$> children)).
Proof.
  revert buf. induction children as [|c children IH]; intros buf Hf; cbn [put_children]; [by rewrite app_nil_r|]. cbn [length] in Hf.
  rewrite (proj2 (N.ltb_ge _ _)) by lia.
  rewrite IH by (rewrite blen_app, blen_le_put; lia). rewrite fmap_cons. cbn [concat]. by rewrite <-app_assoc.
Qed.

Lemma put_children_err children buf :
  (maxDataBytes < blen buf + 8 * N.of_nat (length children))%N -> (blen buf <= maxDataBytes)%N ->
  put_children buf children = Err ErrNodeTooLarge.
Proof.
  revert buf. induction children as [|c children IH]; intros buf Hf Hb; cbn [put_children length] in *; [lia|].
  destruct (N.ltb_spec maxDataBytes (blen buf + 8)); [done|]. apply IH; rewrite blen_app, blen_le_put; lia.
Qed.

Lemma blen_node_head n : blen (node_head n) = 11%N.
Proof. unfold node_head. by rewrite !blen_app, !blen_le_put. Qed.

Lemma encodeNode_spec n :
  encodeNode n = if (node_size n <=? maxDataBytes)%N then Ok (node_bytes n) else Err ErrNodeTooLarge.
Proof.
  unfold encodeNode. fold (node_head n). rewrite put_keys_spec, blen_node_head. unfold node_size, node_bytes, node_tail.
  set (ks := keys_size (n_keys n)). set (kb := concat (key_bytes <$> n_keys n)).
  assert (Hkb : blen kb = ks) by apply blen_keys.
  assert (Hz : length (n_keys n) = 0 -> ks = 0%N) by (unfold ks; destruct (n_keys n); [done|discriminate]).
  assert (Hmax : (11 <= maxDataBytes)%N) by (unfold maxDataBytes, PageSize, btreeDataOffset, PageHeaderSize; lia).
  destruct ((11 + ks <=? maxDataBytes)%N || (length (n_keys n) =? 0)) eqn:Hk.
  - assert (Hle : (11 + ks <= maxDataBytes)%N).
    { apply orb_true_iff in Hk as [Hk|Hk]; [by apply N.leb_le|]. apply Nat.eqb_eq in Hk. rewrite Hz; lia. }
    assert (Hb : blen (node_head n ++ kb) = (11 + ks)%N) by (by rewrite blen_app, blen_node_head, Hkb).
    rewrite app_assoc. destruct (is_leaf n).
    + destruct (N.leb_spec (11 + ks + 12 * N.of_nat (length (n_values n))) maxDataBytes).
      * apply put_values_ok. lia.
      * apply put_values_err; lia.
    + destruct (N.leb_spec (11 + ks + 8 * N.of_nat (length (n_children n))) maxDataBytes).
      * apply put_children_ok. lia.
      * apply put_children_err; lia.
  - apply orb_false_iff in Hk as [Hk _]. apply N.leb_gt in Hk.
    rewrite (proj2 (N.leb_gt _ _)); [done|]. destruct (is_leaf n); lia.
Qed.

(** ** decodeNode *)

Definition two32 : N := 4294967296.

(** What the fields of a node can hold. *)
Record node_ok (n : btreeNode) : Prop := {
  no_count : (N.of_nat (length (n_keys n)) < 65536)%N;
  no_keys : Forall (fun k => klen k < 65536)%N (n_keys n);
  no_right : (n_rightSibling n < two64)%N;
  no_kind : (n_nodeType n = LeafNode /\ n_children n = [] /\ length (n_values n) = length (n_keys n)
             /\ Forall (fun l => rl_pageID l < two64 /\ rl_slotID l < two32)%N (n_values n))
            \/ (n_nodeType n = InternalNode /\ n_values n = [] /\ length (n_children n) = S (length (n_keys n))
                /\ Forall (fun c => c < two64)%N (n_children n));
}.

Lemma get_keys_ok keys rest :
  Forall (fun k => klen k < 65536)%N keys -> get_keys (concat (key_bytes <$> keys) ++ rest) (length keys) = Some (keys, rest).
Proof.
  induction 1 as [|k keys Hk Hks IH]; [done|]. rewrite fmap_cons. cbn [concat length get_keys].
  rewrite <-app_assoc. set (more := concat _ ++ rest) in *.
  assert (Hl : length (bytes_of_string k) = N.to_nat (klen k)) by (unfold klen, blen; lia).
  assert (Ht : take 2 (key_bytes k ++ more) = le_put 2 (klen k)) by (unfold key_bytes; rewrite <-app_assoc; apply take_le_put).
  assert (Hd : drop 2 (key_bytes k ++ more) = bytes_of_string k ++ more) by (unfold key_bytes; rewrite <-app_assoc; apply drop_le_put).
  rewrite Ht, Hd, le_get_put2 by done.
  rewrite (proj2 (Nat.ltb_ge _ _)) by (unfold key_bytes; rewrite !length_app, le_put_length; lia).
  rewrite (proj2 (Nat.ltb_ge _ _)) by (rewrite length_app; lia).
  rewrite drop_app_length', take_app_length' by done. rewrite IH. cbn [mbind option_bind]. by rewrite string_of_bytes_of_string.
Qed.

Lemma get_values_ok values rest :
  Forall (fun l => rl_pageID l < two64 /\ rl_slotID l < two32)%N values ->
  get_values (concat (loc_bytes <$> values) ++ rest) (length values) = Some values.
Proof.
  induction 1 as [|l values [Hp Hs] Hv IH]; [done|]. rewrite fmap_cons. cbn [concat length get_values]. rewrite <-app_assoc.
  assert (Hl : length (loc_bytes l) = 12) by (unfold loc_bytes; by rewrite length_app, !le_put_length).
  rewrite (proj2 (Nat.ltb_ge _ _)) by (rewrite length_app; lia).
  rewrite (drop_app_length' (loc_bytes l) _ 12) by lia. rewrite IH. cbn [mbind option_bind]. unfold loc_bytes. rewrite <-!app_assoc.
  rewrite take_le_put, drop_le_put, take_le_put, !le_get_put_small by done. by destruct l.
Qed.

Lemma get_children_ok children rest :
  Forall (fun c => c < two64)%N children ->
  get_children (concat (le_put 8 <$> children) ++ rest) (length children) = Some children.
Proof.
  induction 1 as [|c children Hc Hcs IH]; [done|]. rewrite fmap_cons. cbn [concat length get_children]. rewrite <-app_assoc.
  rewrite (proj2 (Nat.ltb_ge _ _)) by (rewrite length_app, le_put_length; lia).
  rewrite take_le_put, drop_le_put, IH. cbn [mbind option_bind]. by rewrite le_get_put_small.
Qed.

Lemma decodeNode_bytes n rest : node_ok n -> decodeNode (n_pageID n) (node_bytes n ++ rest) = Ok n.
Proof.
  intros [H1 H2 H3 H4]. unfold decodeNode, node_bytes. set (body := concat _). set (tl := node_tail n).
  set (data := (_ ++ _) ++ rest).
  assert (Hd : data = n_nodeType n :: le_put 2 (N.of_nat (length (n_keys n))) ++ le_put 8 (n_rightSibling n) ++ body ++ tl ++ rest).
  { unfold data, node_head. by rewrite <-!app_assoc. }
  assert (Hlen : 11 <= length data) by (rewrite Hd; cbn [length]; rewrite !length_app, !le_put_length; lia).
  rewrite (proj2 (Nat.ltb_ge _ _) Hlen).
  assert (E1 : drop 1 data = le_put 2 (N.of_nat (length (n_keys n))) ++ le_put 8 (n_rightSibling n) ++ body ++ tl ++ rest) by (by rewrite Hd).
  assert (E3 : drop 3 data = le_put 8 (n_rightSibling n) ++ body ++ tl ++ rest).
  { change 3 with (1 + 2). rewrite <-drop_drop, E1. apply drop_le_put. }
  assert (E11 : drop 11 data = body ++ tl ++ rest).
  { change 11 with (3 + 8). rewrite <-drop_drop, E3. apply drop_le_put. }
  rewrite E1, E3, E11, !take_le_put, le_get_put2, le_get_put_small, Nat2N.id by done. rewrite Hd. cbn [nth].
  unfold body. rewrite get_keys_ok by done. unfold tl, node_tail.
  assert (Hl : is_leaf n = Byte.eqb (n_nodeType n) LeafNode) by done. rewrite Hl.
  destruct H4 as [(Et & Ec & Ev & Hv)|(Et & Ev & Ec & Hc)]; rewrite Et; cbn [Byte.eqb].
  - change (Byte.eqb LeafNode LeafNode) with true. cbn iota. rewrite <-Ev, get_values_ok by done. destruct n. cbn in *. congruence.
  - change (Byte.eqb InternalNode LeafNode) with false. cbn iota. rewrite <-Ec, get_children_ok by done. destruct n. cbn in *. congruence.
Qed.

(** ** Nodes on pages *)

(** A page without slots, as tree pages are: the area behind the header is
    the node's. *)
Definition raw (p : Page) : Prop := page_wf p /\ pg_slotCount p = 0%N /\ pg_freeSpaceOffset p = PageSize.

Definition payload (p : Page) : list byte := drop (N.to_nat btreeDataOffset) (pg_data p).

Lemma raw_NewPage id : (id < two64)%N -> raw (NewPage id).
Proof. intros Hid. split; [by apply page_wf_NewPage|done]. Qed.

Lemma page_inv_nil p :
  blen (pg_data p) = PageSize -> pg_slotCount p = 0%N -> pg_freeSpaceOffset p = PageSize -> page_inv p [].
Proof.
  intros H1 H2 H3. split; try done.
  - rewrite H3. unfold slot_pos, PageHeaderSize, SlotSize, PageSize. cbn. lia.
  - split; try done. rewrite H3. cbn. unfold live_bytes. cbn. lia.
Qed.

Lemma payload_sync p : blen (pg_data p) = PageSize -> payload (syncHeader p) = payload p.
Proof.
  intros Hl. unfold payload. rewrite (syncHeader_bytes p Hl). pose proof (blen_full_header p) as Hf. unfold blen in Hf.
  change (N.to_nat btreeDataOffset) with (25 + 7). rewrite <-drop_drop.
  rewrite drop_app_length' by lia. by rewrite drop_drop.
Qed.

Lemma writeNode_ok p n :
  raw p -> node_ok n -> (node_size n <= maxDataBytes)%N ->
  exists p', writeNode p n = Ok p' /\ raw p' /\ pg_id p' = pg_id p /\ decodeNode (n_pageID n) (payload p') = Ok n.
Proof.
  intros (Hw & Hc & Hf) Hn Hsz. unfold writeNode. rewrite encodeNode_spec, (proj2 (N.leb_le _ _) Hsz), blen_node.
  rewrite (proj2 (N.ltb_ge _ _) Hsz). set (z := replicate (N.to_nat maxDataBytes) x00).
  assert (Hz : blen z = maxDataBytes) by (unfold z, blen; rewrite length_replicate; lia).
  pose proof (page_wf_len p Hw) as Hl. set (d1 := store btreeDataOffset z (pg_data p)).
  assert (Hl1 : blen d1 = PageSize) by (unfold d1; rewrite blen_store; [done|]; rewrite Hz, Hl; done).
  set (d2 := store btreeDataOffset (node_bytes n) d1).
  assert (Hl2 : blen d2 = PageSize).
  { unfold d2. rewrite blen_store; [done|]. rewrite blen_node, Hl1. unfold maxDataBytes, btreeDataOffset, PageSize, PageHeaderSize in *. lia. }
  set (q := with_data p d2). exists (syncHeader q). split; [done|]. split; [|split].
  - split; [|done]. destruct Hw as (_ & _ & Hi & Hlsn). split; [exists []; by apply page_inv_sync, page_inv_nil|].
    split; [by apply syncHeader_idem|done].
  - done.
  - rewrite payload_sync by done. unfold payload, q. cbn [pg_data with_data].
    assert (E : exists rest, drop (N.to_nat btreeDataOffset) d2 = node_bytes n ++ rest).
    { unfold d2, store. eexists. rewrite drop_app_length'; [done|]. rewrite length_take.
      change (N.to_nat btreeDataOffset) with 32. unfold blen, PageSize in Hl1. lia. }
    destruct E as [rest ->]. by apply decodeNode_bytes.
Qed.

Lemma writeNode_err p n : (maxDataBytes < node_size n)%N -> writeNode p n = Err ErrNodeTooLarge.
Proof. intros Hs. unfold writeNode. by rewrite encodeNode_spec, (proj2 (N.leb_gt _ _) Hs). Qed.

(** Keys of up to 26 bytes: every node of the tree's order fits. *)
Definition MaxKey : N := 26.

Lemma keys_size_le keys m : Forall (fun k => klen k <= m)%N keys -> (keys_size keys <= (2 + m) * N.of_nat (length keys))%N.
Proof. induction 1 as [|k keys Hk Hks IH]; [cbn; lia|]. cbn [keys_size foldr length]. fold (keys_size keys). lia. Qed.

Lemma node_fits n :
  node_ok n -> length (n_keys n) <= BTreeOrder -> Forall (fun k => klen k <= MaxKey)%N (n_keys n) -> (node_size n <= maxDataBytes)%N.
Proof.
  intros [_ _ _ Hk] Hl Hks. pose proof (keys_size_le _ _ Hks) as Hs. unfold node_size, is_leaf, MaxKey in *.
  unfold BTreeOrder, maxDataBytes, PageSize, btreeDataOffset, PageHeaderSize in *.
  destruct Hk as [(-> & _ & Hv & _)|(-> & _ & Hc & _)].
  - change (Byte.eqb LeafNode LeafNode) with true. cbn iota. rewrite Hv. lia.
  - change (Byte.eqb InternalNode LeafNode) with false. cbn iota. rewrite Hc. lia.
Qed.

Lemma keys_size_ge keys m : Forall (fun k => m <= klen k)%N keys -> ((2 + m) * N.of_nat (length keys) <= keys_size keys)%N.
Proof. induction 1 as [|k keys Hk Hks IH]; [cbn; lia|]. cbn [keys_size foldr length]. fold (keys_size keys). lia. Qed.

(** C39. A node that fits behind the page header comes back from the page, a
    larger one is refused and the page left alone. Every node of up to
    [BTreeOrder] keys fits when its keys have at most [MaxKey] = 26 bytes, and
    a full leaf of longer keys never does. *)
Theorem node_on_page p n :
  raw p -> node_ok n ->
  ((node_size n <= maxDataBytes)%N -> exists p', writeNode p n = Ok p' /\ raw p' /\ decodeNode (n_pageID n) (payload p') = Ok n)
  /\ ((maxDataBytes < node_size n)%N -> writeNode p n = Err ErrNodeTooLarge)
  /\ (length (n_keys n) <= BTreeOrder -> Forall (fun k => klen k <= MaxKey)%N (n_keys n) -> (node_size n <= maxDataBytes)%N)
  /\ (is_leaf n = true -> length (n_keys n) = BTreeOrder -> Forall (fun k => MaxKey + 1 <= klen k)%N (n_keys n) ->
      (maxDataBytes < node_size n)%N).
Proof.
  intros Hp Hn. split_and!.
  - intros Hs. destruct (writeNode_ok p n Hp Hn Hs) as (p' & E & Hr & _ & Hd). by exists p'.
  - apply writeNode_err.
  - by apply node_fits.
  - intros Hl Hc Hk. pose proof (keys_size_ge _ _ Hk) as Hs. unfold node_size. rewrite Hl.
    assert (Hv : length (n_values n) = length (n_keys n)).
    { destruct Hn as [_ _ _ [(_ & _ & Hv & _)|(Ht & _)]]; [done|]. unfold is_leaf in Hl. by rewrite Ht in Hl. }
    rewrite Hv, Hc in *. unfold BTreeOrder, MaxKey, maxDataBytes, PageSize, btreeDataOffset, PageHeaderSize in *. lia.
Qed.

Definition node1 : btreeNode := mkNode LeafNode ["a"; "b"]%string [] [mkLoc 1 0; mkLoc 1 1] 0 1.

Lemma node1_ok : node_ok node1.
Proof.
  split; [vm_compute; reflexivity|repeat constructor|reflexivity|]. left. split; [reflexivity|]. split; [reflexivity|]. split; [reflexivity|].
  repeat constructor.
Qed.

Lemma node_on_page_witness :
  (node_size node1 <= maxDataBytes)%N
  /\ exists p', writeNode (NewPage 1) node1 = Ok p' /\ raw p' /\ decodeNode 1 (payload p') = Ok node1.
Proof.
  destruct (node_on_page (NewPage 1) node1 (raw_NewPage 1 eq_refl) node1_ok) as (H & _).
  assert (Hs : (node_size node1 <= maxDataBytes)%N) by (vm_compute; discriminate). split; [exact Hs|exact (H Hs)].
Defined.

(** ** Searching within a node *)

Notation sorted := (StronglySorted str_lt).

Lemma sorted_lookup l i j x y : sorted l -> l !! i = Some x -> l !! j = Some y -> i < j -> str_lt x y.
Proof.
  intros Hs. revert i j. induction Hs as [|z l Hs IH Hz]; intros i j; [done|]. destruct i as [|i], j as [|j]; cbn; try lia.
  - intros [= <-] Hj _. rewrite Forall_forall in Hz. apply Hz. by eapply list_elem_of_lookup_2.
  - intros Hi Hj Hij. eapply IH; [done|done|lia].
Qed.

Lemma leaf_search_spec fuel keys key lo hi :
  sorted keys -> lo <= hi -> hi <= length keys -> hi - lo < fuel ->
  (forall i k, keys !! i = Some k -> i < lo -> str_lt k key) ->
  (forall i k, keys !! i = Some k -> hi <= i -> str_lt key k) ->
  match leaf_search fuel keys key lo hi with
  | (idx, true) => keys !! idx = Some key
  | (idx, false) => idx <= length keys /\ forall i k, keys !! i = Some k -> (i < idx -> str_lt k key) /\ (idx <= i -> str_lt key k)
  end.
Proof.
  intros Hs. revert lo hi. induction fuel as [|fuel IH]; intros lo hi Hle Hhi Hf Hlo Hhi'; [lia|]. cbn [leaf_search].
  destruct (Nat.ltb_spec lo hi) as [Hlt|Hge].
  2: { split; [lia|]. intros i k Hk. split; [by apply Hlo|]. intros. eapply Hhi'; [done|lia]. }
  set (mid := (lo + hi) / 2).
  assert (Hmid : lo <= mid < hi).
  { unfold mid. split; [apply Nat.div_le_lower_bound; lia|apply Nat.div_lt_upper_bound; lia]. }
  destruct (lookup_lt_is_Some_2 keys mid) as [k Hk]; [lia|].
  assert (Hn : nth mid keys "" = k) by (by apply nth_lookup_Some). rewrite Hn.
  destruct (String.eqb_spec k key) as [->|Hne]; [done|]. destruct (String.ltb k key) eqn:Hc.
  - apply IH; try lia; [|done]. intros i k' Hk' Hi. destruct (decide (i = mid)) as [->|]; [rewrite Hk in Hk'; by injection Hk' as <-|].
    transitivity k; [|exact Hc]. eapply sorted_lookup; [done|done|exact Hk|lia].
  - assert (Hkk : str_lt key k) by (apply str_ltb_false in Hc as [?|?]; [congruence|done]).
    apply IH; try lia; [done|]. intros i k' Hk' Hi. destruct (decide (i = mid)) as [->|]; [rewrite Hk in Hk'; by injection Hk' as <-|].
    transitivity k; [exact Hkk|]. eapply sorted_lookup; [done|exact Hk|done|lia].
Qed.

Lemma leafSearch_spec keys key :
  sorted keys ->
  match leafSearch keys key with
  | (idx, true) => keys !! idx = Some key
  | (idx, false) => idx <= length keys /\ forall i k, keys !! i = Some k -> (i < idx -> str_lt k key) /\ (idx <= i -> str_lt key k)
  end.
Proof.
  intros Hs. apply leaf_search_spec; try done; try lia. intros i k Hk Hi. apply lookup_lt_Some in Hk. lia.
Qed.

Lemma internalChildIdx_spec keys key :
  internalChildIdx keys key <= length keys
  /\ (forall i k, keys !! i = Some k -> i < internalChildIdx keys key -> String.ltb key k = false)
  /\ (forall k, keys !! internalChildIdx keys key = Some k -> str_lt key k).
Proof.
  induction keys as [|k keys (H1 & H2 & H3)]; cbn [internalChildIdx length]; [split; [lia|]; split; [intros; lia|done]|].
  destruct (String.ltb key k) eqn:Hk.
  - split; [lia|]. split; [intros; lia|]. intros k' [= <-]. exact Hk.
  - split; [lia|]. split.
    + intros [|i] k'; cbn; [by intros [= <-]|]. intros Hi Hl. eapply H2; [done|lia].
    + exact H3.
Qed.
