(* ===== verification/BTreeShape.v ===== *)
(** * The shape of a B+ tree

    Over a store of nodes [nd], [bt nd h pid lo hi next first es ps] says that
    page [pid] is the root of a subtree of height [h] with the entries [es]
    in order, keys within [lo] (inclusive) and [hi] (exclusive), on the pages
    [ps]; its leaves are linked from [first] and the last one's right sibling
    is [next]. The lemmas take a tree apart at the child a key leads to and
    put it together again with that child changed or split. *)

From Stdlib Require Import ZArith NArith Lia Strings.Byte String Sorted.
From stdpp Require Import base tactics numbers list gmap strings.
From S2P Require Import Prelude Types Storage Page Heap Pool PagedTable BTree BTreeNode.

Notation entry := (RowKey * rowLocation)%type.

(** ** Bounds *)

(** The lower bound of the whole tree is the empty key, the least one; there
    is no upper bound ([None]). *)
Definition ge_lo (lo k : RowKey) : Prop := lo = k \/ str_lt lo k.
Definition lt_hi (k : RowKey) (hi : option RowKey) : Prop := match hi with Some h => str_lt k h | None => True end.
Definition within (lo : RowKey) (hi : option RowKey) (k : RowKey) : Prop := ge_lo lo k /\ lt_hi k hi.

Lemma lt_trans a b c : str_lt a b -> str_lt b c -> str_lt a c.
Proof. apply (transitivity (R := str_lt)). Qed.

Lemma ge_lo_lt lo k k' : ge_lo lo k -> str_lt k k' -> str_lt lo k'.
Proof. intros [->|Hl] Hk; [done|]. by apply (lt_trans _ k). Qed.

Lemma lt_hi_trans k k' hi : str_lt k k' -> lt_hi k' hi -> lt_hi k hi.
Proof. destruct hi; [|done]. intros. by apply (lt_trans _ k'). Qed.

Lemma lt_ge_lo k l k' : str_lt k l -> ge_lo l k' -> str_lt k k'.
Proof. intros Hk [->|Hl]; [done|]. by apply (lt_trans _ l). Qed.

Lemma ge_lo_empty k : ge_lo "" k.
Proof. destruct (decide (k = ""%string)) as [->|Hk]; [by left|]. right. by apply str_lt_empty. Qed.

(** ** Subtrees *)

Definition subtree : Type := N -> RowKey -> option RowKey -> N -> N -> list entry -> list N -> Prop.

Fixpoint kids (T : subtree) (ks : list RowKey) (cs : list N) (lo : RowKey) (hi : option RowKey) (next first : N)
    (es : list entry) (ps : list N) : Prop :=
  match ks, cs with
  | [], [c] => T c lo hi next first es ps
  | k :: ks, c :: cs =>
      exists mid es1 es2 ps1 ps2, str_lt lo k /\ lt_hi k hi /\ es = es1 ++ es2 /\ ps = ps1 ++ ps2
        /\ T c lo (Some k) mid first es1 ps1 /\ kids T ks cs k hi next mid es2 ps2
  | _, _ => False
  end.

Definition small_keys (n : btreeNode) : Prop :=
  length (n_keys n) <= BTreeOrder /\ Forall (fun k => klen k <= MaxKey)%N (n_keys n).

Definition leaf_node (n : btreeNode) (pid : N) (lo : RowKey) (hi : option RowKey) (es : list entry) : Prop :=
  node_ok n /\ small_keys n /\ n_pageID n = pid /\ n_nodeType n = LeafNode /\ es = zip (n_keys n) (n_values n)
  /\ sorted (n_keys n) /\ Forall (within lo hi) (n_keys n).

Definition internal_node (n : btreeNode) (pid : N) : Prop :=
  node_ok n /\ small_keys n /\ n_pageID n = pid /\ n_nodeType n = InternalNode.

Fixpoint bt (nd : N -> option btreeNode) (h : nat) : subtree := fun pid lo hi next first es ps =>
  match h with
  | O => exists n, nd pid = Some n /\ leaf_node n pid lo hi es /\ n_rightSibling n = next /\ first = pid /\ ps = [pid]
  | S h => exists n ps', nd pid = Some n /\ internal_node n pid /\ ps = pid :: ps'
             /\ kids (bt nd h) (n_keys n) (n_children n) lo hi next first es ps'
  end.

Lemma leaf_lengths n pid lo hi es : leaf_node n pid lo hi es -> length (n_values n) = length (n_keys n) /\ n_children n = [].
Proof. intros ([_ _ _ [(_ & E1 & E2 & _)|(E & _)]] & _ & _ & Et & _); [done|]. rewrite Et in E. done. Qed.

Lemma leaf_keys n pid lo hi es : leaf_node n pid lo hi es -> es.*1 = n_keys n /\ es.*2 = n_values n.
Proof.
  intros HL. destruct (leaf_lengths _ _ _ _ _ HL) as [Hl _]. destruct HL as (_ & _ & _ & _ & -> & _).
  split; [apply fst_zip; lia|apply snd_zip; lia].
Qed.

Lemma internal_lengths n pid : internal_node n pid -> length (n_children n) = S (length (n_keys n)) /\ n_values n = [].
Proof. intros ([_ _ _ [(E & _)|(_ & E1 & E2 & _)]] & _ & _ & Et); [rewrite Et in E; done|done]. Qed.

Lemma kids_mono (T T' : subtree) ks cs lo hi next first es ps P :
  (forall c lo hi n f es ps, T c lo hi n f es ps -> ps ⊆ P -> T' c lo hi n f es ps) ->
  ps ⊆ P -> kids T ks cs lo hi next first es ps -> kids T' ks cs lo hi next first es ps.
Proof.
  intros HT. revert cs lo first es ps. induction ks as [|k ks IH]; intros cs lo first es ps HP.
  - destruct cs as [|c [|c' cs]]; cbn [kids]; [done| |done]. intros H. by apply HT.
  - destruct cs as [|c cs]; [done|]. cbn [kids]. intros (mid & es1 & es2 & ps1 & ps2 & H1 & H2 & -> & -> & H3 & H4).
    exists mid, es1, es2, ps1, ps2. split_and!; try done; [apply HT; [done|]|apply IH; [|done]]; set_solver.
Qed.

(** A subtree depends on its own pages only. *)
Lemma bt_frame nd nd' h pid lo hi next first es ps :
  (forall p, p ∈ ps -> nd' p = nd p) -> bt nd h pid lo hi next first es ps -> bt nd' h pid lo hi next first es ps.
Proof.
  revert pid lo hi next first es ps. induction h as [|h IH]; intros pid lo hi next first es ps Hnd; cbn [bt].
  - intros (n & Hn & HL & Hr & -> & ->). exists n. rewrite Hnd by (by left). done.
  - intros (n & ps' & Hn & HI & -> & Hk). exists n, ps'. rewrite Hnd by (by left). split_and!; try done.
    eapply (kids_mono _ _ _ _ _ _ _ _ _ _ ps'); [|done|exact Hk]. intros c lo' hi' n' f' es' ps'' HT Hsub. apply IH; [|done].
    intros p Hp. apply Hnd. right. by apply Hsub.
Qed.

(** ** Order *)

Definition ordered (lo : RowKey) (hi : option RowKey) (es : list entry) : Prop := sorted es.*1 /\ Forall (within lo hi) es.*1.

Lemma sorted_app (l1 l2 : list RowKey) :
  sorted l1 -> sorted l2 -> (forall x y, x ∈ l1 -> y ∈ l2 -> str_lt x y) -> sorted (l1 ++ l2).
Proof.
  intros H1 H2 H12. induction H1 as [|x l1 H1 IH Hx]; [done|]. cbn. constructor.
  - apply IH. intros y z Hy Hz. apply H12; [by right|done].
  - apply Forall_app. split; [done|]. apply Forall_forall. intros y Hy. apply H12; [by left|done].
Qed.

Lemma ordered_app lo hi k es1 es2 :
  str_lt lo k -> lt_hi k hi -> ordered lo (Some k) es1 -> ordered k hi es2 -> ordered lo hi (es1 ++ es2).
Proof.
  intros Hlo Hhi [S1 F1] [S2 F2]. unfold ordered. rewrite fmap_app. split.
  - apply sorted_app; [done|done|]. intros x y Hx Hy. rewrite Forall_forall in F1, F2. eapply lt_ge_lo; [apply (F1 x Hx)|apply (F2 y Hy)].
  - apply Forall_app. split.
    + eapply Forall_impl; [exact F1|]. intros x [Ha Hb]. split; [done|]. by eapply lt_hi_trans.
    + eapply Forall_impl; [exact F2|]. intros x [Ha Hb]. split; [|done]. right. by eapply lt_ge_lo.
Qed.

Lemma kids_ordered (T : subtree) ks cs lo hi next first es ps :
  (forall c lo hi n f es ps, T c lo hi n f es ps -> ordered lo hi es) ->
  kids T ks cs lo hi next first es ps -> ordered lo hi es.
Proof.
  intros HT. revert cs lo first es ps. induction ks as [|k ks IH]; intros cs lo first es ps.
  - destruct cs as [|c [|c' cs]]; cbn [kids]; [done| |done]. apply HT.
  - destruct cs as [|c cs]; [done|]. cbn [kids]. intros (mid & es1 & es2 & ps1 & ps2 & H1 & H2 & -> & -> & H3 & H4).
    eapply ordered_app; [done|done|by eapply HT|by eapply IH].
Qed.

Lemma bt_ordered nd h pid lo hi next first es ps : bt nd h pid lo hi next first es ps -> ordered lo hi es.
Proof.
  revert pid lo hi next first es ps. induction h as [|h IH]; intros pid lo hi next first es ps; cbn [bt].
  - intros (n & _ & HL & _). unfold ordered. destruct (leaf_keys _ _ _ _ _ HL) as [-> _]. apply HL.
  - intros (n & ps' & _ & _ & _ & Hk). eapply kids_ordered; [apply IH|exact Hk].
Qed.

(** ** Pages *)

Lemma kids_pages (T : subtree) ks cs lo hi next first es ps :
  (forall c lo hi n f es ps, T c lo hi n f es ps -> c ∈ ps /\ f ∈ ps) ->
  kids T ks cs lo hi next first es ps -> cs ⊆ ps /\ first ∈ ps.
Proof.
  intros HT. revert cs lo first es ps. induction ks as [|k ks IH]; intros cs lo first es ps.
  - destruct cs as [|c [|c' cs]]; cbn [kids]; [done| |done]. intros H. apply HT in H as [H1 H2]. split; [|done].
    intros x Hx. apply list_elem_of_singleton in Hx as ->. done.
  - destruct cs as [|c cs]; [done|]. cbn [kids]. intros (mid & es1 & es2 & ps1 & ps2 & H1 & H2 & -> & -> & H3 & H4).
    apply HT in H3 as [H3 H3']. apply IH in H4 as [H4 H4']. split; [|set_solver]. intros x Hx.
    apply elem_of_cons in Hx as [->|Hx]; apply elem_of_app; [by left|right; by apply H4].
Qed.

Lemma bt_pages nd h pid lo hi next first es ps : bt nd h pid lo hi next first es ps -> pid ∈ ps /\ first ∈ ps.
Proof.
  revert pid lo hi next first es ps. induction h as [|h IH]; intros pid lo hi next first es ps; cbn [bt].
  - intros (n & _ & _ & _ & -> & ->). split; by left.
  - intros (n & ps' & _ & _ & -> & Hk). split; [by left|]. right. eapply kids_pages; [apply IH|exact Hk].
Qed.

Lemma kids_height (T : subtree) ks cs lo hi next first es ps h :
  (forall c lo hi n f es ps, T c lo hi n f es ps -> h < length ps) ->
  kids T ks cs lo hi next first es ps -> h < length ps.
Proof.
  intros HT. revert cs lo first es ps. induction ks as [|k ks IH]; intros cs lo first es ps.
  - destruct cs as [|c [|c' cs]]; cbn [kids]; [done| |done]. apply HT.
  - destruct cs as [|c cs]; [done|]. cbn [kids]. intros (mid & es1 & es2 & ps1 & ps2 & H1 & H2 & -> & -> & H3 & H4).
    apply HT in H3. rewrite length_app. lia.
Qed.

(** A descent is shorter than the number of pages. *)
Lemma bt_height nd h pid lo hi next first es ps : bt nd h pid lo hi next first es ps -> h < length ps.
Proof.
  revert pid lo hi next first es ps. induction h as [|h IH]; intros pid lo hi next first es ps; cbn [bt].
  - intros (n & _ & _ & _ & _ & ->). cbn. lia.
  - intros (n & ps' & _ & _ & -> & Hk). cbn [length]. apply (kids_height _ _ _ _ _ _ _ _ _ h) in Hk; [lia|apply IH].
Qed.

(** The first leaf holds the first entries. *)
Lemma bt_first nd h pid lo hi next first es ps :
  bt nd h pid lo hi next first es ps ->
  exists hi' next' es1 es2, es = es1 ++ es2 /\ bt nd 0 first lo hi' next' first es1 [first].
Proof.
  revert pid lo hi next first es ps. induction h as [|h IH]; intros pid lo hi next first es ps Hb.
  - pose proof Hb as (n & _ & _ & _ & -> & ->). exists hi, next, es, []. by rewrite app_nil_r.
  - destruct Hb as (n & ps' & _ & _ & _ & Hk). destruct (n_keys n) as [|k ks], (n_children n) as [|c [|c' cs]]; cbn [kids] in Hk; try done.
    + by eapply IH.
    + by destruct ks; destruct Hk as (? & ? & ? & ? & ? & ? & ? & ? & ? & ? & []).
    + destruct Hk as (mid & ea & eb & pa & pb & _ & _ & -> & _ & Hc & _). destruct (IH _ _ _ _ _ _ _ Hc) as (hi' & nx & es1 & es2 & -> & Hl).
      exists hi', nx, es1, (es2 ++ eb). by rewrite <-app_assoc.
Qed.

Lemma kids_nodes (nd : N -> option btreeNode) (T : subtree) ks cs lo hi next first es ps :
  (forall c lo hi n f es ps, T c lo hi n f es ps -> forall p, p ∈ ps -> is_Some (nd p)) ->
  kids T ks cs lo hi next first es ps -> forall p, p ∈ ps -> is_Some (nd p).
Proof.
  intros HT. revert cs lo first es ps. induction ks as [|k ks IH]; intros cs lo first es ps.
  - destruct cs as [|c [|c' cs]]; cbn [kids]; [done| |done]. apply HT.
  - destruct cs as [|c cs]; [done|]. cbn [kids]. intros (mid & es1 & es2 & ps1 & ps2 & H1 & H2 & -> & -> & H3 & H4) p [Hp|Hp]%elem_of_app;
      [by eapply HT|by eapply IH].
Qed.

Lemma bt_nodes nd h pid lo hi next first es ps : bt nd h pid lo hi next first es ps -> forall p, p ∈ ps -> is_Some (nd p).
Proof.
  revert pid lo hi next first es ps. induction h as [|h IH]; intros pid lo hi next first es ps; cbn [bt].
  - intros (n & Hn & _ & _ & _ & ->) p Hp. apply list_elem_of_singleton in Hp as ->. by exists n.
  - intros (n & ps' & Hn & _ & -> & Hk) p [->|Hp]%elem_of_cons; [by exists n|]. by eapply kids_nodes.
Qed.

(** Pages added on the way from [ps] to [ps'], taken from the end of the
    file, whose last page went from [last] to [last']. *)
Definition grown (ps ps' : list N) (last last' : N) : Prop :=
  NoDup ps' /\ forall q, q ∈ ps' -> q ∈ ps \/ (last < q <= last')%N.

Lemma grown_refl ps last : NoDup ps -> grown ps ps last last.
Proof. split; [done|by left]. Qed.

Lemma grown_trans ps1 ps2 ps3 l1 l2 l3 :
  (l1 <= l2)%N -> (l2 <= l3)%N -> grown ps1 ps2 l1 l2 -> grown ps2 ps3 l2 l3 -> grown ps1 ps3 l1 l3.
Proof.
  intros H1 H2 [_ G1] [N2 G2]. split; [done|]. intros q Hq. destruct (G2 q Hq) as [Hq2|Hq2]; [|right; lia].
  destruct (G1 q Hq2); [by left|right; lia].
Qed.

Lemma grown_focus pid ps1 psm ps2 psm' l l' :
  NoDup (pid :: ps1 ++ psm ++ ps2) -> (forall q, q ∈ pid :: ps1 ++ psm ++ ps2 -> (q <= l)%N) -> grown psm psm' l l' ->
  grown (pid :: ps1 ++ psm ++ ps2) (pid :: ps1 ++ psm' ++ ps2) l l'.
Proof.
  intros Hnd Hl [N' G]. apply NoDup_cons in Hnd as [Hp Hnd]. apply NoDup_app in Hnd as (A1 & A2 & (A3 & A4 & A5)%NoDup_app).
  rewrite !not_elem_of_app in Hp. destruct Hp as (P1 & P2 & P3).
  assert (Hout : forall q, q ∈ pid :: ps1 ++ ps2 -> q ∉ psm -> q ∉ psm').
  { intros q Hq Hn Hq'. destruct (G q Hq') as [?|?]; [done|]. assert (q <= l)%N by (apply Hl; set_solver). lia. }
  split.
  - apply NoDup_cons. split; [rewrite !not_elem_of_app; split_and!; try done; apply Hout; set_solver|].
    apply NoDup_app. split_and!; [done| |].
    + intros q Hq. apply not_elem_of_app. split; [|set_solver]. apply Hout; set_solver.
    + apply NoDup_app. split_and!; [done| |done]. intros q Hq Hq2. apply (Hout q); [set_solver| |done]. intros Hm. by apply (A4 q).
  - intros q [->|[Hq|[Hq|Hq]%elem_of_app]%elem_of_app]%elem_of_cons; [left; by left|left; set_solver| |left; set_solver].
    destruct (G q Hq); [left; set_solver|by right].
Qed.

(** ** The reference: a sorted association list *)

Fixpoint put_entry (key : RowKey) (loc : rowLocation) (es : list entry) : list entry :=
  match es with
  | [] => [(key, loc)]
  | (k, l) :: es =>
      if String.eqb k key then (key, loc) :: es
      else if String.ltb k key then (k, l) :: put_entry key loc es
      else (key, loc) :: (k, l) :: es
  end.

Definition del_entry (key : RowKey) (es : list entry) : list entry := filter (fun e => e.1 <> key) es.

Definition get_entry (key : RowKey) (es : list entry) : option rowLocation := (list_to_map es : gmap RowKey rowLocation) !! key.

Definition below (key : RowKey) (es : list entry) : Prop := Forall (fun k => str_lt k key) es.*1.
Definition above (key : RowKey) (es : list entry) : Prop := Forall (fun k => str_lt key k) es.*1.

Lemma below_notin key es : below key es -> key ∉ es.*1.
Proof. unfold below. rewrite Forall_forall. intros Hb Hin. apply Hb in Hin. by apply (irreflexivity str_lt) in Hin. Qed.

Lemma above_notin key es : above key es -> key ∉ es.*1.
Proof. unfold above. rewrite Forall_forall. intros Hb Hin. apply Hb in Hin. by apply (irreflexivity str_lt) in Hin. Qed.

Lemma put_entry_below key loc es1 es2 : below key es1 -> put_entry key loc (es1 ++ es2) = es1 ++ put_entry key loc es2.
Proof.
  induction es1 as [|[k l] es1 IH]; [done|]. intros Hb. apply Forall_cons in Hb as [Hk Hb]. cbn [app put_entry]. cbn in Hk.
  rewrite (proj2 (String.eqb_neq k key)). 2: { intros ->. by apply (irreflexivity str_lt) in Hk. }
  unfold str_lt in Hk. rewrite Hk. f_equal. by apply IH.
Qed.

Lemma put_entry_above key loc es : above key es -> put_entry key loc es = (key, loc) :: es.
Proof.
  destruct es as [|[k l] es]; [done|]. intros Hb. apply Forall_cons in Hb as [Hk _]. cbn in Hk |- *.
  rewrite (proj2 (String.eqb_neq k key)). 2: { intros ->. by apply (irreflexivity str_lt) in Hk. }
  by rewrite (str_ltb_asym _ _ Hk).
Qed.

Lemma put_entry_mid key loc es es2 : above key es2 -> put_entry key loc (es ++ es2) = put_entry key loc es ++ es2.
Proof.
  intros Ha. induction es as [|[k l] es IH]; [by apply put_entry_above|]. cbn [app put_entry].
  destruct (String.eqb k key); [done|]. destruct (String.ltb k key); [|done]. by rewrite IH.
Qed.

Lemma del_entry_none key es : key ∉ es.*1 -> del_entry key es = es.
Proof.
  intros Hn. unfold del_entry. induction es as [|[k l] es IH]; [done|]. cbn in Hn. apply not_elem_of_cons in Hn as [Hk Hn].
  rewrite filter_cons_True by (by cbn; apply not_eq_sym). by rewrite IH.
Qed.

Lemma del_entry_app key es1 es2 : del_entry key (es1 ++ es2) = del_entry key es1 ++ del_entry key es2.
Proof. apply filter_app. Qed.

Lemma get_entry_focus key es1 es es2 : below key es1 -> above key es2 -> get_entry key (es1 ++ es ++ es2) = get_entry key es.
Proof.
  intros Hb Ha. unfold get_entry. rewrite list_to_map_app, lookup_union_r by (by apply not_elem_of_list_to_map_1, below_notin).
  rewrite list_to_map_app, lookup_union_l by (by apply not_elem_of_list_to_map_1, above_notin). done.
Qed.

Lemma list_to_map_put key loc es :
  NoDup es.*1 -> (list_to_map (put_entry key loc es) : gmap RowKey rowLocation) = <[key := loc]> (list_to_map es).
Proof.
  induction es as [|[k l] es IH]; [done|]. cbn [fmap list_fmap fst]. intros [Hk Hn]%NoDup_cons. cbn [put_entry].
  destruct (String.eqb_spec k key) as [->|Hne]; [by cbn; rewrite insert_insert_eq|]. destruct (String.ltb k key); [|done].
  cbn. rewrite IH by done. by apply insert_insert_ne.
Qed.

Lemma list_to_map_del key es :
  (list_to_map (del_entry key es) : gmap RowKey rowLocation) = delete key (list_to_map es).
Proof.
  induction es as [|[k l] es IH]; [symmetry; apply delete_empty|]. unfold del_entry. rewrite filter_cons. cbn [fst]. case_decide as Hk.
  - cbn. fold (del_entry key es). rewrite IH. by rewrite delete_insert_ne.
  - subst k. fold (del_entry key es). rewrite IH. cbn. by rewrite delete_insert_eq.
Qed.

Lemma put_entry_keys key loc es k : k ∈ (put_entry key loc es).*1 <-> k = key \/ k ∈ es.*1.
Proof.
  induction es as [|[k' l] es IH]; cbn [put_entry]; [set_solver|]. destruct (String.eqb_spec k' key) as [->|Hne]; [set_solver|].
  destruct (String.ltb k' key); set_solver.
Qed.

Lemma sorted_NoDup (l : list RowKey) : sorted l -> NoDup l.
Proof.
  induction 1 as [|x l Hs IH Hx]; constructor; [|done]. rewrite Forall_forall in Hx. intros Hin. apply Hx in Hin.
  by apply (irreflexivity str_lt) in Hin.
Qed.

(** ** The child a key leads to *)

(** Subtrees in a row, linked leaf to leaf. *)
Inductive links (T : subtree) : N -> N -> list entry -> list N -> Prop :=
| links_nil p : links T p p [] []
| links_cons c lo hi mid next first es1 es2 ps1 ps2 :
    T c lo hi mid first es1 ps1 -> links T mid next es2 ps2 -> links T first next (es1 ++ es2) (ps1 ++ ps2).

Lemma kids_links T ks cs lo hi next first es ps : kids T ks cs lo hi next first es ps -> links T first next es ps.
Proof.
  revert cs lo first es ps. induction ks as [|k ks IH]; intros cs lo first es ps.
  - destruct cs as [|c [|c' cs]]; cbn [kids]; [done| |done]. intros H. rewrite <-(app_nil_r es), <-(app_nil_r ps). by repeat econstructor.
  - destruct cs as [|c cs]; [done|]. cbn [kids]. intros (mid & es1 & es2 & ps1 & ps2 & H1 & H2 & -> & -> & H3 & H4).
    econstructor; [exact H3|]. by eapply IH.
Qed.

(** What the focus on a child leaves: the entries and pages around it, and
    how to put the node together again. *)
Record focus (T : subtree) (ks : list RowKey) (cs : list N) (i : nat) (key lo : RowKey) (hi : option RowKey)
    (next first : N) (es : list entry) (ps : list N) (c : N) (clo : RowKey) (chi : option RowKey)
    (cnext cfirst : N) (es1 esm es2 : list entry) (ps1 psm ps2 : list N) : Prop := {
  fo_child : cs !! i = Some c;
  fo_tree : T c clo chi cnext cfirst esm psm;
  fo_within : within clo chi key;
  fo_es : es = es1 ++ esm ++ es2;
  fo_ps : ps = ps1 ++ psm ++ ps2;
  fo_below : below key es1;
  fo_above : above key es2;
  fo_links : links T cnext next es2 ps2;
  fo_replace : forall (T' : subtree) esm' psm',
    (forall c lo hi n f es ps, T c lo hi n f es ps -> ps ⊆ ps1 ++ ps2 -> T' c lo hi n f es ps) ->
    T' c clo chi cnext cfirst esm' psm' -> kids T' ks cs lo hi next first (es1 ++ esm' ++ es2) (ps1 ++ psm' ++ ps2);
  fo_split : forall (T' : subtree) k' c2 mid esa esb psa psb,
    (forall c lo hi n f es ps, T c lo hi n f es ps -> ps ⊆ ps1 ++ ps2 -> T' c lo hi n f es ps) ->
    str_lt clo k' -> lt_hi k' chi -> T' c clo (Some k') mid cfirst esa psa -> T' c2 k' chi cnext mid esb psb ->
    kids T' (insert_nth i k' ks) (insert_nth (S i) c2 cs) lo hi next first (es1 ++ (esa ++ esb) ++ es2) (ps1 ++ (psa ++ psb) ++ ps2);
}.

Lemma kids_focus (T : subtree) ks cs key lo hi next first es ps :
  (forall c lo hi n f es ps, T c lo hi n f es ps -> ordered lo hi es) ->
  kids T ks cs lo hi next first es ps -> within lo hi key ->
  exists c clo chi cnext cfirst es1 esm es2 ps1 psm ps2,
    focus T ks cs (internalChildIdx ks key) key lo hi next first es ps c clo chi cnext cfirst es1 esm es2 ps1 psm ps2.
Proof.
  intros HT. revert cs lo first es ps. induction ks as [|k ks IH]; intros cs lo first es ps Hk Hin.
  - destruct cs as [|c [|c' cs]]; cbn [kids] in Hk; [done| |done].
    exists c, lo, hi, next, first, [], es, [], [], ps, []. split; cbn [app internalChildIdx]; try done; try (by rewrite app_nil_r); try (by constructor).
    + intros T' esm' psm' _ H. rewrite !app_nil_r. done.
    + intros T' k' c2 mid esa esb psa psb _ H1 H2 Ha Hb. cbn. rewrite !app_nil_r. by exists mid, esa, esb, psa, psb.
  - destruct cs as [|c cs]; [done|]. cbn [kids] in Hk. destruct Hk as (mid & ea & eb & pa & pb & H1 & H2 & -> & -> & H3 & H4).
    cbn [internalChildIdx]. destruct (String.ltb key k) eqn:Hlt.
    + exists c, lo, (Some k), mid, first, [], ea, eb, [], pa, pb. split; cbn [app]; try done; try (by constructor).
      * split; [apply Hin|exact Hlt].
      * unfold above. destruct (kids_ordered T ks cs k hi next mid eb pb HT H4) as [_ F]. eapply Forall_impl; [exact F|].
        intros x [Hx _]. by eapply lt_ge_lo.
      * by eapply kids_links.
      * intros T' esm' psm' Hm H. exists mid, esm', eb, psm', pb. split_and!; try done. eapply kids_mono; [exact Hm|done|done].
      * intros T' k' c2 mid' esa esb psa psb Hm G1 G2 Ha Hb. cbn. rewrite <-!app_assoc.
        exists mid', esa, (esb ++ eb), psa, (psb ++ pb). split_and!; try done; [by eapply lt_hi_trans|].
        exists mid, esb, eb, psb, pb. split_and!; try done. eapply kids_mono; [exact Hm|done|done].
    + assert (Hge : ge_lo k key) by (apply str_ltb_false in Hlt as [->|?]; [by left|by right]).
      destruct (IH cs k mid eb pb H4 (conj Hge (proj2 Hin))) as (d & clo & chi & cnext & cfirst & es1 & esm & es2 & ps1 & psm & ps2 & F).
      exists d, clo, chi, cnext, cfirst, (ea ++ es1), esm, es2, (pa ++ ps1), psm, ps2. destruct F as [F1 F2 F3 F4 F5 F6 F7 F8 F9 F10].
      split; try done.
      * by rewrite F4, <-app_assoc.
      * by rewrite F5, <-app_assoc.
      * unfold below. rewrite fmap_app. apply Forall_app. split; [|done]. destruct (HT _ _ _ _ _ _ _ H3) as [_ F].
        eapply Forall_impl; [exact F|]. intros x [_ Hx]. by eapply lt_ge_lo.
      * intros T' esm' psm' Hm H. rewrite <-!app_assoc. cbn [kids]. exists mid, ea, (es1 ++ esm' ++ es2), pa, (ps1 ++ psm' ++ ps2).
        split_and!; try done; [apply Hm; [done|set_solver]|]. apply F9; [|done]. intros. apply Hm; [done|set_solver].
      * intros T' k' c2 mid' esa esb psa psb Hm G1 G2 Ha Hb. rewrite <-(app_assoc ea), <-(app_assoc pa).
        exists mid, ea, (es1 ++ (esa ++ esb) ++ es2), pa, (ps1 ++ (psa ++ psb) ++ ps2).
        split_and!; try done; [apply Hm; [done|set_solver]|]. eapply F10; try done. intros. apply Hm; [done|set_solver].
Qed.

(** A node cut at its separator [mid]. *)
Lemma kids_split (T : subtree) ks cs lo hi next first es ps mid k :
  kids T ks cs lo hi next first es ps -> ks !! mid = Some k ->
  exists m es1 es2 ps1 ps2, es = es1 ++ es2 /\ ps = ps1 ++ ps2 /\ str_lt lo k /\ lt_hi k hi
    /\ kids T (take mid ks) (take (S mid) cs) lo (Some k) m first es1 ps1
    /\ kids T (drop (S mid) ks) (drop (S mid) cs) k hi next m es2 ps2.
Proof.
  revert ks cs lo first es ps. induction mid as [|mid IH]; intros ks cs lo first es ps Hk Hm.
  - destruct ks as [|k0 ks]; [done|]. injection Hm as ->. destruct cs as [|c cs]; [done|]. cbn [kids] in Hk.
    destruct Hk as (m & ea & eb & pa & pb & H1 & H2 & -> & -> & H3 & H4). by exists m, ea, eb, pa, pb.
  - destruct ks as [|k0 ks]; [done|]. cbn in Hm. destruct cs as [|c cs]; [done|]. cbn [kids] in Hk.
    destruct Hk as (m0 & ea & eb & pa & pb & H1 & H2 & -> & -> & H3 & H4).
    destruct (IH ks cs k0 m0 eb pb H4 Hm) as (m & es1 & es2 & ps1 & ps2 & -> & -> & G1 & G2 & G3 & G4).
    exists m, (ea ++ es1), es2, (pa ++ ps1), ps2. rewrite !app_assoc. split_and!; try done; [by eapply lt_trans|].
    cbn [take kids]. exists m0, ea, es1, pa, ps1. by split_and!.
Qed.

(** ** The chain of leaves *)

(** The leaves from [p] up to [stop], [k] of them. *)
Inductive chain (nd : N -> option btreeNode) : N -> N -> list entry -> nat -> Prop :=
| chain_nil p : chain nd p p [] 0
| chain_cons p n stop rest k :
    nd p = Some n -> n_nodeType n = LeafNode -> length (n_values n) = length (n_keys n) ->
    chain nd (n_rightSibling n) stop rest k -> chain nd p stop (zip (n_keys n) (n_values n) ++ rest) (S k).

Lemma chain_app nd p q r es1 es2 k1 k2 : chain nd p q es1 k1 -> chain nd q r es2 k2 -> chain nd p r (es1 ++ es2) (k1 + k2).
Proof. induction 1; [done|]. rewrite <-app_assoc. cbn. intros. econstructor; eauto. Qed.

Lemma links_chain (nd : N -> option btreeNode) (T : subtree) first next es ps :
  (forall c lo hi n f es ps, T c lo hi n f es ps -> exists k, chain nd f n es k /\ k <= length ps) ->
  links T first next es ps -> exists k, chain nd first next es k /\ k <= length ps.
Proof.
  intros HT. induction 1 as [p|c lo hi mid next first es1 es2 ps1 ps2 H1 _ (k2 & C2 & L2)]; [exists 0; split; [constructor|done]|].
  destruct (HT _ _ _ _ _ _ _ H1) as (k1 & C1 & L1). exists (k1 + k2). rewrite length_app. split; [by eapply chain_app|lia].
Qed.

Lemma bt_chain nd h pid lo hi next first es ps :
  bt nd h pid lo hi next first es ps -> exists k, chain nd first next es k /\ k <= length ps.
Proof.
  revert pid lo hi next first es ps. induction h as [|h IH]; intros pid lo hi next first es ps; cbn [bt].
  - intros (n & Hn & HL & <- & -> & ->). exists 1. split; [|done]. destruct (leaf_lengths _ _ _ _ _ HL) as [Hl _].
    destruct HL as (_ & _ & _ & Ht & -> & _). rewrite <-(app_nil_r (zip _ _)). repeat (econstructor; try done).
  - intros (n & ps' & Hn & HI & -> & Hk). destruct (links_chain nd _ first next es ps' IH (kids_links _ _ _ _ _ _ _ _ _ Hk)) as (k & C & L).
    exists k. split; [done|]. cbn. lia.
Qed.

(** ** Leaves *)

Definition leaf_of (es : list entry) (right pid : N) : btreeNode := mkNode LeafNode es.*1 [] es.*2 right pid.

Definition entry_ok (e : entry) : Prop := (klen e.1 <= MaxKey)%N /\ (rl_pageID e.2 < two64)%N /\ (rl_slotID e.2 < two32)%N.

Lemma leaf_of_ok es right pid lo hi :
  ordered lo hi es -> Forall entry_ok es -> length es <= BTreeOrder -> (right < two64)%N ->
  leaf_node (leaf_of es right pid) pid lo hi es.
Proof.
  intros [Hs Hw] He Hl Hr. unfold leaf_node, small_keys. cbn [leaf_of n_keys n_values n_nodeType n_pageID].
  assert (Hk : Forall (fun k => klen k <= MaxKey)%N es.*1) by (apply Forall_fmap; eapply Forall_impl; [exact He|]; by intros e [? _]).
  rewrite length_fmap. split_and!; try done; [|by rewrite zip_fst_snd].
  split; cbn [leaf_of n_keys n_values n_nodeType n_children n_rightSibling]; [rewrite length_fmap; unfold BTreeOrder in Hl; lia| |done|].
  - eapply Forall_impl; [exact Hk|]. unfold MaxKey. cbn. lia.
  - left. rewrite !length_fmap. split_and!; try done. apply Forall_fmap. eapply Forall_impl; [exact He|]. by intros e [_ ?].
Qed.

Lemma leaf_node_of n pid lo hi es :
  leaf_node n pid lo hi es ->
  n = leaf_of es (n_rightSibling n) pid /\ ordered lo hi es /\ Forall entry_ok es /\ length es <= BTreeOrder /\ (n_rightSibling n < two64)%N.
Proof.
  intros HL. destruct (leaf_keys _ _ _ _ _ HL) as [E1 E2]. destruct (leaf_lengths _ _ _ _ _ HL) as [El Ec].
  destruct HL as ([_ _ Hr Hk] & (Hl & Hks) & Hp & Ht & Ez & Hs & Hw). split_and!; try done.
  - unfold leaf_of. rewrite E1, E2. destruct n. cbn in *. congruence.
  - unfold ordered. by rewrite E1.
  - destruct Hk as [(_ & _ & _ & Hv)|(Hk & _)]; [|by rewrite Ht in Hk].
    rewrite <-E1 in Hks. rewrite <-E2 in Hv. rewrite Forall_forall in Hks. rewrite Forall_forall in Hv. apply Forall_forall. intros e He.
    split; [apply Hks|apply Hv]; by apply list_elem_of_fmap_2.
  - rewrite <-(length_fmap fst), E1. done.
Qed.

Lemma lookup_fst es i (k : RowKey) : es.*1 !! i = Some k -> exists l : rowLocation, es !! i = Some (k, l).
Proof. rewrite list_lookup_fmap. intros ([k' l] & Hi & ->)%fmap_Some. by exists l. Qed.

Lemma take_below key es i :
  (forall j k, es.*1 !! j = Some k -> j < i -> str_lt k key) -> below key (take i es).
Proof.
  intros Hj. unfold below. rewrite fmap_take. apply Forall_lookup. intros j k Hk. apply lookup_take_Some in Hk as [Hk Hl]. by eapply Hj.
Qed.

Lemma drop_above key es i :
  (forall j k, es.*1 !! j = Some k -> i <= j -> str_lt key k) -> above key (drop i es).
Proof.
  intros Hj. unfold above. rewrite fmap_drop. apply Forall_lookup. intros j k Hk. rewrite lookup_drop in Hk. eapply Hj; [done|lia].
Qed.

Lemma leaf_found es key idx :
  sorted es.*1 -> leafSearch es.*1 key = (idx, true) ->
  exists l, es !! idx = Some (key, l) /\ es = take idx es ++ (key, l) :: drop (S idx) es
    /\ below key (take idx es) /\ above key (drop (S idx) es).
Proof.
  intros Hs Hf. pose proof (leafSearch_spec es.*1 key Hs) as Hk. rewrite Hf in Hk. destruct (lookup_fst es idx key Hk) as [l Hl].
  exists l. split; [done|]. split; [by rewrite take_drop_middle|]. split.
  - apply take_below. intros j k Hj Hi. by eapply (sorted_lookup es.*1 j idx).
  - apply drop_above. intros j k Hj Hi. by eapply (sorted_lookup es.*1 idx j); try done.
Qed.

Lemma leaf_absent es key idx :
  sorted es.*1 -> leafSearch es.*1 key = (idx, false) ->
  idx <= length es /\ below key (take idx es) /\ above key (drop idx es).
Proof.
  intros Hs Hf. pose proof (leafSearch_spec es.*1 key Hs) as Hk. rewrite Hf, length_fmap in Hk. destruct Hk as [Hl Hk]. split; [done|].
  split; [apply take_below|apply drop_above]; intros j k Hj Hi; by apply (Hk j k Hj).
Qed.

Lemma insert_nth_fmap {A B} (f : A -> B) i x l : insert_nth i (f x) (f <$> l) = f <$> insert_nth i x l.
Proof. unfold insert_nth. by rewrite <-fmap_take, <-fmap_drop, fmap_app. Qed.

Lemma leaf_search_get es key :
  sorted es.*1 ->
  match leafSearch es.*1 key with
  | (idx, true) => exists l, es.*2 !! idx = Some l /\ get_entry key es = Some l
  | (idx, false) => get_entry key es = None
  end.
Proof.
  intros Hs. destruct (leafSearch es.*1 key) as [idx [|]] eqn:Hf.
  - destruct (leaf_found es key idx Hs Hf) as (l & Hl & E & Hb & Ha). exists l. split; [by rewrite list_lookup_fmap, Hl|].
    rewrite E. change ((key, l) :: drop (S idx) es) with ([(key, l)] ++ drop (S idx) es). rewrite get_entry_focus by done.
    unfold get_entry. cbn. by rewrite lookup_insert_eq.
  - destruct (leaf_absent es key idx Hs Hf) as (Hl & Hb & Ha). rewrite <-(take_drop idx es).
    change (drop idx es) with ([] ++ drop idx es). by rewrite get_entry_focus.
Qed.

Lemma leaf_search_put es key loc :
  sorted es.*1 ->
  match leafSearch es.*1 key with
  | (idx, true) => es.*1 = (put_entry key loc es).*1 /\ <[idx := loc]> es.*2 = (put_entry key loc es).*2
                   /\ length (put_entry key loc es) = length es
  | (idx, false) => insert_nth idx key es.*1 = (put_entry key loc es).*1 /\ insert_nth idx loc es.*2 = (put_entry key loc es).*2
                    /\ length (put_entry key loc es) = S (length es)
  end.
Proof.
  intros Hs. destruct (leafSearch es.*1 key) as [idx [|]] eqn:Hf.
  - destruct (leaf_found es key idx Hs Hf) as (l & Hl & E & Hb & Ha). apply lookup_lt_Some in Hl as Hlt.
    assert (Ep : put_entry key loc es = <[idx := (key, loc)]> es).
    { rewrite E at 1. rewrite put_entry_below by done. cbn [put_entry]. rewrite String.eqb_refl.
      by rewrite insert_take_drop. }
    rewrite Ep, !list_fmap_insert, length_insert. split_and!; try done. symmetry. apply list_insert_id. by rewrite list_lookup_fmap, Hl.
  - destruct (leaf_absent es key idx Hs Hf) as (Hl & Hb & Ha).
    assert (Ep : put_entry key loc es = insert_nth idx (key, loc) es).
    { rewrite <-(take_drop idx es) at 1. by rewrite put_entry_below, put_entry_above. }
    rewrite Ep, <-!insert_nth_fmap. split_and!; try done. unfold insert_nth. rewrite length_app. cbn. rewrite length_take, length_drop. lia.
Qed.

Lemma leaf_search_del es key :
  sorted es.*1 ->
  match leafSearch es.*1 key with
  | (idx, true) => delete idx es.*1 = (del_entry key es).*1 /\ delete idx es.*2 = (del_entry key es).*2
  | (idx, false) => del_entry key es = es
  end.
Proof.
  intros Hs. destruct (leafSearch es.*1 key) as [idx [|]] eqn:Hf.
  - destruct (leaf_found es key idx Hs Hf) as (l & Hl & E & Hb & Ha).
    assert (Ep : del_entry key es = delete idx es).
    { rewrite E at 1. rewrite del_entry_app, del_entry_none by (by apply below_notin). unfold del_entry at 1.
      rewrite filter_cons_False by (by cbn; intros []). fold (del_entry key (drop (S idx) es)).
      rewrite del_entry_none by (by apply above_notin). by rewrite delete_take_drop. }
    by rewrite Ep, !list_fmap_delete.
  - destruct (leaf_absent es key idx Hs Hf) as (Hl & Hb & Ha). rewrite <-(take_drop idx es) at 1. rewrite del_entry_app.
    rewrite (del_entry_none key (take idx es)) by (by apply below_notin).
    rewrite (del_entry_none key (drop idx es)) by (by apply above_notin). apply take_drop.
Qed.

(** ** The order kept *)

Lemma ordered_put lo hi es key loc : ordered lo hi es -> within lo hi key -> ordered lo hi (put_entry key loc es).
Proof.
  intros [Hs Hw] Hk. split.
  - induction es as [|[k l] es IH]; cbn [put_entry]; [by repeat constructor|]. cbn [fmap list_fmap fst] in Hs, Hw.
    apply StronglySorted_inv in Hs as [Hs Hlt]. apply Forall_cons in Hw as [Hkw Hw].
    destruct (String.eqb_spec k key) as [->|Hne]; [by constructor|]. destruct (String.ltb k key) eqn:Hc.
    + cbn. constructor; [by apply IH|]. rewrite Forall_forall in Hlt. apply Forall_forall. intros x [->|Hx]%put_entry_keys; [exact Hc|by apply Hlt].
    + assert (Hkk : str_lt key k) by (apply str_ltb_false in Hc as [?|?]; [congruence|done]).
      cbn. constructor; [by constructor|]. constructor; [done|]. eapply Forall_impl; [exact Hlt|]. intros x Hx. by eapply lt_trans.
  - rewrite Forall_forall in Hw. apply Forall_forall. intros x [->|Hx]%put_entry_keys; [done|by apply Hw].
Qed.

Lemma ordered_del lo hi es key : ordered lo hi es -> ordered lo hi (del_entry key es).
Proof.
  intros [Hs Hw]. unfold ordered, del_entry. induction es as [|[k l] es IH]; [done|]. cbn [fmap list_fmap fst] in Hs, Hw.
  apply StronglySorted_inv in Hs as [Hs Hlt]. apply Forall_cons in Hw as [Hkw Hw]. destruct (IH Hs Hw) as [I1 I2].
  rewrite filter_cons. case_decide; [|done]. cbn. split; [|by constructor]. constructor; [done|].
  rewrite Forall_forall in Hlt. apply Forall_forall. intros x ([k' l'] & -> & Hx)%list_elem_of_fmap. apply list_elem_of_filter in Hx as [_ Hx].
  apply Hlt. by apply (list_elem_of_fmap_2 fst) in Hx.
Qed.

Lemma ordered_cut lo hi es mid k l :
  ordered lo hi es -> es !! mid = Some (k, l) -> 0 < mid ->
  ordered lo (Some k) (take mid es) /\ ordered k hi (drop mid es) /\ str_lt lo k /\ lt_hi k hi.
Proof.
  intros [Hs Hw] Hk Hm. assert (Hk1 : es.*1 !! mid = Some k) by (by rewrite list_lookup_fmap, Hk).
  pose proof (proj1 (Forall_lookup _ _) Hw) as Hwl. unfold ordered. rewrite fmap_take, fmap_drop.
  assert (Hst : forall (i : nat) (ks : list RowKey), sorted ks -> sorted (take i ks) /\ sorted (drop i ks)).
  { intros i ks Hks. revert i. induction Hks as [|x ks Hks IH Hx]; intros i; [by rewrite take_nil, drop_nil; split; constructor|].
    destruct i as [|i]; cbn; [split; constructor; done|]. destruct (IH i) as [I1 I2]. split; [|done]. constructor; [done|by apply Forall_take]. }
  destruct (Hst mid _ Hs) as [S1 S2]. split; [split; [done|]|split; [split; [done|]|split]].
  - apply Forall_lookup. intros i x Hx. apply lookup_take_Some in Hx as [Hx Hi]. split; [apply (Hwl i x Hx)|]. by eapply (sorted_lookup es.*1 i mid).
  - apply Forall_lookup. intros i x Hx. rewrite lookup_drop in Hx. split; [|apply (Hwl _ _ Hx)]. destruct i as [|i].
    + rewrite Nat.add_0_r, Hk1 in Hx. left. congruence.
    + right. eapply (sorted_lookup es.*1 mid _); [done|done|exact Hx|lia].
  - destruct (lookup_lt_is_Some_2 es.*1 0) as [x Hx]; [apply lookup_lt_Some in Hk1; lia|].
    eapply ge_lo_lt; [apply (Hwl 0 x Hx)|]. by eapply (sorted_lookup es.*1 0 mid).
  - apply (Hwl mid k Hk1).
Qed.

Lemma entries_put es key loc : Forall entry_ok es -> entry_ok (key, loc) -> Forall entry_ok (put_entry key loc es).
Proof.
  intros He Hk. induction He as [|[k l] es Hx He IH]; cbn [put_entry]; [by constructor|].
  destruct (String.eqb k key); [by constructor|]. destruct (String.ltb k key); [by constructor|]. constructor; [done|by constructor].
Qed.

Lemma entries_del es key : Forall entry_ok es -> Forall entry_ok (del_entry key es).
Proof.
  rewrite !Forall_forall. intros He e Hin. apply list_elem_of_filter in Hin as [_ Hin]. by apply He.
Qed.

Lemma length_del es key : length (del_entry key es) <= length es.
Proof. unfold del_entry. apply length_filter. Qed.

(** ** Internal nodes *)

Lemma internal_of n pid ks cs :
  n_nodeType n = InternalNode -> n_values n = [] -> n_pageID n = pid -> (n_rightSibling n < two64)%N ->
  length cs = S (length ks) -> length ks <= BTreeOrder -> Forall (fun k => klen k <= MaxKey)%N ks -> Forall (fun c => c < two64)%N cs ->
  internal_node (with_keys_children n ks cs) pid.
Proof.
  intros Ht Hv Hp Hr Hc Hl Hk Hcs. unfold internal_node, small_keys. cbn [with_keys_children n_keys n_pageID n_nodeType].
  split_and!; try done. split; cbn [with_keys_children n_keys n_values n_children n_nodeType n_rightSibling]; try done.
  - unfold BTreeOrder in Hl. lia.
  - eapply Forall_impl; [exact Hk|]. unfold MaxKey. cbn. lia.
  - right. split_and!; done.
Qed.

Lemma length_insert_nth {A} i (x : A) l : length (insert_nth i x l) = S (length l).
Proof. unfold insert_nth. rewrite length_app. cbn. rewrite length_take, length_drop. lia. Qed.

Lemma Forall_insert_nth {A} (P : A -> Prop) i x l : P x -> Forall P l -> Forall P (insert_nth i x l).
Proof. intros Hx Hl. unfold insert_nth. apply Forall_app. split; [by apply Forall_take|]. constructor; [done|by apply Forall_drop]. Qed.
