(* ===== verification/BTreeInv.v ===== *)
(** * The B+ tree over the buffer pool

    Reading, allocating and writing nodes through the pool, then the
    operations of the tree: a search, an insert with its splits, a delete and
    a walk along the leaves do on the pages what [get_entry], [put_entry],
    [del_entry] and a filter do on the sorted list of entries. *)

From Stdlib Require Import ZArith NArith Lia Strings.Byte String Sorted.
From stdpp Require Import base tactics numbers list gmap strings.
From S2P Require Import Prelude Types Storage WalRecord Page Heap Wal Pool PoolInv PoolPins PagedTable PagedInv BTree BTreeNode BTreeShape.

Section Steps.
Context {W : Type} `{HF : Flusher W}.
Implicit Types b : BufferPool W.

(** ** Steps on one file *)

(** Only pages of [t] change; pins change by [d]. *)
Record tstep (t : string) (d : string * N -> Z) b b' : Prop := {
  ts_safe : safe b';
  ts_cap : bp_capacity b' = bp_capacity b;
  ts_pin : forall x, pin_of b' x = (pin_of b x + d x)%Z;
  ts_page : forall x, x.1 <> t -> page_of b' x = page_of b x;
  ts_info : forall t', t' <> t -> heap_info b' t' = heap_info b t';
  ts_settled : forall x, x.1 <> t -> settled b x -> settled b' x;
  ts_frames : forall x fid, bp_frames b !! x = Some fid -> (0 < pin_of b x)%Z -> bp_frames b' !! x = Some fid;
}.

Lemma tstep_refl t b : safe b -> tstep t (fun _ => 0%Z) b b.
Proof. intros Hs. split; try done. intros x. lia. Qed.

Lemma tstep_trans t d1 d2 b1 b2 b3 :
  (forall x, 0 <= d1 x)%Z -> tstep t d1 b1 b2 -> tstep t d2 b2 b3 -> tstep t (fun x => d1 x + d2 x)%Z b1 b3.
Proof.
  intros Hd [A0 A1 A2 A3 A4 A5 A6] [B0 B1 B2 B3 B4 B5 B6]. split; [done|congruence| | | | |].
  - intros x. rewrite B2, A2. lia.
  - intros x Hx. by rewrite B3, A3.
  - intros t' Ht. by rewrite B4, A4.
  - intros x Hx Hs. auto.
  - intros x fid Hx Hp. apply B6; [by apply A6|]. specialize (Hd x). rewrite A2. lia.
Qed.

Lemma tstep_ext t d1 d2 b b' : (forall x, d1 x = d2 x) -> tstep t d1 b b' -> tstep t d2 b b'.
Proof. intros Hd [A0 A1 A2 A3 A4 A5 A6]. split; try done. intros x. by rewrite A2, Hd. Qed.

Lemma tstep_quiet t d b b' : quiet d b b' -> safe b' -> tstep t d b b'.
Proof. intros [A0 A1 A2 A3 A4 A5 A6] Hs. split; try done; intros; eauto. Qed.

Lemma tstep_then t b1 b2 b3 : tstep t (fun _ => 0%Z) b1 b2 -> tstep t (fun _ => 0%Z) b2 b3 -> tstep t (fun _ => 0%Z) b1 b3.
Proof. intros S1 S2. exact (tstep_trans t _ _ _ _ _ (fun _ => Z.le_refl 0) S1 S2). Qed.

(** A page pinned at the start is unpinned at the end. *)
Lemma tstep_close t x b1 b2 b3 : tstep t (one x 1) b1 b2 -> tstep t (one x (-1)) b2 b3 -> tstep t (fun _ => 0%Z) b1 b3.
Proof.
  intros S1 S2. eapply tstep_ext; [|eapply tstep_trans; [|exact S1|exact S2]].
  - intros y. unfold one. case_decide; lia.
  - intros y. by apply one_nonneg.
Qed.

Lemma tstep_room t b b' k : tstep t (fun _ => 0%Z) b b' -> room b k -> room b' k.
Proof. intros S. apply room_pins; [apply S|]. intros x. rewrite (ts_pin _ _ _ _ S). lia. Qed.

Lemma tstep_index t b b' : tstep t (fun _ => 0%Z) b b' -> index_step (eq t) b b'.
Proof.
  intros [A0 A1 A2 A3 A4 A5 A6]. split; try done.
  - intros x. rewrite A2. lia.
  - intros x Hx. by apply A3, not_eq_sym.
  - intros t' Ht. by apply A4, not_eq_sym.
  - intros x Hx. by apply A5, not_eq_sym.
Qed.

(** ** Nodes of a file *)

Definition node_at b (t : string) (pid : N) : option btreeNode :=
  match page_of b (t, pid) with
  | Some p => match decodeNode pid (payload p) with Ok n => Some n | Err _ => None end
  | None => None
  end.

(** A file of tree pages: its last page and what its meta page holds. *)
Record tree_file b (t : string) (last : N) (fl : list N) (nm : string) : Prop := {
  tf_info : heap_info b t = Some (last, fl, nm);
  tf_last : (last < two64)%N;
  tf_raw : forall pid p, page_of b (t, pid) = Some p -> raw p;
}.

Lemma tree_file_quiet d b b' t last fl nm : quiet d b b' -> tree_file b t last fl nm -> tree_file b' t last fl nm.
Proof.
  intros Q [A1 A2 A3]. split; [by rewrite (qt_info _ _ _ Q)|done|]. intros pid p. rewrite (qt_page _ _ _ Q). apply A3.
Qed.

Lemma node_at_quiet d b b' t pid : quiet d b b' -> node_at b' t pid = node_at b t pid.
Proof. intros Q. unfold node_at. by rewrite (qt_page _ _ _ Q). Qed.

Lemma node_range b t pid n last fl nm :
  safe b -> heap_info b t = Some (last, fl, nm) -> node_at b t pid = Some n -> (1 <= pid <= last)%N.
Proof.
  intros [HP _] Hi. unfold node_at. destruct (page_of b (t, pid)) as [p|] eqn:Hp; [|done]. intros _.
  apply page_of_wf in Hp as [Hin _]; [|done]. apply in_file_info in Hin as (l & fl' & nm' & Hi' & Hr). cbn [fst snd] in *.
  rewrite Hi in Hi'. by injection Hi' as <- _ _.
Qed.

Lemma readNode_ok b T pid n last fl nm :
  safe b -> room b 1 -> tree_file b (bt_tableID T) last fl nm -> node_at b (bt_tableID T) pid = Some n ->
  exists b1 fid p, readNode b T pid = Some (b1, Ok (n, fid)) /\ opened b b1 (bt_tableID T, pid) fid p /\ raw p.
Proof.
  intros Hs Hroom F Hn. pose proof (node_range _ _ _ _ _ _ _ Hs (tf_info _ _ _ _ _ F) Hn) as Hr.
  assert (Hin : in_file b (bt_tableID T, pid)) by (apply in_file_info; exists last, fl, nm; split; [apply F|done]).
  destruct (fetch_open b _ _ Hs Hin Hroom) as (b1 & fid & p & E & O). exists b1, fid, p.
  pose proof (op_page _ _ _ _ _ O) as Hp. unfold node_at in Hn. rewrite Hp in Hn.
  split; [|split; [done|by apply (tf_raw _ _ _ _ _ F pid)]]. unfold readNode. rewrite E, (op_fpage _ _ _ _ _ O). cbn [mbind option_bind].
  change (drop _ (pg_data p)) with (payload p). destruct (decodeNode pid (payload p)); [|done]. by injection Hn as ->.
Qed.

(** A node read and its page left as it is. *)
Lemma read_close b T pid n fid b1 p :
  opened b b1 (bt_tableID T, pid) fid p -> readNode b T pid = Some (b1, Ok (n, fid)) ->
  let b2 := UnpinPage b1 (bt_tableID T) pid false in quiet (fun _ => 0%Z) b b2 /\ safe b2.
Proof. intros O _. by eapply close_clean. Qed.

(** A node written to its pinned page. *)
Lemma flushNode_ok b T n fid p last fl nm :
  let x := (bt_tableID T, n_pageID n) in
  safe b -> tree_file b (bt_tableID T) last fl nm -> bp_frames b !! x = Some fid -> (0 < pin_of b x)%Z -> page_of b x = Some p ->
  node_ok n -> (node_size n <= maxDataBytes)%N ->
  exists b', flushNode b T n fid = Some (b', None) /\ tstep (bt_tableID T) (one x (-1)) b b' /\ tree_file b' (bt_tableID T) last fl nm
    /\ forall q, node_at b' (bt_tableID T) q = if decide (q = n_pageID n) then Some n else node_at b (bt_tableID T) q.
Proof.
  intros x Hs F Hx Hpin Hp Hn Hsz. pose proof (proj1 Hs) as HP. destruct (page_of_wf b x p HP Hp) as (_ & _ & Hid).
  destruct (writeNode_ok p n (tf_raw _ _ _ _ _ F _ p Hp) Hn Hsz) as (p' & Ew & Hr' & Hid' & Hd).
  assert (Hw' : page_wf p') by apply Hr'. assert (Hi' : pg_id p' = x.2) by congruence.
  destruct (set_page_pins b x fid p' HP Hx Hpin Hw' Hi') as (HP1 & Hpg & Hfr & Hcap & Hinf & Hpn & Hst).
  pose proof (set_page_safe b x fid p' Hs Hx Hpin Hw' Hi') as Hs1. set (b1 := set_page b fid p') in *.
  destruct (unpin_safe b1 (bt_tableID T) (n_pageID n) true Hs1) as [Q Hs2]; [by rewrite Hpn|by left|].
  set (b2 := UnpinPage _ _ _ _) in *. exists b2.
  assert (Hpg2 : forall y, page_of b2 y = if decide (y = x) then Some p' else page_of b y) by (intros y; by rewrite (qt_page _ _ _ Q)).
  split; [|split; [|split]].
  - unfold flushNode. rewrite <-(page_of_frame_page b x fid Hx), Hp. cbn [mbind option_bind]. by rewrite Ew.
  - split; [done|by rewrite (qt_cap _ _ _ Q)| | | | |].
    + intros y. by rewrite (qt_pin _ _ _ Q), Hpn.
    + intros y Hy. rewrite Hpg2, decide_False; [done|]. by intros ->.
    + intros t' _. by rewrite (qt_info _ _ _ Q), Hinf.
    + intros y Hy Hset. apply (qt_settled _ _ _ Q), Hst; [|done]. by intros ->.
    + intros y g Hg Hpy. apply (qt_frames _ _ _ Q); [by rewrite Hfr|by rewrite Hpn].
  - destruct F as [A1 A2 A3]. split; [by rewrite (qt_info _ _ _ Q), Hinf|done|]. intros q p0. rewrite Hpg2. case_decide; [|apply A3].
    by intros [= <-].
  - intros q. unfold node_at. rewrite Hpg2. unfold x. destruct (decide (q = n_pageID n)) as [->|Hq].
    + rewrite decide_True by done. by rewrite Hd.
    + by rewrite decide_False by congruence.
Qed.

(** A new page, pinned. *)
Lemma allocNode_ok b T nt last fl nm :
  let t := bt_tableID T in let id := (last + 1)%N in
  safe b -> room b 1 -> tree_file b t last fl nm -> (id < two64)%N -> (info_size fl nm <= MetaRoom)%N ->
  exists b' fid p, allocNode b T nt = Some (b', Ok (mkNode nt [] [] [] 0 id, fid)) /\ tstep t (one (t, id) 1) b b'
    /\ tree_file b' t id fl nm /\ bp_frames b' !! (t, id) = Some fid /\ page_of b' (t, id) = Some p
    /\ forall q, q <> id -> node_at b' t q = node_at b t q /\ page_of b' (t, q) = page_of b (t, q).
Proof.
  intros t id Hs Hroom [F1 F2 F3] Hid Hfit. pose proof Hs as [HP Hset].
  assert (Hsz : size (pinset b) < bp_capacity b) by (unfold room in Hroom; lia).
  destruct (new_quiet b t last fl nm HP F1 Hid Hfit Hsz) as (b' & fid & E & HP' & Hc & Hi & Hpg & Hx & Hpn & Hst & Hfr).
  assert (Hpgt : forall q, q <> id -> page_of b' (t, q) = page_of b (t, q)).
  { intros q Hq. rewrite Hpg, decide_False; [done|]. intros [= Hqq]. by apply Hq. }
  exists b', fid, (NewPage id). split; [|split; [|split; [|split; [|split]]]].
  - unfold allocNode. fold t. rewrite E. done.
  - split; [|done|done| | | |done].
    + split; [done|]. intros y. rewrite Hpn. pose proof (one_nonneg (t, (last + 1)%N) y 1 ltac:(lia)).
      destruct (Hset y); [left; by apply Hst|right; lia].
    + intros y Hy. rewrite Hpg, decide_False; [done|]. by intros ->.
    + intros t' Ht. by rewrite Hi, decide_False.
    + intros y _. apply Hst.
  - split; [by rewrite Hi, decide_True|done|]. intros q p. rewrite Hpg. case_decide; [|apply F3]. intros Hp. injection Hp as <-. by apply raw_NewPage.
  - done.
  - by rewrite Hpg, decide_True.
  - intros q Hq. unfold node_at. by rewrite (Hpgt q Hq).
Qed.
End Steps.

(** ** Operations *)

Section Ops.
Context {W : Type} `{HF : Flusher W}.
Implicit Types (b : BufferPool W) (T : BTree).

(** The subtree of the tree's file at a page. *)
Notation sub b T h := (bt (node_at b (bt_tableID T)) h).

Lemma sub_quiet d b b' T h pid lo hi next first es ps :
  quiet d b b' -> sub b T h pid lo hi next first es ps -> sub b' T h pid lo hi next first es ps.
Proof. intros Q. apply bt_frame. intros p _. by apply (node_at_quiet d). Qed.

Lemma quiet_then b1 b2 b3 : quiet (fun _ => 0%Z) b1 b2 -> quiet (fun _ => 0%Z) b2 b3 -> quiet (fun _ => 0%Z) b1 b3.
Proof. intros Q1 Q2. exact (pool_quiet_trans _ _ _ _ _ (fun _ => or_introl (Z.le_refl 0)) Q1 Q2). Qed.

Lemma quiet_room b b' k : quiet (fun _ => 0%Z) b b' -> room b k -> room b' k.
Proof. intros Q. apply room_pins; [apply Q|]. intros x. rewrite (qt_pin _ _ _ Q). lia. Qed.

Lemma leaf_is_leaf n pid lo hi es : leaf_node n pid lo hi es -> is_leaf n = true.
Proof. intros (_ & _ & _ & Ht & _). unfold is_leaf. by rewrite Ht. Qed.

Lemma internal_not_leaf n pid : internal_node n pid -> is_leaf n = false.
Proof. intros (_ & _ & _ & Ht). unfold is_leaf. by rewrite Ht. Qed.

Lemma search_leaf fuel b T pid lo hi next first es ps key last fl nm :
  safe b -> room b 1 -> tree_file b (bt_tableID T) last fl nm -> sub b T 0 pid lo hi next first es ps ->
  exists b', search (S fuel) b T pid key = Some (b', get_entry key es) /\ quiet (fun _ => 0%Z) b b' /\ safe b'.
Proof.
  intros Hs Hroom F (n & Hn & HL & _). cbn [search]. destruct (readNode_ok b T pid n _ _ _ Hs Hroom F Hn) as (b1 & fid & p & E & O & _).
  destruct (read_close _ _ _ _ _ _ _ O E) as [Q Hs2]. rewrite E. cbn [mbind option_bind]. rewrite (leaf_is_leaf _ _ _ _ _ HL).
  destruct (leaf_keys _ _ _ _ _ HL) as [<- E2]. pose proof HL as (_ & (Hso & _) & _)%leaf_node_of.
  pose proof (leaf_search_get es key Hso) as Hg. destruct (leafSearch es.*1 key) as [idx [|]].
  - destruct Hg as (l & Hl & ->). rewrite <-E2, Hl. cbn [mbind option_bind]. eexists. done.
  - rewrite Hg. eexists. done.
Qed.

Lemma search_ok h fuel b T pid lo hi next first es ps key last fl nm :
  h < fuel -> safe b -> room b 1 -> tree_file b (bt_tableID T) last fl nm ->
  sub b T h pid lo hi next first es ps -> within lo hi key ->
  exists b', search fuel b T pid key = Some (b', get_entry key es) /\ quiet (fun _ => 0%Z) b b' /\ safe b'.
Proof.
  revert fuel b pid lo hi next first es ps. induction h as [|h IH]; intros [|fuel] b pid lo hi next first es ps Hf Hs Hroom F Hb Hin; try lia.
  - by eapply search_leaf.
  - cbn [bt] in Hb. cbn [search]. destruct Hb as (n & ps' & Hn & HI & -> & Hk). destruct (readNode_ok b T pid n _ _ _ Hs Hroom F Hn) as (b1 & fid & p & E & O & _).
    destruct (read_close _ _ _ _ _ _ _ O E) as [Q Hs2]. rewrite E. cbn [mbind option_bind]. rewrite (internal_not_leaf _ _ HI).
    destruct (kids_focus _ _ _ key _ _ _ _ _ _ (bt_ordered _ h) Hk Hin) as (c & clo & chi & cn & cf & es1 & esm & es2 & ps1 & psm & ps2 & FO).
    unfold internalFindChild. rewrite (fo_child _ _ _ _ _ _ _ _ _ _ _ _ _ _ _ _ _ _ _ _ _ _ FO). cbn [mbind option_bind].
    destruct FO as [F1 F2 F3 -> F5 F6 F7 F8 F9 F10]. rewrite get_entry_focus by done. set (b2 := UnpinPage _ _ _ _) in *.
    destruct (IH fuel b2 c clo chi cn cf esm psm) as (b' & E' & Q' & Hs'); try done; [lia|by apply (quiet_room b)|by eapply tree_file_quiet|by eapply sub_quiet|].
    exists b'. split; [done|]. split; [by eapply quiet_then|done].
Qed.

(** A node read, changed and written back. *)
Lemma rewrite_node b b1 T pid fid p n last fl nm :
  tree_file b (bt_tableID T) last fl nm -> opened b b1 (bt_tableID T, pid) fid p -> n_pageID n = pid ->
  node_ok n -> (node_size n <= maxDataBytes)%N ->
  exists b', flushNode b1 T n fid = Some (b', None) /\ tstep (bt_tableID T) (fun _ => 0%Z) b b' /\ tree_file b' (bt_tableID T) last fl nm
    /\ forall q, node_at b' (bt_tableID T) q = if decide (q = pid) then Some n else node_at b (bt_tableID T) q.
Proof.
  intros F O <- Hn Hsz. pose proof (op_quiet _ _ _ _ _ O) as Q.
  assert (Hp1 : page_of b1 (bt_tableID T, n_pageID n) = Some p) by (rewrite (qt_page _ _ _ Q); apply (op_page _ _ _ _ _ O)).
  destruct (flushNode_ok b1 T n fid p last fl nm (op_safe _ _ _ _ _ O) (tree_file_quiet _ _ _ _ _ _ _ Q F)
    (op_frame _ _ _ _ _ O) (op_pin _ _ _ _ _ O) Hp1 Hn Hsz) as (b' & E & St & F' & Hq).
  - exists b'. split; [done|]. split; [|split; [done|]].
    + eapply tstep_close; [|exact St]. apply tstep_quiet; [exact Q|apply O].
    + intros q. rewrite Hq. case_decide; [done|]. by apply (node_at_quiet (one (bt_tableID T, n_pageID n) 1)).
Qed.

Lemma leaf_fits n pid lo hi es : leaf_node n pid lo hi es -> node_ok n /\ (node_size n <= maxDataBytes)%N.
Proof. intros (Hn & (Hl & Hk) & _). split; [done|]. by apply node_fits. Qed.

Lemma internal_fits n pid : internal_node n pid -> node_ok n /\ (node_size n <= maxDataBytes)%N.
Proof. intros (Hn & (Hl & Hk) & _). split; [done|]. by apply node_fits. Qed.

(** Subtrees beside the changed one stay. *)
Lemma frame_beside b b' T h ps1 psm ps2 :
  NoDup (ps1 ++ psm ++ ps2) -> (forall q, q ∈ ps1 ++ ps2 -> q ∉ psm -> node_at b' (bt_tableID T) q = node_at b (bt_tableID T) q) ->
  forall c lo hi n f es ps, sub b T h c lo hi n f es ps -> ps ⊆ ps1 ++ ps2 -> sub b' T h c lo hi n f es ps.
Proof.
  intros Hnd Hq c lo hi n f es ps Hb Hsub. eapply bt_frame; [|exact Hb]. intros q Hin. apply Hsub in Hin as Hin'. apply Hq; [done|].
  intros Hm. apply NoDup_app in Hnd as (_ & N1 & (_ & N2 & _)%NoDup_app). apply elem_of_app in Hin' as [Hin'|Hin'].
  - apply (N1 q Hin'). apply elem_of_app. by left.
  - by apply (N2 q Hm).
Qed.

Lemma deleteRec_ok h fuel b T pid lo hi next first es ps key last fl nm :
  h < fuel -> safe b -> room b 1 -> tree_file b (bt_tableID T) last fl nm ->
  sub b T h pid lo hi next first es ps -> NoDup ps -> within lo hi key ->
  exists b', deleteRec fuel b T pid key = Some (b', bool_decide (is_Some (get_entry key es)))
    /\ tstep (bt_tableID T) (fun _ => 0%Z) b b' /\ tree_file b' (bt_tableID T) last fl nm
    /\ sub b' T h pid lo hi next first (del_entry key es) ps
    /\ forall q, q ∉ ps -> node_at b' (bt_tableID T) q = node_at b (bt_tableID T) q.
Proof.
  revert fuel b pid lo hi next first es ps. induction h as [|h IH];
    intros [|fuel] b pid lo hi next first es ps Hf Hs Hroom F Hb Hnd Hin; try lia; cbn [deleteRec]; pose proof Hb as Hb0; cbn [bt] in Hb.
  - destruct Hb as (n & Hn & HL & Hr & -> & ->). destruct (readNode_ok b T pid n _ _ _ Hs Hroom F Hn) as (b1 & fid & p & E & O & _).
    rewrite E. cbn [mbind option_bind]. rewrite (leaf_is_leaf _ _ _ _ _ HL).
    destruct (leaf_keys _ _ _ _ _ HL) as [E1 E2]. destruct (leaf_node_of _ _ _ _ _ HL) as (En & Ho & He & Hl & Hrs).
    pose proof (leaf_search_get es key (proj1 Ho)) as Hg. pose proof (leaf_search_del es key (proj1 Ho)) as Hd.
    rewrite <-E1. destruct (leafSearch es.*1 key) as [idx [|]] eqn:Hls; cbn [negb].
    + destruct Hg as (l & Hlk & ->). destruct Hd as [D1 D2].
      assert (En' : with_keys_values n (delete idx es.*1) (delete idx (n_values n)) = leaf_of (del_entry key es) (n_rightSibling n) pid).
      { rewrite <-E2, D1, D2, En. done. }
      assert (HL' : leaf_node (leaf_of (del_entry key es) (n_rightSibling n) pid) pid lo hi (del_entry key es)).
      { apply leaf_of_ok; [by apply ordered_del|by apply entries_del|pose proof (length_del es key); lia|done]. }
      rewrite En'. destruct (leaf_fits _ _ _ _ _ HL') as [Hok Hsz].
      destruct (rewrite_node b b1 T pid fid p (leaf_of (del_entry key es) (n_rightSibling n) pid) last fl nm F O eq_refl Hok Hsz) as (b' & Ef & St & F' & Hq). rewrite Ef. cbn [mbind option_bind].
      exists b'. split_and!; try done.
      * eexists. rewrite Hq, decide_True by done. split; [done|]. by split_and!.
      * intros q Hnq. rewrite Hq, decide_False; [done|]. set_solver.
    + destruct (read_close _ _ _ _ _ _ _ O E) as [Q Hs2]. rewrite Hg, Hd. eexists. split_and!; try done.
      * by apply tstep_quiet.
      * by eapply tree_file_quiet.
      * by eapply sub_quiet.
      * intros q _. by eapply node_at_quiet.
  - destruct Hb as (n & ps' & Hn & HI & -> & Hk). destruct (readNode_ok b T pid n _ _ _ Hs Hroom F Hn) as (b1 & fid & p & E & O & _).
    destruct (read_close _ _ _ _ _ _ _ O E) as [Q Hs2]. rewrite E. cbn [mbind option_bind]. rewrite (internal_not_leaf _ _ HI).
    destruct (kids_focus _ _ _ key _ _ _ _ _ _ (bt_ordered _ h) Hk Hin) as (c & clo & chi & cn & cf & es1 & esm & es2 & ps1 & psm & ps2 & FO).
    destruct FO as [F1 F2 F3 -> -> F6 F7 F8 F9 F10]. rewrite F1. cbn [mbind option_bind]. set (b2 := UnpinPage _ _ _ _) in *.
    apply NoDup_cons in Hnd as [Hpid Hnd].
    destruct (IH fuel b2 c clo chi cn cf esm psm) as (b' & E' & St & F' & Hb' & Hq); try done;
      [lia|by apply (quiet_room b)|by eapply tree_file_quiet|by eapply sub_quiet|by apply NoDup_app in Hnd as (_ & _ & (? & _)%NoDup_app)|].
    rewrite get_entry_focus by done. exists b'. split; [done|]. split; [eapply tstep_then; [by apply tstep_quiet|done]|]. split; [done|].
    assert (Hq' : forall q, q ∉ psm -> node_at b' (bt_tableID T) q = node_at b (bt_tableID T) q).
    { intros q Hnq. rewrite (Hq q Hnq). by eapply node_at_quiet. }
    split.
    + exists n, (ps1 ++ psm ++ ps2). rewrite Hq' by set_solver. split_and!; try done. rewrite !del_entry_app.
      rewrite (del_entry_none key es1) by (by apply below_notin). rewrite (del_entry_none key es2) by (by apply above_notin).
      apply F9; [|done]. eapply frame_beside; [exact Hnd|]. intros q _ Hnm. by apply Hq'.
    + intros q Hnq. apply Hq'. set_solver.
Qed.

(** *** Inserts *)

(** A node cut in two: the page of [left] keeps its number, [right] gets the
    next one of the file. *)
Lemma split_write b b1 T pid fid p nt right left k last fl nm :
  tree_file b (bt_tableID T) last fl nm -> room b 2 -> opened b b1 (bt_tableID T, pid) fid p ->
  (pid <= last)%N -> (last + 1 < two64)%N -> (info_size fl nm <= MetaRoom)%N -> n_pageID right = (last + 1)%N -> n_pageID left = pid ->
  node_ok right /\ (node_size right <= maxDataBytes)%N -> node_ok left /\ (node_size left <= maxDataBytes)%N ->
  exists b2 fid2 b', allocNode b1 T nt = Some (b2, Ok (mkNode nt [] [] [] 0 (last + 1), fid2))
    /\ flush_halves b2 T pid right fid2 left fid k = Some (b', Ok (k, (last + 1)%N))
    /\ tstep (bt_tableID T) (fun _ => 0%Z) b b' /\ tree_file b' (bt_tableID T) (last + 1) fl nm
    /\ forall q, node_at b' (bt_tableID T) q =
         if decide (q = pid) then Some left else if decide (q = (last + 1)%N) then Some right else node_at b (bt_tableID T) q.
Proof.
  intros F Hroom O Hpid Hlast Hfit Er El [Rok Rsz] [Lok Lsz]. set (t := bt_tableID T) in *.
  pose proof (op_quiet _ _ _ _ _ O) as Q. pose proof (tree_file_quiet _ _ _ _ _ _ _ Q F) as F1.
  assert (Hroom1 : room b1 1) by (eapply room_one; [apply (qt_cap _ _ _ Q)|apply (qt_pin _ _ _ Q)|done]).
  destruct (allocNode_ok b1 T nt last fl nm (op_safe _ _ _ _ _ O) Hroom1 F1 Hlast Hfit) as (b2 & fid2 & p2 & Ea & S2 & F2 & Hx2 & Hp2 & Hq2).
  fold t in S2, F2, Hx2, Hp2, Hq2.
  assert (Hpin2 : (0 < pin_of b2 (t, n_pageID right))%Z).
  { rewrite Er, (ts_pin _ _ _ _ S2). unfold one. rewrite decide_True by done. pose proof (pin_of_nonneg b1 (t, (last + 1)%N) (proj1 (op_safe _ _ _ _ _ O))). lia. }
  destruct (flushNode_ok b2 T right fid2 p2 (last + 1) fl nm (ts_safe _ _ _ _ S2) F2) as (b3 & E3 & S3 & F3 & Hq3);
    [by rewrite Er|exact Hpin2|by rewrite Er|done|done|]. fold t in S3, F3, Hq3. rewrite Er in S3, Hq3.
  pose proof (tstep_close _ _ _ _ _ S2 S3) as S13.
  assert (Hne : pid <> (last + 1)%N) by lia.
  assert (Hpg3 : exists p3, page_of b3 (t, pid) = Some p3).
  { destruct (page_of b3 (t, pid)) as [p3|] eqn:Hp3; [by exists p3|]. exfalso.
    pose proof (in_file_page b3 (t, pid) (proj1 (ts_safe _ _ _ _ S3))) as Hf. rewrite Hp3 in Hf.
    destruct Hf as [? [=]]. apply in_file_info. exists (last + 1)%N, fl, nm. cbn [fst snd]. split; [apply F3|].
    pose proof (op_page _ _ _ _ _ O) as Hp.
    destruct (page_of_wf b1 (t, pid) p (proj1 (op_safe _ _ _ _ _ O))) as (Hin & _); [by rewrite (qt_page _ _ _ Q)|].
    apply in_file_info in Hin as (l' & fl' & nm' & Hi' & Hr). cbn [fst snd] in Hi', Hr. lia. }
  destruct Hpg3 as [p3 Hp3].
  destruct (flushNode_ok b3 T left fid p3 (last + 1) fl nm (ts_safe _ _ _ _ S3) F3) as (b4 & E4 & S4 & F4 & Hq4); try done.
  - rewrite El. apply (ts_frames _ _ _ _ S13); [apply (op_frame _ _ _ _ _ O)|apply (op_pin _ _ _ _ _ O)].
  - fold t. rewrite El, (ts_pin _ _ _ _ S13). pose proof (op_pin _ _ _ _ _ O). lia.
  - by rewrite El.
  - fold t in S4, F4, Hq4. rewrite El in S4, Hq4. exists b2, fid2, b4. split; [done|]. split; [|split; [|split; [done|]]].
    + unfold flush_halves. rewrite E3. cbn [mbind option_bind]. rewrite E4. cbn [mbind option_bind]. by rewrite Er.
    + eapply tstep_close; [|exact S4]. eapply tstep_ext; [|eapply tstep_trans; [|apply tstep_quiet; [exact Q|apply O]|exact S13]].
      * intros x. cbn. lia.
      * intros x. by apply one_nonneg.
    + intros q. rewrite Hq4. case_decide; [done|]. rewrite Hq3. case_decide as Hql; [done|].
      destruct (Hq2 q Hql) as [-> _]. by apply (node_at_quiet (one (t, pid) 1)).
Qed.

(** What a recursive insert reports is what happened to the subtree. *)
Definition inserted b T h pid lo hi next first es ps last last' (r : RowKey * N) : Prop :=
  (r = no_split /\ exists ps', sub b T h pid lo hi next first es ps' /\ grown ps ps' last last')
  \/ (exists k new mid es1 es2 ps1 ps2, r = (k, new) /\ new <> 0%N /\ (new < two64)%N /\ str_lt lo k /\ lt_hi k hi /\ (klen k <= MaxKey)%N
      /\ es = es1 ++ es2 /\ sub b T h pid lo (Some k) mid first es1 ps1 /\ sub b T h new k hi next mid es2 ps2
      /\ grown ps (ps1 ++ ps2) last last').

(** The pages outside of [ps] are as before. *)
Definition kept_beside b b' T (ps : list N) (last : N) : Prop :=
  forall q, q ∉ ps -> (q <= last)%N -> node_at b' (bt_tableID T) q = node_at b (bt_tableID T) q.

(** [k]: how many pages the file may have grown by. *)
Definition insert_done b b' T h pid lo hi next first es ps last fl nm (k : N) (r : RowKey * N) : Prop :=
  exists last', tstep (bt_tableID T) (fun _ => 0%Z) b b' /\ tree_file b' (bt_tableID T) last' fl nm /\ (last <= last' <= last + k)%N
    /\ inserted b' T h pid lo hi next first es ps last last' r /\ kept_beside b b' T ps last.

Lemma leaf_one b b1 T pid fid p lo hi next es last fl nm :
  tree_file b (bt_tableID T) last fl nm -> opened b b1 (bt_tableID T, pid) fid p ->
  ordered lo hi es -> Forall entry_ok es -> length es <= BTreeOrder -> (next < two64)%N ->
  exists b' r, flush_only b1 T (leaf_of es next pid) fid = Some (b', Ok r)
    /\ insert_done b b' T 0 pid lo hi next pid es [pid] last fl nm 1 r.
Proof.
  intros F O Ho He Hl Hr. pose proof (leaf_of_ok es next pid lo hi Ho He Hl Hr) as HL'. destruct (leaf_fits _ _ _ _ _ HL') as [Hok Hsz].
  destruct (rewrite_node b b1 T pid fid p (leaf_of es next pid) last fl nm F O eq_refl Hok Hsz) as (b' & Ef & St & F' & Hq).
  exists b', no_split. unfold flush_only. rewrite Ef. cbn [mbind option_bind]. split; [done|]. exists last. split_and!; try done; try lia.
  - left. split; [done|]. exists [pid]. split; [|apply grown_refl, NoDup_singleton]. eexists. rewrite Hq, decide_True by done. by split_and!.
  - intros q Hnq _. rewrite Hq, decide_False; [done|]. set_solver.
Qed.

Lemma leaf_two b b1 T pid fid p lo hi next es last fl nm mid k l :
  tree_file b (bt_tableID T) last fl nm -> room b 2 -> opened b b1 (bt_tableID T, pid) fid p ->
  ordered lo hi es -> Forall entry_ok es -> es !! mid = Some (k, l) -> 0 < mid <= BTreeOrder -> length es <= mid + BTreeOrder ->
  (next < two64)%N -> (1 <= pid <= last)%N -> (last + 1 < two64)%N -> (info_size fl nm <= MetaRoom)%N ->
  exists b2 fid2 b' r, allocNode b1 T LeafNode = Some (b2, Ok (mkNode LeafNode [] [] [] 0 (last + 1), fid2))
    /\ flush_halves b2 T pid (leaf_of (drop mid es) next (last + 1)) fid2 (leaf_of (take mid es) (last + 1) pid) fid k = Some (b', Ok r)
    /\ insert_done b b' T 0 pid lo hi next pid es [pid] last fl nm 1 r.
Proof.
  intros F Hroom O Ho He Hk Hm Hl Hr Hpid Hlast Hfit. destruct (ordered_cut lo hi es mid k l Ho Hk ltac:(lia)) as (OL & OR & Hlo & Hhi).
  assert (Hek : entry_ok (k, l)) by (by eapply (proj1 (Forall_lookup _ _) He mid)).
  assert (HR : leaf_node (leaf_of (drop mid es) next (last + 1)) (last + 1) k hi (drop mid es)).
  { apply leaf_of_ok; [done|by apply Forall_drop|rewrite length_drop; lia|done]. }
  assert (HLf : leaf_node (leaf_of (take mid es) (last + 1) pid) pid lo (Some k) (take mid es)).
  { apply leaf_of_ok; [done|by apply Forall_take|rewrite length_take; lia|done]. }
  destruct (split_write b b1 T pid fid p LeafNode (leaf_of (drop mid es) next (last + 1)) (leaf_of (take mid es) (last + 1) pid) k
    last fl nm F Hroom O ltac:(lia) Hlast Hfit eq_refl eq_refl (leaf_fits _ _ _ _ _ HR) (leaf_fits _ _ _ _ _ HLf))
    as (b2 & fid2 & b' & Ea & Ef & St & F' & Hq).
  exists b2, fid2, b', (k, (last + 1)%N). split; [done|]. split; [done|]. exists (last + 1)%N. split_and!; try done; try lia.
  - right. exists k, (last + 1)%N, (last + 1)%N, (take mid es), (drop mid es), [pid], [(last + 1)%N].
    split_and!; try done; try lia; [apply Hek|by rewrite take_drop| | |].
    + eexists. rewrite Hq, decide_True by done. by split_and!.
    + eexists. rewrite Hq, decide_False, decide_True by lia. by split_and!.
    + split; [|intros q; rewrite elem_of_app, !list_elem_of_singleton; intros [->| ->]; [left; set_solver|right; lia]].
      cbn. apply NoDup_cons. rewrite list_elem_of_singleton. split; [lia|apply NoDup_singleton].
  - intros q Hnq Hql. rewrite Hq, !decide_False; [done|lia|set_solver].
Qed.

Lemma insert_leaf_ok b b1 T pid fid p n lo hi next es key loc last fl nm :
  tree_file b (bt_tableID T) last fl nm -> room b 2 -> opened b b1 (bt_tableID T, pid) fid p ->
  leaf_node n pid lo hi es -> n_rightSibling n = next -> within lo hi key -> entry_ok (key, loc) ->
  (1 <= pid <= last)%N -> (last + 1 < two64)%N -> (info_size fl nm <= MetaRoom)%N ->
  exists b' r, insert_leaf b1 T pid n fid key loc = Some (b', Ok r)
    /\ insert_done b b' T 0 pid lo hi next pid (put_entry key loc es) [pid] last fl nm 1 r.
Proof.
  intros F Hroom O HL Hr Hin Hent Hpid Hlast Hfit. unfold insert_leaf.
  destruct (leaf_keys _ _ _ _ _ HL) as [E1 E2]. destruct (leaf_node_of _ _ _ _ _ HL) as (En & Ho & He & Hl & Hrs).
  pose proof (leaf_search_put es key loc (proj1 Ho)) as Hp. rewrite <-E1, <-E2.
  pose proof (ordered_put lo hi es key loc Ho Hin) as Ho'. pose proof (entries_put es key loc He Hent) as He'.
  set (es' := put_entry key loc es) in *. rewrite Hr in Hrs.
  assert (En' : with_keys_values n es'.*1 es'.*2 = leaf_of es' next pid) by (by rewrite En, <-Hr).
  destruct (leafSearch es.*1 key) as [idx [|]]; destruct Hp as (P1 & P2 & P3); rewrite P1, P2, En'; [eapply leaf_one; try done; lia|].
  cbn [leaf_of n_keys]. rewrite length_fmap. destruct (Nat.leb_spec (length es') BTreeOrder) as [Hle|Hgt]; [by eapply leaf_one|].
  assert (Hlen : length es' = 101) by (unfold BTreeOrder in *; lia). rewrite Hlen. change (101 / 2) with 50.
  destruct (lookup_lt_is_Some_2 es' 50) as [[k l] Hk]; [lia|]. rewrite list_lookup_fmap, Hk. cbn [fmap option_fmap option_map fst mbind option_bind].
  destruct (leaf_two b b1 T pid fid p lo hi next es' last fl nm 50 k l) as (b2 & fid2 & b' & r & Ea & Ef & D); try done; try (unfold BTreeOrder; lia).
  rewrite Ea. cbn [mbind option_bind]. unfold with_right, with_keys_values.
  cbn [leaf_of n_nodeType n_keys n_children n_values n_rightSibling n_pageID]. rewrite <-!fmap_drop, <-!fmap_take.
  change (mkNode LeafNode (drop 50 es').*1 [] (drop 50 es').*2 next (last + 1)) with (leaf_of (drop 50 es') next (last + 1)).
  change (mkNode LeafNode (take 50 es').*1 [] (take 50 es').*2 (last + 1) pid) with (leaf_of (take 50 es') (last + 1) pid).
  rewrite Ef. by exists b', r.
Qed.

(** The children of a node stay when other pages change. *)
Lemma kids_frame b b' T h ks cs lo hi next first es ps :
  (forall q, q ∈ ps -> node_at b' (bt_tableID T) q = node_at b (bt_tableID T) q) ->
  kids (sub b T h) ks cs lo hi next first es ps -> kids (sub b' T h) ks cs lo hi next first es ps.
Proof.
  intros Hq. eapply (kids_mono _ _ _ _ _ _ _ _ _ _ ps); [|done]. intros c lo' hi' n f es' ps' Hb Hsub. eapply bt_frame; [|exact Hb].
  intros q Hin. by apply Hq, Hsub.
Qed.

Lemma internal_one b b1 T h pid fid p n lo hi next first es ps last fl nm :
  tree_file b (bt_tableID T) last fl nm -> opened b b1 (bt_tableID T, pid) fid p -> internal_node n pid ->
  kids (sub b T h) (n_keys n) (n_children n) lo hi next first es ps -> NoDup (pid :: ps) ->
  exists b' r, flush_only b1 T n fid = Some (b', Ok r) /\ insert_done b b' T (S h) pid lo hi next first es (pid :: ps) last fl nm 1 r.
Proof.
  intros F O HI Hk Hnd. destruct (internal_fits _ _ HI) as [Hok Hsz]. pose proof Hnd as [Hp _]%NoDup_cons.
  destruct (rewrite_node b b1 T pid fid p n last fl nm F O (proj1 (proj2 (proj2 HI))) Hok Hsz) as (b' & Ef & St & F' & Hq).
  exists b', no_split. unfold flush_only. rewrite Ef. cbn [mbind option_bind]. split; [done|]. exists last. split_and!; try done; try lia.
  - left. split; [done|]. exists (pid :: ps). split; [|by apply grown_refl]. exists n, ps. rewrite Hq, decide_True by done. split_and!; try done.
    eapply kids_frame; [|exact Hk]. intros q Hin. rewrite Hq, decide_False; [done|]. by intros ->.
  - intros q Hnq _. rewrite Hq, decide_False; [done|]. set_solver.
Qed.

Lemma internal_two b b1 T h pid fid p n lo hi next first es ps last fl nm mid k :
  tree_file b (bt_tableID T) last fl nm -> room b 2 -> opened b b1 (bt_tableID T, pid) fid p ->
  n_nodeType n = InternalNode -> n_values n = [] -> n_pageID n = pid -> (n_rightSibling n < two64)%N ->
  length (n_children n) = S (length (n_keys n)) -> Forall (fun k => klen k <= MaxKey)%N (n_keys n) -> Forall (fun c => c < two64)%N (n_children n) ->
  kids (sub b T h) (n_keys n) (n_children n) lo hi next first es ps -> NoDup (pid :: ps) -> (forall q, q ∈ pid :: ps -> 1 <= q <= last)%N ->
  n_keys n !! mid = Some k -> mid <= BTreeOrder -> length (n_keys n) <= mid + BTreeOrder -> (last + 1 < two64)%N -> (info_size fl nm <= MetaRoom)%N ->
  exists b2 fid2 b' r, allocNode b1 T InternalNode = Some (b2, Ok (mkNode InternalNode [] [] [] 0 (last + 1), fid2))
    /\ flush_halves b2 T pid
         (with_keys_children (mkNode InternalNode [] [] [] 0 (last + 1)) (drop (S mid) (n_keys n)) (drop (S mid) (n_children n))) fid2
         (with_keys_children n (take mid (n_keys n)) (take (S mid) (n_children n))) fid k = Some (b', Ok r)
    /\ insert_done b b' T (S h) pid lo hi next first es (pid :: ps) last fl nm 1 r.
Proof.
  intros F Hroom O Ht Hv Hp Hr Hlen Hks Hcs Hk Hnd Hps Hmid Hm Hl Hlast Hfit.
  destruct (kids_split _ _ _ _ _ _ _ _ _ mid k Hk Hmid) as (m & es1 & es2 & ps1 & ps2 & -> & -> & G1 & G2 & G3 & G4).
  set (right := with_keys_children (mkNode _ _ _ _ _ _) _ _). set (left := with_keys_children n _ _).
  apply lookup_lt_Some in Hmid as Hlt.
  assert (HR : internal_node right (last + 1)).
  { apply internal_of; try done; [rewrite !length_drop; lia|rewrite length_drop; lia|by apply Forall_drop|by apply Forall_drop]. }
  assert (HL : internal_node left pid).
  { apply internal_of; try done; [rewrite !length_take; lia|rewrite length_take; lia|by apply Forall_take|by apply Forall_take]. }
  destruct (split_write b b1 T pid fid p InternalNode right left k last fl nm F Hroom O) as (b2 & fid2 & b' & Ea & Ef & St & F' & Hq);
    try done; [apply Hps; by left|by eapply internal_fits|by eapply internal_fits|].
  exists b2, fid2, b', (k, (last + 1)%N). split; [done|]. split; [done|]. exists (last + 1)%N. apply NoDup_cons in Hnd as [Hpn Hnd].
  assert (Hps' : forall q, q ∈ ps1 ++ ps2 -> node_at b' (bt_tableID T) q = node_at b (bt_tableID T) q).
  { intros q Hin. rewrite Hq, !decide_False; [done| |by intros ->]. assert (q <= last)%N by (apply Hps; by right). lia. }
  assert (Hpl : (1 <= pid <= last)%N) by (apply Hps; by left).
  split_and!; try done; try lia.
  - right. exists k, (last + 1)%N, m, es1, es2, (pid :: ps1), ((last + 1)%N :: ps2).
    split_and!; try done; try lia; [by eapply (proj1 (Forall_lookup _ _) Hks mid)| | |].
    + exists left, ps1. rewrite Hq, decide_True by done. split_and!; try done. eapply kids_frame; [|exact G3]. intros q Hin. apply Hps'. set_solver.
    + exists right, ps2. rewrite Hq, decide_False, decide_True by lia. split_and!; try done. eapply kids_frame; [|exact G4]. intros q Hin. apply Hps'. set_solver.
    + split.
      * assert (Hnew : (last + 1)%N ∉ pid :: ps1 ++ ps2) by (intros Hin; apply Hps in Hin; lia).
        rewrite <-Permutation_middle. apply NoDup_cons. split; [done|]. by apply NoDup_cons.
      * intros q Hin. rewrite <-Permutation_middle in Hin. apply elem_of_cons in Hin as [->|Hin]; [right; lia|by left].
  - intros q Hnq Hql. rewrite Hq, !decide_False; [done|lia|set_solver].
Qed.

Lemma insert_internal_ok b b1 T h pid fid p n lo hi next first es ps i k new last fl nm :
  tree_file b (bt_tableID T) last fl nm -> room b 2 -> opened b b1 (bt_tableID T, pid) fid p -> internal_node n pid ->
  kids (sub b T h) (insert_nth i k (n_keys n)) (insert_nth (S i) new (n_children n)) lo hi next first es ps ->
  NoDup (pid :: ps) -> (forall q, q ∈ pid :: ps -> 1 <= q <= last)%N -> (klen k <= MaxKey)%N -> (new < two64)%N ->
  (last + 1 < two64)%N -> (info_size fl nm <= MetaRoom)%N ->
  exists b' r, insert_internal b1 T pid n fid i k new = Some (b', Ok r)
    /\ insert_done b b' T (S h) pid lo hi next first es (pid :: ps) last fl nm 1 r.
Proof.
  intros F Hroom O HI Hk Hnd Hps Hkl Hnew Hlast Hfit. unfold insert_internal. destruct (internal_lengths _ _ HI) as [Hlen Hv].
  pose proof HI as ([_ _ Hrs Hkind] & (Hl & Hks) & Hp & Ht).
  assert (Hcs : Forall (fun c => c < two64)%N (n_children n)) by (destruct Hkind as [(E & _)|(_ & _ & _ & H)]; [by rewrite Ht in E|done]).
  set (ks' := insert_nth i k (n_keys n)) in *. set (cs' := insert_nth (S i) new (n_children n)) in *.
  assert (Hlk : length ks' = S (length (n_keys n))) by apply length_insert_nth.
  assert (Hlc : length cs' = S (length ks')) by (unfold cs'; rewrite length_insert_nth; lia).
  assert (Hks' : Forall (fun k => klen k <= MaxKey)%N ks') by (by apply Forall_insert_nth).
  assert (Hcs' : Forall (fun c => c < two64)%N cs') by (by apply Forall_insert_nth).
  cbn [with_keys_children n_keys n_children]. destruct (Nat.leb_spec (length ks') BTreeOrder) as [Hle|Hgt].
  - eapply internal_one; try done. by apply internal_of.
  - assert (H101 : length ks' = 101) by (unfold BTreeOrder in *; lia). rewrite H101. change (101 / 2) with 50.
    destruct (lookup_lt_is_Some_2 ks' 50) as [k0 Hk0]; [lia|]. rewrite Hk0. cbn [mbind option_bind].
    destruct (internal_two b b1 T h pid fid p (with_keys_children n ks' cs') lo hi next first es ps last fl nm 50 k0)
      as (b2 & fid2 & b' & r & Ea & Ef & D); try done; try (cbn [with_keys_children n_keys]; unfold BTreeOrder; lia).
    rewrite Ea. cbn [mbind option_bind]. cbn [with_keys_children n_keys n_children] in Ef. rewrite Ef. by exists b', r.
Qed.

Lemma sub_range b T h pid lo hi next first es ps last fl nm :
  safe b -> tree_file b (bt_tableID T) last fl nm -> sub b T h pid lo hi next first es ps -> forall q, q ∈ ps -> (1 <= q <= last)%N.
Proof.
  intros Hs F Hb q Hq. destruct (bt_nodes _ _ _ _ _ _ _ _ _ Hb q Hq) as [n Hn]. by eapply (node_range b _ q n _ _ _ Hs (tf_info _ _ _ _ _ F)).
Qed.

(** The work after a child's insert: [pid] takes up a split. *)
Lemma insert_up b b2 T h pid n lo hi next first es1 esm es2 ps1 psm ps2 c key clo chi cn cf last fl nm j b3 r loc :
  focus (sub b T h) (n_keys n) (n_children n) (internalChildIdx (n_keys n) key) key lo hi next first
    (es1 ++ esm ++ es2) (ps1 ++ psm ++ ps2) c clo chi cn cf es1 esm es2 ps1 psm ps2 ->
  node_at b (bt_tableID T) pid = Some n -> internal_node n pid -> quiet (fun _ => 0%Z) b b2 -> safe b2 ->
  NoDup (pid :: ps1 ++ psm ++ ps2) -> (forall q, q ∈ pid :: ps1 ++ psm ++ ps2 -> 1 <= q <= last)%N -> room b 2 ->
  (last + j + 1 < two64)%N -> (info_size fl nm <= MetaRoom)%N ->
  insert_done b2 b3 T h c clo chi cn cf (put_entry key loc esm) psm last fl nm j r ->
  exists b' r', (if (r.2 =? 0)%N then Some (b3, Ok no_split)
                 else '(b, r0) ← readNode b3 T pid;
                      match r0 with
                      | Err e => Some (b, Err e)
                      | Ok (n', f) => insert_internal b T pid n' f (internalChildIdx (n_keys n) key) r.1 r.2
                      end) = Some (b', Ok r')
    /\ insert_done b b' T (S h) pid lo hi next first (put_entry key loc (es1 ++ esm ++ es2)) (pid :: ps1 ++ psm ++ ps2) last fl nm (j + 1) r'.
Proof.
  intros FO Hn HI Q Hs2 Hnd Hps Hroom Hlast Hfit (l1 & St & F3 & Hl1 & Hins & Hkept).
  pose proof Hnd as [Hpid Hnd0]%NoDup_cons. destruct FO as [F1 F2 F0 _ _ F6 F7 F8 F9 F10].
  assert (Hq : forall q, q ∈ pid :: ps1 ++ ps2 -> q ∉ psm -> node_at b3 (bt_tableID T) q = node_at b (bt_tableID T) q).
  { intros q Hin Hnm. rewrite (Hkept q Hnm) by (apply Hps; set_solver). by eapply node_at_quiet. }
  assert (Hbe : forall c lo hi n f es ps, sub b T h c lo hi n f es ps -> ps ⊆ ps1 ++ ps2 -> sub b3 T h c lo hi n f es ps).
  { eapply frame_beside; [exact Hnd0|]. intros q Hin. apply Hq. set_solver. }
  assert (Hn3 : node_at b3 (bt_tableID T) pid = Some n) by (rewrite Hq; [done|by left|set_solver]).
  assert (St0 : tstep (bt_tableID T) (fun _ => 0%Z) b b3) by (eapply tstep_then; [by apply tstep_quiet|exact St]).
  assert (Hle : forall q, q ∈ pid :: ps1 ++ psm ++ ps2 -> (q <= last)%N) by (intros q Hin; by apply Hps).
  rewrite put_entry_below, put_entry_mid by done.
  destruct Hins as [(-> & psm' & Hb' & G)|(k & new & mid & ea & eb & pa & pb & -> & Hnew & Hnl & Hlo & Hhi & Hkl & -> & Ha & Hb & G)].
  - exists b3, no_split. split; [done|]. exists l1. split_and!; try done; try lia.
    + left. split; [done|]. exists (pid :: ps1 ++ psm' ++ ps2). split; [|by apply grown_focus]. exists n, (ps1 ++ psm' ++ ps2).
      split_and!; try done. by apply F9.
    + intros q Hnq Hql. rewrite (Hkept q) by (done || set_solver). by eapply node_at_quiet.
  - cbn [fst snd]. rewrite (proj2 (N.eqb_neq new 0) Hnew). pose proof (grown_focus pid ps1 psm ps2 (pa ++ pb) last l1 Hnd Hle G) as G'.
    destruct (readNode_ok b3 T pid n l1 fl nm (ts_safe _ _ _ _ St0)) as (b4 & fid & p & E & O & _); try done.
    { apply (tstep_room (bt_tableID T) b b3); [done|]. unfold room in *. lia. }
    rewrite E. cbn [mbind option_bind].
    pose proof (F10 (sub b3 T h) k new mid ea eb pa pb Hbe Hlo Hhi Ha Hb) as Hk.
    assert (Hrange : forall q, q ∈ pid :: ps1 ++ (pa ++ pb) ++ ps2 -> (1 <= q <= l1)%N).
    { intros q Hin. destruct (proj2 G' q Hin) as [Hin'|?]; [|lia]. apply Hps in Hin'. lia. }
    destruct (insert_internal_ok b3 b4 T h pid fid p n lo hi next first _ _ _ k new l1 fl nm F3
      (tstep_room _ _ _ _ St0 Hroom) O HI Hk (proj1 G') Hrange Hkl Hnl ltac:(lia) Hfit) as (b' & r' & Ei & l2 & S2 & F4 & Hl2 & Hins2 & Hkept2).
    exists b', r'. split; [done|]. exists l2. split_and!; try done; try lia; [by eapply tstep_then| |].
    + destruct Hins2 as [(-> & ps'' & Hb'' & G2)|(k2 & new2 & m2 & ex & ey & px & py & E1 & E2 & E3 & E4 & E5 & E6 & E7 & E8 & E9 & G2)].
      * left. split; [done|]. exists ps''. split; [done|]. eapply grown_trans; [| |exact G'|exact G2]; lia.
      * right. exists k2, new2, m2, ex, ey, px, py. split_and!; try done. eapply grown_trans; [| |exact G'|exact G2]; lia.
    + intros q Hnq Hql. rewrite (Hkept2 q); [|intros Hin; destruct (proj2 G' q Hin); [done|lia]|lia].
      rewrite (Hkept q) by (done || set_solver). by eapply node_at_quiet.
Qed.

Lemma insertRec_ok h fuel b T pid lo hi next first es ps key loc last fl nm :
  h < fuel -> safe b -> room b 2 -> tree_file b (bt_tableID T) last fl nm -> sub b T h pid lo hi next first es ps -> NoDup ps ->
  within lo hi key -> entry_ok (key, loc) -> (last + N.of_nat (S h) < two64)%N -> (info_size fl nm <= MetaRoom)%N ->
  exists b' r, insertRec fuel b T pid key loc = Some (b', Ok r)
    /\ insert_done b b' T h pid lo hi next first (put_entry key loc es) ps last fl nm (N.of_nat (S h)) r.
Proof.
  revert fuel b pid lo hi next first es ps. induction h as [|h IH];
    intros [|fuel] b pid lo hi next first es ps Hf Hs Hroom F Hb Hnd Hin Hent Hlast Hfit; try lia; cbn [insertRec];
    pose proof (sub_range _ _ _ _ _ _ _ _ _ _ _ _ _ Hs F Hb) as Hps; cbn [bt] in Hb;
    (assert (Hroom1 : room b 1) by (unfold room in *; lia)).
  - destruct Hb as (n & Hn & HL & Hr & -> & ->). destruct (readNode_ok b T pid n _ _ _ Hs Hroom1 F Hn) as (b1 & fid & p & E & O & _).
    rewrite E. cbn [mbind option_bind]. rewrite (leaf_is_leaf _ _ _ _ _ HL). eapply insert_leaf_ok; try done. apply Hps. by left.
  - destruct Hb as (n & ps' & Hn & HI & -> & Hk). destruct (readNode_ok b T pid n _ _ _ Hs Hroom1 F Hn) as (b1 & fid & p & E & O & _).
    destruct (read_close _ _ _ _ _ _ _ O E) as [Q Hs2]. rewrite E. cbn [mbind option_bind]. rewrite (internal_not_leaf _ _ HI).
    destruct (kids_focus _ _ _ key _ _ _ _ _ _ (bt_ordered _ h) Hk Hin) as (c & clo & chi & cn & cf & es1 & esm & es2 & ps1 & psm & ps2 & FO).
    pose proof FO as [F1 F2 F3 -> -> _ _ _ _ _]. rewrite F1. cbn [mbind option_bind]. set (b2 := UnpinPage _ _ _ _) in *.
    destruct (IH fuel b2 c clo chi cn cf esm psm) as (b3 & r & E3 & D); try done;
      [lia|by apply (quiet_room b)|by eapply tree_file_quiet|by eapply sub_quiet
      |by apply NoDup_cons in Hnd as [_ (_ & _ & (? & _)%NoDup_app)%NoDup_app]|lia|].
    rewrite E3. cbn [mbind option_bind].
    destruct (insert_up b b2 T h pid n lo hi next first es1 esm es2 ps1 psm ps2 c key clo chi cn cf last fl nm (N.of_nat (S h)) b3 r loc
      FO Hn HI Q Hs2 Hnd Hps Hroom ltac:(lia) Hfit D) as (b' & r' & E' & D').
    exists b', r'. split; [|by replace (N.of_nat (S (S h))) with (N.of_nat (S h) + 1)%N by lia].
    destruct r as [k new]. cbn [fst snd] in E'. by destruct (new =? 0)%N.
Qed.
End Ops.
