(* ===== verification/BTreeRefine.v ===== *)
(** * A B+ tree is a sorted map

    The walk along the leaves, then the whole tree: [tree_rep] relates a tree
    to the sorted list of its entries, every operation refines the one on
    the list ([tree_refines]), and the tree is an index that a paged table
    can rely on ([treeIndexLaws]). The runs at the end show where the code
    leaves these paths. *)

From Stdlib Require Import ZArith NArith Lia Strings.Byte String Sorted.
From stdpp Require Import base tactics numbers list gmap strings sorting.
From S2P Require Import Prelude Types Storage WalRecord Page Heap Wal Pool PoolInv PoolPins PagedTable PagedInv PagedRefine BTree BTreeNode BTreeShape BTreeInv.

(** ** Ranges *)

Definition in_range (from to k : RowKey) : bool :=
  negb (negb (String.eqb from "") && String.ltb k from) && negb (negb (String.eqb to "") && String.ltb to k).

Definition range_entries (from to : RowKey) (es : list entry) : list entry := filter (fun e => in_range from to e.1 = true) es.

(** Beyond the end of the range. *)
Definition beyond (to k : RowKey) : bool := negb (String.eqb to "") && String.ltb to k.

Lemma range_app from to es1 es2 : range_entries from to (es1 ++ es2) = range_entries from to es1 ++ range_entries from to es2.
Proof. apply filter_app. Qed.

Lemma range_cons from to k l es :
  range_entries from to ((k, l) :: es) = if in_range from to k then (k, l) :: range_entries from to es else range_entries from to es.
Proof.
  unfold range_entries. destruct (in_range from to k) eqn:E; [by rewrite filter_cons_True|]. rewrite filter_cons_False; [done|]. cbn. congruence.
Qed.

Lemma range_none from to es : (forall k, k ∈ es.*1 -> in_range from to k = false) -> range_entries from to es = [].
Proof.
  induction es as [|[k l] es IH]; [done|]. intros Hn. rewrite range_cons, Hn by (by left). apply IH. intros k' Hk. apply Hn. by right.
Qed.

Lemma beyond_later to k k' : beyond to k = true -> str_lt k k' -> beyond to k' = true.
Proof.
  unfold beyond. rewrite !andb_true_iff. intros [H1 H2] H3. split; [done|]. exact (lt_trans _ _ _ H2 H3).
Qed.

Lemma beyond_out from to k : beyond to k = true -> in_range from to k = false.
Proof. unfold beyond, in_range. intros ->. apply andb_false_r. Qed.

Lemma below_out from to es : from <> ""%string -> below from es -> range_entries from to es = [].
Proof.
  intros Hf Hb. apply range_none. intros k Hk. unfold below in Hb. rewrite Forall_forall in Hb. apply Hb in Hk. unfold str_lt in Hk.
  unfold in_range. by rewrite (proj2 (String.eqb_neq from "") Hf), Hk.
Qed.

Lemma leaf_range_spec from to es :
  sorted es.*1 ->
  exists stop, leaf_range from to es.*1 es.*2 = Some (range_entries from to es, stop)
    /\ (stop = true -> exists k, k ∈ es.*1 /\ beyond to k = true).
Proof.
  induction es as [|[k l] es IH]; [by exists false|]. cbn [fmap list_fmap fst snd]. intros [Hs Hlt]%StronglySorted_inv.
  destruct (IH Hs) as (stop & E & Hst). cbn [leaf_range]. rewrite range_cons. unfold in_range at 1.
  destruct (negb (String.eqb from "") && String.ltb k from); cbn [negb andb tail].
  { exists stop. split; [exact E|]. intros ->. destruct Hst as (k' & Hk' & Hb); [done|]. exists k'. split; [by right|done]. }
  fold (beyond to k). destruct (beyond to k) eqn:Hb; cbn [negb].
  - exists true. rewrite range_none. { split; [done|]. intros _. exists k. split; [by left|done]. }
    intros k' Hk'. rewrite Forall_forall in Hlt. by eapply beyond_out, beyond_later, Hlt.
  - rewrite E. cbn [mbind option_bind]. exists stop. split; [done|]. intros ->. destruct Hst as (k' & Hk' & Hb'); [done|]. exists k'. split; [by right|done].
Qed.

Section Range.
Context {W : Type} `{HF : Flusher W}.
Implicit Types (b : BufferPool W) (T : BTree).
Notation sub b T h := (bt (node_at b (bt_tableID T)) h).

Lemma chain_ext (nd nd' : N -> option btreeNode) p q es k : (forall x, nd' x = nd x) -> chain nd p q es k -> chain nd' p q es k.
Proof. intros E. induction 1; [constructor|]. econstructor; [by rewrite E|done|done|done]. Qed.

Lemma zip_leaf n : length (n_values n) = length (n_keys n) -> (zip (n_keys n) (n_values n)).*1 = n_keys n /\ (zip (n_keys n) (n_values n)).*2 = n_values n.
Proof. intros Hl. split; [apply fst_zip|apply snd_zip]; lia. Qed.

Lemma range_leaves_ok k fuel b T from to p es last fl nm :
  k <= fuel -> safe b -> room b 1 -> tree_file b (bt_tableID T) last fl nm -> chain (node_at b (bt_tableID T)) p 0 es k -> sorted es.*1 ->
  exists b', range_leaves fuel b T from to p = Some (b', range_entries from to es) /\ quiet (fun _ => 0%Z) b b' /\ safe b'.
Proof.
  revert fuel b p es. induction k as [|k IH]; intros fuel b p es Hf Hs Hroom F Hc Hso.
  - inversion Hc; subst. destruct fuel; cbn [range_leaves]; exists b; (split; [done|]); (split; [by apply pool_quiet_refl, Hs|done]).
  - inversion Hc as [|p' n stop rest k' Hn Ht Hl Hrest]; subst. destruct fuel as [|fuel]; [lia|]. cbn [range_leaves].
    pose proof (node_range b _ p n _ _ _ Hs (tf_info _ _ _ _ _ F) Hn) as Hr. rewrite (proj2 (N.eqb_neq p 0)) by lia.
    destruct (readNode_ok b T p n _ _ _ Hs Hroom F Hn) as (b1 & fid & pg & E & O & _).
    destruct (read_close _ _ _ _ _ _ _ O E) as [Q Hs2]. rewrite E. cbn [mbind option_bind]. destruct (zip_leaf n Hl) as [Z1 Z2].
    set (es0 := zip (n_keys n) (n_values n)) in *. rewrite fmap_app in Hso.
    assert (Hs0 : sorted es0.*1 /\ sorted rest.*1 /\ forall x y, x ∈ es0.*1 -> y ∈ rest.*1 -> str_lt x y).
    { clear -Hso. induction es0 as [|e es0 IH]; [split; [constructor|split; [done|set_solver]]|]. cbn in Hso. apply StronglySorted_inv in Hso as [Hso Hlt].
      destruct (IH Hso) as (I1 & I2 & I3). apply Forall_app in Hlt as [L1 L2]. rewrite Forall_forall in L2. split; [by constructor|]. split; [done|].
      intros x y [->|Hx]%elem_of_cons Hy; [by apply L2|by apply I3]. }
    destruct Hs0 as (S1 & S2 & S3). destruct (leaf_range_spec from to es0 S1) as (stop & El & Hstop). rewrite Z1, Z2 in El. rewrite El. cbn [mbind option_bind].
    set (b2 := UnpinPage _ _ _ _) in *. rewrite range_app. destruct stop.
    + exists b2. split; [|done]. destruct Hstop as (k0 & Hk0 & Hb); [done|]. rewrite (range_none from to rest), app_nil_r; [done|].
      intros k' Hk'. eapply beyond_out, beyond_later; [exact Hb|]. by apply S3.
    + destruct (IH fuel b2 (n_rightSibling n) rest) as (b' & E' & Q' & Hs'); try done; [lia|by apply (quiet_room b)|by eapply tree_file_quiet| |].
      { eapply chain_ext; [|exact Hrest]. intros x. by eapply node_at_quiet. }
      rewrite E'. cbn [mbind option_bind]. exists b'. split; [done|]. split; [by eapply quiet_then|done].
Qed.

Lemma first_child (S0 : subtree) ks cs lo hi next first es ps : kids S0 ks cs lo hi next first es ps -> internalChildIdx ks "" = 0.
Proof.
  destruct ks as [|k ks], cs as [|c cs]; cbn [kids internalChildIdx]; try done. intros (_ & _ & _ & _ & _ & Hk & _).
  pose proof (ge_lo_lt "" lo k (ge_lo_empty lo) Hk) as He. unfold str_lt in He. by rewrite He.
Qed.

Lemma find_leaf_ok h fuel b T pid lo hi next first es ps from last fl nm :
  h < fuel -> safe b -> room b 1 -> tree_file b (bt_tableID T) last fl nm ->
  sub b T h pid lo hi next first es ps -> within lo hi from ->
  exists b' p es1 es2 k, find_leaf fuel b T pid from = Some (b', p) /\ quiet (fun _ => 0%Z) b b' /\ safe b'
    /\ es = es1 ++ es2 /\ below from es1 /\ chain (node_at b (bt_tableID T)) p next es2 k /\ k <= length ps.
Proof.
  revert fuel b pid lo hi next first es ps. induction h as [|h IH]; intros [|fuel] b pid lo hi next first es ps Hf Hs Hroom F Hb Hin; try lia;
    cbn [find_leaf]; pose proof Hb as Hb0; cbn [bt] in Hb.
  - destruct Hb as (n & Hn & HL & _ & -> & ->). destruct (readNode_ok b T pid n _ _ _ Hs Hroom F Hn) as (b1 & fid & p & E & O & _).
    destruct (read_close _ _ _ _ _ _ _ O E) as [Q Hs2]. rewrite E. cbn [mbind option_bind]. rewrite (leaf_is_leaf _ _ _ _ _ HL).
    destruct (bt_chain _ _ _ _ _ _ _ _ _ Hb0) as (k & C & Hk). eexists _, pid, [], es, k. split_and!; try done. by constructor.
  - destruct Hb as (n & ps' & Hn & HI & -> & Hk). destruct (readNode_ok b T pid n _ _ _ Hs Hroom F Hn) as (b1 & fid & p & E & O & _).
    destruct (read_close _ _ _ _ _ _ _ O E) as [Q Hs2]. rewrite E. cbn [mbind option_bind]. rewrite (internal_not_leaf _ _ HI).
    destruct (kids_focus _ _ _ from _ _ _ _ _ _ (bt_ordered _ h) Hk Hin) as (c & clo & chi & cn & cf & es1 & esm & es2 & ps1 & psm & ps2 & FO).
    destruct FO as [F1 F2 F3 -> -> F6 F7 F8 F9 F10].
    assert (Ec : (if String.eqb from "" then n_children n !! 0 else internalFindChild (n_keys n) (n_children n) from) = Some c).
    { destruct (String.eqb_spec from "") as [->|_]; [|done]. by rewrite (first_child _ _ _ _ _ _ _ _ _ Hk) in F1. }
    rewrite Ec. cbn [mbind option_bind]. set (b2 := UnpinPage _ _ _ _) in *.
    destruct (IH fuel b2 c clo chi cn cf esm psm) as (b' & q & ea & eb & k & E' & Q' & Hs' & -> & Hb' & C & Hl); try done;
      [lia|by apply (quiet_room b)|by eapply tree_file_quiet|by eapply sub_quiet|].
    destruct (links_chain _ _ _ _ _ _ (bt_chain _ h) F8) as (k2 & C2 & Hl2).
    exists b', q, (es1 ++ ea), (eb ++ es2), (k + k2). split_and!; try done.
    + by eapply quiet_then.
    + by rewrite <-!app_assoc.
    + unfold below. rewrite fmap_app. apply Forall_app. by split.
    + eapply chain_app; [|exact C2]. eapply chain_ext; [|exact C]. intros x. symmetry. by eapply node_at_quiet.
    + cbn. rewrite !length_app. lia.
Qed.
End Range.

(** ** The whole tree *)

Section Tree.
Context {W : Type} `{HF : Flusher W}.
Implicit Types (b : BufferPool W) (T : BTree).
Notation sub b T h := (bt (node_at b (bt_tableID T)) h).

Record tree_at b T (es : list entry) (h : nat) (ps : list N) (last : N) (fl : list N) (nm : string) : Prop := {
  ta_file : tree_file b (bt_tableID T) last fl nm;
  ta_tree : sub b T h (bt_rootID T) "" None 0%N 1%N es ps;
  ta_nodup : NoDup ps;
}.

(** The tree stores the entries [es], sorted by key. Its first leaf is page 1,
    where the tree began. *)
Definition tree_rep b T (es : list entry) : Prop := exists h ps last fl nm, tree_at b T es h ps last fl nm.

Lemma tree_sorted b T es : tree_rep b T es -> sorted es.*1.
Proof. intros (h & ps & last & fl & nm & [_ Hb _]). by destruct (bt_ordered _ _ _ _ _ _ _ _ _ Hb). Qed.

Lemma within_all k : within "" None k.
Proof. split; [apply ge_lo_empty|done]. Qed.

(** Distinct pages of a file are no more than its pages. *)
Lemma pages_count (ps : list N) last : NoDup ps -> (forall q, q ∈ ps -> 1 <= q <= last)%N -> length ps <= N.to_nat last.
Proof.
  intros Hnd Hr. enough (N.to_nat <$> ps ⊆+ seq 1 (N.to_nat last)) as Hsub.
  { apply submseteq_length in Hsub. by rewrite length_fmap, length_seq in Hsub. }
  apply NoDup_submseteq.
  - by apply NoDup_fmap_2; [intros x y ?; lia|].
  - intros x (q & -> & Hq)%list_elem_of_fmap. apply Hr in Hq. apply elem_of_seq. lia.
Qed.

Lemma tree_fuel_file b T last fl nm : tree_file b (bt_tableID T) last fl nm -> tree_fuel b T = S (N.to_nat last).
Proof.
  intros F. pose proof (tf_info _ _ _ _ _ F) as (hf & Ehf & [= El _ _])%fmap_Some. unfold tree_fuel, LastPageID. by rewrite Ehf, El.
Qed.

Lemma tree_bounds b T es h ps last fl nm :
  safe b -> tree_at b T es h ps last fl nm ->
  h < tree_fuel b T /\ length ps <= tree_fuel b T /\ h < N.to_nat last.
Proof.
  intros Hs [F Hb Hnd]. pose proof (pages_count ps last Hnd (sub_range _ _ _ _ _ _ _ _ _ _ _ _ _ Hs F Hb)) as Hl.
  pose proof (bt_height _ _ _ _ _ _ _ _ _ Hb) as Hh. rewrite (tree_fuel_file _ _ _ _ _ F). lia.
Qed.

Lemma tree_quiet b b' T es : quiet (fun _ => 0%Z) b b' -> tree_rep b T es -> tree_rep b' T es.
Proof.
  intros Q (h & ps & last & fl & nm & [F Hb Hnd]). exists h, ps, last, fl, nm.
  split; [by eapply tree_file_quiet|by eapply sub_quiet|done].
Qed.

Lemma Search_ok b T es key :
  safe b -> room b 1 -> tree_rep b T es ->
  exists b', Search b T key = Some (b', get_entry key es) /\ quiet (fun _ => 0%Z) b b' /\ safe b'.
Proof.
  intros Hs Hroom (h & ps & last & fl & nm & TA). destruct (tree_bounds _ _ _ _ _ _ _ _ Hs TA) as (Hh & _). destruct TA as [F Hb Hnd].
  unfold Search. eapply search_ok; try done. apply within_all.
Qed.

Lemma Delete_ok b T es key :
  safe b -> room b 1 -> tree_rep b T es ->
  exists b', Delete b T key = Some (b', bool_decide (is_Some (get_entry key es)))
    /\ tstep (bt_tableID T) (fun _ => 0%Z) b b' /\ tree_rep b' T (del_entry key es).
Proof.
  intros Hs Hroom (h & ps & last & fl & nm & TA). destruct (tree_bounds _ _ _ _ _ _ _ _ Hs TA) as (Hh & _). destruct TA as [F Hb Hnd].
  destruct (deleteRec_ok h (tree_fuel b T) b T _ _ _ _ _ _ _ key last fl nm Hh Hs Hroom F Hb Hnd (within_all key)) as (b' & E & St & F' & Hb' & _).
  exists b'. split; [done|]. split; [done|]. exists h, ps, last, fl, nm. by split.
Qed.

Lemma RangeAsc_ok b T es from to :
  safe b -> room b 1 -> tree_rep b T es ->
  exists b', RangeAsc b T from to = Some (b', range_entries from to es) /\ quiet (fun _ => 0%Z) b b' /\ safe b'.
Proof.
  intros Hs Hroom R. pose proof (tree_sorted _ _ _ R) as Hso. destruct R as (h & ps & last & fl & nm & TA).
  pose proof (tree_bounds _ _ _ _ _ _ _ _ Hs TA) as (Hh & Hl & _). destruct TA as [F Hb Hnd]. unfold RangeAsc, findLeafPage.
  destruct (find_leaf_ok h (tree_fuel b T) b T _ _ _ _ _ _ _ from last fl nm Hh Hs Hroom F Hb (within_all from))
    as (b1 & p & es1 & es2 & k & -> & Q & Hs1 & -> & Hbl & C & Hk). cbn [mbind option_bind].
  pose proof (tree_file_quiet _ _ _ _ _ _ _ Q F) as F1. rewrite (tree_fuel_file _ _ _ _ _ F) in Hl.
  rewrite fmap_app in Hso. assert (Hso2 : sorted es2.*1).
  { clear -Hso. induction (es1.*1) as [|x l IH]; [done|]. apply IH. by apply StronglySorted_inv in Hso as [? _]. }
  destruct (range_leaves_ok k (tree_fuel b1 T) b1 T from to p es2 last fl nm) as (b' & E & Q' & Hs'); try done;
    [rewrite (tree_fuel_file _ _ _ _ _ F1); lia|by apply (quiet_room b)| |].
  { eapply chain_ext; [|exact C]. intros x. by eapply node_at_quiet. }
  rewrite E. exists b'. split; [|split; [by eapply quiet_then|done]]. f_equal. f_equal. rewrite range_app.
  destruct (decide (from = ""%string)) as [->|Hf]; [|by rewrite (below_out from to es1)].
  destruct es1 as [|[k0 l0] es1]; [done|]. apply Forall_cons in Hbl as [Hk0 _]. cbn in Hk0.
  pose proof (ge_lo_empty k0) as [He|He]; [by rewrite <-He in Hk0; apply (irreflexivity str_lt) in Hk0|by apply str_lt_asym in He].
Qed.

(** The file can take the pages an insert may add. *)
Definition can_split b T : Prop :=
  exists last fl nm, heap_info b (bt_tableID T) = Some (last, fl, nm) /\ (2 * last + 2 < two64)%N /\ (info_size fl nm <= MetaRoom)%N.

(** The root was split: a new one above it. *)
Lemma new_root_ok b T h es1 es2 ps1 ps2 k new mid last fl nm :
  safe b -> room b 1 -> tree_file b (bt_tableID T) last fl nm -> (last + 1 < two64)%N -> (info_size fl nm <= MetaRoom)%N ->
  str_lt "" k -> (klen k <= MaxKey)%N -> (new < two64)%N -> NoDup (ps1 ++ ps2) ->
  sub b T h (bt_rootID T) "" (Some k) mid 1%N es1 ps1 -> sub b T h new k None 0%N mid es2 ps2 ->
  exists b1 fid b', allocNode b T InternalNode = Some (b1, Ok (mkNode InternalNode [] [] [] 0 (last + 1), fid))
    /\ flushNode b1 T (with_keys_children (mkNode InternalNode [] [] [] 0 (last + 1)) [k] [bt_rootID T; new]) fid = Some (b', None)
    /\ tstep (bt_tableID T) (fun _ => 0%Z) b b'
    /\ tree_at b' (mkBTree (bt_tableID T) (last + 1)) (es1 ++ es2) (S h) ((last + 1)%N :: ps1 ++ ps2) (last + 1) fl nm.
Proof.
  intros Hs Hroom F Hlast Hfit Hk Hkl Hnew Hnd H1 H2.
  destruct (allocNode_ok b T InternalNode last fl nm Hs Hroom F Hlast Hfit) as (b1 & fid & p & Ea & S1 & F1 & Hx & Hp & Hq1).
  pose proof (sub_range _ _ _ _ _ _ _ _ _ _ _ _ _ Hs F H1) as R1. pose proof (sub_range _ _ _ _ _ _ _ _ _ _ _ _ _ Hs F H2) as R2.
  set (root := with_keys_children _ _ _).
  assert (HI : internal_node root (last + 1)).
  { apply internal_of; try done; [unfold BTreeOrder; cbn; lia|by constructor|]. constructor; [|by constructor].
    destruct (bt_pages _ _ _ _ _ _ _ _ _ H1) as [Hr _]. apply R1 in Hr. pose proof (tf_last _ _ _ _ _ F). lia. }
  destruct (internal_fits _ _ HI) as [Hok Hsz].
  assert (Hpin : (0 < pin_of b1 (bt_tableID T, (last + 1)%N))%Z).
  { rewrite (ts_pin _ _ _ _ S1). unfold one. rewrite decide_True by done. pose proof (pin_of_nonneg b (bt_tableID T, (last + 1)%N) (proj1 Hs)). lia. }
  destruct (flushNode_ok b1 T root fid p (last + 1) fl nm (ts_safe _ _ _ _ S1) F1 Hx Hpin Hp Hok Hsz) as (b' & Ef & S2 & F2 & Hq2).
  exists b1, fid, b'. split; [done|]. split; [done|]. split; [by eapply tstep_close|].
  assert (Hq : forall q, q ∈ ps1 ++ ps2 -> node_at b' (bt_tableID T) q = node_at b (bt_tableID T) q).
  { intros q Hin. assert (Hle : (q <= last)%N) by (apply elem_of_app in Hin as [Hin|Hin]; [by apply R1|by apply R2]).
    rewrite Hq2. cbn [root with_keys_children n_pageID]. rewrite decide_False by lia. apply Hq1. lia. }
  split; [done| |].
  - exists root, (ps1 ++ ps2). cbn [bt_rootID bt_tableID]. rewrite Hq2, decide_True by done. split_and!; try done. cbn.
    exists mid, es1, es2, ps1, ps2. split_and!; try done; (eapply bt_frame; [|done]); intros q Hin; apply Hq; set_solver.
  - apply NoDup_cons. split; [|done]. intros [Hin|Hin]%elem_of_app; [apply R1 in Hin|apply R2 in Hin]; lia.
Qed.

(** An insert adds at most a page per level and a new root. *)
Lemma Insert_at b T es h ps key loc last fl nm :
  safe b -> room b 2 -> tree_at b T es h ps last fl nm -> (last + N.of_nat h + 2 < two64)%N -> (info_size fl nm <= MetaRoom)%N ->
  entry_ok (key, loc) ->
  exists b' T' h' ps' last', Insert b T key loc = Some (b', T', None) /\ tstep (bt_tableID T) (fun _ => 0%Z) b b'
    /\ tree_at b' T' (put_entry key loc es) h' ps' last' fl nm /\ bt_tableID T' = bt_tableID T
    /\ h' <= S h /\ (last' <= last + N.of_nat h + 2)%N.
Proof.
  intros Hs Hroom TA Hgrow Hfit Hent. destruct (tree_bounds _ _ _ _ _ _ _ _ Hs TA) as (Hh & _). destruct TA as [F Hb Hnd]. unfold Insert.
  destruct (insertRec_ok h (tree_fuel b T) b T _ _ _ _ _ _ _ key loc last fl nm Hh Hs Hroom F Hb Hnd (within_all key) Hent ltac:(lia) Hfit)
    as (b1 & r & -> & l1 & St & F1 & Hl1 & Hins & _). cbn [mbind option_bind].
  destruct Hins as [(-> & ps' & Hb' & G)|(k & new & mid & ea & eb & pa & pb & -> & Hnew & Hnl & Hlo & Hhi & Hkl & -> & Ha & Hb' & G)].
  - exists b1, T, h, ps', l1. split_and!; try done; try lia. split; [done|done|apply G].
  - rewrite (proj2 (N.eqb_neq new 0) Hnew). assert (Hroom1 : room b1 1) by (apply (tstep_room _ _ _ _ St) in Hroom; unfold room in *; lia).
    destruct (new_root_ok b1 T h ea eb pa pb k new mid l1 fl nm (ts_safe _ _ _ _ St) Hroom1 F1 ltac:(lia) Hfit Hlo Hkl Hnl (proj1 G) Ha Hb')
      as (b2 & fid & b' & -> & E & S2 & R). cbn [mbind option_bind]. rewrite E. cbn [mbind option_bind].
    eexists _, _, _, _, _. split; [done|]. split; [by eapply tstep_then|]. split; [exact R|]. split_and!; [done|lia|lia].
Qed.

Lemma Insert_ok b T es key loc :
  safe b -> room b 2 -> tree_rep b T es -> can_split b T -> entry_ok (key, loc) ->
  exists b' T', Insert b T key loc = Some (b', T', None) /\ tstep (bt_tableID T) (fun _ => 0%Z) b b'
    /\ tree_rep b' T' (put_entry key loc es) /\ bt_tableID T' = bt_tableID T.
Proof.
  intros Hs Hroom (h & ps & last & fl & nm & TA) (last0 & fl0 & nm0 & Hi & Hgrow & Hfit) Hent.
  destruct (tree_bounds _ _ _ _ _ _ _ _ Hs TA) as (_ & _ & Hhl). rewrite (tf_info _ _ _ _ _ (ta_file _ _ _ _ _ _ _ _ TA)) in Hi.
  injection Hi as <- <- <-.
  destruct (Insert_at b T es h ps key loc last fl nm Hs Hroom TA ltac:(lia) Hfit Hent) as (b' & T' & h' & ps' & l' & E & St & TA' & Ht & _).
  exists b', T'. split_and!; try done. by exists h', ps', l', fl, nm.
Qed.

(** Inserts one after the other. *)
Fixpoint insert_all b T (es : list entry) : option (BufferPool W * BTree) :=
  match es with
  | [] => Some (b, T)
  | (k, l) :: es => '(b, T, e) ← Insert b T k l; match e with None => insert_all b T es | Some _ => None end
  end.

Lemma insert_all_ok new b T es h ps last fl nm :
  safe b -> room b 2 -> tree_at b T es h ps last fl nm -> Forall entry_ok new -> (info_size fl nm <= MetaRoom)%N ->
  (last + N.of_nat (length new) * N.of_nat (h + length new + 2) < two64)%N ->
  exists b' T', insert_all b T new = Some (b', T') /\ tstep (bt_tableID T) (fun _ => 0%Z) b b'
    /\ tree_rep b' T' (foldl (fun es e => put_entry e.1 e.2 es) es new) /\ bt_tableID T' = bt_tableID T.
Proof.
  revert b T es h ps last. induction new as [|[k l] new IH]; intros b T es h ps last Hs Hroom TA Hnew Hfit Hgrow; cbn [insert_all foldl].
  - exists b, T. split_and!; try done; [by apply tstep_refl|]. by exists h, ps, last, fl, nm.
  - apply Forall_cons in Hnew as [Hk Hnew]. cbn [length] in Hgrow.
    destruct (Insert_at b T es h ps k l last fl nm Hs Hroom TA ltac:(nia) Hfit Hk) as (b1 & T1 & h1 & ps1 & l1 & -> & St & TA1 & Ht & Hh1 & Hl1).
    cbn [mbind option_bind fst snd]. destruct (IH b1 T1 (put_entry k l es) h1 ps1 l1) as (b' & T' & -> & St' & R & Ht'); try done;
      [apply St|by apply (tstep_room _ _ _ _ St)|nia|].
    exists b', T'. split; [done|]. rewrite Ht in St'. split; [by eapply tstep_then|]. split; [done|congruence].
Qed.

Lemma range_all es : range_entries "" "" es = es.
Proof. unfold range_entries. induction es as [|e es IH]; [done|]. rewrite filter_cons_True by done. by rewrite IH. Qed.

(** ** Refinement *)

Inductive TreeOp :=
| BSearch (key : RowKey)
| BInsert (key : RowKey) (loc : rowLocation)
| BDelete (key : RowKey)
| BRange (from to : RowKey)
| BAllKeys
| BCount.

Inductive TreeOut :=
| RFound (r : option rowLocation)
| RInserted (e : option BTreeError)
| RDeleted (found : bool)
| REntries (l : list entry)
| RKeys (l : list RowKey)
| RCount (n : nat).

Definition tree_exec b T (op : TreeOp) : option (BufferPool W * BTree * TreeOut) :=
  match op with
  | BSearch key => '(b, r) ← Search b T key; Some (b, T, RFound r)
  | BInsert key loc => '(b, T, e) ← Insert b T key loc; Some (b, T, RInserted e)
  | BDelete key => '(b, found) ← Delete b T key; Some (b, T, RDeleted found)
  | BRange from to => '(b, l) ← RangeAsc b T from to; Some (b, T, REntries l)
  | BAllKeys => '(b, l) ← AllKeys b T; Some (b, T, RKeys l)
  | BCount => '(b, n) ← BTree_Count b T; Some (b, T, RCount n)
  end.

Definition list_exec (es : list entry) (op : TreeOp) : list entry * TreeOut :=
  match op with
  | BSearch key => (es, RFound (get_entry key es))
  | BInsert key loc => (put_entry key loc es, RInserted None)
  | BDelete key => (del_entry key es, RDeleted (bool_decide (is_Some (get_entry key es))))
  | BRange from to => (es, REntries (range_entries from to es))
  | BAllKeys => (es, RKeys es.*1)
  | BCount => (es, RCount (length es))
  end.

(** What an insert asks for: a key of at most [MaxKey] bytes, a location
    within the width of its fields, and a file that can grow. *)
Definition tree_op_ok b T (op : TreeOp) : Prop :=
  match op with
  | BInsert key loc => entry_ok (key, loc) /\ can_split b T
  | _ => True
  end.

(** C7. The tree answers like the sorted list of its entries and changes
    like it, never panics, and leaves other files and all pins as they
    were, when the pool has two free frames, no heap write fails and an
    insert has a key of at most 26 bytes and a file that can grow
    ([tree_op_ok]). *)
Theorem tree_refines b T es op :
  safe b -> room b 2 -> tree_rep b T es -> tree_op_ok b T op ->
  exists b' T', tree_exec b T op = Some (b', T', (list_exec es op).2)
    /\ tree_rep b' T' (list_exec es op).1 /\ sorted (list_exec es op).1.*1
    /\ tstep (bt_tableID T) (fun _ => 0%Z) b b' /\ bt_tableID T' = bt_tableID T.
Proof.
  intros Hs Hroom R Hop. assert (Hroom1 : room b 1) by (unfold room in *; lia).
  enough (exists b' T', tree_exec b T op = Some (b', T', (list_exec es op).2) /\ tree_rep b' T' (list_exec es op).1
    /\ tstep (bt_tableID T) (fun _ => 0%Z) b b' /\ bt_tableID T' = bt_tableID T) as (b' & T' & E & R' & St & Ht).
  { exists b', T'. split_and!; try done. by eapply tree_sorted. }
  assert (Hread : forall b' (out : TreeOut), quiet (fun _ => 0%Z) b b' -> safe b' ->
    exists b0 T0, Some (b', T, out) = Some (b0, T0, out) /\ tree_rep b0 T0 es /\ tstep (bt_tableID T) (fun _ => 0%Z) b b0 /\ bt_tableID T0 = bt_tableID T).
  { intros b' out Q Hs'. exists b', T. split_and!; try done; [by eapply tree_quiet|by apply tstep_quiet]. }
  destruct op as [key|key loc|key|from to| |]; cbn [tree_exec list_exec fst snd].
  - destruct (Search_ok b T es key Hs Hroom1 R) as (b' & -> & Q & Hs'). by apply Hread.
  - destruct (Insert_ok b T es key loc Hs Hroom R (proj2 Hop) (proj1 Hop)) as (b' & T' & -> & St & R' & Ht). by exists b', T'.
  - destruct (Delete_ok b T es key Hs Hroom1 R) as (b' & -> & St & R'). by exists b', T.
  - destruct (RangeAsc_ok b T es from to Hs Hroom1 R) as (b' & -> & Q & Hs'). by apply Hread.
  - unfold AllKeys. destruct (RangeAsc_ok b T es "" "" Hs Hroom1 R) as (b' & -> & Q & Hs'). rewrite range_all. by apply Hread.
  - unfold BTree_Count. destruct (RangeAsc_ok b T es "" "" Hs Hroom1 R) as (b' & -> & Q & Hs'). rewrite range_all. by apply Hread.
Qed.

(** ** A new tree *)

Lemma NewBTree_ok b t fl nm :
  safe b -> room b 1 -> heap_info b t = Some (0%N, fl, nm) -> (info_size fl nm <= MetaRoom)%N ->
  exists b', NewBTree b t = Some (b', Ok (mkBTree t 1)) /\ tree_at b' (mkBTree t 1) [] 0 [1%N] 1 fl nm /\ tstep t (fun _ => 0%Z) b b'.
Proof.
  intros Hs Hroom Hi Hfit. set (T := mkBTree t 1). pose proof Hi as (h & Hh & [= El _ _])%fmap_Some.
  assert (F : tree_file b (bt_tableID T) 0 fl nm).
  { split; [done|done|]. intros pid p Hp. change (bt_tableID T) with t in Hp. apply page_of_wf in Hp as [Hin _]; [|apply Hs].
    apply in_file_info in Hin as (l & fl' & nm' & Hi' & Hr). cbn [fst snd] in *. rewrite Hi in Hi'. injection Hi' as <- _ _. lia. }
  destruct (allocNode_ok b T LeafNode 0 fl nm Hs Hroom F ltac:(done) Hfit) as (b1 & fid & p & Ea & S1 & F1 & Hx & Hp & Hq1).
  cbn [bt_tableID T] in *. change (0 + 1)%N with 1%N in *.
  assert (HL : leaf_node (leaf_of [] 0 1) 1 "" None []) by (apply leaf_of_ok; [by split; constructor|constructor|cbn; lia|done]).
  destruct (leaf_fits _ _ _ _ _ HL) as [Hok Hsz].
  assert (Hpin : (0 < pin_of b1 (t, 1%N))%Z).
  { rewrite (ts_pin _ _ _ _ S1). unfold one. rewrite decide_True by done. pose proof (pin_of_nonneg b (t, 1%N) (proj1 Hs)). lia. }
  destruct (flushNode_ok b1 T (leaf_of [] 0 1) fid p 1 fl nm (ts_safe _ _ _ _ S1) F1 Hx Hpin Hp Hok Hsz) as (b' & Ef & S2 & F2 & Hq2).
  exists b'. split; [|split; [|by eapply tstep_close]].
  - unfold NewBTree, LastPageID. rewrite Hh, <-El. cbn [N.eqb]. unfold initRoot. fold T. unfold allocNode in Ea. cbn [bt_tableID T] in *.
    destruct (Pool_NewPage b t) as [[b1' [[pid fid']|e]]|]; [|done|done]. cbn [mbind option_bind] in *. injection Ea as -> -> ->.
    cbn [N.eqb Pos.eqb negb]. change (mkNode LeafNode [] [] [] 0 1) with (leaf_of [] 0 1). by rewrite Ef.
  - split; [done| |apply NoDup_singleton]. eexists. cbn [bt_rootID bt_tableID T]. rewrite Hq2, decide_True by done. by split_and!.
Qed.

(** ** A tree opened again *)

Lemma length_first (nd : N -> option btreeNode) pid lo hi next first es ps : bt nd 0 pid lo hi next first es ps -> length es <= BTreeOrder.
Proof. intros (n & _ & HL & _). apply (leaf_node_of _ _ _ _ _ HL). Qed.

(** [NewBTree] on a file with pages takes page 1 as the root, but the root
    moves when it is split: once the tree has more entries than a leaf
    holds, some key that the tree has is not found in the tree opened again,
    although it still lists all of them. *)
Theorem tree_reopen_misses b T es :
  safe b -> room b 1 -> tree_rep b T es -> BTreeOrder < length es ->
  exists T1 key loc b1 b2 b3, NewBTree b (bt_tableID T) = Some (b, Ok T1) /\ T1 = mkBTree (bt_tableID T) 1
    /\ Search b T key = Some (b1, Some loc) /\ Search b T1 key = Some (b2, None) /\ AllKeys b T1 = Some (b3, es.*1).
Proof.
  intros Hs Hroom R Hlen. pose proof (tree_sorted _ _ _ R) as Hso. pose proof R as (h & ps & last & fl & nm & TA).
  destruct (tree_bounds _ _ _ _ _ _ _ _ Hs TA) as (_ & Hps & Hlast). destruct TA as [F Hb Hnd]. set (T1 := mkBTree (bt_tableID T) 1).
  destruct (bt_first _ _ _ _ _ _ _ _ _ Hb) as (hi' & nx & es1 & es2 & -> & Hl). pose proof (length_first _ _ _ _ _ _ _ _ Hl) as Hl1.
  destruct es2 as [|[key loc] es2]; [rewrite app_nil_r in Hlen; lia|]. set (es := es1 ++ (key, loc) :: es2) in *.
  assert (Hin : get_entry key es = Some loc).
  { apply elem_of_list_to_map; [by apply sorted_NoDup|]. apply elem_of_app. right. by left. }
  assert (Hout : get_entry key es1 = None).
  { apply not_elem_of_list_to_map. pose proof (sorted_NoDup _ Hso) as Hd. unfold es in Hd. rewrite fmap_app in Hd.
    apply NoDup_app in Hd as (_ & Hd & _). intros Hk. apply (Hd key Hk). by left. }
  destruct (Search_ok b T es key Hs Hroom R) as (b1 & E1 & _). rewrite Hin in E1.
  destruct (search_leaf (N.to_nat last) b T1 1 "" hi' nx 1%N es1 [1%N] key last fl nm Hs Hroom F Hl) as (b2 & E2 & _). rewrite Hout in E2.
  pose proof (tf_info _ _ _ _ _ F) as (hf & Ehf & [= El _ _])%fmap_Some.
  pose proof (tree_fuel_file b T1 last fl nm F) as Hfuel.
  pose proof Hl as (n & Hn & HL & _). destruct (readNode_ok b T1 1 n _ _ _ Hs Hroom F Hn) as (b0 & fid & p & E & O & _).
  destruct (read_close _ _ _ _ _ _ _ O E) as [Q Hs0]. set (b0' := UnpinPage _ _ _ _) in *.
  destruct (bt_chain _ _ _ _ _ _ _ _ _ Hb) as (k & C & Hk).
  destruct (range_leaves_ok k (S (N.to_nat last)) b0' T1 "" "" 1 es last fl nm) as (b3 & E3 & _); try done;
    [|by apply (quiet_room b)|by eapply tree_file_quiet|by eapply chain_ext; [intros x; by eapply node_at_quiet|]|].
  { pose proof (pages_count ps last Hnd (sub_range _ _ _ _ _ _ _ _ _ _ _ _ _ Hs F Hb)). lia. }
  exists T1, key, loc, b1, b2, b3. split_and!; try done.
  - unfold NewBTree, LastPageID. rewrite Ehf. rewrite (proj2 (N.eqb_neq _ 0)) by lia. done.
  - unfold Search. by rewrite Hfuel.
  - unfold AllKeys, RangeAsc, findLeafPage. rewrite Hfuel. cbn [find_leaf]. cbn [bt_rootID T1]. rewrite E. cbn [mbind option_bind].
    rewrite (leaf_is_leaf _ _ _ _ _ HL). cbn [mbind option_bind]. change (bt_tableID (mkBTree (bt_tableID T) 1)) with (bt_tableID T). fold b0'.
    rewrite (tree_fuel_file b0' T1 last fl nm (tree_file_quiet _ _ _ _ _ _ _ Q F)), E3, range_all. done.
Qed.
End Tree.

(** ** The index of a paged table *)

Lemma list_to_map_size (es : list entry) : NoDup es.*1 -> size (list_to_map es : gmap RowKey rowLocation) = length es.
Proof.
  intros Hnd. rewrite <-length_map_to_list. apply Permutation_length. by apply map_to_list_to_map.
Qed.

Lemma sorted_le (l : list RowKey) : sorted l -> StronglySorted String.le l.
Proof. induction 1 as [|x l Hs IH Hx]; constructor; [done|]. eapply Forall_impl; [exact Hx|]. intros y Hy. by apply str_lt_le. Qed.

#[export] Instance treeIndexLaws {W} `{HF : Flusher W} : IndexLaws W BTree.
Proof.
  assert (Hstep : forall (b b' : BufferPool W) (T : BTree), quiet (fun _ => 0%Z) b b' -> safe b' -> index_step (eq (bt_tableID T)) b b').
  { intros b b' T Q Hs. by apply tstep_index, tstep_quiet. }
  refine {| own := fun T t => bt_tableID T = t;
            index_rep := fun b T m => exists es, tree_rep b T es /\ m = list_to_map es;
            ix_room := 2;
            may_insert := fun b T k => (klen k <= MaxKey)%N /\ can_split b T |}.
  - intros b b' T m (es & (h & ps & last & fl & nm & [[F1 F2 F3] Hb Hnd]) & ->) Hp Hi. exists es. split; [|done].
    exists h, ps, last, fl, nm. split; [split| |done].
    + by rewrite Hi.
    + done.
    + intros pid p. rewrite Hp by done. apply F3.
    + eapply bt_frame; [|exact Hb]. intros q _. unfold node_at. by rewrite Hp.
  - intros b b' T k [Hk (last & fl & nm & Hh & Hg)] Hi. split; [done|]. exists last, fl, nm. by rewrite Hi.
  - intros b T m k Hs Hroom (es & R & ->). destruct (Search_ok b T es k Hs) as (b' & E & Q & Hs'); [unfold room in *; lia|done|].
    exists b'. split; [done|]. split; [by apply Hstep|]. split; [exists es; split; [by eapply tree_quiet|done]|].
    intros k' [Hk (last & fl & nm & Hh & Hg)]. split; [done|]. exists last, fl, nm. by rewrite (qt_info _ _ _ Q).
  - intros b T m k l Hs Hroom (es & R & ->) [Hk Hg] [L1 L2].
    destruct (Insert_ok b T es k l Hs Hroom R Hg) as (b' & T' & E & St & R' & Ht); [split; [done|]; split; [done|unfold two32; cbn; lia]|].
    exists b', T'. cbn [indexInsert treeIndex]. rewrite E. split; [done|]. split; [by apply tstep_index|]. split; [|intros t; by rewrite Ht].
    exists (put_entry k l es). split; [done|]. rewrite list_to_map_put; [done|]. by eapply sorted_NoDup, tree_sorted.
  - intros b T m k Hs Hroom (es & R & ->) _. destruct (Delete_ok b T es k Hs) as (b' & E & St & R'); [unfold room in *; lia|done|].
    exists b', T. cbn [indexDelete treeIndex]. rewrite E. split; [done|]. split; [by apply tstep_index|]. split; [|done].
    exists (del_entry k es). split; [done|]. symmetry. apply list_to_map_del.
  - intros b T m Hs Hroom (es & R & ->). destruct (RangeAsc_ok b T es "" "" Hs) as (b' & E & Q & Hs'); [unfold room in *; lia|done|].
    pose proof (tree_sorted _ _ _ R) as Hso. exists b', es.*1. cbn [indexAllKeys treeIndex]. unfold AllKeys. rewrite E, range_all.
    split; [done|]. split; [by apply Hstep|]. split; [exists es; split; [by eapply tree_quiet|done]|]. split; [by apply sorted_NoDup|].
    split; [|intros _; by apply sorted_le].
    intros k. split.
    + intros (e & -> & He)%list_elem_of_fmap. destruct e as [k0 l0]. exists l0. apply elem_of_list_to_map; [by apply sorted_NoDup|done].
    + intros [l Hl]. apply elem_of_list_to_map_2 in Hl. by apply (list_elem_of_fmap_2 fst) in Hl.
  - intros b T m Hs Hroom (es & R & ->). destruct (RangeAsc_ok b T es "" "" Hs) as (b' & E & Q & Hs'); [unfold room in *; lia|done|].
    exists b'. cbn [indexCount treeIndex]. unfold BTree_Count. rewrite E, range_all. rewrite list_to_map_size by (by eapply sorted_NoDup, tree_sorted).
    split; [done|]. split; [by apply Hstep|]. exists es. split; [by eapply tree_quiet|done].
Defined.

Lemma OpenHeapFile_empty t : (info_size [] t <= MetaRoom)%N -> exists h, OpenHeapFile t [] [] = Some (Ok h) /\ hf_tableName h = t.
Proof.
  intros Hfit. unfold OpenHeapFile. cbn [length Nat.eqb]. rewrite writeMeta_io by done. unfold put_meta. rewrite (meta_area_ok (mkHeap [] t 0 [] []) Hfit). cbn [mbind option_bind].
  by eexists.
Qed.

(** A new table with a tree of its own is empty, and so [paged_refines]
    speaks of it. *)
Lemma NewTreeTable_ok {W} `{HF : Flusher W} (b : BufferPool W) name cols files nm :
  let t := ("btree-" ++ name)%string in
  safe b -> room b 1 -> heap_info b name = Some (0%N, [], nm) -> bp_heaps b !! t = None -> files t = [] ->
  (info_size [] t <= MetaRoom)%N ->
  exists b' pt, NewTreeTable name cols [] files b = Some (b', Ok pt) /\ table_rep b' pt ∅ /\ (forall x, pin_of b' x = pin_of b x).
Proof.
  intros t Hs Hroom Hi Hnone Hfile Hfit. unfold NewTreeTable. fold t. rewrite Hnone, Hfile.
  destruct (OpenHeapFile_empty t Hfit) as (h & Eo & Hname). rewrite Eo. cbn [mbind option_bind].
  destruct (OpenHeapFile_new t h Eo) as (HK & El & Ef).
  destruct (add_heap_safe b t h Hs Hnone HK El) as (Hs1 & Hc1 & Hp1 & Hi1). set (b1 := with_heaps b _) in *.
  assert (Hne : name <> t).
  { intros E. pose proof (f_equal String.length E) as El'. change (String.length t) with (6 + String.length name) in El'. lia. }
  assert (Hit : heap_info b1 t = Some (0%N, [], t)) by (rewrite Hi1, decide_True by done; congruence).
  destruct (NewBTree_ok b1 t [] t Hs1 (room_pins _ _ _ Hc1 Hp1 Hroom) Hit Hfit) as (b2 & -> & TA & St). cbn [mbind option_bind].
  assert (Hi2 : heap_info b2 name = Some (0%N, [], nm)) by (rewrite (ts_info _ _ _ _ St name Hne), Hi1, decide_False by done; exact Hi).
  unfold NewPagedTable, RebuildIndex. set (pt := with_index _ _). change (pt_tableID pt) with name.
  pose proof Hi2 as (h2 & Eh2 & [= E2 _ _])%fmap_Some. rewrite Eh2. cbn [mbind option_bind]. unfold LastPageID. rewrite <-E2. cbn [N.to_nat rebuild_pages].
  exists b2, pt. split; [done|]. split; [|intros x; rewrite (ts_pin _ _ _ _ St), Hp1; lia].
  apply (table_rep_new b2 name cols (mkBTree t 1) nm (ts_safe _ _ _ _ St) Hi2).
  - exists []. split; [by exists 0, [1%N], 1%N, [], t|done].
  - cbn. by apply not_eq_sym.
Qed.

(** ** Runs *)

Module TreeRun.

#[local] Instance gob : GobATT := gob_countable.

Definition tree0 : BTree := mkBTree "t" 1.
Definition loc1 : rowLocation := mkLoc 1 0.

Lemma pool0_room : room PagedRun.pool0 2.
Proof.
  destruct PagedRun.pool0_ok as (_ & Hp & _). unfold room. replace (pinset PagedRun.pool0) with (∅ : gset (string * N)); [by rewrite size_empty|].
  apply set_eq. intros x. rewrite elem_of_pinset, Hp, elem_of_empty. split; [done|lia].
Qed.

Lemma pool0_new : exists b, NewBTree PagedRun.pool0 "t" = Some (b, Ok tree0) /\ safe b /\ room b 2 /\ tree_at b tree0 [] 0 [1%N] 1 [] "t".
Proof.
  destruct PagedRun.pool0_ok as (Hs & _ & Hr & Hi).
  destruct (NewBTree_ok PagedRun.pool0 "t" [] "t" Hs Hr Hi) as (b & E & R & St); [vm_compute; discriminate|].
  exists b. split; [exact E|]. split; [exact (ts_safe _ _ _ _ St)|]. split; [exact (tstep_room _ _ _ _ St pool0_room)|exact R].
Qed.

Lemma tree_refines_witness :
  exists (b b' : BufferPool WalMgr) T', safe b /\ tree_rep b tree0 [] /\ tree_exec b tree0 (BInsert "k" loc1) = Some (b', T', RInserted None)
    /\ tree_rep b' T' [("k", loc1)].
Proof.
  destruct pool0_new as (b & _ & Hs & Hr & TA).
  assert (R : tree_rep b tree0 []) by (exists 0, [1%N], 1%N, [], "t"; exact TA).
  destruct (tree_refines b tree0 [] (BInsert "k" loc1) Hs Hr R) as (b' & T' & E & R' & _).
  - split; [split; [vm_compute; discriminate|split; reflexivity]|]. exists 1%N, [], "t". split; [exact (tf_info _ _ _ _ _ (ta_file _ _ _ _ _ _ _ _ TA))|].
    split; [reflexivity|vm_compute; discriminate].
  - exists b, b', T'. split; [exact Hs|]. split; [exact R|]. split; [exact E|exact R'].
Defined.

(** One entry more than a leaf holds. *)
Definition key (i : nat) : RowKey := String (Ascii.ascii_of_nat (48 + i / 10)) (String (Ascii.ascii_of_nat (48 + i mod 10)) "").
Definition entries101 : list entry := (fun i => (key i, mkLoc 1 (N.of_nat i))) <$> seq 0 101.
Definition list101 : list entry := foldl (fun es e => put_entry e.1 e.2 es) [] entries101.

Lemma entries101_ok : Forall entry_ok entries101.
Proof.
  apply Forall_fmap, Forall_forall. intros i Hi. apply elem_of_seq in Hi. split; [vm_compute; discriminate|]. cbn. unfold two32. split; [reflexivity|lia].
Qed.

Lemma list101_length : length list101 = 101.
Proof. vm_compute. reflexivity. Qed.

Lemma tree101 : exists (b : BufferPool WalMgr) T, safe b /\ room b 2 /\ tree_rep b T list101 /\ bt_tableID T = "t".
Proof.
  destruct pool0_new as (b & _ & Hs & Hr & TA).
  destruct (insert_all_ok entries101 b tree0 [] 0 [1%N] 1 [] "t" Hs Hr TA entries101_ok) as (b' & T' & _ & St & R & Ht);
    [vm_compute; discriminate|vm_compute; reflexivity|].
  exists b', T'. split; [exact (ts_safe _ _ _ _ St)|]. split; [exact (tstep_room _ _ _ _ St Hr)|]. split; [exact R|exact Ht].
Qed.

Lemma tree_reopen_misses_witness :
  exists (b : BufferPool WalMgr) T T1 key loc b1 b2 b3, NewBTree b "t" = Some (b, Ok T1) /\ tree_rep b T list101
    /\ Search b T key = Some (b1, Some loc) /\ Search b T1 key = Some (b2, None) /\ AllKeys b T1 = Some (b3, list101.*1).
Proof.
  destruct tree101 as (b & T & Hs & Hr & R & Ht).
  destruct (tree_reopen_misses b T list101 Hs) as (T1 & k & l & b1 & b2 & b3 & E & _ & E1 & E2 & E3).
  - unfold room in *. lia.
  - exact R.
  - rewrite list101_length. unfold BTreeOrder. lia.
  - rewrite Ht in E. exists b, T, T1, k, l, b1, b2, b3. split; [exact E|]. split; [exact R|]. split; [exact E1|]. split; [exact E2|exact E3].
Defined.
End TreeRun.
