(* ===== verification/Ssi.v ===== *)
(** * Serializable snapshot isolation ([internal/isolation/ssi.go])

    The SIREAD table, the rw-antidependency edges, the pivot test of
    [CheckCommit] and [Cleanup]. A transaction handed to the tracker is its
    identifier; the answers of its methods [IsActive] are an argument, and
    the transactions whose conflict flags the tracker sets are part of the
    result. *)

From Stdlib Require Import NArith Lia String.
From stdpp Require Import base tactics numbers list gmap strings sets.
From S2P Require Import Prelude Types.

Record SSITracker := mkSSI {
  ssi_siread : gmap string (gset N);
  ssi_edges : gmap N (gset N);
}.

Definition NewSSITracker : SSITracker := mkSSI ∅ ∅.

Definition readers (s : SSITracker) (key : string) : gset N := default ∅ (ssi_siread s !! key).
Definition rw_succs (s : SSITracker) (t : N) : gset N := default ∅ (ssi_edges s !! t).

Definition RecordRead (s : SSITracker) (reader : N) (key : string) : SSITracker :=
  mkSSI (<[key := {[reader]} ∪ readers s key]> (ssi_siread s)) (ssi_edges s).

(** The loop of [RecordWrite] over the readers; the readers whose
    [InConflict] flag it sets are returned (the writer's [OutConflict] flag
    is set when there is one). *)
Fixpoint record_write_loop (isActive : N -> bool) (writer : N) (rs : list N)
    (edges : gmap N (gset N)) : gmap N (gset N) * list N :=
  match rs with
  | [] => (edges, [])
  | r :: rs =>
      if (r =? writer)%N then record_write_loop isActive writer rs edges
      else if negb (isActive r) then record_write_loop isActive writer rs edges
      else
        let '(edges, flagged) :=
          record_write_loop isActive writer rs
            (<[r := {[writer]} ∪ default ∅ (edges !! r)]> edges) in
        (edges, r :: flagged)
  end.

Definition RecordWrite (isActive : N -> bool) (s : SSITracker) (writer : N) (key : string)
    : SSITracker * list N :=
  let '(edges, flagged) :=
    record_write_loop isActive writer (elements (readers s key)) (ssi_edges s) in
  (mkSSI (ssi_siread s) edges, flagged).

Definition isPivotLocked (s : SSITracker) (txnID : N) : bool :=
  if size (rw_succs s txnID) =? 0 then false
  else existsb (fun '(_, tos) => bool_decide (txnID ∈ (tos : gset N))) (map_to_list (ssi_edges s)).

(** [true]: the error [SSIError] is returned. *)
Definition CheckCommit (s : SSITracker) (txnID : N) : bool := isPivotLocked s txnID.

Definition Cleanup (s : SSITracker) (txnID : N) : SSITracker :=
  mkSSI ((fun rs : gset N => rs ∖ {[txnID]}) <$> ssi_siread s)
        ((fun tos : gset N => tos ∖ {[txnID]}) <$> delete txnID (ssi_edges s)).

Definition SSI_Reset (s : SSITracker) : SSITracker := NewSSITracker.

(** ** The specification *)

Definition rw_edge (s : SSITracker) (reader writer : N) : Prop := writer ∈ rw_succs s reader.

Definition pivot (s : SSITracker) (t : N) : Prop :=
  (exists w, rw_edge s t w) /\ (exists r, rw_edge s r t).

Lemma isPivotLocked_spec s t : isPivotLocked s t = true <-> pivot s t.
Proof.
  unfold isPivotLocked, pivot, rw_edge. destruct (Nat.eqb_spec (size (rw_succs s t)) 0) as [E|E].
  - split; [done|]. intros [[w Hw] _]. apply size_empty_inv in E. set_solver.
  - rewrite existsb_exists. split.
    + intros ([r tos] & Hin & Hb). apply bool_decide_eq_true in Hb. split.
      * apply size_non_empty_iff in E. by apply set_choose in E.
      * exists r. unfold rw_succs. apply list_elem_of_In, elem_of_map_to_list in Hin. by rewrite Hin.
    + intros [_ [r Hr]]. unfold rw_succs in Hr. destruct (ssi_edges s !! r) as [tos|] eqn:Er.
      * exists (r, tos). split; [by apply list_elem_of_In, elem_of_map_to_list|].
        by apply bool_decide_eq_true.
      * simpl in Hr. set_solver.
Qed.

Lemma record_write_loop_spec act w rs edges x y :
  y ∈ default ∅ ((record_write_loop act w rs edges).1 !! x) <->
  y ∈ default ∅ (edges !! x) \/ (y = w /\ x ∈ rs /\ x <> w /\ act x = true).
Proof.
  revert edges. induction rs as [|r rs IH]; intros edges; simpl.
  { split; [by left|]. by intros [?|(_ & ?%elem_of_nil & _)]. }
  rewrite elem_of_cons. destruct (N.eqb_spec r w) as [->|Hne].
  { rewrite IH. clear IH. intuition congruence. }
  destruct (act r) eqn:Ea; simpl.
  - pose proof (IH (<[r := {[w]} ∪ default ∅ (edges !! r)]> edges)) as IHr. clear IH.
    destruct (record_write_loop act w rs _) as [e f]. simpl in *. rewrite IHr. clear IHr.
    rewrite lookup_insert. case_decide; [subst x; simpl; rewrite elem_of_union, elem_of_singleton|];
      intuition congruence.
  - rewrite IH. clear IH. intuition congruence.
Qed.

Lemma RecordWrite_edges act s w key x y :
  rw_edge (RecordWrite act s w key).1 x y <->
  rw_edge s x y \/ (y = w /\ x ∈ readers s key /\ x <> w /\ act x = true).
Proof.
  unfold RecordWrite, rw_edge, rw_succs.
  pose proof (record_write_loop_spec act w (elements (readers s key)) (ssi_edges s) x y) as Hl.
  destruct (record_write_loop _ _ _ _) as [e f]. simpl in *. rewrite Hl. set_solver.
Qed.

Lemma RecordRead_edges s t key x y : rw_edge (RecordRead s t key) x y <-> rw_edge s x y.
Proof. done. Qed.

Lemma RecordRead_readers s t key key' :
  readers (RecordRead s t key) key' = if decide (key = key') then {[t]} ∪ readers s key else readers s key'.
Proof. unfold readers, RecordRead. simpl. rewrite lookup_insert. by case_decide. Qed.

Lemma Cleanup_edges s t x y : rw_edge (Cleanup s t) x y <-> rw_edge s x y /\ x <> t /\ y <> t.
Proof.
  unfold rw_edge, rw_succs, Cleanup. simpl. rewrite lookup_fmap.
  destruct (decide (x = t)) as [->|Hne].
  - rewrite lookup_delete_eq. set_solver.
  - rewrite lookup_delete_ne by done. destruct (ssi_edges s !! x); simpl; set_solver.
Qed.

Lemma Cleanup_readers s t key : readers (Cleanup s t) key = readers s key ∖ {[t]}.
Proof.
  unfold readers, Cleanup. simpl. rewrite lookup_fmap.
  destruct (ssi_siread s !! key); simpl; set_solver.
Qed.

(** ** Properties *)

(** [CheckCommit] rejects exactly the pivots: the transactions with an
    rw-antidependency in and one out among those the tracker holds; an edge
    from a reader to a writer is recorded exactly when the writer writes a
    key an active other transaction has read; and [Cleanup] of a
    transaction removes its edges and its reads and nothing else. *)
Theorem CheckCommit_pivots s act t w key x y :
  (CheckCommit s t = true <-> pivot s t)
  /\ (rw_edge (RecordWrite act s w key).1 x y <->
        rw_edge s x y \/ (y = w /\ x ∈ readers s key /\ x <> w /\ act x = true))
  /\ (rw_edge (Cleanup s t) x y <-> rw_edge s x y /\ x <> t /\ y <> t)
  /\ readers (Cleanup s t) key = readers s key ∖ {[t]}.
Proof.
  split_and!; [apply isPivotLocked_spec|apply RecordWrite_edges|apply Cleanup_edges|
               apply Cleanup_readers].
Qed.

(** Two transactions read both of two rows; the first writes one row and
    commits ([CheckCommit], then [Cleanup]), then the second writes the
    other row. *)
Definition skew1 : SSITracker :=
  let s := RecordRead (RecordRead NewSSITracker 1 "x") 1 "y" in
  let s := RecordRead (RecordRead s 2 "x") 2 "y" in
  (RecordWrite (fun _ => true) s 1 "x").1.

Definition skew2 : SSITracker :=
  (RecordWrite (fun t => negb (t =? 1)%N) (Cleanup skew1 1) 2 "y").1.

(** Write skew goes through when the commits do not overlap the writes:
    the first committer's edges and reads are dropped at its commit, so the
    second transaction, which writes what the first has read, is no pivot
    and commits as well. (With both writes before the first commit, the
    first transaction is rejected.) *)
Theorem write_skew_after_commit :
  CheckCommit skew1 1 = false /\ CheckCommit skew2 2 = false
  /\ CheckCommit (RecordWrite (fun _ => true) skew1 2 "y").1 1 = true.
Proof. vm_compute. split_and!; reflexivity. Qed.
