(* ===== verification/Txn.v ===== *)
(** * The transaction manager ([internal/txn])

    snapshot.go, undo_log.go, savepoint.go, transaction.go and manager.go.
    A transaction object is identified with its identifier: the map
    [m_objs] holds every object ever created, the set [m_txns] is the key
    set of the manager's active map. Each exported operation is one
    function on the whole state; it is the code of the operation run without
    interleaving. The lock manager and the log are reached through the
    interfaces [LockService] and [WALWriter]; callbacks and clocks are not
    modelled. *)

From Stdlib Require Import ZArith NArith Lia Strings.Byte String.
From stdpp Require Import base tactics numbers list gmap strings sorting.
From S2P Require Import Prelude Types Lock Acquire Storage Mvcc WalRecord Wal Ssi.

(** ** snapshot.go *)

Record Snapshot := mkSnapshot { s_Xmin : N; s_Xmax : N; s_Active : list N }.

Definition Contains (s : Snapshot) (id : N) : bool := existsb (N.eqb id) (s_Active s).

Definition Snapshot_IsCommitted (s : Snapshot) (id : N) : bool :=
  if (s_Xmax s <=? id)%N then false
  else if (id <? s_Xmin s)%N then true
  else negb (Contains s id).

#[export] Instance Snapshot_view : SnapshotView Snapshot :=
  {| ContainsID := Contains; GetXmin := s_Xmin; GetXmax := s_Xmax |}.

(** ** undo_log.go, savepoint.go *)

Inductive UndoOpType := UndoInsert | UndoUpdate | UndoDelete.

#[export] Instance UndoOpType_eq_dec : EqDecision UndoOpType.
Proof. solve_decision. Defined.

Definition op_code (op : UndoOpType) : N :=
  match op with UndoInsert => 0 | UndoUpdate => 1 | UndoDelete => 2 end.

Record UndoEntry := mkUndo {
  u_Op : UndoOpType;
  u_Table : string;
  u_Key : RowKey;
  u_BeforeImage : Values;
  u_WALWriteLSN : N;
}.

Notation UndoLog := (list UndoEntry).

Definition AppendWithLSN (u : UndoLog) (op : UndoOpType) (table : string) (key : RowKey)
    (before : Values) (walLSN : N) : UndoLog := u ++ [mkUndo op table key before walLSN].

Definition EntriesFrom (u : UndoLog) (position : nat) : list UndoEntry :=
  if length u <=? position then [] else drop position u.

Definition TruncateTo (u : UndoLog) (position : nat) : UndoLog :=
  if position <? length u then take position u else u.

Record Savepoint := mkSavepoint { sp_Name : string; sp_UndoPosition : nat }.

(** ** transaction.go *)

Inductive TxnState := TxnActive | TxnCommitted | TxnAborted.
Inductive ConcurrencyProtocol := Protocol2PL | ProtocolMVCC.
Inductive IsolationLevel := ReadUncommitted | ReadCommitted | RepeatableRead | Serializable.

#[export] Instance TxnState_eq_dec : EqDecision TxnState.
Proof. solve_decision. Defined.
#[export] Instance ConcurrencyProtocol_eq_dec : EqDecision ConcurrencyProtocol.
Proof. solve_decision. Defined.
#[export] Instance IsolationLevel_eq_dec : EqDecision IsolationLevel.
Proof. solve_decision. Defined.

(** [LocksHeld] is kept by the lock service. *)
Record Transaction := mkTxn {
  x_ID : N;
  x_Status : TxnState;
  x_Protocol : ConcurrencyProtocol;
  x_Isolation : IsolationLevel;
  x_Snapshot : option Snapshot;
  x_StmtSnapshot : option Snapshot;
  x_ReadSet : gset RowKey;
  x_WriteSet : gset RowKey;
  x_UndoLog : UndoLog;
  x_Savepoints : list Savepoint;
  x_InConflict : bool;
  x_OutConflict : bool;
  x_SIReadKeys : gset RowKey;
  x_LastWALLSN : N;
  x_aborting : bool;  (* [AbortCh] is closed *)
}.

Definition NewTransaction (id : N) (protocol : ConcurrencyProtocol) (iso : IsolationLevel)
    (snap : option Snapshot) : Transaction :=
  mkTxn id TxnActive protocol iso snap None ∅ ∅ [] [] false false ∅ LSNInvalid false.

Definition set_x_Status (s : TxnState) (t : Transaction) : Transaction :=
  mkTxn (x_ID t) s (x_Protocol t) (x_Isolation t) (x_Snapshot t) (x_StmtSnapshot t) (x_ReadSet t)
    (x_WriteSet t) (x_UndoLog t) (x_Savepoints t) (x_InConflict t) (x_OutConflict t)
    (x_SIReadKeys t) (x_LastWALLSN t) (x_aborting t).
Definition set_x_Snapshot (s : option Snapshot) (t : Transaction) : Transaction :=
  mkTxn (x_ID t) (x_Status t) (x_Protocol t) (x_Isolation t) s (x_StmtSnapshot t) (x_ReadSet t)
    (x_WriteSet t) (x_UndoLog t) (x_Savepoints t) (x_InConflict t) (x_OutConflict t)
    (x_SIReadKeys t) (x_LastWALLSN t) (x_aborting t).
Definition set_x_StmtSnapshot (s : option Snapshot) (t : Transaction) : Transaction :=
  mkTxn (x_ID t) (x_Status t) (x_Protocol t) (x_Isolation t) (x_Snapshot t) s (x_ReadSet t)
    (x_WriteSet t) (x_UndoLog t) (x_Savepoints t) (x_InConflict t) (x_OutConflict t)
    (x_SIReadKeys t) (x_LastWALLSN t) (x_aborting t).
Definition addRead (k : RowKey) (t : Transaction) : Transaction :=
  mkTxn (x_ID t) (x_Status t) (x_Protocol t) (x_Isolation t) (x_Snapshot t) (x_StmtSnapshot t)
    ({[k]} ∪ x_ReadSet t) (x_WriteSet t) (x_UndoLog t) (x_Savepoints t) (x_InConflict t)
    (x_OutConflict t) (x_SIReadKeys t) (x_LastWALLSN t) (x_aborting t).
Definition addWrite (k : RowKey) (t : Transaction) : Transaction :=
  mkTxn (x_ID t) (x_Status t) (x_Protocol t) (x_Isolation t) (x_Snapshot t) (x_StmtSnapshot t)
    (x_ReadSet t) ({[k]} ∪ x_WriteSet t) (x_UndoLog t) (x_Savepoints t) (x_InConflict t)
    (x_OutConflict t) (x_SIReadKeys t) (x_LastWALLSN t) (x_aborting t).
Definition addSIRead (k : RowKey) (t : Transaction) : Transaction :=
  mkTxn (x_ID t) (x_Status t) (x_Protocol t) (x_Isolation t) (x_Snapshot t) (x_StmtSnapshot t)
    (x_ReadSet t) (x_WriteSet t) (x_UndoLog t) (x_Savepoints t) (x_InConflict t)
    (x_OutConflict t) ({[k]} ∪ x_SIReadKeys t) (x_LastWALLSN t) (x_aborting t).
Definition set_x_UndoLog (u : UndoLog) (t : Transaction) : Transaction :=
  mkTxn (x_ID t) (x_Status t) (x_Protocol t) (x_Isolation t) (x_Snapshot t) (x_StmtSnapshot t)
    (x_ReadSet t) (x_WriteSet t) u (x_Savepoints t) (x_InConflict t)
    (x_OutConflict t) (x_SIReadKeys t) (x_LastWALLSN t) (x_aborting t).
Definition set_x_Savepoints (sps : list Savepoint) (t : Transaction) : Transaction :=
  mkTxn (x_ID t) (x_Status t) (x_Protocol t) (x_Isolation t) (x_Snapshot t) (x_StmtSnapshot t)
    (x_ReadSet t) (x_WriteSet t) (x_UndoLog t) sps (x_InConflict t)
    (x_OutConflict t) (x_SIReadKeys t) (x_LastWALLSN t) (x_aborting t).
Definition SetInConflict (t : Transaction) : Transaction :=
  mkTxn (x_ID t) (x_Status t) (x_Protocol t) (x_Isolation t) (x_Snapshot t) (x_StmtSnapshot t)
    (x_ReadSet t) (x_WriteSet t) (x_UndoLog t) (x_Savepoints t) true
    (x_OutConflict t) (x_SIReadKeys t) (x_LastWALLSN t) (x_aborting t).
Definition SetOutConflict (t : Transaction) : Transaction :=
  mkTxn (x_ID t) (x_Status t) (x_Protocol t) (x_Isolation t) (x_Snapshot t) (x_StmtSnapshot t)
    (x_ReadSet t) (x_WriteSet t) (x_UndoLog t) (x_Savepoints t) (x_InConflict t)
    true (x_SIReadKeys t) (x_LastWALLSN t) (x_aborting t).
Definition set_x_LastWALLSN (lsn : N) (t : Transaction) : Transaction :=
  mkTxn (x_ID t) (x_Status t) (x_Protocol t) (x_Isolation t) (x_Snapshot t) (x_StmtSnapshot t)
    (x_ReadSet t) (x_WriteSet t) (x_UndoLog t) (x_Savepoints t) (x_InConflict t)
    (x_OutConflict t) (x_SIReadKeys t) lsn (x_aborting t).
Definition closeAbort (t : Transaction) : Transaction :=
  mkTxn (x_ID t) (x_Status t) (x_Protocol t) (x_Isolation t) (x_Snapshot t) (x_StmtSnapshot t)
    (x_ReadSet t) (x_WriteSet t) (x_UndoLog t) (x_Savepoints t) (x_InConflict t)
    (x_OutConflict t) (x_SIReadKeys t) (x_LastWALLSN t) true.

(** ** The lock service

    [lk_acquire] is a call of [AcquireLockCtx] from its start to its return;
    [lk_held] is the transaction's held set. *)

Class LockService (L : Type) := {
  lk_acquire : L -> N -> ResourceID -> Mode -> L * result TxnError unit;
  lk_release_all : L -> N -> L;
  lk_held : L -> N -> HeldSet;
}.

(** ** manager.go *)

Definition ErrTooManyTransactions : GoError := EOther "too many active transactions".

Record Mgr (L W : Type) := mkMgr {
  m_objs : gmap N Transaction;
  m_txns : gset N;
  m_committed : gset N;
  m_aborted : gset N;
  m_nextID : N;
  m_MaxActive : nat;
  m_opEpoch : N;
  m_locks : L;
  m_Catalog : Catalog;
  m_MVCCStore : Store;
  m_SSI : SSITracker;
  m_WAL : option W;
}.
Arguments mkMgr {L W}.
Arguments m_objs {L W}. Arguments m_txns {L W}. Arguments m_committed {L W}.
Arguments m_aborted {L W}. Arguments m_nextID {L W}. Arguments m_MaxActive {L W}.
Arguments m_opEpoch {L W}. Arguments m_locks {L W}. Arguments m_Catalog {L W}.
Arguments m_MVCCStore {L W}. Arguments m_SSI {L W}. Arguments m_WAL {L W}.

Section Setters.
Context {L W : Type}.
Implicit Types m : Mgr L W.
Definition with_objs m (x : gmap N Transaction) : Mgr L W :=
  mkMgr x (m_txns m) (m_committed m) (m_aborted m) (m_nextID m) (m_MaxActive m)
    (m_opEpoch m) (m_locks m) (m_Catalog m) (m_MVCCStore m) (m_SSI m) (m_WAL m).
Definition with_txns m (x : gset N) : Mgr L W :=
  mkMgr (m_objs m) x (m_committed m) (m_aborted m) (m_nextID m) (m_MaxActive m)
    (m_opEpoch m) (m_locks m) (m_Catalog m) (m_MVCCStore m) (m_SSI m) (m_WAL m).
Definition with_committed m (x : gset N) : Mgr L W :=
  mkMgr (m_objs m) (m_txns m) x (m_aborted m) (m_nextID m) (m_MaxActive m) (m_opEpoch m)
    (m_locks m) (m_Catalog m) (m_MVCCStore m) (m_SSI m) (m_WAL m).
Definition with_aborted m (x : gset N) : Mgr L W :=
  mkMgr (m_objs m) (m_txns m) (m_committed m) x (m_nextID m) (m_MaxActive m) (m_opEpoch m)
    (m_locks m) (m_Catalog m) (m_MVCCStore m) (m_SSI m) (m_WAL m).
Definition with_nextID m (x : N) : Mgr L W :=
  mkMgr (m_objs m) (m_txns m) (m_committed m) (m_aborted m) x (m_MaxActive m) (m_opEpoch m)
    (m_locks m) (m_Catalog m) (m_MVCCStore m) (m_SSI m) (m_WAL m).
Definition with_opEpoch m (x : N) : Mgr L W :=
  mkMgr (m_objs m) (m_txns m) (m_committed m) (m_aborted m) (m_nextID m) (m_MaxActive m) x
    (m_locks m) (m_Catalog m) (m_MVCCStore m) (m_SSI m) (m_WAL m).
Definition with_locks m (x : L) : Mgr L W :=
  mkMgr (m_objs m) (m_txns m) (m_committed m) (m_aborted m) (m_nextID m) (m_MaxActive m)
    (m_opEpoch m) x (m_Catalog m) (m_MVCCStore m) (m_SSI m) (m_WAL m).
Definition with_Catalog m (x : Catalog) : Mgr L W :=
  mkMgr (m_objs m) (m_txns m) (m_committed m) (m_aborted m) (m_nextID m) (m_MaxActive m)
    (m_opEpoch m) (m_locks m) x (m_MVCCStore m) (m_SSI m) (m_WAL m).
Definition with_MVCCStore m (x : Store) : Mgr L W :=
  mkMgr (m_objs m) (m_txns m) (m_committed m) (m_aborted m) (m_nextID m) (m_MaxActive m)
    (m_opEpoch m) (m_locks m) (m_Catalog m) x (m_SSI m) (m_WAL m).
Definition with_SSI m (x : SSITracker) : Mgr L W :=
  mkMgr (m_objs m) (m_txns m) (m_committed m) (m_aborted m) (m_nextID m) (m_MaxActive m)
    (m_opEpoch m) (m_locks m) (m_Catalog m) (m_MVCCStore m) x (m_WAL m).
Definition with_WAL m (x : option W) : Mgr L W :=
  mkMgr (m_objs m) (m_txns m) (m_committed m) (m_aborted m) (m_nextID m) (m_MaxActive m)
    (m_opEpoch m) (m_locks m) (m_Catalog m) (m_MVCCStore m) (m_SSI m) x.
End Setters.

#[export] Instance Mgr_status {L W} : TxnStatusChecker (Mgr L W) :=
  {| IsCommitted := fun m id => bool_decide (id ∈ m_committed m);
     IsAborted := fun m id => bool_decide (id ∈ m_aborted m);
     IsActive := fun m id => bool_decide (id ∈ m_txns m);
     TxnStatus := fun m id =>
       (bool_decide (id ∈ m_txns m), bool_decide (id ∈ m_committed m)) |}.

Section Manager.
Context {L W : Type} `{LockService L} `{WALWriter W}.
Implicit Types m : Mgr L W.

Definition NewManager (locks : L) (catalog : Catalog) (maxActive : nat) (w : option W) : Mgr L W :=
  mkMgr ∅ ∅ ∅ ∅ 0 maxActive 0 locks catalog NewStore NewSSITracker w.

Definition upd_txn m (id : N) (f : Transaction -> Transaction) : Mgr L W :=
  with_objs m (alter f id (m_objs m)).

Definition nextTxnID m : Mgr L W * N :=
  let id := u64_add (m_nextID m) 1 in (with_nextID m id, id).

Definition AllocateTxnID m : Mgr L W * N := nextTxnID m.

(** The smallest of a set, [None] when it is empty. *)
Definition min_id (s : gset N) : option N :=
  fold_left (fun acc id => match acc with
                           | None => Some id
                           | Some x => Some (if (id <? x)%N then id else x)
                           end) (elements s) None.

Definition takeSnapshot m : Snapshot :=
  let xmax := u64_add (m_nextID m) 1 in
  mkSnapshot (default xmax (min_id (m_txns m))) xmax (elements (m_txns m)).

Definition TakeSnapshot m : Snapshot := takeSnapshot m.

(** [m.txns[id] = NewTransaction(...)] with the snapshot of [Begin]. *)
Definition register m (id : N) (protocol : ConcurrencyProtocol) (iso : IsolationLevel) : Mgr L W :=
  let snap :=
    if bool_decide (protocol = ProtocolMVCC) && negb (bool_decide (iso = ReadCommitted))
    then Some (takeSnapshot m) else None in
  let txn := NewTransaction id protocol iso snap in
  with_txns (with_objs m (<[id := txn]> (m_objs m))) ({[id]} ∪ m_txns m).

(** The BEGIN record; an error of the log is ignored. *)
Definition log_begin m (id : N) : Mgr L W :=
  match m_WAL m with
  | None => m
  | Some w =>
      let (w, r) := wal_Begin w id in
      let m := with_WAL m (Some w) in
      match r with Ok lsn => upd_txn m id (set_x_LastWALLSN lsn) | Err _ => m end
  end.

Definition at_capacity m : bool :=
  (0 <? m_MaxActive m) && (m_MaxActive m <=? size (m_txns m)).

Definition Begin m (protocol : ConcurrencyProtocol) (iso : IsolationLevel)
    : Mgr L W * result GoError N :=
  if at_capacity m then (m, Err ErrTooManyTransactions)
  else
    let (m, id) := nextTxnID m in
    (log_begin (register m id protocol iso) id, Ok id).

Definition BeginWithID m (id : N) (protocol : ConcurrencyProtocol) (iso : IsolationLevel)
    : Mgr L W * result GoError N :=
  if at_capacity m then (m, Err ErrTooManyTransactions)
  else (log_begin (register m id protocol iso) id, Ok id).

Definition GetTxn m (id : N) : option Transaction :=
  if bool_decide (id ∈ m_txns m) then m_objs m !! id else None.

Definition ActiveCount m : nat := size (m_txns m).

Definition OldestActiveTxnID m : N := default 0%N (min_id (m_txns m)).

(** ** Undo *)

(** [applyMVCCUndo]: each row named in the undo log once. *)
Fixpoint mvcc_undo_loop (t : N) (seen : list (string * string)) (es : list UndoEntry) (s : Store)
    : Store :=
  match es with
  | [] => s
  | e :: es =>
      if bool_decide ((u_Table e, u_Key e) ∈ seen) then mvcc_undo_loop t seen es s
      else
        let seen := (u_Table e, u_Key e) :: seen in
        match GetChain s (u_Table e) (u_Key e) with
        | None => mvcc_undo_loop t seen es s
        | Some c =>
            mvcc_undo_loop t seen es
              (set_chain s (u_Table e) (u_Key e) (ClearXMax (RemoveByXMin c t) t))
        end
  end.

Definition applyMVCCUndo m (txn : Transaction) : Mgr L W :=
  with_MVCCStore m (mvcc_undo_loop (x_ID txn) [] (x_UndoLog txn) (m_MVCCStore m)).

(** The compensating action of one entry on the catalog. *)
Definition undo_catalog (c : Catalog) (e : UndoEntry) : Catalog :=
  match Lookup c (u_Table e) with
  | None => c
  | Some table =>
      match u_Op e with
      | UndoInsert => <[u_Table e := (DeleteRow table (u_Key e)).1]> c
      | UndoUpdate | UndoDelete =>
          match u_BeforeImage e with
          | None => c
          | Some _ => <[u_Table e := PutRow table (u_Key e) (u_BeforeImage e)]> c
          end
      end
  end.

(** The loop of [applyUndoEntries], over the entries in reverse order;
    [undoNextLSN] comes from the entry that follows in that order. *)
Fixpoint undo_loop (txnID : N) (rev_entries : list UndoEntry) (lastCLR : N) m : Mgr L W * N :=
  match rev_entries with
  | [] => (m, lastCLR)
  | e :: rest =>
      let '(m, lastCLR) :=
        match m_WAL m with
        | Some w =>
            if negb (txnID =? 0)%N && negb (u_WALWriteLSN e =? LSNInvalid)%N then
              let clrPrevLSN := if (lastCLR =? LSNInvalid)%N then u_WALWriteLSN e else lastCLR in
              let undoNextLSN := match rest with p :: _ => u_WALWriteLSN p | [] => LSNInvalid end in
              let (w, r) := wal_CLR w txnID clrPrevLSN undoNextLSN in
              (with_WAL m (Some w), match r with Ok lsn => lsn | Err _ => lastCLR end)
            else (m, lastCLR)
        | None => (m, lastCLR)
        end in
      undo_loop txnID rest lastCLR (with_Catalog m (undo_catalog (m_Catalog m) e))
  end.

Definition applyUndoEntries m (entries : list UndoEntry) (txnID : N) : Mgr L W * N :=
  undo_loop txnID (rev entries) LSNInvalid m.

Definition applyUndoLog m (txn : Transaction) : Mgr L W * N :=
  applyUndoEntries m (x_UndoLog txn) (x_ID txn).

(** ** Commit and Abort *)

(** [setStatus], [delete(m.txns, id)] and the history map. *)
Definition finish_abort m (id : N) : Mgr L W :=
  let m := upd_txn m id (set_x_Status TxnAborted) in
  with_aborted (with_txns m (m_txns m ∖ {[id]})) ({[id]} ∪ m_aborted m).

Definition finish_commit m (id : N) : Mgr L W :=
  let m := upd_txn m id (set_x_Status TxnCommitted) in
  with_committed (with_txns m (m_txns m ∖ {[id]})) ({[id]} ∪ m_committed m).

Definition ssi_enabled (txn : Transaction) : bool :=
  bool_decide (x_Protocol txn = ProtocolMVCC) && bool_decide (x_Isolation txn = Serializable).

(** The COMMIT record and its flush: [Some e] when the flush failed. *)
Definition log_commit m (txnID : N) (lastLSN : N) : Mgr L W * option GoError :=
  match m_WAL m with
  | None => (m, None)
  | Some w =>
      let (w, r) := wal_Commit w txnID lastLSN in
      match r with
      | Err _ => (with_WAL m (Some w), None)
      | Ok lsn =>
          let (w, f) := wal_Flush w lsn in
          (with_WAL m (Some w), match f with Ok _ => None | Err e => Some e end)
      end
  end.

Definition Commit m (txnID : N) : Mgr L W * result GoError unit :=
  match GetTxn m txnID with
  | None =>
      if bool_decide (txnID ∈ m_aborted m) then (m, Err (ETxn NewTxnAbortedError))
      else if bool_decide (txnID ∈ m_committed m) then (m, Ok tt)
      else (m, Err (ETxn (NewTxnNotFoundError txnID)))
  | Some txn =>
      match x_Status txn with
      | TxnAborted => (m, Err (ETxn NewTxnAbortedError))
      | TxnCommitted => (m, Ok tt)
      | TxnActive =>
          if ssi_enabled txn && CheckCommit (m_SSI m) txnID then
            let m := upd_txn (finish_abort m txnID) txnID closeAbort in
            let m := with_SSI m (Cleanup (m_SSI m) txnID) in
            (applyMVCCUndo m txn, Err (ETxn NewSerializationFailure))
          else
            match log_commit m txnID (x_LastWALLSN txn) with
            | (m, Some e) => (m, Err e)
            | (m, None) =>
                let m := finish_commit m txnID in
                let m := if ssi_enabled txn then with_SSI m (Cleanup (m_SSI m) txnID) else m in
                let m := if bool_decide (x_Protocol txn = Protocol2PL)
                         then with_locks m (lk_release_all (m_locks m) txnID) else m in
                (m, Ok tt)
            end
      end
  end.

(** The teardown of an aborted transaction; the LSN of the last CLR. *)
Definition teardown m (txn : Transaction) : Mgr L W * N :=
  match x_Protocol txn with
  | Protocol2PL =>
      let (m, lastCLR) := applyUndoLog m txn in
      (with_locks m (lk_release_all (m_locks m) (x_ID txn)), lastCLR)
  | ProtocolMVCC => (applyMVCCUndo m txn, LSNInvalid)
  end.

Definition log_abort m (txn : Transaction) (lastCLR : N) : Mgr L W :=
  match m_WAL m with
  | None => m
  | Some w =>
      let prev := if negb (lastCLR =? LSNInvalid)%N then lastCLR else x_LastWALLSN txn in
      with_WAL m (Some (wal_Abort w (x_ID txn) prev).1)
  end.

Definition Abort m (txnID : N) : Mgr L W * result GoError unit :=
  match GetTxn m txnID with
  | None =>
      if bool_decide (txnID ∈ m_committed m) then (m, Err (ETxn (NewTxnCommittedError txnID)))
      else (m, Ok tt)
  | Some txn =>
      match x_Status txn with
      | TxnCommitted => (m, Err (ETxn (NewTxnCommittedError txnID)))
      | TxnAborted => (m, Ok tt)
      | TxnActive =>
          let m := upd_txn (finish_abort m txnID) txnID closeAbort in
          let (m, lastCLR) := teardown m txn in
          let m := log_abort m txn lastCLR in
          let m := if ssi_enabled txn then with_SSI m (Cleanup (m_SSI m) txnID) else m in
          (m, Ok tt)
      end
  end.

(** ** Savepoints *)

Definition SavepointNotFound (name : string) : TxnError :=
  txnError ErrSavepointNotFound ("savepoint " +:+ dquote +:+ name +:+ dquote +:+ " not found").

Definition CreateSavepoint m (txnID : N) (name : string) : Mgr L W * result TxnError unit :=
  match GetTxn m txnID with
  | None => (m, Err (NewTxnNotFoundError txnID))
  | Some txn =>
      let pos := length (x_UndoLog txn) in
      (upd_txn m txnID (set_x_Savepoints (x_Savepoints txn ++ [mkSavepoint name pos])), Ok tt)
  end.

Definition named (name : string) (sp : Savepoint) : bool := String.eqb (sp_Name sp) name.

Definition RollbackToSavepoint m (txnID : N) (name : string) : Mgr L W * result TxnError unit :=
  match GetTxn m txnID with
  | None => (m, Err (NewTxnNotFoundError txnID))
  | Some txn =>
      match List.find (named name) (rev (x_Savepoints txn)) with
      | None => (m, Err (SavepointNotFound name))
      | Some sp =>
          let entries := EntriesFrom (x_UndoLog txn) (sp_UndoPosition sp) in
          let m := if bool_decide (x_Protocol txn = Protocol2PL)
                   then (applyUndoEntries m entries txnID).1 else m in
          (upd_txn m txnID (set_x_UndoLog (TruncateTo (x_UndoLog txn) (sp_UndoPosition sp))), Ok tt)
      end
  end.

(** Removes the last savepoint of that name. *)
Fixpoint remove_savepoint (name : string) (rev_sps : list Savepoint) : option (list Savepoint) :=
  match rev_sps with
  | [] => None
  | sp :: rest =>
      if named name sp then Some rest else (fun l => sp :: l) <$> remove_savepoint name rest
  end.

Definition ReleaseSavepoint m (txnID : N) (name : string) : Mgr L W * result TxnError unit :=
  match GetTxn m txnID with
  | None => (m, Err (NewTxnNotFoundError txnID))
  | Some txn =>
      match remove_savepoint name (rev (x_Savepoints txn)) with
      | None => (m, Err (SavepointNotFound name))
      | Some sps => (upd_txn m txnID (set_x_Savepoints (rev sps)), Ok tt)
      end
  end.

(** ** History *)

Definition MaxHistoryRetained : nat := Pos.to_nat 65536.

Definition PruneHistory m : Mgr L W * nat :=
  let oldest := if (OldestActiveTxnID m =? 0)%N then m_nextID m else OldestActiveTxnID m in
  let keep := fun s : gset N => filter (fun id => (oldest <= id)%N) s in
  let committed := keep (m_committed m) in
  let aborted := keep (m_aborted m) in
  let removed := size (m_committed m) - size committed + (size (m_aborted m) - size aborted) in
  let excess := size committed - MaxHistoryRetained in
  let drops := take excess (merge_sort N.le (elements committed)) in
  (with_aborted (with_committed m (committed ∖ list_to_set drops)) aborted,
   removed + length drops).

Definition MarkCommitted m (id : N) : Mgr L W := with_committed m ({[id]} ∪ m_committed m).
Definition MarkAborted m (id : N) : Mgr L W := with_aborted m ({[id]} ∪ m_aborted m).

(** The vacuum pass of mvcc/vacuum.go with the manager behind it. *)
Definition Vacuum_RunOnce m : Mgr L W :=
  let horizon := OldestActiveTxnID m in
  let (s, _) := pruneVersions m horizon (m_MVCCStore m) in
  (PruneHistory (with_MVCCStore m s)).1.

(** ** 2PL access *)

Definition TwoPLRead m (txn : Transaction) (table key : string)
    : Mgr L W * result TxnError (Values * bool) :=
  let read := fun m =>
    match Lookup (m_Catalog m) table with
    | None => (m, Err (NewTableNotFoundError table))
    | Some t => (m, Ok (GetRow t key))
    end in
  if bool_decide (x_Isolation txn = ReadUncommitted) then read m
  else
    match lk_acquire (m_locks m) (x_ID txn) (ResourceForTable table) LockIS with
    | (l, Err e) => (with_locks m l, Err e)
    | (l, Ok _) =>
        let m := with_locks m l in
        match lk_acquire (m_locks m) (x_ID txn) (ResourceForRow table key) LockS with
        | (l, Err e) => (with_locks m l, Err e)
        | (l, Ok _) => read (with_locks m l)
        end
    end.

(** [types.EncodeValues], [None] when it panics. A nil slice encodes like
    an empty one; [afterBytes] stays nil when [values] is. *)
Definition wal_bytes (v : Values) : option (list byte) :=
  match v with None => Some [] | Some vs => EncodeValues vs end.

(** The WRITE record: the LSN recorded in the undo entry, 0 without a log
    or when the log failed. *)
Definition log_write m (txnID : N) (op : UndoOpType) (table key : string)
    (before after : option (list byte)) : option (Mgr L W * N) :=
  match m_WAL m with
  | None => Some (m, LSNInvalid)
  | Some w =>
      match before, after with
      | Some before, Some after =>
          let prev := match m_objs m !! txnID with Some t => x_LastWALLSN t | None => LSNInvalid end in
          let (w, r) := wal_Write w txnID prev (op_code op) table key before after in
          let m := with_WAL m (Some w) in
          match r with
          | Ok lsn => Some (upd_txn m txnID (set_x_LastWALLSN lsn), lsn)
          | Err _ => Some (m, LSNInvalid)
          end
      | _, _ => None
      end
  end.

Definition append_undo m (txnID : N) (op : UndoOpType) (table key : string) (before : Values)
    (lsn : N) : Mgr L W :=
  upd_txn m txnID (fun t => set_x_UndoLog (AppendWithLSN (x_UndoLog t) op table key before lsn) t).

(** [None]: [EncodeValues] panics. *)
Definition TwoPLWrite m (txn : Transaction) (table key : string) (values : Values)
    (op : UndoOpType) : option (Mgr L W * result TxnError unit) :=
  match lk_acquire (m_locks m) (x_ID txn) (ResourceForTable table) LockIX with
  | (l, Err e) => Some (with_locks m l, Err e)
  | (l, Ok _) =>
      let m := with_locks m l in
      match lk_acquire (m_locks m) (x_ID txn) (ResourceForRow table key) LockX with
      | (l, Err e) => Some (with_locks m l, Err e)
      | (l, Ok _) =>
          let m := with_locks m l in
          match Lookup (m_Catalog m) table with
          | None => Some (m, Err (NewTableNotFoundError table))
          | Some t =>
              let before := (GetRow t key).1 in
              match log_write m (x_ID txn) op table key
                      (EncodeValues (values_list before)) (wal_bytes values) with
              | None => None
              | Some (m, lsn) =>
                  let m := append_undo m (x_ID txn) op table key before lsn in
                  let t' := match op with
                            | UndoInsert | UndoUpdate => PutRow t key values
                            | UndoDelete => (DeleteRow t key).1
                            end in
                  let m := with_Catalog m (<[table := t']> (m_Catalog m)) in
                  Some (upd_txn m (x_ID txn) (addWrite key), Ok tt)
              end
          end
      end
  end.

(** ** MVCC access *)

Definition getSnapshot m (id : N) (txn : Transaction) : Mgr L W * Snapshot :=
  if bool_decide (x_Isolation txn = ReadCommitted) then
    let snap := takeSnapshot m in
    (upd_txn m id (set_x_StmtSnapshot (Some snap)), snap)
  else
    match x_Snapshot txn with
    | Some s => (m, s)
    | None => let s := takeSnapshot m in (upd_txn m id (set_x_Snapshot (Some s)), s)
    end.

Definition ssi_record_read m (txn : Transaction) (fullKey : string) : Mgr L W :=
  if bool_decide (x_Isolation txn = Serializable) then
    upd_txn (with_SSI m (RecordRead (m_SSI m) (x_ID txn) fullKey)) (x_ID txn) (addSIRead fullKey)
  else m.

Definition MVCCRead m (txnID : N) (table key : string)
    : Mgr L W * result TxnError (Values * bool) :=
  match m_objs m !! txnID with
  | None => (m, Err NewTxnAbortedError)
  | Some txn =>
      if negb (bool_decide (x_Status txn = TxnActive)) then (m, Err NewTxnAbortedError)
      else
        let (m, snap) := getSnapshot m txnID txn in
        match GetChain (m_MVCCStore m) table key with
        | None => (m, Ok (None, false))
        | Some chain =>
            match FindVisible chain (fun v => IsVisible v txnID snap m) with
            | None => (m, Ok (None, false))
            | Some v =>
                let m := ssi_record_read m txn (table +:+ ":" +:+ key) in
                (upd_txn m txnID (addRead key), Ok (ver_Data v, true))
            end
        end
  end.

Definition status_active m (id : N) : bool :=
  match m_objs m !! id with
  | Some t => bool_decide (x_Status t = TxnActive)
  | None => false
  end.

Definition ssi_record_write m (txn : Transaction) (fullKey : string) : Mgr L W :=
  if bool_decide (x_Isolation txn = Serializable) then
    let '(s, flagged) := RecordWrite (status_active m) (m_SSI m) (x_ID txn) fullKey in
    let m := with_SSI m s in
    let m := fold_left (fun m r => upd_txn m r SetInConflict) flagged m in
    if bool_decide (flagged = []) then m else upd_txn m (x_ID txn) SetOutConflict
  else m.

(** The switch of [MVCCWrite]: the new chain, the before-image and the LSN.
    [None]: [EncodeValues] panics; [Err]: no visible row. *)
Definition mvcc_apply m (txnID : N) (snap : Snapshot) (chain : VersionChain) (table key : string)
    (values : Values) (op : UndoOpType) : option (Mgr L W * result TxnError VersionChain) :=
  let visible := fun v => IsVisible v txnID snap m in
  match op with
  | UndoInsert =>
      match log_write m txnID op table key (Some []) (wal_bytes values) with
      | None => None
      | Some (m, lsn) =>
          Some (append_undo m txnID op table key None lsn,
                Ok (Prepend chain (mkVersion txnID 0 values lsn)))
      end
  | UndoUpdate =>
      match supersede visible txnID (ch_versions chain) with
      | None => Some (m, Err NewRowNotFoundError)
      | Some (v, vs) =>
          match log_write m txnID op table key (EncodeValues (values_list (ver_Data v)))
                  (wal_bytes values) with
          | None => None
          | Some (m, lsn) =>
              Some (append_undo m txnID op table key (ver_Data v) lsn,
                    Ok (Prepend (with_versions chain vs) (mkVersion txnID 0 values lsn)))
          end
      end
  | UndoDelete =>
      match supersede visible txnID (ch_versions chain) with
      | None => Some (m, Err NewRowNotFoundError)
      | Some (v, vs) =>
          match log_write m txnID op table key (EncodeValues (values_list (ver_Data v)))
                  (Some []) with
          | None => None
          | Some (m, lsn) =>
              Some (append_undo m txnID op table key (ver_Data v) lsn,
                    Ok (with_versions chain vs))
          end
      end
  end.

Definition MVCCWrite m (txnID : N) (table key : string) (values : Values) (op : UndoOpType)
    : option (Mgr L W * result TxnError unit) :=
  match m_objs m !! txnID with
  | None => Some (m, Err NewTxnAbortedError)
  | Some txn =>
      if negb (bool_decide (x_Status txn = TxnActive)) then Some (m, Err NewTxnAbortedError)
      else
        let (m, snap) := getSnapshot m txnID txn in
        let (s, chain) := GetOrCreateChain (m_MVCCStore m) table key in
        let m := with_MVCCStore m s in
        match CheckWriteConflict txnID chain snap m with
        | Some other => Some (m, Err (NewWriteConflictError other))
        | None =>
            match mvcc_apply m txnID snap chain table key values op with
            | None => None
            | Some (m, Err e) => Some (m, Err e)
            | Some (m, Ok chain) =>
                let m := with_MVCCStore m (set_chain (m_MVCCStore m) table key chain) in
                let m := ssi_record_write m txn (table +:+ ":" +:+ key) in
                Some (upd_txn m txnID (addWrite key), Ok tt)
            end
        end
  end.

(** The callback of [MVCCScan] for one chain. *)
Definition scan_chain (txn : Transaction) (snap : Snapshot) (table : string)
    (filter : option (Row -> bool)) (acc : Mgr L W * list Row) (kc : string * VersionChain)
    : Mgr L W * list Row :=
  let '(m, rows) := acc in
  let '(key, chain) := kc in
  match FindVisible chain (fun v => IsVisible v (x_ID txn) snap m) with
  | None => (m, rows)
  | Some v =>
      let row := mkRow key (ver_Data v) in
      let keep := match filter with None => true | Some f => f row end in
      (ssi_record_read m txn (table +:+ ":" +:+ key), if keep then rows ++ [row] else rows)
  end.

Definition MVCCScan m (txnID : N) (table : string) (filter : option (Row -> bool))
    : Mgr L W * result TxnError (list Row) :=
  match m_objs m !! txnID with
  | None => (m, Err NewTxnAbortedError)
  | Some txn =>
      if negb (bool_decide (x_Status txn = TxnActive)) then (m, Err NewTxnAbortedError)
      else
        let (m, snap) := getSnapshot m txnID txn in
        let '(m, rows) :=
          fold_left (scan_chain txn snap table filter)
            (ForEachChainInTable (m_MVCCStore m) table) (m, []) in
        (m, Ok rows)
  end.

(** ** Reset *)

Definition reset_txn m (id : N) : Mgr L W :=
  match m_objs m !! id with
  | None => m
  | Some txn =>
      let m := upd_txn (upd_txn m id (set_x_Status TxnAborted)) id closeAbort in
      let m := (teardown m txn).1 in
      let m := if ssi_enabled txn then with_SSI m (Cleanup (m_SSI m) id) else m in
      with_txns (with_aborted m ({[id]} ∪ m_aborted m)) (m_txns m ∖ {[id]})
  end.

Definition reseed_table (seedID : N) m (name : string) : Mgr L W :=
  match Lookup (m_Catalog m) name with
  | None => m
  | Some tbl => with_MVCCStore m (SeedMVCCStore (m_MVCCStore m) name (Scan tbl None) seedID)
  end.

Definition Reset m : Mgr L W :=
  let m := fold_left reset_txn (elements (m_txns m)) m in
  let m := with_opEpoch m (u64_add (m_opEpoch m) 1) in
  let m := with_SSI (with_MVCCStore m (Clear (m_MVCCStore m))) (SSI_Reset (m_SSI m)) in
  let m := with_Catalog m (SeedCatalog (m_Catalog m)) in
  let (m, seedID) := nextTxnID m in
  let m := fold_left (reseed_table seedID) (List (m_Catalog m)) m in
  MarkCommitted m seedID.
End Manager.

(** The lock manager of [Acquire] behind the interface, in runs where a
    request that cannot be granted at once times out. *)
#[export] Instance lock_manager {G} `{WFGInterface G} : LockService (@LockSt G) :=
  {| lk_acquire := fun l t r mode =>
       match acquire l t r mode with
       | (l, AcqGranted) => (l, Ok tt)
       | (l, AcqWait _) =>
           match ls_blocked l !! t with
           | None => (l, Err NewLockTimeoutError)
           | Some w =>
               match wait_cancelled l t w CancelTimeout with
               | Some (l, e) => (l, Err e)
               | None => (l, Err NewLockTimeoutError)
               end
           end
       end;
     lk_release_all := fun l t => default l (ReleaseAllLocks l t);
     lk_held := held_of |}.
