(* ===== verification/TxnInv.v ===== *)
(** * The life cycle of transactions

    The invariant of the manager of [Txn]: active, committed and aborted
    transactions are disjoint, identifiers are allocated upwards, and the
    snapshot of an active transaction accounts for every other active one.
    Most operations only touch fields the invariant does not mention; they
    are handled by the relation [frame]. *)

From Stdlib Require Import ZArith NArith Lia Strings.Byte String.
From stdpp Require Import base tactics numbers list gmap strings sorting.
From S2P Require Import Prelude Types Lock Acquire Storage Mvcc WalRecord Wal Ssi Txn.

(** What a snapshot taken for [t] knows of the transactions active now:
    every other one was active then, or started later. *)
Record snap_ok (t : N) (s : Snapshot) (txns : gset N) (nextID : N) : Prop := {
  so_order : (s_Xmin s <= s_Xmax s)%N;
  so_next : (s_Xmax s <= nextID + 1)%N;
  so_active : forall x, Contains s x = true -> (s_Xmin s <= x < s_Xmax s)%N;
  so_others : forall x, x ∈ txns -> x <> t -> Contains s x = true \/ (s_Xmax s <= x)%N;
}.

Section Inv.
Context {L W : Type} `{LockService L} `{WALWriter W}.
Implicit Types m : Mgr L W.

Record mgr_inv m : Prop := {
  mi_ca : m_committed m ## m_aborted m;
  mi_tc : m_txns m ## m_committed m;
  mi_ta : m_txns m ## m_aborted m;
  mi_bound : forall x, x ∈ m_txns m ∪ m_committed m ∪ m_aborted m -> (x <= m_nextID m)%N;
  mi_zero : 0%N ∉ m_txns m;
  mi_next : (m_nextID m + 1 < two64)%N;
  mi_active : forall t, t ∈ m_txns m <->
    exists txn, m_objs m !! t = Some txn /\ x_Status txn = TxnActive;
  mi_id : forall t txn, m_objs m !! t = Some txn -> x_ID txn = t;
  mi_snap : forall t txn s, t ∈ m_txns m -> m_objs m !! t = Some txn ->
    x_Snapshot txn = Some s -> snap_ok t s (m_txns m) (m_nextID m);
}.

(** Steps that leave identifiers, states and snapshots alone, except that a
    missing snapshot may be taken. *)
Definition life (txn : Transaction) : N * TxnState * ConcurrencyProtocol * IsolationLevel :=
  (x_ID txn, x_Status txn, x_Protocol txn, x_Isolation txn).

Definition snapshot_step m (t : N) (txn txn' : Transaction) : Prop :=
  x_Snapshot txn' = x_Snapshot txn
  \/ (x_Snapshot txn = None
      /\ exists s, x_Snapshot txn' = Some s /\ snap_ok t s (m_txns m) (m_nextID m)).

Record frame m m' : Prop := {
  fr_txns : m_txns m' = m_txns m;
  fr_committed : m_committed m' = m_committed m;
  fr_aborted : m_aborted m' = m_aborted m;
  fr_next : m_nextID m' = m_nextID m;
  fr_dom : forall t, is_Some (m_objs m' !! t) <-> is_Some (m_objs m !! t);
  fr_objs : forall t txn txn', m_objs m !! t = Some txn -> m_objs m' !! t = Some txn' ->
    life txn' = life txn /\ snapshot_step m t txn txn';
}.

Lemma frame_refl m : frame m m.
Proof. split; try done. intros t txn txn' H1 H2. simplify_eq. split; [done|by left]. Qed.

Lemma frame_trans m1 m2 m3 : frame m1 m2 -> frame m2 m3 -> frame m1 m3.
Proof.
  intros [A1 A2 A3 A4 A5 A6] [B1 B2 B3 B4 B5 B6]. split; try congruence.
  - intros t. by rewrite B5.
  - intros t x1 x3 H1 H3. destruct (proj2 (A5 t)) as [x2 H2]; [by eexists|].
    destruct (A6 _ _ _ H1 H2) as [E1 S1], (B6 _ _ _ H2 H3) as [E2 S2]. split; [congruence|].
    unfold snapshot_step in *. rewrite A1, A4 in S2.
    destruct S1 as [S1|(S1 & s & S1' & Hs)], S2 as [S2|(S2 & s' & S2' & Hs')].
    + left. congruence.
    + right. split; [congruence|]. eauto.
    + right. split; [done|]. exists s. split; [congruence|done].
    + congruence.
Qed.

Lemma frame_inv m m' : frame m m' -> mgr_inv m -> mgr_inv m'.
Proof.
  intros [F1 F2 F3 F4 F5 F6] [I1 I2 I3 I4 I5 In I6 I7 I8]. split; rewrite ?F1, ?F2, ?F3, ?F4; try done.
  - intros t. rewrite I6. split; intros (txn & Ht & Hs).
    + destruct (proj2 (F5 t)) as [txn' Ht']; [by eexists|]. exists txn'. split; [done|].
      destruct (F6 _ _ _ Ht Ht') as [Hl _]. unfold life in Hl. congruence.
    + destruct (proj1 (F5 t)) as [txn' Ht']; [by eexists|]. exists txn'. split; [done|].
      destruct (F6 _ _ _ Ht' Ht) as [Hl _]. unfold life in Hl. congruence.
  - intros t txn' Ht'. destruct (proj1 (F5 t)) as [txn Ht]; [by eexists|].
    destruct (F6 _ _ _ Ht Ht') as [Hl _]. unfold life in Hl. apply I7 in Ht. congruence.
  - intros t txn' s Hin Ht' Hs. destruct (proj1 (F5 t)) as [txn Ht]; [by eexists|].
    destruct (F6 _ _ _ Ht Ht') as [_ [Hsn|(Hsn & s' & Hs' & Hok)]].
    + apply (I8 t txn); [done|done|congruence].
    + congruence.
Qed.

Lemma frame_upd m id f :
  (forall txn, life (f txn) = life txn /\ x_Snapshot (f txn) = x_Snapshot txn) ->
  frame m (upd_txn m id f).
Proof.
  intros Hf. split; try done.
  - intros t. unfold upd_txn. simpl. destruct (decide (t = id)) as [->|?].
    + rewrite lookup_alter_eq. apply fmap_is_Some.
    + by rewrite lookup_alter_ne.
  - intros t txn txn' H1. unfold upd_txn. simpl. destruct (decide (t = id)) as [->|?].
    + rewrite lookup_alter_eq, H1. simpl. intros [= <-]. destruct (Hf txn) as [? ?].
      split; [done|by left].
    + rewrite lookup_alter_ne by done. intros H2. simplify_eq. split; [done|by left].
Qed.

Lemma frame_fields m m' :
  m_objs m' = m_objs m -> m_txns m' = m_txns m -> m_committed m' = m_committed m ->
  m_aborted m' = m_aborted m -> m_nextID m' = m_nextID m -> frame m m'.
Proof.
  intros H1 H2 H3 H4 H5. split; try done; rewrite H1; [done|].
  intros t txn txn' E1 E2. simplify_eq. split; [done|by left].
Qed.

Lemma frame_log_begin m id : frame m (log_begin m id).
Proof.
  unfold log_begin. destruct (m_WAL m) as [w|]; [|apply frame_refl].
  destruct (wal_Begin w id) as [w' [lsn|e]].
  - apply (frame_trans _ (with_WAL m (Some w'))); [by apply frame_fields|]. by apply frame_upd.
  - by apply frame_fields.
Qed.

Lemma frame_log_write m id op table key b a m' lsn :
  log_write m id op table key b a = Some (m', lsn) -> frame m m'.
Proof.
  unfold log_write. destruct (m_WAL m) as [w|]; [|intros [= <- _]; apply frame_refl].
  destruct b as [b|], a as [a|]; try done.
  destruct (wal_Write w id _ _ _ _ _ _) as [w' [l|e]]; intros [= <- _].
  - apply (frame_trans _ (with_WAL m (Some w'))); [by apply frame_fields|]. by apply frame_upd.
  - by apply frame_fields.
Qed.

Lemma frame_log_commit m id last m' e : log_commit m id last = (m', e) -> frame m m'.
Proof.
  unfold log_commit. destruct (m_WAL m) as [w|]; [|intros [= <- _]; apply frame_refl].
  destruct (wal_Commit w id last) as [w' [l|e']]; [destruct (wal_Flush w' l)|];
    intros [= <- _]; by apply frame_fields.
Qed.

Lemma frame_log_abort m txn clr : frame m (log_abort m txn clr).
Proof.
  unfold log_abort. destruct (m_WAL m); [by apply frame_fields|apply frame_refl].
Qed.

Lemma frame_undo_loop id es clr m : frame m (undo_loop id es clr m).1.
Proof.
  revert clr m. induction es as [|e es IH]; intros clr m; cbn [undo_loop]; [apply frame_refl|].
  match goal with |- context [let '(_, _) := ?x in _] => destruct x as [m1 clr1] eqn:E end.
  assert (F1 : frame m m1).
  { destruct (m_WAL m) as [w|]; [|injection E as <- _; apply frame_refl].
    destruct (_ && _); [|injection E as <- _; apply frame_refl].
    destruct (wal_CLR _ _ _ _). injection E as <- _. by apply frame_fields. }
  eapply frame_trans; [exact F1|]. eapply frame_trans; [|apply IH]. by apply frame_fields.
Qed.

Lemma frame_teardown m txn : frame m (teardown m txn).1.
Proof.
  unfold teardown, applyUndoLog, applyUndoEntries. destruct (x_Protocol txn); [|by apply frame_fields].
  destruct (undo_loop _ _ _ m) as [m1 clr] eqn:E.
  apply (frame_trans _ m1); [|by apply frame_fields].
  change m1 with (m1, clr).1. rewrite <-E. apply frame_undo_loop.
Qed.

Lemma frame_ssi_if (b : bool) m s : frame m (if b then with_SSI m s else m).
Proof. destruct b; [by apply frame_fields|apply frame_refl]. Qed.

Lemma frame_ssi_record_read m txn key : frame m (ssi_record_read m txn key).
Proof.
  unfold ssi_record_read. case_bool_decide; [|apply frame_refl].
  apply (frame_trans _ (with_SSI m (RecordRead (m_SSI m) (x_ID txn) key))); [by apply frame_fields|].
  by apply frame_upd.
Qed.

Lemma frame_ssi_record_write m txn key : frame m (ssi_record_write m txn key).
Proof.
  unfold ssi_record_write. case_bool_decide; [|apply frame_refl].
  destruct (RecordWrite _ _ _ _) as [s fl].
  assert (Hfold : forall m, frame m (fold_left (fun m r => upd_txn m r SetInConflict) fl m)).
  { clear. induction fl as [|r fl IH]; intros m; simpl; [apply frame_refl|].
    apply (frame_trans _ (upd_txn m r SetInConflict)); [by apply frame_upd|]. apply IH. }
  eapply frame_trans; [by apply (frame_fields m (with_SSI m s))|].
  eapply frame_trans; [apply Hfold|]. case_bool_decide; [apply frame_refl|by apply frame_upd].
Qed.

(** ** Snapshots *)

Lemma min_id_fold (l : list N) acc :
  let r := fold_left (fun acc id => match acc with
                           | None => Some id
                           | Some x => Some (if (id <? x)%N then id else x)
                           end) l acc in
  match acc with
  | None => match l with [] => r = None | _ => True end
  | Some a => exists x, r = Some x /\ (x <= a)%N
  end
  /\ (forall x, r = Some x -> (x ∈ l \/ acc = Some x) /\ forall y, y ∈ l -> (x <= y)%N)
  /\ (l <> [] -> is_Some r).
Proof.
  revert acc. induction l as [|i l IH]; intros acc; cbn [fold_left].
  - split_and!; [destruct acc; [eexists; split; [done|lia]|done]| |done].
    intros x ->. split; [by right|set_solver].
  - set (acc' := match acc with
                 | None => Some i
                 | Some x => Some (if (i <? x)%N then i else x) end).
    assert (Ha : exists a, acc' = Some a /\ (a <= i)%N /\ (forall b, acc = Some b -> a <= b)%N
                           /\ (a = i \/ acc = Some a)).
    { unfold acc'. destruct acc as [b|].
      - destruct (N.ltb_spec i b).
        + exists i. split_and!; [done|lia|intros ? [= <-]; lia|by left].
        + exists b. split_and!; [done|lia|intros ? [= <-]; lia|by right].
      - exists i. split_and!; [done|lia|done|by left]. }
    destruct Ha as (a & -> & Hai & Hb & Hor). specialize (IH (Some a)) as (H1 & H2 & H3).
    destruct H1 as (x & Hx & Hxa). rewrite Hx in *. split_and!.
    + destruct acc as [b|]; [|done]. exists x. split; [done|]. specialize (Hb _ eq_refl). lia.
    + intros y [= <-]. destruct (H2 x eq_refl) as [Hin Hle]. split.
      * destruct Hin as [?|[= ->]]; [left; by right|]. destruct Hor as [->|?]; [left; by left|by right].
      * intros y [->|Hy]%elem_of_cons; [lia|by apply Hle].
    + intros _. by eexists.
Qed.

Lemma min_id_Some (s : gset N) x : min_id s = Some x -> x ∈ s /\ forall y, y ∈ s -> (x <= y)%N.
Proof.
  intros Hm. destruct (min_id_fold (elements s) None) as (_ & H2 & _).
  destruct (H2 x Hm) as [[Hin|?] Hle]; [|done]. split; [by apply elem_of_elements|].
  intros y Hy. apply Hle. by apply elem_of_elements.
Qed.

Lemma min_id_None (s : gset N) : min_id s = None -> s = ∅.
Proof.
  intros Hm. destruct (min_id_fold (elements s) None) as (_ & _ & H3).
  destruct (elements s) as [|x l] eqn:E; [by apply elements_empty_inv, leibniz_equiv in E|].
  destruct H3 as [y Hy]; [done|]. unfold min_id in Hm. rewrite E in Hm. congruence.
Qed.

Lemma Contains_elem s x : Contains s x = true <-> x ∈ s_Active s.
Proof.
  unfold Contains. rewrite existsb_exists. split.
  - intros (y & Hy & He%N.eqb_eq). subst. by apply list_elem_of_In.
  - intros Hx. exists x. split; [by apply list_elem_of_In|]. apply N.eqb_refl.
Qed.

Lemma takeSnapshot_Contains m x : Contains (takeSnapshot m) x = true <-> x ∈ m_txns m.
Proof. rewrite Contains_elem. unfold takeSnapshot. cbn [s_Active]. apply elem_of_elements. Qed.

Lemma takeSnapshot_ok m t :
  (m_nextID m + 1 < two64)%N -> (forall x, x ∈ m_txns m -> (x <= m_nextID m)%N) ->
  snap_ok t (takeSnapshot m) (m_txns m) (m_nextID m).
Proof.
  intros Hn Hb. assert (Hu : u64_add (m_nextID m) 1 = (m_nextID m + 1)%N) by (by apply u64_add_small).
  split.
  - unfold takeSnapshot. simpl. destruct (min_id (m_txns m)) as [x|] eqn:E; simpl; [|lia].
    apply min_id_Some in E as [Hx _]. apply Hb in Hx. lia.
  - unfold takeSnapshot. simpl. lia.
  - intros x Hx%takeSnapshot_Contains. unfold takeSnapshot. simpl. rewrite Hu.
    split; [|apply Hb in Hx; lia]. destruct (min_id (m_txns m)) as [y|] eqn:E; simpl.
    + by apply min_id_Some in E as [_ Hy]; apply Hy.
    + apply min_id_None in E. set_solver.
  - intros x Hx _. left. by apply takeSnapshot_Contains.
Qed.

Lemma frame_getSnapshot m id txn m' s :
  mgr_inv m -> m_objs m !! id = Some txn -> getSnapshot m id txn = (m', s) -> frame m m'.
Proof.
  intros HI Hid. unfold getSnapshot. case_bool_decide; [intros [= <- _]; by apply frame_upd|].
  destruct (x_Snapshot txn) as [s0|] eqn:Es; intros [= <- _]; [apply frame_refl|].
  split; try done.
  - intros t. unfold upd_txn. simpl. destruct (decide (t = id)) as [->|?].
    + rewrite lookup_alter_eq. apply fmap_is_Some.
    + by rewrite lookup_alter_ne.
  - intros t x x' Hx1. unfold upd_txn. simpl. destruct (decide (t = id)) as [->|?].
    + rewrite lookup_alter_eq, Hx1. simpl. intros [= <-]. simplify_eq. split; [done|]. right.
      split; [done|]. eexists. split; [done|]. apply takeSnapshot_ok; [apply HI|].
      intros x0 Hx0. apply HI. set_solver.
    + rewrite lookup_alter_ne by done. intros Hx2. simplify_eq. split; [done|by left].
Qed.

(** ** The steps that change the life cycle *)

Lemma register_inv m p iso :
  mgr_inv m -> (m_nextID m + 2 < two64)%N ->
  mgr_inv (register (nextTxnID m).1 (nextTxnID m).2 p iso).
Proof.
  intros [I1 I2 I3 I4 I5 In I6 I7 I8] Hn.
  assert (Hu : u64_add (m_nextID m) 1 = (m_nextID m + 1)%N) by (by apply u64_add_small).
  unfold nextTxnID. rewrite Hu. cbn [fst snd]. set (id := (m_nextID m + 1)%N).
  assert (Hfresh : id ∉ m_txns m ∪ m_committed m ∪ m_aborted m).
  { intros Hin%I4. unfold id in Hin. lia. }
  split; cbn [register with_txns with_objs with_nextID m_objs m_txns m_committed m_aborted m_nextID].
  - done.
  - set_solver.
  - set_solver.
  - intros x Hx. assert (x = id \/ x ∈ m_txns m ∪ m_committed m ∪ m_aborted m) as [->|Hx2] by set_solver;
      [lia|]. apply I4 in Hx2. unfold id. lia.
  - unfold id. set_solver by lia.
  - unfold id. lia.
  - intros t. rewrite lookup_insert. case_decide as He.
    + subst t. split; [|set_solver]. intros _. eexists. split; done.
    + rewrite elem_of_union, elem_of_singleton, <-I6. split; [intros [?|?]; [congruence|done]|by right].
  - intros t txn. rewrite lookup_insert. case_decide; [by intros [= <-]|apply I7].
  - intros t txn s Hin. rewrite lookup_insert. case_decide as He.
    + subst t. intros [= <-]. simpl. destruct (_ && _); [|done]. intros [= <-].
      destruct (takeSnapshot_ok (with_nextID m id) id) as [S1 S2 S3 S4].
      { simpl. unfold id. lia. }
      { simpl. intros x Hx. assert ((x <= m_nextID m)%N) by (apply I4; set_solver). unfold id. lia. }
      split; try done. intros x Hx Hne. apply S4; [|done]. simpl. set_solver.
    + intros Ht Hs. assert (Hin' : t ∈ m_txns m) by set_solver.
      destruct (I8 t txn s Hin' Ht Hs) as [S1 S2 S3 S4]. split; try done.
      * unfold id. lia.
      * intros x Hx Hne. apply elem_of_union in Hx as [->%elem_of_singleton|Hx]; [|by apply S4].
        right. unfold id. lia.
Qed.

(** The end of transaction [t]: committed or aborted. *)
Lemma ends_inv m f m2 m3 t :
  mgr_inv m -> t ∈ m_txns m ->
  (forall txn, x_ID (f txn) = x_ID txn /\ x_Status (f txn) <> TxnActive) ->
  frame (upd_txn m t f) m2 -> m_objs m3 = m_objs m2 -> m_nextID m3 = m_nextID m2 ->
  m_txns m3 = m_txns m2 ∖ {[t]} ->
  (m_committed m3 = {[t]} ∪ m_committed m2 /\ m_aborted m3 = m_aborted m2)
  \/ (m_committed m3 = m_committed m2 /\ m_aborted m3 = {[t]} ∪ m_aborted m2) ->
  mgr_inv m3.
Proof.
  intros [I1 I2 I3 I4 I5 In I6 I7 I8] Ht Hf [F1 F2 F3 F4 F5 F6] E1 E2 E3 E4.
  unfold upd_txn in F1, F2, F3, F4. simpl in F1, F2, F3, F4.
  assert (Hobj : forall t' txn', m_objs m3 !! t' = Some txn' -> exists txn, m_objs m !! t' = Some txn
    /\ x_ID txn' = x_ID txn
    /\ (t' <> t -> x_Status txn' = x_Status txn
        /\ (x_Snapshot txn' = x_Snapshot txn \/ exists s, x_Snapshot txn' = Some s
            /\ snap_ok t' s (m_txns m) (m_nextID m)))
    /\ (t' = t -> x_Status txn' <> TxnActive)).
  { intros t' txn' Ht'. rewrite E1 in Ht'. destruct (proj1 (F5 t')) as [y Hy]; [by eexists|].
    destruct (F6 _ _ _ Hy Ht') as [Hl Hs]. unfold life in Hl. injection Hl as L1 L2 L3 L4.
    unfold upd_txn in Hy. simpl in Hy. destruct (decide (t' = t)) as [->|Hne].
    - rewrite lookup_alter_eq in Hy. destruct (m_objs m !! t) as [z|] eqn:Ez; [|done].
      injection Hy as <-. destruct (Hf z) as [Hf1 Hf2]. exists z.
      split_and!; [done|congruence|done|congruence].
    - rewrite lookup_alter_ne in Hy by done. exists y. split_and!; [done|done| |done].
      intros _. split; [done|]. destruct Hs as [Hs|(_ & s & Hs & Hok)]; [by left|right]. eauto. }
  split; rewrite ?E1, ?E2, ?E3, ?F1, ?F4; try done.
  - destruct E4 as [[-> ->]|[-> ->]]; rewrite F2, F3; set_solver.
  - destruct E4 as [[-> _]|[-> _]]; rewrite F2; set_solver.
  - destruct E4 as [[_ ->]|[_ ->]]; rewrite F3; set_solver.
  - intros x Hx. apply I4. destruct E4 as [[E5 E6]|[E5 E6]]; rewrite E5, E6, F2, F3 in Hx; set_solver.
  - set_solver.
  - intros t'. rewrite <-E1. rewrite elem_of_difference, elem_of_singleton. split.
    + intros [Hin Hne]. apply I6 in Hin as (txn & Hm & Hs).
      destruct (proj2 (F5 t')) as [txn' Ht'].
      { unfold upd_txn. simpl. rewrite lookup_alter_ne by done. by eexists. }
      rewrite <-E1 in Ht'. exists txn'. split; [done|].
      destruct (Hobj _ _ Ht') as (y & Hy & _ & Hst & _). simplify_eq. destruct (Hst Hne). congruence.
    + intros (txn' & Ht' & Hs). destruct (Hobj _ _ Ht') as (y & Hy & _ & Hst & Hst').
      destruct (decide (t' = t)) as [->|Hne]; [by destruct (Hst' eq_refl)|]. split; [|done].
      destruct (Hst Hne). apply I6. exists y. split; [done|congruence].
  - intros t' txn' Ht'. rewrite <-E1 in Ht'. destruct (Hobj _ _ Ht') as (y & Hy & Hid & _).
    apply I7 in Hy. congruence.
  - intros t' txn' s Hin Ht' Hs. rewrite <-E1 in Ht'.
    apply elem_of_difference in Hin as [Hin Hne%not_elem_of_singleton].
    destruct (Hobj _ _ Ht') as (y & Hy & _ & Hst & _). destruct (Hst Hne) as [_ Hsn].
    assert (Hok : snap_ok t' s (m_txns m) (m_nextID m)).
    { destruct Hsn as [Hsn|(s' & Hs' & Hok)]; [apply (I8 t' y); [done|done|congruence]|congruence]. }
    destruct Hok as [S1 S2 S3 S4]. split; try done. intros x Hx. apply S4. set_solver.
Qed.

(** ** The operations *)

Lemma GetTxn_active m t txn :
  GetTxn m t = Some txn -> t ∈ m_txns m /\ m_objs m !! t = Some txn.
Proof. unfold GetTxn. case_bool_decide; [|done]. done. Qed.

Lemma Begin_inv m p iso : mgr_inv m -> (m_nextID m + 2 < two64)%N -> mgr_inv (Begin m p iso).1.
Proof.
  intros HI Hn. unfold Begin. destruct (at_capacity m); [done|].
  pose proof (register_inv m p iso HI Hn) as Hr. destruct (nextTxnID m) as [m1 id]. simpl in *.
  by eapply frame_inv, Hr; apply frame_log_begin.
Qed.

Lemma set_aborted_ends (txn : Transaction) :
  x_ID (set_x_Status TxnAborted txn) = x_ID txn
  /\ x_Status (set_x_Status TxnAborted txn) <> TxnActive.
Proof. done. Qed.

Lemma finish_abort_inv m t : mgr_inv m -> t ∈ m_txns m -> mgr_inv (finish_abort m t).
Proof.
  intros HI Ht.
  apply (ends_inv m (set_x_Status TxnAborted) (upd_txn m t (set_x_Status TxnAborted)) _ t); try done.
  - apply frame_refl.
  - by right.
Qed.

Lemma finish_commit_inv m t : mgr_inv m -> t ∈ m_txns m -> mgr_inv (finish_commit m t).
Proof.
  intros HI Ht.
  apply (ends_inv m (set_x_Status TxnCommitted) (upd_txn m t (set_x_Status TxnCommitted)) _ t); try done.
  - apply frame_refl.
  - by left.
Qed.

(** [Commit] is a frame step, or ends the transaction and then frames. *)
Lemma Commit_shape m t m' r :
  Commit m t = (m', r) ->
  frame m m'
  \/ (t ∈ m_txns m /\ (exists m1, frame m m1 /\ frame (finish_commit m1 t) m') /\ r = Ok tt)
  \/ (t ∈ m_txns m /\ frame (finish_abort m t) m' /\ r = Err (ETxn NewSerializationFailure)).
Proof.
  unfold Commit. destruct (GetTxn m t) as [txn|] eqn:Hg.
  2: { intros He. left. repeat case_bool_decide; simplify_eq; apply frame_refl. }
  apply GetTxn_active in Hg as [Hin Hobj].
  destruct (x_Status txn); [|intros [= <- <-]; left; apply frame_refl..].
  destruct (ssi_enabled txn && CheckCommit (m_SSI m) t).
  { intros [= <- <-]. right. right. split_and!; [done| |done].
    apply (frame_trans _ (upd_txn (finish_abort m t) t closeAbort)); [by apply frame_upd|].
    by apply frame_fields. }
  destruct (log_commit m t (x_LastWALLSN txn)) as [m1 [e|]] eqn:Hl.
  { intros [= <- <-]. left. by eapply frame_log_commit. }
  intros [= <- <-]. right. left. split_and!; [done| |done]. exists m1.
  split; [by eapply frame_log_commit|].
  destruct (ssi_enabled txn), (bool_decide (x_Protocol txn = Protocol2PL)); by apply frame_fields.
Qed.

Lemma Commit_inv m t : mgr_inv m -> mgr_inv (Commit m t).1.
Proof.
  intros HI. destruct (Commit m t) as [m' r] eqn:E.
  destruct (Commit_shape _ _ _ _ E) as [F|[(Hin & (m1 & F1 & F2) & _)|(Hin & F & _)]]; simpl.
  - by eapply frame_inv.
  - apply (frame_inv _ _ F2). apply finish_commit_inv; [by eapply frame_inv|].
    by rewrite (fr_txns _ _ F1).
  - apply (frame_inv _ _ F). by apply finish_abort_inv.
Qed.

Lemma Abort_shape m t m' r :
  Abort m t = (m', r) ->
  (m' = m /\ t ∉ m_txns m) \/ frame m m' \/ (t ∈ m_txns m /\ frame (finish_abort m t) m' /\ r = Ok tt).
Proof.
  unfold Abort. destruct (GetTxn m t) as [txn|] eqn:Hg.
  2: { intros He. right. left. repeat case_bool_decide; simplify_eq; apply frame_refl. }
  apply GetTxn_active in Hg as [Hin Hobj].
  destruct (x_Status txn); [|intros [= <- <-]; right; left; apply frame_refl..].
  destruct (teardown _ txn) as [m1 clr] eqn:Ht. intros [= <- <-]. right. right.
  split_and!; [done| |done].
  apply (frame_trans _ (upd_txn (finish_abort m t) t closeAbort)); [by apply frame_upd|].
  apply (frame_trans _ m1).
  { change m1 with (m1, clr).1. rewrite <-Ht. apply frame_teardown. }
  apply (frame_trans _ (log_abort m1 txn clr)); [apply frame_log_abort|]. apply frame_ssi_if.
Qed.

Lemma Abort_inv m t : mgr_inv m -> mgr_inv (Abort m t).1.
Proof.
  intros HI. destruct (Abort m t) as [m' r] eqn:E.
  destruct (Abort_shape _ _ _ _ E) as [[-> _]|[F|(Hin & F & _)]]; simpl.
  - done.
  - by eapply frame_inv.
  - apply (frame_inv _ _ F). by apply finish_abort_inv.
Qed.

Lemma frame_MVCCRead m t table key : mgr_inv m -> frame m (MVCCRead m t table key).1.
Proof.
  intros HI. unfold MVCCRead. destruct (m_objs m !! t) as [txn|] eqn:Ht; [|apply frame_refl].
  destruct (negb _); [apply frame_refl|].
  destruct (getSnapshot m t txn) as [m1 s] eqn:Hs.
  pose proof (frame_getSnapshot m t txn m1 s HI Ht Hs) as F.
  destruct (GetChain _ _ _) as [c|]; [|done]. destruct (FindVisible _ _) as [v|]; [|done].
  simpl. apply (frame_trans _ _ _ F).
  eapply frame_trans; [apply frame_ssi_record_read|]. by apply frame_upd.
Qed.

Lemma frame_mvcc_apply m t s c table key v op m' r :
  mvcc_apply m t s c table key v op = Some (m', r) -> frame m m'.
Proof.
  unfold mvcc_apply. intros He.
  assert (Hau : forall m1 m2 op before lsn, frame m1 m2 -> frame m1 (append_undo m2 t op table key before lsn)).
  { intros m1 m2 op' b l F. apply (frame_trans _ _ _ F). by apply frame_upd. }
  destruct op; repeat case_match; simplify_eq; try apply frame_refl;
    apply Hau; by eapply frame_log_write.
Qed.

Lemma frame_MVCCWrite m t table key v op m' r :
  mgr_inv m -> MVCCWrite m t table key v op = Some (m', r) -> frame m m'.
Proof.
  intros HI. unfold MVCCWrite. destruct (m_objs m !! t) as [txn|] eqn:Ht;
    [|intros [= <- _]; apply frame_refl].
  destruct (negb _); [intros [= <- _]; apply frame_refl|].
  destruct (getSnapshot m t txn) as [m1 s] eqn:Hs.
  pose proof (frame_getSnapshot m t txn m1 s HI Ht Hs) as F.
  destruct (GetOrCreateChain _ _ _) as [st c].
  assert (F1 : frame m (with_MVCCStore m1 st))
    by (apply (frame_trans _ _ _ F); by apply frame_fields).
  destruct (CheckWriteConflict _ _ _ _); [intros [= <- _]; done|].
  destruct (mvcc_apply _ _ _ _ _ _ _ _) as [[m2 [c'|e]]|] eqn:Ha; [| |done].
  - intros [= <- _]. apply (frame_trans _ _ _ F1). apply frame_mvcc_apply in Ha.
    apply (frame_trans _ _ _ Ha).
    apply (frame_trans _ (with_MVCCStore m2 (set_chain (m_MVCCStore m2) table key c')));
      [by apply frame_fields|].
    eapply frame_trans; [apply frame_ssi_record_write|]. by apply frame_upd.
  - intros [= <- _]. apply (frame_trans _ _ _ F1). by eapply frame_mvcc_apply.
Qed.

Lemma frame_MVCCScan m t table fl : mgr_inv m -> frame m (MVCCScan m t table fl).1.
Proof.
  intros HI. unfold MVCCScan. destruct (m_objs m !! t) as [txn|] eqn:Ht; [|apply frame_refl].
  destruct (negb _); [apply frame_refl|].
  destruct (getSnapshot m t txn) as [m1 s] eqn:Hs.
  pose proof (frame_getSnapshot m t txn m1 s HI Ht Hs) as F.
  assert (Hfold : forall kcs m rows, frame m (fold_left (scan_chain txn s table fl) kcs (m, rows)).1).
  { clear. induction kcs as [|[k c] kcs IH]; intros m rows; simpl; [apply frame_refl|].
    destruct (FindVisible _ _) as [v|]; [|apply IH].
    eapply frame_trans; [|apply IH]. apply frame_ssi_record_read. }
  specialize (Hfold (ForEachChainInTable (m_MVCCStore m1) table) m1 []).
  destruct (fold_left _ _ _) as [m2 rows]. simpl in *. by eapply frame_trans.
Qed.

Lemma frame_TwoPLRead m txn table key : frame m (TwoPLRead m txn table key).1.
Proof.
  unfold TwoPLRead. cbv zeta.
  case_bool_decide; [destruct (Lookup _ _); apply frame_refl|].
  destruct (lk_acquire _ _ _ _) as [l [u|e]]; [|by apply frame_fields].
  destruct (lk_acquire _ _ _ _) as [l' [u'|e]]; [|by apply frame_fields].
  destruct (Lookup _ _); by apply frame_fields.
Qed.

Lemma frame_TwoPLWrite m txn table key v op m' r :
  TwoPLWrite m txn table key v op = Some (m', r) -> frame m m'.
Proof.
  unfold TwoPLWrite.
  destruct (lk_acquire _ _ _ _) as [l [u|e]]; [|intros [= <- _]; by apply frame_fields].
  destruct (lk_acquire _ _ _ _) as [l' [u'|e]]; [|intros [= <- _]; by apply frame_fields].
  destruct (Lookup _ _) as [t|]; [|intros [= <- _]; by apply frame_fields].
  destruct (log_write _ _ _ _ _ _ _) as [[m1 lsn]|] eqn:Hl; [|done]. intros [= <- _].
  apply frame_log_write in Hl.
  apply (frame_trans _ (with_locks (with_locks m l) l')); [by apply frame_fields|].
  apply (frame_trans _ _ _ Hl).
  set (m2 := append_undo m1 _ _ _ _ _ _).
  apply (frame_trans _ m2); [by apply frame_upd|].
  eapply frame_trans; [|by apply frame_upd]. by apply frame_fields.
Qed.

Lemma frame_CreateSavepoint m t name : frame m (CreateSavepoint m t name).1.
Proof.
  unfold CreateSavepoint. destruct (GetTxn m t); [by apply frame_upd|apply frame_refl].
Qed.

Lemma frame_ReleaseSavepoint m t name : frame m (ReleaseSavepoint m t name).1.
Proof.
  unfold ReleaseSavepoint. destruct (GetTxn m t); [|apply frame_refl].
  destruct (remove_savepoint _ _); [by apply frame_upd|apply frame_refl].
Qed.

Lemma frame_RollbackToSavepoint m t name : frame m (RollbackToSavepoint m t name).1.
Proof.
  unfold RollbackToSavepoint. destruct (GetTxn m t) as [txn|]; [|apply frame_refl].
  destruct (List.find _ _) as [sp|]; [|apply frame_refl].
  case_bool_decide; simpl; [|by apply frame_upd].
  eapply frame_trans; [apply frame_undo_loop|]. by apply frame_upd.
Qed.

Lemma PruneHistory_inv m : mgr_inv m -> mgr_inv (PruneHistory m).1.
Proof.
  intros [I1 I2 I3 I4 I5 In I6 I7 I8]. split; simpl; try done; try set_solver.
Qed.

Lemma Vacuum_inv m : mgr_inv m -> mgr_inv (Vacuum_RunOnce m).
Proof.
  intros HI. unfold Vacuum_RunOnce. destruct (pruneVersions _ _ _) as [s n].
  apply PruneHistory_inv. eapply frame_inv; [|exact HI]. by apply frame_fields.
Qed.

Lemma reset_txn_inv m t : mgr_inv m -> t ∈ m_txns m -> mgr_inv (reset_txn m t).
Proof.
  intros HI Ht. unfold reset_txn. destruct (m_objs m !! t) as [txn|] eqn:Hobj; [|done].
  set (m1 := upd_txn m t (set_x_Status TxnAborted)).
  set (m2 := if ssi_enabled txn then _ else _).
  assert (F : frame m1 m2).
  { apply (frame_trans _ (upd_txn m1 t closeAbort)); [by apply frame_upd|].
    eapply frame_trans; [apply (frame_teardown _ txn)|]. apply frame_ssi_if. }
  apply (ends_inv m (set_x_Status TxnAborted) m2 _ t); try done. by right.
Qed.

Lemma reset_txn_txns m t :
  m_txns (reset_txn m t) ⊆ m_txns m /\ (forall x, x ∈ m_txns m -> x <> t -> x ∈ m_txns (reset_txn m t))
  /\ m_nextID (reset_txn m t) = m_nextID m.
Proof.
  unfold reset_txn. destruct (m_objs m !! t) as [txn|]; [|done].
  set (m1 := upd_txn (upd_txn m t (set_x_Status TxnAborted)) t closeAbort).
  set (m2 := if ssi_enabled txn then _ else _).
  assert (F : frame m1 m2)
    by (eapply frame_trans; [apply (frame_teardown _ txn)|]; apply frame_ssi_if).
  simpl. rewrite (fr_txns _ _ F), (fr_next _ _ F). unfold m1. simpl. set_solver.
Qed.

Lemma reset_fold_inv l m :
  mgr_inv m -> NoDup l -> (forall x, x ∈ l -> x ∈ m_txns m) ->
  mgr_inv (fold_left reset_txn l m) /\ m_nextID (fold_left reset_txn l m) = m_nextID m.
Proof.
  revert m. induction l as [|t l IH]; intros m HI Hn Hl; simpl; [done|].
  apply NoDup_cons in Hn as [Ht Hn]. destruct (reset_txn_txns m t) as (H1 & H2 & H3).
  destruct (IH (reset_txn m t)) as [HI' Hnx]; [|done| |by rewrite Hnx].
  - apply reset_txn_inv; [done|]. apply Hl. by left.
  - intros x Hx. apply H2; [apply Hl; by right|]. by intros ->.
Qed.

Lemma MarkCommitted_inv m id :
  mgr_inv m -> id ∉ m_txns m ∪ m_aborted m -> (id <= m_nextID m)%N -> mgr_inv (MarkCommitted m id).
Proof.
  intros [I1 I2 I3 I4 I5 In I6 I7 I8] Hid Hb. split; simpl; try done; set_solver.
Qed.

Lemma frame_reseed seedID names m : frame m (fold_left (reseed_table seedID) names m).
Proof.
  revert m. induction names as [|n names IH]; intros m; simpl; [apply frame_refl|].
  eapply frame_trans; [|apply IH]. unfold reseed_table.
  destruct (Lookup _ _); [by apply frame_fields|apply frame_refl].
Qed.

Lemma Reset_inv m : mgr_inv m -> (m_nextID m + 2 < two64)%N -> mgr_inv (Reset m).
Proof.
  intros HI Hn. unfold Reset.
  destruct (reset_fold_inv (elements (m_txns m)) m HI) as [HI1 Hnx].
  { apply NoDup_elements. } { intros x. by rewrite elem_of_elements. }
  set (m1 := fold_left reset_txn _ m) in *.
  set (m2 := with_Catalog _ _).
  assert (F : frame m1 m2) by (by apply frame_fields).
  pose proof (frame_inv _ _ F HI1) as HI2.
  assert (Hn2 : m_nextID m2 = m_nextID m) by (by rewrite (fr_next _ _ F)).
  unfold nextTxnID. rewrite (u64_add_small (m_nextID m2) 1) by (rewrite Hn2; lia).
  set (id := (m_nextID m2 + 1)%N).
  assert (Hfresh : id ∉ m_txns m2 ∪ m_committed m2 ∪ m_aborted m2).
  { intros Hin%(mi_bound _ HI2). unfold id in Hin. lia. }
  assert (HI3 : mgr_inv (with_nextID m2 id)).
  { destruct HI2 as [I1 I2 I3 I4 I5 In I6 I7 I8]. split; simpl; try done.
    - intros x Hx%I4. unfold id. lia.
    - unfold id. rewrite Hn2. lia.
    - intros t txn s Ha Hb Hc. destruct (I8 t txn s Ha Hb Hc) as [S1 S2 S3 S4]. split; try done.
      unfold id. lia. }
  set (m3 := fold_left (reseed_table id) _ (with_nextID m2 id)).
  assert (F3 : frame (with_nextID m2 id) m3) by apply frame_reseed.
  apply MarkCommitted_inv.
  - by eapply frame_inv.
  - rewrite (fr_txns _ _ F3), (fr_aborted _ _ F3). simpl. set_solver.
  - rewrite (fr_next _ _ F3). done.
Qed.

(** ** Runs *)

Inductive MgrOp :=
| OpBegin (p : ConcurrencyProtocol) (iso : IsolationLevel)
| OpCommit (t : N)
| OpAbort (t : N)
| OpRead (t : N) (table key : string)
| OpScan (t : N) (table : string)
| OpWrite (t : N) (table key : string) (v : Values) (op : UndoOpType)
| Op2PLRead (t : N) (table key : string)
| Op2PLWrite (t : N) (table key : string) (v : Values) (op : UndoOpType)
| OpSavepoint (t : N) (name : string)
| OpRollback (t : N) (name : string)
| OpReleaseSP (t : N) (name : string)
| OpVacuum
| OpReset.

(** [None]: the operation panics. *)
Definition exec_mgr m (o : MgrOp) : option (Mgr L W) :=
  match o with
  | OpBegin p iso => Some (Begin m p iso).1
  | OpCommit t => Some (Commit m t).1
  | OpAbort t => Some (Abort m t).1
  | OpRead t table key => Some (MVCCRead m t table key).1
  | OpScan t table => Some (MVCCScan m t table None).1
  | OpWrite t table key v op => fst <$> MVCCWrite m t table key v op
  | Op2PLRead t table key =>
      match m_objs m !! t with
      | Some txn => Some (TwoPLRead m txn table key).1
      | None => Some m
      end
  | Op2PLWrite t table key v op =>
      match m_objs m !! t with
      | Some txn => fst <$> TwoPLWrite m txn table key v op
      | None => Some m
      end
  | OpSavepoint t name => Some (CreateSavepoint m t name).1
  | OpRollback t name => Some (RollbackToSavepoint m t name).1
  | OpReleaseSP t name => Some (ReleaseSavepoint m t name).1
  | OpVacuum => Some (Vacuum_RunOnce m)
  | OpReset => Some (Reset m)
  end.

(** The start of cmd/server/main.go: the version store is seeded from the
    catalog by transaction 0, which counts as committed. *)
Definition boot (locks : L) (catalog : Catalog) (maxActive : nat) (w : option W) : Mgr L W :=
  MarkCommitted (fold_left (reseed_table 0) (List catalog) (NewManager locks catalog maxActive w)) 0.

Inductive mreach (allowed : MgrOp -> bool) : Mgr L W -> Prop :=
| mreach_boot locks catalog maxActive w : mreach allowed (boot locks catalog maxActive w)
| mreach_step m o m' :
    mreach allowed m -> allowed o = true -> (m_nextID m + 2 < two64)%N ->
    exec_mgr m o = Some m' -> mreach allowed m'.

Definition no_vacuum (o : MgrOp) : bool := match o with OpVacuum => false | _ => true end.

Lemma boot_inv locks catalog n w : mgr_inv (boot locks catalog n w).
Proof.
  unfold boot. set (m0 := NewManager _ _ _ _).
  pose proof (frame_reseed 0 (List catalog) m0) as F.
  assert (HI : mgr_inv m0).
  { split; simpl; try set_solver; try done. }
  apply MarkCommitted_inv.
  - by eapply frame_inv.
  - rewrite (fr_txns _ _ F), (fr_aborted _ _ F). set_solver.
  - lia.
Qed.

(** An operation frames, starts a transaction, or ends one (or is one of
    the two that sweep the whole state). *)
Lemma exec_frame m o m' :
  mgr_inv m -> exec_mgr m o = Some m' ->
  match o with
  | OpBegin _ _ | OpCommit _ | OpAbort _ | OpVacuum | OpReset => True
  | _ => frame m m'
  end.
Proof.
  intros HI He. destruct o; simpl in He; try done; simplify_eq.
  - by apply frame_MVCCRead.
  - by apply frame_MVCCScan.
  - destruct (MVCCWrite _ _ _ _ _ _) as [[m1 r]|] eqn:E; [|done]. injection He as <-.
    by eapply frame_MVCCWrite.
  - destruct (m_objs m !! t); simplify_eq; [apply frame_TwoPLRead|apply frame_refl].
  - destruct (m_objs m !! t) as [txn|]; [|simplify_eq; apply frame_refl].
    destruct (TwoPLWrite _ _ _ _ _ _) as [[m1 r]|] eqn:E; [|done]. injection He as <-.
    by eapply frame_TwoPLWrite.
  - apply frame_CreateSavepoint.
  - apply frame_RollbackToSavepoint.
  - apply frame_ReleaseSavepoint.
Qed.

Lemma exec_inv m o m' :
  mgr_inv m -> (m_nextID m + 2 < two64)%N -> exec_mgr m o = Some m' -> mgr_inv m'.
Proof.
  intros HI Hn He. pose proof (exec_frame m o m' HI He) as F.
  destruct o; simpl in He; simplify_eq; try (by eapply frame_inv).
  - by apply Begin_inv.
  - by apply Commit_inv.
  - by apply Abort_inv.
  - by apply Vacuum_inv.
  - by apply Reset_inv.
Qed.

Lemma mreach_inv allowed m : mreach allowed m -> mgr_inv m.
Proof. induction 1; [apply boot_inv|by eapply exec_inv]. Qed.

(** ** Complete histories *)

(** Every identifier handed out is active, committed or aborted. *)
Definition complete m : Prop :=
  forall x, (x <= m_nextID m)%N -> x ∈ m_txns m ∪ m_committed m ∪ m_aborted m.

Lemma complete_frame m m' : frame m m' -> complete m -> complete m'.
Proof. intros [F1 F2 F3 F4 _ _] Hc x. rewrite F1, F2, F3, F4. apply Hc. Qed.

Lemma complete_finish m t :
  complete m -> complete (finish_commit m t) /\ complete (finish_abort m t).
Proof.
  intros Hc. split; intros x Hx; simpl in *; specialize (Hc x Hx);
    destruct (decide (x = t)); set_solver.
Qed.

Lemma complete_Begin m p iso : complete m -> (m_nextID m + 2 < two64)%N -> complete (Begin m p iso).1.
Proof.
  intros Hc Hn. unfold Begin. destruct (at_capacity m); [done|]. unfold nextTxnID.
  rewrite u64_add_small by lia. cbn [fst].
  eapply complete_frame; [apply frame_log_begin|]. intros x Hx. simpl in *.
  destruct (decide (x = (m_nextID m + 1)%N)) as [->|Hne]; [set_solver|].
  assert (x ∈ m_txns m ∪ m_committed m ∪ m_aborted m) by (apply Hc; lia). set_solver.
Qed.

Lemma complete_reset_txn m t : complete m -> complete (reset_txn m t).
Proof.
  intros Hc. unfold reset_txn. destruct (m_objs m !! t) as [txn|]; [|done].
  set (m1 := upd_txn (upd_txn m t (set_x_Status TxnAborted)) t closeAbort).
  set (m2 := if ssi_enabled txn then _ else _).
  assert (F : frame m1 m2)
    by (eapply frame_trans; [apply (frame_teardown _ txn)|]; apply frame_ssi_if).
  assert (Hc2 : complete m2) by (eapply complete_frame; [exact F|]; exact Hc).
  intros x Hx. simpl in *. specialize (Hc2 x Hx). destruct (decide (x = t)); set_solver.
Qed.

Lemma complete_Reset m : complete m -> mgr_inv m -> (m_nextID m + 2 < two64)%N -> complete (Reset m).
Proof.
  intros Hc HI Hn. unfold Reset.
  destruct (reset_fold_inv (elements (m_txns m)) m HI) as [_ Hnx].
  { apply NoDup_elements. } { intros x. by rewrite elem_of_elements. }
  assert (Hc1 : complete (fold_left reset_txn (elements (m_txns m)) m)).
  { generalize (elements (m_txns m)). intros l. clear -Hc. revert m Hc.
    induction l as [|t l IH]; intros m Hc; simpl; [done|]. by apply IH, complete_reset_txn. }
  set (m1 := fold_left reset_txn _ m) in *. unfold nextTxnID. cbn [m_nextID with_Catalog with_SSI with_MVCCStore with_opEpoch].
  rewrite u64_add_small by (rewrite Hnx; lia).
  set (m2 := with_nextID _ _). set (m3 := fold_left _ _ m2).
  assert (F : frame m2 m3) by apply frame_reseed.
  intros x Hx. unfold MarkCommitted in *. simpl in *.
  rewrite (fr_txns _ _ F), (fr_committed _ _ F), (fr_aborted _ _ F). rewrite (fr_next _ _ F) in Hx.
  simpl in *. destruct (decide (x = (m_nextID m1 + 1)%N)) as [->|Hne]; [set_solver|].
  assert (x ∈ m_txns m1 ∪ m_committed m1 ∪ m_aborted m1) by (apply Hc1; lia). set_solver.
Qed.

Lemma mreach_complete m : mreach no_vacuum m -> complete m.
Proof.
  induction 1 as [locks catalog n w|m o m' Hr IH Ha Hn He].
  - unfold boot. set (m0 := NewManager _ _ _ _).
    pose proof (frame_reseed 0 (List catalog) m0) as F. intros x Hx. simpl in *.
    rewrite (fr_next _ _ F) in Hx. simpl in Hx. assert (x = 0%N) as -> by lia. set_solver.
  - pose proof (mreach_inv _ _ Hr) as HI. pose proof (exec_frame m o m' HI He) as F.
    destruct o; simpl in He, Ha; simplify_eq; try (by eapply complete_frame).
    + by apply complete_Begin.
    + destruct (Commit m t) as [m' r] eqn:E. simpl.
      destruct (Commit_shape _ _ _ _ E) as [F1|[(Hin & (m1 & F1 & F2) & _)|(Hin & F1 & _)]].
      * by eapply complete_frame.
      * apply (complete_frame _ _ F2). apply complete_finish. by eapply complete_frame.
      * apply (complete_frame _ _ F1). by apply complete_finish.
    + destruct (Abort m t) as [m' r] eqn:E. simpl.
      destruct (Abort_shape _ _ _ _ E) as [[-> _]|[F1|(Hin & F1 & _)]]; [done|by eapply complete_frame|].
      apply (complete_frame _ _ F1). by apply complete_finish.
    + by apply complete_Reset.
Qed.

(** The manager keeps the promise visibility relies on. *)
Lemma manager_snapshot_laws m t txn s :
  mgr_inv m -> complete m -> t ∈ m_txns m -> m_objs m !! t = Some txn -> x_Snapshot txn = Some s ->
  snapshot_laws (fun x => x ∈ m_committed m) t s m.
Proof.
  intros HI Hc Hin Ht Hs. destruct (mi_snap _ HI t txn s Hin Ht Hs) as [S1 S2 S3 S4].
  assert (Hout : forall x, x <> t -> (x < s_Xmax s)%N -> Contains s x = false ->
    x ∈ m_committed m \/ x ∈ m_aborted m).
  { intros x Hne Hx Hcon. assert (x ∈ m_txns m ∪ m_committed m ∪ m_aborted m) as Hx2
      by (apply Hc; lia).
    apply elem_of_union in Hx2 as [[Hx2|?]%elem_of_union|?]; [|by left|by right].
    destruct (S4 x Hx2 Hne); [congruence|lia]. }
  pose proof (mi_ca _ HI) as Hca. split; simpl.
  - done.
  - intros x Hx. destruct (Contains s x) eqn:E; [|done]. apply S3 in E. lia.
  - intros x Hne Hx Hcon. rewrite bool_decide_eq_true.
    destruct (Hout x Hne Hx Hcon) as [Hx2|Hx2]; split; try set_solver.
  - intros x _ _ _. by rewrite bool_decide_eq_true.
Qed.
End Inv.

#[export] Hint Resolve frame_refl : txn.

(** ** Concrete runs *)

#[export] Existing Instance wfg_unit.

Notation DemoMgr := (Mgr (@LockSt unit) unit).

Definition demo_table : Table := PutRow (NewTable "t" []) "k" (Some [IntVal 0]).
Definition demo_boot : DemoMgr := boot (lock_init tt) (Register NewCatalog demo_table) 0 None.

Fixpoint run_mgr (m : DemoMgr) (ops : list MgrOp) : option DemoMgr :=
  match ops with
  | [] => Some m
  | o :: ops =>
      if (m_nextID m + 2 <? two64)%N then exec_mgr m o ≫= fun m => run_mgr m ops else None
  end.

Definition demo (ops : list MgrOp) : DemoMgr := default demo_boot (run_mgr demo_boot ops).

Lemma run_mgr_reach allowed m ops m' :
  mreach allowed m -> forallb allowed ops = true -> run_mgr m ops = Some m' -> mreach allowed m'.
Proof.
  revert m. induction ops as [|o ops IH]; intros m Hr Ha He; simpl in *; [by simplify_eq|].
  apply andb_true_iff in Ha as [Ha Hs]. destruct (N.ltb_spec (m_nextID m + 2) two64); [|done].
  destruct (exec_mgr m o) as [m1|] eqn:E; [|done]. apply (IH m1); [|done|done].
  by eapply mreach_step.
Qed.

Lemma demo_reach_gen allowed ops :
  forallb allowed ops = true -> is_Some (run_mgr demo_boot ops) -> mreach allowed (demo ops).
Proof.
  intros Ha [m Hm]. unfold demo. rewrite Hm. by eapply run_mgr_reach; [constructor| |].
Qed.

(** One writer, one reader. *)
Definition begin_rr : MgrOp := OpBegin ProtocolMVCC RepeatableRead.
Definition upd (t : N) (z : Z) : MgrOp := OpWrite t "t" "k" (Some [IntVal z]) UndoUpdate.
Definition del (t : N) : MgrOp := OpWrite t "t" "k" None UndoDelete.
Definition read_k (m : DemoMgr) (t : N) : result TxnError (Values * bool) := (MVCCRead m t "t" "k").2.

(** ** Properties *)

(** C22. The life-cycle invariant holds in every state reached from a fresh
    start, without recovered outcomes, whatever the order of begins (with
    allocated identifiers, not [BeginWithID]), reads, writes, savepoints,
    commits, aborts, vacuum passes and resets: no transaction is in two of
    the active, committed and aborted sets, no identifier exceeds the
    allocation counter, the active set is exactly the set of objects with
    active status, and the snapshot of an active transaction lists every
    other active transaction older than its upper bound. *)
Theorem lifecycle_invariant {L W} `{LockService L} `{WALWriter W} (m : Mgr L W) allowed :
  mreach allowed m ->
  m_committed m ## m_aborted m /\ m_txns m ## m_committed m /\ m_txns m ## m_aborted m
  /\ (forall x, x ∈ m_txns m ∪ m_committed m ∪ m_aborted m -> (x <= m_nextID m)%N)
  /\ (forall t, t ∈ m_txns m <-> exists txn, m_objs m !! t = Some txn /\ x_Status txn = TxnActive)
  /\ (forall t txn s x, t ∈ m_txns m -> m_objs m !! t = Some txn -> x_Snapshot txn = Some s ->
        x ∈ m_txns m -> x <> t -> Contains s x = true \/ (s_Xmax s <= x)%N).
Proof.
  intros [I1 I2 I3 I4 I5 In I6 I7 I8]%mreach_inv. split_and!; try done.
  intros t txn s x Ht Hm Hs Hx Hne. by apply (I8 t txn s Ht Hm Hs).
Qed.

(** Commit and abort are terminal and answered consistently afterwards:
    a successful [Commit] of an active transaction makes it committed and
    [Abort] of an active one makes it aborted, for good; committing it
    again succeeds, aborting a committed one and committing an aborted one
    fail, and none of these calls changes the state. *)
Theorem commit_abort_terminal {L W} `{LockService L} `{WALWriter W} (m : Mgr L W) allowed t :
  mreach allowed m ->
  (t ∈ m_txns m -> (Commit m t).2 = Ok tt ->
     t ∈ m_committed (Commit m t).1 /\ t ∉ m_txns (Commit m t).1)
  /\ (t ∈ m_txns m -> (Abort m t).2 = Ok tt /\ t ∈ m_aborted (Abort m t).1
                      /\ t ∉ m_txns (Abort m t).1)
  /\ (t ∈ m_committed m -> Commit m t = (m, Ok tt)
        /\ Abort m t = (m, Err (ETxn (NewTxnCommittedError t))))
  /\ (t ∈ m_aborted m -> Commit m t = (m, Err (ETxn NewTxnAbortedError))
        /\ Abort m t = (m, Ok tt)).
Proof.
  intros HI%mreach_inv. destruct HI as [I1 I2 I3 I4 I5 In I6 I7 I8].
  assert (Hact : t ∈ m_txns m -> exists txn, GetTxn m t = Some txn /\ x_Status txn = TxnActive).
  { intros Hin. destruct (proj1 (I6 t) Hin) as (txn & Ht & Hs). exists txn. unfold GetTxn.
    by rewrite bool_decide_true. }
  assert (Hno : t ∉ m_txns m -> GetTxn m t = None)
    by (intros Hin; unfold GetTxn; by rewrite bool_decide_false).
  split_and!.
  - intros Hin Hok. destruct (Hact Hin) as (txn & Hg & Hs).
    destruct (Commit m t) as [m' r] eqn:E. simpl in *. subst r. revert E.
    unfold Commit. rewrite Hg, Hs. destruct (_ && _); [done|].
    destruct (log_commit _ _ _) as [m1 [e|]] eqn:El; [done|]. intros [= <-].
    apply frame_log_commit in El.
    destruct (ssi_enabled txn), (bool_decide _); simpl; set_solver.
  - intros Hin. destruct (Hact Hin) as (txn & Hg & Hs). unfold Abort. rewrite Hg, Hs.
    destruct (teardown _ txn) as [m1 clr] eqn:Et. cbn [fst snd].
    assert (F : frame (upd_txn (finish_abort m t) t closeAbort)
                  (if ssi_enabled txn then with_SSI (log_abort m1 txn clr)
                     (Cleanup (m_SSI (log_abort m1 txn clr)) t) else log_abort m1 txn clr)).
    { apply (frame_trans _ m1).
      { change m1 with (m1, clr).1. rewrite <-Et. apply frame_teardown. }
      apply (frame_trans _ (log_abort m1 txn clr)); [apply frame_log_abort|]. apply frame_ssi_if. }
    rewrite (fr_txns _ _ F), (fr_aborted _ _ F). simpl. set_solver.
  - intros Hin. assert (Hg : GetTxn m t = None) by (apply Hno; set_solver).
    assert (t ∉ m_aborted m) by set_solver. unfold Commit, Abort. rewrite Hg.
    by rewrite (bool_decide_false (t ∈ m_aborted m)), !bool_decide_true.
  - intros Hin. assert (Hg : GetTxn m t = None) by (apply Hno; set_solver).
    assert (t ∉ m_committed m) by set_solver. unfold Commit, Abort. rewrite Hg.
    by rewrite bool_decide_true, bool_decide_false.
Qed.


Definition demo_read : list MgrOp := [begin_rr; upd 1 7; begin_rr].

Lemma lifecycle_invariant_witness :
  m_txns (demo demo_read) ## m_committed (demo demo_read).
Proof.
  refine (proj1 (proj2 (lifecycle_invariant (demo demo_read) no_vacuum _))).
  apply demo_reach_gen; [reflexivity|]. vm_compute. by eexists.
Defined.

Lemma commit_abort_terminal_witness :
  1%N ∈ m_aborted (Abort (demo demo_read) 1).1.
Proof.
  refine (proj1 (proj2 (proj1 (proj2 (commit_abort_terminal (demo demo_read) no_vacuum 1 _)) _))).
  - apply demo_reach_gen; [reflexivity|]. vm_compute. by eexists.
  - vm_compute. reflexivity.
Defined.

