(* ===== verification/TxnMvcc.v ===== *)
(** * Snapshot isolation of the transaction manager

    Repeatable reads across the steps of other transactions, abort as the
    inverse of the writes, and the schedules in which snapshot isolation
    fails. *)

From Stdlib Require Import ZArith NArith Lia Strings.Byte String.
From stdpp Require Import base tactics numbers list gmap strings sorting.
From S2P Require Import Prelude Types Lock Acquire Storage Mvcc WalRecord Wal Ssi Txn TxnInv.

Section Stability.
Context {L W : Type} `{LockService L} `{WALWriter W}.
Implicit Types m : Mgr L W.

(** A transaction whose effects the snapshot [s] of [t] does not show,
    whatever becomes of it. *)
Definition unseen (t : N) (s : Snapshot) (u : N) : Prop :=
  u <> t /\ u <> 0%N /\ (s_Xmin s <= u)%N /\ (Contains s u = true \/ (s_Xmax s <= u)%N).

Lemma unseen_creator t s u m v :
  unseen t s u -> ver_XMin v = u -> IsVisible v t s m = false.
Proof.
  intros (Hne & _ & Hmin & Hor) Hv. unfold IsVisible. rewrite Hv. simpl.
  rewrite (proj2 (N.eqb_neq u t)), (proj2 (N.ltb_ge _ _) Hmin) by done. simpl.
  destruct Hor as [->|Hge]; [by rewrite andb_false_r|].
  rewrite (proj2 (N.ltb_ge u _) Hge). by rewrite andb_false_r.
Qed.

(** Marking a live version as deleted by an unseen transaction. *)
Lemma unseen_deleter t s u m v :
  unseen t s u -> ver_XMax v = 0%N \/ ver_XMax v = u ->
  IsVisible (set_XMax v u) t s m = IsVisible v t s m
  /\ IsVisible (set_XMax v 0) t s m = IsVisible v t s m.
Proof.
  intros (Hne & Hz & Hmin & Hor) Hx.
  assert (Ha : IsVisible (set_XMax v u) t s m = IsVisible (set_XMax v 0) t s m).
  { unfold IsVisible. simpl. destruct (negb _); [done|].
    rewrite (proj2 (N.eqb_neq u 0) Hz), (proj2 (N.eqb_neq u t) Hne).
    destruct Hor as [->|Hge]; [done|]. destruct (Contains s u); [done|].
    by rewrite (proj2 (N.leb_le _ _) Hge). }
  destruct v as [a b d l]. unfold set_XMax in *. simpl in *. destruct Hx as [->| ->]; auto.
Qed.

(** The answers of two managers that differ on an unseen transaction. *)
Lemma unseen_status t s u m m' v :
  unseen t s u ->
  (forall x, x <> u -> (x ∈ m_committed m' <-> x ∈ m_committed m)) ->
  (forall x, x <> u -> (x ∈ m_aborted m' <-> x ∈ m_aborted m)) ->
  IsVisible v t s m' = IsVisible v t s m.
Proof.
  intros (Hne & Hz & Hmin & Hor) Hc Ha. unfold IsVisible. simpl.
  assert (HA : forall x, x <> u -> bool_decide (x ∈ m_aborted m') = bool_decide (x ∈ m_aborted m)).
  { intros x Hx. apply bool_decide_ext. by apply Ha. }
  assert (HC : forall x, x <> u -> bool_decide (x ∈ m_committed m') = bool_decide (x ∈ m_committed m)).
  { intros x Hx. apply bool_decide_ext. by apply Hc. }
  assert (E1 : (ver_XMin v <? s_Xmin s)%N && negb (bool_decide (ver_XMin v ∈ m_aborted m'))
             = (ver_XMin v <? s_Xmin s)%N && negb (bool_decide (ver_XMin v ∈ m_aborted m))).
  { destruct (N.ltb_spec (ver_XMin v) (s_Xmin s)); simpl; [|done]. rewrite HA; [done|lia]. }
  assert (E2 : (s_Xmin s <=? ver_XMin v)%N && (ver_XMin v <? s_Xmax s)%N
        && bool_decide (ver_XMin v ∈ m_committed m') && negb (Contains s (ver_XMin v))
      = (s_Xmin s <=? ver_XMin v)%N && (ver_XMin v <? s_Xmax s)%N
        && bool_decide (ver_XMin v ∈ m_committed m) && negb (Contains s (ver_XMin v))).
  { destruct (N.ltb_spec (ver_XMin v) (s_Xmax s)); [|by rewrite !andb_false_r].
    destruct (Contains s (ver_XMin v)) eqn:Ec; [by rewrite !andb_false_r|].
    destruct (decide (ver_XMin v = u)) as [Hu|Hu]; [|by rewrite HC].
    subst u. destruct Hor; [congruence|lia]. }
  rewrite E1, E2. match goal with |- (if ?b then _ else _) = _ => destruct b end; [done|].
  destruct (ver_XMax v =? 0)%N; [done|]. destruct (ver_XMax v =? t)%N; [done|].
  destruct (Contains s (ver_XMax v)) eqn:Ec; [done|].
  destruct (N.leb_spec (s_Xmax s) (ver_XMax v)); [done|].
  destruct (decide (ver_XMax v = u)) as [Hu|Hu]; [|by rewrite HA].
  subst u. destruct Hor; [congruence|lia].
Qed.

(** ** What a snapshot shows of a row *)

Definition chain_view m (t : N) (s : Snapshot) (vs : list Version) : option Values :=
  ver_Data <$> List.find (fun v => IsVisible v t s m) vs.

Definition snapshot_view m (t : N) (s : Snapshot) (table key : string) : option Values :=
  GetChain (m_MVCCStore m) table key ≫= fun c => chain_view m t s (ch_versions c).

Lemma find_ext_data (p q : Version -> bool) vs :
  (forall v, v ∈ vs -> p v = q v) -> List.find p vs = List.find q vs.
Proof.
  induction vs as [|v vs IH]; intros Hpq; simpl; [done|]. rewrite Hpq by (by left).
  rewrite IH; [done|]. intros x Hx. apply Hpq. by right.
Qed.

Lemma chain_view_status t s u m m' vs :
  unseen t s u ->
  (forall x, x <> u -> (x ∈ m_committed m' <-> x ∈ m_committed m)) ->
  (forall x, x <> u -> (x ∈ m_aborted m' <-> x ∈ m_aborted m)) ->
  chain_view m' t s vs = chain_view m t s vs.
Proof.
  intros Hu Hc Ha. unfold chain_view. f_equal. apply find_ext_data. intros v _.
  by eapply unseen_status.
Qed.

Lemma chain_view_prepend t s u m v vs :
  unseen t s u -> ver_XMin v = u -> chain_view m t s (v :: vs) = chain_view m t s vs.
Proof. intros Hu Hv. unfold chain_view. simpl. by rewrite (unseen_creator t s u). Qed.

Lemma chain_view_supersede t s u m p vs w vs' :
  unseen t s u -> supersede p u vs = Some (w, vs') -> ver_XMax w = 0%N \/ ver_XMax w = u ->
  chain_view m t s vs' = chain_view m t s vs.
Proof.
  intros Hu. unfold chain_view. revert w vs'. induction vs as [|v vs IH]; intros w vs' Hs Hw;
    simpl in Hs; [done|].
  destruct (p v).
  - simplify_eq. simpl. destruct (unseen_deleter t s u m w Hu Hw) as [-> _].
    by destruct (IsVisible w t s m).
  - destruct (supersede p u vs) as [[w0 vs0]|] eqn:E; [|done]. simplify_eq. simpl.
    destruct (IsVisible v t s m); [done|]. by apply (IH w vs0).
Qed.

Lemma chain_view_undo t s u m vs :
  unseen t s u -> chain_view m t s (undo_versions u vs) = chain_view m t s vs.
Proof.
  intros Hu. unfold chain_view, undo_versions. induction vs as [|v vs IH]; simpl; [done|].
  destruct (N.eqb_spec (ver_XMin v) u) as [Hv|Hv]; simpl.
  - by rewrite (unseen_creator t s u m v).
  - destruct (N.eqb_spec (ver_XMax v) u) as [Hx|Hx].
    + destruct (unseen_deleter t s u m v Hu (or_intror Hx)) as [_ ->].
      by destruct (IsVisible v t s m).
    + by destruct (IsVisible v t s m).
Qed.

(** ** The store under the operations *)

Lemma GetChain_set s table key c table' key' :
  GetChain (set_chain s table key c) table' key'
  = if decide (table = table' /\ key = key') then Some c else GetChain s table' key'.
Proof.
  unfold GetChain, set_chain. rewrite lookup_insert. destruct (decide (table = table')) as [<-|Hne].
  - rewrite lookup_insert. destruct (decide (key = key')) as [<-|Hk].
    + by rewrite decide_True.
    + rewrite decide_False by tauto. by destruct (s !! table).
  - by rewrite decide_False by tauto.
Qed.

(** No chain in the store is marked for deletion: [ReapEmpty] marks and
    removes in one step. *)
Definition store_live (s : Store) : Prop :=
  forall table key c, GetChain s table key = Some c -> ch_tombstoned c = false.

Lemma set_chain_live s table key c :
  store_live s -> ch_tombstoned c = false -> store_live (set_chain s table key c).
Proof. intros Hs Hc t k c'. rewrite GetChain_set. case_decide; [by intros [= <-]|apply Hs]. Qed.

Lemma GetOrCreateChain_spec s table key s' c :
  store_live s -> GetOrCreateChain s table key = (s', c) ->
  store_live s' /\ GetChain s' table key = Some c /\ ch_tombstoned c = false
  /\ c = default (NewVersionChain key) (GetChain s table key)
  /\ (forall t k, (t, k) <> (table, key) -> GetChain s' t k = GetChain s t k).
Proof.
  intros Hl. unfold GetOrCreateChain, getTable.
  assert (Hg : forall ts, s !! table = Some ts -> GetChain s table key = ts !! key)
    by (intros ts Hts; unfold GetChain; by rewrite Hts).
  assert (Hnew : forall s0, store_live s0 -> (forall t k, GetChain s0 t k = GetChain s t k) ->
    GetChain s table key = None -> (set_chain s0 table key (NewVersionChain key), NewVersionChain key) = (s', c) ->
    store_live s' /\ GetChain s' table key = Some c /\ ch_tombstoned c = false
    /\ c = default (NewVersionChain key) (GetChain s table key)
    /\ (forall t k, (t, k) <> (table, key) -> GetChain s' t k = GetChain s t k)).
  { intros s0 Hl0 He Hn [= <- <-]. split_and!.
    - by apply set_chain_live.
    - rewrite GetChain_set. by rewrite decide_True.
    - done.
    - by rewrite Hn.
    - intros t k Hne. rewrite GetChain_set, decide_False, He; [done|]. by intros [-> ->]. }
  destruct (s !! table) as [ts|] eqn:Ets.
  - specialize (Hg ts eq_refl). destruct (ts !! key) as [c0|] eqn:Ec.
    + rewrite (Hl _ _ _ Hg). simpl. intros [= <- <-]. rewrite Hg.
      split_and!; try done. by eapply Hl.
    + apply Hnew; done.
  - rewrite lookup_empty. apply Hnew.
    + intros t k c0. unfold GetChain. rewrite lookup_insert. case_decide; [by rewrite lookup_empty|apply Hl].
    + intros t k. unfold GetChain. rewrite lookup_insert. case_decide as He; [|done].
      subst t. by rewrite Ets, lookup_empty.
    + unfold GetChain. by rewrite Ets.
Qed.

Lemma mvcc_undo_loop_live t seen es s : store_live s -> store_live (mvcc_undo_loop t seen es s).
Proof.
  revert seen s. induction es as [|e es IH]; intros seen s Hl; simpl; [done|].
  case_bool_decide; [by apply IH|]. destruct (GetChain s _ _) as [c|] eqn:Ec; [|by apply IH].
  apply IH, set_chain_live; [done|]. simpl. by eapply Hl.
Qed.

(** The undo of [u] touches only chains, each by [undo_versions]. *)
Lemma mvcc_undo_loop_chain t seen es s table key :
  match GetChain s table key with
  | None => GetChain (mvcc_undo_loop t seen es s) table key = None
  | Some c =>
      exists c', GetChain (mvcc_undo_loop t seen es s) table key = Some c'
        /\ ch_key c' = ch_key c /\ ch_tombstoned c' = ch_tombstoned c
        /\ (ch_versions c' = ch_versions c
            \/ ch_versions c' = undo_versions t (ch_versions c))
        /\ (Exists (fun e => u_Table e = table /\ u_Key e = key) es -> (table, key) ∉ seen ->
              ch_versions c' = undo_versions t (ch_versions c))
        /\ ((table, key) ∈ seen -> ch_versions c' = ch_versions c)
  end.
Proof.
  revert seen s. induction es as [|e es IH]; intros seen s.
  { simpl. destruct (GetChain s table key) as [c|] eqn:Ec; [|done]. exists c.
    split_and!; try done; [by left|]. intros Hex. by apply Exists_nil in Hex. }
  cbn [mvcc_undo_loop]. case_bool_decide as Hseen.
  - specialize (IH seen s). destruct (GetChain s table key) as [c|]; [|done].
    destruct IH as (c' & Hq1 & Hq2 & Hq3 & Hq4 & Hq5 & Hq6). exists c'. split_and!; try done.
    intros [[<- <-]|Hex]%Exists_cons Hns; [done|by apply Hq5].
  - destruct (GetChain s (u_Table e) (u_Key e)) as [ce|] eqn:Ee.
    + set (ce' := ClearXMax (RemoveByXMin ce t) t).
      specialize (IH ((u_Table e, u_Key e) :: seen) (set_chain s (u_Table e) (u_Key e) ce')).
      rewrite GetChain_set in IH. case_decide as Hd.
      * destruct Hd as [<- <-]. rewrite Ee. destruct IH as (c' & Hq1 & Hq2 & Hq3 & Hq4 & Hq5 & Hq6).
        assert (Hv : ch_versions c' = undo_versions t (ch_versions ce))
          by (rewrite Hq6 by (by left); done).
        exists c'. split_and!; [done|done|done|by right|done|]. by intros Hs.
      * destruct (GetChain s table key) as [c|]; [|done].
        destruct IH as (c' & Hq1 & Hq2 & Hq3 & Hq4 & Hq5 & Hq6). exists c'. split_and!; try done.
        -- intros [[<- <-]|Hex]%Exists_cons Hns; [by destruct Hd|]. apply Hq5; [done|].
           rewrite not_elem_of_cons. split; [|done]. intros [= -> ->]. by destruct Hd.
        -- intros Hs. apply Hq6. by right.
    + specialize (IH ((u_Table e, u_Key e) :: seen) s).
      destruct (GetChain s table key) as [c|] eqn:Ec; [|done].
      destruct IH as (c' & Hq1 & Hq2 & Hq3 & Hq4 & Hq5 & Hq6). exists c'. split_and!; try done.
      * intros [[<- <-]|Hex]%Exists_cons Hns; [congruence|]. apply Hq5; [done|].
        rewrite not_elem_of_cons. split; [|done]. intros [= -> ->]. congruence.
      * intros Hs. apply Hq6. by right.
Qed.

(** ** The effect of a write on its chain *)

(** The versions of the row after a write of [t]; [None]: no visible row. *)
Definition write_versions (vis : Version -> bool) (t : N) (op : UndoOpType) (v : Values) (lsn : N)
    (vs : list Version) : option (list Version) :=
  match op with
  | UndoInsert => Some (mkVersion t 0 v lsn :: vs)
  | UndoUpdate => (fun wvs => mkVersion t 0 v lsn :: wvs.2) <$> supersede vis t vs
  | UndoDelete => snd <$> supersede vis t vs
  end.

(** The snapshot an operation of [txn] uses. *)
Definition current_snapshot m (txn : Transaction) : Snapshot :=
  if bool_decide (x_Isolation txn = ReadCommitted) then takeSnapshot m
  else default (takeSnapshot m) (x_Snapshot txn).

Definition row_versions m (table key : string) : list Version :=
  match GetChain (m_MVCCStore m) table key with Some c => ch_versions c | None => [] end.

Lemma getSnapshot_current m t txn : (getSnapshot m t txn).2 = current_snapshot m txn.
Proof. unfold getSnapshot, current_snapshot. case_bool_decide; [done|]. by destruct (x_Snapshot txn). Qed.

(** Operations that keep the status sets, the store and the undo logs. *)
Record quiet_step m m' : Prop := {
  qs_store : m_MVCCStore m' = m_MVCCStore m;
  qs_committed : m_committed m' = m_committed m;
  qs_aborted : m_aborted m' = m_aborted m;
  qs_undo : forall t txn', m_objs m' !! t = Some txn' ->
    exists txn, m_objs m !! t = Some txn /\ x_UndoLog txn' = x_UndoLog txn;
}.

Lemma quiet_refl m : quiet_step m m.
Proof. split; eauto. Qed.

Lemma quiet_trans m1 m2 m3 : quiet_step m1 m2 -> quiet_step m2 m3 -> quiet_step m1 m3.
Proof.
  intros [A1 A2 A3 A4] [B1 B2 B3 B4]. split; try congruence.
  intros t txn3 Ht. destruct (B4 _ _ Ht) as (txn2 & Ht2 & E2). destruct (A4 _ _ Ht2) as (txn1 & Ht1 & E1).
  exists txn1. split; [done|congruence].
Qed.

Lemma quiet_fields m m' :
  m_objs m' = m_objs m -> m_MVCCStore m' = m_MVCCStore m -> m_committed m' = m_committed m ->
  m_aborted m' = m_aborted m -> quiet_step m m'.
Proof. intros E1 E2 E3 E4. split; try done. rewrite E1. eauto. Qed.

Lemma quiet_upd m id f :
  (forall txn, x_UndoLog (f txn) = x_UndoLog txn) -> quiet_step m (upd_txn m id f).
Proof.
  intros Hf. split; try done. intros t txn'. unfold upd_txn. simpl.
  destruct (decide (t = id)) as [->|?]; [rewrite lookup_alter_eq|rewrite lookup_alter_ne by done; eauto].
  destruct (m_objs m !! id) as [txn|]; [|done]. simpl. intros [= <-]. eauto.
Qed.

Lemma quiet_log_begin m id : quiet_step m (log_begin m id).
Proof.
  unfold log_begin. destruct (m_WAL m) as [w|]; [|apply quiet_refl].
  destruct (wal_Begin w id) as [w' [lsn|e]]; [|by apply quiet_fields].
  apply (quiet_trans _ (with_WAL m (Some w'))); [by apply quiet_fields|by apply quiet_upd].
Qed.

Lemma quiet_log_write m id op table key b a m' lsn :
  log_write m id op table key b a = Some (m', lsn) -> quiet_step m m'.
Proof.
  unfold log_write. destruct (m_WAL m) as [w|]; [|intros [= <- _]; apply quiet_refl].
  destruct b as [b|], a as [a|]; try done.
  destruct (wal_Write w id _ _ _ _ _ _) as [w' [l|e]]; intros [= <- _]; [|by apply quiet_fields].
  apply (quiet_trans _ (with_WAL m (Some w'))); [by apply quiet_fields|by apply quiet_upd].
Qed.

Lemma quiet_log_commit m id last m' e : log_commit m id last = (m', e) -> quiet_step m m'.
Proof.
  unfold log_commit. destruct (m_WAL m) as [w|]; [|intros [= <- _]; apply quiet_refl].
  destruct (wal_Commit w id last) as [w' [l|e']]; [destruct (wal_Flush w' l)|];
    intros [= <- _]; by apply quiet_fields.
Qed.

Lemma quiet_undo_loop id es clr m : quiet_step m (undo_loop id es clr m).1.
Proof.
  revert clr m. induction es as [|e es IH]; intros clr m; cbn [undo_loop]; [apply quiet_refl|].
  match goal with |- context [let '(_, _) := ?x in _] => destruct x as [m1 clr1] eqn:E end.
  assert (F1 : quiet_step m m1).
  { destruct (m_WAL m) as [w|]; [|injection E as <- _; apply quiet_refl].
    destruct (_ && _); [|injection E as <- _; apply quiet_refl].
    destruct (wal_CLR _ _ _ _). injection E as <- _. by apply quiet_fields. }
  eapply quiet_trans; [exact F1|]. eapply quiet_trans; [|apply IH]. by apply quiet_fields.
Qed.

Lemma quiet_getSnapshot m t txn : quiet_step m (getSnapshot m t txn).1.
Proof.
  unfold getSnapshot. case_bool_decide; [by apply quiet_upd|].
  destruct (x_Snapshot txn); [apply quiet_refl|by apply quiet_upd].
Qed.

Lemma quiet_ssi_record_read m txn key : quiet_step m (ssi_record_read m txn key).
Proof.
  unfold ssi_record_read. case_bool_decide; [|apply quiet_refl].
  eapply quiet_trans; [|by apply quiet_upd]. by apply quiet_fields.
Qed.

Lemma quiet_ssi_record_write m txn key : quiet_step m (ssi_record_write m txn key).
Proof.
  unfold ssi_record_write. case_bool_decide; [|apply quiet_refl].
  destruct (RecordWrite _ _ _ _) as [s fl].
  assert (Hfold : forall m, quiet_step m (fold_left (fun m r => upd_txn m r SetInConflict) fl m)).
  { clear. induction fl as [|r fl IH]; intros m; simpl; [apply quiet_refl|].
    eapply quiet_trans; [|apply IH]. by apply quiet_upd. }
  eapply quiet_trans; [by apply (quiet_fields m (with_SSI m s))|].
  eapply quiet_trans; [apply Hfold|]. case_bool_decide; [apply quiet_refl|by apply quiet_upd].
Qed.

Lemma quiet_MVCCRead m t table key : quiet_step m (MVCCRead m t table key).1.
Proof.
  unfold MVCCRead. destruct (m_objs m !! t) as [txn|]; [|apply quiet_refl].
  destruct (negb _); [apply quiet_refl|]. pose proof (quiet_getSnapshot m t txn) as F.
  destruct (getSnapshot m t txn) as [m1 s]. simpl in F.
  destruct (GetChain _ _ _) as [c|]; [|done]. destruct (FindVisible _ _) as [v|]; [|done]. simpl.
  eapply quiet_trans; [exact F|]. eapply quiet_trans; [apply quiet_ssi_record_read|]. by apply quiet_upd.
Qed.

Lemma quiet_MVCCScan m t table fl : quiet_step m (MVCCScan m t table fl).1.
Proof.
  unfold MVCCScan. destruct (m_objs m !! t) as [txn|]; [|apply quiet_refl].
  destruct (negb _); [apply quiet_refl|]. pose proof (quiet_getSnapshot m t txn) as F.
  destruct (getSnapshot m t txn) as [m1 s]. simpl in F.
  assert (Hfold : forall kcs m rows, quiet_step m (fold_left (scan_chain txn s table fl) kcs (m, rows)).1).
  { clear. induction kcs as [|[k c] kcs IH]; intros m rows; simpl; [apply quiet_refl|].
    destruct (FindVisible _ _) as [v|]; [|apply IH].
    eapply quiet_trans; [|apply IH]. apply quiet_ssi_record_read. }
  specialize (Hfold (ForEachChainInTable (m_MVCCStore m1) table) m1 []).
  destruct (fold_left _ _ _) as [m2 rows]. simpl in *. by eapply quiet_trans.
Qed.

Lemma quiet_TwoPLRead m txn table key : quiet_step m (TwoPLRead m txn table key).1.
Proof.
  unfold TwoPLRead. cbv zeta.
  case_bool_decide; [destruct (Lookup _ _); apply quiet_refl|].
  destruct (lk_acquire _ _ _ _) as [l [u|e]]; [|by apply quiet_fields].
  destruct (lk_acquire _ _ _ _) as [l' [u'|e]]; [|by apply quiet_fields].
  destruct (Lookup _ _); by apply quiet_fields.
Qed.

Lemma quiet_savepoint m t name :
  quiet_step m (CreateSavepoint m t name).1 /\ quiet_step m (ReleaseSavepoint m t name).1.
Proof.
  split; [unfold CreateSavepoint|unfold ReleaseSavepoint];
    (destruct (GetTxn m t); [|apply quiet_refl]); [by apply quiet_upd|].
  destruct (remove_savepoint _ _); [by apply quiet_upd|apply quiet_refl].
Qed.

(** Steps after which every undo log extends what it was. *)
Definition undo_grows m m' : Prop :=
  forall t txn', m_objs m' !! t = Some txn' ->
    exists txn, m_objs m !! t = Some txn /\ x_UndoLog txn `prefix_of` x_UndoLog txn'.

Definition names (table key : string) (e : UndoEntry) : Prop := u_Table e = table /\ u_Key e = key.
Definition logs (txn : Transaction) (table key : string) : Prop :=
  Exists (names table key) (x_UndoLog txn).

Lemma quiet_grows m m' : quiet_step m m' -> undo_grows m m'.
Proof.
  intros Q t txn' Ht. destruct (qs_undo _ _ Q _ _ Ht) as (txn & Htx & ->). by exists txn.
Qed.

Lemma grows_trans m1 m2 m3 : undo_grows m1 m2 -> undo_grows m2 m3 -> undo_grows m1 m3.
Proof.
  intros A B t txn3 Ht. destruct (B _ _ Ht) as (txn2 & Ht2 & E2). destruct (A _ _ Ht2) as (txn1 & Ht1 & E1).
  exists txn1. split; [done|by etrans].
Qed.

Lemma append_undo_grows m t op table key before lsn :
  undo_grows m (append_undo m t op table key before lsn)
  /\ forall txn', m_objs (append_undo m t op table key before lsn) !! t = Some txn' -> logs txn' table key.
Proof.
  unfold append_undo, upd_txn, AppendWithLSN. simpl. split.
  - intros u txn'. simpl. destruct (decide (u = t)) as [->|?];
      [rewrite lookup_alter_eq|rewrite lookup_alter_ne by done; eauto].
    destruct (m_objs m !! t) as [txn|]; [|done]. simpl. intros [= <-]. exists txn. split; [done|].
    simpl. by eexists.
  - intros txn'. rewrite lookup_alter_eq. destruct (m_objs m !! t) as [txn|]; [|done]. simpl.
    intros [= <-]. unfold logs. simpl. apply Exists_app. right. by apply Exists_cons_hd.
Qed.

Lemma logs_prefix txn txn' table key :
  x_UndoLog txn `prefix_of` x_UndoLog txn' -> logs txn table key -> logs txn' table key.
Proof. intros [es E] Hl. unfold logs. rewrite E. apply Exists_app. by left. Qed.

Lemma quiet_logs m m' t table key :
  quiet_step m m' -> (forall txn, m_objs m !! t = Some txn -> logs txn table key) ->
  forall txn', m_objs m' !! t = Some txn' -> logs txn' table key.
Proof.
  intros Q Hl txn' Ht. destruct (qs_undo _ _ Q _ _ Ht) as (txn & Htx & E). unfold logs. rewrite E.
  by apply Hl.
Qed.

Lemma mvcc_apply_effect m t s c table key v op m' r :
  mvcc_apply m t s c table key v op = Some (m', r) ->
  m_MVCCStore m' = m_MVCCStore m /\ m_committed m' = m_committed m /\ m_aborted m' = m_aborted m
  /\ undo_grows m m'
  /\ exists lsn,
      match write_versions (fun x => IsVisible x t s m) t op v lsn (ch_versions c) with
      | None => r = Err NewRowNotFoundError
      | Some vs => r = Ok (with_versions c vs)
          /\ forall txn', m_objs m' !! t = Some txn' -> logs txn' table key
      end.
Proof.
  assert (Hlog : forall op b a before m1 lsn, log_write m t op table key b a = Some (m1, lsn) ->
    let m2 := append_undo m1 t op table key before lsn in
    m_MVCCStore m2 = m_MVCCStore m /\ m_committed m2 = m_committed m /\ m_aborted m2 = m_aborted m
    /\ undo_grows m m2 /\ forall txn', m_objs m2 !! t = Some txn' -> logs txn' table key).
  { intros op' b a before m1 lsn Hw. pose proof (quiet_log_write _ _ _ _ _ _ _ _ _ Hw) as Q.
    destruct (append_undo_grows m1 t op' table key before lsn) as [Hg Hl]. destruct Q as [Q1 Q2 Q3 Q4] eqn:EQ.
    split_and!; try done. eapply grows_trans; [by apply quiet_grows|done]. }
  assert (Hno : undo_grows m m) by (apply quiet_grows, quiet_refl).
  unfold mvcc_apply. destruct op; simpl.
  - destruct (log_write _ _ _ _ _ _ _) as [[m1 lsn]|] eqn:Hw; [|done]. intros [= <- <-].
    destruct (Hlog _ _ _ None _ _ Hw) as (? & ? & ? & ? & ?). split_and!; try done. by exists lsn.
  - destruct (supersede _ _ _) as [[w vs]|].
    2: { intros [= <- <-]. split_and!; try done. by exists 0%N. }
    destruct (log_write _ _ _ _ _ _ _) as [[m1 lsn]|] eqn:Hw; [|done]. intros [= <- <-].
    destruct (Hlog _ _ _ (ver_Data w) _ _ Hw) as (? & ? & ? & ? & ?). split_and!; try done.
    by exists lsn.
  - destruct (supersede _ _ _) as [[w vs]|].
    2: { intros [= <- <-]. split_and!; try done. }
    destruct (log_write _ _ _ _ _ _ _) as [[m1 lsn]|] eqn:Hw; [|done]. intros [= <- <-].
    destruct (Hlog _ _ _ (ver_Data w) _ _ Hw) as (? & ? & ? & ? & ?). split_and!; try done.
Qed.

Lemma MVCCWrite_inactive m t table key v op m' r :
  (forall txn, m_objs m !! t = Some txn -> x_Status txn <> TxnActive) ->
  MVCCWrite m t table key v op = Some (m', r) -> m' = m /\ r = Err NewTxnAbortedError.
Proof.
  intros Hn. unfold MVCCWrite. destruct (m_objs m !! t) as [txn|]; [|by intros [= <- <-]].
  rewrite bool_decide_false by (by apply Hn). by intros [= <- <-].
Qed.

Lemma supersede_ext (p q : Version -> bool) t vs :
  (forall x, p x = q x) -> supersede p t vs = supersede q t vs.
Proof. intros Hpq. induction vs as [|x vs IH]; simpl; [done|]. by rewrite Hpq, IH. Qed.

Lemma write_versions_ext (p q : Version -> bool) t op v lsn vs :
  (forall x, p x = q x) -> write_versions p t op v lsn vs = write_versions q t op v lsn vs.
Proof. intros Hpq. unfold write_versions. by rewrite (supersede_ext p q). Qed.

(** Visibility and conflicts depend on the status sets alone. *)
Lemma IsVisible_sets m m' t (s : Snapshot) v :
  m_committed m' = m_committed m -> m_aborted m' = m_aborted m ->
  IsVisible v t s m' = IsVisible v t s m.
Proof. intros E1 E2. unfold IsVisible. simpl. by rewrite E1, E2. Qed.

Lemma conflict_sets m m' t (s : Snapshot) vs :
  m_txns m' = m_txns m -> m_committed m' = m_committed m ->
  checkWriteConflictLocked t vs s m' = checkWriteConflictLocked t vs s m.
Proof.
  intros E1 E2. induction vs as [|x vs IH]; cbn [checkWriteConflictLocked]; [done|].
  simpl. by rewrite E1, E2, IH.
Qed.

(** What a write of [t] leaves outside its own row. *)
Definition write_frame (table key : string) m m' : Prop :=
  store_live (m_MVCCStore m') /\ m_committed m' = m_committed m /\ m_aborted m' = m_aborted m
  /\ undo_grows m m'
  /\ (forall table' key', (table', key') <> (table, key) ->
        GetChain (m_MVCCStore m') table' key' = GetChain (m_MVCCStore m) table' key').

(** The prologue: the snapshot and the chain of the row. *)
Lemma write_prologue m t txn table key m1 s st c :
  store_live (m_MVCCStore m) -> getSnapshot m t txn = (m1, s) ->
  GetOrCreateChain (m_MVCCStore m1) table key = (st, c) ->
  let m2 := with_MVCCStore m1 st in
  s = current_snapshot m txn /\ write_frame table key m m2 /\ m_txns m2 = m_txns m
  /\ GetChain st table key = Some c /\ ch_versions c = row_versions m table key
  /\ ch_tombstoned c = false.
Proof.
  intros Hl Es Eg. pose proof (getSnapshot_current m t txn) as Ec.
  pose proof (quiet_getSnapshot m t txn) as Q.
  assert (Htx : m_txns (getSnapshot m t txn).1 = m_txns m)
    by (unfold getSnapshot; case_bool_decide; [done|]; by destruct (x_Snapshot txn)).
  rewrite Es in *. cbn [fst snd] in *. rewrite (qs_store _ _ Q) in Eg.
  apply GetOrCreateChain_spec in Eg as (Hlst & Hc & Hct & Hdef & Hoth); [|done].
  split_and!; try done.
  - split_and!; [done|apply Q|apply Q| |done]. intros u txn'. apply (quiet_grows _ _ Q).
  - unfold row_versions. rewrite Hdef. destruct (GetChain (m_MVCCStore m) table key); reflexivity.
Qed.

(** The whole effect of a write by an active transaction. *)
Lemma MVCCWrite_effect m t txn table key v op m' r :
  store_live (m_MVCCStore m) -> m_objs m !! t = Some txn -> x_Status txn = TxnActive ->
  MVCCWrite m t table key v op = Some (m', r) ->
  let snap := current_snapshot m txn in
  let vs := row_versions m table key in
  write_frame table key m m'
  /\ match checkWriteConflictLocked t vs snap m with
     | Some w => r = Err (NewWriteConflictError w) /\ row_versions m' table key = vs
     | None => exists lsn,
         match write_versions (fun x => IsVisible x t snap m) t op v lsn vs with
         | None => r = Err NewRowNotFoundError /\ row_versions m' table key = vs
         | Some vs' => r = Ok tt /\ row_versions m' table key = vs'
             /\ forall txn', m_objs m' !! t = Some txn' -> logs txn' table key
         end
     end.
Proof.
  intros Hl Ht Ha. unfold MVCCWrite. rewrite Ht. rewrite bool_decide_true by done. cbn [negb].
  destruct (getSnapshot m t txn) as [m1 s] eqn:Es. cbv zeta.
  destruct (GetOrCreateChain (m_MVCCStore m1) table key) as [st c] eqn:Eg.
  destruct (write_prologue _ _ _ _ _ _ _ _ _ Hl Es Eg) as (-> & F2 & Htx & Hc & Hvs & Hct).
  set (m2 := with_MVCCStore m1 st) in *. set (snap := current_snapshot m txn).
  pose proof F2 as (B1 & B2 & B3 & B4 & B5).
  unfold CheckWriteConflict. rewrite Hvs, (conflict_sets m m2) by done.
  destruct (checkWriteConflictLocked _ _ _ m) as [w|].
  { intros [= <- <-]. split_and!; try done. unfold row_versions at 1. simpl. by rewrite Hc. }
  destruct (mvcc_apply m2 t snap c table key v op) as [[m3 r3]|] eqn:Hap; [|done].
  apply mvcc_apply_effect in Hap as (A1 & A2 & A3 & A4 & lsn & A5). rewrite Hvs in A5.
  rewrite (write_versions_ext _ (fun x => IsVisible x t snap m)) in A5
    by (intros x; by apply IsVisible_sets).
  assert (F3 : write_frame table key m m3).
  { split_and!; [by rewrite A1|congruence|congruence|by eapply grows_trans|]. rewrite A1. apply B5. }
  pose proof F3 as (C1 & C2 & C3 & C4 & C5).
  destruct (write_versions _ _ _ _ _ _) as [vs'|] eqn:Ew.
  - destruct A5 as [-> Hlog]. intros [= <- <-].
    set (m4 := with_MVCCStore m3 _).
    pose proof (quiet_trans _ _ _ (quiet_ssi_record_write m4 txn (table +:+ ":" +:+ key))
      (quiet_upd _ t (addWrite key) ltac:(done))) as QQ.
    set (m5 := upd_txn _ _ _) in *. pose proof QQ as [Q1 Q2 Q3 _]. split.
    + split_and!; rewrite ?Q1, ?Q2, ?Q3; try done.
      * simpl. by apply set_chain_live.
      * eapply grows_trans; [exact C4|]. by apply (quiet_grows m4).
      * intros t' k' Hne. simpl. rewrite GetChain_set, decide_False by (by intros [-> ->]). by apply C5.
    + exists lsn. rewrite Ew. split_and!; [done| |by apply (quiet_logs m4)].
      unfold row_versions. rewrite Q1. simpl. by rewrite GetChain_set, decide_True.
  - subst r3. intros [= <- <-]. split; [done|]. exists lsn. rewrite Ew. split; [done|].
    unfold row_versions at 1. rewrite A1. simpl. by rewrite Hc.
Qed.
End Stability.
