(* ===== verification/TxnIso.v ===== *)
(** * Snapshot isolation: what holds and what does not

    The invariant of the version store over all runs of the manager, then
    the isolation properties of the MVCC protocol: repeatable reads, reads
    of own writes, abort as the removal of every trace. The last part runs
    the schedules in which isolation fails. *)

From Stdlib Require Import ZArith NArith Lia Strings.Byte String.
From stdpp Require Import base tactics numbers list gmap strings sorting.
From S2P Require Import Prelude Types Lock Acquire Storage Mvcc WalRecord Wal Ssi Txn TxnInv TxnMvcc.

(** The transaction [x] created or deleted a version of the list. *)
Definition mentions (x : N) (vs : list Version) : Prop :=
  Exists (fun v => ver_XMin v = x \/ ver_XMax v = x) vs.

Lemma not_mentions_untouched t vs : ~ mentions t vs <-> untouched t vs.
Proof.
  unfold mentions, untouched. rewrite Exists_exists, Forall_forall. split.
  - intros Hn v Hv. split; intros ?; apply Hn; eauto.
  - intros Hf (v & Hv & Hor). destruct (Hf v Hv). tauto.
Qed.

Lemma mentions_supersede x p t vs w vs' :
  supersede p t vs = Some (w, vs') -> mentions x vs' -> x = t \/ mentions x vs.
Proof.
  revert vs'. induction vs as [|v vs IH]; intros vs' Hs Hm; simpl in Hs; [done|].
  unfold mentions in *. destruct (p v).
  - simplify_eq. apply Exists_cons in Hm as [[Hm|Hm]|Hm]; simpl in Hm.
    + right. apply Exists_cons. auto.
    + by left.
    + right. apply Exists_cons. auto.
  - destruct (supersede p t vs) as [[w0 vs0]|]; [|done]. simplify_eq.
    apply Exists_cons in Hm as [Hm|Hm]; [right; apply Exists_cons; auto|].
    destruct (IH _ eq_refl Hm); [auto|]. right. apply Exists_cons. auto.
Qed.

Lemma mentions_write x vis t op v lsn vs vs' :
  write_versions vis t op v lsn vs = Some vs' -> mentions x vs' -> x = 0%N \/ x = t \/ mentions x vs.
Proof.
  assert (Hnew : forall vs0, mentions x (mkVersion t 0 v lsn :: vs0) ->
    x = 0%N \/ x = t \/ mentions x vs0).
  { intros vs0 [[Hm|Hm]|Hm]%Exists_cons; simpl in Hm; auto. }
  unfold write_versions. destruct op.
  - intros [= <-]. apply Hnew.
  - destruct (supersede vis t vs) as [[w vs0]|] eqn:Es; [|done]. intros [= <-] [?|[?|Hm]]%Hnew; auto.
    right. by eapply mentions_supersede.
  - destruct (supersede vis t vs) as [[w vs0]|] eqn:Es; [|done]. intros [= <-] Hm.
    right. by eapply mentions_supersede.
Qed.

Lemma mentions_undo x t vs :
  mentions x (undo_versions t vs) -> x = 0%N \/ (x <> t /\ mentions x vs).
Proof.
  unfold undo_versions, mentions. induction vs as [|v vs IH]; simpl; [by intros ?%Exists_nil|].
  rewrite Exists_cons. destruct (N.eqb_spec (ver_XMin v) t) as [Hv|Hv]; simpl; [tauto|].
  rewrite Exists_cons. destruct (N.eqb_spec (ver_XMax v) t) as [Hx|Hx]; simpl.
  - intros [[<-|?]|?]; [|auto|tauto]. right. split; [done|]. auto.
  - intros [[<-|<-]|?]; [| |tauto]; right; auto.
Qed.

Lemma mentions_filter x (f : Version -> bool) vs : mentions x (List.filter f vs) -> mentions x vs.
Proof.
  unfold mentions. rewrite !Exists_exists. intros (v & Hin & Hv). exists v. split; [|done].
  apply list_elem_of_In, filter_In in Hin as [? _]. by apply list_elem_of_In.
Qed.

Section StoreInv.
Context {L W : Type} `{LockService L} `{WALWriter W}.
Implicit Types m : Mgr L W.

(** Every trace of a transaction in a chain has an allocated identifier,
    and an active transaction has logged each row that bears its trace. *)
Record store_inv m : Prop := {
  si_live : store_live (m_MVCCStore m);
  si_bound : forall table key x, mentions x (row_versions m table key) -> (x <= m_nextID m)%N;
  si_logged : forall t txn table key, t ∈ m_txns m -> m_objs m !! t = Some txn ->
    mentions t (row_versions m table key) -> logs txn table key;
}.

(** A step in which only [u] leaves new traces, logging the row. *)
Lemma store_inv_step m m' :
  store_inv m -> mgr_inv m' -> (m_nextID m <= m_nextID m')%N -> store_live (m_MVCCStore m') ->
  (forall t, t ∈ m_txns m' -> t ∈ m_txns m \/ (m_nextID m < t)%N) ->
  (forall t txn', m_objs m' !! t = Some txn' -> (t <= m_nextID m)%N ->
     exists txn, m_objs m !! t = Some txn /\ x_UndoLog txn `prefix_of` x_UndoLog txn') ->
  (forall table key x, mentions x (row_versions m' table key) ->
     x = 0%N \/ mentions x (row_versions m table key)
     \/ ((x <= m_nextID m')%N /\ forall txn', m_objs m' !! x = Some txn' -> x ∈ m_txns m' -> logs txn' table key)) ->
  store_inv m'.
Proof.
  intros [S1 S2 S3] HI Hn Hl Htx Hu Hm. split; [done| |].
  - intros table key x [->|[Hx|[? _]]]%Hm; [lia| |done]. apply S2 in Hx. lia.
  - intros t txn' table key Hin Ht [->|[Hx|[_ Hx]]]%Hm.
    + by destruct (mi_zero _ HI).
    + pose proof (S2 _ _ _ Hx) as Hb. destruct (Hu _ _ Ht Hb) as (txn & Ht0 & Hp).
      apply (logs_prefix txn); [done|]. apply (S3 t); [|done|done].
      destruct (Htx _ Hin); [done|lia].
    + by apply Hx.
Qed.

Lemma quiet_row m m' table key :
  m_MVCCStore m' = m_MVCCStore m -> row_versions m' table key = row_versions m table key.
Proof. unfold row_versions. by intros ->. Qed.

Lemma store_inv_quiet m m' :
  store_inv m -> mgr_inv m' -> quiet_step m m' -> frame m m' -> store_inv m'.
Proof.
  intros HS HI Q F. apply (store_inv_step m); try done.
  - by rewrite (fr_next _ _ F).
  - rewrite (qs_store _ _ Q). apply HS.
  - rewrite (fr_txns _ _ F). auto.
  - intros t txn' Ht _. by apply (quiet_grows _ _ Q).
  - intros table key x. rewrite (quiet_row m) by apply Q. auto.
Qed.

(** The end of [t] leaves every row as it is, or undoes [t] in it. *)
Record ends m m' (t : N) : Prop := {
  en_live : store_live (m_MVCCStore m) -> store_live (m_MVCCStore m');
  en_row : forall table key, row_versions m' table key = row_versions m table key
    \/ row_versions m' table key = undo_versions t (row_versions m table key);
  en_grows : undo_grows m m';
  en_none : forall table key, GetChain (m_MVCCStore m) table key = None ->
    GetChain (m_MVCCStore m') table key = None;
}.

Lemma quiet_ends m m' t : quiet_step m m' -> ends m m' t.
Proof.
  intros Q. split.
  - by rewrite (qs_store _ _ Q).
  - intros. left. by rewrite (quiet_row m) by apply Q.
  - by apply quiet_grows.
  - by rewrite (qs_store _ _ Q).
Qed.

Lemma ends_quiet m m1 m2 t : ends m m1 t -> m_MVCCStore m2 = m_MVCCStore m1 -> undo_grows m1 m2 -> ends m m2 t.
Proof.
  intros [E1 E2 E3 E4] Hs Hg. split.
  - by rewrite Hs.
  - intros. by rewrite (quiet_row m1 m2).
  - by eapply grows_trans.
  - by rewrite Hs.
Qed.

Lemma upd_grows m id f :
  (forall txn, x_UndoLog (f txn) = x_UndoLog txn) -> undo_grows m (upd_txn m id f).
Proof. intros Hf. by apply quiet_grows, quiet_upd. Qed.

Lemma mvcc_undo_ends m txn : ends m (applyMVCCUndo m txn) (x_ID txn).
Proof.
  split; simpl.
  - apply mvcc_undo_loop_live.
  - intros table key. unfold row_versions. simpl.
    pose proof (mvcc_undo_loop_chain (x_ID txn) [] (x_UndoLog txn) (m_MVCCStore m) table key) as Hc.
    destruct (GetChain (m_MVCCStore m) table key) as [c|]; [|rewrite Hc; by left].
    destruct Hc as (c' & -> & _ & _ & Hor & _). exact Hor.
  - intros t txn' Ht. simpl in Ht. eauto.
  - intros table key Hn.
    pose proof (mvcc_undo_loop_chain (x_ID txn) [] (x_UndoLog txn) (m_MVCCStore m) table key) as Hc.
    by rewrite Hn in Hc.
Qed.

Lemma teardown_ends m txn : ends m (teardown m txn).1 (x_ID txn).
Proof.
  unfold teardown. destruct (x_Protocol txn); [|apply mvcc_undo_ends].
  pose proof (quiet_undo_loop (x_ID txn) (rev (x_UndoLog txn)) LSNInvalid m) as Q.
  unfold applyUndoLog, applyUndoEntries. destruct (undo_loop _ _ _ m) as [m1 clr]. simpl in *.
  apply (ends_quiet m m1); [by apply quiet_ends|done|]. intros t txn' Ht. eauto.
Qed.

(** [ends] for a state that differs from [m] in status sets and flags. *)
Lemma ends_from m m1 m2 t :
  ends m1 m2 t -> m_MVCCStore m1 = m_MVCCStore m -> undo_grows m m1 -> ends m m2 t.
Proof.
  intros [E1 E2 E3 E4] Hs Hg. split.
  - by rewrite <-Hs.
  - intros. rewrite <-(quiet_row m m1) by done. apply E2.
  - by eapply grows_trans.
  - by rewrite <-Hs.
Qed.

Lemma grows_same m m' : m_objs m' = m_objs m -> undo_grows m m'.
Proof. intros E t txn'. rewrite E. eauto. Qed.

Lemma log_abort_same m txn clr :
  m_MVCCStore (log_abort m txn clr) = m_MVCCStore m /\ m_objs (log_abort m txn clr) = m_objs m.
Proof. unfold log_abort. by destruct (m_WAL m). Qed.

Lemma abort_mark_grows m t : undo_grows m (upd_txn (finish_abort m t) t closeAbort).
Proof.
  apply (grows_trans _ (upd_txn m t (set_x_Status TxnAborted))); [by apply upd_grows|].
  apply (grows_trans _ (finish_abort m t)); [by apply grows_same|by apply upd_grows].
Qed.

Lemma Commit_ends m t : mgr_inv m -> ends m (Commit m t).1 t.
Proof.
  intros HI. unfold Commit. destruct (GetTxn m t) as [txn|] eqn:Hg.
  2: { repeat case_bool_decide; apply quiet_ends, quiet_refl. }
  apply GetTxn_active in Hg as [Hin Hobj]. pose proof (mi_id _ HI _ _ Hobj) as Hid.
  destruct (x_Status txn); [|apply quiet_ends, quiet_refl..].
  destruct (_ && _).
  - cbn [fst]. set (m1 := with_SSI _ _). pose proof (mvcc_undo_ends m1 txn) as E. rewrite Hid in E.
    eapply ends_from; [exact E|done|].
    apply (grows_trans _ _ _ (abort_mark_grows m t)). by apply grows_same.
  - destruct (log_commit m t (x_LastWALLSN txn)) as [m1 [e|]] eqn:Hl; apply quiet_log_commit in Hl.
    + by apply quiet_ends.
    + simpl. apply (ends_quiet m m1); [by apply quiet_ends| |].
      * by destruct (ssi_enabled txn), (bool_decide _).
      * eapply grows_trans; [by apply (upd_grows m1 t (set_x_Status TxnCommitted))|]. apply grows_same.
        by destruct (ssi_enabled txn), (bool_decide _).
Qed.

Lemma Abort_ends m t : mgr_inv m -> ends m (Abort m t).1 t.
Proof.
  intros HI. unfold Abort. destruct (GetTxn m t) as [txn|] eqn:Hg.
  2: { repeat case_bool_decide; apply quiet_ends, quiet_refl. }
  apply GetTxn_active in Hg as [Hin Hobj]. pose proof (mi_id _ HI _ _ Hobj) as Hid.
  destruct (x_Status txn); [|apply quiet_ends, quiet_refl..].
  set (m0 := upd_txn (finish_abort m t) t closeAbort). pose proof (teardown_ends m0 txn) as E.
  destruct (teardown m0 txn) as [m1 clr]. cbn [fst] in *. rewrite Hid in E.
  destruct (log_abort_same m1 txn clr) as [L1 L2].
  apply (ends_quiet m m1).
  - eapply ends_from; [exact E|done|]. apply abort_mark_grows.
  - by destruct (ssi_enabled txn).
  - apply grows_same. by destruct (ssi_enabled txn).
Qed.

Lemma store_inv_ends m m' t :
  store_inv m -> mgr_inv m' -> ends m m' t -> m_txns m' ⊆ m_txns m -> m_nextID m' = m_nextID m ->
  store_inv m'.
Proof.
  intros HS HI E Htx Hn. apply (store_inv_step m); try done.
  - by rewrite Hn.
  - apply (en_live _ _ _ E). apply HS.
  - intros x Hx. left. by apply Htx.
  - intros x txn' Hx _. by apply (en_grows _ _ _ E).
  - intros table key x. destruct (en_row _ _ _ E table key) as [-> | ->]; [auto|].
    intros [?|[_ ?]]%mentions_undo; auto.
Qed.

Lemma Commit_txns m t :
  m_txns (Commit m t).1 ⊆ m_txns m /\ m_nextID (Commit m t).1 = m_nextID m.
Proof.
  destruct (Commit m t) as [m' r] eqn:E.
  destruct (Commit_shape _ _ _ _ E) as [F|[(_ & (m1 & F1 & F2) & _)|(_ & F & _)]]; simpl.
  - by rewrite (fr_txns _ _ F), (fr_next _ _ F).
  - rewrite (fr_txns _ _ F2), (fr_next _ _ F2). simpl. rewrite (fr_txns _ _ F1), (fr_next _ _ F1).
    split; [set_solver|done].
  - rewrite (fr_txns _ _ F), (fr_next _ _ F). simpl. split; [set_solver|done].
Qed.

Lemma Abort_txns m t : m_txns (Abort m t).1 ⊆ m_txns m /\ m_nextID (Abort m t).1 = m_nextID m.
Proof.
  destruct (Abort m t) as [m' r] eqn:E.
  destruct (Abort_shape _ _ _ _ E) as [[-> _]|[F|(_ & F & _)]]; simpl.
  - done.
  - by rewrite (fr_txns _ _ F), (fr_next _ _ F).
  - rewrite (fr_txns _ _ F), (fr_next _ _ F). simpl. split; [set_solver|done].
Qed.

Lemma store_inv_Begin m p iso :
  store_inv m -> mgr_inv m -> (m_nextID m + 2 < two64)%N -> store_inv (Begin m p iso).1.
Proof.
  intros HS HI Hn. pose proof (Begin_inv m p iso HI Hn) as HI'. revert HI'.
  unfold Begin. destruct (at_capacity m); [done|]. unfold nextTxnID. rewrite u64_add_small by lia.
  cbn [fst]. set (id := (m_nextID m + 1)%N). set (m1 := register _ _ _ _). intros HI'.
  pose proof (quiet_log_begin m1 id) as Q. pose proof (frame_log_begin m1 id) as F.
  apply (store_inv_step m); try done.
  - rewrite (fr_next _ _ F). simpl. lia.
  - rewrite (qs_store _ _ Q). apply HS.
  - intros t. rewrite (fr_txns _ _ F). simpl. intros [->%elem_of_singleton|?]%elem_of_union; [|auto].
    right. lia.
  - intros t txn' Ht Hb. destruct (qs_undo _ _ Q _ _ Ht) as (txn & Htx & ->). revert Htx.
    simpl. rewrite lookup_insert_ne by lia. eauto.
  - intros table key x. rewrite (quiet_row m1) by apply Q. auto.
Qed.

Lemma store_inv_write m t table key v op m' r :
  store_inv m -> mgr_inv m -> mgr_inv m' -> MVCCWrite m t table key v op = Some (m', r) -> store_inv m'.
Proof.
  intros HS HI HI' Hw. pose proof (frame_MVCCWrite _ _ _ _ _ _ _ _ HI Hw) as F.
  destruct (decide (t ∈ m_txns m)) as [Hin|Hin].
  2: { apply MVCCWrite_inactive in Hw as [-> _]; [done|]. intros txn Ht Ha. apply Hin, (mi_active _ HI). eauto. }
  pose proof Hin as (txn & Ht & Ha)%(mi_active _ HI).
  destruct (MVCCWrite_effect _ _ _ _ _ _ _ _ _ (si_live _ HS) Ht Ha Hw) as [(W1 & W2 & W3 & W4 & W5) Hrow].
  apply (store_inv_step m); try done.
  - by rewrite (fr_next _ _ F).
  - rewrite (fr_txns _ _ F). auto.
  - intros x txn' Hx _. by apply W4.
  - intros table' key' x. destruct (decide ((table', key') = (table, key))) as [[= -> ->]|Hne].
    2: { unfold row_versions. rewrite W5 by done. auto. }
    destruct (checkWriteConflictLocked _ _ _ _); [destruct Hrow as [_ ->]; auto|].
    destruct Hrow as (lsn & Hrow). destruct (write_versions _ _ _ _ _ _) as [vs'|] eqn:Ew.
    2: { destruct Hrow as [_ ->]; auto. }
    destruct Hrow as (_ & -> & Hlog). intros Hm. destruct (mentions_write _ _ _ _ _ _ _ _ Ew Hm) as [?|[->|?]]; auto.
    right. right. split; [|auto]. rewrite (fr_next _ _ F). apply HI. set_solver.
Qed.

Lemma TwoPLWrite_store m txn table key v op m' r :
  TwoPLWrite m txn table key v op = Some (m', r) ->
  m_MVCCStore m' = m_MVCCStore m /\ m_committed m' = m_committed m /\ m_aborted m' = m_aborted m
  /\ undo_grows m m'.
Proof.
  unfold TwoPLWrite.
  destruct (lk_acquire _ _ _ _) as [l [u|e]]; [|intros [= <- _]; split_and!; try done; by apply grows_same].
  destruct (lk_acquire _ _ _ _) as [l' [u'|e]]; [|intros [= <- _]; split_and!; try done; by apply grows_same].
  destruct (Lookup _ _) as [t|]; [|intros [= <- _]; split_and!; try done; by apply grows_same].
  destruct (log_write _ _ _ _ _ _ _) as [[m1 lsn]|] eqn:Hl; [|done]. intros [= <- _].
  apply quiet_log_write in Hl. set (before := (GetRow t key).1).
  destruct (append_undo_grows m1 (x_ID txn) op table key before lsn) as [Hg _].
  split_and!; [apply Hl..|].
  apply (grows_trans _ (with_locks (with_locks m l) l')); [by apply grows_same|].
  apply (grows_trans _ m1); [by apply quiet_grows|].
  apply (grows_trans _ _ _ Hg).
  eapply grows_trans; [|by apply upd_grows]. by apply grows_same.
Qed.

(** ** Vacuum and seeding *)

Lemma GetChain_prune f (st : Store) table key :
  GetChain (ReapEmpty (ForEachChain f st)) table key
  = GetChain st table key ≫= fun c => if decide (ch_versions (f c) = []) then None else Some (f c).
Proof.
  unfold GetChain, ReapEmpty, ForEachChain. rewrite !lookup_fmap.
  destruct (st !! table) as [ts|]; simpl; [|done]. rewrite map_lookup_filter, lookup_fmap.
  destruct (ts !! key) as [c|]; simpl; [|done]. case_decide as He.
  - by rewrite option_guard_False by (by intros Hn; apply Hn).
  - by rewrite option_guard_True.
Qed.

Lemma vacuum_row m table key :
  row_versions (Vacuum_RunOnce m) table key
  = List.filter (fun v => negb (vacuum_pred m (OldestActiveTxnID m) v)) (row_versions m table key).
Proof.
  unfold row_versions, Vacuum_RunOnce, pruneVersions. simpl. rewrite GetChain_prune.
  destruct (GetChain (m_MVCCStore m) table key) as [c|]; simpl; [|done]. by case_decide as He.
Qed.

Lemma vacuum_live m : store_live (m_MVCCStore m) -> store_live (m_MVCCStore (Vacuum_RunOnce m)).
Proof.
  intros Hl table key c. unfold Vacuum_RunOnce, pruneVersions. simpl. rewrite GetChain_prune.
  destruct (GetChain (m_MVCCStore m) table key) as [c0|] eqn:E; simpl; [|done].
  case_decide; [done|]. intros [= <-]. simpl. by eapply Hl.
Qed.

Lemma store_inv_vacuum m : store_inv m -> mgr_inv m -> store_inv (Vacuum_RunOnce m).
Proof.
  intros HS HI. apply (store_inv_step m); try done.
  - by apply Vacuum_inv.
  - apply vacuum_live, HS.
  - auto.
  - intros t txn' Ht _. eauto.
  - intros table key x. rewrite vacuum_row. intros Hm%mentions_filter. auto.
Qed.

Definition store_row (st : Store) (table key : string) : list Version :=
  match GetChain st table key with Some c => ch_versions c | None => [] end.

Lemma seed_spec name id rows st :
  store_live st ->
  store_live (SeedMVCCStore st name rows id)
  /\ forall table key x, mentions x (store_row (SeedMVCCStore st name rows id) table key) ->
       x = 0%N \/ x = id \/ mentions x (store_row st table key).
Proof.
  unfold SeedMVCCStore. revert st. induction rows as [|row rows IH]; intros st Hl; simpl; [auto|].
  unfold seed_row at 2 4. destruct (GetOrCreateChain st name (row_Key row)) as [st1 c] eqn:Eg.
  destruct (GetOrCreateChain_spec _ _ _ _ _ Hl Eg) as (Hl1 & Hc & Hct & Hd & Ho).
  edestruct IH as [A B]; [|split; [exact A|]].
  { by apply set_chain_live. }
  intros table key x Hm. apply B in Hm as [?|[?|Hm]]; auto. revert Hm. unfold store_row.
  rewrite GetChain_set. case_decide as He.
  - destruct He as [<- <-]. simpl. intros [[Hx|Hx]|Hx]%Exists_cons; simpl in Hx; auto.
    right. right. rewrite Hd in Hx. destruct (GetChain st name (row_Key row)); [done|].
    by apply Exists_nil in Hx.
  - rewrite Ho by (intros [= -> ->]; by apply He). auto.
Qed.

Lemma reseed_spec id names m :
  store_live (m_MVCCStore m) ->
  let m' := fold_left (reseed_table id) names m in
  store_live (m_MVCCStore m')
  /\ forall table key x, mentions x (row_versions m' table key) ->
       x = 0%N \/ x = id \/ mentions x (row_versions m table key).
Proof.
  revert m. induction names as [|n names IH]; intros m Hl; simpl; [auto|].
  unfold reseed_table at 2 4. destruct (Lookup (m_Catalog m) n) as [tbl|]; [|by apply IH].
  destruct (seed_spec n id (Scan tbl None) (m_MVCCStore m) Hl) as [A B].
  destruct (IH (with_MVCCStore m (SeedMVCCStore (m_MVCCStore m) n (Scan tbl None) id)) A) as [A' B'].
  split; [done|]. intros table key x [?|[?|Hm]]%B'; auto. exact (B table key x Hm).
Qed.

Lemma reset_fold_txns l m x :
  mgr_inv m -> NoDup l -> (forall y, y ∈ l -> y ∈ m_txns m) ->
  x ∈ m_txns (fold_left reset_txn l m) -> x ∈ m_txns m /\ x ∉ l.
Proof.
  revert m. induction l as [|t l IH]; intros m HI Hn Hl Hx; simpl in *; [set_solver|].
  apply NoDup_cons in Hn as [Ht Hn]. destruct (reset_txn_txns m t) as (R1 & R2 & R3).
  assert (Htm : t ∈ m_txns m) by (apply Hl; by left).
  apply IH in Hx as [Hx1 Hx2]; [| |done|].
  - split; [by apply R1|]. apply not_elem_of_cons. split; [|done]. intros ->.
    pose proof Htm as (txn & Ho & _)%(mi_active _ HI). revert Hx1. unfold reset_txn. rewrite Ho. simpl.
    set_solver.
  - by apply reset_txn_inv.
  - intros y Hy. apply R2; [apply Hl; by right|]. by intros ->.
Qed.

Lemma store_inv_fresh m id :
  store_live (m_MVCCStore m) -> m_txns m = ∅ -> (id <= m_nextID m)%N ->
  (forall table key x, mentions x (row_versions m table key) -> x = 0%N \/ x = id) -> store_inv m.
Proof.
  intros Hl Ht Hid Hm. split; [done| |].
  - intros table key x [->| ->]%Hm; lia.
  - rewrite Ht. set_solver.
Qed.

Lemma empty_live : store_live ∅.
Proof. intros table key c. unfold GetChain. by rewrite lookup_empty. Qed.

Lemma store_inv_reset m : mgr_inv m -> (m_nextID m + 2 < two64)%N -> store_inv (Reset m).
Proof.
  intros HI Hn. unfold Reset. destruct (reset_fold_inv (elements (m_txns m)) m HI) as [HI1 Hnx].
  { apply NoDup_elements. } { intros x. by rewrite elem_of_elements. }
  assert (Hempty : m_txns (fold_left reset_txn (elements (m_txns m)) m) = ∅).
  { apply set_eq. intros x. split; [|set_solver]. intros Hx.
    apply reset_fold_txns in Hx as [Ha Hb]; [|done|apply NoDup_elements|intros y; by rewrite elem_of_elements].
    by rewrite elem_of_elements in Hb. }
  set (m1 := fold_left reset_txn _ m) in *. set (m2 := with_Catalog _ _).
  unfold nextTxnID. set (id := u64_add (m_nextID m2) 1). set (m3 := with_nextID m2 id).
  pose proof (frame_reseed id (List (m_Catalog m3)) m3) as F.
  destruct (reseed_spec id (List (m_Catalog m3)) m3 empty_live) as [A B].
  apply (store_inv_fresh _ id).
  - exact A.
  - exact (eq_trans (fr_txns _ _ F) Hempty).
  - apply N.eq_le_incl. symmetry. exact (fr_next _ _ F).
  - intros table key x [?|[?|Hm]]%B; auto. unfold row_versions in Hm. simpl in Hm.
    by apply Exists_nil in Hm.
Qed.

Lemma store_inv_boot locks catalog n w : store_inv (boot locks catalog n w).
Proof.
  unfold boot. set (m0 := NewManager _ _ _ _).
  destruct (reseed_spec 0 (List catalog) m0 empty_live) as [A B].
  pose proof (frame_reseed 0 (List catalog) m0) as F. apply (store_inv_fresh _ 0); simpl.
  - exact A.
  - by rewrite (fr_txns _ _ F).
  - lia.
  - intros table key x [?|[?|Hm]]%B; auto. by apply Exists_nil in Hm.
Qed.

Definition no_rollback (o : MgrOp) : bool := match o with OpRollback _ _ => false | _ => true end.

Lemma exec_store_inv m o m' :
  store_inv m -> mgr_inv m -> no_rollback o = true -> (m_nextID m + 2 < two64)%N ->
  exec_mgr m o = Some m' -> store_inv m'.
Proof.
  intros HS HI Hr Hn He. pose proof (exec_inv m o m' HI Hn He) as HI'.
  pose proof (exec_frame m o m' HI He) as F.
  destruct o; simpl in He, Hr; try done; simplify_eq.
  - by apply store_inv_Begin.
  - destruct (Commit_txns m t). by eapply store_inv_ends; [| |by apply Commit_ends| |].
  - destruct (Abort_txns m t). by eapply store_inv_ends; [| |by apply Abort_ends| |].
  - eapply store_inv_quiet; [done|done|apply quiet_MVCCRead|done].
  - eapply store_inv_quiet; [done|done|apply quiet_MVCCScan|done].
  - destruct (MVCCWrite _ _ _ _ _ _) as [[m1 r]|] eqn:E; [|done]. injection He as <-.
    by eapply store_inv_write.
  - destruct (m_objs m !! t); simplify_eq; [|done].
    eapply store_inv_quiet; [done|done|apply quiet_TwoPLRead|done].
  - destruct (m_objs m !! t) as [txn|]; simplify_eq; [|done].
    destruct (TwoPLWrite _ _ _ _ _ _) as [[m1 r]|] eqn:E; [|done]. injection He as <-.
    destruct (TwoPLWrite_store _ _ _ _ _ _ _ _ E) as (E1 & E2 & E3 & E4).
    apply (store_inv_step m); try done.
    + by rewrite (fr_next _ _ F).
    + rewrite E1. apply HS.
    + rewrite (fr_txns _ _ F). auto.
    + intros x txn' Hx _. by apply E4.
    + intros tb k x. rewrite (quiet_row m) by done. auto.
  - eapply store_inv_quiet; [done|done|apply (quiet_savepoint m t name)|done].
  - eapply store_inv_quiet; [done|done|apply (quiet_savepoint m t name)|done].
  - by apply store_inv_vacuum.
  - by apply store_inv_reset.
Qed.

Lemma mreach_store allowed m :
  (forall o, allowed o = true -> no_rollback o = true) -> mreach allowed m -> store_inv m.
Proof.
  intros Hal. induction 1 as [|m o m' Hr IH Ha Hn He]; [apply store_inv_boot|].
  eapply exec_store_inv; eauto. by eapply mreach_inv.
Qed.
End StoreInv.

(** ** Views across the steps of other transactions *)

Section Views.
Context {L W : Type} `{LockService L} `{WALWriter W}.
Implicit Types m : Mgr L W.

(** An active transaction with a fixed snapshot. *)
Definition reader m (t : N) (s : Snapshot) : Prop :=
  exists txn, m_objs m !! t = Some txn /\ x_Status txn = TxnActive
    /\ x_Isolation txn <> ReadCommitted /\ x_Snapshot txn = Some s.

Definition view m (t : N) (s : Snapshot) (table key : string) : option Values :=
  chain_view m t s (row_versions m table key).

Lemma MVCCRead_view m t s table key :
  reader m t s ->
  (MVCCRead m t table key).2
  = Ok (match view m t s table key with Some d => (d, true) | None => (None, false) end).
Proof.
  intros (txn & Ht & Ha & Hi & Hs). unfold MVCCRead. rewrite Ht, bool_decide_true by done. cbn [negb].
  unfold getSnapshot. rewrite bool_decide_false, Hs by done.
  unfold view, chain_view, row_versions, FindVisible.
  destruct (GetChain _ _ _) as [c|]; [|done]. by destruct (List.find _ _).
Qed.

Lemma other_unseen m t s u :
  mgr_inv m -> reader m t s -> u ∈ m_txns m -> u <> t -> unseen t s u.
Proof.
  intros HI (txn & Ht & Ha & _ & Hs) Hu Hne.
  assert (Hin : t ∈ m_txns m) by (apply (mi_active _ HI); eauto).
  destruct (mi_snap _ HI t txn s Hin Ht Hs) as [S1 S2 S3 S4].
  split_and!; [done| | |by apply S4].
  - intros ->. by destruct (mi_zero _ HI).
  - destruct (S4 u Hu Hne) as [Hc|Hc]; [by apply S3|lia].
Qed.

Lemma frame_reader m m' t s : frame m m' -> reader m t s -> reader m' t s.
Proof.
  intros F (txn & Ht & Ha & Hi & Hs). destruct (proj2 (fr_dom _ _ F t)) as [txn' Ht']; [by eexists|].
  destruct (fr_objs _ _ F _ _ _ Ht Ht') as [Hl Hsn]. unfold life in Hl.
  exists txn'. split_and!; try congruence. destruct Hsn as [?|[? _]]; congruence.
Qed.

Lemma finish_reader m t s u :
  u <> t -> reader m t s -> reader (finish_commit m u) t s /\ reader (finish_abort m u) t s.
Proof.
  intros Hne (txn & Ht & Ha & Hi & Hs).
  split; exists txn; simpl; rewrite lookup_alter_ne by done; split_and!; done.
Qed.

(** Ending another transaction: the sets change only in it, and its rows
    are undone or kept. *)
Lemma view_end m m' t s u table key :
  unseen t s u -> ends m m' u ->
  (forall x, x <> u -> (x ∈ m_committed m' <-> x ∈ m_committed m)) ->
  (forall x, x <> u -> (x ∈ m_aborted m' <-> x ∈ m_aborted m)) ->
  view m' t s table key = view m t s table key.
Proof.
  intros Hu E Hc Ha. unfold view. rewrite (chain_view_status t s u m m') by done.
  destruct (en_row _ _ _ E table key) as [-> | ->]; [done|]. by apply chain_view_undo.
Qed.

Lemma view_same m m' t s table key :
  m_MVCCStore m' = m_MVCCStore m -> m_committed m' = m_committed m -> m_aborted m' = m_aborted m ->
  view m' t s table key = view m t s table key.
Proof.
  intros E1 E2 E3. unfold view, chain_view. rewrite (quiet_row m) by done. f_equal.
  apply find_ext_data. intros v _. by apply IsVisible_sets.
Qed.

Lemma Commit_sets m u x :
  x <> u -> (x ∈ m_committed (Commit m u).1 <-> x ∈ m_committed m)
            /\ (x ∈ m_aborted (Commit m u).1 <-> x ∈ m_aborted m).
Proof.
  intros Hne. destruct (Commit m u) as [m' r] eqn:E.
  destruct (Commit_shape _ _ _ _ E) as [F|[(_ & (m1 & F1 & F2) & _)|(_ & F & _)]]; simpl.
  - by rewrite (fr_committed _ _ F), (fr_aborted _ _ F).
  - rewrite (fr_committed _ _ F2), (fr_aborted _ _ F2). simpl.
    rewrite (fr_committed _ _ F1), (fr_aborted _ _ F1). set_solver.
  - rewrite (fr_committed _ _ F), (fr_aborted _ _ F). simpl. set_solver.
Qed.

Lemma Abort_sets m u x :
  x <> u -> (x ∈ m_committed (Abort m u).1 <-> x ∈ m_committed m)
            /\ (x ∈ m_aborted (Abort m u).1 <-> x ∈ m_aborted m).
Proof.
  intros Hne. destruct (Abort m u) as [m' r] eqn:E.
  destruct (Abort_shape _ _ _ _ E) as [[-> _]|[F|(_ & F & _)]]; simpl; [done|..].
  - by rewrite (fr_committed _ _ F), (fr_aborted _ _ F).
  - rewrite (fr_committed _ _ F), (fr_aborted _ _ F). simpl. set_solver.
Qed.

Lemma Commit_idle m u : u ∉ m_txns m -> (Commit m u).1 = m.
Proof.
  intros Hu. unfold Commit, GetTxn. rewrite bool_decide_false by done. by repeat case_bool_decide.
Qed.

Lemma Abort_idle m u : u ∉ m_txns m -> (Abort m u).1 = m.
Proof.
  intros Hu. unfold Abort, GetTxn. rewrite bool_decide_false by done. by repeat case_bool_decide.
Qed.

Lemma Commit_reader m t s u : u <> t -> reader m t s -> reader (Commit m u).1 t s.
Proof.
  intros Hne HR. destruct (Commit m u) as [m' r] eqn:E.
  destruct (Commit_shape _ _ _ _ E) as [F|[(_ & (m1 & F1 & F2) & _)|(_ & F & _)]]; simpl.
  - by eapply frame_reader.
  - apply (frame_reader _ _ _ _ F2), finish_reader; [done|]. by eapply frame_reader.
  - by apply (frame_reader _ _ _ _ F), finish_reader.
Qed.

Lemma Abort_reader m t s u : u <> t -> reader m t s -> reader (Abort m u).1 t s.
Proof.
  intros Hne HR. destruct (Abort m u) as [m' r] eqn:E.
  destruct (Abort_shape _ _ _ _ E) as [[-> _]|[F|(_ & F & _)]]; simpl; [done|..].
  - by eapply frame_reader.
  - by apply (frame_reader _ _ _ _ F), finish_reader.
Qed.

Lemma Begin_reader m t s p iso :
  (t <= m_nextID m)%N -> (m_nextID m + 2 < two64)%N -> reader m t s -> reader (Begin m p iso).1 t s.
Proof.
  intros Hb Hn HR. unfold Begin. destruct (at_capacity m); [done|]. unfold nextTxnID.
  rewrite u64_add_small by lia. cbn [fst]. eapply frame_reader; [apply frame_log_begin|].
  destruct HR as (txn & Ht & ?). exists txn. split; [|done]. simpl. by rewrite lookup_insert_ne by lia.
Qed.

Lemma Begin_view m p iso :
  m_MVCCStore (Begin m p iso).1 = m_MVCCStore m /\ m_committed (Begin m p iso).1 = m_committed m
  /\ m_aborted (Begin m p iso).1 = m_aborted m.
Proof.
  unfold Begin. destruct (at_capacity m); [done|]. simpl. set (m1 := register _ _ _ _).
  pose proof (quiet_log_begin m1 (u64_add (m_nextID m) 1)) as [E1 E2 E3 _]. by rewrite E1, E2, E3.
Qed.

(** The version an update or delete of [u] would supersede is live, or was
    superseded by [u] itself. *)
Definition clean_write m (o : MgrOp) : bool :=
  match o with
  | OpWrite u table key _ (UndoUpdate | UndoDelete) =>
      match m_objs m !! u with
      | None => true
      | Some txn =>
          match List.find (fun x => IsVisible x u (current_snapshot m txn) m) (row_versions m table key) with
          | None => true
          | Some w => (ver_XMax w =? 0)%N || (ver_XMax w =? u)%N
          end
      end
  | _ => true
  end.

(** Steps of the other transactions, and of [t] itself except its writes and
    its end. *)
Definition spares (t : N) (o : MgrOp) : bool :=
  match o with
  | OpWrite u _ _ _ _ | OpCommit u | OpAbort u => negb (u =? t)%N
  | OpVacuum | OpReset | OpRollback _ _ => false
  | _ => true
  end.

(** A run of such steps in which every write is clean. *)
Fixpoint interleave (t : N) m (ops : list MgrOp) : option (Mgr L W) :=
  match ops with
  | [] => Some m
  | o :: ops =>
      if spares t o && clean_write m o && (m_nextID m + 2 <? two64)%N
      then exec_mgr m o ≫= fun m => interleave t m ops else None
  end.

Lemma view_supersede m t s u p vs :
  unseen t s u ->
  match List.find p vs with
  | None => True
  | Some w => ver_XMax w = 0%N \/ ver_XMax w = u
  end ->
  match supersede p u vs with
  | None => True
  | Some (_, vs') => chain_view m t s vs' = chain_view m t s vs
  end.
Proof.
  intros Hu Hw. pose proof (supersede_find p u vs) as Hf.
  destruct (supersede p u vs) as [[w vs']|] eqn:Es; [|done]. rewrite Hf in Hw.
  by eapply chain_view_supersede.
Qed.

Lemma write_view m t s u table key v op m' r table' key' :
  mgr_inv m -> store_inv m -> reader m t s -> u <> t ->
  clean_write m (OpWrite u table key v op) = true ->
  MVCCWrite m u table key v op = Some (m', r) ->
  view m' t s table' key' = view m t s table' key'.
Proof.
  intros HI HS HR Hne Hcl Hw. destruct (decide (u ∈ m_txns m)) as [Hin|Hin].
  2: { apply MVCCWrite_inactive in Hw as [-> _]; [done|]. intros txn Ht Ha. apply Hin, (mi_active _ HI). eauto. }
  pose proof (other_unseen _ _ _ _ HI HR Hin Hne) as Hun.
  pose proof Hin as (txn & Ht & Ha)%(mi_active _ HI).
  destruct (MVCCWrite_effect _ _ _ _ _ _ _ _ _ (si_live _ HS) Ht Ha Hw) as [(W1 & W2 & W3 & W4 & W5) Hrow].
  assert (Hst : forall vs, chain_view m' t s vs = chain_view m t s vs).
  { intros vs. unfold chain_view. f_equal. apply find_ext_data. intros x _. by apply IsVisible_sets. }
  unfold view. rewrite Hst. destruct (decide ((table', key') = (table, key))) as [[= -> ->]|Hd].
  2: { unfold row_versions. by rewrite W5. }
  destruct (checkWriteConflictLocked _ _ _ _); [by destruct Hrow as [_ ->]|].
  destruct Hrow as (lsn & Hrow). simpl in Hcl. rewrite Ht in Hcl.
  destruct op; cbn [write_versions] in Hrow.
  - destruct Hrow as (_ & -> & _). by apply (chain_view_prepend t s u).
  - pose proof (view_supersede m t s u (fun x => IsVisible x u (current_snapshot m txn) m)
      (row_versions m table key) Hun) as Hsup.
    destruct (supersede _ _ _) as [[w vs']|]; cbn in Hrow; [|by destruct Hrow as [_ ->]].
    destruct Hrow as (_ & -> & _). rewrite (chain_view_prepend t s u) by done. apply Hsup.
    destruct (List.find _ _) as [x|]; [|done]. apply orb_true_iff in Hcl as [?%N.eqb_eq|?%N.eqb_eq]; auto.
  - pose proof (view_supersede m t s u (fun x => IsVisible x u (current_snapshot m txn) m)
      (row_versions m table key) Hun) as Hsup.
    destruct (supersede _ _ _) as [[w vs']|]; cbn in Hrow; [|by destruct Hrow as [_ ->]].
    destruct Hrow as (_ & -> & _). apply Hsup.
    destruct (List.find _ _) as [x|]; [|done]. apply orb_true_iff in Hcl as [?%N.eqb_eq|?%N.eqb_eq]; auto.
Qed.

Lemma step_view m t s o m' :
  mgr_inv m -> store_inv m -> reader m t s -> spares t o = true -> clean_write m o = true ->
  (m_nextID m + 2 < two64)%N -> exec_mgr m o = Some m' ->
  reader m' t s /\ forall table key, view m' t s table key = view m t s table key.
Proof.
  intros HI HS HR Hsp Hcl Hn He. pose proof (exec_frame m o m' HI He) as F.
  assert (HinT : t ∈ m_txns m) by (destruct HR as (txn & ? & ? & _); apply (mi_active _ HI); eauto).
  assert (Hq : quiet_step m m' -> frame m m' ->
    reader m' t s /\ forall table key, view m' t s table key = view m t s table key).
  { intros Q F'. split; [by eapply frame_reader|]. intros. apply view_same; apply Q. }
  destruct o; simpl in He, Hsp; try done; simplify_eq.
  - split.
    + apply Begin_reader; [|done|done]. apply (mi_bound _ HI). set_solver.
    + intros. apply view_same; apply Begin_view.
  - apply negb_true_iff, N.eqb_neq in Hsp. split; [by apply Commit_reader|]. intros table key.
    destruct (decide (t0 ∈ m_txns m)) as [Hin|Hin]; [|by rewrite Commit_idle].
    eapply view_end; [by eapply other_unseen|by apply Commit_ends|..]; intros x Hx; by apply Commit_sets.
  - apply negb_true_iff, N.eqb_neq in Hsp. split; [by apply Abort_reader|]. intros table key.
    destruct (decide (t0 ∈ m_txns m)) as [Hin|Hin]; [|by rewrite Abort_idle].
    eapply view_end; [by eapply other_unseen|by apply Abort_ends|..]; intros x Hx; by apply Abort_sets.
  - apply Hq; [apply quiet_MVCCRead|done].
  - apply Hq; [apply quiet_MVCCScan|done].
  - apply negb_true_iff, N.eqb_neq in Hsp.
    destruct (MVCCWrite _ _ _ _ _ _) as [[m1 r]|] eqn:E; [|done]. injection He as <-.
    split; [by eapply frame_reader|]. intros. by eapply write_view.
  - destruct (m_objs m !! t0); simplify_eq; [|done]. apply Hq; [apply quiet_TwoPLRead|done].
  - destruct (m_objs m !! t0) as [txn|]; simplify_eq; [|done].
    destruct (TwoPLWrite _ _ _ _ _ _) as [[m1 r]|] eqn:E; [|done]. injection He as <-.
    destruct (TwoPLWrite_store _ _ _ _ _ _ _ _ E) as (E1 & E2 & E3 & E4).
    split; [by eapply frame_reader|]. intros. by apply view_same.
  - apply Hq; [apply (quiet_savepoint m t0 name)|done].
  - apply Hq; [apply (quiet_savepoint m t0 name)|done].
Qed.

Lemma interleave_view ops m m' t s :
  interleave t m ops = Some m' -> mgr_inv m -> store_inv m -> reader m t s ->
  reader m' t s /\ forall table key, view m' t s table key = view m t s table key.
Proof.
  revert m. induction ops as [|o ops IH]; intros m He HI HS HR; simpl in He; [by simplify_eq|].
  destruct (spares t o) eqn:Hsp; [|done]. destruct (clean_write m o) eqn:Hcl; [|done]. simpl in He.
  destruct (N.ltb_spec (m_nextID m + 2) two64) as [Hn|]; [|done].
  destruct (exec_mgr m o) as [m1|] eqn:Ex; [|done]. simpl in He.
  destruct (step_view m t s o m1) as [HR1 Hv1]; try done.
  destruct (IH m1 He) as [HR2 Hv2]; [by eapply exec_inv| |done|].
  { eapply exec_store_inv; try done. by destruct o. }
  split; [done|]. intros. by rewrite Hv2, Hv1.
Qed.

(** The fixed snapshot of an active transaction. *)
Definition snapshot_of m (t : N) : option Snapshot :=
  match m_objs m !! t with
  | None => None
  | Some txn =>
      if bool_decide (x_Status txn = TxnActive) && negb (bool_decide (x_Isolation txn = ReadCommitted))
      then x_Snapshot txn else None
  end.

Lemma snapshot_of_reader m t s : snapshot_of m t = Some s -> reader m t s.
Proof.
  unfold snapshot_of, reader. destruct (m_objs m !! t) as [txn|]; [|done].
  repeat case_bool_decide; simpl; try done. intros Hs. by exists txn.
Qed.

(** ** Vacuum *)

Lemma oldest_active m t :
  mgr_inv m -> t ∈ m_txns m -> OldestActiveTxnID m ∈ m_txns m /\ OldestActiveTxnID m <> 0%N.
Proof.
  intros HI Ht. unfold OldestActiveTxnID. destruct (min_id (m_txns m)) as [o|] eqn:E; simpl.
  - apply min_id_Some in E as [Ho _]. split; [done|]. intros ->. by destruct (mi_zero _ HI).
  - apply min_id_None in E. set_solver.
Qed.

Lemma vacuum_sets m t :
  mgr_inv m -> t ∈ m_txns m -> size (m_committed m) <= MaxHistoryRetained ->
  (forall x, x ∈ m_committed (Vacuum_RunOnce m) <-> x ∈ m_committed m /\ (OldestActiveTxnID m <= x)%N)
  /\ (forall x, x ∈ m_aborted (Vacuum_RunOnce m) <-> x ∈ m_aborted m /\ (OldestActiveTxnID m <= x)%N).
Proof.
  intros HI Ht Hsz. destruct (oldest_active m t HI Ht) as [_ Ho].
  unfold Vacuum_RunOnce, pruneVersions, PruneHistory. cbn [fst].
  set (st := ReapEmpty _). change (OldestActiveTxnID (with_MVCCStore m st)) with (OldestActiveTxnID m).
  rewrite (proj2 (N.eqb_neq _ _) Ho). cbn -[MaxHistoryRetained size].
  set (f := filter (fun id : N => (OldestActiveTxnID m <= id)%N)).
  assert (Hle : size (f (m_committed m)) <= size (m_committed m)).
  { apply subseteq_size. intros x. unfold f. by intros [_ ?]%elem_of_filter. }
  replace (size (f (m_committed m)) - MaxHistoryRetained) with 0 by lia.
  rewrite take_0. split; intros x; unfold f; rewrite ?elem_of_difference, elem_of_filter.
  - rewrite elem_of_list_to_set. split; [tauto|]. intros [? ?]. split; [done|]. apply not_elem_of_nil.
  - tauto.
Qed.

Lemma vacuum_view m t s table key :
  mgr_inv m -> reader m t s -> (OldestActiveTxnID m <= s_Xmin s)%N ->
  size (m_committed m) <= MaxHistoryRetained ->
  (forall x, x ∈ m_aborted m -> ~ mentions x (row_versions m table key)) ->
  view (Vacuum_RunOnce m) t s table key = view m t s table key.
Proof.
  intros HI (txn & Ht & Hac & _ & Hs) Ho Hsz Hab.
  assert (Hin : t ∈ m_txns m) by (apply (mi_active _ HI); eauto).
  destruct (oldest_active m t HI Hin) as [Hom _].
  destruct (mi_snap _ HI t txn s Hin Ht Hs) as [S1 S2 S3 S4].
  destruct (vacuum_sets m t HI Hin Hsz) as [Vc Va].
  assert (Hvis : forall v, v ∈ row_versions m table key ->
    IsVisible v t s (Vacuum_RunOnce m) = IsVisible v t s m).
  { intros v Hv.
    assert (Hna : forall x, ver_XMin v = x \/ ver_XMax v = x ->
      bool_decide (x ∈ m_aborted (Vacuum_RunOnce m)) = bool_decide (x ∈ m_aborted m)).
    { intros x Hx. assert (Hxa : x ∉ m_aborted m).
      { intros Hx2. apply (Hab x Hx2), Exists_exists. eauto. }
      rewrite !bool_decide_false; [done|done|]. by intros [? _]%Va. }
    unfold IsVisible. cbn [IsCommitted IsAborted Mgr_status ContainsID GetXmin GetXmax Snapshot_view].
    rewrite !Hna by auto.
    assert (E2 : (s_Xmin s <=? ver_XMin v)%N && (ver_XMin v <? s_Xmax s)%N
        && bool_decide (ver_XMin v ∈ m_committed (Vacuum_RunOnce m)) && negb (Contains s (ver_XMin v))
      = (s_Xmin s <=? ver_XMin v)%N && (ver_XMin v <? s_Xmax s)%N
        && bool_decide (ver_XMin v ∈ m_committed m) && negb (Contains s (ver_XMin v))).
    { destruct (N.leb_spec (s_Xmin s) (ver_XMin v)); [|done].
      rewrite (bool_decide_ext (ver_XMin v ∈ m_committed (Vacuum_RunOnce m)) (ver_XMin v ∈ m_committed m)); [done|].
      rewrite Vc. split; [tauto|]. intros ?. split; [done|lia]. }
    by rewrite E2. }
  unfold view, chain_view. rewrite vacuum_row. f_equal.
  rewrite (find_ext_data _ (fun v => IsVisible v t s m))
    by (intros v [Hv _]%list_elem_of_In%filter_In; apply Hvis; by apply list_elem_of_In).
  apply find_filter_invisible. intros v Hv Hp. unfold vacuum_pred in Hp.
  apply andb_true_iff in Hp as [[Hp1 Hp2]%andb_true_iff Hp3]. simpl in Hp3.
  apply negb_true_iff, N.eqb_neq in Hp1. apply N.leb_le in Hp2. apply bool_decide_eq_true in Hp3.
  assert (Hne : ver_XMax v <> OldestActiveTxnID m).
  { intros E. rewrite E in Hp3. by apply (mi_tc _ HI (OldestActiveTxnID m)). }
  unfold IsVisible. match goal with |- (if ?b then _ else _) = _ => destruct b end; [done|].
  rewrite (proj2 (N.eqb_neq _ _) Hp1). destruct (_ =? t)%N; [done|]. simpl.
  destruct (Contains s (ver_XMax v)) eqn:Ec; [apply S3 in Ec; lia|].
  rewrite (proj2 (N.leb_gt _ _)) by lia.
  rewrite bool_decide_false; [done|]. intros Hx. by apply (mi_ca _ HI (ver_XMax v)).
Qed.
End Views.

(** ** Properties *)


(** What a write does: in a reachable state a write by an active
    transaction fails with the identifier of an active creator of a version
    of the row, or of a committed one that was active in its snapshot; it
    fails with row-not-found when an update or delete sees no version; and
    otherwise it marks the newest visible version as superseded by the
    writer (update, delete), puts the new version in front (insert, update),
    and leaves every other row alone. *)
Theorem MVCCWrite_outcome {L W} `{LockService L} `{WALWriter W} (m m' : Mgr L W) t txn table key v op r :
  mreach no_rollback m -> m_objs m !! t = Some txn -> x_Status txn = TxnActive ->
  MVCCWrite m t table key v op = Some (m', r) ->
  let snap := current_snapshot m txn in
  let vs := row_versions m table key in
  (forall table' key', (table', key') <> (table, key) ->
     row_versions m' table' key' = row_versions m table' key')
  /\ match checkWriteConflictLocked t vs snap m with
     | Some w => r = Err (NewWriteConflictError w) /\ row_versions m' table key = vs
         /\ (w ∈ m_txns m \/ (Contains snap w = true /\ w ∈ m_committed m))
     | None => exists lsn,
         match write_versions (fun x => IsVisible x t snap m) t op v lsn vs with
         | None => r = Err NewRowNotFoundError /\ row_versions m' table key = vs
         | Some vs' => r = Ok tt /\ row_versions m' table key = vs'
         end
     end.
Proof.
  intros Hr Ht Ha Hw. assert (HS : store_inv m) by (by eapply mreach_store).
  destruct (MVCCWrite_effect _ _ _ _ _ _ _ _ _ (si_live _ HS) Ht Ha Hw) as [(_ & _ & _ & _ & W5) Hrow].
  split; [intros; unfold row_versions; by rewrite W5|].
  destruct (checkWriteConflictLocked _ _ _ _) as [w|] eqn:Ec.
  - destruct Hrow as [-> ->]. split_and!; [done..|]. revert Ec. generalize (row_versions m table key).
    intros vs. induction vs as [|x vs IH]; simpl; [done|]. destruct (_ =? t)%N; [by apply IH|].
    case_bool_decide; [intros [= <-]; by left|].
    destruct (Contains _ (ver_XMin x)) eqn:E1; simpl; [|by apply IH].
    case_bool_decide; [intros [= <-]; by right|by apply IH].
  - destruct Hrow as (lsn & Hrow). exists lsn. destruct (write_versions _ _ _ _ _ _); tauto.
Qed.

(** C35. In a state reached without rollbacks to savepoints, a transaction reads
    its own insert or update at once, at every isolation level. *)
Theorem read_own_write {L W} `{LockService L} `{WALWriter W} (m m' : Mgr L W) t table key v op :
  mreach no_rollback m -> op <> UndoDelete ->
  MVCCWrite m t table key v op = Some (m', Ok tt) ->
  (MVCCRead m' t table key).2 = Ok (v, true).
Proof.
  intros Hr Hop Hw. assert (HS : store_inv m) by (by eapply mreach_store).
  assert (HI : mgr_inv m) by (by eapply mreach_inv).
  destruct (decide (t ∈ m_txns m)) as [Hin|Hin].
  2: { apply MVCCWrite_inactive in Hw as [_ ?]; [done|]. intros txn Ht Ha. apply Hin, (mi_active _ HI). eauto. }
  pose proof Hin as (txn & Ht & Ha)%(mi_active _ HI).
  pose proof (frame_MVCCWrite _ _ _ _ _ _ _ _ HI Hw) as F.
  destruct (MVCCWrite_effect _ _ _ _ _ _ _ _ _ (si_live _ HS) Ht Ha Hw) as [_ Hrow].
  destruct (checkWriteConflictLocked _ _ _ _); [by destruct Hrow|]. destruct Hrow as (lsn & Hrow).
  assert (Hhd : exists vs', row_versions m' table key = mkVersion t 0 v lsn :: vs').
  { destruct op; cbn [write_versions] in Hrow; [..|done].
    - destruct Hrow as (_ & -> & _). eauto.
    - destruct (supersede _ _ _); cbn in Hrow; [|by destruct Hrow].
      destruct Hrow as (_ & -> & _). eauto. }
  destruct Hhd as (vs' & Hhd). destruct (proj2 (fr_dom _ _ F t)) as [txn' Ht']; [by eexists|].
  destruct (fr_objs _ _ F _ _ _ Ht Ht') as [Hl _]. unfold life in Hl.
  unfold MVCCRead. rewrite Ht', bool_decide_true by congruence. cbn [negb].
  pose proof (quiet_getSnapshot m' t txn') as Q. destruct (getSnapshot m' t txn') as [m1 s].
  cbn [fst] in Q. rewrite (qs_store _ _ Q). unfold row_versions in Hhd.
  destruct (GetChain _ _ _) as [c|]; [|done]. unfold FindVisible. rewrite Hhd. simpl.
  unfold IsVisible at 1. simpl. by rewrite N.eqb_refl.
Qed.



(** ** The schedules in which isolation fails *)

Definition value_of (r : result TxnError (Values * bool)) : option Z :=
  match r with
  | Ok (Some [v], true) => Some (v_Int v)
  | _ => None
  end.

(** The row "k" of table "t" (0 at the start) as transaction [t] reads it
    after the operations. *)
Definition reads (ops : list MgrOp) (t : N) : option Z := value_of (read_k (demo ops) t).

(** The answer of the last operation, a write of [t]. *)
Definition write_ok (ops : list MgrOp) (o : MgrOp) : bool :=
  match o with
  | OpWrite t table key v op =>
      match MVCCWrite (demo ops) t table key v op with
      | Some (_, Ok _) => true
      | _ => false
      end
  | _ => false
  end.

(** The write-conflict check misses three kinds of concurrent writer, so
    first-updater-wins fails: a transaction that began after the writer's
    snapshot and committed (its update is lost); a concurrent deleter (the
    deleted row comes back); and, as a consequence, a read of a third
    transaction that changes while its snapshot is fixed. *)
Theorem write_conflicts_missed :
  (let before := [begin_rr; begin_rr; upd 2 7; OpCommit 2] in
   write_ok before (upd 1 9) = true
   /\ reads (before ++ [upd 1 9; OpCommit 1; begin_rr]) 3 = Some 9%Z)
  /\ (let before := [begin_rr; begin_rr; del 2] in
      write_ok before (upd 1 9) = true
      /\ reads (before ++ [upd 1 9; OpCommit 2; OpCommit 1; begin_rr]) 3 = Some 9%Z)
  /\ (let before := [begin_rr; begin_rr; del 2; OpCommit 2; begin_rr] in
      reads before 3 = None /\ reads (before ++ [upd 1 9]) 3 = Some 0%Z).
Proof. vm_compute. auto 10. Qed.

(** Two ways a vacuum pass changes what a running transaction reads: its
    horizon is the oldest active identifier and not the oldest snapshot's
    lower bound, so a version deleted after the snapshot was taken is pruned
    while the snapshot still shows it; and the history it prunes includes
    committed transactions above a running snapshot's lower bound, whose
    rows then disappear. *)
Theorem vacuum_changes_reads :
  (let before := [begin_rr; begin_rr; del 1; OpCommit 1] in
   reads before 2 = Some 0%Z /\ reads (before ++ [OpVacuum]) 2 = None)
  /\ (let before := [begin_rr; begin_rr; begin_rr; upd 2 5; OpCommit 2; begin_rr; OpCommit 1;
                     OpCommit 3] in
      reads before 4 = Some 5%Z /\ reads (before ++ [OpVacuum]) 4 = None).
Proof. vm_compute. auto 10. Qed.

(** Rolling an MVCC transaction back to a savepoint discards the undo
    entries but not the versions: the transaction still reads the write it
    rolled back, committing publishes it, and an abort no longer removes it
    from the row. *)
Theorem mvcc_savepoint_rollback_ineffective :
  let before := [begin_rr; OpSavepoint 1 "s"; upd 1 5; OpRollback 1 "s"] in
  reads before 1 = Some 5%Z
  /\ reads (before ++ [OpCommit 1; begin_rr]) 2 = Some 5%Z
  /\ (exists v, v ∈ row_versions (demo (before ++ [OpAbort 1])) "t" "k" /\ ver_XMin v = 1%N).
Proof.
  split; [vm_compute; reflexivity|]. split; [vm_compute; reflexivity|].
  exists (mkVersion 1 0 (Some [IntVal 5]) 0). split; [vm_compute; left|reflexivity].
Qed.

(** ** Witnesses *)

Lemma demo_run_reach ops allowed :
  forallb allowed ops && bool_decide (is_Some (run_mgr demo_boot ops)) = true ->
  mreach allowed (demo ops).
Proof. intros [Ha Hb%bool_decide_eq_true]%andb_true_iff. by apply demo_reach_gen. Qed.


Lemma MVCCWrite_outcome_witness :
  exists m', MVCCWrite (demo [begin_rr; upd 1 7; begin_rr]) 2 "t" "k" (Some [IntVal 9]) UndoUpdate
             = Some (m', Err (NewWriteConflictError 1))
    /\ row_versions m' "t" "k" = row_versions (demo [begin_rr; upd 1 7; begin_rr]) "t" "k".
Proof.
  set (m := demo [begin_rr; upd 1 7; begin_rr]).
  destruct (MVCCWrite m 2 "t" "k" (Some [IntVal 9]) UndoUpdate) as [[m' r]|] eqn:E; [|by vm_compute in E].
  destruct (m_objs m !! 2%N) as [txn|] eqn:Ht; [|by vm_compute in Ht].
  assert (Hs : current_snapshot m txn = mkSnapshot 1 3 [1%N] /\ x_Status txn = TxnActive).
  { vm_compute in Ht. injection Ht as <-. vm_compute. done. }
  destruct Hs as [Hs Ha].
  pose proof (MVCCWrite_outcome m m' 2 txn "t" "k" (Some [IntVal 9]) UndoUpdate r) as Hw.
  specialize (Hw ltac:(apply demo_run_reach; vm_compute; reflexivity) Ht Ha E). cbv zeta in Hw.
  rewrite Hs in Hw. destruct Hw as [_ Hw].
  assert (Hc : checkWriteConflictLocked 2 (row_versions m "t" "k") (mkSnapshot 1 3 [1%N]) m = Some 1%N)
    by (vm_compute; reflexivity).
  rewrite Hc in Hw. destruct Hw as (-> & Hrow & _). exists m'. split; [reflexivity|exact Hrow].
Defined.

Lemma read_own_write_witness :
  exists m', MVCCWrite (demo [begin_rr]) 1 "t" "k" (Some [IntVal 7]) UndoUpdate = Some (m', Ok tt)
    /\ read_k m' 1 = Ok (Some [IntVal 7], true).
Proof.
  destruct (MVCCWrite (demo [begin_rr]) 1 "t" "k" (Some [IntVal 7]) UndoUpdate) as [[m' r]|] eqn:E;
    [|by vm_compute in E].
  assert (r = Ok tt) as -> by (vm_compute in E; by injection E as _ <-).
  exists m'. split; [reflexivity|]. unfold read_k.
  refine (read_own_write (demo [begin_rr]) m' 1 "t" "k" (Some [IntVal 7]) UndoUpdate _ _ E);
    [|discriminate].
  apply demo_run_reach. vm_compute. reflexivity.
Defined.


