(* ===== verification/Startup.v ===== *)
(** * Server start-up ([cmd/server/main.go]): recovery meets the manager

    The start of the server composes the log, the catalog, the version store
    and the transaction manager: recovery of the log, redo on the catalog,
    the outcomes of old transactions marked, the version store seeded from
    the catalog. What a transaction of the new server reads is what the
    committed transactions of the log wrote ([restart_reads_committed]); the
    runs at the end show two ways in which the restart goes wrong. *)

From Stdlib Require Import ZArith NArith Lia Strings.Byte String.
From stdpp Require Import base tactics numbers list gmap strings sorting.
From S2P Require Import Prelude Types Lock Acquire Storage Mvcc WalRecord Wal Ssi Txn TxnInv TxnMvcc TxnIso.

Section Start.
Context {L W : Type} `{LockService L} `{WALWriter W}.
Implicit Types m : Mgr L W.

(** "Apply WAL recovery results to manager state": the applier writes to the
    catalog that the manager has. *)
Definition apply_recovery (walRec : RecoveryResult) m : Mgr L W :=
  let m := with_Catalog m (ApplyRedoOps (rr_RedoOps walRec) (m_Catalog m)) in
  let m := fold_left MarkCommitted (elements (rr_Committed walRec)) m in
  fold_left MarkAborted (elements (rr_Aborted walRec)) m.

(** [walRec] is [None] without a log. *)
Definition server_start (locks : L) (catalog : Catalog) (maxActive : nat) (w : option W) (walRec : option RecoveryResult) : Mgr L W :=
  let mgr := NewManager locks catalog maxActive w in
  let mgr := match walRec with Some walRec => apply_recovery walRec mgr | None => mgr end in
  MarkCommitted (fold_left (reseed_table 0) (List (m_Catalog mgr)) mgr) 0.

(** Without a log it is the start of [TxnInv]. *)
Lemma server_start_boot locks c n w : server_start locks c n w None = boot locks c n w.
Proof. done. Qed.

(** ** Redo, row by row *)

(** What one redone write makes of its row. *)
Definition row_after (rec : LogRecord) (cur : option Values) : option Values :=
  if (lr_Op rec =? 0)%N || (lr_Op rec =? 1)%N then
    match DecodeValues (lr_After rec) with Ok vals => Some (Some vals) | Err _ => cur end
  else if (lr_Op rec =? 2)%N then None
  else cur.

Definition write_to (table key : string) (rec : LogRecord) : bool := String.eqb (lr_Table rec) table && String.eqb (lr_Key rec) key.

(** The row after the committed writes to it, in the order of the log. *)
Definition committed_row (rs : list LogRecord) (table key : string) (cur : option Values) : option Values :=
  fold_left (fun cur rec => row_after rec cur)
    (List.filter (fun rec => (lr_Type rec =? WalRecord.RecordWrite)%N && committed_in rs (lr_TxnID rec) && write_to table key rec) rs) cur.

Lemma apply_redo_row (c : Catalog) rec table key :
  is_Some (Lookup c table) ->
  catalog_row (apply_redo c (redo_of rec)) table key
  = if write_to table key rec then row_after rec (catalog_row c table key) else catalog_row c table key.
Proof.
  intros [tb Htb]. unfold write_to. destruct (String.eqb_spec (lr_Table rec) table) as [Ht|Ht]; cbn [andb].
  2: { apply apply_redo_other. by intros [? _]. }
  destruct (String.eqb_spec (lr_Key rec) key) as [Hk|Hk]; [|apply apply_redo_other; by intros [_ ?]].
  unfold apply_redo, row_after, SetRow, ApplierDeleteRow, walStorageApplier, redo_of.
  cbn [ro_Op ro_Table ro_Key ro_After]. rewrite Ht, Htb, Hk. destruct (_ || _).
  - destruct (DecodeValues _); [|done]. unfold catalog_row, Lookup. rewrite lookup_insert_eq. cbn. apply lookup_insert_eq.
  - destruct (lr_Op rec =? 2)%N; [|done]. unfold catalog_row, Lookup. rewrite lookup_insert_eq. cbn [mbind option_bind].
    rewrite t_rows_DeleteRow. apply lookup_delete_eq.
Qed.

Lemma redo_rows (rs : list LogRecord) (c : Catalog) table key :
  is_Some (Lookup c table) ->
  catalog_row (ApplyRedoOps (redo_of <$> rs) c) table key
  = fold_left (fun cur rec => row_after rec cur) (List.filter (write_to table key) rs) (catalog_row c table key).
Proof.
  unfold ApplyRedoOps. revert c. induction rs as [|rec rs IH]; intros c Hc; [done|]. cbn [fmap list_fmap fold_left List.filter].
  rewrite IH by (by apply apply_redo_dom). rewrite apply_redo_row by done. by destruct (write_to table key rec).
Qed.

Lemma filter_andb {A} (f g : A -> bool) l : List.filter (fun x => f x && g x) l = List.filter g (List.filter f l).
Proof.
  induction l as [|x l IH]; [done|]. cbn. destruct (f x); cbn; [|done]. destruct (g x); by rewrite IH.
Qed.

(** ** The version store seeded *)

Lemma seed_rows name id rows st table key :
  store_live st -> NoDup (row_Key <$> rows) ->
  store_row (SeedMVCCStore st name rows id) table key
  = match (if String.eqb name table then List.find (fun r => String.eqb (row_Key r) key) rows else None) with
    | Some r => mkVersion id 0 (row_Values r) 0 :: store_row st table key
    | None => store_row st table key
    end.
Proof.
  unfold SeedMVCCStore. revert st. induction rows as [|row rows IH]; intros st Hl Hnd; cbn [fold_left List.find]; [by destruct (String.eqb name table)|].
  cbn [fmap list_fmap] in Hnd. apply NoDup_cons in Hnd as [Hr Hnd].
  unfold seed_row at 2. destruct (GetOrCreateChain st name (row_Key row)) as [st1 c] eqn:Eg.
  destruct (GetOrCreateChain_spec _ _ _ _ _ Hl Eg) as (Hl1 & Hc & Hct & Hd & Ho).
  assert (Hrow : store_row (set_chain st1 name (row_Key row) (Prepend c (mkVersion id 0 (row_Values row) 0))) table key
    = if decide (name = table /\ row_Key row = key) then mkVersion id 0 (row_Values row) 0 :: store_row st table key else store_row st table key).
  { unfold store_row. rewrite GetChain_set. case_decide as He.
    - destruct He as [<- <-]. cbn. rewrite Hd. by destruct (GetChain st name (row_Key row)).
    - rewrite Ho; [done|]. intros [= -> ->]. by apply He. }
  rewrite IH; [|by apply set_chain_live|done]. rewrite Hrow. destruct (String.eqb_spec name table) as [->|Hn].
  2: { rewrite decide_False; [done|]. by intros [? _]. }
  destruct (String.eqb_spec (row_Key row) key) as [<-|Hk].
  - rewrite decide_True by done. destruct (List.find _ rows) as [r|] eqn:Hf; [|done].
    apply find_some in Hf as [Hin He]. apply String.eqb_eq in He. exfalso. apply Hr. rewrite <-He.
    apply list_elem_of_fmap_2. by apply list_elem_of_In.
  - rewrite decide_False; [done|]. by intros [_ ?].
Qed.

Lemma scan_rows (tbl : Table) : Scan tbl None = (fun '(k, v) => mkRow k v) <$> map_to_list (t_rows tbl).
Proof. unfold Scan. induction (_ <$> _) as [|r l IH]; [done|]. cbn. by rewrite IH. Qed.

Lemma scan_keys_NoDup (tbl : Table) : NoDup (row_Key <$> Scan tbl None).
Proof.
  rewrite scan_rows, <-list_fmap_compose. replace (_ <$> _) with (map_to_list (t_rows tbl)).*1; [apply NoDup_fst_map_to_list|].
  apply list_fmap_ext. by intros _ [k v] _.
Qed.

Lemma scan_find (tbl : Table) key :
  List.find (fun r => String.eqb (row_Key r) key) (Scan tbl None) = mkRow key <$> t_rows tbl !! key.
Proof.
  destruct (List.find _ _) as [r|] eqn:Hf.
  - apply find_some in Hf as [Hin He]. apply String.eqb_eq in He. apply list_elem_of_In in Hin. rewrite scan_rows in Hin.
    apply list_elem_of_fmap in Hin as ([k v] & -> & Hin). apply elem_of_map_to_list in Hin. cbn in He. subst k. by rewrite Hin.
  - destruct (t_rows tbl !! key) as [v|] eqn:Hv; [|done]. exfalso.
    assert (Hin : In (mkRow key v) (Scan tbl None)).
    { apply list_elem_of_In. rewrite scan_rows. apply list_elem_of_fmap. exists (key, v). split; [done|]. by apply elem_of_map_to_list. }
    apply (find_none _ _ Hf) in Hin. cbn in Hin. by rewrite String.eqb_refl in Hin.
Qed.

Lemma reseed_rows id names m table key :
  store_live (m_MVCCStore m) -> NoDup names ->
  row_versions (fold_left (reseed_table id) names m) table key
  = (if bool_decide (table ∈ names) then match catalog_row (m_Catalog m) table key with Some v => [mkVersion id 0 v 0] | None => [] end else [])
    ++ row_versions m table key.
Proof.
  revert m. induction names as [|n names IH]; intros m Hl Hnd; cbn [fold_left]; [done|]. apply NoDup_cons in Hnd as [Hn Hnd].
  unfold reseed_table at 2. unfold catalog_row. destruct (Lookup (m_Catalog m) n) as [tbl|] eqn:Ht.
  - rewrite IH; [|by apply seed_spec|done]. cbn [m_Catalog with_MVCCStore].
    change (row_versions (with_MVCCStore m ?s) table key) with (store_row s table key).
    change (row_versions m table key) with (store_row (m_MVCCStore m) table key).
    rewrite seed_rows by (done || apply scan_keys_NoDup). destruct (String.eqb_spec n table) as [->|Hne].
    + rewrite scan_find. rewrite (bool_decide_eq_false_2 (table ∈ names)) by done. rewrite bool_decide_eq_true_2 by (by left).
      unfold catalog_row. rewrite Ht. cbn [mbind option_bind]. by destruct (t_rows tbl !! key).
    + unfold catalog_row. f_equal. replace (bool_decide (table ∈ n :: names)) with (bool_decide (table ∈ names)); [done|].
      apply bool_decide_ext. set_solver.
  - rewrite IH by done. f_equal. unfold catalog_row. destruct (decide (table = n)) as [->|Hne].
    + rewrite Ht. cbn. by repeat case_bool_decide.
    + replace (bool_decide (table ∈ n :: names)) with (bool_decide (table ∈ names)); [done|]. apply bool_decide_ext. set_solver.
Qed.

Lemma list_NoDup (c : Catalog) : NoDup (Storage.List c).
Proof. unfold Storage.List. rewrite merge_sort_Permutation. apply NoDup_fst_map_to_list. Qed.

Lemma elem_of_list_catalog (c : Catalog) table : table ∈ Storage.List c <-> is_Some (Lookup c table).
Proof.
  unfold Storage.List, Lookup. rewrite merge_sort_Permutation, list_elem_of_fmap. split.
  - intros ([k t] & -> & Hin%elem_of_map_to_list). by exists t.
  - intros [t Ht]. exists (table, t). split; [done|]. by apply elem_of_map_to_list.
Qed.

(** ** After the start *)

Lemma marks_spec (cs xs : list N) m :
  let m' := fold_left MarkAborted xs (fold_left MarkCommitted cs m) in
  m_objs m' = m_objs m /\ m_txns m' = m_txns m /\ m_nextID m' = m_nextID m /\ m_Catalog m' = m_Catalog m
  /\ m_MVCCStore m' = m_MVCCStore m /\ m_MaxActive m' = m_MaxActive m
  /\ m_committed m' = list_to_set cs ∪ m_committed m /\ m_aborted m' = list_to_set xs ∪ m_aborted m.
Proof.
  assert (HC : forall cs m, let m' := fold_left MarkCommitted cs m in
    m_objs m' = m_objs m /\ m_txns m' = m_txns m /\ m_nextID m' = m_nextID m /\ m_Catalog m' = m_Catalog m
    /\ m_MVCCStore m' = m_MVCCStore m /\ m_MaxActive m' = m_MaxActive m
    /\ m_committed m' = list_to_set cs ∪ m_committed m /\ m_aborted m' = m_aborted m).
  { clear. intros cs. induction cs as [|x cs IH]; intros m; cbn [fold_left]; [split_and!; try done; set_solver|].
    destruct (IH (MarkCommitted m x)) as (A1 & A2 & A3 & A4 & A5 & A6 & A7 & A8). split_and!; try done. rewrite A7. cbn. set_solver. }
  destruct (HC cs m) as (A1 & A2 & A3 & A4 & A5 & A6 & A7 & A8). set (m1 := fold_left MarkCommitted cs m) in *.
  assert (HA : forall xs m, let m' := fold_left MarkAborted xs m in
    m_objs m' = m_objs m /\ m_txns m' = m_txns m /\ m_nextID m' = m_nextID m /\ m_Catalog m' = m_Catalog m
    /\ m_MVCCStore m' = m_MVCCStore m /\ m_MaxActive m' = m_MaxActive m
    /\ m_committed m' = m_committed m /\ m_aborted m' = list_to_set xs ∪ m_aborted m).
  { clear. intros xs. induction xs as [|x xs IH]; intros m; cbn [fold_left]; [split_and!; try done; set_solver|].
    destruct (IH (MarkAborted m x)) as (A1 & A2 & A3 & A4 & A5 & A6 & A7 & A8). split_and!; try done. rewrite A8. cbn. set_solver. }
  destruct (HA xs m1) as (B1 & B2 & B3 & B4 & B5 & B6 & B7 & B8). split_and!; congruence.
Qed.

(** A manager that has just started. *)
Record started m : Prop := {
  st_txns : m_txns m = ∅;
  st_next : m_nextID m = 0%N;
  st_seed : 0%N ∉ m_aborted m;
}.

Definition read_result (row : option Values) : Values * bool := match row with Some v => (v, true) | None => (None, false) end.

(** The first transaction reads the one version that a row has, at every
    isolation level. *)
Lemma first_read m iso table key row :
  started m -> row_versions m table key = match row with Some v => [mkVersion 0 0 v 0] | None => [] end ->
  exists m1, Begin m ProtocolMVCC iso = (m1, Ok 1%N) /\ (MVCCRead m1 1 table key).2 = Ok (read_result row).
Proof.
  intros [Ht Hn Ha] Hrow. unfold Begin, at_capacity. rewrite Ht, size_empty.
  replace ((0 <? m_MaxActive m) && (m_MaxActive m <=? 0)) with false.
  2: { destruct (Nat.ltb_spec 0 (m_MaxActive m)); [|done]. cbn. symmetry. apply Nat.leb_gt. lia. }
  unfold nextTxnID. rewrite Hn. change (u64_add 0 1) with 1%N. eexists. split; [done|]. set (m0 := register _ _ _ _).
  assert (Hobj : exists txn, m_objs (log_begin m0 1) !! 1%N = Some txn /\ x_Status txn = TxnActive /\ x_Isolation txn = iso
    /\ x_Snapshot txn = (if negb (bool_decide (iso = ReadCommitted)) then Some (mkSnapshot 2 2 []) else None)).
  { set (txn := NewTransaction 1 ProtocolMVCC iso (if negb (bool_decide (iso = ReadCommitted)) then Some (mkSnapshot 2 2 []) else None)).
    assert (Hz : m_objs m0 !! 1%N = Some txn).
    { unfold m0, register. cbn [m_objs with_txns with_objs]. rewrite lookup_insert_eq. unfold takeSnapshot, min_id. cbn [m_nextID m_txns with_nextID].
      rewrite Ht, elements_empty. done. }
    unfold log_begin. destruct (m_WAL m0) as [w|]; [|by exists txn]. destruct (wal_Begin w 1) as [w' [lsn|e]]; [|by exists txn].
    exists (set_x_LastWALLSN lsn txn). change (m_objs (upd_txn _ _ _)) with (alter (set_x_LastWALLSN lsn) 1%N (m_objs m0)). rewrite lookup_alter_eq, Hz. done. }
  destruct Hobj as (txn & Ho & Hst & Hiso & Hsn).
  assert (Hfr : m_aborted (log_begin m0 1) = m_aborted m /\ m_txns (log_begin m0 1) = {[1%N]} /\ m_nextID (log_begin m0 1) = 1%N
    /\ m_MVCCStore (log_begin m0 1) = m_MVCCStore m).
  { unfold log_begin. assert (Htx : m_txns m0 = {[1%N]}) by (unfold m0, register; cbn; rewrite Ht; set_solver).
    destruct (m_WAL m0) as [w|]; [|done]. by destruct (wal_Begin w 1) as [w' [lsn|e]]. }
  destruct Hfr as (Hab & Htx & Hnx & Hms). set (m1 := log_begin m0 1) in *. unfold MVCCRead. rewrite Ho, Hst.
  rewrite bool_decide_eq_true_2 by done. cbn [negb]. destruct (getSnapshot m1 1 txn) as [m2 snap] eqn:Es.
  assert (Hs : (0 < s_Xmin snap)%N /\ m_aborted m2 = m_aborted m /\ m_MVCCStore m2 = m_MVCCStore m).
  { revert Es. unfold getSnapshot. rewrite Hiso, Hsn. destruct (bool_decide (iso = ReadCommitted)) eqn:Hrc; cbn [negb]; intros [= <- <-]; [|done].
    cbn. unfold takeSnapshot. rewrite Htx, Hnx. unfold min_id. rewrite elements_singleton. done. }
  destruct Hs as (Hx & Ha2 & Hm2). unfold row_versions in Hrow. rewrite Hm2. destruct (GetChain (m_MVCCStore m) table key) as [c|].
  2: { by destruct row. }
  unfold FindVisible. rewrite Hrow. destruct row as [v|]; [|done]. cbn [List.find].
  assert (Hv : IsVisible (mkVersion 0 0 v 0) 1 snap m2 = true).
  { unfold IsVisible. cbn [ver_XMin ver_XMax]. change (GetXmin snap) with (s_Xmin snap).
    change (IsAborted m2 0) with (bool_decide (0%N ∈ m_aborted m2)). rewrite Ha2, bool_decide_eq_false_2 by done.
    rewrite (proj2 (N.ltb_lt _ _) Hx). done. }
  by rewrite Hv.
Qed.

Lemma reseed_catalog id names m : m_Catalog (fold_left (reseed_table id) names m) = m_Catalog m.
Proof.
  revert m. induction names as [|x names IH]; intros m; [done|]. cbn. rewrite IH. unfold reseed_table. by destruct (Lookup (m_Catalog m) x).
Qed.

Lemma no_records t rs : Forall (fun r => lr_TxnID r <> t) rs -> List.filter (of_txn_rec t) rs = [].
Proof. induction 1 as [|r rs Hr _ IH]; [done|]. cbn. unfold of_txn_rec at 1. by rewrite (proj2 (N.eqb_neq _ _) Hr). Qed.

Lemma start_spec `{GobATT, !GobRoundTrip} file rs locks c n (w : option W) :
  scan_log file = rs -> wf_log rs -> plain_log rs -> Forall (fun r => lr_TxnID r <> 0%N) rs ->
  let m := server_start locks c n w (Some (RunRecovery file)) in
  started m /\ m_Catalog m = ApplyRedoOps (rr_RedoOps (RunRecovery file)) c
  /\ forall table key, is_Some (Lookup c table) ->
       row_versions m table key = match catalog_row (m_Catalog m) table key with Some v => [mkVersion 0 0 v 0] | None => [] end.
Proof.
  intros Hscan Hwf Hp Hz m. unfold m, server_start, apply_recovery. set (rec := RunRecovery file). set (m0 := with_Catalog _ _).
  destruct (marks_spec (elements (rr_Committed rec)) (elements (rr_Aborted rec)) m0) as (A1 & A2 & A3 & A4 & A5 & A6 & A7 & A8).
  set (m1 := fold_left MarkAborted _ _) in *. pose proof (frame_reseed 0 (Storage.List (m_Catalog m1)) m1) as F. set (m2 := fold_left (reseed_table 0) _ m1) in *.
  assert (Hcat : m_Catalog m2 = m_Catalog m1).
  { apply reseed_catalog. }
  assert (Hab : 0%N ∉ rr_Aborted rec).
  { intros Hin. unfold rec, RunRecovery in Hin. cbn [rr_Aborted] in Hin. apply with_status_spec in Hin as (e & He & Hs).
    unfold FindLastCheckpoint, readAllRecordsFrom in He. rewrite Hscan, checkpoint_none in He by apply Hp.
    cbn [cp_EndLSN cp_ATT negb N.eqb LSNInvalid] in He. rewrite (filter_ge_all rs 1) in He by (apply Forall_forall, Hwf).
    pose proof (analysis_spec rs Hp (wl_sorted _ Hwf) 0%N) as Hsp. rewrite He in Hsp. unfold att_spec in Hsp. rewrite (filter_nil_outcome rs 0) in Hsp by (by apply no_records).
    destruct Hsp as (_ & _ & Hsp). rewrite Hs in Hsp. discriminate. }
  split; [|split].
  - split; cbn [m_txns m_nextID m_aborted MarkCommitted with_committed].
    + by rewrite (fr_txns _ _ F), A2.
    + by rewrite (fr_next _ _ F), A3.
    + rewrite (fr_aborted _ _ F), A8. cbn. rewrite list_to_set_elements_L. set_solver.
  - cbn [m_Catalog MarkCommitted with_committed]. by rewrite Hcat, A4.
  - intros table key Ht. change (row_versions (MarkCommitted m2 0) table key) with (row_versions m2 table key).
    cbn [m_Catalog MarkCommitted with_committed]. rewrite Hcat. unfold m2. rewrite reseed_rows; [|by rewrite A5|apply list_NoDup].
    rewrite bool_decide_eq_true_2.
    + unfold row_versions. rewrite A5. cbn. by rewrite app_nil_r.
    + apply elem_of_list_catalog. rewrite A4. cbn. by apply ApplyRedoOps_dom.
Qed.
End Start.

Lemma committed_row_redo `{GobATT, !GobRoundTrip} file rs (c : Catalog) table key :
  scan_log file = rs -> wf_log rs -> plain_log rs -> is_Some (Lookup c table) ->
  catalog_row (ApplyRedoOps (rr_RedoOps (RunRecovery file)) c) table key = committed_row rs table key (catalog_row c table key).
Proof.
  intros Hs Hwf Hp Hc. destruct (recovery_records file rs Hs Hwf Hp) as [_ ->]. rewrite redo_rows by done. unfold committed_row. by rewrite <-filter_andb.
Qed.

(** ** Runs of a server with a log *)

Module StartRun.
#[local] Instance gob : GobATT := gob_countable.

Notation ServerMgr := (Mgr (@LockSt unit) WalMgr).

(** The start of main.go: the log is opened, recovered, and written by the
    manager; the catalog is seeded anew. *)
Definition start (catalog : Catalog) (file : list byte) : ServerMgr :=
  server_start (lock_init tt) catalog 0 (Some (OpenManager file)) (Some (RunRecovery file)).

(** The log file when the server stops in an orderly way. *)
Definition log_file (m : ServerMgr) : list byte := match m_WAL m with Some w => match doFlush w IOok with Some w => w_file w | None => [] end | None => [] end.

Definition seeded : Catalog := Register NewCatalog demo_table.

Definition begin_of (p : ConcurrencyProtocol) (m : ServerMgr) : ServerMgr := (Begin m p ReadCommitted).1.
Definition write_of (t : N) (z : Z) (m : ServerMgr) : ServerMgr :=
  match m_objs m !! t with
  | Some txn =>
      match x_Protocol txn with
      | Protocol2PL => match TwoPLWrite m txn "t" "k" (Some [IntVal z]) UndoUpdate with Some (m, _) => m | None => m end
      | ProtocolMVCC => match MVCCWrite m t "t" "k" (Some [IntVal z]) UndoUpdate with Some (m, _) => m | None => m end
      end
  | None => m
  end.
Definition commit_of (t : N) (m : ServerMgr) : ServerMgr := (Commit m t).1.
Definition abort_of (t : N) (m : ServerMgr) : ServerMgr := (Abort m t).1.
Definition read_of (t : N) (m : ServerMgr) : result TxnError (Values * bool) := (MVCCRead m t "t" "k").2.

(** A transaction writes and aborts; the server restarts; the first
    transaction of the new server, which has the same identifier, writes 9
    and commits. *)
Definition reused_run : ServerMgr :=
  let m := abort_of 1 (write_of 1 7 (begin_of ProtocolMVCC (start seeded []))) in
  write_of 1 9 (begin_of ProtocolMVCC (start seeded (log_file m))).

(** A 2PL transaction writes 7, rolls back to a savepoint before the write
    and commits. *)
Definition savepoint_run : ServerMgr :=
  let m := (CreateSavepoint (begin_of Protocol2PL (start seeded [])) 1 "s").1 in
  commit_of 1 (RollbackToSavepoint (write_of 1 7 m) 1 "s").1.

(** A log in which transaction 5 writes 7 and commits. *)
Definition write7 : LogRecord := write_record 5 0 1 "t" "k" [] (default [] (EncodeValues [IntVal 7])).
Definition hist7 : list LogRecord := [set_LSN write7 1; set_LSN (commit_record 5 1) 2].
Definition log7 : WalMgr := flushed_or (appendRecord (appendRecord (OpenManager []) write7).1 (commit_record 5 1)).1 IOok.

Lemma log7_reach : wreach log7 hist7.
Proof.
  apply (wr_flush (appendRecord (appendRecord (OpenManager []) write7).1 (commit_record 5 1)).1); [|vm_compute; reflexivity].
  change hist7 with (([] ++ [set_LSN write7 (w_next (OpenManager []))]) ++ [set_LSN (commit_record 5 1) (w_next (appendRecord (OpenManager []) write7).1)]).
  apply wr_append; [apply wr_append| | |]; try reflexivity; try (vm_compute; reflexivity).
  - apply (wr_open []); [|constructor]. split; constructor.
  - apply small_rec_ok; try (simpl; lia); vm_compute; try done; reflexivity.
  - apply small_rec_ok; try (simpl; lia); vm_compute; try done; reflexivity.
Qed.

Lemma hist7_plain : plain_log hist7.
Proof.
  split; [repeat constructor; done|]. intros t r. unfold hist7, of_txn_rec.
  cbn [List.filter set_LSN lr_TxnID write7 write_record commit_record]. destruct (N.eqb_spec 5 t); [|done]. by intros [= <-].
Qed.

Lemma hist7_prefix {A} (a b : A) h1 h2 : [a; b] = h1 ++ h2 -> b ∈ h1 -> a <> b -> h1 = [a; b].
Proof.
  intros He Hin Hne. destruct h1 as [|x [|y [|z l]]]; try done.
  - by apply elem_of_nil in Hin.
  - injection He as -> _. by apply list_elem_of_singleton in Hin.
  - by injection He as -> -> _.
Qed.

Lemma hist7_zero : Forall (fun r => lr_TxnID r <> 0%N) hist7.
Proof. repeat constructor; discriminate. Qed.
End StartRun.



#[local] Existing Instance StartRun.gob.

(** The restart goes wrong in two ways. The identifiers of
    transactions start again at 1 while the outcomes of the old log are
    marked, so that a transaction whose identifier an aborted one had
    commits with success and the write is lost: a later transaction reads
    the seeded value. And recovery redoes every write of a committed
    transaction, also one that was rolled back to a savepoint: the row that
    the server had before the restart is not the one it has after it. *)
Theorem restart_wrong :
  ((Commit StartRun.reused_run 1).2 = Ok tt
   /\ StartRun.read_of 2 (StartRun.begin_of ProtocolMVCC (StartRun.commit_of 1 StartRun.reused_run)) = Ok (Some [IntVal 0], true))
  /\ (catalog_row (m_Catalog StartRun.savepoint_run) "t" "k" = Some (Some [IntVal 0])
      /\ catalog_row (m_Catalog (StartRun.start StartRun.seeded (StartRun.log_file StartRun.savepoint_run))) "t" "k" = Some (Some [IntVal 7])).
Proof. split_and!; vm_compute; reflexivity. Qed.
