(* ===== verification/LockLaws.v ===== *)
(** * The laws of the lock service

    What the transaction manager relies on when it calls the lock manager
    through the interface [LockService] of [Txn]: the class
    [LockServiceLaws], and its instance for the lock manager of [Acquire]. *)

From Stdlib Require Import ZArith NArith Lia String.
From stdpp Require Import base tactics numbers list gmap strings.
From S2P Require Import Prelude Types Lock Acquire Storage Mvcc Wal Ssi Txn.

(** ** The laws of a lock service *)

Class LockServiceLaws (L : Type) `{LockService L} := {
  lk_inv : L -> Prop;
  lk_acquire_inv : forall l t r mode, wf_resource r -> lk_inv l -> lk_inv (lk_acquire l t r mode).1;
  (* a success: the mode, or one at least as strong, is held *)
  lk_acquire_ok : forall l t r mode l' u, wf_resource r -> lk_inv l ->
    lk_acquire l t r mode = (l', Ok u) ->
    exists held, lk_held l' t !! r = Some held /\ LockStrength mode <= LockStrength held;
  (* a mode at least as strong is held already *)
  lk_acquire_again : forall l t r mode held, wf_resource r -> lk_inv l ->
    lk_held l t !! r = Some held -> LockStrength mode <= LockStrength held ->
    (lk_acquire l t r mode).2 = Ok tt /\ lk_held (lk_acquire l t r mode).1 t !! r = Some held;
  (* other transactions and other resources *)
  lk_acquire_frame : forall l t r mode t' r', wf_resource r -> lk_inv l -> t' <> t \/ r' <> r ->
    lk_held (lk_acquire l t r mode).1 t' !! r' = lk_held l t' !! r';
  lk_release_inv : forall l t, lk_inv l -> lk_inv (lk_release_all l t);
  lk_release_held : forall l t, lk_inv l -> lk_held (lk_release_all l t) t = ∅;
  lk_release_frame : forall l t t', lk_inv l -> t' <> t ->
    lk_held (lk_release_all l t) t' = lk_held l t';
  lk_exclusive : forall l t1 t2 r m1 m2, lk_inv l -> t1 <> t2 ->
    lk_held l t1 !! r = Some m1 -> lk_held l t2 !! r = Some m2 -> LockCompatible m1 m2 = true;
}.

(** ** The lock manager satisfies them *)

Section Discharge.
Context {G : Type} `{WFGInterface G}.
Implicit Types l : @LockSt G.

(** No request is pending between the operations. *)
Definition idle_inv l : Prop := lock_inv l /\ ls_blocked l = ∅.

Lemma GetOrCreate_held l r t : held_of (GetOrCreate l r).1 t = held_of l t.
Proof. unfold GetOrCreate. by destruct (Table_Get l r). Qed.

Lemma held_of_with_held l t h t' :
  held_of (with_held l t h) t' = if decide (t = t') then h else held_of l t'.
Proof. unfold held_of. simpl. rewrite lookup_insert. by case_decide. Qed.

(** The effect of [acquire] on the held sets and the blocked set. *)
Lemma acquire_held l t r mode l' o :
  acquire l t r mode = (l', o) ->
  (forall t' r', t' <> t \/ r' <> r -> held_of l' t' !! r' = held_of l t' !! r')
  /\ match o with
     | AcqGranted =>
         ls_blocked l' = ls_blocked l
         /\ ((held_of l' t !! r = Some mode
                /\ forall held, held_of l t !! r = Some held -> LockStrength held < LockStrength mode)
             \/ exists held, held_of l t !! r = Some held /\ LockStrength mode <= LockStrength held
                  /\ held_of l' t !! r = Some held)
     | AcqWait id =>
         ls_blocked l' = <[t := mkWaiter r mode id]> (ls_blocked l)
         /\ forall held, held_of l t !! r = Some held -> LockStrength held < LockStrength mode
     end.
Proof.
  unfold acquire. pose proof (GetOrCreate_held l r) as Hh.
  assert (Hb : ls_blocked (GetOrCreate l r).1 = ls_blocked l)
    by (unfold GetOrCreate; by destruct (Table_Get l r)).
  destruct (GetOrCreate l r) as [l1 q]. simpl in Hh, Hb.
  assert (Hfr : forall l2 h, ls_held l2 = <[t := h]> (ls_held l1) ->
    (forall r', r' <> r -> h !! r' = held_of l t !! r') ->
    forall t' r', t' <> t \/ r' <> r -> held_of l2 t' !! r' = held_of l t' !! r').
  { intros l2 h Hl2 Hr t' r' Hne. rewrite <-(Hh t'). unfold held_of at 1. rewrite Hl2, lookup_insert.
    case_decide as Ht; [subst t'|done]. simpl. destruct Hne as [?|Hne]; [done|]. rewrite Hh. by apply Hr. }
  assert (Hnew : forall l2 h, ls_held l2 = <[t := h]> (ls_held l1) -> held_of l2 t = h).
  { intros l2 h Hl2. unfold held_of. by rewrite Hl2, lookup_insert_eq. }
  unfold Held_Get, Held_Set, Held_Delete. rewrite Hh. destruct (held_of l t !! r) as [ex|] eqn:Hex.
  - destruct (Nat.leb_spec (LockStrength mode) (LockStrength ex)) as [Hle|Hlt].
    { intros [= <- <-]. split; [intros; by rewrite Hh|]. split; [done|]. right. exists ex. by rewrite Hh. }
    rewrite (proj2 (Nat.ltb_lt _ _) Hlt). destruct (CanGrant _ _ _).
    + intros [= <- <-]. split; [|split; [done|]].
      * eapply Hfr; [done|]. intros r' Hr. by rewrite lookup_insert_ne, lookup_delete_ne.
      * left. split; [|by intros held [= <-]]. erewrite Hnew by done. apply lookup_insert_eq.
    + rewrite lookup_delete_eq. intros [= <- <-].
      split; [|split; [by simpl; rewrite Hb|by intros held [= <-]]].
      eapply Hfr; [done|]. intros r' Hr. by rewrite lookup_delete_ne.
  - rewrite Hex. destruct (CanGrant _ _ _); intros [= <- <-].
    + split; [|split; [done|]].
      * eapply Hfr; [done|]. intros r' Hr. by rewrite lookup_insert_ne.
      * left. split; [|by intros held [=]]. erewrite Hnew by done. apply lookup_insert_eq.
    + split; [|split; [by simpl; rewrite Hb|by intros held [=]]]. by eapply Hfr.
Qed.

(** A request that has to wait and times out: nothing but the requester's
    own mode on the resource can change. *)
Lemma wait_cancelled_held l t w why l' e :
  wait_cancelled l t w why = Some (l', e) -> forall t', held_of l' t' = held_of l t'.
Proof.
  unfold wait_cancelled. destruct (grant_waiters _ _ _) as [l1|] eqn:Hg; [|done].
  intros [= <- _] t'. apply grant_waiters_same_held in Hg as (Hh & _). unfold held_of. simpl. by rewrite Hh.
Qed.

Lemma lk_acquire_cases l t r mode :
  wf_resource r -> idle_inv l ->
  exists l' o, lk_acquire l t r mode = (l', o) /\ idle_inv l'
  /\ (forall t' r', t' <> t \/ r' <> r -> held_of l' t' !! r' = held_of l t' !! r')
  /\ match o with
     | Ok _ =>
         (held_of l' t !! r = Some mode
          /\ forall held, held_of l t !! r = Some held -> LockStrength held < LockStrength mode)
         \/ exists held, held_of l t !! r = Some held /\ LockStrength mode <= LockStrength held
              /\ held_of l' t !! r = Some held
     | Err _ => forall held, held_of l t !! r = Some held -> LockStrength held < LockStrength mode
     end.
Proof.
  intros Hr [HI Hb]. simpl. destruct (acquire l t r mode) as [l1 o] eqn:Ha.
  assert (HI1 : lock_inv l1) by (eapply (acquire_inv l); [done|done|by rewrite Hb|exact Ha]).
  apply acquire_held in Ha as [Hf Ho]. destruct o as [|id].
  - destruct Ho as [Hb1 Ho]. exists l1, (Ok tt). split_and!; try done. split; [done|]. by rewrite Hb1.
  - destruct Ho as [Hb1 Ho]. rewrite Hb1, Hb, lookup_insert_eq.
    destruct (wait_cancelled_inv l1 t (mkWaiter r mode id) CancelTimeout HI1) as (l2 & e & Hc & HI2 & Hb2 & _).
    { by rewrite Hb1, lookup_insert_eq. }
    rewrite Hc. exists l2, (Err e). split_and!; try done.
    + split; [done|]. by rewrite Hb2, Hb1, Hb, delete_insert_eq, delete_empty.
    + intros t' r' Hne. rewrite (wait_cancelled_held _ _ _ _ _ _ Hc). by apply Hf.
Qed.

Lemma release_one_frame l t r l' :
  release_one l t r = Some l' -> (forall t', t' <> t -> held_of l' t' = held_of l t')
  /\ ls_blocked l' = ls_blocked l.
Proof.
  unfold release_one. destruct (Table_Get l r) as [q|].
  - destruct (grant_waiters _ _ _) as [l1|] eqn:Hg; [|done]. intros [= <-].
    apply grant_waiters_same_held in Hg as (Hh & Hb & _). split.
    + intros t' Ht. rewrite held_of_with_held, decide_False by done. unfold held_of.
      destruct (match Table_Get l1 r with Some _ => _ | None => _ end); simpl; by rewrite Hh.
    + simpl. by destruct (match Table_Get l1 r with Some _ => _ | None => _ end).
  - intros [= <-]. split; [|done]. intros t' Ht. by rewrite held_of_with_held, decide_False.
Qed.

Lemma release_each_frame rs l t l' :
  release_each l t rs = Some l' -> (forall t', t' <> t -> held_of l' t' = held_of l t')
  /\ ls_blocked l' = ls_blocked l.
Proof.
  revert l. induction rs as [|r rs IH]; intros l; simpl; [by intros [= <-]|].
  destruct (release_one l t r) as [l1|] eqn:H1; [|done]. intros [H2 H3]%IH.
  apply release_one_frame in H1 as [H4 H5]. split; [|congruence].
  intros t' Ht. rewrite H2 by done. by apply H4.
Qed.

#[export] Instance lock_manager_laws : LockServiceLaws (@LockSt G).
Proof.
  refine {| lk_inv := idle_inv |}.
  - intros l t r mode Hr HI. destruct (lk_acquire_cases l t r mode Hr HI) as (l' & o & -> & ? & _). done.
  - intros l t r mode l' u Hr HI Ha. destruct (lk_acquire_cases l t r mode Hr HI) as (l2 & o & Ha2 & _ & _ & Ho).
    rewrite Ha in Ha2. injection Ha2 as <- <-. destruct Ho as [[Ho _]|(held & _ & ? & Ho)]; eauto.
  - intros l t r mode held Hr HI Hh Hs. change (held_of l t !! r = Some held) in Hh.
    destruct (lk_acquire_cases l t r mode Hr HI) as (l2 & o & -> & _ & _ & Ho). simpl. destruct o as [[]|e].
    + split; [done|]. destruct Ho as [[_ Ho]|(h2 & Hh2 & _ & Ho)]; [apply Ho in Hh; lia|].
      change (held_of l2 t !! r = Some held). congruence.
    + apply Ho in Hh. lia.
  - intros l t r mode t' r' Hr HI Hne.
    destruct (lk_acquire_cases l t r mode Hr HI) as (l2 & o & -> & _ & Hf & _). by apply Hf.
  - intros l t [HI Hb]. simpl. destruct (ReleaseAllLocks_inv l t HI) as (l' & Hrel & HI' & _).
    rewrite Hrel. split; [done|]. unfold ReleaseAllLocks in Hrel.
    destruct (release_each _ _ _) as [l1|] eqn:He; [|done]. injection Hrel as <-.
    apply release_each_frame in He as [_ He]. simpl. by rewrite He.
  - intros l t [HI Hb]. simpl. by destruct (ReleaseAllLocks_inv l t HI) as (l' & -> & _ & ?).
  - intros l t t' [HI Hb] Hne. simpl. destruct (ReleaseAllLocks l t) as [l'|] eqn:Hrel; [|done].
    unfold ReleaseAllLocks in Hrel. destruct (release_each _ _ _) as [l1|] eqn:He; [|done].
    injection Hrel as <-. apply release_each_frame in He as [He _]. by apply He.
  - intros l t1 t2 r m1 m2 [HI _]. by apply held_compatible.
Defined.
End Discharge.

(** ** Consequences *)

Section Laws.
Context {L : Type} `{LockServiceLaws L}.

(** The exclusive mode is the strongest: it is never given up by a request. *)
Lemma acquire_keeps_X l t r mode t' r' :
  wf_resource r -> lk_inv l -> lk_held l t' !! r' = Some LockX ->
  lk_held (lk_acquire l t r mode).1 t' !! r' = Some LockX.
Proof.
  intros Hr HI Hx. destruct (decide (t' = t /\ r' = r)) as [[-> ->]|Hne].
  - apply (lk_acquire_again l t r mode LockX); try done. by destruct mode; apply Nat.leb_le.
  - rewrite lk_acquire_frame; [done|done|done|]. destruct (decide (t' = t)) as [->|]; [right|by left].
    intros ->. by apply Hne.
Qed.

(** A mode at least as strong as S, against the X of another transaction. *)
Lemma held_X_excludes l t t' r m :
  lk_inv l -> t' <> t -> lk_held l t !! r = Some LockX -> lk_held l t' !! r = Some m ->
  LockStrength m = 0.
Proof.
  intros HI Hne Hx Hm. pose proof (lk_exclusive l t' t r m LockX HI Hne Hm Hx) as Hc. by destruct m.
Qed.

Lemma acquire_blocked_by_X l t t' r mode l' o :
  wf_resource r -> lk_inv l -> t' <> t -> lk_held l t !! r = Some LockX -> mode <> LockNL ->
  lk_acquire l t' r mode = (l', o) -> is_ok o = false.
Proof.
  intros Hr HI Hne Hx Hm Ha. destruct o as [u|e]; [|done]. exfalso.
  destruct (lk_acquire_ok l t' r mode l' u Hr HI Ha) as (held & Hh & Hs).
  pose proof (acquire_keeps_X l t' r mode t r Hr HI Hx) as Hx'.
  pose proof (lk_acquire_inv l t' r mode Hr HI) as HI'. rewrite Ha in Hx', HI'. simpl in *.
  rewrite (held_X_excludes l' t t' r held HI' Hne Hx' Hh) in Hs. apply Nat.leb_le in Hs. by destruct mode.
Qed.

(** Any lock of another transaction stands against an exclusive request. *)
Lemma acquire_X_blocked l t t' r h :
  wf_resource r -> lk_inv l -> t' <> t -> lk_held l t !! r = Some h -> h <> LockNL ->
  is_ok (lk_acquire l t' r LockX).2 = false.
Proof.
  intros Hr HI Hne Hh Hnl. destruct (lk_acquire l t' r LockX) as [l' [u|e]] eqn:Ha; [|done]. exfalso.
  destruct (lk_acquire_ok l t' r LockX l' u Hr HI Ha) as (h' & Hh' & Hs).
  pose proof (lk_acquire_inv l t' r LockX Hr HI) as HI'.
  pose proof (lk_acquire_frame l t' r LockX t r Hr HI) as Hf. rewrite Ha in HI', Hf. simpl in *.
  rewrite <-Hf in Hh by (left; congruence).
  pose proof (lk_exclusive l' t' t r h' h HI' Hne Hh' Hh) as Hc. apply Nat.leb_le in Hs.
  by destruct h', h.
Qed.
End Laws.
