(* ===== verification/GapLock.v ===== *)
(** * Gap locks and the 2PL scan ([internal/txn/gap_lock.go])

    A range scan locks the rows and the gaps of its range, an insert
    through [LockForInsert] locks the gap it falls into; the two computations
    name the same gap when no key of the table changed in between. *)

From Stdlib Require Import ZArith NArith Lia String Ascii.
From stdpp Require Import base tactics numbers list gmap strings sorting.
From S2P Require Import Prelude Types Lock Acquire Storage Mvcc Wal Ssi Txn TxnInv LockLaws.

(** The bytes FF FF FF FF. *)
Definition gapInfinitySentinel : string :=
  let ff := Ascii.ascii_of_nat 255 in
  String ff (String ff (String ff (String ff EmptyString))).

(** The range over a Go string yields runes; a byte above 7E begins a rune
    above 7E or an invalid one, so on bytes the test is the same. *)
Fixpoint isGapSafeKey (k : string) : bool :=
  match k with
  | EmptyString => true
  | String c k =>
      let n := Ascii.nat_of_ascii c in
      if (n <? 32) || (126 <? n) then false else isGapSafeKey k
  end.

(** [sortedKeys]: the keys of the table, sorted again. *)
Definition sorted_keys (t : Table) : list string := merge_sort String.le (Keys t).

Definition inRange (lo hi k : string) : bool :=
  (String.eqb lo "" || negb (String.ltb k lo)) && (String.eqb hi "" || negb (String.ltb hi k)).

Section Gap.
Context {L W : Type} `{LockService L} `{WALWriter W}.
Implicit Types m : Mgr L W.

(** A call of [AcquireLockCtx] and its early return. *)
Definition lock_step m (t : N) (r : ResourceID) (mode : Mode) : Mgr L W * result TxnError unit :=
  let (l, o) := lk_acquire (m_locks m) t r mode in (with_locks m l, o).

(** The loop over the sorted keys; the result carries [prev]. *)
Fixpoint scan_lock_loop m (t : N) (table lo hi : string) (prev : string) (keys : list string)
    : Mgr L W * result TxnError string :=
  match keys with
  | [] => (m, Ok prev)
  | k :: keys =>
      if negb (inRange lo hi k) then
        scan_lock_loop m t table lo hi
          (if negb (String.eqb lo "") && String.ltb k lo then k else prev) keys
      else
        match lock_step m t (ResourceForGap table prev k) LockS with
        | (m, Err e) => (m, Err e)
        | (m, Ok _) =>
            match lock_step m t (ResourceForRow table k) LockS with
            | (m, Err e) => (m, Err e)
            | (m, Ok _) => scan_lock_loop m t table lo hi k keys
            end
        end
  end.

Definition trailing_gap_hi (hi : string) (keys : list string) : string :=
  if String.eqb hi "" then gapInfinitySentinel
  else default gapInfinitySentinel (List.find (fun k => String.ltb hi k) keys).

Definition LockForRangeScan m (txn : Transaction) (table lo hi : string)
    : Mgr L W * result TxnError unit :=
  match lock_step m (x_ID txn) (ResourceForTable table) LockIS with
  | (m, Err e) => (m, Err e)
  | (m, Ok _) =>
      match Lookup (m_Catalog m) table with
      | None => (m, Err (NewTableNotFoundError table))
      | Some t =>
          let keys := sorted_keys t in
          match scan_lock_loop m (x_ID txn) table lo hi "" keys with
          | (m, Err e) => (m, Err e)
          | (m, Ok prev) =>
              lock_step m (x_ID txn) (ResourceForGap table prev (trailing_gap_hi hi keys)) LockS
          end
      end
  end.

(** The keys around the insertion point; [next = ""] when there is none. *)
Fixpoint surrounding (key prev next : string) (keys : list string) : string * string :=
  match keys with
  | [] => (prev, next)
  | k :: keys =>
      if String.ltb k key then surrounding key k next keys
      else if String.ltb key k && String.eqb next "" then (prev, k)
      else surrounding key prev next keys
  end.

Definition gap_of (key : string) (keys : list string) : string * string :=
  let '(prev, next) := surrounding key "" "" keys in
  (prev, if String.eqb next "" then gapInfinitySentinel else next).

Definition LockForInsert m (txn : Transaction) (table key : string)
    : Mgr L W * result TxnError unit :=
  match lock_step m (x_ID txn) (ResourceForTable table) LockIX with
  | (m, Err e) => (m, Err e)
  | (m, Ok _) =>
      match Lookup (m_Catalog m) table with
      | None => (m, Err (NewTableNotFoundError table))
      | Some t =>
          let '(prev, next) := gap_of key (sorted_keys t) in
          if negb (isGapSafeKey key) then
            (m, Err (txnError ErrTxnAborted "gap-lock key contains non-printable bytes"))
          else
            match lock_step m (x_ID txn) (ResourceForGap table prev next) LockX with
            | (m, Err e) => (m, Err e)
            | (m, Ok _) => lock_step m (x_ID txn) (ResourceForRow table key) LockX
            end
      end
  end.

(** The locks [TwoPLScan] takes, by isolation level. *)
Definition scan_locks m (txn : Transaction) (table : string) : Mgr L W * result TxnError unit :=
  match x_Isolation txn with
  | Serializable => LockForRangeScan m txn table "" ""
  | RepeatableRead => lock_step m (x_ID txn) (ResourceForTable table) LockS
  | ReadCommitted => lock_step m (x_ID txn) (ResourceForTable table) LockIS
  | ReadUncommitted => (m, Ok tt)
  end.

Definition TwoPLScan m (txn : Transaction) (table : string) (filter : option (Row -> bool))
    : Mgr L W * result TxnError (list Row) :=
  match scan_locks m txn table with
  | (m, Err e) => (m, Err e)
  | (m, Ok _) =>
      match Lookup (m_Catalog m) table with
      | None => (m, Err (NewTableNotFoundError table))
      | Some t => (m, Ok (Scan t filter))
      end
  end.
End Gap.

(** ** The gap of a key *)

Lemma str_not_lt a b : ~ str_lt a b -> String.ltb a b = false.
Proof. intros Hn. apply not_true_iff_false. exact Hn. Qed.

(** [prev] after the keys [ks] of the loop. *)
Definition step_prev (lo hi prev k : string) : string :=
  if inRange lo hi k then k
  else if negb (String.eqb lo "") && String.ltb k lo then k else prev.

Definition last_prev (lo hi prev : string) (ks : list string) : string :=
  fold_left (step_prev lo hi) ks prev.

Lemma last_prev_below lo hi prev ks :
  (forall k, k ∈ ks -> hi = "" \/ ~ str_lt hi k) ->
  last_prev lo hi prev ks = default prev (last ks).
Proof.
  revert prev. induction ks as [|k ks IH]; intros prev Hk; [done|].
  assert (Hs : step_prev lo hi prev k = k).
  { unfold step_prev, inRange. destruct (Hk k) as [->|Hn]; [by left|simpl|].
    - by destruct (String.eqb lo ""), (String.ltb k lo).
    - rewrite (str_not_lt _ _ Hn), orb_true_r. by destruct (String.eqb lo ""), (String.ltb k lo). }
  simpl. rewrite Hs, IH by (intros x Hx; apply Hk; by right). rewrite last_cons. by destruct (last ks).
Qed.

Lemma last_prev_above lo hi prev ks :
  (forall k, k ∈ ks -> str_lt hi k /\ hi <> "" /\ ~ str_lt k lo) -> last_prev lo hi prev ks = prev.
Proof.
  revert prev. induction ks as [|k ks IH]; intros prev Hk; [done|].
  destruct (Hk k) as (H1 & H2 & H3); [by left|].
  assert (Hs : step_prev lo hi prev k = prev).
  { unfold step_prev, inRange. rewrite (str_not_lt _ _ H3), (proj2 (String.eqb_neq hi "") H2).
    unfold str_lt in H1. by rewrite H1, !andb_false_r. }
  simpl. rewrite Hs. apply IH. intros x Hx. apply Hk. by right.
Qed.

(** The keys below and above the new one, and the gap between them. *)
Lemma surrounding_split key prev ks :
  StronglySorted str_lt ks -> key ∉ ks ->
  exists pre post, ks = pre ++ post /\ (forall k, k ∈ pre -> str_lt k key)
    /\ (forall k, k ∈ post -> str_lt key k)
    /\ surrounding key prev "" ks = (default prev (last pre), default "" (head post)).
Proof.
  intros Hs. revert prev. induction Hs as [|k ks Hs IH Hf]; intros prev Hk.
  { exists [], []. split_and!; [done|set_solver|set_solver|done]. }
  rewrite Forall_forall in Hf. simpl. destruct (String.ltb k key) eqn:Hlt.
  - destruct (IH k) as (pre & post & -> & H1 & H2 & H3); [set_solver|].
    exists (k :: pre), post. split_and!; [done| |done|].
    + intros x [->|Hx]%elem_of_cons; [done|by apply H1].
    + rewrite H3, last_cons. by destruct (last pre).
  - assert (Hgt : str_lt key k).
    { destruct (str_ltb_false _ _ Hlt) as [->|?]; [set_solver|done]. }
    rewrite Hgt. simpl. exists [], (k :: ks). split_and!; [done|set_solver| |done].
    intros x [->|Hx]%elem_of_cons; [done|]. etrans; [exact Hgt|]. by apply Hf.
Qed.

Lemma str_lt_nonempty a b : str_lt a b -> b <> "".
Proof. intros Hl ->. destruct a; done. Qed.

Lemma gap_of_split key ks :
  StronglySorted str_lt ks -> key ∉ ks ->
  exists pre post, ks = pre ++ post /\ (forall k, k ∈ pre -> str_lt k key)
    /\ (forall k, k ∈ post -> str_lt key k)
    /\ gap_of key ks = (default "" (last pre), default gapInfinitySentinel (head post)).
Proof.
  intros Hs Hk. destruct (surrounding_split key "" ks Hs Hk) as (pre & post & He & H1 & H2 & H3).
  exists pre, post. split_and!; try done. unfold gap_of. rewrite H3.
  destruct post as [|k post]; simpl; [done|]. destruct (String.eqb_spec k "") as [->|_]; [|done].
  exfalso. by apply (str_lt_nonempty key "" (H2 _ (list_elem_of_here _ _))).
Qed.

Lemma inRange_spec lo hi k :
  inRange lo hi k = true <-> (lo = "" \/ ~ str_lt k lo) /\ (hi = "" \/ ~ str_lt hi k).
Proof.
  unfold inRange, str_lt. rewrite andb_true_iff, !orb_true_iff, !negb_true_iff, !String.eqb_eq.
  rewrite !not_true_iff_false. done.
Qed.

(** The gap of a key inside the range is one of those the scan locks: that
    of the next key of the range, or the trailing one. *)
Lemma gap_covered lo hi key ks :
  StronglySorted str_lt ks -> key ∉ ks -> inRange lo hi key = true ->
  (exists pre k post, ks = pre ++ k :: post /\ inRange lo hi k = true
     /\ gap_of key ks = (last_prev lo hi "" pre, k))
  \/ gap_of key ks = (last_prev lo hi "" ks, trailing_gap_hi hi ks).
Proof.
  intros Hs Hk [Hlo Hhi]%inRange_spec.
  destruct (gap_of_split key ks Hs Hk) as (pre & post & -> & H1 & H2 & ->).
  assert (Hpre : last_prev lo hi "" pre = default "" (last pre)).
  { apply last_prev_below. intros k Hin. destruct Hhi as [->|Hhi]; [by left|right]. intros Hx.
    apply Hhi. etrans; [exact Hx|]. by apply H1. }
  destruct (match post with [] => false | k :: _ => inRange lo hi k end) eqn:Hr.
  - left. destruct post as [|k post]; [done|]. exists pre, k, post. rewrite Hpre. by split_and!.
  - right. assert (Hpost : forall k, k ∈ post -> str_lt hi k /\ hi <> "" /\ ~ str_lt k lo).
    { destruct post as [|k0 post]; [set_solver|].
      assert (Hk0 : str_lt hi k0 /\ hi <> "" /\ ~ str_lt k0 lo).
      { assert (Hkk : str_lt key k0) by (apply H2; by left).
        assert (Hl : ~ str_lt k0 lo).
        { intros Hl. destruct Hlo as [->|Hlo]; [by apply str_lt_nonempty in Hl|].
          apply Hlo. by etrans. }
        destruct (decide (hi = "" \/ ~ str_lt hi k0)) as [Hd|Hd].
        - assert (inRange lo hi k0 = true) by (apply inRange_spec; auto). congruence.
        - split_and!; [|tauto|done]. destruct (decide (str_lt hi k0)); [done|tauto]. }
      intros k [->|Hin]%elem_of_cons; [done|]. destruct Hk0 as (K1 & K2 & K3).
      assert (Hlt : str_lt k0 k).
      { assert (Hss : StronglySorted str_lt (k0 :: post)).
        { clear -Hs. induction pre; [done|]. by inversion Hs; subst; auto. }
        inversion Hss as [|? ? _ Hf]; subst. rewrite Forall_forall in Hf. by apply Hf. }
      split_and!; [by etrans|done|]. intros Hl. apply K3. by etrans. }
    unfold last_prev. rewrite fold_left_app. fold (last_prev lo hi "" pre).
    change (fold_left (step_prev lo hi) post ?x) with (last_prev lo hi x post).
    rewrite last_prev_above, Hpre by done. f_equal. unfold trailing_gap_hi.
    destruct (String.eqb_spec hi "") as [->|Hne].
    + destruct post as [|k post]; [done|]. by destruct (Hpost k) as (_ & ? & _); [by left|].
    + assert (Hf : List.find (fun k => String.ltb hi k) (pre ++ post)
                   = List.find (fun k => String.ltb hi k) post).
      { clear -H1 Hhi Hne. induction pre as [|k pre IH]; simpl; [done|].
        rewrite str_not_lt; [apply IH; intros x Hx; apply H1; by right|]. intros Hl. destruct Hhi as [?|Hhi]; [done|]. apply Hhi.
        etrans; [exact Hl|]. apply H1. by left. }
      rewrite Hf. destruct post as [|k post]; [done|]. simpl.
      destruct (Hpost k) as (Hk1 & _); [by left|]. by rewrite Hk1.
Qed.

Lemma sorted_keys_strict t : StronglySorted str_lt (sorted_keys t).
Proof.
  assert (Hn : NoDup (sorted_keys t)).
  { unfold sorted_keys, Keys. rewrite !merge_sort_Permutation. apply NoDup_fst_map_to_list. }
  assert (Hs : StronglySorted String.le (sorted_keys t)) by apply (StronglySorted_merge_sort _ _).
  revert Hn. induction Hs as [|k ks Hs IH Hf]; intros Hn; [constructor|].
  apply NoDup_cons in Hn as [Hk Hn]. constructor; [by apply IH|].
  rewrite Forall_forall in Hf |- *. intros x Hx. apply str_lt_le. split; [by apply Hf|]. by intros ->.
Qed.

Lemma elem_sorted_keys t k : k ∈ sorted_keys t <-> is_Some (t_rows t !! k).
Proof.
  unfold sorted_keys, Keys. rewrite !merge_sort_Permutation, list_elem_of_fmap. split.
  - intros ([k' v] & -> & Hk%elem_of_map_to_list). eauto.
  - intros [v Hv]. exists (k, v). split; [done|]. by apply elem_of_map_to_list.
Qed.

(** ** Scans against inserts *)

Section Phantom.
Context {L W : Type} `{LockServiceLaws L} `{WALWriter W}.
Implicit Types m : Mgr L W.

Definition holds_S (l : L) (t : N) (r : ResourceID) : Prop :=
  exists h, lk_held l t !! r = Some h /\ LockStrength LockS <= LockStrength h.

(** A shared or intention request never weakens a lock. *)
Lemma lock_step_holds m t r mode m' o :
  wf_resource r -> lk_inv (m_locks m) -> LockStrength mode <= LockStrength LockS ->
  lock_step m t r mode = (m', o) ->
  lk_inv (m_locks m') /\ m_Catalog m' = m_Catalog m
  /\ (forall r', holds_S (m_locks m) t r' -> holds_S (m_locks m') t r')
  /\ (is_ok o = true -> mode = LockS -> holds_S (m_locks m') t r).
Proof.
  intros Hr HI Hm. unfold lock_step.
  pose proof (lk_acquire_inv (m_locks m) t r mode Hr HI) as HI'.
  pose proof (lk_acquire_frame (m_locks m) t r mode t) as Hf.
  pose proof (lk_acquire_again (m_locks m) t r mode) as Hag.
  pose proof (lk_acquire_ok (m_locks m) t r mode) as Hok.
  destruct (lk_acquire (m_locks m) t r mode) as [l o'] eqn:Ha. intros [= <- <-]. simpl in *.
  split_and!; [done|done| |].
  - intros r' (h & Hh & Hs). destruct (decide (r' = r)) as [->|Hne].
    + destruct (Hag h Hr HI Hh) as [_ Hh']; [lia|]. exists h. done.
    + exists h. rewrite Hf; [done|done|done|by right].
  - intros Ho ->. destruct o' as [u|e]; [|done]. destruct (Hok l u Hr HI eq_refl) as (h & ? & ?). by exists h.
Qed.

(** Steps that only take locks for [t]. *)
Record lock_only (t : N) m m' : Prop := {
  lo_inv : lk_inv (m_locks m');
  lo_others : forall t' r, t' <> t -> lk_held (m_locks m') t' !! r = lk_held (m_locks m) t' !! r;
  lo_X : forall r, lk_held (m_locks m) t !! r = Some LockX -> lk_held (m_locks m') t !! r = Some LockX;
  lo_rest : m' = with_locks m (m_locks m');
}.

Lemma lock_only_refl t m : lk_inv (m_locks m) -> lock_only t m m.
Proof. intros HI. split; try done. by destruct m. Qed.

Lemma lock_only_trans t m1 m2 m3 : lock_only t m1 m2 -> lock_only t m2 m3 -> lock_only t m1 m3.
Proof.
  intros [A1 A2 A3 A4] [B1 B2 B3 B4]. split; [done| |by auto|].
  - intros t' r Ht. by rewrite B2, A2.
  - rewrite B4, A4. done.
Qed.

Lemma lock_only_step m t r mode :
  wf_resource r -> lk_inv (m_locks m) -> lock_only t m (lock_step m t r mode).1.
Proof.
  intros Hr HI. unfold lock_step.
  pose proof (lk_acquire_inv (m_locks m) t r mode Hr HI) as HI'.
  pose proof (lk_acquire_frame (m_locks m) t r mode) as Hf.
  pose proof (acquire_keeps_X (m_locks m) t r mode t) as Hx.
  destruct (lk_acquire (m_locks m) t r mode) as [l o]. simpl in *. split; simpl; try done.
  - intros t' r' Ht. apply Hf; auto.
  - intros r' Hr'. by apply Hx.
Qed.

Definition gap_ok (table : string) (ks : list string) : Prop :=
  char_free ":" table = true /\ forall k, k ∈ ks -> char_free "," k = true.

Lemma wf_gap table lo hi : char_free ":" table = true -> char_free "," lo = true ->
  wf_resource (ResourceForGap table lo hi).
Proof. done. Qed.

Lemma wf_row table key : char_free ":" table = true -> wf_resource (ResourceForRow table key).
Proof. done. Qed.

Lemma wf_table table : char_free ":" table = true -> wf_resource (ResourceForTable table).
Proof. done. Qed.

Lemma scan_lock_loop_holds ks m t table lo hi prev m' p :
  gap_ok table (prev :: ks) -> lk_inv (m_locks m) ->
  scan_lock_loop m t table lo hi prev ks = (m', Ok p) ->
  lk_inv (m_locks m') /\ m_Catalog m' = m_Catalog m /\ p = last_prev lo hi prev ks
  /\ (forall r, holds_S (m_locks m) t r -> holds_S (m_locks m') t r)
  /\ (forall pre k post, ks = pre ++ k :: post -> inRange lo hi k = true ->
        holds_S (m_locks m') t (ResourceForGap table (last_prev lo hi prev pre) k)
        /\ holds_S (m_locks m') t (ResourceForRow table k)).
Proof.
  revert m prev. induction ks as [|k ks IH]; intros m prev [Ht Hc] HI Hl; simpl in Hl.
  { injection Hl as <- <-. split_and!; try done. intros [|? pre] k post; done. }
  assert (Hck : char_free "," k = true) by (apply Hc; right; by left).
  assert (Hcp : char_free "," prev = true) by (apply Hc; by left).
  change (last_prev lo hi prev (k :: ks)) with (last_prev lo hi (step_prev lo hi prev k) ks).
  destruct (inRange lo hi k) eqn:Hr; simpl in Hl.
  - destruct (lock_step m t (ResourceForGap table prev k) LockS) as [m1 [u|e]] eqn:Hst1; [|done].
    apply lock_step_holds in Hst1 as (I1 & C1 & K1 & S1); [|by apply wf_gap|done|done].
    destruct (lock_step m1 t (ResourceForRow table k) LockS) as [m2 [u2|e]] eqn:Hst2; [|done].
    apply lock_step_holds in Hst2 as (I2 & C2 & K2 & S2); [|by apply wf_row|done|done].
    apply IH in Hl as (I3 & C3 & Hp & K3 & S3); [|by split; [done|intros x Hx; apply Hc; by right]|done].
    assert (Hsp : step_prev lo hi prev k = k) by (unfold step_prev; by rewrite Hr).
    rewrite Hsp. split_and!; [done|congruence|done|by auto|].
    intros [|x pre] k' post [= -> He] Hr'.
    + split; [|by apply K3, S2]. apply K3, K2. by apply S1.
    + destruct (S3 pre k' post He Hr') as [G1 G2]. split; [|done].
      change (last_prev lo hi prev (x :: pre)) with (last_prev lo hi (step_prev lo hi prev x) pre).
      by rewrite Hsp.
  - assert (Hsp : step_prev lo hi prev k = (if negb (String.eqb lo "") && String.ltb k lo then k else prev))
      by (unfold step_prev; by rewrite Hr).
    rewrite <-Hsp in Hl. apply IH in Hl as (I3 & C3 & Hp & K3 & S3); [| |done].
    + split_and!; try done. intros [|x pre] k' post [= -> He] Hr'; [congruence|]. by apply (S3 pre k' post He).
    + split; [done|]. intros x [->|Hx]%elem_of_cons; [|apply Hc; right; by right].
      rewrite Hsp. by destruct (_ && _).
Qed.

Lemma scan_lock_loop_only ks m t table lo hi prev :
  gap_ok table (prev :: ks) -> lk_inv (m_locks m) ->
  lock_only t m (scan_lock_loop m t table lo hi prev ks).1.
Proof.
  revert m prev. induction ks as [|k ks IH]; intros m prev [Ht Hc] HI; simpl; [by apply lock_only_refl|].
  destruct (inRange lo hi k); simpl.
  - pose proof (lock_only_step m t (ResourceForGap table prev k) LockS) as F1.
    destruct (lock_step m t (ResourceForGap table prev k) LockS) as [m1 [u|e]]; simpl in F1 |- *;
      [|apply F1; [apply wf_gap; [done|apply Hc; by left]|done]].
    assert (F1' : lock_only t m m1) by (apply F1; [apply wf_gap; [done|apply Hc; by left]|done]).
    pose proof (lock_only_step m1 t (ResourceForRow table k) LockS (wf_row _ _ Ht) (lo_inv _ _ _ F1')) as F2.
    destruct (lock_step m1 t (ResourceForRow table k) LockS) as [m2 [u2|e]]; simpl in F2 |- *;
      [|by eapply lock_only_trans].
    eapply lock_only_trans; [exact F1'|]. eapply lock_only_trans; [exact F2|]. apply IH; [|by eapply lo_inv].
    split; [done|]. intros x Hx. apply Hc. by right.
  - apply IH; [|done]. split; [done|]. intros x [->|Hx]%elem_of_cons; [|apply Hc; right; by right].
    destruct (_ && _); apply Hc; [right|]; by left.
Qed.

Lemma last_prev_free table lo hi ks prev :
  gap_ok table (prev :: ks) -> char_free "," (last_prev lo hi prev ks) = true.
Proof.
  intros [Ht Hk]. revert prev Hk. induction ks as [|k ks IH]; intros prev Hk; [apply Hk; by left|]. simpl.
  apply IH. intros x [->|Hx]%elem_of_cons; [|apply Hk; right; by right]. unfold step_prev.
  destruct (inRange lo hi k); [apply Hk; right; by left|].
  destruct (_ && _); apply Hk; [right|]; by left.
Qed.

Lemma gap_ok_start table ks : gap_ok table ks -> gap_ok table ("" :: ks).
Proof. intros [Ht Hk]. split; [done|]. intros x [->|Hx]%elem_of_cons; [done|by apply Hk]. Qed.

Lemma LockForRangeScan_only m txn table lo hi :
  (forall t, Lookup (m_Catalog m) table = Some t -> gap_ok table (sorted_keys t)) ->
  char_free ":" table = true -> lk_inv (m_locks m) ->
  lock_only (x_ID txn) m (LockForRangeScan m txn table lo hi).1.
Proof.
  intros Hg Ht HI. unfold LockForRangeScan.
  pose proof (lock_only_step m (x_ID txn) (ResourceForTable table) LockIS (wf_table _ Ht) HI) as F1.
  destruct (lock_step m _ _ LockIS) as [m1 [u|e]]; simpl in F1 |- *; [|done].
  assert (Hcat : m_Catalog m1 = m_Catalog m) by (by rewrite (lo_rest _ _ _ F1)).
  rewrite Hcat. destruct (Lookup (m_Catalog m) table) as [t|] eqn:Hl; [|done].
  pose proof (gap_ok_start _ _ (Hg t eq_refl)) as Hgs.
  pose proof (scan_lock_loop_only (sorted_keys t) m1 (x_ID txn) table lo hi "" Hgs (lo_inv _ _ _ F1)) as F2.
  destruct (scan_lock_loop m1 _ _ _ _ _ _) as [m2 [p|e]] eqn:Hs; simpl in F2 |- *;
    [|by eapply lock_only_trans].
  pose proof (lock_only_trans _ _ _ _ F1 F2) as F12. eapply lock_only_trans; [exact F12|].
  apply lock_only_step; [|by eapply lo_inv].
  apply scan_lock_loop_holds in Hs as (_ & _ & -> & _); [|done|by eapply lo_inv].
  apply wf_gap; [done|]. by apply (last_prev_free table).
Qed.

Lemma TwoPLScan_only m txn table fl :
  (forall t, Lookup (m_Catalog m) table = Some t -> gap_ok table (sorted_keys t)) ->
  char_free ":" table = true -> lk_inv (m_locks m) ->
  lock_only (x_ID txn) m (TwoPLScan m txn table fl).1.
Proof.
  intros Hg Ht HI. unfold TwoPLScan.
  assert (F : lock_only (x_ID txn) m (scan_locks m txn table).1).
  { unfold scan_locks. destruct (x_Isolation txn).
    - by apply lock_only_refl.
    - apply lock_only_step; [by apply wf_table|done].
    - apply lock_only_step; [by apply wf_table|done].
    - by apply LockForRangeScan_only. }
  destruct (scan_locks m txn table) as [m1 [u|e]]; simpl in F |- *; [|done]. destruct (Lookup (m_Catalog m1) table); exact F.
Qed.

(** C25. A serializable scan keeps every insert that goes through
    [LockForInsert] out of its range: for a table whose name has no colon
    and whose keys have no comma ([gap_ok]), while the scanning transaction
    keeps the locks of its successful [LockForRangeScan] and the table is
    the one it saw, [LockForInsert] by another transaction fails for every
    missing key of the range. *)
Theorem gap_lock_blocks_insert m txn table lo hi t m1 m2 txn2 key :
  lk_inv (m_locks m) -> Lookup (m_Catalog m) table = Some t -> gap_ok table (sorted_keys t) ->
  LockForRangeScan m txn table lo hi = (m1, Ok tt) ->
  (* a later state *)
  lk_inv (m_locks m2) -> Lookup (m_Catalog m2) table = Some t ->
  (forall r, lk_held (m_locks m2) (x_ID txn) !! r = lk_held (m_locks m1) (x_ID txn) !! r) ->
  x_ID txn2 <> x_ID txn -> t_rows t !! key = None -> inRange lo hi key = true ->
  is_ok (LockForInsert m2 txn2 table key).2 = false.
Proof.
  intros HI Ht [Htab Hcom] Hscan HI2 Ht2 Hheld Hne Hkey Hrange. unfold LockForRangeScan in Hscan.
  destruct (lock_step m (x_ID txn) (ResourceForTable table) LockIS) as [ma [u|e]] eqn:Hst1; [|done].
  apply lock_step_holds in Hst1 as (Ia & Ca & _ & _); [|by apply wf_table|done|by apply Nat.leb_le].
  rewrite Ca, Ht in Hscan.
  destruct (scan_lock_loop ma _ _ _ _ _ _) as [mb [p|e]] eqn:Hst2; [|done].
  apply scan_lock_loop_holds in Hst2 as (Ib & Cb & -> & _ & Sb);
    [|by split; [done|intros x [->|Hx]%elem_of_cons; [done|by apply Hcom]]|done].
  assert (Hlp : char_free "," (last_prev lo hi "" (sorted_keys t)) = true)
    by (apply (last_prev_free table), gap_ok_start; done).
  apply lock_step_holds in Hscan as (I1 & _ & K1 & S1); [|by apply wf_gap|done|done].
  (* the gap of the key is locked *)
  assert (Hnot : key ∉ sorted_keys t).
  { rewrite elem_sorted_keys, Hkey. by intros [? ?]. }
  assert (Hgap : exists h, lk_held (m_locks m2) (x_ID txn) !! 
      ResourceForGap table (gap_of key (sorted_keys t)).1 (gap_of key (sorted_keys t)).2 = Some h
      /\ LockStrength LockS <= LockStrength h).
  { setoid_rewrite Hheld.
    destruct (gap_covered lo hi key _ (sorted_keys_strict t) Hnot Hrange) as [(pre & k & post & He & Hr & ->)| ->];
      simpl; [|by apply S1].
    apply K1. by apply (Sb pre k post). }
  destruct Hgap as (h & Hh & Hs).
  unfold LockForInsert. unfold lock_step at 1.
  pose proof (lk_acquire_inv (m_locks m2) (x_ID txn2) (ResourceForTable table) LockIX (wf_table _ Htab) HI2) as I3.
  pose proof (lk_acquire_frame (m_locks m2) (x_ID txn2) (ResourceForTable table) LockIX (x_ID txn)) as F3.
  destruct (lk_acquire (m_locks m2) _ _ _) as [l3 [u3|e3]]; [|done]. simpl in *. rewrite Ht2.
  destruct (gap_of key (sorted_keys t)) as [prev next] eqn:Hg. simpl in Hh.
  assert (Hpf : char_free "," prev = true).
  { destruct (gap_of_split key _ (sorted_keys_strict t) Hnot) as (pre & post & He & _ & _ & Hg').
    rewrite Hg in Hg'. injection Hg' as -> _. destruct (last pre) as [k|] eqn:Hlast; [|done]. simpl.
    apply Hcom. rewrite He. apply elem_of_app. left. by apply last_Some_elem_of. }
  destruct (negb (isGapSafeKey key)); [done|]. unfold lock_step at 1. simpl.
  pose proof (acquire_X_blocked l3 (x_ID txn) (x_ID txn2) (ResourceForGap table prev next) h) as Hb.
  destruct (lk_acquire l3 _ _ LockX) as [l4 [u4|e4]]; [|done]. simpl in Hb.
  discriminate Hb; [by apply wf_gap|done|done| |].
  - rewrite F3; [done|by apply wf_table|done|by left].
  - intros ->. apply Nat.leb_le in Hs. done.
Qed.
End Phantom.

(** ** Runs *)

Module GapRun.

Definition items : Table := PutRow (PutRow (NewTable "items" []) "01" (Some [IntVal 1])) "05" (Some [IntVal 5]).

Definition start : DemoMgr := boot (lock_init tt) (Register NewCatalog items) 0 None.

(** Two 2PL transactions, 1 and 2, at the level [iso]. *)
Definition both (iso : IsolationLevel) : DemoMgr :=
  (Begin (Begin start Protocol2PL iso).1 Protocol2PL iso).1.

Definition obj (m : DemoMgr) (t : N) : Transaction :=
  default (NewTransaction 0 Protocol2PL Serializable None) (m_objs m !! t).

Definition rows_of (r : DemoMgr * result TxnError (list Row)) : list (string * Values) :=
  match r.2 with Ok rows => (fun r => (row_Key r, row_Values r)) <$> rows | Err _ => [] end.

Definition wrote (m : DemoMgr) (t : N) (key : string) (z : Z) (op : UndoOpType)
    : option (DemoMgr * result TxnError unit) :=
  TwoPLWrite m (obj m t) "items" key (Some [IntVal z]) op.

Definition scan_of (m : DemoMgr) (t : N) : list (string * Values) :=
  rows_of (TwoPLScan m (obj m t) "items" None).

Definition m_ser : DemoMgr := both Serializable.
Definition m_scanned : DemoMgr := (LockForRangeScan m_ser (obj m_ser 1) "items" "01" "09").1.

Lemma items_ok : gap_ok "items" (sorted_keys items).
Proof.
  split; [vm_compute; reflexivity|]. apply Forall_forall.
  replace (sorted_keys items) with ["01"; "05"] by (vm_compute; reflexivity).
  repeat constructor; vm_compute; reflexivity.
Qed.

Lemma m_ser_idle : idle_inv (m_locks m_ser).
Proof.
  split; [|vm_compute; reflexivity]. change (m_locks m_ser) with (lock_init tt). apply lock_init_inv.
Qed.

Lemma gap_lock_blocks_insert_witness :
  is_ok (LockForRangeScan m_ser (obj m_ser 1) "items" "01" "09").2 = true
  /\ is_ok (LockForInsert m_scanned (obj m_ser 2) "items" "03").2 = false.
Proof.
  assert (Hcat : Lookup (m_Catalog m_ser) "items" = Some items) by (vm_compute; reflexivity).
  split; [vm_compute; reflexivity|].
  apply (gap_lock_blocks_insert m_ser (obj m_ser 1) "items" "01" "09" items m_scanned m_scanned
    (obj m_ser 2) "03").
  - exact m_ser_idle.
  - exact Hcat.
  - exact items_ok.
  - unfold m_scanned. rewrite (surjective_pairing (LockForRangeScan _ _ _ _ _)) at 1. by f_equal.
  - apply (LockForRangeScan_only m_ser (obj m_ser 1) "items" "01" "09"); [|vm_compute; reflexivity|exact m_ser_idle].
    intros t Ht. rewrite Hcat in Ht. injection Ht as <-. exact items_ok.
  - vm_compute. reflexivity.
  - reflexivity.
  - vm_compute. discriminate.
  - vm_compute. reflexivity.
  - vm_compute. reflexivity.
Defined.

Definition after (r : option (DemoMgr * result TxnError unit)) : DemoMgr :=
  default start (fst <$> r).
Definition granted (r : option (DemoMgr * result TxnError unit)) : bool :=
  match r with Some (_, Ok _) => true | _ => false end.
Definition scanned (m : DemoMgr) (t : N) : DemoMgr := (TwoPLScan m (obj m t) "items" None).1.

Definition row_in (key : string) (rows : list (string * Values)) : option Values :=
  snd <$> List.find (fun kv => String.eqb kv.1 key) rows.

(** What the locks of [TwoPLScan] let through.
    - Serializable: an insert through [TwoPLWrite], the operation behind the
      HTTP endpoint, asks for no gap lock; once it has committed the second scan has a
      phantom.
    - RepeatableRead: both transactions hold S on the table; the request for
      IX of the writer counts as covered by S, so its uncommitted row is in
      the other's second scan.
    - ReadCommitted: the scan takes no row locks and reads uncommitted rows. *)
Theorem scan_anomalies :
  (let m := scanned (both Serializable) 1 in
   let r := wrote m 2 "03" 3 UndoInsert in
   granted r = true /\ length (scan_of m 1) = 2 /\ length (scan_of (Commit (after r) 2).1 1) = 3)
  /\ (let m := scanned (scanned (both RepeatableRead) 1) 2 in
      let r := wrote m 2 "05" 9 UndoUpdate in
      granted r = true /\ row_in "05" (scan_of m 1) = Some (Some [IntVal 5])
      /\ row_in "05" (scan_of (after r) 1) = Some (Some [IntVal 9]))
  /\ (let r := wrote (both ReadCommitted) 2 "05" 9 UndoUpdate in
      granted r = true /\ row_in "05" (scan_of (after r) 1) = Some (Some [IntVal 9])).
Proof.
  vm_compute. by split_and!.
Qed.
End GapRun.
