(* ===== verification/Txn2pl.v ===== *)
(** * Strict two-phase locking

    The manager's operations, dispatched by protocol as the HTTP handlers
    do, on top of a lock service with the laws of [LockLaws]. A running 2PL
    transaction holds X on every row of its undo log; so no other
    transaction reads or changes such a row, and an abort puts the rows back
    to what they were before the transaction's first write. *)

From Stdlib Require Import ZArith NArith Lia Strings.Byte Ascii String.
From stdpp Require Import base tactics numbers list gmap strings sorting.
From S2P Require Import Prelude Types Lock Acquire Storage Mvcc WalRecord Wal Ssi Txn TxnInv LockLaws GapLock.

Section Strict.
Context {L W : Type} `{LockServiceLaws L} `{WALWriter W}.
Implicit Types m : Mgr L W.

Definition row_of m (table key : string) : option Values :=
  match Lookup (m_Catalog m) table with Some t => t_rows t !! key | None => None end.

Definition undo_res (e : UndoEntry) : ResourceID := ResourceForRow (u_Table e) (u_Key e).

Definition holds_X m (t : N) (r : ResourceID) : Prop := lk_held (m_locks m) t !! r = Some LockX.

(** Whose undo entries count. *)
Definition logged m (t : N) (e : UndoEntry) : Prop :=
  t ∈ m_txns m /\ exists txn, m_objs m !! t = Some txn /\ x_Protocol txn = Protocol2PL /\ e ∈ x_UndoLog txn.

Record pl_inv m : Prop := {
  pi_mgr : mgr_inv m;
  pi_locks : lk_inv (m_locks m);
  pi_logged : forall t e, logged m t e -> holds_X m t (undo_res e) /\ char_free ":" (u_Table e) = true;
}.

(** ** The operations *)

(** A request as the handlers pass it on: the transaction is active and the
    operation is that of its protocol. *)
Definition dispatched m (o : MgrOp) : Prop :=
  match o with
  | OpRead t _ _ | OpScan t _ | OpWrite t _ _ _ _ =>
      exists txn, GetTxn m t = Some txn /\ x_Protocol txn = ProtocolMVCC
  | Op2PLRead t table _ | Op2PLWrite t table _ _ _ =>
      (exists txn, GetTxn m t = Some txn /\ x_Protocol txn = Protocol2PL) /\ char_free ":" table = true
  | OpReset => False
  | _ => True
  end.

(** The transaction an operation is of. *)
Definition op_txn m (o : MgrOp) : N :=
  match o with
  | OpBegin _ _ => (nextTxnID m).2
  | OpCommit t | OpAbort t | OpRead t _ _ | OpScan t _ | OpWrite t _ _ _ _ | Op2PLRead t _ _
  | Op2PLWrite t _ _ _ _ | OpSavepoint t _ | OpRollback t _ | OpReleaseSP t _ => t
  | OpVacuum | OpReset => 0
  end.

Inductive pl_step m : N -> Mgr L W -> Prop :=
| ps_op o m' :
    dispatched m o -> (m_nextID m + 2 < two64)%N -> exec_mgr m o = Some m' -> pl_step m (op_txn m o) m'
| ps_scan t txn table fl :
    GetTxn m t = Some txn -> x_Protocol txn = Protocol2PL -> char_free ":" table = true ->
    (forall tb, Lookup (m_Catalog m) table = Some tb -> gap_ok table (sorted_keys tb)) ->
    pl_step m t (TwoPLScan m txn table fl).1.

Inductive pl_reach : Mgr L W -> Prop :=
| pr_boot locks catalog n w : lk_inv locks -> pl_reach (boot locks catalog n w)
| pr_step m u m' : pl_reach m -> pl_step m u m' -> pl_reach m'.

(** The same object but for fields 2PL does not depend on. *)
Definition same_obj (txn txn' : Transaction) : Prop :=
  x_Protocol txn' = x_Protocol txn /\ (x_Protocol txn = Protocol2PL -> x_UndoLog txn' = x_UndoLog txn).

Definition same_log (o o' : option Transaction) : Prop := option_Forall2 same_obj o o'.

(** What an operation of [u] can do. *)
Record effect (u : N) m m' : Prop := {
  ef_inv : lk_inv (m_locks m');
  ef_others : forall t r, t <> u -> lk_held (m_locks m') t !! r = lk_held (m_locks m) t !! r;
  ef_own : forall r, u ∈ m_txns m' -> holds_X m u r -> holds_X m' u r;
  ef_logged : forall t e, logged m' t e ->
    logged m t e \/ (t = u /\ holds_X m' u (undo_res e) /\ char_free ":" (u_Table e) = true);
  ef_rows : forall table key,
    row_of m' table key = row_of m table key
    \/ holds_X m u (ResourceForRow table key) \/ holds_X m' u (ResourceForRow table key);
  ef_logs : forall t, t <> u -> same_log (m_objs m !! t) (m_objs m' !! t);
  ef_tables : forall table, is_Some (Lookup (m_Catalog m) table) -> is_Some (Lookup (m_Catalog m') table);
}.

(** Steps that leave locks and tables alone and log nothing for 2PL. *)
Definition keeps_logs m m' : Prop := forall t, same_log (m_objs m !! t) (m_objs m' !! t).

Record silent m m' : Prop := {
  si_txns : m_txns m' ⊆ m_txns m;
  si_locks : m_locks m' = m_locks m;
  si_cat : m_Catalog m' = m_Catalog m;
  si_logs : keeps_logs m m';
}.

#[local] Instance same_obj_po : PreOrder same_obj.
Proof.
  split; [done|]. intros x y z [P1 U1] [P2 U2]. split; [congruence|]. intros Hp.
  rewrite U2, U1; [done..|congruence].
Qed.

Lemma keeps_logs_refl m : keeps_logs m m.
Proof. intros t. by apply option_Forall2_refl. Qed.

Lemma keeps_logs_trans m1 m2 m3 : keeps_logs m1 m2 -> keeps_logs m2 m3 -> keeps_logs m1 m3.
Proof.
  intros K1 K2 t. specialize (K1 t). specialize (K2 t).
  inversion K1 as [x y Hxy Ex Ey|Ex Ey]; rewrite <-Ey in K2; inversion K2 as [x' y' Hxy'|]; subst.
  - constructor. by etrans.
  - constructor.
Qed.

Lemma keeps_logs_upd m id f :
  (forall txn, m_objs m !! id = Some txn -> same_obj txn (f txn)) -> keeps_logs m (upd_txn m id f).
Proof.
  intros Hf t. unfold upd_txn. simpl. destruct (decide (t = id)) as [->|Hne].
  - rewrite lookup_alter_eq. destruct (m_objs m !! id) as [txn|]; constructor. by apply Hf.
  - rewrite lookup_alter_ne by done. by apply option_Forall2_refl.
Qed.

Lemma silent_refl m : silent m m.
Proof. split; try done. apply keeps_logs_refl. Qed.

Lemma silent_trans m1 m2 m3 : silent m1 m2 -> silent m2 m3 -> silent m1 m3.
Proof.
  intros [A1 A2 A3 A4] [B1 B2 B3 B4]. split; [set_solver|congruence|congruence|].
  by eapply keeps_logs_trans.
Qed.

Lemma silent_upd m id f :
  (forall txn, x_Protocol (f txn) = x_Protocol txn /\ x_UndoLog (f txn) = x_UndoLog txn) ->
  silent m (upd_txn m id f).
Proof.
  intros Hf. split; try done. apply keeps_logs_upd. intros txn _. destruct (Hf txn) as [? ?]. by split.
Qed.

Lemma silent_fields m m' :
  m_objs m' = m_objs m -> m_txns m' ⊆ m_txns m -> m_locks m' = m_locks m -> m_Catalog m' = m_Catalog m ->
  silent m m'.
Proof. intros E1 E2 E3 E4. split; try done. intros t. rewrite E1. by apply option_Forall2_refl. Qed.

(** An object of the new state is that of the old. *)
Lemma same_log_Some o txn' : same_log o (Some txn') -> exists txn, o = Some txn /\ same_obj txn txn'.
Proof. inversion 1; eauto. Qed.

Lemma same_log_logged m m' t e :
  (t ∈ m_txns m' -> t ∈ m_txns m) -> same_log (m_objs m !! t) (m_objs m' !! t) -> logged m' t e -> logged m t e.
Proof.
  intros Ht Hl [Hin (txn' & Hx & Hp & He)]. rewrite Hx in Hl.
  apply same_log_Some in Hl as (txn & Hx0 & Hpr & Hu). split; [by apply Ht|]. exists txn.
  split_and!; [done|congruence|]. rewrite <-Hu; [done|congruence].
Qed.

Lemma silent_effect u m m' : lk_inv (m_locks m) -> silent m m' -> effect u m m'.
Proof.
  intros HI [S1 S2 S3 S4]. split; unfold holds_X; rewrite ?S2; try done.
  - intros t e Hl. left. eapply same_log_logged; [|apply S4|exact Hl]. apply S1.
  - intros table key. left. unfold row_of. by rewrite S3.
  - by rewrite S3.
Qed.

(** ** The pieces of the operations *)

Lemma silent_log_begin m id : silent m (log_begin m id).
Proof.
  unfold log_begin. destruct (m_WAL m) as [w|]; [|apply silent_refl].
  destruct (wal_Begin w id) as [w' [lsn|e]]; [|by apply silent_fields].
  eapply silent_trans; [|by apply silent_upd]. by apply silent_fields.
Qed.

Lemma silent_log_write m id op table key b a m' lsn :
  log_write m id op table key b a = Some (m', lsn) -> silent m m'.
Proof.
  unfold log_write. destruct (m_WAL m) as [w|]; [|intros [= <- _]; apply silent_refl].
  destruct b as [b|], a as [a|]; try done.
  destruct (wal_Write w id _ _ _ _ _ _) as [w' [l|e]]; intros [= <- _]; [|by apply silent_fields].
  eapply silent_trans; [|by apply silent_upd]. by apply silent_fields.
Qed.

Lemma silent_log_commit m id last m' e : log_commit m id last = (m', e) -> silent m m'.
Proof.
  unfold log_commit. destruct (m_WAL m) as [w|]; [|intros [= <- _]; apply silent_refl].
  destruct (wal_Commit w id last) as [w' [l|e']]; [destruct (wal_Flush w' l)|];
    intros [= <- _]; by apply silent_fields.
Qed.

Lemma silent_ssi_read m txn key : silent m (ssi_record_read m txn key).
Proof.
  unfold ssi_record_read. case_bool_decide; [|apply silent_refl].
  eapply silent_trans; [|by apply silent_upd]. by apply silent_fields.
Qed.

Lemma silent_ssi_write m txn key : silent m (ssi_record_write m txn key).
Proof.
  unfold ssi_record_write. case_bool_decide; [|apply silent_refl].
  destruct (RecordWrite _ _ _ _) as [s fl].
  assert (Hfold : forall m, silent m (fold_left (fun m r => upd_txn m r SetInConflict) fl m)).
  { clear. induction fl as [|r fl IH]; intros m; simpl; [apply silent_refl|].
    apply (silent_trans _ (upd_txn m r SetInConflict)); [by apply silent_upd|apply IH]. }
  eapply silent_trans; [by apply (silent_fields m (with_SSI m s))|].
  eapply silent_trans; [apply Hfold|]. case_bool_decide; [apply silent_refl|by apply silent_upd].
Qed.

Lemma silent_getSnapshot m id txn : silent m (getSnapshot m id txn).1.
Proof.
  unfold getSnapshot. case_bool_decide; [by apply silent_upd|].
  destruct (x_Snapshot txn); [apply silent_refl|by apply silent_upd].
Qed.

(** An undo entry of an MVCC transaction. *)
Definition is_mvcc m (t : N) : Prop :=
  forall txn, m_objs m !! t = Some txn -> x_Protocol txn = ProtocolMVCC.

Lemma silent_mvcc m m' t : silent m m' -> is_mvcc m t -> is_mvcc m' t.
Proof.
  intros S Hm txn' Ht. pose proof (si_logs _ _ S t) as Hl. rewrite Ht in Hl.
  apply same_log_Some in Hl as (txn & Hx & -> & _). by apply Hm.
Qed.

Lemma silent_append_undo m t op table key before lsn :
  is_mvcc m t -> silent m (append_undo m t op table key before lsn).
Proof.
  intros Hm. split; try done. apply keeps_logs_upd. intros txn Ht. split; [done|].
  intros Hp. apply Hm in Ht. congruence.
Qed.

Lemma silent_mvcc_apply m t s c table key v op m' r :
  is_mvcc m t -> mvcc_apply m t s c table key v op = Some (m', r) -> silent m m'.
Proof.
  intros Hm. unfold mvcc_apply. intros He.
  assert (Hau : forall m2 op before lsn, silent m m2 -> silent m (append_undo m2 t op table key before lsn)).
  { intros m2 op' b l S. eapply silent_trans; [exact S|]. apply silent_append_undo. by eapply silent_mvcc. }
  destruct op; repeat case_match; simplify_eq; try apply silent_refl; apply Hau; by eapply silent_log_write.
Qed.

Lemma silent_MVCCRead m t table key : silent m (MVCCRead m t table key).1.
Proof.
  unfold MVCCRead. destruct (m_objs m !! t) as [txn|]; [|apply silent_refl].
  destruct (negb _); [apply silent_refl|].
  pose proof (silent_getSnapshot m t txn) as S. destruct (getSnapshot m t txn) as [m1 s]. simpl in S.
  destruct (GetChain _ _ _) as [c|]; [|done]. destruct (FindVisible _ _) as [v|]; [|done]. simpl.
  eapply silent_trans; [exact S|]. eapply silent_trans; [apply silent_ssi_read|]. by apply silent_upd.
Qed.

Lemma silent_MVCCScan m t table fl : silent m (MVCCScan m t table fl).1.
Proof.
  unfold MVCCScan. destruct (m_objs m !! t) as [txn|]; [|apply silent_refl].
  destruct (negb _); [apply silent_refl|].
  pose proof (silent_getSnapshot m t txn) as S. destruct (getSnapshot m t txn) as [m1 s]. simpl in S.
  assert (Hfold : forall kcs m rows, silent m (fold_left (scan_chain txn s table fl) kcs (m, rows)).1).
  { clear. induction kcs as [|[k c] kcs IH]; intros m rows; simpl; [apply silent_refl|].
    destruct (FindVisible _ _) as [v|]; [|apply IH]. eapply silent_trans; [|apply IH]. apply silent_ssi_read. }
  specialize (Hfold (ForEachChainInTable (m_MVCCStore m1) table) m1 []).
  destruct (fold_left _ _ _) as [m2 rows]. simpl in *. by eapply silent_trans.
Qed.

Lemma silent_MVCCWrite m t table key v op m' r :
  is_mvcc m t -> MVCCWrite m t table key v op = Some (m', r) -> silent m m'.
Proof.
  intros Hm. unfold MVCCWrite. destruct (m_objs m !! t) as [txn|];
    [|intros [= <- _]; apply silent_refl].
  destruct (negb _); [intros [= <- _]; apply silent_refl|].
  pose proof (silent_getSnapshot m t txn) as S. destruct (getSnapshot m t txn) as [m1 s]. simpl in S.
  destruct (GetOrCreateChain _ _ _) as [st c].
  assert (S1 : silent m (with_MVCCStore m1 st))
    by (eapply silent_trans; [exact S|]; by apply silent_fields).
  destruct (CheckWriteConflict _ _ _ _); [by intros [= <- _]|].
  destruct (mvcc_apply _ _ _ _ _ _ _ _) as [[m2 [c'|e]]|] eqn:Ha; [| |done]; intros [= <- _];
    (apply silent_mvcc_apply in Ha; [|by eapply silent_mvcc]).
  - eapply silent_trans; [exact S1|]. eapply silent_trans; [exact Ha|].
    apply (silent_trans _ (with_MVCCStore m2 (set_chain (m_MVCCStore m2) table key c')));
      [by apply silent_fields|].
    eapply silent_trans; [apply silent_ssi_write|]. by apply silent_upd.
  - by eapply silent_trans.
Qed.

(** ** Undo *)

Lemma undo_catalog_row c e table key :
  (u_Table e, u_Key e) <> (table, key) ->
  (match Lookup (undo_catalog c e) table with Some t => t_rows t !! key | None => None end)
  = (match Lookup c table with Some t => t_rows t !! key | None => None end).
Proof.
  intros Hne. unfold undo_catalog, Lookup. destruct (c !! u_Table e) as [tb|] eqn:Hl; [|done].
  assert (Hput : forall tb', (u_Table e = table -> t_rows tb' !! key = t_rows tb !! key) ->
    (match <[u_Table e := tb']> c !! table with Some t => t_rows t !! key | None => None end)
    = (match c !! table with Some t => t_rows t !! key | None => None end)).
  { intros tb' Hk. rewrite lookup_insert. case_decide as Ht; [|done]. rewrite <-Ht, Hl. by apply Hk. }
  destruct (u_Op e); [apply Hput|destruct (u_BeforeImage e); [apply Hput|done]
    |destruct (u_BeforeImage e); [apply Hput|done]]; intros <-.
  - rewrite t_rows_DeleteRow, lookup_delete_ne by congruence. done.
  - simpl. by rewrite lookup_insert_ne by congruence.
  - simpl. by rewrite lookup_insert_ne by congruence.
Qed.

(** [undo_loop] changes the log and the rows of its entries only. *)
Lemma undo_loop_spec id es clr m :
  let m' := (undo_loop id es clr m).1 in
  m_objs m' = m_objs m /\ m_txns m' = m_txns m /\ m_locks m' = m_locks m
  /\ m_Catalog m' = fold_left undo_catalog es (m_Catalog m).
Proof.
  revert clr m. induction es as [|e es IH]; intros clr m; cbn [undo_loop]; [done|].
  match goal with |- context [let '(_, _) := ?x in _] => destruct x as [m1 clr1] eqn:E end.
  assert (E1 : m_objs m1 = m_objs m /\ m_txns m1 = m_txns m /\ m_locks m1 = m_locks m
               /\ m_Catalog m1 = m_Catalog m).
  { destruct (m_WAL m) as [w|]; [|by injection E as <- _]. destruct (_ && _); [|by injection E as <- _].
    destruct (wal_CLR _ _ _ _). by injection E as <- _. }
  destruct E1 as (E1 & E2 & E3 & E4).
  destruct (IH clr1 (with_Catalog m1 (undo_catalog (m_Catalog m1) e))) as (I1 & I2 & I3 & I4).
  simpl in *. by rewrite I1, I2, I3, I4, E1, E2, E3, E4.
Qed.

Lemma undo_fold_row es c table key :
  (forall e, e ∈ es -> (u_Table e, u_Key e) <> (table, key)) ->
  (match Lookup (fold_left undo_catalog es c) table with Some t => t_rows t !! key | None => None end)
  = (match Lookup c table with Some t => t_rows t !! key | None => None end).
Proof.
  revert c. induction es as [|e es IH]; intros c Hn; simpl; [done|].
  rewrite IH by (intros x Hx; apply Hn; by right). apply undo_catalog_row. apply Hn. by left.
Qed.

Lemma undo_fold_tables es c table :
  is_Some (Lookup c table) -> is_Some (Lookup (fold_left undo_catalog es c) table).
Proof.
  revert c. induction es as [|e es IH]; intros c Ht; simpl; [done|]. apply IH. unfold undo_catalog, Lookup in *.
  destruct (c !! u_Table e); [|done]. destruct (u_Op e); [|destruct (u_BeforeImage e); [|done]..];
    rewrite lookup_insert; by case_decide.
Qed.

(** ** Composing effects *)

Lemma silent_row m m' table key : silent m m' -> row_of m' table key = row_of m table key.
Proof. intros S. unfold row_of. by rewrite (si_cat _ _ S). Qed.

Lemma silent_X m m' t r : silent m m' -> holds_X m' t r <-> holds_X m t r.
Proof. intros S. unfold holds_X. by rewrite (si_locks _ _ S). Qed.

Lemma silent_logged m m' t e : silent m m' -> logged m' t e -> logged m t e.
Proof.
  intros S. apply same_log_logged; [apply (si_txns _ _ S)|apply (si_logs _ _ S)].
Qed.

Lemma same_log_trans o1 o2 o3 : same_log o1 o2 -> same_log o2 o3 -> same_log o1 o3.
Proof.
  intros K1 K2. inversion K1; subst; inversion K2; subst; constructor. by etrans.
Qed.

Lemma effect_silent u m m1 m2 : effect u m m1 -> silent m1 m2 -> effect u m m2.
Proof.
  intros [E1 E2 E3 E4 E5 E6 E7] S. split.
  - by rewrite (si_locks _ _ S).
  - intros t r Ht. rewrite (si_locks _ _ S). by apply E2.
  - intros r Hin Hx. rewrite (silent_X _ _ _ _ S). apply E3; [|done]. by apply (si_txns _ _ S).
  - intros t e Hl%(silent_logged _ _ _ _ S). rewrite (silent_X _ _ _ _ S). by apply E4.
  - intros table key. rewrite (silent_row _ _ _ _ S), (silent_X _ _ _ _ S). apply E5.
  - intros t Ht. eapply same_log_trans; [by apply E6|apply (si_logs _ _ S)].
  - rewrite (si_cat _ _ S). exact E7.
Qed.

Lemma silent_then_effect u m m1 m2 : silent m m1 -> effect u m1 m2 -> effect u m m2.
Proof.
  intros S [E1 E2 E3 E4 E5 E6 E7]. split; [done|..].
  - intros t r Ht. rewrite E2 by done. by rewrite (si_locks _ _ S).
  - intros r Hin Hx. apply E3; [done|]. by rewrite (silent_X _ _ _ _ S).
  - intros t e Hl. destruct (E4 t e Hl) as [Hl'|?]; [left|by right]. by eapply silent_logged.
  - intros table key. rewrite <-(silent_row _ _ _ _ S), <-(silent_X _ _ _ _ S). apply E5.
  - intros t Ht. eapply same_log_trans; [apply (si_logs _ _ S)|by apply E6].
  - rewrite <-(si_cat _ _ S). exact E7.
Qed.

Lemma lock_only_effect u m m' : lock_only u m m' -> effect u m m'.
Proof.
  intros [O1 O2 O3 O4]. split; try done.
  - intros r _. apply O3.
  - intros t e Hl. left. rewrite O4 in Hl. exact Hl.
  - intros table key. left. rewrite O4. done.
  - intros t _. rewrite O4. by apply option_Forall2_refl.
  - rewrite O4. done.
Qed.

Lemma lock_only_then u m m1 m2 :
  lock_only u m m1 -> effect u m1 m2 -> u ∈ m_txns m2 -> effect u m m2.
Proof.
  intros [O1 O2 O3 O4] [E1 E2 E3 E4 E5 E6 E7] Hu. split; [done|..].
  - intros t r Ht. by rewrite E2, O2.
  - intros r _ Hx. apply E3; [done|]. by apply O3.
  - intros t e Hl. destruct (E4 t e Hl) as [Hl'|?]; [left|by right]. rewrite O4 in Hl'. exact Hl'.
  - intros table key. assert (Hr : row_of m1 table key = row_of m table key) by (rewrite O4; done).
    rewrite <-Hr. destruct (E5 table key) as [?|[Hx|?]]; [by left| |by right; right].
    right. right. by apply E3.
  - intros t Ht. specialize (E6 t Ht). rewrite O4 in E6. exact E6.
  - intros table Ht. apply E7. rewrite O4. exact Ht.
Qed.

Lemma effect_release u m : lk_inv (m_locks m) -> u ∉ m_txns m ->
  effect u m (with_locks m (lk_release_all (m_locks m) u)).
Proof.
  intros HI Hu. split; simpl; [by apply lk_release_inv|..].
  - intros t r Ht. by rewrite lk_release_frame.
  - intros r Hin. done.
  - intros t e Hl. left. exact Hl.
  - intros table key. by left.
  - intros t _. by apply option_Forall2_refl.
  - done.
Qed.

(** Undoing a log whose rows the transaction holds. *)
Lemma undo_effect_rows id es clr m u table key :
  (forall e, e ∈ es -> holds_X m u (undo_res e)) ->
  row_of (undo_loop id es clr m).1 table key = row_of m table key \/ holds_X m u (ResourceForRow table key).
Proof.
  intros Hx. destruct (undo_loop_spec id es clr m) as (_ & _ & _ & Hc).
  destruct (decide (Exists (fun e => (u_Table e, u_Key e) = (table, key)) es)) as [He|He].
  - right. apply Exists_exists in He as (e & Hin & [= <- <-]). by apply Hx.
  - left. unfold row_of. rewrite Hc. apply undo_fold_row. intros e Hin Heq. apply He.
    apply Exists_exists. eauto.
Qed.

Lemma undo_release_effect u es clr m :
  lk_inv (m_locks m) -> u ∉ m_txns m -> (forall e, e ∈ es -> holds_X m u (undo_res e)) ->
  let m1 := (undo_loop u es clr m).1 in effect u m (with_locks m1 (lk_release_all (m_locks m1) u)).
Proof.
  intros HI Hu Hx m1. destruct (undo_loop_spec u es clr m) as (E1 & E2 & E3 & E4). fold m1 in E1, E2, E3, E4.
  split; simpl; rewrite ?E3.
  - by apply lk_release_inv.
  - intros t r Ht. by rewrite lk_release_frame.
  - intros r. by rewrite E2.
  - intros t e [Hin (txn & Ht & ?)]. left. simpl in *. rewrite E2 in Hin. rewrite E1 in Ht. split; eauto.
  - intros table key. destruct (undo_effect_rows u es clr m u table key Hx) as [Hr|Hr]; [by left|].
    right. by left.
  - intros t _. rewrite E1. by apply option_Forall2_refl.
  - rewrite E4. apply undo_fold_tables.
Qed.

(** ** The operations *)

Lemma effect_Begin m p iso : lk_inv (m_locks m) -> mgr_inv m -> (m_nextID m + 2 < two64)%N ->
  effect (nextTxnID m).2 m (Begin m p iso).1.
Proof.
  intros HI HM Hn. unfold Begin. destruct (at_capacity m); [by apply silent_effect, silent_refl|].
  unfold nextTxnID. rewrite u64_add_small by lia. set (id := (m_nextID m + 1)%N). simpl.
  eapply effect_silent; [|apply silent_log_begin]. split; try done.
  - intros t e [Hin (txn & Ht & Hp & He)]. simpl in Hin, Ht.
    apply lookup_insert_Some in Ht as [[<- <-]|[Hne Ht]]; [by apply not_elem_of_nil in He|].
    left. split; [set_solver|eauto].
  - intros table key. by left.
  - intros t Ht. simpl. rewrite lookup_insert_ne by done. by apply option_Forall2_refl.
Qed.

Lemma logged_undo m t txn e :
  GetTxn m t = Some txn -> x_Protocol txn = Protocol2PL -> e ∈ x_UndoLog txn -> logged m t e.
Proof. intros [Hin Ht]%GetTxn_active Hp He. split; eauto. Qed.

Lemma silent_finish_commit m t : silent m (finish_commit m t).
Proof.
  apply (silent_trans _ (upd_txn m t (set_x_Status TxnCommitted))); [by apply silent_upd|].
  apply silent_fields; try done. simpl. set_solver.
Qed.

Lemma silent_finish_abort m t : silent m (finish_abort m t).
Proof.
  apply (silent_trans _ (upd_txn m t (set_x_Status TxnAborted))); [by apply silent_upd|].
  apply silent_fields; try done. simpl. set_solver.
Qed.

Lemma silent_ssi_if (b : bool) m s : silent m (if b then with_SSI m s else m).
Proof. destruct b; [by apply silent_fields|apply silent_refl]. Qed.

Lemma effect_Commit m t : lk_inv (m_locks m) -> effect t m (Commit m t).1.
Proof.
  intros HI. unfold Commit. destruct (GetTxn m t) as [txn|] eqn:Hg.
  2: { repeat case_bool_decide; apply silent_effect; done || apply silent_refl. }
  destruct (x_Status txn); [|by apply silent_effect, silent_refl..].
  destruct (_ && _).
  { apply silent_effect; [done|]. simpl. eapply silent_trans; [apply silent_finish_abort|].
    eapply silent_trans; [by apply (silent_upd _ t closeAbort)|]. by apply silent_fields. }
  destruct (log_commit m t (x_LastWALLSN txn)) as [m1 [e|]] eqn:Hl; apply silent_log_commit in Hl.
  { by apply silent_effect. }
  simpl. set (m2 := if ssi_enabled txn then _ else _).
  assert (S2 : silent m m2).
  { eapply silent_trans; [exact Hl|]. eapply silent_trans; [apply silent_finish_commit|]. apply silent_ssi_if. }
  assert (Hu : t ∉ m_txns m2).
  { unfold m2. destruct (ssi_enabled txn); simpl; set_solver. }
  case_bool_decide; [|by apply silent_effect].
  eapply silent_then_effect; [exact S2|]. apply effect_release; [by rewrite (si_locks _ _ S2)|done].
Qed.

Lemma effect_Abort m t : pl_inv m -> effect t m (Abort m t).1.
Proof.
  intros [HM HI Hlog]. unfold Abort. destruct (GetTxn m t) as [txn|] eqn:Hg.
  2: { repeat case_bool_decide; apply silent_effect; done || apply silent_refl. }
  destruct (x_Status txn); [|by apply silent_effect, silent_refl..].
  set (m1 := upd_txn (finish_abort m t) t closeAbort).
  assert (S1 : silent m m1).
  { eapply silent_trans; [apply silent_finish_abort|]. by apply (silent_upd _ t closeAbort). }
  assert (Hid : x_ID txn = t).
  { apply GetTxn_active in Hg as [_ Ht]. by apply (mi_id _ HM). }
  assert (Et : effect t m (teardown m1 txn).1).
  { eapply silent_then_effect; [exact S1|]. unfold teardown. destruct (x_Protocol txn) eqn:Hp.
    - unfold applyUndoLog, applyUndoEntries. rewrite Hid.
      pose proof (undo_release_effect t (rev (x_UndoLog txn)) LSNInvalid m1) as Hu.
      destruct (undo_loop t _ _ m1) as [m2 clr]. simpl in *. apply Hu.
      + exact HI.
      + simpl. set_solver.
      + intros e He. rewrite (silent_X _ _ _ _ S1). apply Hlog.
        apply (logged_undo m t txn); [done|done|]. apply list_elem_of_In, in_rev. by apply list_elem_of_In.
    - apply silent_effect; [by rewrite (si_locks _ _ S1)|]. by apply silent_fields. }
  destruct (teardown m1 txn) as [m2 clr]. simpl in *.
  eapply effect_silent; [|apply silent_ssi_if]. eapply effect_silent; [exact Et|].
  unfold log_abort. destruct (m_WAL m2); [by apply silent_fields|apply silent_refl].
Qed.

Lemma effect_Rollback m t name : pl_inv m -> effect t m (RollbackToSavepoint m t name).1.
Proof.
  intros [HM HI Hlog]. unfold RollbackToSavepoint.
  destruct (GetTxn m t) as [txn|] eqn:Hg; [|by apply silent_effect, silent_refl].
  destruct (List.find _ _) as [sp|]; [|by apply silent_effect, silent_refl].
  pose proof (GetTxn_active _ _ _ Hg) as [Hin Ht]. simpl.
  assert (Htr : forall e, e ∈ TruncateTo (x_UndoLog txn) (sp_UndoPosition sp) -> e ∈ x_UndoLog txn).
  { intros e. unfold TruncateTo. destruct (_ <? _); [|done]. intros He. apply list_elem_of_lookup in He as [i Hi]. apply lookup_take_Some in Hi as [Hi _].
    by eapply list_elem_of_lookup_2. }
  set (es := EntriesFrom (x_UndoLog txn) (sp_UndoPosition sp)).
  assert (Hes : forall e, e ∈ rev es -> e ∈ x_UndoLog txn).
  { intros e He. apply list_elem_of_In, in_rev, list_elem_of_In in He. unfold es, EntriesFrom in He.
    destruct (_ <=? _); [by apply not_elem_of_nil in He|].
    apply list_elem_of_lookup in He as [i Hi]. rewrite lookup_drop in Hi. by eapply list_elem_of_lookup_2. }
  case_bool_decide as Hp.
  2: { apply silent_effect; [done|]. split; try done. apply keeps_logs_upd.
       intros txn' Ht'. simplify_eq. by split. }
  unfold applyUndoEntries. pose proof (undo_loop_spec t (rev es) LSNInvalid m) as (E1 & E2 & E3 & E4).
  pose proof (fun tb k => undo_effect_rows t (rev es) LSNInvalid m t tb k) as Hrow.
  destruct (undo_loop t (rev es) LSNInvalid m) as [m1 clr]. simpl in *.
  split; simpl; unfold holds_X; simpl; rewrite ?E3; try done.
  - intros t' e [Hin' (txn' & Ht' & Hp' & He)]. left. simpl in *. rewrite E2 in Hin'. split; [done|].
    unfold upd_txn in Ht'. simpl in Ht'. rewrite E1 in Ht'. destruct (decide (t' = t)) as [->|Hne].
    + rewrite lookup_alter_eq, Ht in Ht'. injection Ht' as <-. simpl in *. exists txn. auto.
    + rewrite lookup_alter_ne in Ht' by done. eauto.
  - intros table key. destruct (Hrow table key) as [?|?]; [|by left|right; by left].
    intros e He. apply Hlog. by apply (logged_undo m t txn); [| |apply Hes].
  - intros t' Ht'. rewrite E1, lookup_alter_ne by done. by apply option_Forall2_refl.
  - rewrite E4. apply undo_fold_tables.
Qed.

Lemma TwoPLRead_only m txn table key :
  char_free ":" table = true -> lk_inv (m_locks m) -> lock_only (x_ID txn) m (TwoPLRead m txn table key).1.
Proof.
  intros Ht HI. unfold TwoPLRead. cbv zeta. case_bool_decide.
  { destruct (Lookup _ _); by apply lock_only_refl. }
  pose proof (lock_only_step m (x_ID txn) (ResourceForTable table) LockIS (wf_table _ Ht) HI) as F1.
  unfold lock_step in F1. destruct (lk_acquire (m_locks m) _ _ _) as [l1 [u|e]]; [|done]. simpl in F1.
  pose proof (lock_only_step (with_locks m l1) (x_ID txn) (ResourceForRow table key) LockS
    (wf_row _ _ Ht) (lo_inv _ _ _ F1)) as F2.
  unfold lock_step in F2. destruct (lk_acquire (m_locks (with_locks m l1)) _ _ _) as [l2 [u2|e]]; simpl in F2;
    [|by eapply lock_only_trans].
  pose proof (lock_only_trans _ _ _ _ F1 F2) as F. destruct (Lookup _ _); exact F.
Qed.

(** The table with the written row. *)
Definition put_op (t : Table) (key : string) (values : Values) (op : UndoOpType) : Table :=
  match op with
  | UndoInsert | UndoUpdate => PutRow t key values
  | UndoDelete => (DeleteRow t key).1
  end.

Lemma put_op_rows t key values op key' :
  key' <> key -> t_rows (put_op t key values op) !! key' = t_rows t !! key'.
Proof.
  intros Hne. destruct op; simpl; rewrite ?t_rows_DeleteRow; by rewrite ?lookup_insert_ne, ?lookup_delete_ne.
Qed.

(** A 2PL write: it fails after at most two lock requests, or the row is
    locked, logged and written. *)
Lemma TwoPLWrite_shape m txn table key values op m' r :
  char_free ":" table = true -> lk_inv (m_locks m) ->
  TwoPLWrite m txn table key values op = Some (m', r) ->
  (lock_only (x_ID txn) m m' /\ is_ok r = false)
  \/ exists m2 m3 t lsn,
       lock_only (x_ID txn) m m2 /\ holds_X m2 (x_ID txn) (ResourceForRow table key)
       /\ Lookup (m_Catalog m2) table = Some t /\ silent m2 m3
       /\ m' = upd_txn (with_Catalog (append_undo m3 (x_ID txn) op table key (GetRow t key).1 lsn)
                          (<[table := put_op t key values op]> (m_Catalog m3))) (x_ID txn) (addWrite key)
       /\ r = Ok tt.
Proof.
  intros Ht HI. unfold TwoPLWrite.
  pose proof (lock_only_step m (x_ID txn) (ResourceForTable table) LockIX (wf_table _ Ht) HI) as F1.
  unfold lock_step in F1. destruct (lk_acquire (m_locks m) _ _ _) as [l1 [u|e]]; simpl in F1;
    [|intros [= <- <-]; by left].
  pose proof (lock_only_step (with_locks m l1) (x_ID txn) (ResourceForRow table key) LockX
    (wf_row _ _ Ht) (lo_inv _ _ _ F1)) as F2.
  pose proof (lk_acquire_ok l1 (x_ID txn) (ResourceForRow table key) LockX) as Hok.
  unfold lock_step in F2. simpl in F2. simpl m_locks.
  destruct (lk_acquire l1 _ _ LockX) as [l2 [u2|e]]; simpl in F2;
    [|intros [= <- <-]; left; split; [by eapply lock_only_trans|done]].
  pose proof (lock_only_trans _ _ _ _ F1 F2) as F.
  assert (Hx : lk_held l2 (x_ID txn) !! ResourceForRow table key = Some LockX).
  { destruct (Hok l2 u2 (wf_row _ _ Ht) (lo_inv _ _ _ F1) eq_refl) as (h & Hh & Hs).
    apply Nat.leb_le in Hs. by destruct h. }
  destruct (Lookup _ _) as [t|] eqn:Hl; [|intros [= <- <-]; by left].
  destruct (log_write _ _ _ _ _ _ _) as [[m3 lsn]|] eqn:Hw; [|done].
  apply silent_log_write in Hw. pose proof (si_cat _ _ Hw) as Hc.
  intros [= <- <-]. right. exists (with_locks (with_locks m l1) l2), m3, t, lsn. by split_and!.
Qed.

Lemma effect_written u m3 table key t values op before lsn :
  lk_inv (m_locks m3) -> holds_X m3 u (ResourceForRow table key) -> char_free ":" table = true ->
  Lookup (m_Catalog m3) table = Some t ->
  effect u m3 (upd_txn (with_Catalog (append_undo m3 u op table key before lsn)
                 (<[table := put_op t key values op]> (m_Catalog m3))) u (addWrite key)).
Proof.
  intros HI Hx Ht Hl. split; try done.
  - intros t' e [Hin (txn' & Ht' & Hp & He)]. simpl in *. destruct (decide (t' = u)) as [->|Hne].
    + rewrite !lookup_alter_eq in Ht'. destruct (m_objs m3 !! u) as [txn|] eqn:Hu; [|done].
      injection Ht' as <-. simpl in *. apply elem_of_app in He as [He| ->%list_elem_of_singleton].
      * left. split; [done|eauto].
      * right. done.
    + rewrite !lookup_alter_ne in Ht' by done. left. split; [done|eauto].
  - intros table' key'. destruct (decide (table' = table /\ key' = key)) as [[-> ->]|Hne]; [by right; left|].
    left. unfold row_of, Lookup in *. simpl. rewrite lookup_insert. case_decide as Htt; [subst table'|done].
    rewrite Hl. apply put_op_rows. intros ->. by apply Hne.
  - intros t' Ht'. simpl. rewrite !lookup_alter_ne by done. by apply option_Forall2_refl.
  - intros table' Ht'. unfold Lookup in *. simpl. rewrite lookup_insert. by case_decide.
Qed.

Lemma effect_TwoPLWrite m txn table key values op m' r :
  char_free ":" table = true -> pl_inv m -> GetTxn m (x_ID txn) = Some txn ->
  TwoPLWrite m txn table key values op = Some (m', r) -> effect (x_ID txn) m m'.
Proof.
  intros Ht [HM HI _] Hg Hw. pose proof (frame_TwoPLWrite _ _ _ _ _ _ _ _ Hw) as Hfr.
  apply TwoPLWrite_shape in Hw as [[F _]|(m2 & m3 & t & lsn & F & Hx & Hl & S & -> & _)];
    [by apply lock_only_effect| |done|done].
  pose proof (GetTxn_active _ _ _ Hg) as [Hin _].
  eapply lock_only_then; [exact F| |by rewrite (fr_txns _ _ Hfr)].
  eapply silent_then_effect; [exact S|]. apply effect_written.
  - rewrite (si_locks _ _ S). by eapply lo_inv.
  - by rewrite (silent_X _ _ _ _ S).
  - done.
  - by rewrite (si_cat _ _ S).
Qed.

(** Every step has its effect. *)
Lemma pl_step_effect m u m' : pl_inv m -> pl_step m u m' -> effect u m m'.
Proof.
  intros HP Hs. pose proof HP as [HM HI _]. destruct Hs as [o m' Hd Hn He|t txn table fl Hg Hp Ht Hk].
  - destruct o as [p iso|t|t|t table key|t table|t table key v op|t table key|t table key v op
      |t name|t name|t name| |]; simpl in He, Hd |- *.
    + injection He as <-. by apply effect_Begin.
    + injection He as <-. by apply effect_Commit.
    + injection He as <-. by apply effect_Abort.
    + injection He as <-. apply silent_effect; [done|apply silent_MVCCRead].
    + injection He as <-. apply silent_effect; [done|apply silent_MVCCScan].
    + destruct (MVCCWrite m t table key v op) as [[m1 r]|] eqn:Hw; [|done]. injection He as <-.
      apply silent_effect; [done|]. eapply silent_MVCCWrite; [|exact Hw].
      destruct Hd as (txn & [_ Hx]%GetTxn_active & Hp). intros txn' Hx'. congruence.
    + destruct Hd as [(txn & Hg & Hp) Ht]. pose proof (GetTxn_active _ _ _ Hg) as [_ Hx].
      rewrite Hx in He. injection He as <-. rewrite <-(mi_id _ HM _ _ Hx) at 1.
      apply lock_only_effect. by apply TwoPLRead_only.
    + destruct Hd as [(txn & Hg & Hp) Ht]. pose proof (GetTxn_active _ _ _ Hg) as [_ Hx].
      rewrite Hx in He. destruct (TwoPLWrite m txn table key v op) as [[m1 r]|] eqn:Hw; [|done].
      injection He as <-. pose proof (mi_id _ HM _ _ Hx) as Hid. rewrite <-Hid.
      eapply effect_TwoPLWrite; [done|done| |exact Hw]. by rewrite Hid.
    + injection He as <-. apply silent_effect; [done|]. unfold CreateSavepoint.
      destruct (GetTxn m t); [by apply silent_upd|apply silent_refl].
    + injection He as <-. by apply effect_Rollback.
    + injection He as <-. apply silent_effect; [done|]. unfold ReleaseSavepoint.
      destruct (GetTxn m t); [|apply silent_refl].
      destruct (remove_savepoint _ _); [by apply silent_upd|apply silent_refl].
    + injection He as <-. apply silent_effect; [done|]. unfold Vacuum_RunOnce.
      destruct (pruneVersions _ _ _). by apply silent_fields.
    + done.
  - pose proof (GetTxn_active _ _ _ Hg) as [_ Hx]. rewrite <-(mi_id _ HM _ _ Hx) at 1.
    apply lock_only_effect. by apply TwoPLScan_only.
Qed.

Lemma pl_step_mgr m u m' : mgr_inv m -> lk_inv (m_locks m) -> pl_step m u m' -> mgr_inv m'.
Proof.
  intros HM HI [o m2 Hd Hn He|t txn table fl Hg Hp Ht Hk].
  - by eapply exec_inv.
  - pose proof (TwoPLScan_only m txn table fl Hk Ht HI) as F. rewrite (lo_rest _ _ _ F).
    eapply frame_inv; [by apply (frame_fields m)|done].
Qed.

(** The invariant of strict two-phase locking. *)
Lemma pl_step_inv m u m' : pl_inv m -> pl_step m u m' -> pl_inv m'.
Proof.
  intros HP Hs. pose proof (pl_step_effect _ _ _ HP Hs) as [E1 E2 E3 E4 E5 E6 E7]. destruct HP as [HM HI HL].
  split; [by eapply pl_step_mgr|done|]. intros t e Hl.
  destruct (E4 t e Hl) as [Hl'|(-> & Hx & Hc)]; [|done]. destruct (HL t e Hl') as [Hx Hc]. split; [|done].
  destruct (decide (t = u)) as [->|Hne]; [apply E3; [by destruct Hl|done]|].
  unfold holds_X. by rewrite E2.
Qed.

Lemma silent_boot locks catalog n w : silent (NewManager locks catalog n w : Mgr L W) (boot locks catalog n w).
Proof.
  unfold boot. set (m0 := NewManager _ _ _ _).
  assert (Hfold : forall names m, silent m (fold_left (reseed_table 0) names m)).
  { induction names as [|x names IH]; intros m; simpl; [apply silent_refl|].
    eapply silent_trans; [|apply IH]. unfold reseed_table.
    destruct (Lookup _ _); [by apply silent_fields|apply silent_refl]. }
  eapply silent_trans; [apply Hfold|]. by apply silent_fields.
Qed.

Lemma pl_reach_inv m : pl_reach m -> pl_inv m.
Proof.
  induction 1 as [locks catalog n w HI|m u m' Hr IH Hs]; [|by eapply pl_step_inv].
  pose proof (silent_boot locks catalog n w) as S. split; [apply boot_inv| |].
  - by rewrite (si_locks _ _ S).
  - intros t e [Hin _]%(silent_logged _ _ _ _ S). by apply elem_of_empty in Hin.
Qed.

(** ** Isolation of written rows *)

(** Steps of transactions other than [t]. *)
Inductive others (t : N) m : Mgr L W -> Prop :=
| ot_refl : others t m m
| ot_step m1 u m2 : others t m m1 -> u <> t -> pl_step m1 u m2 -> others t m m2.

Lemma others_inv t m m' : pl_inv m -> others t m m' -> pl_inv m'.
Proof. intros HP. induction 1 as [|m1 u m2 Ho IH Hu Hs]; [done|by eapply pl_step_inv]. Qed.

Lemma others_keep t m m' r :
  pl_inv m -> others t m m' -> lk_held (m_locks m') t !! r = lk_held (m_locks m) t !! r.
Proof.
  intros HP. induction 1 as [|m1 u m2 Ho IH Hu Hs]; [done|].
  rewrite (ef_others _ _ _ (pl_step_effect _ _ _ (others_inv _ _ _ HP Ho) Hs)) by done. done.
Qed.

Lemma others_row t m m' table key :
  pl_inv m -> holds_X m t (ResourceForRow table key) -> others t m m' ->
  row_of m' table key = row_of m table key.
Proof.
  intros HP Hx. induction 1 as [|m1 u m2 Ho IH Hu Hs]; [done|].
  pose proof (others_inv _ _ _ HP Ho) as HP1.
  pose proof (pl_step_effect _ _ _ HP1 Hs) as [E1 E2 _ _ E5 _ _].
  assert (Hx1 : holds_X m1 t (ResourceForRow table key)) by (unfold holds_X; by rewrite (others_keep t m)).
  assert (Hx2 : holds_X m2 t (ResourceForRow table key)) by (unfold holds_X; rewrite E2; [exact Hx1|congruence]).
  destruct (E5 table key) as [->|[Hy|Hy]]; [done|exfalso..].
  - pose proof (lk_exclusive _ _ _ _ _ _ (pi_locks _ HP1) Hu Hy Hx1). done.
  - pose proof (lk_exclusive _ _ _ _ _ _ E1 Hu Hy Hx2). done.
Qed.

(** C11. Strict two-phase locking: once a running transaction has written a row
    (the row is in its undo log), whatever the other transactions do - begin,
    read, write, scan, roll back, commit or abort, under either protocol, as
    the handlers pass requests on ([dispatched]) and without a reset - the
    row keeps its value, and a 2PL read (above read-uncommitted) or write of
    it by another transaction fails. *)
Theorem strict_2pl m t e m' :
  pl_reach m -> logged m t e -> others t m m' ->
  let table := u_Table e in
  let key := u_Key e in
  row_of m' table key = row_of m table key
  /\ (forall txn', x_ID txn' <> t -> x_Isolation txn' <> ReadUncommitted ->
        is_ok (TwoPLRead m' txn' table key).2 = false)
  /\ (forall txn' v op m2 r, x_ID txn' <> t -> TwoPLWrite m' txn' table key v op = Some (m2, r) ->
        is_ok r = false /\ row_of m2 table key = row_of m table key).
Proof.
  intros Hr Hl Ho table key. pose proof (pl_reach_inv _ Hr) as HP.
  destruct (pi_logged _ HP t e Hl) as [Hx Hc]. unfold undo_res in Hx. fold table key in Hx. fold table in Hc.
  pose proof (others_row t m m' table key HP Hx Ho) as Hrow.
  pose proof (others_inv t m m' HP Ho) as [_ HI' _].
  assert (Hx' : holds_X m' t (ResourceForRow table key)) by (unfold holds_X; by rewrite (others_keep t m)).
  assert (Hblock : forall t' m1 mode, t' <> t -> mode <> LockNL -> lk_inv (m_locks m1) ->
    holds_X m1 t (ResourceForRow table key) ->
    is_ok (lk_acquire (m_locks m1) t' (ResourceForRow table key) mode).2 = false).
  { intros t' m1 mode Hne Hm HI1 Hx1.
    destruct (lk_acquire (m_locks m1) t' (ResourceForRow table key) mode) as [l o] eqn:Ha. simpl.
    eapply (acquire_blocked_by_X (m_locks m1) t t'); [by apply wf_row|..]; done. }
  assert (Htab : forall t' mode, t' <> t ->
    let l := (lk_acquire (m_locks m') t' (ResourceForTable table) mode).1 in
    lk_inv l /\ lk_held l t !! ResourceForRow table key = Some LockX).
  { intros t' mode Hne l. split; [by apply lk_acquire_inv; [apply wf_table|]|].
    unfold l. rewrite lk_acquire_frame; [done|by apply wf_table|done|left; congruence]. }
  split_and!; [done|..].
  - intros txn' Hne Hiso. unfold TwoPLRead. rewrite bool_decide_false by done.
    destruct (Htab (x_ID txn') LockIS Hne) as [I1 X1].
    destruct (lk_acquire (m_locks m') _ _ LockIS) as [l1 [u|er]]; [|done]. simpl in I1, X1.
    pose proof (Hblock (x_ID txn') (with_locks m' l1) LockS Hne) as Hb.
    destruct (lk_acquire (m_locks (with_locks m' l1)) _ _ LockS) as [l2 [u2|er]]; [|done].
    by discriminate Hb.
  - intros txn' v op m2 r Hne Hw.
    apply TwoPLWrite_shape in Hw as [[F ->]|(m3 & m4 & t4 & lsn & F & Hx3 & _)]; [| |done|done].
    + split; [done|]. rewrite <-Hrow. rewrite (lo_rest _ _ _ F). done.
    + exfalso. pose proof (lo_others _ _ _ F t (ResourceForRow table key)) as Hf.
      rewrite Hx' in Hf. specialize (Hf ltac:(congruence)).
      pose proof (lk_exclusive _ _ _ _ _ _ (lo_inv _ _ _ F) Hne Hx3 Hf). done.
Qed.

(** ** Atomicity of aborts *)

(** One entry's compensation, seen at one row. *)
Definition undo_row (table key : string) (cur : option Values) (e : UndoEntry) : option Values :=
  if bool_decide ((u_Table e, u_Key e) = (table, key)) then
    match u_Op e with
    | UndoInsert => None
    | UndoUpdate | UndoDelete =>
        match u_BeforeImage e with None => cur | Some _ => Some (u_BeforeImage e) end
    end
  else cur.

Definition cat_row (c : Catalog) (table key : string) : option Values :=
  match Lookup c table with Some t => t_rows t !! key | None => None end.

Lemma undo_catalog_at c e table key :
  is_Some (Lookup c table) -> cat_row (undo_catalog c e) table key = undo_row table key (cat_row c table key) e.
Proof.
  intros [tb Ht]. unfold undo_row. case_bool_decide as Heq; [|by apply undo_catalog_row].
  injection Heq as Et Ek. unfold undo_catalog, cat_row, Lookup in *. rewrite Et, Ek, Ht.
  destruct (u_Op e); [|destruct (u_BeforeImage e)..]; rewrite ?lookup_insert_eq, ?Ht, ?t_rows_DeleteRow; simpl;
    rewrite ?lookup_insert_eq, ?lookup_delete_eq; done.
Qed.

Lemma undo_fold_at es c table key :
  is_Some (Lookup c table) ->
  cat_row (fold_left undo_catalog es c) table key = fold_left (undo_row table key) es (cat_row c table key).
Proof.
  revert c. induction es as [|e es IH]; intros c Ht; simpl; [done|].
  rewrite IH, undo_catalog_at; [done|done|]. by apply (undo_fold_tables [e] c).
Qed.

(** A write that can be undone: an insert of a missing row, or an update or
    delete of one that is there. *)
Definition reversible m (table key : string) (op : UndoOpType) : Prop :=
  match op with
  | UndoInsert => row_of m table key = None
  | UndoUpdate | UndoDelete => exists vs, row_of m table key = Some (Some vs)
  end.

Lemma row_GetRow m table key t : Lookup (m_Catalog m) table = Some t ->
  (GetRow t key).1 = default None (row_of m table key).
Proof. intros Hl. unfold row_of, GetRow. rewrite Hl. by destruct (t_rows t !! key). Qed.

Lemma undo_row_written m table key t op lsn cur :
  Lookup (m_Catalog m) table = Some t -> reversible m table key op ->
  undo_row table key cur (mkUndo op table key (GetRow t key).1 lsn) = row_of m table key.
Proof.
  intros Hl Hr. unfold undo_row. rewrite bool_decide_true by done. simpl.
  rewrite (row_GetRow m table key t Hl). destruct op; simpl in *; [done|destruct Hr as [vs ->]; done..].
Qed.

(** Undoing everything [t] has logged takes the row back to [v0]. *)
Record undoes m (t : N) (table key : string) (v0 : option Values) : Prop := {
  ud_active : t ∈ m_txns m;
  ud_held : holds_X m t (ResourceForRow table key);
  ud_table : is_Some (Lookup (m_Catalog m) table);
  ud_log : exists txn, m_objs m !! t = Some txn /\ x_Protocol txn = Protocol2PL
    /\ fold_left (undo_row table key) (rev (x_UndoLog txn)) (row_of m table key) = v0;
}.

(** The steps of a run in which [t] does not end, and writes the row only
    reversibly. *)
Definition row_step (t : N) (table key : string) m (u : N) m' : Prop :=
  pl_step m u m'
  /\ t ∈ m_txns m'
  /\ (forall txn v op r, u = t -> m_objs m !! t = Some txn -> TwoPLWrite m txn table key v op = Some (m', r) ->
        reversible m table key op).

Lemma same_log_from txn o' : same_log (Some txn) o' -> exists txn', o' = Some txn' /\ same_obj txn txn'.
Proof. inversion 1; eauto. Qed.

Lemma undoes_other m u m' t table key v0 :
  pl_inv m -> pl_step m u m' -> t ∈ m_txns m' -> u <> t -> undoes m t table key v0 -> undoes m' t table key v0.
Proof.
  intros HP Hs Ha Hu [U1 U2 U3 (txn & Hx & Hp & Hf)].
  pose proof (pl_step_effect _ _ _ HP Hs) as [E1 E2 _ _ _ E6 E7].
  assert (Ho : others t m m') by (eapply ot_step; [constructor|exact Hu|exact Hs]).
  split; [done|unfold holds_X; rewrite E2; [exact U2|congruence]|by apply E7|].
  specialize (E6 t ltac:(congruence)). rewrite Hx in E6. apply same_log_from in E6 as (txn' & Hx' & P1 & P2).
  exists txn'. split_and!; [done|congruence|]. rewrite (others_row t m m'), P2 by done. done.
Qed.

Lemma undoes_lock_only m t m' table key v0 :
  lock_only t m m' -> undoes m t table key v0 -> undoes m' t table key v0.
Proof.
  intros [O1 O2 O3 O4] [U1 U2 U3 U4]. split; [by rewrite O4|by apply O3|by rewrite O4|].
  destruct U4 as (txn & Hx & Hp & Hf). exists txn. rewrite O4. done.
Qed.

Lemma undoes_silent m m' t table key v0 :
  silent m m' -> t ∈ m_txns m' -> undoes m t table key v0 -> undoes m' t table key v0.
Proof.
  intros S Ha [U1 U2 U3 (txn & Hx & Hp & Hf)]. pose proof (si_logs _ _ S t) as Hl. rewrite Hx in Hl.
  apply same_log_from in Hl as (txn' & Hx' & P1 & P2). split; [done|by rewrite (silent_X _ _ _ _ S)|by rewrite (si_cat _ _ S)|].
  exists txn'. rewrite (silent_row _ _ _ _ S), P2 by done. split_and!; [done|congruence|done].
Qed.

Lemma Commit_still m t : t ∈ m_txns (Commit m t).1 -> silent m (Commit m t).1.
Proof.
  unfold Commit. destruct (GetTxn m t) as [txn|].
  2: { intros _. repeat case_bool_decide; apply silent_refl. }
  destruct (x_Status txn); [|intros _; apply silent_refl..].
  destruct (_ && _); [simpl; set_solver|].
  destruct (log_commit m t (x_LastWALLSN txn)) as [m1 [e|]] eqn:Hl; apply silent_log_commit in Hl; [done|].
  destruct (ssi_enabled txn), (bool_decide (x_Protocol txn = Protocol2PL)); simpl; set_solver.
Qed.

Lemma Abort_still m t : t ∈ m_txns (Abort m t).1 -> (Abort m t).1 = m.
Proof.
  destruct (Abort m t) as [m' r] eqn:E. simpl. intros Hin. unfold Abort in E.
  destruct (GetTxn m t) as [txn|] eqn:Hg; [|repeat case_bool_decide; by simplify_eq].
  destruct (x_Status txn); [|by injection E as <- _..]. exfalso.
  pose proof (frame_teardown (upd_txn (finish_abort m t) t closeAbort) txn) as F1.
  destruct (teardown _ txn) as [m1 clr]. injection E as <- _. simpl in F1.
  assert (Hn : t ∉ m_txns m1) by (rewrite (fr_txns _ _ F1); simpl; set_solver).
  pose proof (frame_log_abort m1 txn clr) as F2. apply Hn. rewrite <-(fr_txns _ _ F2).
  by destruct (ssi_enabled txn).
Qed.

Lemma undoes_rollback m t name table key v0 :
  undoes m t table key v0 -> undoes (RollbackToSavepoint m t name).1 t table key v0.
Proof.
  intros HU. pose proof HU as [U1 U2 U3 (txn & Hx & Hp & Hf)]. unfold RollbackToSavepoint.
  destruct (GetTxn m t) as [txn1|] eqn:Hg; [|done]. pose proof (GetTxn_active _ _ _ Hg) as [_ Hx1].
  rewrite Hx in Hx1. injection Hx1 as <-. destruct (List.find _ _) as [sp|]; [|done].
  rewrite bool_decide_true by done. simpl. unfold applyUndoEntries.
  set (pos := sp_UndoPosition sp). set (es := EntriesFrom (x_UndoLog txn) pos).
  assert (Hsplit : x_UndoLog txn = TruncateTo (x_UndoLog txn) pos ++ es).
  { unfold es, EntriesFrom, TruncateTo. destruct (Nat.leb_spec (length (x_UndoLog txn)) pos) as [Hl|Hl].
    - rewrite (proj2 (Nat.ltb_ge _ _) Hl). by rewrite app_nil_r.
    - rewrite (proj2 (Nat.ltb_lt _ _) Hl). by rewrite take_drop. }
  pose proof (undo_loop_spec t (rev es) LSNInvalid m) as (E1 & E2 & E3 & E4).
  destruct (undo_loop t (rev es) LSNInvalid m) as [m1 clr]. simpl in *. split; simpl.
  - by rewrite E2.
  - unfold holds_X. simpl. by rewrite E3.
  - rewrite E4. by apply undo_fold_tables.
  - exists (set_x_UndoLog (TruncateTo (x_UndoLog txn) pos) txn). rewrite E1, lookup_alter_eq, Hx.
    split_and!; [done|done|]. simpl. unfold row_of. simpl. rewrite E4.
    change (fold_left (undo_row table key) (rev (TruncateTo (x_UndoLog txn) pos))
      (cat_row (fold_left undo_catalog (rev es) (m_Catalog m)) table key) = v0).
    rewrite undo_fold_at, <-fold_left_app, <-rev_app_distr, <-Hsplit by done. exact Hf.
Qed.

Lemma undoes_write m txn table' key' v op m' r table key v0 :
  pl_inv m -> char_free ":" table' = true -> m_objs m !! x_ID txn = Some txn ->
  TwoPLWrite m txn table' key' v op = Some (m', r) ->
  ((table', key') = (table, key) -> reversible m table key op) ->
  undoes m (x_ID txn) table key v0 -> undoes m' (x_ID txn) table key v0.
Proof.
  intros [_ HI _] Hc Hx Hw Hrev HU. pose proof (fr_txns _ _ (frame_TwoPLWrite _ _ _ _ _ _ _ _ Hw)) as Htx.
  pose proof (ud_active _ _ _ _ _ HU) as Ha.
  apply TwoPLWrite_shape in Hw as [[F _]|(m2 & m3 & t & lsn & F & Hh & Hl & S & -> & _)];
    [by eapply undoes_lock_only| |done|done].
  simpl in Htx.
  assert (Hrow : row_of m2 table key = row_of m table key) by (rewrite (lo_rest _ _ _ F); done).
  apply (undoes_lock_only _ _ _ _ _ _ F) in HU. apply (undoes_silent _ _ _ _ _ _ S) in HU; [|by rewrite Htx].
  destruct HU as [U1 U2 U3 (txn3 & Hx3 & Hp3 & Hf3)]. split; simpl; [done|done| |].
  - unfold Lookup in *. rewrite lookup_insert. by case_decide.
  - eexists. rewrite lookup_alter_eq, lookup_alter_eq, Hx3. split; [done|]. split; [done|]. simpl.
    unfold AppendWithLSN. rewrite rev_app_distr. simpl.
    destruct (decide ((table', key') = (table, key))) as [[= -> ->]|Hne].
    + rewrite (undo_row_written m2); [|done|]. { by rewrite <-(silent_row _ _ _ _ S). }
      specialize (Hrev eq_refl). unfold reversible in *. by rewrite Hrow.
    + unfold undo_row at 2. rewrite bool_decide_false by done. rewrite <-Hf3. f_equal.
      unfold row_of, Lookup in *. simpl. rewrite lookup_insert. case_decide as Ht; [subst table'|done].
      rewrite (si_cat _ _ S), Hl. apply put_op_rows. congruence.
Qed.

Lemma undoes_step m u m' t table key v0 :
  pl_inv m -> row_step t table key m u m' -> undoes m t table key v0 -> undoes m' t table key v0.
Proof.
  intros HP (Hs & Ha & Hrev) HU. destruct (decide (u = t)) as [->|Hne]; [|by eapply undoes_other].
  pose proof HP as [HM HI _]. pose proof (ud_active _ _ _ _ _ HU) as Hin.
  destruct (ud_log _ _ _ _ _ HU) as (txn & Hx & Hp & _). pose proof (mi_id _ HM _ _ Hx) as Hid.
  inversion Hs as [o m2 Hd Hn He Eu Em|t0 txn0 tb fl Hg Hp0 Ht Hk Eu Em]; subst m'.
  2: { subst t0. apply GetTxn_active in Hg as [_ Hx0]. rewrite Hx in Hx0. injection Hx0 as <-.
       rewrite <-Hid in HU |- *. eapply undoes_lock_only; [|exact HU]. by apply TwoPLScan_only. }
  destruct o as [p iso|t'|t'|t' tb k|t' tb|t' tb k v op|t' tb k|t' tb k v op|t' nm|t' nm|t' nm| |];
    simpl in Eu, Hd, He; try subst t'; try (injection He as <-); try done.
  - exfalso. rewrite u64_add_small in Eu by lia. assert ((t <= m_nextID m)%N); [|lia].
    apply (mi_bound _ HM). set_solver.
  - by eapply undoes_silent; [apply Commit_still| |].
  - by rewrite Abort_still.
  - destruct Hd as (txn0 & [_ Hx0]%GetTxn_active & Hp0). congruence.
  - destruct Hd as (txn0 & [_ Hx0]%GetTxn_active & Hp0). congruence.
  - destruct Hd as (txn0 & [_ Hx0]%GetTxn_active & Hp0). congruence.
  - destruct Hd as [_ Ht]. rewrite Hx in He. injection He as <-. rewrite <-Hid in HU |- *.
    eapply undoes_lock_only; [|exact HU]. by apply TwoPLRead_only.
  - destruct Hd as [_ Ht]. rewrite Hx in He.
    destruct (TwoPLWrite m txn tb k v op) as [[m1 r]|] eqn:Hw; [|done]. injection He as <-.
    rewrite <-Hid in HU |- *. eapply undoes_write; [done|exact Ht|by rewrite Hid|exact Hw| |exact HU].
    intros [= -> ->]. by eapply Hrev.
  - eapply undoes_silent; [|done|done]. unfold CreateSavepoint.
    destruct (GetTxn m t); [by apply silent_upd|apply silent_refl].
  - by apply undoes_rollback.
  - eapply undoes_silent; [|done|done]. unfold ReleaseSavepoint.
    destruct (GetTxn m t); [|apply silent_refl].
    destruct (remove_savepoint _ _); [by apply silent_upd|apply silent_refl].
  - exfalso. rewrite <-Eu in Hin. by apply (mi_zero _ HM).
Qed.

Inductive row_run (t : N) (table key : string) m : Mgr L W -> Prop :=
| rr_refl : row_run t table key m m
| rr_step m1 u m2 : row_run t table key m m1 -> row_step t table key m1 u m2 -> row_run t table key m m2.

Lemma row_run_undoes m m' t table key v0 :
  pl_inv m -> row_run t table key m m' -> undoes m t table key v0 -> pl_inv m' /\ undoes m' t table key v0.
Proof.
  intros HP Hr HU. induction Hr as [|m1 u m2 Hr [IP IU] Hs]; [done|]. split; [|by eapply undoes_step].
  eapply pl_step_inv; [exact IP|apply Hs].
Qed.

Lemma undo_rows_skip es table key cur :
  (forall e, e ∈ es -> (u_Table e, u_Key e) <> (table, key)) -> fold_left (undo_row table key) es cur = cur.
Proof.
  revert cur. induction es as [|e es IH]; intros cur Hn; simpl; [done|].
  unfold undo_row at 2. rewrite bool_decide_false by (apply Hn; by left).
  apply IH. intros x Hx. apply Hn. by right.
Qed.

Lemma undoes_written m txn table key v op m1 :
  pl_inv m -> char_free ":" table = true -> m_objs m !! x_ID txn = Some txn -> x_ID txn ∈ m_txns m ->
  x_Protocol txn = Protocol2PL -> (forall e, e ∈ x_UndoLog txn -> (u_Table e, u_Key e) <> (table, key)) ->
  reversible m table key op -> TwoPLWrite m txn table key v op = Some (m1, Ok tt) ->
  undoes m1 (x_ID txn) table key (row_of m table key).
Proof.
  intros [_ HI _] Hc Hx Hin Hp Hfirst Hrev Hw.
  pose proof (fr_txns _ _ (frame_TwoPLWrite _ _ _ _ _ _ _ _ Hw)) as Htx.
  apply TwoPLWrite_shape in Hw as [[_ ?]|(m2 & m3 & t & lsn & F & Hh & Hl & S & -> & _)]; [done| |done|done].
  simpl in Htx. assert (Hrow : row_of m2 table key = row_of m table key) by (rewrite (lo_rest _ _ _ F); done).
  assert (Hx2 : m_objs m2 !! x_ID txn = Some txn) by (rewrite (lo_rest _ _ _ F); done).
  pose proof (si_logs _ _ S (x_ID txn)) as Hlog. rewrite Hx2 in Hlog.
  apply same_log_from in Hlog as (txn3 & Hx3 & P1 & P2). specialize (P2 Hp). split; simpl.
  - by rewrite Htx.
  - unfold holds_X. simpl. by rewrite (si_locks _ _ S).
  - unfold Lookup in *. rewrite lookup_insert. by case_decide.
  - eexists. rewrite lookup_alter_eq, lookup_alter_eq, Hx3. split; [done|]. split; [simpl; congruence|]. simpl.
    unfold AppendWithLSN. rewrite rev_app_distr, P2. simpl.
    rewrite (undo_row_written m2), undo_rows_skip; [done| |done|].
    + intros e He%list_elem_of_In%in_rev%list_elem_of_In. by apply Hfirst.
    + unfold reversible in *. by rewrite Hrow.
Qed.

(** An abort undoes the log at the row. *)
Lemma abort_row m t txn table key :
  mgr_inv m -> t ∈ m_txns m -> m_objs m !! t = Some txn -> x_Protocol txn = Protocol2PL ->
  is_Some (Lookup (m_Catalog m) table) ->
  row_of (Abort m t).1 table key
  = fold_left (undo_row table key) (rev (x_UndoLog txn)) (row_of m table key).
Proof.
  intros HM Ha Hx Hp Ht. pose proof (mi_id _ HM _ _ Hx) as Hid.
  apply (mi_active _ HM) in Ha as Hst. destruct Hst as (txn' & Hx' & Hst). rewrite Hx in Hx'. injection Hx' as <-.
  unfold Abort, GetTxn. rewrite bool_decide_true, Hx, Hst by done.
  unfold teardown. rewrite Hp. unfold applyUndoLog, applyUndoEntries. rewrite Hid.
  set (m1 := upd_txn (finish_abort m t) t closeAbort).
  pose proof (undo_loop_spec t (rev (x_UndoLog txn)) LSNInvalid m1) as (_ & _ & _ & E4).
  destruct (undo_loop t _ _ m1) as [m2 clr]. simpl in E4.
  assert (Hcat : forall (b : bool) s, m_Catalog (if b
      then with_SSI (log_abort (with_locks m2 (lk_release_all (m_locks m2) t)) txn clr) s
      else log_abort (with_locks m2 (lk_release_all (m_locks m2) t)) txn clr) = m_Catalog m2).
  { intros b s. unfold log_abort. simpl. destruct b, (m_WAL m2); done. }
  unfold row_of at 1. simpl. rewrite Hcat, E4.
  change (cat_row (fold_left undo_catalog (rev (x_UndoLog txn)) (m_Catalog m)) table key
    = fold_left (undo_row table key) (rev (x_UndoLog txn)) (cat_row (m_Catalog m) table key)).
  by apply undo_fold_at.
Qed.

(** C14. Atomicity of 2PL aborts: when a transaction writes a row of a
    table without a colon in its name for the first time, and later - after
    any operations of its own (savepoints and partial rollbacks included)
    and of others - aborts, the row is what it was before that first write,
    provided that each of its writes of the row can be undone: it inserts a
    missing row, or updates or deletes one that has values ([reversible]).
    Requests are as the handlers pass them on ([dispatched]), without a
    reset. *)
Theorem abort_restores_row m txn table key v op m1 m2 :
  pl_reach m -> (m_nextID m + 2 < two64)%N ->
  GetTxn m (x_ID txn) = Some txn -> x_Protocol txn = Protocol2PL ->
  char_free ":" table = true -> (forall e, e ∈ x_UndoLog txn -> (u_Table e, u_Key e) <> (table, key)) ->
  reversible m table key op ->
  TwoPLWrite m txn table key v op = Some (m1, Ok tt) ->
  row_run (x_ID txn) table key m1 m2 ->
  row_of (Abort m2 (x_ID txn)).1 table key = row_of m table key.
Proof.
  intros Hreach Hn Hg Hp Hc Hfirst Hrev Hw Hrun. pose proof (pl_reach_inv _ Hreach) as HP.
  pose proof (GetTxn_active _ _ _ Hg) as [Hin Hx].
  assert (Hs : pl_step m (x_ID txn) m1).
  { apply (ps_op m (Op2PLWrite (x_ID txn) table key v op) m1); [|done|].
    - split; [by exists txn|done].
    - simpl. by rewrite Hx, Hw. }
  pose proof (pl_step_inv _ _ _ HP Hs) as HP1.
  pose proof (undoes_written m txn table key v op m1 HP Hc Hx Hin Hp Hfirst Hrev Hw) as HU1.
  destruct (row_run_undoes _ _ _ _ _ _ HP1 Hrun HU1) as [HP2 HU2].
  destruct (ud_log _ _ _ _ _ HU2) as (txn2 & Hx2 & Hp2 & Hf2). pose proof (ud_active _ _ _ _ _ HU2) as Ha2.
  rewrite <-Hf2. apply abort_row; [apply HP2|done|done|done|]. apply (ud_table _ _ _ _ _ HU2).
Qed.
End Strict.

(** ** Runs *)

Module PlRun.
Import GapRun.

Definition w0 : DemoMgr := both RepeatableRead.
(** Transaction 1 has updated row "05". *)
Definition upd_05 : MgrOp := Op2PLWrite 1 "items" "05" (Some [IntVal 9]) UndoUpdate.
Definition w1 : DemoMgr := default w0 (exec_mgr w0 upd_05).
Definition e05 : UndoEntry := mkUndo UndoUpdate "items" "05" (Some [IntVal 5]) 0.
Definition read_01 : MgrOp := Op2PLRead 2 "items" "01".
Definition w2 : DemoMgr := default w1 (exec_mgr w1 read_01).

Lemma idle_start : idle_inv (lock_init tt : @LockSt unit).
Proof. split; [apply lock_init_inv|done]. Qed.

Lemma w0_reach : pl_reach w0.
Proof.
  eapply pr_step; [eapply pr_step; [apply (pr_boot (lock_init tt) (Register NewCatalog items) 0 None); exact idle_start|]|].
  - apply (ps_op _ (OpBegin Protocol2PL RepeatableRead) (Begin start Protocol2PL RepeatableRead).1); done.
  - apply (ps_op _ (OpBegin Protocol2PL RepeatableRead)); [done|vm_compute; reflexivity|reflexivity].
Qed.

Lemma ran (o : option DemoMgr) d : (if o then true else false) = true -> o = Some (default d o).
Proof. by destruct o. Qed.

Lemma w1_step : pl_step w0 1 w1.
Proof.
  apply (ps_op w0 upd_05).
  - split; [|vm_compute; reflexivity]. exists (obj w0 1). split; vm_compute; reflexivity.
  - vm_compute. reflexivity.
  - apply ran. vm_compute. reflexivity.
Qed.

Lemma w2_step : pl_step w1 2 w2.
Proof.
  apply (ps_op w1 read_01).
  - split; [|vm_compute; reflexivity]. exists (obj w1 2). split; vm_compute; reflexivity.
  - vm_compute. reflexivity.
  - apply ran. vm_compute. reflexivity.
Qed.

Lemma w1_logged : logged w1 1 e05.
Proof.
  split; [apply (bool_decide_unpack _); vm_compute; exact I|].
  exists (obj w1 1). split_and!; [vm_compute; reflexivity..|]. 
  replace (x_UndoLog (obj w1 1)) with [e05] by (vm_compute; reflexivity). by left.
Qed.

Lemma strict_2pl_witness :
  row_of w2 "items" "05" = Some (Some [IntVal 9])
  /\ is_ok (TwoPLRead w2 (obj w2 2) "items" "05").2 = false.
Proof.
  destruct (strict_2pl w1 1 e05 w2) as (H1 & H2 & _).
  - eapply pr_step; [exact w0_reach|exact w1_step].
  - exact w1_logged.
  - eapply ot_step; [apply ot_refl| |exact w2_step]. discriminate.
  - split; [etransitivity; [exact H1|vm_compute; reflexivity]|].
    apply H2; vm_compute; discriminate.
Defined.

Lemma abort_restores_row_witness :
  row_of w2 "items" "05" = Some (Some [IntVal 9])
  /\ row_of (Abort w2 1).1 "items" "05" = Some (Some [IntVal 5]).
Proof.
  split; [vm_compute; reflexivity|].
  transitivity (row_of w0 "items" "05"); [|vm_compute; reflexivity].
  apply (abort_restores_row w0 (obj w0 1) "items" "05" (Some [IntVal 9]) UndoUpdate w1 w2).
  - exact w0_reach.
  - vm_compute. reflexivity.
  - vm_compute. reflexivity.
  - vm_compute. reflexivity.
  - vm_compute. reflexivity.
  - replace (x_UndoLog (obj w0 1)) with (@nil UndoEntry) by (vm_compute; reflexivity).
    intros e He%not_elem_of_nil. destruct He.
  - exists [IntVal 5]. vm_compute. reflexivity.
  - vm_compute. reflexivity.
  - eapply rr_step; [apply rr_refl|]. split; [exact w2_step|]. split.
    + apply (bool_decide_unpack _). vm_compute. exact I.
    + intros txn v op r Hu. vm_compute in Hu. discriminate Hu.
Defined.

(** Writes that an abort does not take back: the insert over an existing
    row, which the abort deletes, and the update of a missing row, which
    creates it and which the abort leaves in place. *)
Theorem abort_irreversible_writes :
  row_of w0 "items" "05" = Some (Some [IntVal 5])
  /\ row_of (Abort (after (wrote w0 1 "05" 9 UndoInsert)) 1).1 "items" "05" = None
  /\ row_of w0 "items" "07" = None
  /\ row_of (Abort (after (wrote w0 1 "07" 9 UndoUpdate)) 1).1 "items" "07" = Some (Some [IntVal 9]).
Proof. vm_compute. by split_and!. Qed.
End PlRun.
