(* ===== verification/Raft.v ===== *)
(** * Raft consensus ([internal/raft])

    state.go, rpc.go, log.go and node.go. The log keeps its entries in
    memory and its file as bytes; the gob encoding of an entry is the
    parameter [GobEntry], the outcome of a disk write is an argument of the
    operation that writes. Each handler is one function on the node's state
    run under its mutex; timers, goroutines and the transport are outside,
    and what a handler sends is part of its result. [None] is a run-time
    panic (the last entry of an empty log). *)

From Stdlib Require Import NArith Lia Strings.Byte String.
From stdpp Require Import base tactics numbers list gmap strings.
From S2P Require Import Prelude Types.

(** ** state.go *)

Inductive Role := Follower | Candidate | Leader.

#[export] Instance Role_eq_dec : EqDecision Role.
Proof. solve_decision. Defined.

Notation NodeID := string.

Record PersistentState := mkPS { ps_CurrentTerm : N; ps_VotedFor : NodeID }.

(** ** log.go *)

Definition CmdNoop : N := 0.
Definition CmdBegin : N := 1.
Definition CmdWrite : N := 2.
Definition CmdCommit : N := 3.
Definition CmdAbort : N := 4.

Record Command := mkCommand {
  c_Type : N;
  c_TxnID : N;
  c_Table : string;
  c_RowKey : string;
  c_Op : N;
  c_Before : list byte;
  c_After : list byte;
  c_Iso : N;
  c_Proto : N;
}.

Record Entry := mkEntry { e_Index : N; e_Term : N; e_Command : Command }.

#[export] Instance raft_byte_eq_dec : EqDecision byte := Byte.byte_eq_dec.
#[export] Instance Command_eq_dec : EqDecision Command.
Proof. solve_decision. Defined.
#[export] Instance Entry_eq_dec : EqDecision Entry.
Proof. solve_decision. Defined.

Definition noop : Command := mkCommand CmdNoop 0 "" "" 0 [] [] 0 0.

Definition dummy : Entry := mkEntry 0 0 noop.

Class GobEntry := {
  gob_entry : Entry -> list byte;
  gob_entry_decode : list byte -> option Entry;
}.

Record RaftLog := mkLog { l_entries : list Entry; l_file : list byte }.

(** The outcome of rewriting the file: done; the truncation failed and the
    file is as before; or the write stopped after so many bytes. *)
Inductive DiskIO := DiskOk | DiskKept | DiskPart (n : nat).

Section Log.
Context `{GobEntry}.

Definition encodeEntry (e : Entry) : list byte := gob_entry e.

Definition entry_frame (e : Entry) : list byte :=
  let data := encodeEntry e in le_put 4 (N.of_nat (length data)) ++ data.

Definition file_of (es : list Entry) : list byte := concat (entry_frame <$> es).

(** [true]: no error. *)
Definition writeToDisk (io : DiskIO) (l : RaftLog) : RaftLog * bool :=
  match io with
  | DiskOk => (mkLog (l_entries l) (file_of (l_entries l)), true)
  | DiskKept => (l, false)
  | DiskPart n => (mkLog (l_entries l) (take n (file_of (l_entries l))), false)
  end.

(** The loop of [loadFromDisk]; a short read leaves zeros in its buffer. *)
Fixpoint load_loop (fuel : nat) (bs : list byte) : list Entry :=
  match fuel with
  | O => []
  | S fuel =>
      match bs with
      | [] => []
      | _ =>
          let bodyLen := N.to_nat (le_get (take 4 bs)) in
          let rest := drop 4 bs in
          if (0 <? bodyLen) && (length rest =? 0) then []
          else
            let body := take bodyLen rest ++ replicate (bodyLen - length rest) x00 in
            match gob_entry_decode body with
            | None => []
            | Some e => e :: load_loop fuel (drop bodyLen rest)
            end
      end
  end.

Definition loadFromDisk (bs : list byte) : list Entry :=
  match load_loop (S (length bs)) bs with
  | [] => [dummy]
  | es => es
  end.

(** [None]: the error of the initial write. *)
Definition NewRaftLog (io : DiskIO) (bs : list byte) : option RaftLog :=
  if length bs =? 0 then
    match writeToDisk io (mkLog [dummy] bs) with
    | (l, true) => Some l
    | (_, false) => None
    end
  else Some (mkLog (loadFromDisk bs) bs).

Definition LastIndex (l : RaftLog) : option N := e_Index <$> last (l_entries l).
Definition LastTerm (l : RaftLog) : option N := e_Term <$> last (l_entries l).

Definition Get (l : RaftLog) (index : N) : option Entry :=
  List.find (fun e => (e_Index e =? index)%N) (l_entries l).

Definition Range (l : RaftLog) (from to : N) : list Entry :=
  List.filter (fun e => (from <=? e_Index e)%N && (e_Index e <=? to)%N) (l_entries l).

Definition Append (io : DiskIO) (l : RaftLog) (es : list Entry) : RaftLog * bool :=
  writeToDisk io (mkLog (l_entries l ++ es) (l_file l)).

Definition TruncateAfter (io : DiskIO) (l : RaftLog) (index : N) : RaftLog * bool :=
  writeToDisk io (mkLog (List.filter (fun e => (e_Index e <=? index)%N) (l_entries l)) (l_file l)).

Definition TruncateBefore (l : RaftLog) (lastIncludedIndex : N) : RaftLog :=
  mkLog (List.filter (fun e => (lastIncludedIndex <? e_Index e)%N) (l_entries l)) (l_file l).
End Log.

(** ** rpc.go *)

Record RequestVoteArgs := mkRVArgs {
  rv_Term : N; rv_CandidateID : NodeID; rv_LastLogIndex : N; rv_LastLogTerm : N }.
Record RequestVoteReply := mkRVReply { rvr_Term : N; rvr_VoteGranted : bool }.
Record AppendEntriesArgs := mkAEArgs {
  ae_Term : N; ae_LeaderID : NodeID; ae_PrevLogIndex : N; ae_PrevLogTerm : N;
  ae_Entries : list Entry; ae_LeaderCommit : N }.
Record AppendEntriesReply := mkAEReply {
  aer_Term : N; aer_Success : bool; aer_ConflictTerm : N; aer_ConflictIndex : N }.
Record InstallSnapshotArgs := mkISArgs {
  is_Term : N; is_LeaderID : NodeID; is_LastIncludedIndex : N; is_LastIncludedTerm : N;
  is_Data : list byte }.
Record InstallSnapshotReply := mkISReply { isr_Term : N }.

(** ** node.go *)

Record Node := mkNode {
  n_id : NodeID;
  n_peers : gmap NodeID string;
  n_role : Role;
  n_term : N;
  n_votedFor : NodeID;
  n_log : RaftLog;
  n_commitIndex : N;
  n_lastApplied : N;
  n_nextIndex : gmap NodeID N;
  n_matchIndex : gmap NodeID N;
  n_leaderID : NodeID;
  n_pending : gset N;
  n_votesReceived : nat;
  n_snapshotIndex : N;
  n_snapshotTerm : N;
  n_snapshotData : option (list byte);
  n_saved : option PersistentState;  (* raft-state.gob *)
}.

Definition with_role (n : Node) (x : Role) : Node :=
  mkNode (n_id n) (n_peers n) x (n_term n) (n_votedFor n) (n_log n) (n_commitIndex n)
    (n_lastApplied n) (n_nextIndex n) (n_matchIndex n) (n_leaderID n) (n_pending n)
    (n_votesReceived n) (n_snapshotIndex n) (n_snapshotTerm n) (n_snapshotData n) (n_saved
    n).
Definition with_term (n : Node) (x : N) : Node :=
  mkNode (n_id n) (n_peers n) (n_role n) x (n_votedFor n) (n_log n) (n_commitIndex n)
    (n_lastApplied n) (n_nextIndex n) (n_matchIndex n) (n_leaderID n) (n_pending n)
    (n_votesReceived n) (n_snapshotIndex n) (n_snapshotTerm n) (n_snapshotData n) (n_saved
    n).
Definition with_votedFor (n : Node) (x : NodeID) : Node :=
  mkNode (n_id n) (n_peers n) (n_role n) (n_term n) x (n_log n) (n_commitIndex n)
    (n_lastApplied n) (n_nextIndex n) (n_matchIndex n) (n_leaderID n) (n_pending n)
    (n_votesReceived n) (n_snapshotIndex n) (n_snapshotTerm n) (n_snapshotData n) (n_saved
    n).
Definition with_log (n : Node) (x : RaftLog) : Node :=
  mkNode (n_id n) (n_peers n) (n_role n) (n_term n) (n_votedFor n) x (n_commitIndex n)
    (n_lastApplied n) (n_nextIndex n) (n_matchIndex n) (n_leaderID n) (n_pending n)
    (n_votesReceived n) (n_snapshotIndex n) (n_snapshotTerm n) (n_snapshotData n) (n_saved
    n).
Definition with_commitIndex (n : Node) (x : N) : Node :=
  mkNode (n_id n) (n_peers n) (n_role n) (n_term n) (n_votedFor n) (n_log n) x
    (n_lastApplied n) (n_nextIndex n) (n_matchIndex n) (n_leaderID n) (n_pending n)
    (n_votesReceived n) (n_snapshotIndex n) (n_snapshotTerm n) (n_snapshotData n) (n_saved
    n).
Definition with_lastApplied (n : Node) (x : N) : Node :=
  mkNode (n_id n) (n_peers n) (n_role n) (n_term n) (n_votedFor n) (n_log n)
    (n_commitIndex n) x (n_nextIndex n) (n_matchIndex n) (n_leaderID n) (n_pending n)
    (n_votesReceived n) (n_snapshotIndex n) (n_snapshotTerm n) (n_snapshotData n) (n_saved
    n).
Definition with_nextIndex (n : Node) (x : gmap NodeID N) : Node :=
  mkNode (n_id n) (n_peers n) (n_role n) (n_term n) (n_votedFor n) (n_log n)
    (n_commitIndex n) (n_lastApplied n) x (n_matchIndex n) (n_leaderID n) (n_pending n)
    (n_votesReceived n) (n_snapshotIndex n) (n_snapshotTerm n) (n_snapshotData n) (n_saved
    n).
Definition with_matchIndex (n : Node) (x : gmap NodeID N) : Node :=
  mkNode (n_id n) (n_peers n) (n_role n) (n_term n) (n_votedFor n) (n_log n)
    (n_commitIndex n) (n_lastApplied n) (n_nextIndex n) x (n_leaderID n) (n_pending n)
    (n_votesReceived n) (n_snapshotIndex n) (n_snapshotTerm n) (n_snapshotData n) (n_saved
    n).
Definition with_leaderID (n : Node) (x : NodeID) : Node :=
  mkNode (n_id n) (n_peers n) (n_role n) (n_term n) (n_votedFor n) (n_log n)
    (n_commitIndex n) (n_lastApplied n) (n_nextIndex n) (n_matchIndex n) x (n_pending n)
    (n_votesReceived n) (n_snapshotIndex n) (n_snapshotTerm n) (n_snapshotData n) (n_saved
    n).
Definition with_pending (n : Node) (x : gset N) : Node :=
  mkNode (n_id n) (n_peers n) (n_role n) (n_term n) (n_votedFor n) (n_log n)
    (n_commitIndex n) (n_lastApplied n) (n_nextIndex n) (n_matchIndex n) (n_leaderID n) x
    (n_votesReceived n) (n_snapshotIndex n) (n_snapshotTerm n) (n_snapshotData n) (n_saved
    n).
Definition with_votesReceived (n : Node) (x : nat) : Node :=
  mkNode (n_id n) (n_peers n) (n_role n) (n_term n) (n_votedFor n) (n_log n)
    (n_commitIndex n) (n_lastApplied n) (n_nextIndex n) (n_matchIndex n) (n_leaderID n)
    (n_pending n) x (n_snapshotIndex n) (n_snapshotTerm n) (n_snapshotData n) (n_saved n).
Definition with_saved (n : Node) (x : option PersistentState) : Node :=
  mkNode (n_id n) (n_peers n) (n_role n) (n_term n) (n_votedFor n) (n_log n)
    (n_commitIndex n) (n_lastApplied n) (n_nextIndex n) (n_matchIndex n) (n_leaderID n)
    (n_pending n) (n_votesReceived n) (n_snapshotIndex n) (n_snapshotTerm n)
    (n_snapshotData n) x.
Definition with_snapshot (n : Node) (i t : N) (d : option (list byte)) : Node :=
  mkNode (n_id n) (n_peers n) (n_role n) (n_term n) (n_votedFor n) (n_log n)
    (n_commitIndex n) (n_lastApplied n) (n_nextIndex n) (n_matchIndex n) (n_leaderID n)
    (n_pending n) (n_votesReceived n) i t d (n_saved n).

(** The state machine the entries are applied to. *)
Class FSM (F : Type) := {
  fsm_Apply : F -> Entry -> F * option GoError;
  fsm_Snapshot : F -> result GoError (list byte);
  fsm_Restore : F -> list byte -> F * option GoError;
}.

(** [ok]: the new state file was written, synced and renamed. *)
Definition persistState (ok : bool) (n : Node) : Node :=
  if ok then with_saved n (Some (mkPS (n_term n) (n_votedFor n))) else n.

Definition becomeFollower (ok : bool) (n : Node) (term : N) : Node :=
  persistState ok (with_votedFor (with_term (with_role n Follower) term) "").

Definition IsLeader (n : Node) : bool := bool_decide (n_role n = Leader).

Definition majority (n : Node) : nat := (1 + size (n_peers n)) / 2 + 1.

Section Node.
Context `{GobEntry}.

(** [NewNode]: the log and the persistent state are read back. *)
Definition NewNode (io : DiskIO) (id : NodeID) (peers : gmap NodeID string) (file : list byte)
    (saved : option PersistentState) : option Node :=
  match NewRaftLog io file with
  | None => None
  | Some l =>
      let '(term, voted) :=
        match saved with Some ps => (ps_CurrentTerm ps, ps_VotedFor ps) | None => (0%N, "") end in
      Some (mkNode id peers Follower term voted l 0 0 ∅ ∅ "" ∅ 0 0 0 None saved)
  end.

(** ** Elections *)

Definition becomeLeader (io : DiskIO) (n : Node) : option Node :=
  match LastIndex (n_log n) with
  | None => None
  | Some lastIdx =>
      let n := with_leaderID (with_role n Leader) (n_id n) in
      let n := with_nextIndex n ((fun _ => u64_add lastIdx 1) <$> n_peers n) in
      let n := with_matchIndex n ((fun _ => 0%N) <$> n_peers n) in
      let noopEntry := mkEntry (u64_add lastIdx 1) (n_term n) noop in
      Some (with_log n (Append io (n_log n) [noopEntry]).1)
  end.

(** The requests go to every peer. *)
Definition becomeCandidate (ok : bool) (io : DiskIO) (n : Node)
    : option (Node * list (NodeID * RequestVoteArgs)) :=
  let newTerm := u64_add (n_term n) 1 in
  let n := with_votedFor (with_term (with_role n Candidate) newTerm) (n_id n) in
  let n := persistState ok (with_votesReceived n 1) in
  match LastIndex (n_log n), LastTerm (n_log n) with
  | Some lastIdx, Some lastTerm =>
      let args := mkRVArgs newTerm (n_id n) lastIdx lastTerm in
      let reqs := (fun pa => (pa.1, args)) <$> map_to_list (n_peers n) in
      if (size (n_peers n) =? 0) && (majority n <=? n_votesReceived n) then
        n ← becomeLeader io n; Some (n, reqs)
      else Some (n, reqs)
  | _, _ => None
  end.

(** The goroutine of [becomeCandidate] when its reply arrives. *)
Definition handleVoteReply (ok : bool) (io : DiskIO) (n : Node) (newTerm : N)
    (reply : RequestVoteReply) : option Node :=
  if (n_term n <? rvr_Term reply)%N then Some (becomeFollower ok n (rvr_Term reply))
  else if negb (bool_decide (n_role n = Candidate)) || negb (n_term n =? newTerm)%N then Some n
  else if rvr_VoteGranted reply then
    let n := with_votesReceived n (n_votesReceived n + 1) in
    if majority n <=? n_votesReceived n then becomeLeader io n else Some n
  else Some n.

Definition handleRequestVote (ok1 ok2 : bool) (n : Node) (args : RequestVoteArgs)
    : option (Node * RequestVoteReply) :=
  if (rv_Term args <? n_term n)%N then Some (n, mkRVReply (n_term n) false)
  else
    let n := if (n_term n <? rv_Term args)%N then becomeFollower ok1 n (rv_Term args) else n in
    match LastIndex (n_log n), LastTerm (n_log n) with
    | Some lastIdx, Some lastTerm =>
        let canVote := String.eqb (n_votedFor n) "" || String.eqb (n_votedFor n) (rv_CandidateID args) in
        let logOK := (lastTerm <? rv_LastLogTerm args)%N
          || ((rv_LastLogTerm args =? lastTerm)%N && (lastIdx <=? rv_LastLogIndex args)%N) in
        if canVote && logOK then
          Some (persistState ok2 (with_votedFor n (rv_CandidateID args)), mkRVReply (n_term n) true)
        else Some (n, mkRVReply (n_term n) false)
    | _, _ => None
    end.

(** ** Replication *)

(** The search for the first entry of the conflicting term. *)
Fixpoint conflict_loop (fuel : nat) (l : RaftLog) (term idx conflictIndex : N) : N :=
  match fuel with
  | O => conflictIndex
  | S fuel =>
      if (idx =? 0)%N then conflictIndex
      else match Get l idx with
           | None => u64_add idx 1
           | Some e => if negb (e_Term e =? term)%N then u64_add idx 1
                       else conflict_loop fuel l term (idx - 1) idx
           end
  end.

(** The loop over the new entries, with the outcomes of its disk writes;
    [false] when one failed. *)
Fixpoint append_loop (ios : list DiskIO) (l : RaftLog) (es : list Entry) : RaftLog * bool :=
  match es with
  | [] => (l, true)
  | e :: es =>
      let io := default DiskOk (head ios) in
      match Get l (e_Index e) with
      | Some existing =>
          if negb (e_Term existing =? e_Term e)%N then
            match TruncateAfter io l (u64_sub (e_Index e) 1) with
            | (l, true) => append_loop (tail ios) l es
            | (l, false) => (l, false)
            end
          else append_loop ios l es
      | None =>
          match Append io l [e] with
          | (l, true) => append_loop (tail ios) l es
          | (l, false) => (l, false)
          end
      end
  end.

Definition handleAppendEntries (ok : bool) (ios : list DiskIO) (n : Node) (args : AppendEntriesArgs)
    : option (Node * AppendEntriesReply) :=
  let failed := mkAEReply (n_term n) false 0 0 in
  if (ae_Term args <? n_term n)%N then Some (n, failed)
  else
    let n := if (n_term n <? ae_Term args)%N then becomeFollower ok n (ae_Term args) else n in
    let n := with_leaderID n (ae_LeaderID args) in
    let n := if bool_decide (n_role n = Candidate) then with_role n Follower else n in
    let prev := Get (n_log n) (ae_PrevLogIndex args) in
    let mismatch := match prev with
                    | None => true
                    | Some e => negb (e_Term e =? ae_PrevLogTerm args)%N
                    end in
    if (0 <? ae_PrevLogIndex args)%N && mismatch then
      match LastIndex (n_log n) with
      | None => None
      | Some lastIdx =>
          let hint := u64_add lastIdx 1 in
          Some (n,
            match prev with
            | None => mkAEReply (n_term n) false 0 hint
            | Some e =>
                mkAEReply (n_term n) false (e_Term e)
                  (conflict_loop (S (length (l_entries (n_log n)))) (n_log n) (e_Term e)
                     (ae_PrevLogIndex args) hint)
            end)
      end
    else
      match append_loop ios (n_log n) (ae_Entries args) with
      | (l, false) => Some (with_log n l, failed)
      | (l, true) =>
          let n := with_log n l in
          if (n_commitIndex n <? ae_LeaderCommit args)%N then
            match LastIndex l with
            | None => None
            | Some lastIdx =>
                Some (with_commitIndex n (N.min lastIdx (ae_LeaderCommit args)),
                      mkAEReply (n_term n) true 0 0)
            end
          else Some (n, mkAEReply (n_term n) true 0 0)
      end.

Inductive Send :=
| SendAppendEntries (args : AppendEntriesArgs) (nextIdx : N)
| SendInstallSnapshot (args : InstallSnapshotArgs)
| SendNothing.

(** [replicateToPeer] up to its RPC. *)
Definition replicateToPeer (n : Node) (peer : NodeID) : option Send :=
  if negb (IsLeader n) then Some SendNothing
  else
    nextIdx ← match n_nextIndex n !! peer with
              | Some i => Some i
              | None => (fun i => u64_add i 1) <$> LastIndex (n_log n)
              end;
    if (nextIdx <=? n_snapshotIndex n)%N then
      match n_snapshotData n with
      | None => Some SendNothing
      | Some data =>
          Some (SendInstallSnapshot
            (mkISArgs (n_term n) (n_id n) (n_snapshotIndex n) (n_snapshotTerm n) data))
      end
    else
      let prevLogIndex := u64_sub nextIdx 1 in
      let prevLogTerm :=
        if (0 <? prevLogIndex)%N then
          match Get (n_log n) prevLogIndex with
          | Some e => e_Term e
          | None => if (prevLogIndex =? n_snapshotIndex n)%N then n_snapshotTerm n else 0%N
          end
        else 0%N in
      lastIdx ← LastIndex (n_log n);
      Some (SendAppendEntries
        (mkAEArgs (n_term n) (n_id n) prevLogIndex prevLogTerm
           (Range (n_log n) nextIdx lastIdx) (n_commitIndex n)) nextIdx).

(** The test of [tryAdvanceCommitIndex] for the index [i]. *)
Definition can_commit (n : Node) (i : N) : bool :=
  match Get (n_log n) i with
  | None => false
  | Some e =>
      (e_Term e =? n_term n)%N
      && (majority n <=? 1 + length (List.filter (fun x => (i <=? x)%N) (map_to_list (n_matchIndex n)).*2))
  end.

(** [for N := lastIdx; N > currentCommit; N--], with [k = N - currentCommit]. *)
Fixpoint advance_loop (k : nat) (n : Node) : Node :=
  match k with
  | O => n
  | S k' =>
      let i := (n_commitIndex n + N.of_nat k)%N in
      if can_commit n i then with_commitIndex n i else advance_loop k' n
  end.

Definition tryAdvanceCommitIndex (n : Node) : option Node :=
  if negb (IsLeader n) then Some n
  else
    match LastIndex (n_log n) with
    | None => None
    | Some lastIdx => Some (advance_loop (N.to_nat (lastIdx - n_commitIndex n)) n)
    end.

(** The rest of [replicateToPeer] when the reply to AppendEntries arrives. *)
Definition handleAppendReply (ok : bool) (n : Node) (peer : NodeID) (args : AppendEntriesArgs)
    (nextIdx : N) (reply : AppendEntriesReply) : option Node :=
  if (n_term n <? aer_Term reply)%N then Some (becomeFollower ok n (aer_Term reply))
  else if negb (IsLeader n) || negb (n_term n =? ae_Term args)%N then Some n
  else if aer_Success reply then
    let newMatch := u64_add (ae_PrevLogIndex args) (N.of_nat (length (ae_Entries args))) in
    let old := default 0%N (n_matchIndex n !! peer) in
    let n := if (old <? newMatch)%N then with_matchIndex n (<[peer := newMatch]> (n_matchIndex n)) else n in
    let m := default 0%N (n_matchIndex n !! peer) in
    tryAdvanceCommitIndex (with_nextIndex n (<[peer := u64_add m 1]> (n_nextIndex n)))
  else
    if (0 <? aer_ConflictIndex reply)%N then
      Some (with_nextIndex n (<[peer := aer_ConflictIndex reply]> (n_nextIndex n)))
    else if (1 <? nextIdx)%N then
      Some (with_nextIndex n (<[peer := (nextIdx - 1)%N]> (n_nextIndex n)))
    else Some n.

Definition handleSnapshotReply (ok : bool) (n : Node) (peer : NodeID) (args : InstallSnapshotArgs)
    (reply : InstallSnapshotReply) : Node :=
  if (n_term n <? isr_Term reply)%N then becomeFollower ok n (isr_Term reply)
  else if IsLeader n then
    with_matchIndex
      (with_nextIndex n (<[peer := u64_add (is_LastIncludedIndex args) 1]> (n_nextIndex n)))
      (<[peer := is_LastIncludedIndex args]> (n_matchIndex n))
  else n.

(** The part of [Propose] under the mutex: the entry is logged and its
    waiter registered. *)
Definition propose_log (io : DiskIO) (n : Node) (cmd : Command) : option (Node * result GoError N) :=
  match LastIndex (n_log n) with
  | None => None
  | Some lastIdx =>
      let entry := mkEntry (u64_add lastIdx 1) (n_term n) cmd in
      let '(l, ok) := Append io (n_log n) [entry] in
      let n := with_log n l in
      if negb ok then Some (n, Err (EOther "raft log: write failed"))
      else
        let n := with_pending n ({[e_Index entry]} ∪ n_pending n) in
        Some (n, Ok (e_Index entry))
  end.

(** [Propose] up to its wait for the result. [leader] is what [IsLeader] said
    before the mutex was taken: the node may have another role when the
    entry is logged. *)
Definition Propose (leader : bool) (io : DiskIO) (n : Node) (cmd : Command) : option (Node * result GoError N) :=
  if negb leader then Some (n, Err (EOther "raft: not the leader"))
  else
    '(n, r) ← propose_log io n cmd;
    match r with
    | Err e => Some (n, Err e)
    | Ok i =>
        if size (n_peers n) =? 0 then
          n ← tryAdvanceCommitIndex n; Some (n, Ok i)
        else Some (n, Ok i)
    end.

(** ** Applying entries

    [applyCommitted] and [handleInstallSnapshot] give up the mutex around the
    calls of the state machine. Their parts between two releases come first;
    [applyCommitted] and [handleInstallSnapshot] run them in a row. *)

Context {F : Type} `{FSM F}.

(** The end of [triggerSnapshot], with the data of [fsm.Snapshot]. *)
Definition snapshot_take (n : Node) (data : list byte) : Node :=
  let idx := n_lastApplied n in
  let term := match Get (n_log n) idx with Some e => e_Term e | None => 0%N end in
  let n := with_snapshot n idx term (Some data) in
  with_log n (TruncateBefore (n_log n) idx).

Definition triggerSnapshot (n : Node) (f : F) : Node :=
  match fsm_Snapshot f with
  | Err _ => n
  | Ok data => snapshot_take n data
  end.

(** The index to apply next; [None]: [applyCommitted] returns. *)
Definition apply_pick (n : Node) : option N :=
  if (n_commitIndex n <=? n_lastApplied n)%N then None else Some (u64_add (n_lastApplied n) 1).

(** After [fsm.Apply]: [lastApplied], and whether a snapshot is due. *)
Definition apply_mark (n : Node) (applyIdx : N) : Node * bool :=
  let n := with_lastApplied n applyIdx in
  (n, 1000 <=? u64_sub (n_lastApplied n) (n_snapshotIndex n))%N.

(** The answer to the proposal, when one waits. *)
Definition apply_answer (n : Node) (applyIdx : N) (err : option GoError) : Node * list (N * option GoError) :=
  (with_pending n (n_pending n ∖ {[applyIdx]}),
   if bool_decide (applyIdx ∈ n_pending n) then [(applyIdx, err)] else []).

(** One round of [applyCommitted]: the entry applied, and the answer to its
    proposal when one waits. *)
Definition apply_one (n : Node) (f : F) (e : Entry) : Node * F * list (N * option GoError) :=
  let applyIdx := e_Index e in
  let '(f, err) := fsm_Apply f e in
  let '(n, shouldSnapshot) := apply_mark n applyIdx in
  let '(n, answers) := apply_answer n applyIdx err in
  (if shouldSnapshot then triggerSnapshot n f else n, f, answers).

Fixpoint apply_loop (k : nat) (n : Node) (f : F) : Node * F * list (N * option GoError) :=
  match k with
  | O => (n, f, [])
  | S k =>
      match apply_pick n with
      | None => (n, f, [])
      | Some applyIdx =>
          match Get (n_log n) applyIdx with
          | None => (n, f, [])
          | Some e =>
              let '(n, f, a) := apply_one n f e in
              let '(n, f, a') := apply_loop k n f in
              (n, f, a ++ a')
          end
      end
  end.

Definition applyCommitted (n : Node) (f : F) : Node * F * list (N * option GoError) :=
  apply_loop (S (N.to_nat (n_commitIndex n - n_lastApplied n))) n f.

(** Where the goroutine of [applyCommitted] stands. *)
Inductive ApplyPC :=
| ApLoop                                       (* at the head of the loop *)
| ApGet (applyIdx : N)                         (* before [log.Get] *)
| ApRun (applyIdx : N) (e : Entry)             (* before [fsm.Apply] *)
| ApMark (applyIdx : N) (err : option GoError)
| ApAnswer (applyIdx : N) (err : option GoError) (shouldSnapshot : bool)
| ApSnapshot                                   (* before [fsm.Snapshot] *)
| ApTake (data : list byte)
| ApReturn.

(** One of its steps; handlers of other goroutines may run between two. *)
Definition apply_step (n : Node) (f : F) (pc : ApplyPC) : Node * F * ApplyPC * list (N * option GoError) :=
  match pc with
  | ApLoop => (n, f, match apply_pick n with Some i => ApGet i | None => ApReturn end, [])
  | ApGet i => (n, f, match Get (n_log n) i with Some e => ApRun i e | None => ApReturn end, [])
  | ApRun i e => let '(f, err) := fsm_Apply f e in (n, f, ApMark i err, [])
  | ApMark i err => let '(n, s) := apply_mark n i in (n, f, ApAnswer i err s, [])
  | ApAnswer i err s => let '(n, a) := apply_answer n i err in (n, f, if s then ApSnapshot else ApLoop, a)
  | ApSnapshot => (n, f, match fsm_Snapshot f with Ok data => ApTake data | Err _ => ApLoop end, [])
  | ApTake data => (snapshot_take n data, f, ApLoop, [])
  | ApReturn => (n, f, ApReturn, [])
  end.

Fixpoint apply_steps (k : nat) (n : Node) (f : F) (pc : ApplyPC) : Node * F * ApplyPC * list (N * option GoError) :=
  match k with
  | O => (n, f, pc, [])
  | S k =>
      let '(n, f, pc, a) := apply_step n f pc in
      let '(n, f, pc, a') := apply_steps k n f pc in
      (n, f, pc, a ++ a')
  end.

(** [handleInstallSnapshot] before [fsm.Restore], with its early return. *)
Definition install_begin (ok : bool) (n : Node) (args : InstallSnapshotArgs) : result InstallSnapshotReply Node :=
  if (is_Term args <? n_term n)%N then Err (mkISReply (n_term n))
  else Ok (if (n_term n <? is_Term args)%N
           then persistState ok (with_votedFor (with_role (with_term n (is_Term args)) Follower) "")
           else n).

(** And after it. *)
Definition install_finish (n : Node) (args : InstallSnapshotArgs) : Node :=
  let n := with_log n (TruncateBefore (n_log n) (is_LastIncludedIndex args)) in
  let n := with_snapshot n (is_LastIncludedIndex args) (is_LastIncludedTerm args) (n_snapshotData n) in
  let n := if (n_commitIndex n <? is_LastIncludedIndex args)%N
           then with_commitIndex n (is_LastIncludedIndex args) else n in
  if (n_lastApplied n <? is_LastIncludedIndex args)%N
  then with_lastApplied n (is_LastIncludedIndex args) else n.

Definition handleInstallSnapshot (ok : bool) (n : Node) (f : F) (args : InstallSnapshotArgs)
    : Node * F * InstallSnapshotReply :=
  match install_begin ok n args with
  | Err r => (n, f, r)
  | Ok n =>
      match fsm_Restore f (is_Data args) with
      | (f, Some _) => (n, f, mkISReply (n_term n))
      | (f, None) => let n := install_finish n args in (n, f, mkISReply (n_term n))
      end
  end.
End Node.

(** ** A concrete codec and state machine

    Used where a statement needs the parameters instantiated: an entry of a
    command without strings and images is its numbers, and the state machine
    keeps the entries it was given. *)

Definition demo_gob : GobEntry := {|
  gob_entry e := le_put 8 (e_Index e) ++ le_put 8 (e_Term e) ++ le_put 8 (c_Type (e_Command e))
                 ++ le_put 8 (c_TxnID (e_Command e));
  gob_entry_decode bs :=
    if length bs =? 32 then
      Some (mkEntry (le_get (take 8 bs)) (le_get (take 8 (drop 8 bs)))
        (mkCommand (le_get (take 8 (drop 16 bs))) (le_get (take 8 (drop 24 bs))) "" "" 0 [] [] 0 0))
    else None |}.

Definition demo_fsm : FSM (list Entry) := {|
  fsm_Apply f e := (f ++ [e], None);
  fsm_Snapshot f := Ok [];
  fsm_Restore f _ := (f, None) |}.
