(* ===== verification/RaftElection.v ===== *)
(** * Election safety of the cluster

    The nodes of [Raft] in a network: vote requests and replies are
    delivered at most once, in any order, or lost, and a reply reaches the
    goroutine that sent its request; the arguments of every other message
    are arbitrary. Handlers that give up the mutex run in parts. Any save of
    the state file may fail; a node restarts, and reads the file back, only
    when the file has its term and vote. At most one node is ever leader in
    a term. *)

From Stdlib Require Import NArith Lia Strings.Byte String.
From stdpp Require Import base tactics numbers list gmap strings sets.
From S2P Require Import Prelude Types Raft.

(** ** The network *)

Record VoteReply := mkVoteReply {
  vr_cand : NodeID; vr_term : N; vr_from : NodeID; vr_reply : RequestVoteReply }.

Record Net := mkNet {
  net_nodes : gmap NodeID Node;
  net_reqs : list (NodeID * RequestVoteArgs);
  net_replies : list VoteReply;
  net_leaders : gset (N * NodeID);  (* every leader there has been, with its term *)
}.

Definition note_leader (n : Node) (s : gset (N * NodeID)) : gset (N * NodeID) :=
  if IsLeader n then {[(n_term n, n_id n)]} ∪ s else s.

Definition set_node (net : Net) (i : NodeID) (n : Node) : Net :=
  mkNet (<[i := n]> (net_nodes net)) (net_reqs net) (net_replies net)
    (note_leader n (net_leaders net)).

Section Net.
Context `{GobEntry} {F : Type} `{FSM F}.

(** The state file has the term and the vote of the node. *)
Definition synced (n : Node) : Prop :=
  n_saved n = Some (mkPS (n_term n) (n_votedFor n))
  \/ (n_saved n = None /\ n_term n = 0%N /\ n_votedFor n = "").

(** The handlers other than those of the election, with any message, any
    outcome of their disk writes ([ok], [io]), and in the parts in which they
    hold the mutex. *)
Inductive calm_step (n : Node) : Node -> Prop :=
| cs_append ok ios args n' r :
    handleAppendEntries ok ios n args = Some (n', r) -> calm_step n n'
| cs_append_reply ok peer args nextIdx r n' :
    handleAppendReply ok n peer args nextIdx r = Some n' -> calm_step n n'
| cs_snapshot_begin ok args n' : install_begin ok n args = Ok n' -> calm_step n n'
| cs_snapshot_finish args : calm_step n (install_finish n args)
| cs_snapshot_reply ok peer args r : calm_step n (handleSnapshotReply ok n peer args r)
| cs_propose io cmd n' r : propose_log io n cmd = Some (n', r) -> calm_step n n'
| cs_advance n' : tryAdvanceCommitIndex n = Some n' -> calm_step n n'
| cs_apply (f : F) pc : calm_step n (apply_step n f pc).1.1.1
| cs_restart io n' :
    synced n -> NewNode io (n_id n) (n_peers n) (l_file (n_log n)) (n_saved n) = Some n' -> calm_step n n'.

Inductive net_step (net : Net) : Net -> Prop :=
| ns_timeout ok i n io n' reqs :
    net_nodes net !! i = Some n -> IsLeader n = false -> (n_term n + 1 < two64)%N ->
    becomeCandidate ok io n = Some (n', reqs) ->
    net_step net
      (let net' := set_node net i n' in
       mkNet (net_nodes net') (reqs ++ net_reqs net') (net_replies net') (net_leaders net'))
| ns_request ok1 ok2 pre i args post n n' r :
    net_reqs net = pre ++ (i, args) :: post -> net_nodes net !! i = Some n ->
    handleRequestVote ok1 ok2 n args = Some (n', r) ->
    net_step net
      (let net' := set_node net i n' in
       mkNet (net_nodes net') (pre ++ post)
         (mkVoteReply (rv_CandidateID args) (rv_Term args) i r :: net_replies net') (net_leaders net'))
| ns_reply ok pre v post io n n' :
    net_replies net = pre ++ v :: post -> net_nodes net !! vr_cand v = Some n ->
    handleVoteReply ok io n (vr_term v) (vr_reply v) = Some n' ->
    net_step net
      (let net' := set_node net (vr_cand v) n' in
       mkNet (net_nodes net') (net_reqs net') (pre ++ post) (net_leaders net'))
| ns_calm i n n' :
    net_nodes net !! i = Some n -> calm_step n n' -> net_step net (set_node net i n').

(** A cluster at its first start: every node knows all the others. *)
Definition cluster_ok (I : gset NodeID) (nodes : gmap NodeID Node) : Prop :=
  dom nodes = I /\ "" ∉ I
  /\ forall i n, nodes !! i = Some n -> n_id n = i /\ dom (n_peers n) = I ∖ {[i]}.

Definition fresh (n : Node) : Prop :=
  n_role n = Follower /\ n_saved n = Some (mkPS (n_term n) (n_votedFor n))
  \/ n_role n = Follower /\ n_saved n = None /\ n_term n = 0%N /\ n_votedFor n = "".

Inductive net_reach (I : gset NodeID) : Net -> Prop :=
| nr_init nodes :
    cluster_ok I nodes -> (forall i n, nodes !! i = Some n -> fresh n) ->
    net_reach I (mkNet nodes [] [] ∅)
| nr_step net net' : net_reach I net -> net_step net net' -> net_reach I net'.

(** ** What the quiet handlers keep *)

Record calm (n n' : Node) : Prop := {
  ca_id : n_id n' = n_id n;
  ca_peers : n_peers n' = n_peers n;
  ca_vote :
    (n_term n' = n_term n /\ n_votedFor n' = n_votedFor n
      /\ ((n_role n' = n_role n /\ n_votesReceived n' = n_votesReceived n) \/ n_role n' = Follower))
    \/ ((n_term n < n_term n')%N /\ n_votedFor n' = "" /\ n_role n' = Follower);
}.

Lemma calm_refl n : calm n n.
Proof. split; try done. left. auto. Qed.

Lemma calm_fields n n' :
  n_id n' = n_id n -> n_peers n' = n_peers n -> n_term n' = n_term n ->
  n_votedFor n' = n_votedFor n -> n_role n' = n_role n -> n_votesReceived n' = n_votesReceived n ->
  calm n n'.
Proof. intros E1 E2 E4 E5 E6 E7. split; try done. left. split_and!; auto. Qed.

Lemma calm_follower ok n term : (n_term n < term)%N -> calm n (becomeFollower ok n term).
Proof. intros Ht. unfold becomeFollower. destruct ok; (split; [done|done|]); right; done. Qed.

(** After a calm step, one that changes nothing the election reads. *)
Lemma calm_then n n1 n2 :
  calm n n1 -> n_id n2 = n_id n1 -> n_peers n2 = n_peers n1 ->
  n_term n2 = n_term n1 -> n_votedFor n2 = n_votedFor n1 -> n_role n2 = n_role n1 ->
  n_votesReceived n2 = n_votesReceived n1 -> calm n n2.
Proof.
  intros [C1 C2 C4] E1 E2 E4 E5 E6 E7. split; [congruence|congruence|]. rewrite E4, E5, E6, E7. exact C4.
Qed.

Lemma advance_loop_fields k n :
  let n' := advance_loop k n in
  n_id n' = n_id n /\ n_peers n' = n_peers n /\ n_term n' = n_term n
  /\ n_votedFor n' = n_votedFor n /\ n_role n' = n_role n /\ n_votesReceived n' = n_votesReceived n.
Proof. induction k as [|k IH]; simpl; [done|]. by destruct (can_commit _ _). Qed.

Lemma tryAdvance_fields n n' :
  tryAdvanceCommitIndex n = Some n' ->
  n_id n' = n_id n /\ n_peers n' = n_peers n /\ n_term n' = n_term n
  /\ n_votedFor n' = n_votedFor n /\ n_role n' = n_role n /\ n_votesReceived n' = n_votesReceived n.
Proof.
  unfold tryAdvanceCommitIndex. destruct (negb _); [by intros [= <-]|].
  destruct (LastIndex _); [|done]. intros [= <-]. apply advance_loop_fields.
Qed.

Lemma apply_step_fields n (f : F) pc :
  let n' := (apply_step n f pc).1.1.1 in
  n_id n' = n_id n /\ n_peers n' = n_peers n /\ n_term n' = n_term n
  /\ n_votedFor n' = n_votedFor n /\ n_role n' = n_role n /\ n_votesReceived n' = n_votesReceived n.
Proof. destruct pc; simpl; try done. by destruct (fsm_Apply f e). Qed.

Lemma calm_step_calm n n' : calm_step n n' -> calm n n'.
Proof.
  intros Hs. destruct Hs as [ok ios args n' r Ha|ok peer args nextIdx r n' Ha|ok args n' Ha|args|ok peer args r
    |io cmd n' r Ha|n' Ha|f pc|io n' Hsy Ha].
  - revert Ha. unfold handleAppendEntries. destruct (N.ltb_spec (ae_Term args) (n_term n));
      [intros [= <- _]; apply calm_refl|].
    set (n1 := if (n_term n <? ae_Term args)%N then _ else n).
    assert (C1 : calm n n1).
    { unfold n1. destruct (N.ltb_spec (n_term n) (ae_Term args)); [by apply calm_follower|apply calm_refl]. }
    set (n2 := if bool_decide _ then _ else _).
    assert (C2 : calm n n2).
    { unfold n2. case_bool_decide as Hr; simpl in Hr; [|by eapply calm_then].
      destruct C1 as [? ? Hv]. split; try done. simpl. destruct Hv as [(? & ? & _)|(? & ? & ?)].
      - left. auto.
      - right. auto. }
    clearbody n2. destruct (_ && _).
    { destruct (LastIndex (n_log n2)); [|done]. by intros [= <- _]. }
    destruct (append_loop ios (n_log n2) (ae_Entries args)) as [l [|]].
    + destruct (n_commitIndex _ <? _)%N; [destruct (LastIndex l); [|done]|]; intros [= <- _];
        by eapply calm_then.
    + intros [= <- _]. by eapply calm_then.
  - revert Ha. unfold handleAppendReply.
    destruct (N.ltb_spec (n_term n) (aer_Term r)); [intros [= <-]; by apply calm_follower|].
    destruct (_ || _); [intros [= <-]; apply calm_refl|]. destruct (aer_Success r).
    + intros Ht. apply tryAdvance_fields in Ht as (E1 & E2 & E4 & E5 & E6 & E7). simpl in *.
      destruct (_ <? _)%N; apply calm_fields; done.
    + destruct (_ <? _)%N; [intros [= <-]; by apply calm_fields|].
      destruct (_ <? _)%N; intros [= <-]; [by apply calm_fields|apply calm_refl].
  - revert Ha. unfold install_begin. destruct (_ <? _)%N; [done|]. intros [= <-].
    destruct (N.ltb_spec (n_term n) (is_Term args)); [|apply calm_refl].
    destruct ok; (split; [done|done|]); by right.
  - unfold install_finish. repeat case_match; by apply calm_fields.
  - unfold handleSnapshotReply. destruct (N.ltb_spec (n_term n) (isr_Term r)); [by apply calm_follower|].
    destruct (IsLeader n); [by apply calm_fields|apply calm_refl].
  - revert Ha. unfold propose_log.
    destruct (LastIndex (n_log n)) as [i|]; [|done]. destruct (Append _ _ _) as [l ok].
    destruct (negb ok); intros [= <- _]; by apply calm_fields.
  - apply tryAdvance_fields in Ha as (E1 & E2 & E4 & E5 & E6 & E7). by apply calm_fields.
  - destruct (apply_step_fields n f pc) as (E1 & E2 & E4 & E5 & E6 & E7). by apply calm_fields.
  - revert Ha. unfold NewNode. destruct (NewRaftLog _ _) as [l|]; [|done].
    destruct Hsy as [Hsy|(Hsy & Ht & Hv)]; rewrite Hsy; intros [= <-]; (split; [done|done|]); left; auto.
Qed.

(** ** The invariant

    [G] maps a term and a candidate to the nodes that ever granted it their
    vote, [K] to those whose vote it has counted. *)

Notation Votes := (gmap (N * NodeID) (gset NodeID)).
Definition votes (G : Votes) (t : N) (c : NodeID) : gset NodeID := default ∅ (G !! (t, c)).

Definition add_vote (G : Votes) (t : N) (c i : NodeID) : Votes :=
  <[(t, c) := {[i]} ∪ votes G t c]> G.

Lemma votes_add G t c i t' c' x :
  x ∈ votes (add_vote G t c i) t' c' <-> (t' = t /\ c' = c /\ x = i) \/ x ∈ votes G t' c'.
Proof.
  unfold votes, add_vote. rewrite lookup_insert. case_decide as Hd; simpl.
  - injection Hd as <- <-. unfold votes. set_solver.
  - split; [auto|]. intros [(-> & -> & ->)|?]; [congruence|done].
Qed.

(** The messages of the vote of [voter] for [c] in term [t]. *)
Definition req_key (m : NodeID * RequestVoteArgs) : NodeID * N * NodeID :=
  (m.1, rv_Term m.2, rv_CandidateID m.2).
Definition reply_key (v : VoteReply) : NodeID * N * NodeID := (vr_from v, vr_term v, vr_cand v).

Definition keys (net : Net) : list (NodeID * N * NodeID) :=
  (req_key <$> net_reqs net) ++ (reply_key <$> net_replies net).

Definition quorum (I : gset NodeID) : nat := size I / 2 + 1.

Record net_inv (I : gset NodeID) (net : Net) (G K : Votes) : Prop := {
  ni_cluster : cluster_ok I (net_nodes net);
  (* a node votes once per term *)
  ni_once : forall t c1 c2 i, i ∈ votes G t c1 -> i ∈ votes G t c2 -> c1 = c2;
  ni_vote : forall t c i, i ∈ votes G t c ->
    exists n, net_nodes net !! i = Some n /\ (t <= n_term n)%N /\ (n_term n = t -> n_votedFor n = c);
  ni_cand : forall t c i, i ∈ votes G t c -> c <> "";
  (* the messages of an election *)
  ni_keys : NoDup (keys net);
  ni_key : forall i t c, (i, t, c) ∈ keys net ->
    i <> c /\ c <> "" /\ i ∉ votes K t c
    /\ exists n, net_nodes net !! c = Some n /\ (t <= n_term n)%N;
  ni_granted : forall v, v ∈ net_replies net -> rvr_VoteGranted (vr_reply v) = true ->
    vr_from v ∈ votes G (vr_term v) (vr_cand v);
  ni_counted : forall t c i, i ∈ votes K t c -> i ∈ votes G t c /\ i <> c;
  ni_countedT : forall t c i n, i ∈ votes K t c -> net_nodes net !! c = Some n -> (t <= n_term n)%N;
  (* candidates and leaders *)
  ni_candidate : forall i n, net_nodes net !! i = Some n -> n_role n = Candidate ->
    i ∈ votes G (n_term n) i /\ n_votesReceived n = 1 + size (votes K (n_term n) i);
  ni_leader : forall i n, net_nodes net !! i = Some n -> n_role n = Leader ->
    (n_term n, i) ∈ net_leaders net;
  ni_leaders : forall t c, (t, c) ∈ net_leaders net -> quorum I <= size (votes G t c);
}.

Lemma votes_cluster I net G K t c : net_inv I net G K -> votes G t c ⊆ I.
Proof.
  intros HI i Hi. destruct (ni_vote _ _ _ _ HI _ _ _ Hi) as (n & Hn & _).
  destruct (ni_cluster _ _ _ _ HI) as (<- & _). by apply elem_of_dom.
Qed.

(** Two quorums share a node. *)
Lemma quorum_meet (I A B : gset NodeID) :
  A ⊆ I -> B ⊆ I -> quorum I <= size A -> quorum I <= size B -> exists i, i ∈ A /\ i ∈ B.
Proof.
  intros HA HB HqA HqB. destruct (decide (A ∩ B = ∅)) as [He|He].
  - assert (Hd : size (A ∪ B) = size A + size B) by (apply size_union; set_solver).
    assert (Hs : size (A ∪ B) <= size I) by (apply subseteq_size; set_solver).
    unfold quorum in *. pose proof (Nat.div_mod_eq (size I) 2).
    pose proof (Nat.mod_upper_bound (size I) 2). lia.
  - apply set_choose_L in He as [i Hi]. exists i. set_solver.
Qed.

Lemma majority_quorum I net G K i n :
  net_inv I net G K -> net_nodes net !! i = Some n -> majority n = quorum I.
Proof.
  intros HI Hn. destruct (ni_cluster _ _ _ _ HI) as (Hd & _ & Hp). destruct (Hp _ _ Hn) as [_ Hdom].
  unfold majority, quorum. f_equal. f_equal. rewrite <-size_dom, Hdom.
  assert (Hi : i ∈ I) by (rewrite <-Hd; by apply elem_of_dom).
  rewrite size_difference by set_solver. rewrite size_singleton.
  assert (size I <> 0) by (intros He%size_empty_inv; set_solver). lia.
Qed.

Lemma cluster_update I nodes i n n' :
  cluster_ok I nodes -> nodes !! i = Some n -> n_id n' = n_id n -> n_peers n' = n_peers n ->
  cluster_ok I (<[i := n']> nodes).
Proof.
  intros (Hd & He & Hp) Hn Hid Hpe. split_and!; [|done|].
  - rewrite dom_insert_lookup_L by (by eexists). done.
  - intros j x. rewrite lookup_insert. case_decide as Hij; [|apply Hp].
    subst j. intros [= <-]. rewrite Hid, Hpe. by apply Hp.
Qed.

Lemma elem_note_leader n s x :
  x ∈ note_leader n s <-> x ∈ s \/ (n_role n = Leader /\ x = (n_term n, n_id n)).
Proof.
  unfold note_leader, IsLeader. case_bool_decide; set_solver.
Qed.

(** What one node's step asks for: the rest of the invariant is about the
    other nodes and carries over. *)
Record node_ok (I : gset NodeID) (net : Net) (G K : Votes) (i : NodeID) (n' : Node) : Prop := {
  no_vote : forall t c, i ∈ votes G t c -> (t <= n_term n')%N /\ (n_term n' = t -> n_votedFor n' = c);
  no_candidate : n_role n' = Candidate ->
    i ∈ votes G (n_term n') i /\ n_votesReceived n' = 1 + size (votes K (n_term n') i);
  no_leader : n_role n' = Leader -> quorum I <= size (votes G (n_term n') i);
}.

(** [G'] adds votes of node [i], [K'] adds votes counted by node [i]. *)
Record votes_ext (net : Net) (G K G' K' : Votes) (i : NodeID) (n' : Node) : Prop := {
  ve_sub : forall t c, votes G t c ⊆ votes G' t c;
  ve_new : forall t c x, x ∈ votes G' t c -> x <> i -> x ∈ votes G t c;
  ve_once : forall t c1 c2, i ∈ votes G' t c1 -> i ∈ votes G' t c2 -> c1 = c2;
  ve_cand : forall t c, i ∈ votes G' t c -> c <> "";
  ve_others : forall t c, c <> i -> votes K' t c = votes K t c;
  ve_counted : forall t x, x ∈ votes K' t i -> x ∈ votes K t i
    \/ (x ∈ votes G' t i /\ x <> i /\ (t <= n_term n')%N /\ (x, t, i) ∉ keys net);
}.

Lemma votes_ext_refl I net G K i n' : net_inv I net G K -> votes_ext net G K G K i n'.
Proof.
  intros HI. split; try done; auto.
  - intros t c1 c2. apply (ni_once _ _ _ _ HI).
  - intros t c. apply (ni_cand _ _ _ _ HI).
Qed.

Lemma inv_update I net G K G' K' i n n' :
  net_inv I net G K -> net_nodes net !! i = Some n ->
  n_id n' = n_id n -> n_peers n' = n_peers n -> (n_term n <= n_term n')%N ->
  votes_ext net G K G' K' i n' -> node_ok I net G' K' i n' -> net_inv I (set_node net i n') G' K'.
Proof.
  intros HI Hn Hid Hpe Hterm [V1 V2 V3 V4 V5 V6] [N2 N3 N4].
  pose proof (ni_cluster _ _ _ _ HI) as Hcl. assert (Hidi : n_id n' = i) by (rewrite Hid; by apply Hcl).
  split; simpl.
  - by eapply cluster_update.
  - intros t c1 c2 j. destruct (decide (j = i)) as [->|Hji]; [apply V3|]. intros Hj1 Hj2.
    apply (ni_once _ _ _ _ HI t c1 c2 j); by apply V2.
  - intros t c j Hj. rewrite lookup_insert. case_decide as Hij.
    + subst j. exists n'. split; [done|]. by apply N2.
    + apply (ni_vote _ _ _ _ HI). by apply V2; [|congruence].
  - intros t c j Hj. destruct (decide (j = i)) as [->|Hji]; [by eapply V4|].
    by eapply (ni_cand _ _ _ _ HI), V2.
  - apply (ni_keys _ _ _ _ HI).
  - intros j t c Hj. destruct (ni_key _ _ _ _ HI _ _ _ Hj) as (? & ? & Hnk & x & Hx & Ht).
    split_and!; try done.
    + destruct (decide (c = i)) as [->|Hci]; [|by rewrite V5]. intros [?|(_ & _ & _ & ?)]%V6; done.
    + rewrite lookup_insert. case_decide as Hij; [|eauto].
      subst c. exists n'. split; [done|]. simplify_eq. lia.
  - intros v Hv Hg. apply V1. by apply (ni_granted _ _ _ _ HI).
  - intros t c j Hj. destruct (decide (c = i)) as [->|Hci].
    + apply V6 in Hj as [Hj|(? & ? & _)]; [|done]. apply (ni_counted _ _ _ _ HI) in Hj as [? ?].
      split; [by apply V1|done].
    + rewrite V5 in Hj by done. apply (ni_counted _ _ _ _ HI) in Hj as [? ?]. split; [by apply V1|done].
  - intros t c j x Hj. rewrite lookup_insert. case_decide as Hij.
    + subst c. intros [= <-]. apply V6 in Hj as [Hj|(_ & _ & ? & _)]; [|done].
      pose proof (ni_countedT _ _ _ _ HI _ _ _ _ Hj Hn). lia.
    + rewrite V5 in Hj by done. by apply (ni_countedT _ _ _ _ HI _ _ _ _ Hj).
  - intros j x. rewrite lookup_insert. case_decide as Hij; [subst j; by intros [= <-]|].
    intros Hx Hr. destruct (ni_candidate _ _ _ _ HI j x Hx Hr) as [? Hsz]. rewrite V5 by congruence.
    split; [by apply V1|done].
  - intros j x. rewrite lookup_insert, elem_note_leader. case_decide as Hij.
    + subst j. intros [= <-] Hr. right. split; [done|]. by rewrite Hidi.
    + intros Hx Hr. left. by apply (ni_leader _ _ _ _ HI).
  - intros t c. rewrite elem_note_leader. intros [Hl|[Hr [= -> ->]]]; [|rewrite Hidi; by apply N4].
    apply (ni_leaders _ _ _ _ HI) in Hl. pose proof (subseteq_size _ _ (V1 t c)). lia.
Qed.

Lemma inv_calm I net G K i n n' :
  net_inv I net G K -> net_nodes net !! i = Some n -> calm n n' -> net_inv I (set_node net i n') G K.
Proof.
  intros HI Hn [C1 C2 C4].
  assert (Hv : forall t c, i ∈ votes G t c -> (t <= n_term n)%N /\ (n_term n = t -> n_votedFor n = c)).
  { intros t c Hi. destruct (ni_vote _ _ _ _ HI _ _ _ Hi) as (x & Hx & ?). by simplify_eq. }
  apply (inv_update I net G K G K i n n'); try done; [|by apply (votes_ext_refl I)|].
  { destruct C4 as [(-> & _)|(? & _)]; lia. }
  split.
  - intros t c Hi. destruct (Hv t c Hi) as [H1 H2]. destruct C4 as [(-> & -> & _)|(? & _)]; [done|].
    split; [lia|]. intros <-. lia.
  - destruct C4 as [(Ht & _ & [(Hr & Hvr)|Hr])|(_ & _ & Hr)]; rewrite Hr; try done.
    intros Hc. rewrite Ht, Hvr. by apply (ni_candidate _ _ _ _ HI).
  - destruct C4 as [(Ht & _ & [(Hr & Hvr)|Hr])|(_ & _ & Hr)]; rewrite Hr; try done.
    intros Hc. rewrite Ht. apply (ni_leaders _ _ _ _ HI). by apply (ni_leader _ _ _ _ HI).
Qed.

(** More votes, and other messages. *)
Lemma inv_messages I net G K reqs replies :
  net_inv I net G K ->
  (forall x, x ∈ (req_key <$> reqs) ++ (reply_key <$> replies) -> x ∈ keys net) ->
  NoDup ((req_key <$> reqs) ++ (reply_key <$> replies)) ->
  (forall v, v ∈ replies -> rvr_VoteGranted (vr_reply v) = true ->
     vr_from v ∈ votes G (vr_term v) (vr_cand v)) ->
  net_inv I (mkNet (net_nodes net) reqs replies (net_leaders net)) G K.
Proof.
  intros HI Hk Hn Hg. split; try apply HI; try done.
  intros i t c Hi. by apply (ni_key _ _ _ _ HI), Hk.
Qed.

(** ** The election steps *)

Lemma becomeLeader_fields io n n' :
  becomeLeader io n = Some n' ->
  n_id n' = n_id n /\ n_peers n' = n_peers n /\ n_term n' = n_term n
  /\ n_votedFor n' = n_votedFor n /\ n_role n' = Leader.
Proof. unfold becomeLeader. destruct (LastIndex _); [|done]. by intros [= <-]. Qed.

Lemma becomeCandidate_spec ok io n n' reqs :
  (n_term n + 1 < two64)%N -> becomeCandidate ok io n = Some (n', reqs) ->
  n_id n' = n_id n /\ n_peers n' = n_peers n /\ n_term n' = (n_term n + 1)%N
  /\ n_votedFor n' = n_id n
  /\ ((n_role n' = Candidate /\ n_votesReceived n' = 1)
      \/ (n_role n' = Leader /\ size (n_peers n) = 0))
  /\ (req_key <$> reqs) = (fun p => (p, (n_term n + 1)%N, n_id n)) <$> (map_to_list (n_peers n)).*1.
Proof.
  intros Hb. unfold becomeCandidate. rewrite u64_add_small by done.
  set (n1 := persistState _ _).
  assert (Hn1 : n_id n1 = n_id n /\ n_peers n1 = n_peers n /\ n_term n1 = (n_term n + 1)%N /\ n_votedFor n1 = n_id n
    /\ n_role n1 = Candidate /\ n_votesReceived n1 = 1) by (unfold n1; by destruct ok).
  destruct Hn1 as (D1 & D2 & D3 & D4 & D5 & D6). clearbody n1. destruct (LastIndex _) as [li|]; [|done].
  destruct (LastTerm _) as [lt|]; [|done].
  assert (Hkeys : forall a, rv_Term a = (n_term n + 1)%N -> rv_CandidateID a = n_id n ->
    req_key <$> ((fun pa : NodeID * string => (pa.1, a)) <$> map_to_list (n_peers n))
    = (fun p => (p, (n_term n + 1)%N, n_id n)) <$> (map_to_list (n_peers n)).*1).
  { intros a Ha1 Ha2. rewrite <-!list_fmap_compose. apply list_fmap_ext. intros _ [p q] _.
    unfold req_key. simpl. by rewrite Ha1, Ha2. }
  rewrite D1, D2.
  destruct ((size (n_peers n) =? 0) && _) eqn:Hsz.
  - destruct (becomeLeader io n1) as [n2|] eqn:Hl; [|done]. intros [= <- <-].
    apply becomeLeader_fields in Hl as (E1 & E2 & E4 & E5 & E6).
    apply andb_true_iff in Hsz as [Hsz%Nat.eqb_eq _].
    split_and!; try congruence; [by right|by apply Hkeys].
  - intros [= <- <-]. split_and!; try congruence; [by left|by apply Hkeys].
Qed.

Lemma inv_timeout I net G K ok i n io n' reqs :
  net_inv I net G K -> net_nodes net !! i = Some n -> (n_term n + 1 < two64)%N ->
  becomeCandidate ok io n = Some (n', reqs) ->
  let net' := set_node net i n' in
  net_inv I (mkNet (net_nodes net') (reqs ++ net_reqs net') (net_replies net') (net_leaders net'))
    (add_vote G (n_term n + 1) i i) K.
Proof.
  intros HI Hn Hb Hc net'. apply becomeCandidate_spec in Hc as (E1 & E2 & E4 & E5 & E6 & E7); [|done].
  destruct (ni_cluster _ _ _ _ HI) as (Hd & Hne & Hp). destruct (Hp _ _ Hn) as [Hid Hpe].
  rewrite Hid in E5, E7. set (T := (n_term n + 1)%N) in *. set (G' := add_vote G T i i).
  assert (Hi : i ∈ I) by (rewrite <-Hd; by apply elem_of_dom).
  assert (Hold : forall t c, i ∈ votes G t c -> (t <= n_term n)%N).
  { intros t c Hic. destruct (ni_vote _ _ _ _ HI _ _ _ Hic) as (x & Hx & ? & _). by simplify_eq. }
  assert (HK : votes K T i = ∅).
  { apply set_eq. intros x. split; [|set_solver]. intros Hx.
    pose proof (ni_countedT _ _ _ _ HI _ _ _ _ Hx Hn). lia. }
  assert (HI1 : net_inv I (set_node net i n') G' K).
  { apply (inv_update I net G K G' K i n n'); try done; [rewrite E4; unfold T; lia| |].
    - split; try done; auto.
      + intros t c x Hx. apply votes_add. by right.
      + intros t c x [(_ & _ & ->)|?]%votes_add Hxi; [done|done].
      + intros t c1 c2 [(-> & -> & _)|H1]%votes_add [(Ht & -> & _)|H2]%votes_add; try done.
        * apply Hold in H2. lia.
        * apply Hold in H1. lia.
        * by apply (ni_once _ _ _ _ HI t c1 c2 i).
      + intros t c [(_ & -> & _)|H1]%votes_add; [congruence|]. by eapply (ni_cand _ _ _ _ HI).
    - split.
      + rewrite E4. intros t c [(-> & -> & _)|H1]%votes_add; [done|]. apply Hold in H1.
        split; [lia|]. intros <-. lia.
      + rewrite E4. destruct E6 as [[_ Hv]|[Hr _]]; [|congruence]. intros _.
        split; [apply votes_add; auto|]. by rewrite HK, size_empty.
      + rewrite E4. destruct E6 as [[Hr _]|[_ Hs]]; [congruence|]. intros _.
        assert (HsI : size I = 1).
        { rewrite <-size_dom, Hpe, size_difference, size_singleton in Hs by set_solver.
          assert (size I <> 0) by (intros He%size_empty_inv; set_solver). lia. }
        unfold quorum. rewrite HsI. assert (size (votes G' T i) <> 0); [|simpl; lia].
        intros He%size_empty_inv. assert (i ∈ votes G' T i) by (apply votes_add; auto). set_solver. }
  assert (Hfresh : forall x t, (x, t, i) ∈ keys net -> (t <= n_term n)%N).
  { intros x t Hx. destruct (ni_key _ _ _ _ HI _ _ _ Hx) as (_ & _ & _ & y & Hy & ?). by simplify_eq. }
  assert (Hk : keys (mkNet (net_nodes net') (reqs ++ net_reqs net') (net_replies net') (net_leaders net')) = (req_key <$> reqs) ++ keys net).
  { unfold keys. simpl. by rewrite fmap_app, <-app_assoc. }
  assert (Hnew : forall k, k ∈ (req_key <$> reqs) -> exists p, p ∈ dom (n_peers n) /\ k = (p, T, i)).
  { intros k. rewrite E7. intros (p & -> & ([p' a] & -> & Hpa%elem_of_map_to_list)%list_elem_of_fmap)%list_elem_of_fmap.
    exists p'. split; [by apply elem_of_dom|done]. }
  destruct HI1 as [J1 J3 J4 J5 J6 J7 J8 J9 J10 J11 J12 J13].
  split; try done; rewrite Hk.
  - apply NoDup_app. split_and!; [|intros k Hk1 Hk2|apply (ni_keys _ _ _ _ HI)].
    + rewrite E7. apply NoDup_fmap_2; [intros ? ? [= ?]; done|]. apply NoDup_fst_map_to_list.
    + destruct (Hnew k Hk1) as (p & _ & ->). apply Hfresh in Hk2. lia.
  - intros x t c [Hx|Hx]%elem_of_app; [|by apply J7]. destruct (Hnew _ Hx) as (p & Hpd & [= -> -> ->]).
    rewrite Hpe in Hpd. apply elem_of_difference in Hpd as [_ Hpd%not_elem_of_singleton].
    split_and!; [done|congruence|rewrite HK; apply not_elem_of_empty|].
    exists n'. split; [simpl; by rewrite lookup_insert_eq|]. lia.
Qed.

Lemma handleRequestVote_spec ok1 ok2 n args n' r :
  handleRequestVote ok1 ok2 n args = Some (n', r) ->
  exists n1, calm n n1
  /\ ((n' = n1 /\ rvr_VoteGranted r = false)
      \/ (n_term n1 = rv_Term args /\ (n_votedFor n1 = "" \/ n_votedFor n1 = rv_CandidateID args)
          /\ n_id n' = n_id n1 /\ n_peers n' = n_peers n1 /\ n_term n' = n_term n1 /\ n_role n' = n_role n1
          /\ n_votesReceived n' = n_votesReceived n1 /\ n_votedFor n' = rv_CandidateID args)).
Proof.
  unfold handleRequestVote. destruct (N.ltb_spec (rv_Term args) (n_term n)) as [Hlt|Hge].
  { intros [= <- <-]. exists n. split; [apply calm_refl|by left]. }
  set (n1 := if (n_term n <? rv_Term args)%N then _ else n).
  assert (H1 : calm n n1 /\ n_term n1 = rv_Term args).
  { unfold n1. destruct (N.ltb_spec (n_term n) (rv_Term args)); [split; [by apply calm_follower|by destruct ok1]|].
    split; [apply calm_refl|lia]. }
  clearbody n1. destruct H1 as [C1 Ht]. destruct (LastIndex _); [|done]. destruct (LastTerm _); [|done].
  destruct (_ && _) eqn:Hg; intros [= <- <-]; exists n1; (split; [done|]); [right|by left].
  assert (Hv : n_votedFor n1 = "" \/ n_votedFor n1 = rv_CandidateID args)
    by (apply andb_true_iff in Hg as [[Hv%String.eqb_eq|Hv%String.eqb_eq]%orb_true_iff _]; auto).
  by destruct ok2.
Qed.

Lemma set_node_twice net i n1 n2 :
  n_role n2 = n_role n1 -> n_term n2 = n_term n1 -> n_id n2 = n_id n1 ->
  set_node (set_node net i n1) i n2 = set_node net i n2.
Proof.
  intros E1 E2 E3. unfold set_node. simpl. rewrite insert_insert_eq. f_equal.
  unfold note_leader, IsLeader. rewrite E1, E2, E3. case_bool_decide; set_solver.
Qed.

Lemma inv_request I net G K ok1 ok2 pre i args post n n' r :
  net_inv I net G K -> net_reqs net = pre ++ (i, args) :: post -> net_nodes net !! i = Some n ->
  handleRequestVote ok1 ok2 n args = Some (n', r) ->
  let net' := set_node net i n' in
  exists G', net_inv I (mkNet (net_nodes net') (pre ++ post)
    (mkVoteReply (rv_CandidateID args) (rv_Term args) i r :: net_replies net') (net_leaders net')) G' K.
Proof.
  intros HI Hq Hn Hr net'. set (c := rv_CandidateID args) in *. set (t := rv_Term args) in *.
  assert (Hkey : (i, t, c) ∈ keys net).
  { unfold keys. rewrite Hq, fmap_app. simpl. set_solver. }
  destruct (ni_key _ _ _ _ HI _ _ _ Hkey) as (Hic & Hc & _).
  assert (Hperm : ((req_key <$> (pre ++ post)) ++ (reply_key <$> mkVoteReply c t i r :: net_replies net'))
    ≡ₚ keys net).
  { unfold keys. rewrite Hq, !fmap_app, !fmap_cons. change (net_replies net') with (net_replies net).
    change (reply_key _) with (req_key (i, args)).
    solve_Permutation. }
  assert (Hstep : exists G', net_inv I net' G' K /\ (rvr_VoteGranted r = true -> i ∈ votes G' t c)).
  { apply handleRequestVote_spec in Hr as (n1 & C1 & [[-> Hg]|(Ht & Hv & D1 & D2 & D3 & D4 & D5 & D6)]).
    { exists G. split; [by eapply inv_calm|congruence]. }
    fold c in Hv. fold t in Ht. pose proof (inv_calm _ _ _ _ _ _ _ HI Hn C1) as HI1. set (net1 := set_node net i n1) in *.
    assert (Hn1 : net_nodes net1 !! i = Some n1) by apply lookup_insert_eq.
    exists (add_vote G t c i). split; [|intros _; apply votes_add; auto].
    unfold net'. erewrite <-(set_node_twice net i n1) by done. fold net1.
    assert (Hold : forall t' c', i ∈ votes G t' c' -> (t' <= t)%N /\ (t' = t -> c' = c)).
    { intros t' c' Hi. destruct (ni_vote _ _ _ _ HI1 _ _ _ Hi) as (x & Hx & Hle & Hfor).
      rewrite Hn1 in Hx. injection Hx as <-. rewrite Ht in Hle, Hfor. split; [done|]. intros ->.
      specialize (Hfor eq_refl). pose proof (ni_cand _ _ _ _ HI1 _ _ _ Hi). destruct Hv; congruence. }
    apply (inv_update I net1 G K _ K i n1); try done; [lia| |].
    - split; try done; auto.
      + intros t' c' x Hx. apply votes_add. by right.
      + by intros t' c' x [(_ & _ & ->)|?]%votes_add Hxi.
      + intros t' c1 c2 [(-> & -> & _)|H1]%votes_add [(Ht' & -> & _)|H2]%votes_add; try done.
        * by symmetry; apply (proj2 (Hold _ _ H2)).
        * subst t'. by apply (proj2 (Hold _ _ H1)).
        * by apply (ni_once _ _ _ _ HI1 t' c1 c2 i).
      + intros t' c' [(_ & -> & _)|H1]%votes_add; [done|]. by eapply (ni_cand _ _ _ _ HI1).
    - split; rewrite ?D3, ?D4, ?D5, ?D6; fold c.
      + rewrite Ht. intros t' c' [(-> & -> & _)|H1]%votes_add; [done|]. destruct (Hold _ _ H1) as [? Heq].
        split; [done|]. intros <-. by rewrite Heq.
      + intros Hrole. destruct (ni_candidate _ _ _ _ HI1 _ _ Hn1 Hrole) as [? ?].
        split; [apply votes_add; by right|done].
      + intros Hrole. pose proof (ni_leaders _ _ _ _ HI1 _ _ (ni_leader _ _ _ _ HI1 _ _ Hn1 Hrole)) as Hq1.
        etrans; [exact Hq1|]. apply subseteq_size. intros x Hx. apply votes_add. by right. }
  destruct Hstep as (G' & HI' & Hg'). exists G'. apply (inv_messages I net'); [done|..].
  - intros x. by rewrite Hperm.
  - rewrite Hperm. apply (ni_keys _ _ _ _ HI).
  - intros v [->|Hv]%elem_of_cons Hg; [by apply Hg'|]. by apply (ni_granted _ _ _ _ HI').
Qed.

Lemma handleVoteReply_spec ok io n t r n' :
  handleVoteReply ok io n t r = Some n' ->
  calm n n'
  \/ (n_role n = Candidate /\ n_term n = t /\ rvr_VoteGranted r = true
      /\ n_id n' = n_id n /\ n_peers n' = n_peers n /\ n_term n' = n_term n
      /\ n_votedFor n' = n_votedFor n
      /\ ((n_role n' = Candidate /\ n_votesReceived n' = n_votesReceived n + 1)
          \/ (n_role n' = Leader /\ majority n <= n_votesReceived n + 1))).
Proof.
  unfold handleVoteReply. destruct (N.ltb_spec (n_term n) (rvr_Term r)).
  { intros [= <-]. left. by apply calm_follower. }
  destruct (_ || _) eqn:Hc; [intros [= <-]; left; apply calm_refl|].
  apply orb_false_iff in Hc as [Hc%negb_false_iff%bool_decide_eq_true Ht%negb_false_iff%N.eqb_eq].
  destruct (rvr_VoteGranted r); [|intros [= <-]; left; apply calm_refl].
  destruct (Nat.leb_spec (majority (with_votesReceived n (n_votesReceived n + 1)))
    (n_votesReceived (with_votesReceived n (n_votesReceived n + 1)))) as [Hm|Hm].
  - intros (E1 & E2 & E4 & E5 & E6)%becomeLeader_fields. right. split_and!; try done. by right.
  - intros [= <-]. right. split_and!; try done. by left.
Qed.

Lemma inv_reply I net G K ok pre v post io n n' :
  net_inv I net G K -> net_replies net = pre ++ v :: post -> net_nodes net !! vr_cand v = Some n ->
  handleVoteReply ok io n (vr_term v) (vr_reply v) = Some n' ->
  let net' := set_node net (vr_cand v) n' in
  exists K', net_inv I (mkNet (net_nodes net') (net_reqs net') (pre ++ post) (net_leaders net')) G K'.
Proof.
  intros HI Hq Hn Hr net'. set (c := vr_cand v) in *. set (x := vr_from v). set (t := vr_term v) in *.
  assert (Hperm : keys net ≡ₚ (x, t, c) :: (req_key <$> net_reqs net) ++ (reply_key <$> (pre ++ post))).
  { unfold keys. rewrite Hq, !fmap_app, !fmap_cons. change (reply_key v) with (x, t, c).
    solve_Permutation. }
  assert (Hkey : (x, t, c) ∈ keys net) by (rewrite Hperm; by left).
  destruct (ni_key _ _ _ _ HI _ _ _ Hkey) as (Hxc & _ & HxK & _).
  pose proof (ni_keys _ _ _ _ HI) as Hnd. rewrite Hperm in Hnd. apply NoDup_cons in Hnd as [Hnin Hnd].
  assert (Hv : v ∈ net_replies net) by (rewrite Hq; set_solver).
  pose proof (ni_granted _ _ _ _ HI v Hv) as Hgr. fold x t c in Hgr.
  set (net0 := mkNet (net_nodes net) (net_reqs net) (pre ++ post) (net_leaders net)).
  assert (HI0 : net_inv I net0 G K).
  { apply inv_messages; [done| |done|].
    - intros k Hk. rewrite Hperm. by right.
    - intros w Hw. apply (ni_granted _ _ _ _ HI). rewrite Hq. set_solver. }
  change (exists K', net_inv I (set_node net0 c n') G K').
  apply handleVoteReply_spec in Hr as [C|(Hrole & Ht & Hg & E1 & E2 & E4 & E5 & Hres)].
  { exists K. by eapply inv_calm. }
  destruct (ni_candidate _ _ _ _ HI0 _ _ Hn Hrole) as [Hself Hcount]. rewrite Ht in Hself, Hcount.
  assert (HK' : votes (add_vote K t c x) t c = {[x]} ∪ votes K t c).
  { apply set_eq. intros y. rewrite votes_add. set_solver. }
  assert (Hsz : size (votes (add_vote K t c x) t c) = 1 + size (votes K t c)).
  { rewrite HK', size_union, size_singleton; [done|]. set_solver. }
  exists (add_vote K t c x). apply (inv_update I net0 G K G _ c n n'); try done; [lia| |].
  - split; try done.
    + intros t' c1 c2. apply (ni_once _ _ _ _ HI).
    + intros t' c'. apply (ni_cand _ _ _ _ HI).
    + intros t' c' Hc'. apply set_eq. intros y. rewrite votes_add. naive_solver.
    + intros t' y [(-> & _ & ->)|?]%votes_add; [|by left]. right.
      split_and!; [by apply Hgr|done|lia|exact Hnin].
  - split.
    + intros t' c' Hc'. destruct (ni_vote _ _ _ _ HI0 _ _ _ Hc') as (y & Hy & Hle & Hfor).
      simpl in Hy. rewrite Hn in Hy. injection Hy as <-. by rewrite E4, E5.
    + rewrite E4, Ht, Hsz. destruct Hres as [[_ Hc1]|[Hl _]]; [|congruence]. intros _. split; [done|]. lia.
    + rewrite E4, Ht. destruct Hres as [[Hc1 _]|[_ Hm]]; [congruence|]. intros _.
      rewrite (majority_quorum I net0 G K c n HI0 Hn) in Hm.
      transitivity (size ({[c]} ∪ ({[x]} ∪ votes K t c))).
      * assert (Hcn : c ∉ {[x]} ∪ votes K t c).
        { intros [Hx%elem_of_singleton|HK]%elem_of_union; [congruence|].
          by apply (ni_counted _ _ _ _ HI) in HK as [_ ?]. }
        rewrite size_union, size_singleton by set_solver. rewrite <-HK', Hsz. lia.
      * apply subseteq_size. intros y [->%elem_of_singleton|[->%elem_of_singleton|HK]%elem_of_union]%elem_of_union;
          [done|by apply Hgr|]. by apply (ni_counted _ _ _ _ HI) in HK as [? _].
Qed.

Lemma votes_empty t c : votes ∅ t c = ∅.
Proof. done. Qed.

Lemma net_reach_inv I net : net_reach I net -> exists G K, net_inv I net G K.
Proof.
  induction 1 as [nodes Hcl Hf|net net' Hr (G & K & HI) Hs].
  - exists ∅, ∅. split; simpl; try (intros *; rewrite ?votes_empty; set_solver); try done.
    + by apply NoDup_nil.
    + intros i n Hn Hc. destruct (Hf i n Hn) as [[? _]|(? & _)]; congruence.
    + intros i n Hn Hc. destruct (Hf i n Hn) as [[? _]|(? & _)]; congruence.
  - destruct Hs as [ok i n io n' reqs Hn _ Hb Hc|ok1 ok2 pre i args post n n' r Hq Hn Hc|ok pre v post io n n' Hq Hn Hc
      |i n n' Hn Hc].
    + eexists _, K. by eapply inv_timeout.
    + edestruct inv_request as [G' HI']; eauto.
    + edestruct inv_reply as [K' HI']; eauto.
    + exists G, K. eapply inv_calm; [done..|]. by apply calm_step_calm.
Qed.

(** C12. Election safety: whatever messages arrive, in whatever order, however
    the handlers interleave where they give up the mutex and whichever saves
    of the state files fail, no term has two leaders, as long as a reply to a
    vote request reaches the goroutine that sent the request and a node
    restarts only when its state file has its current term and vote. *)
Theorem election_safety I net t c1 c2 :
  net_reach I net -> (t, c1) ∈ net_leaders net -> (t, c2) ∈ net_leaders net -> c1 = c2.
Proof.
  intros Hr H1 H2. destruct (net_reach_inv _ _ Hr) as (G & K & HI).
  apply (ni_leaders _ _ _ _ HI) in H1. apply (ni_leaders _ _ _ _ HI) in H2.
  destruct (quorum_meet I (votes G t c1) (votes G t c2)) as (i & Hi1 & Hi2); try done.
  - by eapply votes_cluster.
  - by eapply votes_cluster.
  - by apply (ni_once _ _ _ _ HI t c1 c2 i).
Qed.
End Net.

(** ** A run of three nodes *)

Module Demo.
Local Existing Instance demo_gob.
Local Existing Instance demo_fsm.

Definition ids : gset NodeID := {["a"; "b"; "c"]}.

Definition start (id : NodeID) : Node :=
  default (mkNode id ∅ Follower 0 "" (mkLog [] []) 0 0 ∅ ∅ "" ∅ 0 0 0 None None)
    (NewNode DiskOk id (delete id {["a" := "h1"; "b" := "h2"; "c" := "h3"]}) [] None).

Definition net0 : Net :=
  mkNet {["a" := start "a"; "b" := start "b"; "c" := start "c"]} [] [] ∅.

Definition cand_a : Node * list (NodeID * RequestVoteArgs) :=
  default (start "a", []) (becomeCandidate true DiskOk (start "a")).

Definition args_a : RequestVoteArgs := mkRVArgs 1 "a" 0 0.

Definition voted_b : Node * RequestVoteReply :=
  default (start "b", mkRVReply 0 false) (handleRequestVote true false (start "b") args_a).

Definition leader_a : Node :=
  default (start "a") (handleVoteReply true DiskOk cand_a.1 1 voted_b.2).

Lemma demo_nodes (P : NodeID -> Node -> Prop) :
  P "a" (start "a") -> P "b" (start "b") -> P "c" (start "c") ->
  forall i n, net_nodes net0 !! i = Some n -> P i n.
Proof.
  intros Ha Hb Hc i n Hn. unfold net0 in Hn. simpl in Hn.
  repeat (apply lookup_insert_Some in Hn as [[<- <-]|[_ Hn]]; [done|]).
  by apply lookup_singleton_Some in Hn as [<- <-].
Qed.

(** Node a times out, asks b for its vote and is elected; b's vote is not
    saved. *)
Lemma demo_election : exists net, net_reach (F := list Entry) ids net /\ (1%N, "a") ∈ net_leaders net.
Proof.
  eexists. split.
  - eapply nr_step; [eapply nr_step; [eapply nr_step; [apply (nr_init ids (net_nodes net0))|]|]|].
    + split_and!; [by vm_compute|by apply (bool_decide_unpack _); vm_compute|].
      by apply demo_nodes; split; vm_compute.
    + apply demo_nodes; right; by vm_compute.
    + apply (ns_timeout _ true "a" (start "a") DiskOk cand_a.1 cand_a.2); try by vm_compute.
    + apply (ns_request _ true false [("c", args_a)] "b" args_a [] (start "b") voted_b.1 voted_b.2); by vm_compute.
    + apply (ns_reply _ true [] (mkVoteReply "a" 1 "b" voted_b.2) [] DiskOk cand_a.1 leader_a); by vm_compute.
  - apply (bool_decide_unpack _). by vm_compute.
Qed.

Lemma election_safety_witness : exists net,
  (1%N, "a") ∈ net_leaders net /\ (forall c, (1%N, c) ∈ net_leaders net -> c = "a").
Proof.
  destruct demo_election as (net & Hr & Ha). exists net. split; [exact Ha|].
  intros c Hc. exact (election_safety ids net 1 c "a" Hr Hc Ha).
Defined.

(** When the state file cannot be written the vote is granted all the same;
    node b, restarted, votes again in the term, and both candidates win. *)
Definition args_c : RequestVoteArgs := mkRVArgs 1 "c" 0 0.

Theorem unsaved_vote_two_leaders :
  exists b1 b2 b3 r1 r2 la lc,
    handleRequestVote false false (start "b") args_a = Some (b1, r1)
    /\ NewNode DiskOk (n_id b1) (n_peers b1) (l_file (n_log b1)) (n_saved b1) = Some b2
    /\ handleRequestVote true true b2 args_c = Some (b3, r2)
    /\ (n ← fst <$> becomeCandidate true DiskOk (start "a"); handleVoteReply true DiskOk n 1 r1) = Some la
    /\ (n ← fst <$> becomeCandidate true DiskOk (start "c"); handleVoteReply true DiskOk n 1 r2) = Some lc
    /\ IsLeader la = true /\ IsLeader lc = true /\ n_term la = n_term lc.
Proof.
  do 7 eexists. split_and!; try (vm_compute; reflexivity).
Qed.
End Demo.
