(* ===== verification/RaftLog.v ===== *)
(** * Replicating and applying the log

    The log file of [Raft] read back, AppendEntries on a follower, the
    leader's commit rule and the apply loop; and what goes wrong after a
    conflict and after a snapshot. *)

From Stdlib Require Import NArith Lia Strings.Byte String.
From stdpp Require Import base tactics numbers list gmap strings.
From S2P Require Import Prelude Types Raft.

(** ** The log file *)

Section File.
Context `{GobEntry}.

(** The entry is read back from its own bytes, which fit a frame. *)
Definition entry_ok (e : Entry) : Prop :=
  gob_entry_decode (gob_entry e) = Some e
  /\ 0 < length (gob_entry e) /\ (N.of_nat (length (gob_entry e)) < 4294967296)%N.

Lemma load_loop_frame fuel e rest :
  entry_ok e -> load_loop (S fuel) (entry_frame e ++ rest) = e :: load_loop fuel rest.
Proof.
  intros (Hd & Hpos & Hlen). unfold entry_frame, encodeEntry. rewrite <-app_assoc.
  set (body := gob_entry e) in *. cbn [load_loop].
  destruct (le_put 4 (N.of_nat (length body)) ++ body ++ rest) as [|x xs] eqn:E.
  { apply (f_equal length) in E. rewrite !length_app, le_put_length in E. done. }
  rewrite <-E, le_get_field, drop_le_put, Nat2N.id by (simpl; lia).
  rewrite (proj2 (Nat.ltb_lt _ _) Hpos), length_app.
  replace (length body + length rest =? 0) with false by (symmetry; apply Nat.eqb_neq; lia). simpl.
  rewrite take_app_length, drop_app_length.
  replace (length body - (length body + length rest)) with 0 by lia. simpl. by rewrite app_nil_r, Hd.
Qed.

Lemma load_loop_file es fuel :
  Forall entry_ok es -> length es < fuel -> load_loop fuel (file_of es) = es.
Proof.
  intros Hes. revert fuel. induction Hes as [|e es He Hes IH]; intros fuel Hf.
  - by destruct fuel.
  - destruct fuel as [|fuel]; [simpl in Hf; lia|]. change (file_of (e :: es)) with (entry_frame e ++ file_of es).
    rewrite load_loop_frame by done. f_equal. apply IH. simpl in Hf. lia.
Qed.

Lemma file_of_length es : length es <= length (file_of es).
Proof.
  induction es as [|e es IH]; [done|]. change (file_of (e :: es)) with (entry_frame e ++ file_of es).
  rewrite length_app. unfold entry_frame. rewrite length_app, le_put_length. simpl. lia.
Qed.

Lemma log_file_reload es io :
  es <> [] -> Forall entry_ok es -> NewRaftLog io (file_of es) = Some (mkLog es (file_of es)).
Proof.
  intros Hne Hok. unfold NewRaftLog. pose proof (file_of_length es) as Hl.
  destruct (Nat.eqb_spec (length (file_of es)) 0) as [Hz|_].
  { destruct es; [done|simpl in *; lia]. }
  unfold loadFromDisk. rewrite load_loop_file by (done || lia). by destruct es.
Qed.

(** The calls that rewrite the file, with the outcome of each write. *)
Inductive LogOp := LAppend (io : DiskIO) (es : list Entry) | LTruncate (io : DiskIO) (index : N).

Definition log_exec (l : RaftLog) (o : LogOp) : RaftLog * bool :=
  match o with
  | LAppend io es => Append io l es
  | LTruncate io index => TruncateAfter io l index
  end.

Definition log_run (l : RaftLog) (os : list LogOp) : RaftLog := foldl (fun l o => (log_exec l o).1) l os.

Definition op_ok (o : LogOp) : Prop :=
  match o with LAppend _ es => Forall entry_ok es | LTruncate _ _ => True end.

Lemma writeToDisk_entries io l : l_entries (writeToDisk io l).1 = l_entries l.
Proof. by destruct io. Qed.

(** The sentinel entry stays in front. *)
Definition log_ok (l : RaftLog) : Prop := Forall entry_ok (l_entries l) /\ head (l_entries l) = Some dummy.

Lemma log_exec_ok l o : op_ok o -> log_ok l -> log_ok (log_exec l o).1.
Proof.
  intros Ho [Hf Hh]. destruct l as [[|e es] file]; [done|]. injection Hh as ->.
  unfold log_ok. destruct o as [io es'|io i]; simpl; unfold Append, TruncateAfter; rewrite writeToDisk_entries; simpl.
  - split; [|done]. by apply (Forall_app_2 _ (dummy :: es)).
  - rewrite (proj2 (N.leb_le _ _) (N.le_0_l i)). split; [|done].
    apply Forall_cons in Hf as [Hd Hf]. constructor; [done|].
    rewrite Forall_forall in Hf |- *. intros x Hx. apply Hf.
    apply list_elem_of_In, List.filter_In in Hx as [Hx _]. by apply list_elem_of_In.
Qed.

Lemma log_run_ok os l : Forall op_ok os -> log_ok l -> log_ok (log_run l os).
Proof.
  intros Hos. revert l. induction Hos as [|o os Ho Hos IH]; intros l Hl; [done|].
  simpl. apply IH. by apply log_exec_ok.
Qed.

(** C31. After any appends and truncations after an index, whatever writes
    failed half-way, a call that succeeds has put the whole log on disk: a
    node restarted from the file has exactly the log the call left. *)
Theorem raft_log_restart os o io l l' :
  NewRaftLog DiskOk [] = Some l -> entry_ok dummy -> Forall op_ok (os ++ [o]) ->
  log_exec (log_run l os) o = (l', true) ->
  NewRaftLog io (l_file l') = Some l'.
Proof.
  intros Hl Hd Hos He. apply Forall_app in Hos as [Hos Ho]. apply (Forall_singleton op_ok) in Ho.
  assert (Hok : log_ok l').
  { replace l' with (log_exec (log_run l os) o).1 by (by rewrite He). apply log_exec_ok; [exact Ho|].
    apply log_run_ok; [done|]. injection Hl as <-. split; [by constructor|done]. }
  assert (Hf : l_file l' = file_of (l_entries l')).
  { revert He. by destruct o as [[]|[]]; intros [= <-]. }
  destruct Hok as [Hok Hh]. rewrite Hf, log_file_reload; [|by destruct (l_entries l')|done].
  rewrite <-Hf. by destruct l'.
Qed.
End File.

(** ** Appending on a follower *)

Section Replication.
Context `{GobEntry}.

Lemma Get_Some l i e : Get l i = Some e -> e ∈ l_entries l /\ e_Index e = i.
Proof.
  unfold Get. intros Hf. apply List.find_some in Hf as [Hi Hx%N.eqb_eq]. split; [|done].
  by apply list_elem_of_In.
Qed.

Lemma Get_None l i : Get l i = None <-> forall e, e ∈ l_entries l -> e_Index e <> i.
Proof.
  unfold Get. split.
  - intros Hf e He Hi. apply list_elem_of_In in He. pose proof (List.find_none _ _ Hf e He) as Hx. simpl in Hx.
    apply N.eqb_neq in Hx. done.
  - intros Hn. destruct (List.find _ _) as [e|] eqn:Hf; [|done].
    apply List.find_some in Hf as [Hi Hx%N.eqb_eq]. apply list_elem_of_In in Hi. by apply Hn in Hi.
Qed.

Lemma Get_app es1 es2 f f' i :
  Get (mkLog (es1 ++ es2) f) i
  = match Get (mkLog es1 f') i with Some e => Some e | None => Get (mkLog es2 f') i end.
Proof.
  unfold Get. simpl. induction es1 as [|e es1 IH]; simpl; [done|]. by destruct (e_Index e =? i)%N.
Qed.

(** The log agrees with the entry: it has one of its index and term. *)
Definition has (l : RaftLog) (e : Entry) : Prop :=
  exists e', Get l (e_Index e) = Some e' /\ e_Term e' = e_Term e.

(** No entry of [es] meets one of another term. *)
Definition no_conflict (l : RaftLog) (es : list Entry) : Prop :=
  (forall e e', e ∈ es -> Get l (e_Index e) = Some e' -> e_Term e' = e_Term e)
  /\ NoDup (e_Index <$> es).

Lemma append_loop_ok ios l es l' :
  no_conflict l es -> append_loop ios l es = (l', true) ->
  (forall e, e ∈ es -> has l' e) /\ (forall i e, Get l i = Some e -> Get l' i = Some e)
  /\ (forall i, Get l i = None -> i ∉ (e_Index <$> es) -> Get l' i = None).
Proof.
  revert ios l. induction es as [|e es IH]; intros ios l [Hc Hn] Ha; simpl in Ha.
  { injection Ha as <-. split_and!; [set_solver|done|done]. }
  simpl in Hn. apply NoDup_cons in Hn as [Hnin Hn].
  destruct (Get l (e_Index e)) as [ex|] eqn:Hg.
  - pose proof (Hc e ex) as Ht. rewrite Ht in Ha; [|by left|done]. rewrite N.eqb_refl in Ha. simpl in Ha.
    apply IH in Ha as (H1 & H2 & H3).
    + split_and!; [|done|].
      * intros e0 [->|He]%elem_of_cons; [|by apply H1]. exists ex. split; [by apply H2|].
        apply Ht; [by left|done].
      * intros i Hi Hni. apply H3; [done|set_solver].
    + split; [|done]. intros e0 e' He. apply Hc. by right.
  - destruct (Append _ l [e]) as [l1 [|]] eqn:Happ; [|done].
    assert (Hl1 : l_entries l1 = l_entries l ++ [e]).
    { unfold Append, writeToDisk in Happ. destruct (default _ _); by injection Happ as <-. }
    assert (HG : forall i, Get l1 i = match Get l i with Some x => Some x
        | None => if (e_Index e =? i)%N then Some e else None end).
    { intros i. destruct l1 as [es1 f1], l as [es0 f0]. simpl in Hl1. subst es1.
      rewrite (Get_app _ _ f1 f0). destruct (Get (mkLog es0 f0) i); [done|]. unfold Get. simpl. done. }
    apply IH in Ha as (H1 & H2 & H3).
    + split_and!.
      * intros e0 [->|He]%elem_of_cons; [|by apply H1]. exists e. split; [|done].
        apply H2. by rewrite HG, Hg, N.eqb_refl.
      * intros i x Hi. apply H2. by rewrite HG, Hi.
      * intros i Hi Hni. apply H3; [|set_solver]. rewrite HG, Hi.
        destruct (N.eqb_spec (e_Index e) i); [set_solver|done].
    + split; [|done]. intros e0 e' He. rewrite HG. destruct (Get l (e_Index e0)) as [x|] eqn:Hx.
      * intros [= <-]. apply (Hc e0); [by right|done].
      * destruct (N.eqb_spec (e_Index e) (e_Index e0)) as [Heq|_]; [|done].
        exfalso. apply Hnin. rewrite Heq. by apply list_elem_of_fmap_2.
Qed.

(** C27. A successful AppendEntries whose entries conflict with nothing leaves
    the follower with all of them, keeps what it had, and commits no further
    than the leader and its own log. *)
Theorem handleAppendEntries_replicates ok ios n args n' r :
  no_conflict (n_log n) (ae_Entries args) ->
  handleAppendEntries ok ios n args = Some (n', r) -> aer_Success r = true ->
  (n_term n <= ae_Term args)%N /\ n_term n' = ae_Term args
  /\ (ae_PrevLogIndex args <> 0%N ->
        exists e, Get (n_log n) (ae_PrevLogIndex args) = Some e /\ e_Term e = ae_PrevLogTerm args)
  /\ (forall e, e ∈ ae_Entries args -> has (n_log n') e)
  /\ (forall i e, Get (n_log n) i = Some e -> Get (n_log n') i = Some e)
  /\ (n_commitIndex n' = n_commitIndex n
      \/ exists last, LastIndex (n_log n') = Some last
           /\ n_commitIndex n' = N.min last (ae_LeaderCommit args)).
Proof.
  intros Hc. unfold handleAppendEntries.
  destruct (N.ltb_spec (ae_Term args) (n_term n)) as [|Hge]; [by intros [= _ <-]|].
  set (n1 := if (n_term n <? ae_Term args)%N then _ else n).
  assert (H1 : n_term n1 = ae_Term args /\ n_log n1 = n_log n /\ n_commitIndex n1 = n_commitIndex n).
  { unfold n1. destruct (N.ltb_spec (n_term n) (ae_Term args)).
    - unfold becomeFollower, persistState. by destruct ok.
    - split_and!; [lia|done|done]. }
  clearbody n1. destruct H1 as (Et & El & Ec).
  set (n2 := if bool_decide _ then _ else _).
  assert (H2 : n_term n2 = ae_Term args /\ n_log n2 = n_log n /\ n_commitIndex n2 = n_commitIndex n).
  { unfold n2. by case_bool_decide. }
  clearbody n2. clear Et El Ec. destruct H2 as (Et & El & Ec). rewrite El.
  destruct (_ && _) eqn:Hp; [destruct (LastIndex _); [|done]; case_match; by intros [= _ <-]|].
  destruct (append_loop _ _ _) as [l [|]] eqn:Ha; [|by intros [= _ <-]].
  apply append_loop_ok in Ha as (A1 & A2 & _); [|done].
  assert (Hprev : ae_PrevLogIndex args <> 0%N ->
    exists e, Get (n_log n) (ae_PrevLogIndex args) = Some e /\ e_Term e = ae_PrevLogTerm args).
  { intros Hz. apply andb_false_iff in Hp as [Hp%N.ltb_ge|Hp]; [lia|]. destruct (Get _ _) as [e|]; [|done].
    apply negb_false_iff, N.eqb_eq in Hp. eauto. }
  clear Hp. destruct (_ <? _)%N.
  - destruct (LastIndex l) as [li|] eqn:Hli; [|done]. intros [= <- <-] _.
    split_and!; try done. right. eauto.
  - intros [= <- <-] _. split_and!; try done. by left.
Qed.

(** On a conflict the follower's entries are cut but the leader's entry is
    not put in their place, and the reply says success. *)
Theorem append_conflict_entry_lost n args e ex ok :
  n_term n = ae_Term args -> ae_PrevLogIndex args = 0%N -> ae_Entries args = [e] ->
  ae_LeaderCommit args = 0%N ->
  Get (n_log n) (e_Index e) = Some ex -> e_Term ex <> e_Term e -> (1 <= e_Index e)%N -> (e_Index e < two64)%N ->
  exists n' r, handleAppendEntries ok [DiskOk] n args = Some (n', r) /\ aer_Success r = true
    /\ n_log n' = (TruncateAfter DiskOk (n_log n) (e_Index e - 1)).1 /\ Get (n_log n') (e_Index e) = None.
Proof.
  intros Ht Hp He Hlc Hg Hne Hi1 Hi2. unfold handleAppendEntries.
  rewrite Ht, N.ltb_irrefl. set (n2 := if bool_decide _ then _ else _).
  assert (H2 : n_log n2 = n_log n /\ n_commitIndex n2 = n_commitIndex n) by (unfold n2; by case_bool_decide).
  destruct H2 as [El Ec]. rewrite Hp. simpl. rewrite El, He. simpl. rewrite Hg.
  rewrite (proj2 (N.eqb_neq _ _) Hne). simpl. rewrite u64_sub_small by done.
  rewrite Hlc. rewrite (proj2 (N.ltb_ge _ _) (N.le_0_l _)).
  eexists _, _. split; [reflexivity|]. simpl. split_and!; try done. apply Get_None.
  intros x Hx Heq. apply list_elem_of_In, List.filter_In in Hx as [_ Hx%N.leb_le]. lia.
Qed.

(** ** The commit rule *)

(** The peers known to have the entry at [i], and the leader itself. *)
Definition replicas (n : Node) (i : N) : nat :=
  1 + length (List.filter (fun x => (i <=? x)%N) (map_to_list (n_matchIndex n)).*2).

Lemma can_commit_spec n i :
  can_commit n i = true <->
  exists e, Get (n_log n) i = Some e /\ e_Term e = n_term n /\ majority n <= replicas n i.
Proof.
  unfold can_commit, replicas. destruct (Get _ _) as [e|]; [|naive_solver].
  rewrite andb_true_iff, N.eqb_eq, Nat.leb_le. naive_solver.
Qed.

Lemma advance_loop_spec k n :
  let n' := advance_loop k n in
  (n_commitIndex n' = n_commitIndex n
     /\ forall i, (n_commitIndex n < i <= n_commitIndex n + N.of_nat k)%N -> can_commit n i = false)
  \/ ((n_commitIndex n < n_commitIndex n' <= n_commitIndex n + N.of_nat k)%N
     /\ can_commit n (n_commitIndex n') = true
     /\ forall i, (n_commitIndex n' < i <= n_commitIndex n + N.of_nat k)%N -> can_commit n i = false).
Proof.
  induction k as [|k IH]; cbn [advance_loop]; [left; split; [done|lia]|].
  destruct (can_commit n (n_commitIndex n + N.of_nat (S k))) eqn:Hc.
  { right. simpl n_commitIndex. split_and!; [lia|lia|done|lia]. }
  assert (Hstep : forall i, (i <= n_commitIndex n + N.of_nat (S k))%N ->
    (i <= n_commitIndex n + N.of_nat k)%N \/ can_commit n i = false).
  { intros i Hi. destruct (decide (i = (n_commitIndex n + N.of_nat (S k))%N)) as [->|]; [by right|left; lia]. }
  destruct IH as [[E Hn]|(Hr & Ht & Hn)]; [left|right].
  - split; [done|]. intros i [? Hi]. destruct (Hstep i Hi); [by apply Hn|done].
  - split_and!; [lia|lia|done|]. intros i [? Hi]. destruct (Hstep i Hi); [by apply Hn|done].
Qed.


(** ** The apply loop *)

Context {F : Type} `{FSM F}.

(** The entries of the log at [from], [from + 1], ... *)
Definition at_indexes (l : RaftLog) (from : N) (es : list Entry) : Prop :=
  forall k e, es !! k = Some e -> Get l (from + N.of_nat k) = Some e.

Definition apply_all (f : F) (es : list Entry) : F := foldl (fun f e => (fsm_Apply f e).1) f es.

(** The answers to the proposals, each with its own entry's error. *)
Fixpoint answers (f : F) (pending : gset N) (es : list Entry) : list (N * option GoError) :=
  match es with
  | [] => []
  | e :: es =>
      let '(f', err) := fsm_Apply f e in
      (if bool_decide (e_Index e ∈ pending) then [(e_Index e, err)] else [])
      ++ answers f' pending es
  end.

Lemma Get_filter_above l i idx f :
  (idx < i)%N -> Get (mkLog (List.filter (fun e => (idx <? e_Index e)%N) (l_entries l)) f) i = Get l i.
Proof.
  intros Hi. unfold Get. simpl. induction (l_entries l) as [|e es IH]; simpl; [done|].
  destruct (N.ltb_spec idx (e_Index e)); simpl; [by rewrite IH|]. rewrite IH.
  destruct (N.eqb_spec (e_Index e) i); [lia|done].
Qed.

Lemma apply_one_spec n (f : F) e :
  let r := apply_one n f e in
  n_commitIndex r.1.1 = n_commitIndex n /\ n_lastApplied r.1.1 = e_Index e
  /\ n_pending r.1.1 = n_pending n ∖ {[e_Index e]} /\ r.1.2 = (fsm_Apply f e).1
  /\ r.2 = (if bool_decide (e_Index e ∈ n_pending n) then [(e_Index e, (fsm_Apply f e).2)] else [])
  /\ (forall i, (e_Index e < i)%N -> Get (n_log r.1.1) i = Get (n_log n) i).
Proof.
  unfold apply_one. destruct (fsm_Apply f e) as [f1 err]. simpl.
  destruct (_ <=? _)%N; simpl; [|done]. unfold triggerSnapshot.
  destruct (fsm_Snapshot f1); simpl; [|done]. split_and!; try done.
  intros i Hi. unfold TruncateBefore. by apply Get_filter_above.
Qed.

Lemma answers_pending f p es i :
  (forall e, e ∈ es -> e_Index e <> i) -> answers f (p ∖ {[i]}) es = answers f p es.
Proof.
  revert f. induction es as [|e es IH]; intros f Hn; simpl; [done|].
  destruct (fsm_Apply f e) as [f' err]. rewrite IH by set_solver. f_equal.
  assert (e_Index e <> i) by (apply Hn; by left).
  do 2 case_bool_decide; set_solver.
Qed.

Lemma apply_loop_spec es k n (f : F) :
  at_indexes (n_log n) (n_lastApplied n + 1) es ->
  n_commitIndex n = (n_lastApplied n + N.of_nat (length es))%N -> (n_commitIndex n < two64)%N ->
  length es <= k ->
  let r := apply_loop k n f in
  n_lastApplied r.1.1 = n_commitIndex n /\ n_commitIndex r.1.1 = n_commitIndex n
  /\ r.1.2 = apply_all f es /\ r.2 = answers f (n_pending n) es.
Proof.
  revert k n f. induction es as [|e es IH]; intros k n f Hat Hlen Hb Hk.
  { simpl in Hlen. destruct k; simpl; [by split_and!; try lia|]. unfold apply_pick.
    rewrite (proj2 (N.leb_le _ _)) by lia. by split_and!; try (simpl; lia). }
  destruct k as [|k]; [simpl in Hk; lia|]. cbn [apply_loop]. simpl in Hlen. unfold apply_pick.
  rewrite (proj2 (N.leb_gt _ _)) by lia. rewrite u64_add_small by lia.
  pose proof (Hat 0 e eq_refl) as Hg. rewrite N.add_0_r in Hg. rewrite Hg.
  apply Get_Some in Hg as [_ Hi].
  pose proof (apply_one_spec n f e) as Ho. destruct (apply_one n f e) as [[n2 f2] a2]. simpl in Ho.
  destruct Ho as (O1 & O2 & O3 & O4 & O5 & O6).
  specialize (IH k n2 f2). rewrite O1, O2, Hi in IH.
  destruct (apply_loop k n2 f2) as [[n3 f3] a3]. simpl in IH |- *.
  destruct IH as (I1 & I2 & I3 & I4); [|lia|done|simpl in Hk; lia|].
  { intros j x Hj. rewrite O6 by lia. specialize (Hat (S j) x Hj).
    rewrite <-Hat. f_equal. lia. }
  split_and!; [done|done|by rewrite I3, O4|]. rewrite I4, O5, O4, O3.
  destruct (fsm_Apply f e) as [f' err]. simpl. rewrite answers_pending; [done|].
  intros x [j Hj]%list_elem_of_lookup Heq. specialize (Hat (S j) x Hj).
  apply Get_Some in Hat as [_ Hx]. lia.
Qed.


(** ** The parts of [applyCommitted] *)

Lemma apply_steps_app j k n (f : F) pc :
  apply_steps (j + k) n f pc
  = let '(n, f, pc, a) := apply_steps j n f pc in let '(n, f, pc, a') := apply_steps k n f pc in (n, f, pc, a ++ a').
Proof.
  revert n f pc. induction j as [|j IH]; intros n f pc; simpl.
  { by destruct (apply_steps k n f pc) as [[[n' f'] pc'] a]. }
  destruct (apply_step n f pc) as [[[n1 f1] pc1] a1]. rewrite IH.
  destruct (apply_steps j n1 f1 pc1) as [[[n2 f2] pc2] a2].
  destruct (apply_steps k n2 f2 pc2) as [[[n3 f3] pc3] a3]. by rewrite app_assoc.
Qed.

Lemma apply_one_steps n (f : F) i e :
  apply_pick n = Some i -> Get (n_log n) i = Some e ->
  exists j, apply_steps j n f ApLoop = ((apply_one n f e).1.1, (apply_one n f e).1.2, ApLoop, (apply_one n f e).2).
Proof.
  intros Hp Hg. assert (Hi : e_Index e = i) by (by apply Get_Some in Hg as [_ ?]).
  unfold apply_one. rewrite Hi. destruct (fsm_Apply f e) as [f1 err] eqn:Hf. unfold triggerSnapshot.
  destruct (apply_mark n i) as [n1 s] eqn:Hm. destruct (apply_answer n1 i err) as [n2 a] eqn:Ha.
  destruct s; [destruct (fsm_Snapshot f1) as [d|] eqn:Hs; [exists 7|exists 6]|exists 5];
    cbn [apply_steps apply_step]; rewrite Hp; cbn [apply_step]; rewrite Hg; cbn [apply_step]; rewrite Hf; cbn [apply_step];
    rewrite Hm; cbn [apply_step]; rewrite Ha; cbn [apply_step]; rewrite ?Hs; cbn; by rewrite ?app_nil_r.
Qed.

(** Run without a step of another goroutine in between, the parts do what
    [applyCommitted] does. *)
Theorem applyCommitted_steps n (f : F) :
  let r := applyCommitted n f in
  exists j, apply_steps j n f ApLoop = (r.1.1, r.1.2, ApLoop, r.2).
Proof.
  unfold applyCommitted. generalize (S (N.to_nat (n_commitIndex n - n_lastApplied n))) as k.
  intros k. revert n f. induction k as [|k IH]; intros n f; [by exists 0|]. cbn [apply_loop].
  destruct (apply_pick n) as [i|] eqn:Hp; [|by exists 0]. destruct (Get (n_log n) i) as [e|] eqn:Hg; [|by exists 0].
  destruct (apply_one_steps n f i e Hp Hg) as [j1 E1]. destruct (apply_one n f e) as [[n1 f1] a1]. simpl in E1.
  destruct (IH n1 f1) as [j2 E2]. destruct (apply_loop k n1 f1) as [[n2 f2] a2]. simpl in E2 |- *.
  exists (j1 + j2). by rewrite apply_steps_app, E1, E2.
Qed.

(** A snapshot installed while the goroutine of [applyCommitted] is about to
    apply an entry that the snapshot covers: the entry is applied on top of
    the snapshot, the index of the last applied entry goes back to the
    entry's, and since the log no longer has the entry after it the node
    applies nothing any more. *)
Theorem snapshot_during_apply ok n (f : F) i e args n1 f1 :
  apply_pick n = Some i -> Get (n_log n) i = Some e ->
  install_begin ok n args = Ok n1 -> fsm_Restore f (is_Data args) = (f1, None) ->
  (i < is_LastIncludedIndex args)%N -> (is_LastIncludedIndex args < two64)%N ->
  let n2 := install_finish n1 args in
  (is_LastIncludedIndex args <= n_lastApplied n2)%N
  /\ exists n3, (apply_steps 2 n2 f1 (ApRun i e)).1.1 = (n3, (fsm_Apply f1 e).1)
       /\ n_lastApplied n3 = i /\ (i < n_commitIndex n3)%N
       /\ forall g, applyCommitted n3 g = (n3, g, []).
Proof.
  intros Hp Hg Hb Hr Hi Hw n2.
  assert (H2 : (is_LastIncludedIndex args <= n_lastApplied n2)%N /\ (is_LastIncludedIndex args <= n_commitIndex n2)%N
    /\ n_log n2 = TruncateBefore (n_log n1) (is_LastIncludedIndex args)).
  { unfold n2, install_finish. simpl. destruct (N.ltb_spec (n_commitIndex n1) (is_LastIncludedIndex args));
      simpl; destruct (N.ltb_spec (n_lastApplied n1) (is_LastIncludedIndex args)); simpl; by split_and!. }
  destruct H2 as (L1 & L2 & L3). clearbody n2. split; [done|]. simpl. destruct (fsm_Apply f1 e) as [f2 err]. simpl.
  eexists. split; [done|]. cbn [n_lastApplied n_commitIndex with_lastApplied]. split; [done|]. split; [lia|]. intros g.
  unfold applyCommitted. cbn [apply_loop]. unfold apply_pick. cbn [n_lastApplied n_commitIndex n_log with_lastApplied].
  rewrite (proj2 (N.leb_gt _ _)) by lia. rewrite u64_add_small by lia.
  assert (Hn : Get (n_log n2) (i + 1) = None); [|by rewrite Hn].
  apply Get_None. intros x Hx Hxi. rewrite L3 in Hx. simpl in Hx.
  apply list_elem_of_In, List.filter_In in Hx as [_ Hx%N.ltb_lt]. lia.
Qed.

(** ** Snapshots *)

(** A snapshot taken when everything in the log is applied empties the log;
    the next proposal reads the index of its last entry, and panics. *)
Theorem snapshot_of_whole_log_panics io n (f : F) data cmd :
  fsm_Snapshot f = Ok data ->
  (forall e, e ∈ l_entries (n_log n) -> (e_Index e <= n_lastApplied n)%N) ->
  l_entries (n_log (triggerSnapshot n f)) = [] /\ Propose true io (triggerSnapshot n f) cmd = None.
Proof.
  intros Hs Hall. unfold triggerSnapshot, snapshot_take. rewrite Hs.
  set (n1 := with_log _ _). assert (Hnil : l_entries (n_log n1) = []).
  { simpl. induction (l_entries (n_log n)) as [|e es IH]; [done|]. simpl.
    rewrite (proj2 (N.ltb_ge _ _)) by (apply Hall; by left). apply IH. intros x Hx. apply Hall. by right. }
  split; [done|]. unfold Propose, propose_log, LastIndex. simpl negb. by rewrite Hnil.
Qed.

(** The snapshot is kept in memory only. Once the cut log has been written,
    a restarted node has no first entry and applies nothing any more,
    whatever is committed. *)
Theorem restart_after_snapshot_applies_nothing n (f f0 : F) data es l io n2 ci :
  fsm_Snapshot f = Ok data -> (1 <= n_lastApplied n)%N ->
  Append DiskOk (n_log (triggerSnapshot n f)) es = (l, true) ->
  l_entries l <> [] -> Forall entry_ok (l_entries l) ->
  (forall e, e ∈ es -> (n_lastApplied n < e_Index e)%N) ->
  NewNode io (n_id n) (n_peers n) (l_file l) (n_saved n) = Some n2 ->
  n_snapshotData n2 = None /\ (applyCommitted (with_commitIndex n2 ci) f0).1.2 = f0.
Proof.
  intros Hs Hla Ha Hne Hok Hnew. unfold NewNode.
  assert (Hfile : l_file l = file_of (l_entries l)) by (by injection Ha as <-).
  rewrite Hfile, log_file_reload by done. rewrite <-Hfile. replace (mkLog (l_entries l) (l_file l)) with l by (by destruct l).
  assert (Hg : Get l 1 = None).
  { apply Get_None. intros e He Hi. unfold triggerSnapshot in Ha. rewrite Hs in Ha. injection Ha as <-.
    simpl in He. apply elem_of_app in He as [He|He]; [|apply Hnew in He; lia].
    apply list_elem_of_In, List.filter_In in He as [_ He%N.ltb_lt]. lia. }
  destruct (n_saved n) as [ps|]; intros [= <-]; (split; [done|]);
    unfold applyCommitted; cbn [apply_loop]; unfold apply_pick; cbn [n_log n_lastApplied n_commitIndex with_commitIndex];
    destruct (_ <=? _)%N; try done; change (u64_add 0 1) with 1%N; by rewrite Hg.
Qed.
End Replication.

(** ** Runs *)

Module Run.
Local Existing Instance demo_gob.
Local Existing Instance demo_fsm.

Definition cmd (i : N) : Command := mkCommand CmdBegin i "" "" 0 [] [] 0 0.
Definition ent (i t : N) : Entry := mkEntry i t (cmd i).

Definition log (es : list Entry) : RaftLog := mkLog es (file_of es).

Definition node (r : Role) (t : N) (l : RaftLog) (ci la : N) : Node :=
  mkNode "a" {["b" := "h2"; "c" := "h3"]} r t "" l ci la ∅ {["b" := 2%N; "c" := 0%N]} "" {[1%N; 3%N]} 0 0 0
    None None.

Definition half_written : list LogOp := [LAppend DiskOk [ent 1 1; ent 2 1]; LAppend (DiskPart 7) [ent 3 1]].

Lemma raft_log_restart_witness :
  NewRaftLog DiskOk (file_of [dummy; ent 1 1; ent 2 2]) = Some (log [dummy; ent 1 1; ent 2 2]).
Proof.
  apply (raft_log_restart (half_written ++ [LTruncate DiskOk 1]) (LAppend DiskOk [ent 2 2]) DiskOk
    (log [dummy]) (log [dummy; ent 1 1; ent 2 2])).
  - reflexivity.
  - vm_compute. repeat split; lia.
  - repeat constructor; vm_compute; lia.
  - reflexivity.
Defined.

Definition follower : Node := node Follower 1 (log [dummy; ent 1 1]) 0 0.
Definition append_args : AppendEntriesArgs := mkAEArgs 2 "b" 1 1 [ent 2 2; ent 3 2] 3.
Definition appended : Node * AppendEntriesReply :=
  default (follower, mkAEReply 0 false 0 0) (handleAppendEntries true [] follower append_args).

Lemma handleAppendEntries_replicates_witness :
  handleAppendEntries true [] follower append_args = Some appended
  /\ has (n_log appended.1) (ent 3 2) /\ n_commitIndex appended.1 = 3%N.
Proof.
  assert (Heq : handleAppendEntries true [] follower append_args = Some (appended.1, appended.2))
    by (vm_compute; reflexivity).
  split; [vm_compute; reflexivity|]. split; [|vm_compute; reflexivity].
  apply (handleAppendEntries_replicates true [] follower append_args appended.1 appended.2);
    [|exact Heq|vm_compute; reflexivity|right; left].
  split.
  - intros e e' [->|[->|[]%not_elem_of_nil]%elem_of_cons]%elem_of_cons; vm_compute; discriminate.
  - apply (bool_decide_unpack _). vm_compute. exact I.
Defined.

Lemma append_conflict_entry_lost_witness :
  exists n' r,
    handleAppendEntries true [DiskOk] (node Follower 2 (log [dummy; ent 1 1]) 0 0)
      (mkAEArgs 2 "b" 0 0 [ent 1 2] 0) = Some (n', r)
    /\ aer_Success r = true /\ Get (n_log n') 1 = None.
Proof.
  destruct (append_conflict_entry_lost (node Follower 2 (log [dummy; ent 1 1]) 0 0)
    (mkAEArgs 2 "b" 0 0 [ent 1 2] 0) (ent 1 2) (ent 1 1) true)
    as (n' & r & H1 & H2 & _ & H4); try (vm_compute; congruence).
  exists n', r. by split_and!.
Defined.

Definition leader : Node := node Leader 2 (log [dummy; ent 1 1; ent 2 2; ent 3 2]) 0 0.



Lemma snapshot_during_apply_witness :
  let n := with_commitIndex leader 3 in let args := mkISArgs 2 "b" 3 2 [] in
  exists n3, (apply_steps 2 (install_finish n args) ([] : list Entry) (ApRun 1 (ent 1 1))).1.1 = (n3, [ent 1 1])
    /\ n_lastApplied n3 = 1%N /\ applyCommitted n3 [ent 1 1] = (n3, [ent 1 1], []).
Proof.
  intros n args. destruct (snapshot_during_apply true n [] 1 (ent 1 1) args n []) as [_ (n3 & E1 & E2 & _ & E3)];
    try reflexivity.
  exists n3. split; [exact E1|]. split; [exact E2|apply E3].
Defined.

Lemma snapshot_of_whole_log_panics_witness :
  Propose true DiskOk (triggerSnapshot (node Leader 1 (log [dummy; ent 1 1]) 1 1) ([] : list Entry)) (cmd 2) = None.
Proof.
  apply (snapshot_of_whole_log_panics DiskOk (node Leader 1 (log [dummy; ent 1 1]) 1 1) [] [] (cmd 2)).
  - reflexivity.
  - intros e [->|[->|[]%not_elem_of_nil]%elem_of_cons]%elem_of_cons; vm_compute; discriminate.
Defined.

Lemma restart_after_snapshot_applies_nothing_witness :
  exists n2,
    NewNode DiskOk "a" {["b" := "h2"; "c" := "h3"]} (file_of [ent 2 1]) None = Some n2
    /\ (applyCommitted (with_commitIndex n2 2) ([] : list Entry)).1.2 = [].
Proof.
  eexists. split; [reflexivity|].
  apply (restart_after_snapshot_applies_nothing (node Leader 1 (log [dummy; ent 1 1]) 1 1) [] [] []
    [ent 2 1] (log [ent 2 1]) DiskOk).
  - reflexivity.
  - vm_compute. discriminate.
  - reflexivity.
  - discriminate.
  - repeat constructor; vm_compute; lia.
  - intros e [->|[]%not_elem_of_nil]%elem_of_cons. vm_compute. reflexivity.
  - reflexivity.
Defined.
End Run.
