(* ===== verification/RaftLive.v ===== *)
(** * A proposal is carried through

    On a leader that a majority answers, a proposed command is committed,
    applied to the state machine and its caller is answered: [Propose],
    [replicateToPeer] with its replies, the commit rule and the apply loop of
    [Raft] put together. *)

From Stdlib Require Import NArith Lia Strings.Byte String.
From stdpp Require Import base tactics numbers list gmap strings.
From S2P Require Import Prelude Types Raft RaftLog.

Section Consecutive.
Context `{GobEntry}.

(** The entries are numbered one by one from [base] on. *)
Definition consecutive (base : N) (es : list Entry) : Prop :=
  forall k e, es !! k = Some e -> e_Index e = (base + N.of_nat k)%N.

Lemma consecutive_cons base e es :
  consecutive base (e :: es) <-> e_Index e = base /\ consecutive (base + 1) es.
Proof.
  split.
  - intros Hc. split; [rewrite (Hc 0 e); [lia|done]|]. intros k x Hx. rewrite (Hc (S k) x); [lia|done].
  - intros [He Hc] [|k] x Hx; [injection Hx as <-; lia|]. rewrite (Hc k x); [lia|done].
Qed.

Lemma consecutive_snoc base es e :
  consecutive base es -> e_Index e = (base + N.of_nat (length es))%N -> consecutive base (es ++ [e]).
Proof.
  intros Hc He k x Hx. apply lookup_app_Some in Hx as [Hx|[Hk Hx]]; [by apply Hc|].
  apply list_lookup_singleton_Some in Hx as [Hz <-]. rewrite He. lia.
Qed.

Lemma consecutive_Get base es f i e :
  consecutive base es -> es !! N.to_nat (i - base) = Some e -> (base <= i)%N -> Get (mkLog es f) i = Some e.
Proof.
  revert base. induction es as [|x es IH]; intros base Hc Hl Hb; [done|].
  apply consecutive_cons in Hc as [Hx Hc]. unfold Get. simpl.
  destruct (N.eqb_spec (e_Index x) i) as [Hi|Hi].
  - replace (N.to_nat (i - base)) with 0 in Hl by lia. done.
  - apply (IH (base + 1)%N); [done| |lia].
    replace (N.to_nat (i - base)) with (S (N.to_nat (i - (base + 1)))) in Hl by lia. done.
Qed.

Lemma consecutive_last base es f last :
  consecutive base es -> LastIndex (mkLog es f) = Some last -> (last + 1 = base + N.of_nat (length es))%N.
Proof.
  unfold LastIndex. simpl. rewrite last_lookup. intros Hc Hl.
  destruct (es !! pred (length es)) as [e|] eqn:He; [|done]. injection Hl as <-.
  rewrite (Hc _ _ He). apply lookup_lt_Some in He. lia.
Qed.

Lemma consecutive_Range base es f from to :
  consecutive base es -> (base <= from)%N -> (from <= to + 1)%N -> (to + 1 = base + N.of_nat (length es))%N ->
  N.of_nat (length (Range (mkLog es f) from to)) = (to + 1 - from)%N.
Proof.
  unfold Range. simpl. revert base from. induction es as [|e es IH]; intros base from Hc Hb Hf Ht.
  - simpl in *. lia.
  - apply consecutive_cons in Hc as [He Hc]. simpl length in Ht. simpl.
    rewrite (proj2 (N.leb_le (e_Index e) to)), andb_true_r by lia.
    destruct (N.leb_spec from (e_Index e)) as [Hle|Hgt].
    + simpl. assert (from = base) as -> by lia.
      assert (E : List.filter (fun x => (base <=? e_Index x)%N && (e_Index x <=? to)%N) es
                  = List.filter (fun x => (base + 1 <=? e_Index x)%N && (e_Index x <=? to)%N) es).
      { apply List.filter_ext_in. intros x [k Hx]%list_elem_of_In%list_elem_of_lookup.
        rewrite (Hc _ _ Hx). f_equal. transitivity true; [|symmetry]; apply N.leb_le; lia. }
      rewrite E. specialize (IH (base + 1)%N (base + 1)%N Hc). lia.
    + rewrite (IH (base + 1)%N from); [done|done|lia..].
Qed.
End Consecutive.

Lemma count_peers (mi : gmap NodeID N) (i : N) (ps : list NodeID) :
  NoDup ps -> (forall p, p ∈ ps -> exists x, mi !! p = Some x /\ (i <= x)%N) ->
  length ps <= length (List.filter (fun x => (i <=? x)%N) (map_to_list mi).*2).
Proof.
  intros Hnd Hps.
  assert (E : forall l : list (NodeID * N), length (List.filter (fun x => (i <=? x)%N) l.*2)
    = length (List.filter (fun q => (i <=? q.2)%N) l).*1).
  { intros l. rewrite length_fmap. induction l as [|[p x] l IH]; [done|]. rewrite fmap_cons. simpl. destruct (i <=? x)%N; simpl; by rewrite <-IH. }
  rewrite E. apply submseteq_length, NoDup_submseteq; [done|]. intros p Hp.
  destruct (Hps p Hp) as (x & Hx & Hi). apply list_elem_of_fmap. exists (p, x). split; [done|].
  apply list_elem_of_In, List.filter_In. split; [|by apply N.leb_le].
  apply list_elem_of_In. by apply elem_of_map_to_list.
Qed.

Section Live.
Context `{GobEntry}.

(** A leader in order: its log is numbered from [base] on and ends at
    [last], and its books on the peers are within it. *)
Record lead_ok (base last : N) (n : Node) : Prop := {
  lo_leader : IsLeader n = true;
  lo_log : consecutive base (l_entries (n_log n));
  lo_last : LastIndex (n_log n) = Some last;
  lo_width : (last < two64)%N;
  lo_term : forall e, Get (n_log n) last = Some e -> e_Term e = n_term n;
  lo_commit : (n_commitIndex n <= last)%N;
  lo_next : forall p next, n_nextIndex n !! p = Some next ->
    (base <= next)%N /\ (n_snapshotIndex n < next)%N /\ (next <= last + 1)%N
    /\ exists x, n_matchIndex n !! p = Some x /\ (x <= last)%N;
}.

(** The exchange with one peer: the request goes out, the peer accepts. *)
Definition round (n : Node) (peer : NodeID) : option Node :=
  match replicateToPeer n peer with
  | Some (SendAppendEntries args nextIdx) =>
      handleAppendReply true n peer args nextIdx (mkAEReply (ae_Term args) true 0 0)
  | Some (SendInstallSnapshot args) => Some (handleSnapshotReply true n peer args (mkISReply (is_Term args)))
  | Some SendNothing => Some n
  | None => None
  end.

Fixpoint rounds (n : Node) (ps : list NodeID) : option Node :=
  match ps with
  | [] => Some n
  | p :: ps => n' ← round n p; rounds n' ps
  end.

Lemma rounds_snoc n ps p : rounds n (ps ++ [p]) = n' ← rounds n ps; round n' p.
Proof.
  revert n. induction ps as [|q ps IH]; intros n; simpl; [by destruct (round n p)|].
  destruct (round n q); simpl; [apply IH|done].
Qed.

(** What the exchanges leave alone. *)
Definition same_core (n n' : Node) : Prop :=
  n_log n' = n_log n /\ n_term n' = n_term n /\ n_peers n' = n_peers n
  /\ n_pending n' = n_pending n /\ n_lastApplied n' = n_lastApplied n
  /\ n_snapshotIndex n' = n_snapshotIndex n.

Lemma advance_loop_only k n : exists c, advance_loop k n = with_commitIndex n c.
Proof.
  induction k as [|k [c IH]]; cbn [advance_loop].
  - exists (n_commitIndex n). by destruct n.
  - destruct (can_commit _ _); eauto.
Qed.

Lemma tryAdvance_top n base last :
  lead_ok base last n ->
  exists c, tryAdvanceCommitIndex n = Some (with_commitIndex n c) /\ (c <= last)%N
    /\ (n_commitIndex n <= c)%N
    /\ ((exists e, Get (n_log n) last = Some e) -> majority n <= replicas n last -> c = last).
Proof.
  intros [Hl _ Hlast _ Ht Hc _]. unfold tryAdvanceCommitIndex. rewrite Hl, Hlast. simpl.
  pose proof (advance_loop_spec (N.to_nat (last - n_commitIndex n)) n) as Hs.
  destruct (advance_loop_only (N.to_nat (last - n_commitIndex n)) n) as [c E]. rewrite E in Hs |- *.
  exists c. split; [done|]. rewrite N2Nat.id in Hs. simpl in Hs.
  assert (Hmax : (exists e, Get (n_log n) last = Some e) -> majority n <= replicas n last -> can_commit n last = true).
  { intros [e He] Hm. apply can_commit_spec. exists e. split_and!; [done|by apply Ht|done]. }
  destruct Hs as [[-> Hn]|(Hr & _ & Hn)].
  - split_and!; [lia|lia|]. intros He Hm. specialize (Hmax He Hm).
    destruct (N.eq_dec (n_commitIndex n) last) as [|Hne]; [done|]. rewrite Hn in Hmax by lia. done.
  - split_and!; [lia|lia|]. intros He Hm. specialize (Hmax He Hm).
    destruct (N.eq_dec c last) as [|Hne]; [done|]. rewrite Hn in Hmax by lia. done.
Qed.

Lemma lead_ok_Get base last n : lead_ok base last n -> exists e, Get (n_log n) last = Some e.
Proof.
  intros [_ Hlog Hl _ _ _ _]. destruct (n_log n) as [es f]. pose proof (consecutive_last _ _ _ _ Hlog Hl) as E.
  unfold LastIndex in Hl. simpl in *. rewrite last_lookup in Hl.
  destruct (es !! pred (length es)) as [e|] eqn:He; [|done]. pose proof (lookup_lt_Some _ _ _ He).
  exists e. eapply consecutive_Get; [done| |lia].
  by replace (N.to_nat (last - base)) with (pred (length es)) by lia.
Qed.

(** An accepted exchange moves the peer's match index to the end. *)
Lemma round_ok base last n p next :
  lead_ok base last n -> n_nextIndex n !! p = Some next -> (last + 1 < two64)%N ->
  exists n', round n p = Some n' /\ lead_ok base last n' /\ same_core n n'
    /\ n_matchIndex n' = <[p := last]> (n_matchIndex n)
    /\ dom (n_nextIndex n') = dom (n_nextIndex n)
    /\ (majority n' <= replicas n' last -> n_commitIndex n' = last).
Proof.
  intros HL Hn Hw. pose proof (lead_ok_Get _ _ _ HL) as [el Hel]. destruct HL as [Hl Hlog Hlast Hlw Ht Hc Hnx].
  destruct (Hnx p next Hn) as (Hb & Hs & Hle & x & Hx & Hxl). unfold round, replicateToPeer. rewrite Hl, Hn, Hlast. simpl negb. cbn iota.
  simpl mbind. rewrite (proj2 (N.leb_gt _ _) Hs), u64_sub_small by lia. unfold handleAppendReply.
  cbn [ae_Term ae_PrevLogIndex ae_Entries aer_Term aer_Success]. rewrite N.ltb_irrefl, Hl, N.eqb_refl. simpl orb. cbn iota.
  assert (Hlen : N.of_nat (length (Range (n_log n) next last)) = (last + 1 - next)%N).
  { destruct (n_log n) as [es f]. eapply consecutive_Range; [done|lia|lia|]. by eapply consecutive_last. }
  rewrite Hlen, u64_add_small by lia. replace (next - 1 + (last + 1 - next))%N with last by lia.
  set (n1 := if (_ <? last)%N then _ else n).
  assert (E1 : n1 = with_matchIndex n (<[p := last]> (n_matchIndex n))).
  { unfold n1. rewrite Hx. simpl. destruct (N.ltb_spec x last); [done|]. assert (x = last) as -> by lia.
    rewrite insert_id by done. by destruct n. }
  clearbody n1. subst n1. cbn [n_matchIndex with_matchIndex]. rewrite lookup_insert_eq. cbn [default id from_option].
  rewrite u64_add_small by lia. set (n2 := with_nextIndex _ _).
  assert (H2 : lead_ok base last n2).
  { split; try done. intros q y Hq. simpl in Hq |- *. apply lookup_insert_Some in Hq as [[<- <-]|[Hne Hq]].
    - split_and!; [lia|simpl in Hs; lia|lia|]. exists last. by rewrite lookup_insert_eq.
    - rewrite lookup_insert_ne by done. by apply Hnx. }
  destruct (tryAdvance_top n2 base last H2) as (c & -> & Hcl & Hcn & Hcm). eexists. split; [done|].
  split; [|split; [done|split; [done|split]]].
  - destruct H2 as [? ? ? ? ? ? ?]. by split.
  - simpl. rewrite dom_insert_L. apply elem_of_dom_2 in Hn. set_solver.
  - intros Hm. apply Hcm; [by exists el|done].
Qed.

#[local] Instance same_core_po : PreOrder same_core.
Proof. split; unfold same_core; [done|]. intros n1 n2 n3 (E1&E2&E3&E4&E5&E6) (F1&F2&F3&F4&F5&F6). split_and!; congruence. Qed.

(** A majority of accepting peers commits everything up to [last]. *)
Lemma rounds_ok base last n ps :
  lead_ok base last n -> (last + 1 < two64)%N -> (forall p, p ∈ ps -> p ∈ dom (n_nextIndex n)) ->
  exists n', rounds n ps = Some n' /\ lead_ok base last n' /\ same_core n n'
    /\ dom (n_nextIndex n') = dom (n_nextIndex n)
    /\ (forall p, p ∈ ps -> n_matchIndex n' !! p = Some last)
    /\ (ps <> [] -> NoDup ps -> majority n <= 1 + length ps -> n_commitIndex n' = last).
Proof.
  intros HL Hw. induction ps as [|p ps IH] using rev_ind; intros Hps.
  { exists n. split_and!; try done. intros p []%elem_of_nil. }
  destruct IH as (n1 & E1 & HL1 & HC1 & HD1 & HM1 & _); [set_solver|].
  assert (Hp : p ∈ dom (n_nextIndex n1)) by (rewrite HD1; set_solver).
  apply elem_of_dom in Hp as [next Hp]. destruct (round_ok base last n1 p next HL1 Hp Hw)
    as (n2 & E2 & HL2 & HC2 & HM2 & HD2 & Hcom).
  exists n2. rewrite rounds_snoc, E1. simpl. split; [done|]. split; [done|]. split; [by etrans|].
  split; [congruence|].
  assert (HM : forall q, q ∈ ps ++ [p] -> n_matchIndex n2 !! q = Some last).
  { intros q Hq. rewrite HM2. destruct (decide (q = p)) as [->|Hne]; [by rewrite lookup_insert_eq|].
    rewrite lookup_insert_ne by done. apply HM1. set_solver. }
  split; [done|]. intros _ Hnd Hm. apply Hcom. unfold replicas.
  replace (majority n2) with (majority n).
  - pose proof (count_peers (n_matchIndex n2) last (ps ++ [p]) Hnd) as Hcp.
    etrans; [exact Hm|]. simpl. apply le_n_S, Hcp. intros q Hq. exists last. split; [by apply HM|done].
  - unfold majority. destruct HC2 as (_&_&->&_). by destruct HC1 as (_&_&->&_).
Qed.

Context {F : Type} `{FSM F}.

(** The committed entries that wait to be applied. *)
Definition unapplied (n : Node) (base last : N) : list Entry :=
  drop (N.to_nat (n_lastApplied n + 1 - base)) (l_entries (n_log n)).

Lemma unapplied_at base last n :
  lead_ok base last n -> (base <= n_lastApplied n + 1)%N -> (n_lastApplied n <= last)%N ->
  at_indexes (n_log n) (n_lastApplied n + 1) (unapplied n base last)
  /\ last = (n_lastApplied n + N.of_nat (length (unapplied n base last)))%N.
Proof.
  intros [_ Hlog Hl _ _ _ _] Hb Ha. unfold unapplied. destruct (n_log n) as [es f].
  pose proof (consecutive_last _ _ _ _ Hlog Hl) as E. simpl in *. split.
  - intros k e Hk. rewrite lookup_drop in Hk. eapply consecutive_Get; [done| |lia].
    by replace (N.to_nat (n_lastApplied n + 1 + N.of_nat k - base)) with (N.to_nat (n_lastApplied n + 1 - base) + k) by lia.
  - rewrite length_drop. lia.
Qed.

Lemma answers_last (f : F) pending es e :
  e_Index e ∈ pending ->
  (e_Index e, (fsm_Apply (apply_all f es) e).2) ∈ answers f pending (es ++ [e]).
Proof.
  intros Hp. revert f. induction es as [|x es IH]; intros f; simpl.
  - destruct (fsm_Apply f e) as [f' err]. rewrite bool_decide_true by done. simpl. left.
  - change (apply_all f (x :: es)) with (apply_all (fsm_Apply f x).1 es).
    destruct (fsm_Apply f x) as [f' err]. apply elem_of_app. right. apply IH.
Qed.

(** The leader's own part: the entry is logged, and a leader without peers
    commits it at once. *)
Lemma Propose_ok base last n cmd :
  lead_ok base last n -> (last + 1 < two64)%N ->
  exists n1, Propose (IsLeader n) DiskOk n cmd = Some (n1, Ok (last + 1)%N) /\ lead_ok base (last + 1) n1
    /\ n_log n1 = (Append DiskOk (n_log n) [mkEntry (last + 1) (n_term n) cmd]).1
    /\ n_pending n1 = {[(last + 1)%N]} ∪ n_pending n /\ n_lastApplied n1 = n_lastApplied n
    /\ n_nextIndex n1 = n_nextIndex n /\ n_peers n1 = n_peers n
    /\ (majority n <= 1 -> n_commitIndex n1 = (last + 1)%N).
Proof.
  intros [Hl Hlog Hlast Hw Ht Hc Hnx] Hb. unfold Propose, propose_log. rewrite Hl, Hlast. simpl negb. cbn iota.
  rewrite u64_add_small by lia. simpl. set (e := mkEntry (last + 1) (n_term n) cmd). set (n0 := with_pending _ _).
  assert (E : (last + 1 = base + N.of_nat (length (l_entries (n_log n))))%N).
  { apply (consecutive_last base _ (l_file (n_log n))); [done|]. by destruct (n_log n). }
  assert (Hlog' : consecutive base (l_entries (n_log n) ++ [e])) by (by apply consecutive_snoc).
  assert (Hok : lead_ok base (last + 1) n0).
  { split; simpl; try done.
    - unfold LastIndex. simpl. by rewrite last_snoc.
    - intros x [[k Hk]%list_elem_of_lookup Hi]%Get_Some. simpl in Hk. pose proof (Hlog' k x Hk) as Hx.
      apply lookup_app_Some in Hk as [Hk|[_ Hk]]; [apply lookup_lt_Some in Hk; lia|].
      by apply list_lookup_singleton_Some in Hk as [_ <-].
    - lia.
    - intros p next Hp. destruct (Hnx p next Hp) as (? & ? & ? & x & Hx & Hxl).
      split_and!; [done|done|lia|]. exists x. split; [done|lia]. }
  destruct (Nat.eqb_spec (size (n_peers n)) 0) as [Hz|Hz].
  - destruct (tryAdvance_top n0 base _ Hok) as (c & -> & Hcl & _ & Hcm). simpl. eexists. split; [done|].
    pose proof (lead_ok_Get _ _ _ Hok) as He.
    assert (c = (last + 1)%N) as -> by (apply Hcm; [done|]; unfold majority, replicas; simpl; rewrite Hz; simpl; lia).
    split; [|by split_and!]. destruct Hok. by split.
  - eexists. split; [done|]. split; [done|]. split_and!; try done.
    unfold majority. intros Hm. destruct (size (n_peers n)) as [|k]; [done|].
    assert (1 <= (1 + S k) / 2) by (apply Nat.div_le_lower_bound; lia). lia.
Qed.

(** C23. A command proposed to a leader in order, which is still leader
    when the entry is logged, once enough peers to make a majority have
    accepted what the leader sends them, is committed; the apply loop then
    applies every entry up to it, in order, and answers the proposal with
    the state machine's result. *)
Theorem proposal_answered base last n (f : F) cmd ps :
  lead_ok base last n -> (last + 2 < two64)%N ->
  (base <= n_lastApplied n + 1)%N -> (n_lastApplied n <= n_commitIndex n)%N ->
  NoDup ps -> (forall p, p ∈ ps -> p ∈ dom (n_nextIndex n)) -> majority n <= 1 + length ps ->
  let e := mkEntry (last + 1) (n_term n) cmd in
  exists n1 n2 es,
    Propose (IsLeader n) DiskOk n cmd = Some (n1, Ok (last + 1)%N) /\ rounds n1 ps = Some n2
    /\ n_commitIndex n2 = (last + 1)%N
    /\ n_log n2 = (Append DiskOk (n_log n) [e]).1
    /\ at_indexes (n_log n2) (n_lastApplied n + 1) (es ++ [e])
    /\ (applyCommitted n2 f).1.2 = (fsm_Apply (apply_all f es) e).1
    /\ ((last + 1)%N, (fsm_Apply (apply_all f es) e).2) ∈ (applyCommitted n2 f).2.
Proof.
  intros HL Hw Hb Hla Hnd Hps Hm e. destruct (Propose_ok base last n cmd HL ltac:(lia))
    as (n1 & E1 & HL1 & Hlog & Hpend & Happ & Hnext & Hpeers & Hone).
  destruct (rounds_ok base (last + 1) n1 ps HL1 ltac:(lia)) as (n2 & E2 & HL2 & (C1&_&C3&C4&C5&_) & _ & _ & Hc);
    [by rewrite Hnext|].
  assert (Hm1 : majority n1 = majority n) by (unfold majority; by rewrite Hpeers).
  assert (Hcom : n_commitIndex n2 = (last + 1)%N).
  { destruct ps as [|p ps]; [|apply Hc; [done|done|by rewrite Hm1]]. injection E2 as <-. by apply Hone. }
  pose proof (lo_commit _ _ _ HL) as Hcl.
  destruct (unapplied_at base (last + 1) n2 HL2) as [Hat Hlen]; [rewrite C5, Happ; lia..|].
  destruct (apply_loop_spec (unapplied n2 base (last + 1)) (S (N.to_nat (n_commitIndex n2 - n_lastApplied n2))) n2 f Hat)
    as (_ & _ & Hf & Ha); [lia..|].
  assert (Hes : exists es, unapplied n2 base (last + 1) = es ++ [e]).
  { assert (Hl : unapplied n2 base (last + 1)
      = drop (N.to_nat (n_lastApplied n2 + 1 - base)) (l_entries (n_log n) ++ [e])).
    { unfold unapplied. by rewrite C1, Hlog. }
    exists (drop (N.to_nat (n_lastApplied n2 + 1 - base)) (l_entries (n_log n))).
    rewrite Hl in Hlen |- *. rewrite length_drop, length_app in Hlen. simpl in Hlen. rewrite drop_app_le by lia. done. }
  destruct Hes as [es Hes]. exists n1, n2, es. split_and!; [done|done|done|by rewrite C1| |..].
  - by rewrite <-Happ, <-C5, <-Hes.
  - unfold applyCommitted. rewrite Hf, Hes. unfold apply_all. by rewrite foldl_app.
  - unfold applyCommitted. rewrite Ha, Hes, C4, Hpend. apply (answers_last f _ es e). set_solver.
Qed.
End Live.

(** ** Three nodes, of which one peer answers *)

Module LiveRun.
Local Existing Instance demo_gob.
Local Existing Instance demo_fsm.
Import RaftLog.Run.

Definition boss : Node :=
  mkNode "a" {["b" := "h2"; "c" := "h3"]} Leader 2 "a" (log [dummy; ent 1 1; ent 2 2]) 0 0
    {["b" := 1%N; "c" := 3%N]} {["b" := 0%N; "c" := 0%N]} "a" ∅ 2 0 0 None None.

Lemma boss_ok : lead_ok 0 2 boss.
Proof.
  split; try (vm_compute; done).
  - intros [|[|[|k]]] e; by intros [= <-].
  - intros e He. vm_compute in He. by injection He as <-.
  - intros p next. unfold boss. cbn [n_nextIndex n_matchIndex n_snapshotIndex].
    intros [[<- <-]|[_ [<- <-]%lookup_singleton_Some]]%lookup_insert_Some;
      (split_and!; [vm_compute; done..|]); exists 0%N; (split; [reflexivity|lia]).
Qed.

Lemma proposal_answered_witness :
  exists n1 n2, Propose (IsLeader boss) DiskOk boss (cmd 3) = Some (n1, Ok 3%N) /\ rounds n1 ["b"] = Some n2
    /\ n_commitIndex n2 = 3%N /\ (3%N, None) ∈ (applyCommitted n2 []).2.
Proof.
  destruct (proposal_answered 0 2 boss [] (cmd 3) ["b"] boss_ok) as (n1 & n2 & es & E1 & E2 & E3 & _ & _ & _ & E4).
  - reflexivity.
  - vm_compute. discriminate.
  - vm_compute. discriminate.
  - apply NoDup_singleton.
  - intros p ->%list_elem_of_singleton. apply elem_of_dom. by exists 1%N.
  - vm_compute. lia.
  - by exists n1, n2.
Defined.
End LiveRun.
