(* ===== verification/RaftFsm.v ===== *)
(** * The replicated state machine ([internal/raft/fsm.go])

    [TxnManagerFSM]: committed commands applied to the transaction manager,
    and the catalog's rows as a snapshot. The state of the machine is the
    manager, [None] once the process has panicked. The gob encoding of the
    snapshot is the parameter [GobPayload]. *)

From Stdlib Require Import ZArith NArith Lia Strings.Byte String.
From stdpp Require Import base tactics numbers list gmap strings sorting.
From S2P Require Import Prelude Types Lock Acquire Storage Mvcc Wal Ssi Txn TxnInv Raft.

Record snapshotRow := mkSnapRow { sr_Key : string; sr_Values : list byte }.

#[export] Instance snapshotRow_eq_dec : EqDecision snapshotRow.
Proof. solve_decision. Defined.

Notation snapshotPayload := (gmap string (list snapshotRow)).

Class GobPayload := {
  gob_payload : snapshotPayload -> result GoError (list byte);
  gob_payload_decode : list byte -> option snapshotPayload;
}.

(** The numbers of the constants of undo_log.go and transaction.go; the
    proposals of raft_wire.go carry no others. *)
Definition op_of_code (n : N) : UndoOpType :=
  if (n =? 0)%N then UndoInsert else if (n =? 1)%N then UndoUpdate else UndoDelete.

Definition iso_of_code (n : N) : IsolationLevel :=
  if (n =? 0)%N then ReadUncommitted else if (n =? 1)%N then ReadCommitted
  else if (n =? 2)%N then RepeatableRead else Serializable.

Section Fsm.
Context {L W : Type} `{LockService L} `{WALWriter W}.
Implicit Types m : Mgr L W.

Definition GetActiveTxn m (id : N) : option Transaction := GetTxn m id.

Definition txn_err (r : result TxnError unit) : option GoError :=
  match r with Ok _ => None | Err e => Some (ETxn e) end.

Definition decode_after (bs : list byte) : result GoError Values :=
  match bs with
  | [] => Ok None
  | _ => match DecodeValues bs with
         | Ok vs => Ok (Some vs)
         | Err _ => Err (EOther "DecodeValues")
         end
  end.

(** [None]: the operation panicked. *)
Definition fsm_apply m (e : Entry) : option (Mgr L W * option GoError) :=
  let c := e_Command e in
  if (c_Type c =? CmdNoop)%N then Some (m, None)
  else if (c_Type c =? CmdBegin)%N then
    let proto := if (c_Proto c =? 1)%N then ProtocolMVCC else Protocol2PL in
    let '(m, r) := BeginWithID m (c_TxnID c) proto (iso_of_code (c_Iso c)) in
    Some (m, match r with Ok _ => None | Err x => Some x end)
  else if (c_Type c =? CmdWrite)%N then
    match GetActiveTxn m (c_TxnID c) with
    | None => Some (m, Some (EOther "raft fsm: txn not found for write"))
    | Some t =>
        match decode_after (c_After c) with
        | Err x => Some (m, Some x)
        | Ok vals =>
            let op := op_of_code (c_Op c) in
            '(m, r) ←
              (if bool_decide (x_Protocol t = Protocol2PL)
               then TwoPLWrite m t (c_Table c) (c_RowKey c) vals op
               else MVCCWrite m (c_TxnID c) (c_Table c) (c_RowKey c) vals op);
            Some (m, txn_err r)
        end
    end
  else if (c_Type c =? CmdCommit)%N then
    let '(m, r) := Commit m (c_TxnID c) in
    Some (m, match r with Ok _ => None | Err x => Some x end)
  else if (c_Type c =? CmdAbort)%N then
    let '(m, r) := Abort m (c_TxnID c) in
    Some (m, match r with Ok _ => None | Err x => Some x end)
  else Some (m, None).

Context `{GobPayload}.

Definition snap_row (r : Row) : option snapshotRow :=
  mkSnapRow (row_Key r) <$> EncodeValues (values_list (row_Values r)).

(** One round of the loop over the tables' names. *)
Definition snap_table m (name : string) : option (option (string * list snapshotRow)) :=
  match Lookup (m_Catalog m) name with
  | None => Some None
  | Some tbl => rows ← mapM snap_row (Scan tbl None); Some (Some (name, rows))
  end.

(** [None]: [EncodeValues] panicked. *)
Definition fsm_snapshot m : option (result GoError (list byte)) :=
  payload ← mapM (snap_table m) (Storage.List (m_Catalog m));
  Some (gob_payload (list_to_map (omap id payload))).

Definition restore_row (tbl : Table) (sr : snapshotRow) : Table :=
  match DecodeValues (sr_Values sr) with
  | Err _ => tbl
  | Ok vals => PutRow tbl (sr_Key sr) (Some vals)
  end.

Definition restore_table (c : Catalog) (p : string * list snapshotRow) : Catalog :=
  match Lookup c p.1 with
  | None => c
  | Some tbl => <[p.1 := fold_left restore_row p.2 tbl]> c
  end.

Definition fsm_restore m (data : list byte) : Mgr L W * option GoError :=
  match gob_payload_decode data with
  | None => (m, Some (EOther "raft fsm snapshot decode"))
  | Some payload =>
      (with_Catalog m (fold_left restore_table (map_to_list payload) (m_Catalog m)), None)
  end.

#[export] Instance TxnManagerFSM : FSM (option (Mgr L W)) := {|
  fsm_Apply s e :=
    match s with
    | None => (None, None)
    | Some m => match fsm_apply m e with Some (m, err) => (Some m, err) | None => (None, None) end
    end;
  fsm_Snapshot s :=
    match s with
    | None => Err (EOther "panic")
    | Some m => default (Err (EOther "panic")) (fsm_snapshot m)
    end;
  fsm_Restore s data :=
    match s with
    | None => (None, None)
    | Some m => let '(m, e) := fsm_restore m data in (Some m, e)
    end |}.

(** ** Snapshot and restore *)

(** The rows a snapshot carries: nil values come back as an empty slice. *)
Definition snap_rows (t : Table) : gmap RowKey Values := (fun v => Some (values_list v)) <$> t_rows t.

(** Every row can be encoded. *)
Definition encodable (t : Table) : Prop :=
  forall k v, t_rows t !! k = Some v ->
    Forall canonical (values_list v) /\ (N.of_nat (length (values_list v)) <= 65535)%N.

Lemma restore_rows_snap tbl kvs rows :
  (forall k v, (k, v) ∈ kvs -> Forall canonical (values_list v) /\ (N.of_nat (length (values_list v)) <= 65535)%N) ->
  mapM snap_row ((fun '(k, v) => mkRow k v) <$> kvs) = Some rows ->
  fold_left restore_row rows tbl
  = fold_left (fun t (kv : RowKey * Values) => PutRow t kv.1 (Some (values_list kv.2))) kvs tbl.
Proof.
  revert tbl rows. induction kvs as [|[k v] kvs IH]; intros tbl rows Hc Hm; simpl in Hm.
  { by injection Hm as <-. }
  destruct (Hc k v) as [Hcan Hlen]; [by left|].
  destruct (decode_encode_app (values_list v) [] Hlen Hcan) as (b & He & Hd). rewrite app_nil_r in Hd.
  assert (Hs : snap_row (mkRow k v) = Some (mkSnapRow k b)) by (unfold snap_row; simpl; by rewrite He).
  rewrite Hs in Hm. simpl in Hm. destruct (mapM snap_row _) as [rows'|] eqn:Hr; [|done].
  simpl in Hm. injection Hm as <-. simpl. unfold restore_row at 2. simpl. rewrite Hd.
  apply IH; [|done]. intros k' v' Hk. apply (Hc k'). by right.
Qed.

Lemma put_all_rows (kvs : list (RowKey * Values)) tbl :
  NoDup kvs.*1 ->
  t_rows (fold_left (fun t (kv : RowKey * Values) => PutRow t kv.1 (Some (values_list kv.2))) kvs tbl)
  = ((fun v => Some (values_list v)) <$> list_to_map kvs) ∪ t_rows tbl.
Proof.
  revert tbl. induction kvs as [|[k v] kvs IH]; intros tbl Hn; simpl.
  { by rewrite fmap_empty, (left_id_L ∅ (∪)). }
  simpl in Hn. apply NoDup_cons in Hn as [Hk Hn]. rewrite IH by done. simpl.
  rewrite fmap_insert, <-insert_union_l, insert_union_r; [done|].
  rewrite lookup_fmap, not_elem_of_list_to_map_1 by done. done.
Qed.

Lemma filter_all {A} (l : list A) : List.filter (fun _ => true) l = l.
Proof. induction l as [|x l IH]; simpl; [done|]. by rewrite IH. Qed.

Lemma restore_table_snap tbl dst rows :
  encodable tbl -> mapM snap_row (Scan tbl None) = Some rows ->
  t_rows (fold_left restore_row rows dst) = snap_rows tbl ∪ t_rows dst.
Proof.
  intros He. unfold Scan. rewrite filter_all. intros Hm.
  rewrite (restore_rows_snap dst (map_to_list (t_rows tbl)) rows); [| |done].
  - rewrite put_all_rows by apply NoDup_fst_map_to_list. by rewrite list_to_map_to_list.
  - intros k v Hk%elem_of_map_to_list. by apply (He k).
Qed.

Lemma restore_tables (ps : list (string * list snapshotRow)) c name tbl :
  NoDup ps.*1 -> Lookup c name = Some tbl ->
  Lookup (fold_left restore_table ps c) name
  = Some (match (list_to_map ps : snapshotPayload) !! name with
          | Some rows => fold_left restore_row rows tbl
          | None => tbl
          end).
Proof.
  revert c tbl. induction ps as [|[n rows] ps IH]; intros c tbl Hn Hl; simpl; [done|].
  simpl in Hn. apply NoDup_cons in Hn as [Hnin Hn]. unfold Lookup in *.
  destruct (decide (n = name)) as [->|Hne].
  - rewrite lookup_insert_eq. unfold restore_table at 2, Lookup. simpl. rewrite Hl.
    rewrite (IH _ (fold_left restore_row rows tbl)); [|done|apply lookup_insert_eq].
    by rewrite not_elem_of_list_to_map_1.
  - rewrite lookup_insert_ne by done. apply IH; [done|].
    unfold restore_table, Lookup. simpl. destruct (c !! n); [|done]. by rewrite lookup_insert_ne.
Qed.

Lemma List_keys (c : Catalog) name : name ∈ Storage.List c <-> is_Some (Lookup c name).
Proof.
  unfold Storage.List, Lookup. rewrite merge_sort_Permutation, list_elem_of_fmap. split.
  - intros ([k t] & -> & Hk%elem_of_map_to_list). eauto.
  - intros [t Ht]. exists (name, t). split; [done|]. by apply elem_of_map_to_list.
Qed.

Lemma List_NoDup (c : Catalog) : NoDup (Storage.List c).
Proof. unfold Storage.List. rewrite merge_sort_Permutation. apply NoDup_fst_map_to_list. Qed.

(** The payload has every table of the catalog, with its rows encoded. *)
Lemma fsm_snapshot_payload m r :
  fsm_snapshot m = Some r ->
  exists p, gob_payload p = r /\ forall name tbl, Lookup (m_Catalog m) name = Some tbl ->
    exists rows, p !! name = Some rows /\ mapM snap_row (Scan tbl None) = Some rows.
Proof.
  unfold fsm_snapshot. intros (ps & Hm & [= <-])%bind_Some.
  eexists. split; [reflexivity|]. apply mapM_Some in Hm.
  assert (Hf : forall name y, snap_table m name = Some y -> name ∈ Storage.List (m_Catalog m) ->
    exists tbl rows, Lookup (m_Catalog m) name = Some tbl /\ y = Some (name, rows)
      /\ mapM snap_row (Scan tbl None) = Some rows).
  { intros name y Hy [tbl Ht]%List_keys. unfold snap_table in Hy. rewrite Ht in Hy.
    apply bind_Some in Hy as (rows & Hr & [= <-]). eauto. }
  assert (Hkeys : (omap id ps).*1 = Storage.List (m_Catalog m)).
  { revert Hf. clear -Hm. induction Hm as [|name y names ys Hy Hm IH]; intros Hf; [done|].
    destruct (Hf name y Hy) as (tbl & rows & _ & -> & _); [by left|]. simpl. f_equal.
    apply IH. intros n' y' Hy' Hn'. apply Hf; [done|by right]. }
  intros name tbl Ht.
  assert (Hin : name ∈ Storage.List (m_Catalog m)) by (apply List_keys; eauto).
  destruct (proj1 (list_elem_of_lookup _ _) Hin) as [i Hi].
  destruct (Forall2_lookup_l _ _ _ _ _ Hm Hi) as (y & Hyi & Hy).
  destruct (Hf name y Hy Hin) as (tbl' & rows & Ht' & -> & Hr). rewrite Ht in Ht'. injection Ht' as <-.
  exists rows. split; [|done]. apply elem_of_list_to_map_1; [rewrite Hkeys; apply List_NoDup|].
  apply list_elem_of_omap. exists (Some (name, rows)). split; [|done]. by eapply list_elem_of_lookup_2.
Qed.

(** Restoring a snapshot puts its rows over those of every table the
    receiver knows; rows that are not in the snapshot stay, and the version
    store is not touched. *)
Theorem snapshot_restore m1 m2 data :
  fsm_snapshot m1 = Some (Ok data) ->
  (forall p, gob_payload p = Ok data -> gob_payload_decode data = Some p) ->
  (forall name tbl, Lookup (m_Catalog m1) name = Some tbl -> encodable tbl) ->
  exists m2', fsm_restore m2 data = (m2', None) /\ m_MVCCStore m2' = m_MVCCStore m2
  /\ forall name tbl1 tbl2,
       Lookup (m_Catalog m1) name = Some tbl1 -> Lookup (m_Catalog m2) name = Some tbl2 ->
       exists tbl', Lookup (m_Catalog m2') name = Some tbl' /\ t_rows tbl' = snap_rows tbl1 ∪ t_rows tbl2.
Proof.
  intros Hs Hg He. destruct (fsm_snapshot_payload _ _ Hs) as (p & Hp & Hrows).
  unfold fsm_restore. rewrite (Hg p Hp). eexists. split; [done|]. split; [done|].
  intros name tbl1 tbl2 Hl1 Hl2. destruct (Hrows name tbl1 Hl1) as (rows & Hpn & Hm). simpl.
  eexists. split; [apply restore_tables; [apply NoDup_fst_map_to_list|done]|].
  rewrite list_to_map_to_list, Hpn. apply restore_table_snap; [by eapply He|done].
Qed.
End Fsm.

(** ** Runs *)

Module FsmRun.

Definition rows_k (z : Z) : Table := PutRow (NewTable "t" []) "k" (Some [IntVal z]).

Definition mgr_with (t : Table) : DemoMgr := boot (lock_init tt) (Register NewCatalog t) 0 None.

(** The sender's table has row "k"; the receiver's has "k" and "gone". *)
Definition sender : DemoMgr := mgr_with (rows_k 7).
Definition receiver : DemoMgr := mgr_with (PutRow (rows_k 1) "gone" (Some [IntVal 2])).

Definition sender_rows : snapshotPayload :=
  {["t" := [mkSnapRow "k" (default [] (EncodeValues [IntVal 7]))]]}.

(** A codec that knows one payload. *)
Local Instance the_payload : GobPayload := {|
  gob_payload p := if decide (p = sender_rows) then Ok [x01] else Err (EOther "other");
  gob_payload_decode bs := if decide (bs = [x01]) then Some sender_rows else None |}.

Lemma the_payload_roundtrip p : gob_payload p = Ok [x01] -> gob_payload_decode [x01] = Some p.
Proof. simpl. case_decide as Hp; [|done]. intros _. by rewrite Hp. Qed.

Lemma sender_encodable name tbl : Lookup (m_Catalog sender) name = Some tbl -> encodable tbl.
Proof.
  change (Lookup (m_Catalog sender) name) with (({["t" := rows_k 7]} : Catalog) !! name).
  intros [<- <-]%lookup_singleton_Some k v.
  change (t_rows (rows_k 7) !! k) with (({["k" := Some [IntVal 7]]} : gmap RowKey Values) !! k).
  intros [<- <-]%lookup_singleton_Some.
  split; [|by vm_compute]. repeat constructor; unfold canonical, int64; simpl; intuition (lia || reflexivity).
Qed.

(** The receiver ends with the sender's row, and keeps the row the sender
    does not have. *)
Lemma snapshot_restore_witness :
  exists m' tbl, fsm_restore receiver [x01] = (m', None) /\ Lookup (m_Catalog m') "t" = Some tbl
    /\ t_rows tbl !! "k" = Some (Some [IntVal 7]) /\ t_rows tbl !! "gone" = Some (Some [IntVal 2]).
Proof.
  destruct (snapshot_restore sender receiver [x01]) as (m' & Hr & _ & Hrows).
  - vm_compute. reflexivity.
  - exact the_payload_roundtrip.
  - exact sender_encodable.
  - destruct (Hrows "t" (rows_k 7) (PutRow (rows_k 1) "gone" (Some [IntVal 2]))) as (tbl & Ht & Heq);
      [reflexivity|reflexivity|]. exists m', tbl. rewrite Heq. split_and!; try done; vm_compute; reflexivity.
Defined.

(** The allocation counter is advanced on the leader only. *)
Definition cmd_begin (id : N) : Entry := mkEntry 0 1 (mkCommand CmdBegin id "" "" 0 [] [] 2 1).
Definition cmd_write (id op : N) (z : Z) : Entry :=
  mkEntry 0 1 (mkCommand CmdWrite id "t" "n" op [] (default [] (EncodeValues [IntVal z])) 0 0).
Definition cmd_commit (id : N) : Entry := mkEntry 0 1 (mkCommand CmdCommit id "" "" 0 [] [] 0 0).

Fixpoint apply_cmds (allocate : bool) (m : DemoMgr) (es : list Entry)
    : option (DemoMgr * list (option GoError)) :=
  match es with
  | [] => Some (m, [])
  | e :: es =>
      let m := if allocate && (c_Type (e_Command e) =? CmdBegin)%N then (AllocateTxnID m).1 else m in
      '(m, err) ← fsm_apply m e; '(m, errs) ← apply_cmds allocate m es; Some (m, err :: errs)
  end.

Definition cmds : list Entry :=
  [cmd_begin 1; cmd_write 1 0 5; cmd_commit 1; cmd_begin 2; cmd_write 2 1 6; cmd_commit 2].

(** The same commands, applied on the leader and on a follower: on the
    follower, whose counter [BeginWithID] does not advance, the second
    transaction's snapshot ends below the first, its update finds no row,
    and the stores differ. *)
Theorem follower_diverges :
  exists ml mf,
    apply_cmds true (mgr_with (rows_k 1)) cmds = Some (ml, [None; None; None; None; None; None])
    /\ apply_cmds false (mgr_with (rows_k 1)) cmds
       = Some (mf, [None; None; None; None; Some (ETxn NewRowNotFoundError); None])
    /\ (ver_Data <$> (default [] (ch_versions <$> GetChain (m_MVCCStore ml) "t" "n")))
       = [Some [IntVal 6]; Some [IntVal 5]]
    /\ (ver_Data <$> (default [] (ch_versions <$> GetChain (m_MVCCStore mf) "t" "n")))
       = [Some [IntVal 5]].
Proof. do 2 eexists. split_and!; vm_compute; reflexivity. Qed.
End FsmRun.
