(* ===== verification/Transport.v ===== *)
(** * The Raft transport ([internal/raft/transport.go])

    Frames on a connection, the server's loop on a connection and the
    client's [send], with connections as a pair of byte streams. The bodies
    are gob encodings, which are parameters with their round trip as a law.

    A client that has one request to a peer under way at a time gets the
    reply to that request or an error, whatever fails and however slow the
    peer is ([rpc_own_reply]). The node does not keep to that: two of its
    goroutines may [send] on one connection, and each reads whatever reply
    comes next, so that a leader takes the answer to a heartbeat for the
    answer to the entries sent after it ([swapped_reply]). *)

From Stdlib Require Import ZArith NArith Lia Strings.Byte String.
From stdpp Require Import base tactics numbers list gmap strings.
From S2P Require Import Prelude Types Raft.

Class Gob (T : Type) := { genc : T -> list byte; gdec : list byte -> option T }.
Class GobLaw (T : Type) `{Gob T} : Prop := gdec_genc : forall x : T, gdec (genc x) = Some x.

(** ** rpc.go and frames *)

Definition MsgRequestVote : N := 1.
Definition MsgRequestVoteReply : N := 2.
Definition MsgAppendEntries : N := 3.
Definition MsgAppendEntriesReply : N := 4.
Definition MsgInstallSnapshot : N := 5.
Definition MsgInstallSnapshotReply : N := 6.

Definition encodeFrame (msgType : N) (body : list byte) : list byte :=
  byte_of_N msgType :: le_put 4 (N.of_nat (length body)) ++ body.

(** The bytes that have arrived: [None] when they are too few, and the read
    blocks. *)
Definition readFrame (conn : list byte) : option (N * list byte * list byte) :=
  match conn with
  | t :: rest =>
      let bodyLen := N.to_nat (le_get (take 4 rest)) in
      let rest' := drop 4 rest in
      if (length rest <? 4) || (length rest' <? bodyLen) then None
      else Some (Byte.to_N t, take bodyLen rest', drop bodyLen rest')
  | [] => None
  end.

Definition fits (body : list byte) : Prop := (N.of_nat (length body) < 4294967296)%N.

Lemma readFrame_encode t body rest :
  (t < 256)%N -> fits body -> readFrame (encodeFrame t body ++ rest) = Some (t, body, rest).
Proof.
  intros Ht Hf. unfold readFrame, encodeFrame. cbn [app]. rewrite <-app_assoc.
  assert (Hl : length (le_put 4 (N.of_nat (length body))) = 4) by done.
  rewrite take_app_length' by done. rewrite drop_app_length' by done. rewrite le_get_put_small by exact Hf. rewrite Nat2N.id.
  rewrite !length_app, Hl. destruct (Nat.ltb_spec (4 + (length body + length rest)) 4); [lia|].
  destruct (Nat.ltb_spec (length body + length rest) (length body)); [lia|]. cbn [orb].
  rewrite take_app_length, drop_app_length. rewrite to_N_byte_of_N, N.mod_small by done. done.
Qed.

Lemma readFrame_short t body k :
  fits body -> k < length (encodeFrame t body) -> readFrame (take k (encodeFrame t body)) = None.
Proof.
  intros Hf Hk. destruct k as [|k]; [done|]. unfold encodeFrame in *. cbn [take length readFrame] in *.
  assert (Hl : length (le_put 4 (N.of_nat (length body))) = 4) by done. rewrite length_app, Hl in Hk.
  rewrite length_take, length_app, Hl, Nat.min_l by lia.
  destruct (Nat.ltb_spec k 4) as [|H4]; [done|]. cbn [orb]. rewrite take_take, Nat.min_l by lia.
  rewrite (take_app_length' (le_put 4 (N.of_nat (length body))) body 4) by done. rewrite le_get_put_small by exact Hf. rewrite Nat2N.id, length_drop, length_take, length_app, Hl, Nat.min_l by lia.
  destruct (Nat.ltb_spec (k - 4) (length body)); [done|lia].
Qed.

(** ** Requests, replies and the server *)

Inductive RPC := QVote (a : RequestVoteArgs) | QAppend (a : AppendEntriesArgs) | QSnapshot (a : InstallSnapshotArgs).
Inductive Reply := RVote (r : RequestVoteReply) | RAppend (r : AppendEntriesReply) | RSnapshot (r : InstallSnapshotReply).

Section Transport.
Context `{Gob RequestVoteArgs} `{Gob AppendEntriesArgs} `{Gob InstallSnapshotArgs}.
Context `{Gob RequestVoteReply} `{Gob AppendEntriesReply} `{Gob InstallSnapshotReply}.

(** The state of the peer and its three callbacks; [None] is a panic. *)
Context {S : Type} (OnRequestVote : S -> RequestVoteArgs -> option (S * RequestVoteReply))
  (OnAppendEntries : S -> AppendEntriesArgs -> option (S * AppendEntriesReply))
  (OnInstallSnapshot : S -> InstallSnapshotArgs -> option (S * InstallSnapshotReply)).

Definition callback (s : S) (q : RPC) : option (S * Reply) :=
  match q with
  | QVote a => '(s, r) ← OnRequestVote s a; Some (s, RVote r)
  | QAppend a => '(s, r) ← OnAppendEntries s a; Some (s, RAppend r)
  | QSnapshot a => '(s, r) ← OnInstallSnapshot s a; Some (s, RSnapshot r)
  end.

Definition rpc_type (q : RPC) : N :=
  match q with QVote _ => MsgRequestVote | QAppend _ => MsgAppendEntries | QSnapshot _ => MsgInstallSnapshot end.
Definition rpc_body (q : RPC) : list byte := match q with QVote a => genc a | QAppend a => genc a | QSnapshot a => genc a end.
Definition rpc_frame (q : RPC) : list byte := encodeFrame (rpc_type q) (rpc_body q).

Definition reply_body (r : Reply) : list byte := match r with RVote r => genc r | RAppend r => genc r | RSnapshot r => genc r end.
Definition reply_frame (r : Reply) : list byte :=
  match r with
  | RVote _ => encodeFrame MsgRequestVoteReply (reply_body r)
  | RAppend _ => encodeFrame MsgAppendEntriesReply (reply_body r)
  | RSnapshot _ => encodeFrame MsgInstallSnapshotReply (reply_body r)
  end.

Definition decode_rpc (msgType : N) (body : list byte) : option RPC :=
  if (msgType =? MsgRequestVote)%N then QVote <$> gdec body
  else if (msgType =? MsgAppendEntries)%N then QAppend <$> gdec body
  else if (msgType =? MsgInstallSnapshot)%N then QSnapshot <$> gdec body
  else None.

(** One round of [handleConn]: more bytes are needed, the connection is
    closed, the process panics, or a request is answered. *)
Inductive Served := NeedMore | Closed | Panicked | Answered (q : RPC) (r : Reply) (s : S) (rest : list byte).

Definition handleConn_round (s : S) (conn : list byte) : Served :=
  match readFrame conn with
  | None => NeedMore
  | Some (msgType, body, rest) =>
      match decode_rpc msgType body with
      | None => Closed
      | Some q => match callback s q with Some (s, r) => Answered q r s rest | None => Panicked end
      end
  end.

(** The three [Send] methods after [send]: the body is decoded as the reply
    to what was asked; the type in the frame is not looked at. *)
Definition decode_reply (q : RPC) (body : list byte) : option Reply :=
  match q with
  | QVote _ => RVote <$> gdec body
  | QAppend _ => RAppend <$> gdec body
  | QSnapshot _ => RSnapshot <$> gdec body
  end.

(** ** The connections of one node to one peer *)

(** What is on its way to the server, and back; whether the client has closed
    its end, and whether the server's loop runs. *)
Record Conn := mkConn { cn_req : list byte; cn_rep : list byte; cn_client : bool; cn_server : bool }.

Definition dialed : Conn := mkConn [] [] true true.

(** [cl_cur] is [conns[peer]]. [cl_wait] has the goroutines that read a
    reply, each with its connection and request; [cl_log] the requests the
    peer answered, [cl_out] the requests whose [Send] returned, with the
    reply or an error. *)
Record Client := mkClient {
  cl_cur : option N;
  cl_conns : gmap N Conn;
  cl_next : N;
  cl_peer : S;
  cl_wait : list (N * RPC);
  cl_log : list (RPC * Reply);
  cl_out : list (RPC * option Reply);
}.

Inductive NetEvent :=
| ESend (q : RPC)                     (* the frame is written *)
| EDialFail (q : RPC)
| EWriteFail (q : RPC) (k : nat)      (* the write fails after [k] bytes *)
| EServe (id : N)                     (* a round of the server on a connection *)
| ERecv (i : nat)                     (* a goroutine that waits reads a frame *)
| ETimeout (i : nat)                  (* or its deadline passes, or the read fails *)
| EClose.                             (* [Close] *)

(** [getConn] when the dial succeeds. *)
Definition getConn (c : Client) : N * gmap N Conn * N :=
  match cl_cur c with
  | Some id => (id, cl_conns c, cl_next c)
  | None => (cl_next c, <[cl_next c := dialed]> (cl_conns c), (cl_next c + 1)%N)
  end.

Definition put_req (conns : gmap N Conn) (id : N) (bytes : list byte) : gmap N Conn :=
  alter (fun cn => mkConn (cn_req cn ++ bytes) (cn_rep cn) (cn_client cn) (cn_server cn)) id conns.

(** [removeConn] closes the current connection, whichever it is. *)
Definition removeConn (cur : option N) (conns : gmap N Conn) : gmap N Conn :=
  match cur with
  | Some id => alter (fun cn => mkConn (cn_req cn) (cn_rep cn) false (cn_server cn)) id conns
  | None => conns
  end.

Definition Close (c : Client) : Client :=
  mkClient None (removeConn (cl_cur c) (cl_conns c)) (cl_next c) (cl_peer c) (cl_wait c) (cl_log c) (cl_out c).

Definition serve (c : Client) (id : N) : option Client :=
  cn ← cl_conns c !! id;
  if cn_server cn then
    match handleConn_round (cl_peer c) (cn_req cn) with
    | NeedMore | Panicked => None
    | Closed =>
        Some (mkClient (cl_cur c) (<[id := mkConn (cn_req cn) (cn_rep cn) (cn_client cn) false]> (cl_conns c)) (cl_next c)
                (cl_peer c) (cl_wait c) (cl_log c) (cl_out c))
    | Answered q r s rest =>
        Some (mkClient (cl_cur c) (<[id := mkConn rest (cn_rep cn ++ reply_frame r) (cn_client cn) true]> (cl_conns c)) (cl_next c)
                s (cl_wait c) (cl_log c ++ [(q, r)]) (cl_out c))
    end
  else None.

Definition receive (c : Client) (i : nat) : option Client :=
  '(id, q) ← cl_wait c !! i;
  cn ← cl_conns c !! id;
  if cn_client cn then
    '(_, body, rest) ← readFrame (cn_rep cn);
    Some (mkClient (cl_cur c) (<[id := mkConn (cn_req cn) rest true (cn_server cn)]> (cl_conns c)) (cl_next c) (cl_peer c)
            (delete i (cl_wait c)) (cl_log c) (cl_out c ++ [(q, decode_reply q body)]))
  else None.

Definition net_step (c : Client) (e : NetEvent) : option Client :=
  match e with
  | ESend q =>
      let '(id, conns, next) := getConn c in
      Some (mkClient (Some id) (put_req conns id (rpc_frame q)) next (cl_peer c) (cl_wait c ++ [(id, q)]) (cl_log c) (cl_out c))
  | EDialFail q =>
      match cl_cur c with
      | None => Some (mkClient None (cl_conns c) (cl_next c) (cl_peer c) (cl_wait c) (cl_log c) (cl_out c ++ [(q, None)]))
      | Some _ => None
      end
  | EWriteFail q k =>
      let '(id, conns, next) := getConn c in
      if Nat.leb (length (rpc_frame q)) k then None
      else Some (mkClient None (removeConn (Some id) (put_req conns id (take k (rpc_frame q)))) next (cl_peer c)
                   (cl_wait c) (cl_log c) (cl_out c ++ [(q, None)]))
  | EServe id => serve c id
  | ERecv i => receive c i
  | ETimeout i =>
      '(_, q) ← cl_wait c !! i;
      Some (mkClient None (removeConn (cl_cur c) (cl_conns c)) (cl_next c) (cl_peer c) (delete i (cl_wait c)) (cl_log c)
              (cl_out c ++ [(q, None)]))
  | EClose => Some (Close c)
  end.

Fixpoint net_run (c : Client) (es : list NetEvent) : option Client :=
  match es with [] => Some c | e :: es => match net_step c e with Some c => net_run c es | None => None end end.

Definition client0 (s : S) : Client := mkClient None ∅ 0 s [] [] [].

(** No goroutine starts a request while another one waits. *)
Definition starts (e : NetEvent) : bool := match e with ESend _ | EDialFail _ | EWriteFail _ _ => true | _ => false end.

Fixpoint serial (c : Client) (es : list NetEvent) : bool :=
  match es with
  | [] => true
  | e :: es =>
      (negb (starts e) || match cl_wait c with [] => true | _ => false end)
      && match net_step c e with Some c => serial c es | None => true end
  end.

(** ** The client's own reply *)

Context `{!GobLaw RequestVoteArgs, !GobLaw AppendEntriesArgs, !GobLaw InstallSnapshotArgs}.
Context `{!GobLaw RequestVoteReply, !GobLaw AppendEntriesReply, !GobLaw InstallSnapshotReply}.

(** No body has 4 GiB. *)
Definition event_fits (e : NetEvent) : Prop := match e with ESend q => fits (rpc_body q) | _ => True end.
Hypothesis reply_fits : forall s q s' r, callback s q = Some (s', r) -> fits (reply_body r).

Lemma decode_rpc_own q : decode_rpc (rpc_type q) (rpc_body q) = Some q.
Proof. destruct q; cbn; by rewrite gdec_genc. Qed.

Lemma decode_reply_own s q s' r : callback s q = Some (s', r) -> decode_reply q (reply_body r) = Some r.
Proof.
  destruct q as [a|a|a]; cbn;
    [destruct (OnRequestVote s a) as [[]|]|destruct (OnAppendEntries s a) as [[]|]|destruct (OnInstallSnapshot s a) as [[]|]];
    intros [= <- <-]; cbn; by rewrite gdec_genc.
Qed.

Lemma read_reply r : fits (reply_body r) -> exists t, readFrame (reply_frame r) = Some (t, reply_body r, []).
Proof. rewrite <-(app_nil_r (reply_frame r)). destruct r; intros Hf; eexists; (apply readFrame_encode; [done|exact Hf]). Qed.

Lemma round_own s q : fits (rpc_body q) ->
  handleConn_round s (rpc_frame q) = match callback s q with Some (s, r) => Answered q r s [] | None => Panicked end.
Proof.
  intros Hf. unfold handleConn_round, rpc_frame. rewrite <-(app_nil_r (encodeFrame _ _)), readFrame_encode by (done || by destruct q).
  by rewrite decode_rpc_own.
Qed.

(** The replies that were handed out, in order. *)
Definition replies (out : list (RPC * option Reply)) : list (RPC * Reply) := omap (fun qo => pair qo.1 <$> qo.2) out.

Lemma replies_error out q : replies (out ++ [(q, None)]) = replies out.
Proof. unfold replies. rewrite omap_app. cbn. by rewrite app_nil_r. Qed.

Lemma replies_reply out q r : replies (out ++ [(q, Some r)]) = replies out ++ [(q, r)].
Proof. unfold replies. by rewrite omap_app. Qed.

(** What is on the current connection. *)
Definition on_wire (c : Client) (id : N) (cn : Conn) : Prop :=
  match cl_wait c with
  | [] => cn = dialed
  | [(id', q)] => id' = id /\ fits (rpc_body q) /\
      (cn = mkConn (rpc_frame q) [] true true
       \/ exists s s' r, callback s q = Some (s', r) /\ replies (cl_out c) ++ [(q, r)] `sublist_of` cl_log c /\ cn = mkConn [] (reply_frame r) true true)
  | _ => False
  end.

Definition given_up (c : Client) : Prop :=
  cl_wait c = [] \/ exists id q cn, cl_wait c = [(id, q)] /\ cl_conns c !! id = Some cn /\ cn_client cn = false.

Record net_inv (c : Client) : Prop := {
  ni_next : forall id cn, cl_conns c !! id = Some cn -> (id < cl_next c)%N;
  ni_cur : match cl_cur c with Some id => exists cn, cl_conns c !! id = Some cn /\ on_wire c id cn | None => given_up c end;
  ni_out : replies (cl_out c) `sublist_of` cl_log c;
}.

Lemma next_alter (conns : gmap N Conn) f id next : (forall x cn, conns !! x = Some cn -> (x < next)%N) ->
  forall x cn, alter f id conns !! x = Some cn -> (x < next)%N.
Proof. intros Hn x cn [[_ (y & Hy & _)]|[_ Hy]]%lookup_alter_Some; by eapply Hn. Qed.

Lemma removeConn_next cur conns next : (forall x cn, conns !! x = Some cn -> (x < next)%N) ->
  forall x cn, removeConn cur conns !! x = Some cn -> (x < next)%N.
Proof. destruct cur; [apply next_alter|done]. Qed.

Lemma next_insert (conns : gmap N Conn) id cn0 cn1 next : conns !! id = Some cn0 -> (forall x cn, conns !! x = Some cn -> (x < next)%N) ->
  forall x cn, <[id := cn1]> conns !! x = Some cn -> (x < next)%N.
Proof. intros Hid Hn x cn [[<- _]|[_ Hy]]%lookup_insert_Some; by eapply Hn. Qed.

Lemma getConn_idle c : net_inv c -> cl_wait c = [] ->
  let '(id, conns, next) := getConn c in
  conns !! id = Some dialed /\ (forall x cn, conns !! x = Some cn -> (x < next)%N).
Proof.
  intros [I1 I2 I3] Hw. unfold getConn. destruct (cl_cur c) as [id|].
  - destruct I2 as (cn & Hcn & Hon). unfold on_wire in Hon. rewrite Hw in Hon. by subst cn.
  - rewrite lookup_insert_eq. split; [done|]. intros x cn [[<- _]|[_ Hcn%I1]]%lookup_insert_Some; lia.
Qed.

Lemma client_start c e c' : net_inv c -> cl_wait c = [] -> starts e = true -> event_fits e -> net_step c e = Some c' -> net_inv c'.
Proof.
  intros I Hw He Hf Hs. pose proof (getConn_idle c I Hw) as Hg. destruct I as [I1 I2 I3].
  destruct e as [q|q|q k| | | |]; try done; cbn [net_step] in Hs.
  - destruct (getConn c) as [[id conns] next]. destruct Hg as [Hid Hn]. injection Hs as <-.
    split; cbn; [by apply next_alter| |done]. exists (mkConn (rpc_frame q) [] true true).
    unfold put_req. rewrite lookup_alter_eq, Hid. split; [done|]. unfold on_wire. cbn [cl_wait]. rewrite Hw. cbn. auto.
  - destruct (cl_cur c) as [id|] eqn:Hc; [done|]. injection Hs as <-. split; cbn; [done|by left|by rewrite replies_error].
  - destruct (getConn c) as [[id conns] next]. destruct Hg as [Hid Hn].
    destruct (Nat.leb _ k); [done|]. injection Hs as <-. split; cbn; [by do 2 apply next_alter|by left|by rewrite replies_error].
Qed.

Lemma given_up_serve c id cn b rest rep s log (cn' := mkConn rest rep (cn_client cn) b) :
  given_up c -> cl_conns c !! id = Some cn ->
  given_up (mkClient None (<[id := cn']> (cl_conns c)) (cl_next c) s (cl_wait c) log (cl_out c)).
Proof.
  intros [Hw|(j & q & cn1 & Hw & Hj & Hc)] Hid; [by left|]. right. cbn. destruct (decide (id = j)) as [<-|Hne].
  - exists id, q, cn'. rewrite lookup_insert_eq. split; [done|]. split; [done|]. rewrite Hid in Hj. injection Hj as <-. exact Hc.
  - exists j, q, cn1. by rewrite lookup_insert_ne.
Qed.

(** A round on another connection, and a round that answers the request. *)
Lemma client_serve c id c' : net_inv c -> serve c id = Some c' -> net_inv c'.
Proof.
  intros [I1 I2 I3] Hs. unfold serve in Hs. destruct (cl_conns c !! id) as [cn|] eqn:Hcn; [|done]. cbn [mbind option_bind] in Hs.
  destruct (cn_server cn) eqn:Hsv; [|done].
  destruct (handleConn_round (cl_peer c) (cn_req cn)) as [| | |q r s rest] eqn:Hr; try done; injection Hs as <-;
    (split; cbn; [by eapply next_insert| |done || by apply sublist_inserts_r]); (destruct (cl_cur c) as [id'|]; [|by eapply given_up_serve]);
    destruct I2 as (cn' & Hcn' & Hon); (destruct (decide (id' = id)) as [->|Hne];
      [rewrite Hcn in Hcn'; injection Hcn' as <-; rewrite lookup_insert_eq|rewrite lookup_insert_ne by done]);
    unfold on_wire in *; cbn [cl_wait cl_log cl_out] in *.
  - exfalso. destruct (cl_wait c) as [|[i q] [|]]; [by subst cn| |done].
    destruct Hon as (_ & Hf & [->|(? & ? & ? & _ & _ & ->)]); [|done]. cbn [cn_req] in Hr. rewrite round_own in Hr by done. by destruct (callback _ _) as [[]|].
  - by exists cn'.
  - eexists. split; [done|]. destruct (cl_wait c) as [|[i q'] [|]]; [by subst cn| |done].
    destruct Hon as (-> & Hf & [->|(? & ? & ? & _ & _ & ->)]); [|done]. cbn [cn_req cn_rep cn_client] in *.
    rewrite round_own in Hr by done. destruct (callback _ _) as [[s1 r1]|] eqn:Hcb; [|done]. injection Hr as -> -> -> <-.
    split; [done|]. split; [done|]. right. exists (cl_peer c), s, r. split; [done|]. split; [by apply sublist_app|done].
  - exists cn'. split; [done|]. destruct (cl_wait c) as [|[i q'] [|]]; [done| |done]. destruct Hon as (? & ? & [?|(s1 & s2 & r1 & ? & ? & ?)]); [by auto|].
    split; [done|]. split; [done|]. right. exists s1, s2, r1. split; [done|]. split; [by apply sublist_inserts_r|done].
Qed.

Lemma wait_single c i id q : net_inv c -> cl_wait c !! i = Some (id, q) ->
  i = 0 /\ cl_wait c = [(id, q)]
  /\ (cl_cur c = Some id \/ cl_cur c = None /\ exists cn, cl_conns c !! id = Some cn /\ cn_client cn = false).
Proof.
  intros [_ I2 _] Hi. destruct (cl_cur c) as [id'|].
  - destruct I2 as (cn & _ & Hon). unfold on_wire in Hon. destruct (cl_wait c) as [|[j p] [|]]; [done| |done].
    destruct Hon as [-> _]. destruct i; [|done]. cbn in Hi. injection Hi as -> ->. auto.
  - destruct I2 as [Hw|(j & p & cn & Hw & Hj & Hc)]; rewrite Hw in *; [done|]. destruct i; [|done]. cbn in Hi. injection Hi as -> ->. eauto 10.
Qed.

Lemma client_receive c i c' : net_inv c -> receive c i = Some c' -> net_inv c'.
Proof.
  intros I Hs. unfold receive in Hs. destruct (cl_wait c !! i) as [[id q]|] eqn:Hi; [|done]. cbn [mbind option_bind] in Hs.
  destruct (wait_single c i id q I Hi) as (-> & Hw & [Hc|(_ & cn & Hcn & Hcl)]); [|by rewrite Hcn in Hs; cbn in Hs; rewrite Hcl in Hs].
  destruct I as [I1 I2 I3]. rewrite Hc in I2. destruct I2 as (cn & Hcn & Hon).
  rewrite Hcn in Hs. cbn [mbind option_bind] in Hs. unfold on_wire in Hon. rewrite Hw in Hon. destruct Hon as (_ & Hf & [->|(s & s' & r & Hcb & Hin & ->)]); [done|].
  cbn [cn_client cn_rep] in Hs. destruct (read_reply r (reply_fits _ _ _ _ Hcb)) as [t Ht]. rewrite Ht in Hs. cbn [mbind option_bind] in Hs.
  rewrite (decode_reply_own _ _ _ _ Hcb) in Hs. injection Hs as <-. split; cbn.
  - by eapply next_insert.
  - rewrite Hc. eexists. rewrite lookup_insert_eq. split; [done|]. unfold on_wire. cbn [cl_wait]. by rewrite Hw.
  - by rewrite replies_reply.
Qed.

Lemma client_timeout c i c' : net_inv c -> net_step c (ETimeout i) = Some c' -> net_inv c'.
Proof.
  intros I Hs. cbn [net_step] in Hs. destruct (cl_wait c !! i) as [[id q]|] eqn:Hi; [|done].
  destruct (wait_single c i id q I Hi) as (-> & Hw & _). destruct I as [I1 I2 I3]. injection Hs as <-. rewrite Hw.
  split; cbn; [by apply removeConn_next|by left|by rewrite replies_error].
Qed.

Lemma client_close c : net_inv c -> net_inv (Close c).
Proof.
  intros [I1 I2 I3]. split; cbn; [by apply removeConn_next| |done]. unfold Close. destruct (cl_cur c) as [id|]; [|exact I2].
  destruct I2 as (cn & Hcn & Hon). unfold on_wire in Hon. destruct (cl_wait c) as [|[j q] [|]] eqn:Hw; [by left| |done].
  destruct Hon as [-> _]. right. do 3 eexists. cbn. by rewrite lookup_alter_eq, Hcn.
Qed.

Lemma serial_run_ok es c c' : net_inv c -> serial c es = true -> Forall event_fits es -> net_run c es = Some c' -> net_inv c'.
Proof.
  intros I Hser Hf. revert c I Hser. induction Hf as [|e es He _ IH]; intros c I Hser Hr; cbn [net_run serial] in *; [by injection Hr as <-|].
  destruct (net_step c e) as [c1|] eqn:Hs; [|done]. apply andb_true_iff in Hser as [Hst Hser]. eapply IH; [|done|done].
  destruct (starts e) eqn:Hse.
  - cbn [negb orb] in Hst. destruct (cl_wait c) eqn:Hw; [|done]. by eapply client_start.
  - destruct e; try done; [by eapply client_serve|by eapply client_receive|by eapply client_timeout|].
    injection Hs as <-. by apply client_close.
Qed.

Lemma client0_ok s : net_inv (client0 s).
Proof. split; [done|by left|done]. Qed.

(** A request that nothing disturbs. *)
Lemma rpc_completes c q s' r : net_inv c -> cl_wait c = [] -> fits (rpc_body q) -> callback (cl_peer c) q = Some (s', r) ->
  exists id c', net_run c [ESend q; EServe id; ERecv 0] = Some c' /\ cl_out c' = cl_out c ++ [(q, Some r)] /\ cl_peer c' = s' /\ cl_wait c' = [].
Proof.
  intros I Hw Hf Hcb. pose proof (getConn_idle c I Hw) as Hg. cbn [net_run net_step]. rewrite Hw. destruct (getConn c) as [[id conns] next]. destruct Hg as [Hid _].
  exists id. unfold serve, put_req. cbn [cl_conns]. rewrite lookup_alter_eq, Hid. cbn -[handleConn_round]. rewrite round_own, Hcb by done.
  unfold receive. cbn. rewrite lookup_insert_eq. cbn. destruct (read_reply r (reply_fits _ _ _ _ Hcb)) as [t Ht]. rewrite Ht. cbn.
  rewrite (decode_reply_own _ _ _ _ Hcb). by eexists.
Qed.

(** C28. When every request to a peer is started while no other one waits
    for that peer ([serial]), each goroutine gets an error or the reply
    that the peer computed for exactly its arguments, whatever dials,
    writes and reads fail, whenever the transport is closed, however late
    the server answers on a connection that was given up, and no reply is
    handed out twice: the replies handed out are a subsequence of those the
    peer computed. And a request that nothing disturbs returns what the
    callback answers. *)
Theorem rpc_own_reply s es c :
  serial (client0 s) es = true -> Forall event_fits es -> net_run (client0 s) es = Some c ->
  replies (cl_out c) `sublist_of` cl_log c
  /\ (forall q s' r, cl_wait c = [] -> fits (rpc_body q) -> callback (cl_peer c) q = Some (s', r) ->
       exists id c', net_run c [ESend q; EServe id; ERecv 0] = Some c'
         /\ cl_out c' = cl_out c ++ [(q, Some r)] /\ cl_peer c' = s' /\ cl_wait c' = []).
Proof.
  intros Hser Hf Hr. pose proof (serial_run_ok es _ _ (client0_ok s) Hser Hf Hr) as I.
  split; [by apply ni_out|]. intros. by apply rpc_completes.
Qed.
End Transport.

(** ** A concrete codec

    Any countable type: its number, in as many bytes as it has bits. *)

Definition countable_gob (T : Type) `{Countable T} : Gob T := {|
  genc x := le_put (Pos.size_nat (encode x)) (Npos (encode x));
  gdec bs := match le_get bs with Npos p => decode p | N0 => None end |}.

Lemma size_nat_bound p : (Npos p < 2 ^ N.of_nat (Pos.size_nat p))%N.
Proof.
  induction p as [p IH|p IH|]; [| |done]; cbn [Pos.size_nat]; rewrite Nat2N.inj_succ, N.pow_succ_r'; lia.
Qed.

Lemma countable_gob_law (T : Type) `{Countable T} : @GobLaw T (countable_gob T).
Proof.
  intros x. unfold gdec, genc, countable_gob. rewrite le_get_put_small; [apply decode_encode|].
  eapply N.lt_le_trans; [apply size_nat_bound|]. by apply N.pow_le_mono_l.
Qed.

#[export] Instance transport_byte_countable : Countable byte := inj_countable Byte.to_N Byte.of_N Byte.of_to_N.
#[export] Instance Command_countable : Countable Command.
Proof.
  apply (inj_countable'
    (fun c => (c_Type c, c_TxnID c, c_Table c, c_RowKey c, c_Op c, c_Before c, c_After c, c_Iso c, c_Proto c))
    (fun '(t, x, tb, k, o, b, a, i, p) => mkCommand t x tb k o b a i p)). by intros [].
Defined.
#[export] Instance Entry_countable : Countable Entry.
Proof. apply (inj_countable' (fun e => (e_Index e, e_Term e, e_Command e)) (fun '(i, t, c) => mkEntry i t c)). by intros []. Defined.

#[export] Instance RequestVoteArgs_eq_dec : EqDecision RequestVoteArgs.
Proof. solve_decision. Defined.
#[export] Instance RequestVoteReply_eq_dec : EqDecision RequestVoteReply.
Proof. solve_decision. Defined.
#[export] Instance AppendEntriesArgs_eq_dec : EqDecision AppendEntriesArgs.
Proof. solve_decision. Defined.
#[export] Instance AppendEntriesReply_eq_dec : EqDecision AppendEntriesReply.
Proof. solve_decision. Defined.
#[export] Instance InstallSnapshotArgs_eq_dec : EqDecision InstallSnapshotArgs.
Proof. solve_decision. Defined.
#[export] Instance InstallSnapshotReply_eq_dec : EqDecision InstallSnapshotReply.
Proof. solve_decision. Defined.
#[export] Instance RPC_eq_dec : EqDecision RPC.
Proof. solve_decision. Defined.
#[export] Instance Reply_eq_dec : EqDecision Reply.
Proof. solve_decision. Defined.

#[export] Instance RequestVoteArgs_countable : Countable RequestVoteArgs.
Proof.
  apply (inj_countable' (fun a => (rv_Term a, rv_CandidateID a, rv_LastLogIndex a, rv_LastLogTerm a))
    (fun '(t, c, i, l) => mkRVArgs t c i l)). by intros [].
Defined.
#[export] Instance RequestVoteReply_countable : Countable RequestVoteReply.
Proof. apply (inj_countable' (fun a => (rvr_Term a, rvr_VoteGranted a)) (fun '(t, v) => mkRVReply t v)). by intros []. Defined.
#[export] Instance AppendEntriesArgs_countable : Countable AppendEntriesArgs.
Proof.
  apply (inj_countable' (fun a => (ae_Term a, ae_LeaderID a, ae_PrevLogIndex a, ae_PrevLogTerm a, ae_Entries a, ae_LeaderCommit a))
    (fun '(t, l, i, p, es, c) => mkAEArgs t l i p es c)). by intros [].
Defined.
#[export] Instance AppendEntriesReply_countable : Countable AppendEntriesReply.
Proof.
  apply (inj_countable' (fun a => (aer_Term a, aer_Success a, aer_ConflictTerm a, aer_ConflictIndex a))
    (fun '(t, s, c, i) => mkAEReply t s c i)). by intros [].
Defined.
#[export] Instance InstallSnapshotArgs_countable : Countable InstallSnapshotArgs.
Proof.
  apply (inj_countable' (fun a => (is_Term a, is_LeaderID a, is_LastIncludedIndex a, is_LastIncludedTerm a, is_Data a))
    (fun '(t, l, i, p, d) => mkISArgs t l i p d)). by intros [].
Defined.
#[export] Instance InstallSnapshotReply_countable : Countable InstallSnapshotReply.
Proof. apply (inj_countable' isr_Term mkISReply). by intros []. Defined.

Module TransportDemo.
#[local] Existing Instance countable_gob.
#[local] Existing Instance countable_gob_law.

(** A peer that counts its requests; the second request is sent after the
    first one timed out and its connection was given up, and the peer answers
    the first one late. *)
Definition cb_vote (s : N) (a : RequestVoteArgs) : option (N * RequestVoteReply) := Some ((s + 1)%N, mkRVReply 7 true).
Definition cb_append (s : N) (a : AppendEntriesArgs) : option (N * AppendEntriesReply) := Some ((s + 1)%N, mkAEReply 7 false 3 4).
Definition cb_snapshot (s : N) (a : InstallSnapshotArgs) : option (N * InstallSnapshotReply) := Some ((s + 1)%N, mkISReply 7).

Definition late_vote : RPC := QVote (mkRVArgs 7 "a" 2 1).
Definition late_append : RPC := QAppend (mkAEArgs 7 "a" 2 1 [mkEntry 3 7 noop] 1).
Definition late_events : list NetEvent :=
  [EDialFail late_vote; ESend late_vote; ETimeout 0; EWriteFail late_append 3; ESend late_append; EServe 0; EServe 2; ERecv 0].

Lemma cb_fits s q s' r : callback cb_vote cb_append cb_snapshot s q = Some (s', r) -> fits (reply_body r).
Proof. destruct q; intros [= <- <-]; by vm_compute. Qed.

Lemma late_fits : Forall event_fits late_events.
Proof. repeat constructor; by vm_compute. Qed.

Definition late_end : option (@Client N) := net_run cb_vote cb_append cb_snapshot (client0 0%N) late_events.

Lemma rpc_own_reply_witness :
  match late_end with
  | Some c => replies (cl_out c) `sublist_of` cl_log c
  | None => False
  end
  /\ option_map cl_out late_end
     = Some [(late_vote, None); (late_vote, None); (late_append, None); (late_append, Some (RAppend (mkAEReply 7 false 3 4)))].
Proof.
  split; [|vm_compute; exact eq_refl].
  assert (Hr : exists c, late_end = Some c).
  { unfold late_end. vm_compute. by eexists. }
  destruct late_end as [c|] eqn:He; [|by destruct Hr].
  refine (proj1 (rpc_own_reply cb_vote cb_append cb_snapshot cb_fits 0%N late_events c _ late_fits He)).
  vm_compute. exact eq_refl.
Defined.

(** *** Two goroutines on one connection

    Three nodes. The leader "a" has replicated its first entry to "b"; then
    the heartbeat's goroutine and the goroutine that sends the proposed entry
    both write to the one connection, "b" answers the heartbeat, and the
    second goroutine reads that answer. *)

Definition peer_vote (s : Node * list Entry) (a : RequestVoteArgs) : option ((Node * list Entry) * RequestVoteReply) :=
  '(n, r) ← handleRequestVote true true s.1 a; Some ((n, s.2), r).
Definition peer_append (s : Node * list Entry) (a : AppendEntriesArgs) : option ((Node * list Entry) * AppendEntriesReply) :=
  '(n, r) ← handleAppendEntries (H := demo_gob) true [] s.1 a; Some ((n, s.2), r).
Definition peer_snapshot (s : Node * list Entry) (a : InstallSnapshotArgs) : option ((Node * list Entry) * InstallSnapshotReply) :=
  let '(n, f, r) := handleInstallSnapshot (F := list Entry) (H0 := demo_fsm) true s.1 s.2 a in Some ((n, f), r).

Definition put : Command := mkCommand CmdCommit 9 "" "" 0 [] [] 0 0.

Definition fresh (id : NodeID) (others : list NodeID) : option Node :=
  NewNode (H := demo_gob) DiskOk id (list_to_map ((fun p => (p, p)) <$> others)) [] None.

(** The leader's side of a reply to AppendEntries. *)
Definition took (leader : Node) (a : AppendEntriesArgs) (next : N) (o : option Reply) : option Node :=
  match o with Some (RAppend r) => handleAppendReply true leader "b" a next r | _ => None end.

Definition append_of (leader : Node) : option (AppendEntriesArgs * N) :=
  match replicateToPeer leader "b" with Some (SendAppendEntries a next) => Some (a, next) | _ => None end.

Definition net (c : @Client (Node * list Entry)) (es : list NetEvent) : option Client :=
  net_run peer_vote peer_append peer_snapshot c es.

Definition last_out (c : @Client (Node * list Entry)) : option Reply := last (cl_out c) ≫= snd.

(** The leader, "b"'s connection, and what the second goroutine had sent. *)
Definition swap : option (Node * Client * RPC) :=
  a0 ← fresh "a" ["b"; "c"]; b0 ← fresh "b" ["a"; "c"];
  a1 ← becomeLeader (H := demo_gob) DiskOk (with_term a0 1);
  '(h0, n0) ← append_of a1;
  c1 ← net (client0 (b0, [])) [ESend (QAppend h0); EServe 0; ERecv 0];
  a2 ← took a1 h0 n0 (last_out c1);
  '(h1, _) ← append_of a2;
  '(a3, _) ← Propose (H := demo_gob) (IsLeader a2) DiskOk a2 put;
  '(h2, n2) ← append_of a3;
  c2 ← net c1 [ESend (QAppend h1); ESend (QAppend h2); EServe 0; ERecv 1];
  a4 ← took a3 h2 n2 (last_out c2);
  Some (a4, c2, QAppend h2).

(** Then "a" is cut off; "b" is elected with the vote of "c" and replicates
    its log to it. *)
Definition replicate_once (leader : Node) (peer : NodeID) (f : Node) : option (Node * Node) :=
  match replicateToPeer leader peer with
  | Some (SendAppendEntries a next) =>
      '(f, r) ← handleAppendEntries (H := demo_gob) true [] f a;
      leader ← handleAppendReply true leader peer a next r; Some (leader, f)
  | _ => None
  end.

Definition takeover (b : Node) : option Node :=
  c0 ← fresh "c" ["a"; "b"];
  '(b, reqs) ← becomeCandidate (H := demo_gob) true DiskOk b;
  v ← (list_to_map reqs : gmap NodeID RequestVoteArgs) !! "c";
  '(c, r) ← handleRequestVote true true c0 v;
  b ← handleVoteReply (H := demo_gob) true DiskOk b (rv_Term v) r;
  '(b, c) ← replicate_once b "c" c;
  '(b, c) ← replicate_once b "c" c;
  Some b.

Definition own_reply_lost (c : @Client (Node * list Entry)) (q : RPC) : bool :=
  match last (cl_out c) with
  | Some (q', Some r) => bool_decide (q' = q) && bool_decide ((q, r) ∉ cl_log c)
  | _ => false
  end.

Definition swap_checked (o : option (Node * Client * RPC)) : bool :=
  match o with
  | Some (a, c, q) =>
      match takeover (cl_peer c).1 with
      | Some b =>
          own_reply_lost c q
          && bool_decide (n_commitIndex a = 2%N /\ Get (n_log a) 2 = Some (mkEntry 2 1 put)
               /\ Get (n_log (cl_peer c).1) 2 = None)
          && match (applyCommitted (F := list Entry) (H0 := demo_fsm) a []).2 with [(i, None)] => (i =? 2)%N | _ => false end
          && bool_decide (n_commitIndex b = 2%N /\ Get (n_log b) 2 = Some (mkEntry 2 2 noop))
      | None => false
      end
  | None => false
  end.

Lemma swap_checked_sound o : swap_checked o = true ->
  exists a c q b,
    o = Some (a, c, q)
    /\ (exists r, last (cl_out c) = Some (q, Some r) /\ (q, r) ∉ cl_log c)
    /\ n_commitIndex a = 2%N /\ Get (n_log a) 2 = Some (mkEntry 2 1 put)
    /\ (applyCommitted (F := list Entry) (H0 := demo_fsm) a []).2 = [(2%N, None)]
    /\ Get (n_log (cl_peer c).1) 2 = None
    /\ takeover (cl_peer c).1 = Some b /\ n_commitIndex b = 2%N /\ Get (n_log b) 2 = Some (mkEntry 2 2 noop).
Proof.
  intros H. unfold swap_checked in H. destruct o as [[[a c] q]|]; [|discriminate H].
  destruct (takeover (cl_peer c).1) as [b|] eqn:Hb; [|discriminate H].
  apply andb_true_iff in H as [[[Hq Ha]%andb_true_iff Hap]%andb_true_iff Hb'%bool_decide_eq_true_1].
  apply bool_decide_eq_true_1 in Ha as (? & ? & ?).
  assert (Hans : (applyCommitted (F := list Entry) (H0 := demo_fsm) a []).2 = [(2%N, None)]).
  { destruct (applyCommitted _ _).2 as [|[i [e|]] [|]]; try done. by apply N.eqb_eq in Hap as ->. }
  exists a, c, q, b. split; [done|]. split; [|by destruct Hb'].
  unfold own_reply_lost in Hq. destruct (last (cl_out c)) as [[q' [r|]]|]; [|done|done].
  apply andb_true_iff in Hq as [->%bool_decide_eq_true_1 Hq%bool_decide_eq_true_1]. by exists r.
Qed.

Lemma swap_checked_true : swap_checked swap = true.
Proof. vm_cast_no_check (eq_refl true). Qed.

(** [send] does not keep the requests of two goroutines apart: after
    a run of two overlapping sends, the goroutine that sent the proposed entry
    holds a success that "b" never computed for it, the leader has committed
    the entry at index 2 that no other node has and its application confirms
    the proposal; and the rest of the cluster goes on to commit another entry
    at index 2. *)
Theorem swapped_reply :
  exists a c q b,
    swap = Some (a, c, q)
    /\ (exists r, last (cl_out c) = Some (q, Some r) /\ (q, r) ∉ cl_log c)
    /\ n_commitIndex a = 2%N /\ Get (n_log a) 2 = Some (mkEntry 2 1 put)
    /\ (applyCommitted (F := list Entry) (H0 := demo_fsm) a []).2 = [(2%N, None)]
    /\ Get (n_log (cl_peer c).1) 2 = None
    /\ takeover (cl_peer c).1 = Some b /\ n_commitIndex b = 2%N /\ Get (n_log b) 2 = Some (mkEntry 2 2 noop).
Proof. exact (swap_checked_sound swap swap_checked_true). Qed.
End TransportDemo.
