(* ===== verification/Api.v ===== *)
(** * The transaction endpoints of the HTTP API ([api])

    helpers.go, config.go, handlers_txn.go, handlers_ops.go and raft_wire.go.
    A handler is a function from the server's state and the parsed parts of
    the request to the new state and the response; [None] is a panic in the
    encoder of values. JSON decoding is the argument [Decoded]: the decoder's
    outcome. The Raft node is reached through the interface [Proposer]; a
    proposal returns after the entry has been applied to the manager.
    Logging and server-sent events are left out. *)

From Stdlib Require Import ZArith NArith Lia Strings.Byte Ascii String.
From stdpp Require Import base tactics numbers list gmap strings pretty.
From S2P Require Import Prelude Types Lock Acquire Storage Mvcc WalRecord Wal Ssi Txn TxnInv GapLock Raft.

(** ** config.go *)

(** Durations are nanoseconds. *)
Definition Millisecond : Z := 1000000.
Definition DefaultLockTimeout : Z := 5000000000.
Definition MaxLockTimeout : Z := 300000000000.
Definition MaxActiveTxns : nat := Pos.to_nat 10000.

(** ** helpers.go *)

Inductive Body :=
| BError (msg : string)
| BNotLeader (leader : string)
| BBegin (id : N) (protocol isolation : string)
| BStatus (id : N) (status : string)
| BActive (ids : list N)
| BSavepoint (name : string) (done : string)
| BRead (found : bool) (values : Values)
| BOk
| BScan (rows : list Row) (count : nat).

Record Response := mkResp { r_code : N; r_body : Body }.

Definition errResponse (code : N) (msg : string) : Response := mkResp code (BError msg).
Definition okJSON (b : Body) : Response := mkResp 200 b.

Definition errToPublicResponse (err : GoError) : N * string :=
  match err with
  | ETxn e =>
      match e_Code e with
      | ErrTxnNotFound => (404, "transaction not found")
      | ErrRowNotFound => (404, "row not found")
      | ErrTableNotFound => (404, "table not found")
      | ErrSavepointNotFound => (404, "savepoint not found")
      | ErrDeadlock => (409, "deadlock detected; transaction was aborted and can be retried")
      | ErrWriteConflict => (409, "write-write conflict; transaction can be retried")
      | ErrSerializationFailure => (409, "serialization failure; transaction can be retried")
      | ErrDuplicateKey => (409, "duplicate key")
      | ErrLockTimeout => (408, "lock acquisition timed out")
      | ErrTxnAborted => (410, "transaction was aborted")
      | ErrWounded => (409, "transaction was wounded by a higher-priority transaction")
      | ErrInvalidIsolation => (400, "unknown isolation level")
      | ErrInvalidRowShape => (400, "row shape does not match table declaration")
      | ErrTxnCommitted => (409, "transaction already committed")
      end
  | EOther msg =>
      if String.eqb msg "EOF" then (400, "request body required")
      else if String.eqb msg "http: Handler timeout" then (503, "request timed out")
      else (500, "internal server error")
  end%N.

Definition errWrite (err : GoError) : Response :=
  let '(status, msg) := errToPublicResponse err in errResponse status msg.

(** What [json.Decoder.Decode] returned. *)
Inductive Decoded (A : Type) := DecOk (a : A) | DecEOF | DecTooLarge | DecBad.
Arguments DecOk {A}. Arguments DecEOF {A}. Arguments DecTooLarge {A}. Arguments DecBad {A}.

(** [zero] is the value the request variable starts with. *)
Definition decodeJSON {A} (d : Decoded A) (zero : A) (allowEmpty : bool) : result Response A :=
  match d with
  | DecOk a => Ok a
  | DecEOF => if allowEmpty then Ok zero else Err (errResponse 400 "request body required")
  | DecTooLarge => Err (errResponse 413 "request body too large")
  | DecBad => Err (errResponse 400 "invalid request body")
  end.

(** [strconv.ParseUint(s, 10, 64)]: digits only, below 2^64. *)
Fixpoint parse_digits (acc : N) (s : string) : option N :=
  match s with
  | EmptyString => Some acc
  | String c s =>
      let d := N_of_ascii c in
      if (48 <=? d)%N && (d <=? 57)%N then parse_digits (acc * 10 + (d - 48)) s else None
  end.

Definition ParseUint (s : string) : option N :=
  match s with
  | EmptyString => None
  | _ => match parse_digits 0 s with
         | Some n => if (n <? two64)%N then Some n else None
         | None => None
         end
  end.

Definition parseTxnID (raw : string) : option N :=
  match ParseUint raw with
  | Some n => if (n =? 0)%N then None else Some n
  | None => None
  end.

Definition isolationFromString (s : string) : result TxnError IsolationLevel :=
  if String.eqb s "read_uncommitted" || String.eqb s "ru" then Ok ReadUncommitted
  else if String.eqb s "read_committed" || String.eqb s "rc" || String.eqb s "" then Ok ReadCommitted
  else if String.eqb s "repeatable_read" || String.eqb s "rr" then Ok RepeatableRead
  else if String.eqb s "serializable" || String.eqb s "s" then Ok Serializable
  else Err (txnError ErrInvalidIsolation ("unknown isolation level: " +:+ s)).

Definition protocolFromString (s : string) : result TxnError ConcurrencyProtocol :=
  if String.eqb s "2pl" || String.eqb s "" then Ok Protocol2PL
  else if String.eqb s "mvcc" then Ok ProtocolMVCC
  else Err (txnError ErrInvalidIsolation ("unknown protocol: " +:+ s)).

(** ** The server *)

Record BeginRequest := mkBeginReq { b_Protocol : string; b_Isolation : string; b_LockTimeoutMs : Z }.
Record SavepointRequest := mkSpReq { sq_Name : string }.
Record RowOpRequest := mkRowReq { ro_Table : string; ro_Key : string; ro_Values : Values }.
Record ScanRequest := mkScanReq { sc_Table : string }.

Record Metrics := mkMetrics { mt_Reads : N; mt_Writes : N; mt_Scans : N; mt_Conflicts : N }.

(** The interface RaftProposer, with [Propose] of the node behind it. *)
Record Proposer (M : Type) := mkProposer {
  pr_IsLeader : bool;
  pr_LeaderAddr : string;
  pr_Propose : M -> Command -> option (M * option GoError);
}.
Arguments pr_IsLeader {M}. Arguments pr_LeaderAddr {M}. Arguments pr_Propose {M}.

Record Server (L W : Type) := mkServer {
  sv_mgr : Mgr L W;
  sv_raft : option (Proposer (Mgr L W));
  sv_m : option Metrics;
}.
Arguments mkServer {L W}. Arguments sv_mgr {L W}. Arguments sv_raft {L W}. Arguments sv_m {L W}.

Section Handlers.
Context {L W : Type} `{LockService L} `{WALWriter W}.
Implicit Types s : Server L W.

Definition with_mgr s (m : Mgr L W) : Server L W := mkServer m (sv_raft s) (sv_m s).

Definition count_read s : Server L W :=
  mkServer (sv_mgr s) (sv_raft s)
    ((fun m => mkMetrics (mt_Reads m + 1) (mt_Writes m) (mt_Scans m) (mt_Conflicts m)) <$> sv_m s).
Definition count_write s : Server L W :=
  mkServer (sv_mgr s) (sv_raft s)
    ((fun m => mkMetrics (mt_Reads m) (mt_Writes m + 1) (mt_Scans m) (mt_Conflicts m)) <$> sv_m s).
Definition count_scan s : Server L W :=
  mkServer (sv_mgr s) (sv_raft s)
    ((fun m => mkMetrics (mt_Reads m) (mt_Writes m) (mt_Scans m + 1) (mt_Conflicts m)) <$> sv_m s).

(** A write conflict is counted. *)
Definition count_conflict s (e : GoError) : Server L W :=
  match e with
  | ETxn t =>
      if bool_decide (e_Code t = ErrWriteConflict) then
        mkServer (sv_mgr s) (sv_raft s)
          ((fun m => mkMetrics (mt_Reads m) (mt_Writes m) (mt_Scans m) (mt_Conflicts m + 1)) <$> sv_m s)
      else s
  | EOther _ => s
  end.

(** ** raft_wire.go *)

Notation Raft := (Proposer (Mgr L W)).

Definition ProposeBegin (r : Raft) (m : Mgr L W) (txnID proto iso : N) : option (Mgr L W * option GoError) :=
  pr_Propose r m (mkCommand CmdBegin txnID "" "" 0 [] [] iso proto).
Definition ProposeWrite (r : Raft) (m : Mgr L W) (txnID : N) (table key : string) (op : N)
    (before after : list byte) : option (Mgr L W * option GoError) :=
  pr_Propose r m (mkCommand CmdWrite txnID table key op before after 0 0).
Definition ProposeCommit (r : Raft) (m : Mgr L W) (txnID : N) : option (Mgr L W * option GoError) :=
  pr_Propose r m (mkCommand CmdCommit txnID "" "" 0 [] [] 0 0).
Definition ProposeAbort (r : Raft) (m : Mgr L W) (txnID : N) : option (Mgr L W * option GoError) :=
  pr_Propose r m (mkCommand CmdAbort txnID "" "" 0 [] [] 0 0).

(** ** handlers_txn.go *)

Definition raftLeaderCheck s : option Response :=
  match sv_raft s with
  | None => None
  | Some r => if pr_IsLeader r then None else Some (mkResp 503 (BNotLeader (pr_LeaderAddr r)))
  end.

Definition iso_code (i : IsolationLevel) : N :=
  match i with ReadUncommitted => 0 | ReadCommitted => 1 | RepeatableRead => 2 | Serializable => 3 end.

Definition timeout_message : string :=
  "lockTimeoutMs out of range (0.." +:+ pretty (Z.to_N (MaxLockTimeout / Millisecond)) +:+ ")".

(** [time.Duration(ms) * time.Millisecond] in int64. *)
Definition timeout_of (ms : Z) : Z := int_of_u64 (u64_of_int (ms * Millisecond)).

Definition handleBegin s (body : Decoded BeginRequest) : option (Server L W * Response) :=
  match raftLeaderCheck s with
  | Some r => Some (s, r)
  | None =>
      match decodeJSON body (mkBeginReq "" "" 0) true with
      | Err r => Some (s, r)
      | Ok req =>
          match protocolFromString (b_Protocol req), isolationFromString (b_Isolation req) with
          | Err _, _ | _, Err _ => Some (s, errResponse 400 "invalid request")
          | Ok proto, Ok iso =>
              let timeout := timeout_of (b_LockTimeoutMs req) in
              let timeout := if (timeout =? 0)%Z then DefaultLockTimeout else timeout in
              if (timeout <? 0)%Z || (MaxLockTimeout <? timeout)%Z then
                Some (s, errResponse 400 timeout_message)
              else if MaxActiveTxns <=? ActiveCount (sv_mgr s) then
                Some (s, errResponse 503 "too many active transactions")
              else
                match sv_raft s with
                | Some r =>
                    let (m, txnID) := AllocateTxnID (sv_mgr s) in
                    let protoU8 := if bool_decide (proto = ProtocolMVCC) then 1%N else 0%N in
                    match ProposeBegin r m txnID protoU8 (iso_code iso) with
                    | None => None
                    | Some (m, Some e) => Some (with_mgr s m, errWrite e)
                    | Some (m, None) =>
                        match GetTxn m txnID with
                        | None => Some (with_mgr s m, errResponse 500 "internal error")
                        | Some _ =>
                            Some (with_mgr s m, okJSON (BBegin txnID (b_Protocol req) (b_Isolation req)))
                        end
                    end
                | None =>
                    match Begin (sv_mgr s) proto iso with
                    | (m, Err _) =>
                        (* the only error is ErrTooManyTransactions *)
                        Some (with_mgr s m, errResponse 503 "too many active transactions")
                    | (m, Ok id) => Some (with_mgr s m, okJSON (BBegin id (b_Protocol req) (b_Isolation req)))
                    end
                end
          end
      end
  end.

(** Commit and abort: the same handler around two operations. *)
Definition handle_end s (raw status : string)
    (propose : Raft -> Mgr L W -> N -> option (Mgr L W * option GoError))
    (op : Mgr L W -> N -> Mgr L W * result GoError unit) : option (Server L W * Response) :=
  match raftLeaderCheck s with
  | Some r => Some (s, r)
  | None =>
      match parseTxnID raw with
      | None => Some (s, errResponse 400 "invalid request")
      | Some id =>
          match sv_raft s with
          | Some r =>
              match propose r (sv_mgr s) id with
              | None => None
              | Some (m, Some e) => Some (with_mgr s m, errWrite e)
              | Some (m, None) => Some (with_mgr s m, okJSON (BStatus id status))
              end
          | None =>
              match op (sv_mgr s) id with
              | (m, Err e) => Some (with_mgr s m, errWrite e)
              | (m, Ok _) => Some (with_mgr s m, okJSON (BStatus id status))
              end
          end
      end
  end.

Definition handleCommit s (raw : string) : option (Server L W * Response) :=
  handle_end s raw "committed" ProposeCommit Commit.

Definition handleAbort s (raw : string) : option (Server L W * Response) :=
  handle_end s raw "aborted" ProposeAbort Abort.

Definition handleStatus s (raw : string) : Response :=
  match parseTxnID raw with
  | None => errResponse 400 "invalid request"
  | Some id =>
      match GetTxn (sv_mgr s) id with
      | None =>
          if bool_decide (id ∈ m_committed (sv_mgr s)) then okJSON (BStatus id "committed")
          else if bool_decide (id ∈ m_aborted (sv_mgr s)) then okJSON (BStatus id "aborted")
          else errResponse 404 "transaction not found"
      | Some t =>
          okJSON (BStatus id (match x_Status t with
                              | TxnCommitted => "committed" | TxnAborted => "aborted"
                              | TxnActive => "active" end))
      end
  end.

Definition handleActive s : Response := okJSON (BActive (elements (m_txns (sv_mgr s)))).

(** The three savepoint handlers around the manager's operation. *)
Definition handle_savepoint s (raw : string) (name : result Response string) (done : string)
    (op : Mgr L W -> N -> string -> Mgr L W * result TxnError unit) : Server L W * Response :=
  match parseTxnID raw with
  | None => (s, errResponse 400 "invalid request")
  | Some id =>
      match name with
      | Err r => (s, r)
      | Ok name =>
          if String.eqb name "" then (s, errResponse 400 "missing savepoint name")
          else match op (sv_mgr s) id name with
               | (m, Err e) => (with_mgr s m, errWrite (ETxn e))
               | (m, Ok _) => (with_mgr s m, okJSON (BSavepoint name done))
               end
      end
  end.

Definition savepoint_name (body : Decoded SavepointRequest) : result Response string :=
  match decodeJSON body (mkSpReq "") false with Err r => Err r | Ok q => Ok (sq_Name q) end.

Definition handleSavepoint s (raw : string) (body : Decoded SavepointRequest) : Server L W * Response :=
  handle_savepoint s raw (savepoint_name body) "created" CreateSavepoint.
Definition handleRollbackTo s (raw : string) (body : Decoded SavepointRequest) : Server L W * Response :=
  handle_savepoint s raw (savepoint_name body) "rolledBack" RollbackToSavepoint.
Definition handleReleaseSavepoint s (raw name : string) : Server L W * Response :=
  handle_savepoint s raw (Ok name) "released" ReleaseSavepoint.

(** ** handlers_ops.go *)

(** The loop of [validateRowShape] over the columns. *)
Fixpoint check_columns (i : nat) (cols : list Column) (values : list Value) : option TxnError :=
  match cols, values with
  | col :: cols, v :: values =>
      if negb (v_Type v =? col_Type col)%Z then
        Some (NewRowShapeError ("type mismatch at column " +:+ pretty i +:+ " (" +:+ col_Name col
          +:+ "): expected type " +:+ pretty (col_Type col) +:+ ", got type " +:+ pretty (v_Type v)))
      else check_columns (S i) cols values
  | _, _ => None
  end.

Definition validateRowShape (tbl : Table) (values : Values) : option TxnError :=
  let cols := t_Columns tbl in
  let vs := values_list values in
  if negb (length vs =? length cols) then
    Some (NewRowShapeError ("table " +:+ dquote +:+ t_Name tbl +:+ dquote +:+ " has " +:+ pretty (length cols)
      +:+ " columns, got " +:+ pretty (length vs) +:+ " values"))
  else check_columns 0 cols vs.

(** The part every row handler starts with. *)
Definition with_txn s (raw : string) (k : N -> Transaction -> option (Server L W * Response))
    : option (Server L W * Response) :=
  match parseTxnID raw with
  | None => Some (s, errResponse 400 "invalid request")
  | Some id =>
      match GetTxn (sv_mgr s) id with
      | None => Some (s, errResponse 404 "transaction not found")
      | Some t => k id t
      end
  end.

Definition handleRead s (raw : string) (body : Decoded RowOpRequest) : option (Server L W * Response) :=
  with_txn s raw (fun id t =>
    match decodeJSON body (mkRowReq "" "" None) true with
    | Err r => Some (s, r)
    | Ok req =>
        let '(m, res) :=
          if bool_decide (x_Protocol t = ProtocolMVCC)
          then MVCCRead (sv_mgr s) id (ro_Table req) (ro_Key req)
          else TwoPLRead (sv_mgr s) t (ro_Table req) (ro_Key req) in
        match res with
        | Err e => Some (with_mgr s m, errWrite (ETxn e))
        | Ok (values, found) => Some (count_read (with_mgr s m), okJSON (BRead found values))
        end
    end).

(** [raftWrite] followed by the direct path; [conflicts]: the caller counts
    write conflicts. *)
Definition write_op s (conflicts : bool) (id : N) (t : Transaction) (table key : string) (values : Values)
    (op : UndoOpType) : option (Server L W * Response) :=
  let finish := fun (m : Mgr L W) (err : option GoError) =>
    match err with
    | Some e => let s := with_mgr s m in
                (if conflicts then count_conflict s e else s, errWrite e)
    | None => (count_write (with_mgr s m), okJSON BOk)
    end in
  match sv_raft s with
  | Some r =>
      after ← (match values_list values with [] => Some [] | vs => EncodeValues vs end);
      '(m, err) ← ProposeWrite r (sv_mgr s) id table key (op_code op) [] after;
      Some (finish m err)
  | None =>
      '(m, res) ← (if bool_decide (x_Protocol t = ProtocolMVCC)
                   then MVCCWrite (sv_mgr s) id table key values op
                   else TwoPLWrite (sv_mgr s) t table key values op);
      Some (finish m (match res with Ok _ => None | Err e => Some (ETxn e) end))
  end.

(** handleWrite and handleInsert: they differ in the operation and in the
    counting of conflicts. *)
Definition handle_put s (op : UndoOpType) (conflicts : bool) (raw : string) (body : Decoded RowOpRequest)
    : option (Server L W * Response) :=
  match raftLeaderCheck s with
  | Some r => Some (s, r)
  | None =>
      with_txn s raw (fun id t =>
        match decodeJSON body (mkRowReq "" "" None) true with
        | Err r => Some (s, r)
        | Ok req =>
            match Lookup (m_Catalog (sv_mgr s)) (ro_Table req) with
            | None => Some (s, errResponse 404 "table not found")
            | Some tbl =>
                match validateRowShape tbl (ro_Values req) with
                | Some e => Some (s, errWrite (ETxn e))
                | None => write_op s conflicts id t (ro_Table req) (ro_Key req) (ro_Values req) op
                end
            end
        end)
  end.

Definition handleWrite s (raw : string) (body : Decoded RowOpRequest) : option (Server L W * Response) :=
  handle_put s UndoUpdate true raw body.

Definition handleInsert s (raw : string) (body : Decoded RowOpRequest) : option (Server L W * Response) :=
  handle_put s UndoInsert false raw body.

Definition handleDelete s (raw : string) (body : Decoded RowOpRequest) : option (Server L W * Response) :=
  match raftLeaderCheck s with
  | Some r => Some (s, r)
  | None =>
      with_txn s raw (fun id t =>
        match decodeJSON body (mkRowReq "" "" None) true with
        | Err r => Some (s, r)
        | Ok req => write_op s false id t (ro_Table req) (ro_Key req) None UndoDelete
        end)
  end.

Definition handleScan s (raw : string) (body : Decoded ScanRequest) : option (Server L W * Response) :=
  with_txn s raw (fun id t =>
    match decodeJSON body (mkScanReq "") true with
    | Err r => Some (s, r)
    | Ok req =>
        let '(m, res) :=
          if bool_decide (x_Protocol t = ProtocolMVCC)
          then MVCCScan (sv_mgr s) id (sc_Table req) None
          else TwoPLScan (sv_mgr s) t (sc_Table req) None in
        match res with
        | Err e => Some (with_mgr s m, errWrite (ETxn e))
        | Ok rows => Some (count_scan (with_mgr s m), okJSON (BScan rows (length rows)))
        end
    end).
End Handlers.
