(* ===== verification/ApiTypes.v ===== *)
(** * Rows served by the API have the types of their columns

    The requests of [Api] as one type and [serve] as the dispatcher of a
    server without Raft. The handlers check rows at the door
    ([validateRowShape]); here it is shown that this is enough: tables,
    version chains and before-images hold only rows of the declared types,
    through commits, aborts, partial rollbacks and both protocols, and so do
    the rows the server answers with. *)

From Stdlib Require Import ZArith NArith Lia Strings.Byte Ascii String.
From stdpp Require Import base tactics numbers list gmap strings pretty.
From S2P Require Import Prelude Types Lock Acquire Storage Mvcc WalRecord Wal Ssi Txn TxnInv TxnMvcc TxnIso LockLaws GapLock Txn2pl Raft Api.

(** ** validateRowShape *)

Section Shape.
Variable Sch : string -> list Column.

(** A row of the table has one value of each column's type. *)
Definition conforms (table : string) (v : Values) : Prop :=
  Forall2 (fun col x => v_Type x = col_Type col) (Sch table) (values_list v).

Lemma check_columns_ok i cols vs :
  length vs = length cols ->
  check_columns i cols vs = None <-> Forall2 (fun col x => v_Type x = col_Type col) cols vs.
Proof.
  revert i vs. induction cols as [|col cols IH]; intros i [|v vs] Hl; try done. cbn [check_columns].
  destruct (Z.eqb_spec (v_Type v) (col_Type col)) as [He|Hne]; simpl.
  - rewrite IH by (simpl in Hl; lia). rewrite Forall2_cons. naive_solver.
  - rewrite Forall2_cons. naive_solver.
Qed.

Lemma validateRowShape_ok table tbl v :
  t_Columns tbl = Sch table -> validateRowShape tbl v = None <-> conforms table v.
Proof.
  intros Hc. unfold validateRowShape, conforms. rewrite Hc.
  destruct (Nat.eqb_spec (length (values_list v)) (length (Sch table))) as [He|Hne]; simpl.
  - by apply check_columns_ok.
  - split; [done|]. intros Hf%Forall2_length. congruence.
Qed.

(** ** The invariant *)

Definition cat_typed (c : Catalog) : Prop :=
  forall name tbl, Lookup c name = Some tbl ->
    t_Columns tbl = Sch name /\ forall k v, t_rows tbl !! k = Some v -> conforms name v.

Definition store_typed (s : Store) : Prop :=
  forall table key c v, GetChain s table key = Some c -> v ∈ ch_versions c -> conforms table (ver_Data v).

Definition image_ok (e : UndoEntry) : Prop :=
  match u_BeforeImage e with None => True | Some vs => conforms (u_Table e) (Some vs) end.

Definition objs_typed (o : gmap N Transaction) : Prop :=
  forall t txn e, o !! t = Some txn -> e ∈ x_UndoLog txn -> image_ok e.

Lemma cat_typed_PutRow c table tbl key v :
  cat_typed c -> Lookup c table = Some tbl -> conforms table v -> cat_typed (<[table := PutRow tbl key v]> c).
Proof.
  intros Hc Hl Hv name tbl' Hl'. unfold Lookup in Hl'. apply lookup_insert_Some in Hl' as [[<- <-]|[_ Hl']]; [|by apply Hc].
  destruct (Hc _ _ Hl) as [H1 H2]. split; [done|]. intros k w. simpl.
  intros [[_ <-]|[_ Hw]]%lookup_insert_Some; [done|by eapply H2].
Qed.

Lemma cat_typed_DeleteRow c table tbl key :
  cat_typed c -> Lookup c table = Some tbl -> cat_typed (<[table := (DeleteRow tbl key).1]> c).
Proof.
  intros Hc Hl name tbl' Hl'. unfold Lookup in Hl'. apply lookup_insert_Some in Hl' as [[<- <-]|[_ Hl']]; [|by apply Hc].
  destruct (Hc _ _ Hl) as [H1 H2]. split; [unfold DeleteRow; by destruct (t_rows tbl !! key)|].
  intros k w. rewrite t_rows_DeleteRow. intros [_ Hw]%lookup_delete_Some. by eapply H2.
Qed.

Lemma cat_typed_undo es c : cat_typed c -> Forall image_ok es -> cat_typed (fold_left undo_catalog es c).
Proof.
  intros Hc Hes. revert c Hc. induction Hes as [|e es He Hes IH]; intros c Hc; simpl; [done|]. apply IH.
  unfold undo_catalog. destruct (Lookup c (u_Table e)) as [tbl|] eqn:Hl; [|done]. unfold image_ok in He.
  destruct (u_Op e); [by apply cat_typed_DeleteRow|..];
    (destruct (u_BeforeImage e); [by apply cat_typed_PutRow|done]).
Qed.

Lemma store_typed_set s table key c :
  store_typed s -> (forall v, v ∈ ch_versions c -> conforms table (ver_Data v)) -> store_typed (set_chain s table key c).
Proof.
  intros Hs Hc t k c' v. rewrite GetChain_set. case_decide as Hd; [|by apply Hs].
  destruct Hd as [<- <-]. intros [= <-]. apply Hc.
Qed.

Lemma store_typed_undo t es seen s : store_typed s -> store_typed (mvcc_undo_loop t seen es s).
Proof.
  revert seen s. induction es as [|e es IH]; intros seen s Hs; cbn [mvcc_undo_loop]; [done|].
  case_bool_decide; [by apply IH|]. destruct (GetChain s _ _) as [c|] eqn:Hg; [|by apply IH].
  apply IH, store_typed_set; [done|]. intros v Hv. unfold ClearXMax, RemoveByXMin in Hv. simpl in Hv.
  apply list_elem_of_fmap in Hv as (w & -> & Hw).
  apply list_elem_of_In, List.filter_In in Hw as [Hw%list_elem_of_In _].
  specialize (Hs _ _ _ _ Hg Hw). by destruct (_ =? t)%N.
Qed.

Lemma GetOrCreateChain_typed s table key s' c :
  store_typed s -> GetOrCreateChain s table key = (s', c) ->
  store_typed s' /\ forall v, v ∈ ch_versions c -> conforms table (ver_Data v).
Proof.
  intros Hs. unfold GetOrCreateChain.
  assert (Ht : store_typed (getTable s table).1
    /\ forall c0, (getTable s table).2 !! key = Some c0 -> forall v, v ∈ ch_versions c0 -> conforms table (ver_Data v)).
  { unfold getTable. destruct (s !! table) as [ts|] eqn:Ets; simpl.
    - split; [done|]. intros c0 Hk v. apply (Hs table key). unfold GetChain. by rewrite Ets.
    - split; [|done]. intros t k c0 v. unfold GetChain. rewrite lookup_insert.
      case_decide; [by rewrite lookup_empty|apply (Hs t k)]. }
  destruct (getTable s table) as [s1 ts]. destruct Ht as [Hs1 Hts]. simpl in *.
  assert (Hnew : (set_chain s1 table key (NewVersionChain key), NewVersionChain key) = (s', c) ->
    store_typed s' /\ forall v, v ∈ ch_versions c -> conforms table (ver_Data v)).
  { intros [= <- <-]. split; [|by intros v ?%elem_of_nil]. apply store_typed_set; [done|]. by intros v ?%elem_of_nil. }
  destruct (ts !! key) as [c0|]; [|done]. destruct (ch_tombstoned c0); [done|].
  intros [= <- <-]. split; [done|]. by apply Hts.
Qed.

Lemma supersede_typed table vis id vs v vs' :
  supersede vis id vs = Some (v, vs') -> (forall x, x ∈ vs -> conforms table (ver_Data x)) ->
  conforms table (ver_Data v) /\ forall x, x ∈ vs' -> conforms table (ver_Data x).
Proof.
  revert vs'. induction vs as [|w vs IH]; intros vs'; simpl; [done|]. destruct (vis w).
  - intros [= <- <-] Hx. split; [apply Hx; by left|]. intros x [->|Hin]%elem_of_cons; [apply (Hx w); by left|].
    apply Hx. by right.
  - destruct (supersede vis id vs) as [[w' ws]|]; [|done]. intros [= <- <-] Hx.
    destruct (IH ws eq_refl) as [H1 H2]; [intros x Hin; apply Hx; by right|]. split; [done|].
    intros x [->|Hin]%elem_of_cons; [apply Hx; by left|by apply H2].
Qed.

(** ** The operations of the manager keep it *)

Context {L W : Type} `{LockService L} `{WALWriter W}.
Implicit Types m : Mgr L W.

Record typed m : Prop := {
  ty_cat : cat_typed (m_Catalog m);
  ty_store : store_typed (m_MVCCStore m);
  ty_objs : objs_typed (m_objs m);
}.

Lemma typed_quiet m m' : quiet_step m m' -> m_Catalog m' = m_Catalog m -> typed m -> typed m'.
Proof.
  intros [Q1 _ _ Q4] Hc [T1 T2 T3]. split; rewrite ?Hc, ?Q1; try done.
  intros t txn' e Ht He. destruct (Q4 t txn' Ht) as (txn & Hx & Hu). rewrite Hu in He. by eapply T3.
Qed.

Lemma typed_undo_sub m m' :
  m_Catalog m' = m_Catalog m -> m_MVCCStore m' = m_MVCCStore m ->
  (forall t txn', m_objs m' !! t = Some txn' ->
     Forall image_ok (x_UndoLog txn') \/ exists txn, m_objs m !! t = Some txn /\ x_UndoLog txn' ⊆ x_UndoLog txn) ->
  typed m -> typed m'.
Proof.
  intros Hc Hs Hu [T1 T2 T3]. split; rewrite ?Hc, ?Hs; try done. intros t txn' e Ht He.
  destruct (Hu t txn' Ht) as [Hf|(txn & Hx & Hsub)]; [by eapply Forall_forall in Hf|].
  eapply T3; [done|by apply Hsub].
Qed.

Lemma typed_upd_sub m id f :
  (forall txn, x_UndoLog (f txn) ⊆ x_UndoLog txn) -> typed m -> typed (upd_txn m id f).
Proof.
  intros Hf. apply typed_undo_sub; [done..|]. simpl. intros t txn' Ht.
  apply lookup_alter_Some in Ht as [(<- & txn & Hx & ->)|[_ Hx]]; right; [exists txn|exists txn'];
    (split; [done|]); [apply Hf|done].
Qed.

Lemma typed_append m id op table key before lsn :
  image_ok (mkUndo op table key before lsn) -> typed m -> typed (append_undo m id op table key before lsn).
Proof.
  intros Hi [T1 T2 T3]. split; try done. unfold append_undo. simpl. intros t txn' e Ht He.
  apply lookup_alter_Some in Ht as [(<- & txn & Hx & ->)|[_ Hx]]; [|by eapply T3]. simpl in He.
  unfold AppendWithLSN in He. apply elem_of_app in He as [He| ->%list_elem_of_singleton]; [by eapply T3|done].
Qed.

Lemma typed_locks m l : typed m -> typed (with_locks m l).
Proof. by intros [T1 T2 T3]. Qed.

Lemma typed_Begin m p iso : typed m -> typed (Begin m p iso).1.
Proof.
  intros HT. unfold Begin. destruct (at_capacity m); [done|]. simpl.
  eapply typed_quiet; [apply quiet_log_begin|apply silent_log_begin|].
  destruct HT as [T1 T2 T3]. split; try done. unfold register. simpl. intros t txn e Ht He.
  apply lookup_insert_Some in Ht as [[_ <-]|[_ Ht]]; [by apply elem_of_nil in He|by eapply T3].
Qed.

Lemma typed_finish_commit m t : typed m -> typed (finish_commit m t).
Proof. intros HT. apply (typed_upd_sub m t (set_x_Status TxnCommitted)) in HT; [|done]. by destruct HT. Qed.

Lemma typed_finish_abort m t : typed m -> typed (upd_txn (finish_abort m t) t closeAbort).
Proof.
  intros HT. apply typed_upd_sub; [done|]. apply (typed_upd_sub m t (set_x_Status TxnAborted)) in HT; [|done].
  by destruct HT.
Qed.

Lemma typed_applyMVCCUndo m txn : typed m -> typed (applyMVCCUndo m txn).
Proof. intros [T1 T2 T3]. split; try done. by apply store_typed_undo. Qed.

Lemma typed_ssi_if (b : bool) m s : typed m -> typed (if b then with_SSI m s else m).
Proof. destruct b; [by intros [? ? ?]|done]. Qed.

Lemma typed_Commit m t : typed m -> typed (Commit m t).1.
Proof.
  intros HT. unfold Commit. destruct (GetTxn m t) as [txn|]; [|by repeat case_bool_decide].
  destruct (x_Status txn); try done. destruct (_ && _).
  { simpl. apply typed_applyMVCCUndo. apply (typed_finish_abort m t) in HT. by destruct HT. }
  destruct (log_commit m t _) as [m1 e] eqn:Hl.
  assert (HT1 : typed m1).
  { eapply typed_quiet; [by eapply quiet_log_commit|by eapply silent_log_commit|done]. }
  destruct e; [done|]. simpl. case_bool_decide; [apply typed_locks|];
    apply typed_ssi_if, typed_finish_commit, HT1.
Qed.

Lemma typed_undo_entries m es id :
  Forall image_ok es -> typed m -> typed (applyUndoEntries m es id).1.
Proof.
  intros Hes [T1 T2 T3]. unfold applyUndoEntries.
  destruct (undo_loop_spec id (rev es) LSNInvalid m) as (E1 & _ & _ & E4).
  pose proof (qs_store _ _ (quiet_undo_loop id (rev es) LSNInvalid m)) as E5.
  split; [rewrite E4|by rewrite E5|by rewrite E1]. apply cat_typed_undo; [done|].
  apply Forall_forall. intros e He. rewrite Forall_forall in Hes. apply Hes. by apply list_elem_of_In, in_rev, list_elem_of_In.
Qed.

Lemma typed_log m t txn : typed m -> GetTxn m t = Some txn -> Forall image_ok (x_UndoLog txn).
Proof.
  intros HT Hg. apply GetTxn_active in Hg as [_ Hx]. apply Forall_forall. intros e He. by eapply ty_objs.
Qed.

Lemma typed_Abort m t : typed m -> typed (Abort m t).1.
Proof.
  intros HT. unfold Abort. destruct (GetTxn m t) as [txn|] eqn:Hg; [|by case_bool_decide].
  pose proof (typed_log m t txn HT Hg) as Hlog.
  destruct (x_Status txn); try done. apply (typed_finish_abort m t) in HT. set (m1 := upd_txn _ _ _) in *.
  assert (HT2 : typed (teardown m1 txn).1).
  { unfold teardown. destruct (x_Protocol txn).
    - pose proof (typed_undo_entries m1 (x_UndoLog txn) (x_ID txn) Hlog HT) as Hu. unfold applyUndoLog.
      destruct (applyUndoEntries _ _ _). by apply typed_locks.
    - by apply typed_applyMVCCUndo. }
  destruct (teardown m1 txn) as [m2 clr]. simpl. apply typed_ssi_if. unfold log_abort.
  destruct (m_WAL m2); [by destruct HT2|done].
Qed.

Lemma typed_savepoints m t name :
  typed m -> typed (CreateSavepoint m t name).1 /\ typed (RollbackToSavepoint m t name).1
             /\ typed (ReleaseSavepoint m t name).1.
Proof.
  intros HT. unfold CreateSavepoint, RollbackToSavepoint, ReleaseSavepoint.
  destruct (GetTxn m t) as [txn|] eqn:Hg; [|done]. pose proof (typed_log m t txn HT Hg) as Hlog.
  split; [by apply typed_upd_sub|]. split; [|destruct (remove_savepoint _ _); [by apply typed_upd_sub|done]].
  destruct (List.find _ _) as [sp|]; [|done]. simpl.
  assert (HT1 : typed (if bool_decide (x_Protocol txn = Protocol2PL)
      then (applyUndoEntries m (EntriesFrom (x_UndoLog txn) (sp_UndoPosition sp)) t).1 else m)).
  { case_bool_decide; [|done]. apply typed_undo_entries; [|done]. unfold EntriesFrom.
    destruct (_ <=? _); [by constructor|by apply Forall_drop]. }
  destruct HT1 as [T1 T2 T3]. split; try done. simpl. intros u txn' e Hu He.
  apply lookup_alter_Some in Hu as [(<- & txn0 & Hx & ->)|[_ Hx]]; [|by eapply T3]. simpl in He.
  eapply Forall_forall in Hlog; [exact Hlog|]. unfold TruncateTo in He.
  destruct (_ <? _); [|done]. apply list_elem_of_lookup in He as [i Hi]. apply lookup_take_Some in Hi as [Hi _].
  by eapply list_elem_of_lookup_2.
Qed.

Lemma typed_TwoPLWrite m txn table key v op m' r :
  typed m -> (op <> UndoDelete -> conforms table v) ->
  TwoPLWrite m txn table key v op = Some (m', r) -> typed m'.
Proof.
  intros HT Hv. unfold TwoPLWrite.
  destruct (lk_acquire _ _ _ _) as [l1 [u1|e]]; [|intros [= <- _]; by apply typed_locks].
  destruct (lk_acquire _ _ _ _) as [l2 [u2|e]]; [|intros [= <- _]; by do 2 apply typed_locks].
  set (m1 := with_locks _ l2). assert (HT1 : typed m1) by (by do 2 apply typed_locks).
  destruct (Lookup (m_Catalog m1) table) as [tbl|] eqn:Hl; [|by intros [= <- _]].
  destruct (log_write m1 _ _ _ _ _ _) as [[m2 lsn]|] eqn:Hw; [|done].
  assert (Hc : m_Catalog m2 = m_Catalog m1) by (by eapply silent_log_write).
  assert (HT2 : typed m2) by (eapply typed_quiet; [by eapply quiet_log_write|done|done]).
  intros [= <- _]. apply typed_upd_sub; [done|].
  assert (HT3 : typed (append_undo m2 (x_ID txn) op table key (GetRow tbl key).1 lsn)).
  { apply typed_append; [|done]. unfold image_ok, GetRow. simpl.
    destruct (t_rows tbl !! key) as [[vs|]|] eqn:Hk; try done. by eapply (ty_cat _ HT1). }
  destruct HT3 as [T1 T2 T3]. split; try done. simpl in *. rewrite <-Hc in Hl.
  destruct op; [apply cat_typed_PutRow; auto|apply cat_typed_PutRow; auto|by apply cat_typed_DeleteRow].
Qed.

Lemma typed_mvcc_apply m id snap c table key v op m' r :
  typed m -> (op <> UndoDelete -> conforms table v) ->
  (forall x, x ∈ ch_versions c -> conforms table (ver_Data x)) ->
  mvcc_apply m id snap c table key v op = Some (m', r) ->
  typed m' /\ forall c', r = Ok c' -> forall x, x ∈ ch_versions c' -> conforms table (ver_Data x).
Proof.
  intros HT Hv Hc. unfold mvcc_apply.
  assert (Hlog : forall b a m1 lsn before, log_write m id op table key b a = Some (m1, lsn) ->
    image_ok (mkUndo op table key before lsn) -> typed (append_undo m1 id op table key before lsn)).
  { intros b a m1 lsn before Hw Hi. apply typed_append; [done|].
    eapply typed_quiet; [by eapply quiet_log_write|by eapply silent_log_write|done]. }
  assert (Hi : forall x lsn, conforms table (ver_Data x) -> image_ok (mkUndo op table key (ver_Data x) lsn)).
  { intros x lsn Hx. unfold image_ok. simpl. by destruct (ver_Data x). }
  destruct op.
  - destruct (log_write _ _ _ _ _ _ _) as [[m1 lsn]|] eqn:Hw; [|done]. intros [= <- <-].
    split; [by eapply Hlog|]. intros c' [= <-] x [->|Hx]%elem_of_cons; [by apply Hv|by apply Hc].
  - destruct (supersede _ _ _) as [[x vs]|] eqn:Hs; [|by intros [= <- <-]].
    destruct (supersede_typed table _ _ _ _ _ Hs Hc) as [Hx Hvs].
    destruct (log_write _ _ _ _ _ _ _) as [[m1 lsn]|] eqn:Hw; [|done]. intros [= <- <-].
    split; [by eapply Hlog, Hi|]. intros c' [= <-] y [->|Hy]%elem_of_cons; [by apply Hv|by apply Hvs].
  - destruct (supersede _ _ _) as [[x vs]|] eqn:Hs; [|by intros [= <- <-]].
    destruct (supersede_typed table _ _ _ _ _ Hs Hc) as [Hx Hvs].
    destruct (log_write _ _ _ _ _ _ _) as [[m1 lsn]|] eqn:Hw; [|done]. intros [= <- <-].
    split; [by eapply Hlog, Hi|]. intros c' [= <-]. done.
Qed.

Lemma typed_MVCCWrite m id table key v op m' r :
  typed m -> (op <> UndoDelete -> conforms table v) ->
  MVCCWrite m id table key v op = Some (m', r) -> typed m'.
Proof.
  intros HT Hv. unfold MVCCWrite. destruct (m_objs m !! id) as [txn|]; [|by intros [= <- _]].
  destruct (negb _); [by intros [= <- _]|].
  assert (HT1 : typed (getSnapshot m id txn).1).
  { eapply typed_quiet; [apply quiet_getSnapshot|apply silent_getSnapshot|done]. }
  destruct (getSnapshot m id txn) as [m1 snap]. simpl in HT1.
  destruct (GetOrCreateChain _ _ _) as [s c] eqn:Hg.
  destruct (GetOrCreateChain_typed _ _ _ _ _ (ty_store _ HT1) Hg) as [Hs Hc].
  assert (HT2 : typed (with_MVCCStore m1 s)) by (by destruct HT1).
  destruct (CheckWriteConflict _ _ _ _); [by intros [= <- _]|].
  destruct (mvcc_apply _ _ _ _ _ _ _ _) as [[m3 [c'|e]]|] eqn:Ha; [| |done].
  - destruct (typed_mvcc_apply _ _ _ _ _ _ _ _ _ _ HT2 Hv Hc Ha) as [[T1 T2 T3] Hc']. intros [= <- _].
    apply typed_upd_sub; [done|].
    eapply typed_quiet; [apply quiet_ssi_record_write|apply silent_ssi_write|]. split; try done. simpl.
    apply store_typed_set; [done|]. by apply Hc'.
  - intros [= <- _]. by destruct (typed_mvcc_apply _ _ _ _ _ _ _ _ _ _ HT2 Hv Hc Ha).
Qed.

(** ** What reads and scans return *)

Definition row_ok (table : string) (row : Row) : Prop := conforms table (row_Values row).

Definition found_ok (table : string) (r : result TxnError (Values * bool)) : Prop :=
  forall v, r = Ok (v, true) -> conforms table v.

Definition rows_ok (table : string) (r : result TxnError (list Row)) : Prop :=
  forall rows, r = Ok rows -> Forall (row_ok table) rows.

Definition relocked m m' : Prop := exists l, m' = with_locks m l.

Lemma relocked_refl m : relocked m m.
Proof. exists (m_locks m). by destruct m. Qed.

Lemma relocked_then m l m' : relocked (with_locks m l) m' -> relocked m m'.
Proof. intros [l' ->]. by exists l'. Qed.

Lemma relocked_typed m m' : relocked m m' -> typed m -> typed m'.
Proof. intros [l ->]. apply typed_locks. Qed.

Lemma typed_TwoPLRead m txn table key :
  typed m -> typed (TwoPLRead m txn table key).1 /\ found_ok table (TwoPLRead m txn table key).2.
Proof.
  intros HT. unfold TwoPLRead.
  assert (Hrd : forall m', typed m' ->
    let r := match Lookup (m_Catalog m') table with
             | None => (m', Err (NewTableNotFoundError table)) | Some t => (m', Ok (GetRow t key)) end in
    typed r.1 /\ found_ok table r.2).
  { intros m' HT'. destruct (Lookup _ _) as [tbl|] eqn:Hl; (split; [done|]); intros v Hv; [|done].
    injection Hv as Hv. unfold GetRow in Hv. destruct (t_rows tbl !! key) as [v'|] eqn:Hk; [|done].
    injection Hv as <-. by eapply (ty_cat _ HT'). }
  case_bool_decide; [by apply Hrd|].
  destruct (lk_acquire _ _ _ _) as [l1 [u1|e]]; [|split; [by apply typed_locks|done]].
  destruct (lk_acquire _ _ _ _) as [l2 [u2|e]]; [|split; [by do 2 apply typed_locks|done]].
  apply Hrd. by do 2 apply typed_locks.
Qed.

Lemma typed_FindVisible m table key c f v :
  typed m -> GetChain (m_MVCCStore m) table key = Some c -> FindVisible c f = Some v -> conforms table (ver_Data v).
Proof.
  intros HT Hg Hf. apply List.find_some in Hf as [Hv%list_elem_of_In _]. by eapply ty_store.
Qed.

Lemma typed_MVCCRead m t table key :
  typed m -> typed (MVCCRead m t table key).1 /\ found_ok table (MVCCRead m t table key).2.
Proof.
  intros HT. split.
  { eapply typed_quiet; [apply quiet_MVCCRead|apply silent_MVCCRead|done]. }
  unfold MVCCRead. destruct (m_objs m !! t) as [txn|]; [|done]. destruct (negb _); [done|].
  pose proof (quiet_getSnapshot m t txn) as Q. destruct (getSnapshot m t txn) as [m1 snap]. simpl in Q.
  destruct (GetChain (m_MVCCStore m1) table key) as [c|] eqn:Hg; [|done]. rewrite (qs_store _ _ Q) in Hg.
  destruct (FindVisible c _) as [v|] eqn:Hf; [|done]. intros w [= <-]. by eapply typed_FindVisible.
Qed.

Lemma lock_step_relocked m t r mode : relocked m (lock_step m t r mode).1.
Proof. unfold lock_step. destruct (lk_acquire _ _ _ _) as [l o]. by exists l. Qed.

Lemma relocked_trans m1 m2 m3 : relocked m1 m2 -> relocked m2 m3 -> relocked m1 m3.
Proof. intros [l ->]. apply relocked_then. Qed.

Lemma scan_lock_relocked t table lo hi keys m prev :
  relocked m (scan_lock_loop m t table lo hi prev keys).1.
Proof.
  revert m prev. induction keys as [|k keys IH]; intros m prev; cbn [scan_lock_loop]; [apply relocked_refl|].
  destruct (negb _); [apply IH|].
  pose proof (lock_step_relocked m t (ResourceForGap table prev k) LockS) as R1.
  destruct (lock_step m _ _ _) as [m1 [u|e]]; [|done]. simpl in R1.
  pose proof (lock_step_relocked m1 t (ResourceForRow table k) LockS) as R2.
  destruct (lock_step m1 _ _ _) as [m2 [u2|e]]; simpl in R2; [|by eapply relocked_trans].
  eapply relocked_trans; [exact R1|]. eapply relocked_trans; [exact R2|apply IH].
Qed.

Lemma scan_locks_relocked m txn table : relocked m (scan_locks m txn table).1.
Proof.
  unfold scan_locks. destruct (x_Isolation txn); [apply relocked_refl|apply lock_step_relocked..|].
  unfold LockForRangeScan. pose proof (lock_step_relocked m (x_ID txn) (ResourceForTable table) LockIS) as R1.
  destruct (lock_step m _ _ _) as [m1 [u|e]]; [|done]. simpl in R1. destruct (Lookup _ _) as [tbl|]; [|done].
  pose proof (scan_lock_relocked (x_ID txn) table "" "" (sorted_keys tbl) m1 "") as R2.
  destruct (scan_lock_loop _ _ _ _ _ _ _) as [m2 [prev|e]]; simpl in R2; [|by eapply relocked_trans].
  eapply relocked_trans; [exact R1|]. eapply relocked_trans; [exact R2|apply lock_step_relocked].
Qed.

Lemma Scan_ok table tbl fl : (forall k v, t_rows tbl !! k = Some v -> conforms table v) ->
  Forall (row_ok table) (Scan tbl fl).
Proof.
  intros Hr. apply Forall_forall. intros row Hin. unfold Scan in Hin.
  apply list_elem_of_In, List.filter_In in Hin as [Hin%list_elem_of_In _].
  apply list_elem_of_fmap in Hin as ([k v] & -> & Hkv%elem_of_map_to_list). by apply (Hr k v).
Qed.

Lemma typed_TwoPLScan m txn table fl :
  typed m -> typed (TwoPLScan m txn table fl).1 /\ rows_ok table (TwoPLScan m txn table fl).2.
Proof.
  intros HT. unfold TwoPLScan. pose proof (relocked_typed _ _ (scan_locks_relocked m txn table) HT) as HT1.
  destruct (scan_locks m txn table) as [m1 [u|e]]; [|done].
  destruct (Lookup (m_Catalog m1) table) as [tbl|] eqn:Hl; [|done]. split; [done|]. intros rows [= <-].
  apply Scan_ok. by eapply (ty_cat _ HT1).
Qed.

Lemma typed_MVCCScan m t table fl :
  typed m -> typed (MVCCScan m t table fl).1 /\ rows_ok table (MVCCScan m t table fl).2.
Proof.
  intros HT. split.
  { eapply typed_quiet; [apply quiet_MVCCScan|apply silent_MVCCScan|done]. }
  unfold MVCCScan. destruct (m_objs m !! t) as [txn|]; [|done]. destruct (negb _); [done|].
  pose proof (quiet_getSnapshot m t txn) as Q. destruct (getSnapshot m t txn) as [m1 snap]. simpl in Q.
  assert (Hfold : forall kcs m rows, Forall (row_ok table) rows ->
    (forall k c v, (k, c) ∈ kcs -> v ∈ ch_versions c -> conforms table (ver_Data v)) ->
    Forall (row_ok table) (fold_left (scan_chain txn snap table fl) kcs (m, rows)).2).
  { clear. induction kcs as [|[k c] kcs IH]; intros m rows Hr Hk; simpl; [done|].
    assert (Hk' : forall k c v, (k, c) ∈ kcs -> v ∈ ch_versions c -> conforms table (ver_Data v)).
    { intros k' c' v Hin. apply (Hk k'). by right. }
    destruct (FindVisible c _) as [v|] eqn:Hf; [|by apply IH]. apply IH; [|done].
    assert (Hv : row_ok table (mkRow k (ver_Data v))).
    { apply List.find_some in Hf as [Hv%list_elem_of_In _]. apply (Hk k c v); [by left|done]. }
    assert (Hsn : Forall (row_ok table) (rows ++ [mkRow k (ver_Data v)])) by (apply Forall_app; by split; [|constructor]).
    destruct fl as [f|]; [|done]. by destruct (f _). }
  specialize (Hfold (ForEachChainInTable (m_MVCCStore m1) table) m1 [] (Forall_nil_2 _)).
  destruct (fold_left _ _ _) as [m2 rows]. intros rows' [= <-]. apply Hfold. intros k c v Hin Hv.
  apply elem_of_map_to_list in Hin. rewrite (qs_store _ _ Q) in Hin.
  eapply (ty_store _ HT table k c v); [|done]. unfold GetChain. by destruct (m_MVCCStore m !! table).
Qed.

(** ** The start of the server *)

Lemma seed_typed table rows id s :
  store_typed s -> Forall (row_ok table) rows -> store_typed (SeedMVCCStore s table rows id).
Proof.
  unfold SeedMVCCStore. intros Hs Hr. revert s Hs. induction Hr as [|row rows Hrow Hr IH]; intros s Hs; [done|].
  simpl. apply IH. unfold seed_row. destruct (GetOrCreateChain s table (row_Key row)) as [s' c] eqn:Hg.
  destruct (GetOrCreateChain_typed _ _ _ _ _ Hs Hg) as [Hs' Hc]. apply store_typed_set; [done|].
  intros v [->|Hv]%elem_of_cons; [exact Hrow|by apply Hc].
Qed.

Lemma reseed_typed id names m : typed m -> typed (fold_left (reseed_table id) names m).
Proof.
  revert m. induction names as [|name names IH]; intros m HT; simpl; [done|]. apply IH.
  unfold reseed_table. destruct (Lookup _ _) as [tbl|] eqn:Hl; [|done]. destruct HT as [T1 T2 T3]. split; try done.
  apply seed_typed; [done|]. apply Scan_ok. by eapply T1.
Qed.

Lemma boot_typed locks catalog n w : cat_typed catalog -> typed (boot locks catalog n w).
Proof.
  intros Hc. unfold boot. set (m := fold_left _ _ _). assert (HT : typed m).
  { apply reseed_typed. split; [done|by intros ? ? ? ? ?|by intros ? ? ?]. }
  by destruct HT.
Qed.

(** ** The server *)

Inductive Request :=
| RqBegin (body : Decoded BeginRequest)
| RqCommit (raw : string)
| RqAbort (raw : string)
| RqStatus (raw : string)
| RqActive
| RqSavepoint (raw : string) (body : Decoded SavepointRequest)
| RqRollbackTo (raw : string) (body : Decoded SavepointRequest)
| RqRelease (raw name : string)
| RqRead (raw : string) (body : Decoded RowOpRequest)
| RqWrite (raw : string) (body : Decoded RowOpRequest)
| RqInsert (raw : string) (body : Decoded RowOpRequest)
| RqDelete (raw : string) (body : Decoded RowOpRequest)
| RqScan (raw : string) (body : Decoded ScanRequest).

Definition serve (s : Server L W) (r : Request) : option (Server L W * Response) :=
  match r with
  | RqBegin b => handleBegin s b
  | RqCommit raw => handleCommit s raw
  | RqAbort raw => handleAbort s raw
  | RqStatus raw => Some (s, handleStatus s raw)
  | RqActive => Some (s, handleActive s)
  | RqSavepoint raw b => Some (handleSavepoint s raw b)
  | RqRollbackTo raw b => Some (handleRollbackTo s raw b)
  | RqRelease raw name => Some (handleReleaseSavepoint s raw name)
  | RqRead raw b => handleRead s raw b
  | RqWrite raw b => handleWrite s raw b
  | RqInsert raw b => handleInsert s raw b
  | RqDelete raw b => handleDelete s raw b
  | RqScan raw b => handleScan s raw b
  end.

Fixpoint serve_all (s : Server L W) (rs : list Request) : option (Server L W * list Response) :=
  match rs with
  | [] => Some (s, [])
  | r :: rs =>
      '(s, resp) ← serve s r;
      '(s, resps) ← serve_all s rs;
      Some (s, resp :: resps)
  end.

(** The table a request names. *)
Definition req_table (r : Request) : string :=
  match r with
  | RqRead _ (DecOk q) => ro_Table q
  | RqScan _ (DecOk q) => sc_Table q
  | _ => ""
  end.

(** The rows of an answer have the types of the table asked for. *)
Definition answer_ok (r : Request) (resp : Response) : Prop :=
  match r_body resp with
  | BRead true v => conforms (req_table r) v
  | BScan rows count => Forall (row_ok (req_table r)) rows /\ count = length rows
  | _ => True
  end.

(** What is kept from request to request. *)
Definition good (s : Server L W) : Prop := sv_raft s = None /\ typed (sv_mgr s).

Definition served (r : Request) (o : option (Server L W * Response)) : Prop :=
  forall s' resp, o = Some (s', resp) -> good s' /\ answer_ok r resp.

Lemma good_mgr s m : good s -> typed m -> good (with_mgr s m).
Proof. by intros [? ?] ?. Qed.

Lemma served_Some r s resp : good s -> answer_ok r resp -> served r (Some (s, resp)).
Proof. by intros Hg Ha s' resp' [= <- <-]. Qed.

Lemma answer_errWrite r e : answer_ok r (errWrite e).
Proof. unfold errWrite. by destruct (errToPublicResponse e). Qed.

Lemma answer_decode r {A} (d : Decoded A) z b e : decodeJSON d z b = Err e -> answer_ok r e.
Proof. destruct d, b; by intros [= <-]. Qed.

#[local] Hint Resolve served_Some good_mgr answer_errWrite answer_decode : core.

Lemma served_end r s raw status p op :
  good s -> (forall id, typed (op (sv_mgr s) id).1) -> served r (handle_end s raw status p op).
Proof.
  intros [Hr Hg] Hop. unfold handle_end, raftLeaderCheck. rewrite Hr.
  destruct (parseTxnID raw) as [id|]; [|by apply served_Some]. specialize (Hop id).
  destruct (op (sv_mgr s) id) as [m [u|e]]; simpl in Hop; apply served_Some; auto; done.
Qed.

Lemma served_savepoint r s raw name done op :
  good s -> (forall e, name = Err e -> answer_ok r e) -> (forall id n, typed (op (sv_mgr s) id n).1) ->
  served r (Some (handle_savepoint s raw name done op)).
Proof.
  intros Hg Hn Hop. unfold handle_savepoint. destruct (parseTxnID raw) as [id|]; [|by apply served_Some].
  destruct name as [n|e]; [|apply served_Some; auto]. destruct (String.eqb n ""); [by apply served_Some|].
  specialize (Hop id n). destruct (op (sv_mgr s) id n) as [m [u|e]]; simpl in Hop; apply served_Some; auto; done.
Qed.

Lemma served_txn r s raw k :
  good s -> (forall id t, GetTxn (sv_mgr s) id = Some t -> served r (k id t)) -> served r (with_txn s raw k).
Proof.
  intros Hg Hk. unfold with_txn. destruct (parseTxnID raw) as [id|]; [|by apply served_Some].
  destruct (GetTxn (sv_mgr s) id) as [t|] eqn:Ht; [by apply Hk|by apply served_Some].
Qed.

Lemma served_write r s conflicts id t table key v op :
  good s -> (op <> UndoDelete -> conforms table v) -> served r (write_op s conflicts id t table key v op).
Proof.
  intros [Hr Hg] Hv s' resp. unfold write_op. rewrite Hr.
  set (o := if bool_decide _ then _ else _). destruct o as [[m res]|] eqn:Ho; [|done]. simpl.
  assert (HT : typed m).
  { unfold o in Ho. case_bool_decide; [by eapply typed_MVCCWrite|by eapply typed_TwoPLWrite]. }
  destruct res as [u|e]; intros [= <- <-]; [done|]. split; [|apply answer_errWrite].
  destruct conflicts; [|done]. simpl. by case_bool_decide.
Qed.

Lemma served_put r s op conflicts raw body :
  good s -> served r (handle_put s op conflicts raw body).
Proof.
  intros Hg. pose proof Hg as [Hr HT]. unfold handle_put, raftLeaderCheck. rewrite Hr.
  apply served_txn; [done|]. intros id t _. destruct (decodeJSON body _ _) as [q|e] eqn:Hd; [|eauto].
  destruct (Lookup _ _) as [tbl|] eqn:Hl; [|by apply served_Some].
  destruct (validateRowShape tbl (ro_Values q)) as [e|] eqn:Hv; [auto|].
  apply served_write; [done|]. intros _. eapply validateRowShape_ok; [|done]. by eapply (ty_cat _ HT).
Qed.

Lemma served_read s raw body : good s -> served (RqRead raw body) (handleRead s raw body).
Proof.
  intros Hg. pose proof Hg as [Hr HT]. unfold handleRead. apply served_txn; [done|]. intros id t _.
  destruct (decodeJSON body _ _) as [q|e] eqn:Hd; [|eauto].
  assert (Hq : req_table (RqRead raw body) = ro_Table q).
  { by destruct body; simplify_eq/=. }
  destruct (typed_MVCCRead _ id (ro_Table q) (ro_Key q) HT) as [M1 M2].
  destruct (typed_TwoPLRead _ t (ro_Table q) (ro_Key q) HT) as [P1 P2].
  assert (Hres : forall m res, typed m -> found_ok (ro_Table q) res ->
    served (RqRead raw body) (match res with
      | Err e => Some (with_mgr s m, errWrite (ETxn e))
      | Ok (values, found) => Some (count_read (with_mgr s m), okJSON (BRead found values)) end)).
  { intros m [[v [|]]|e] Hm Hf; apply served_Some; auto; try done.
    unfold answer_ok. simpl r_body. cbn iota. rewrite Hq. by apply Hf. }
  case_bool_decide; [destruct (MVCCRead _ _ _ _)|destruct (TwoPLRead _ _ _ _)]; by apply Hres.
Qed.

Lemma served_scan s raw body : good s -> served (RqScan raw body) (handleScan s raw body).
Proof.
  intros Hg. pose proof Hg as [Hr HT]. unfold handleScan. apply served_txn; [done|]. intros id t _.
  destruct (decodeJSON body _ _) as [q|e] eqn:Hd; [|eauto].
  assert (Hq : req_table (RqScan raw body) = sc_Table q).
  { by destruct body; simplify_eq/=. }
  destruct (typed_MVCCScan _ id (sc_Table q) None HT) as [M1 M2].
  destruct (typed_TwoPLScan _ t (sc_Table q) None HT) as [P1 P2].
  assert (Hres : forall m res, typed m -> rows_ok (sc_Table q) res ->
    served (RqScan raw body) (match res with
      | Err e => Some (with_mgr s m, errWrite (ETxn e))
      | Ok rows => Some (count_scan (with_mgr s m), okJSON (BScan rows (length rows))) end)).
  { intros m [rows|e] Hm Hf; apply served_Some; auto; try done.
    unfold answer_ok. simpl r_body. cbn iota. rewrite Hq. split; [by apply Hf|done]. }
  case_bool_decide; [destruct (MVCCScan _ _ _ _)|destruct (TwoPLScan _ _ _ _)]; by apply Hres.
Qed.

Lemma served_begin r s body : good s -> served r (handleBegin s body).
Proof.
  intros Hg. pose proof Hg as [Hr HT]. unfold handleBegin, raftLeaderCheck. rewrite Hr.
  destruct (decodeJSON body _ _) as [q|e] eqn:Hd; [|eauto].
  destruct (protocolFromString _) as [p|]; [|by apply served_Some].
  destruct (isolationFromString _) as [iso|]; [|by apply served_Some].
  destruct (_ || _); [by apply served_Some|]. destruct (_ <=? _); [by apply served_Some|].
  pose proof (typed_Begin _ p iso HT) as HB. destruct (Begin (sv_mgr s) p iso) as [m [id|e]]; by apply served_Some.
Qed.

Lemma serve_ok s r : good s -> served r (serve s r).
Proof.
  intros Hg. pose proof Hg as [Hr HT]. destruct r; cbn [serve].
  - by apply served_begin.
  - apply served_end; [done|]. intros id. by apply typed_Commit.
  - apply served_end; [done|]. intros id. by apply typed_Abort.
  - apply served_Some; [done|]. unfold handleStatus. destruct (parseTxnID _) as [id|]; [|done].
    destruct (GetTxn _ _) as [t|]; [done|]. by repeat case_bool_decide.
  - by apply served_Some.
  - apply served_savepoint; [done| |intros; by apply typed_savepoints].
    intros e. unfold savepoint_name. destruct (decodeJSON body _ _) eqn:Hd; [done|]. intros [= <-]. eauto.
  - apply served_savepoint; [done| |intros; by apply typed_savepoints].
    intros e. unfold savepoint_name. destruct (decodeJSON body _ _) eqn:Hd; [done|]. intros [= <-]. eauto.
  - apply served_savepoint; [done|done|intros; by apply typed_savepoints].
  - by apply served_read.
  - by apply served_put.
  - by apply served_put.
  - unfold handleDelete, raftLeaderCheck. rewrite Hr. apply served_txn; [done|]. intros id t _.
    destruct (decodeJSON body _ _) eqn:Hd; [|eauto]. by apply served_write.
  - by apply served_scan.
Qed.

(** C26. From a catalog whose rows have the types of their columns,
    whatever requests to the 13 transaction and row endpoints a server
    without Raft gets - malformed ones, rows of the wrong shape, commits,
    aborts and partial rollbacks under both protocols - every row of a
    table, every version and every before-image keeps the types of its
    table, and so does every row the server answers with. *)
Theorem api_rows_typed locks catalog n w metrics rs s' resps :
  cat_typed catalog ->
  serve_all (mkServer (boot locks catalog n w) None metrics) rs = Some (s', resps) ->
  typed (sv_mgr s') /\ Forall2 answer_ok rs resps.
Proof.
  intros Hc Hs. set (s := mkServer _ _ _) in Hs. assert (Hg : good s) by (split; [done|by apply boot_typed]).
  clearbody s. revert s Hg resps Hs. induction rs as [|r rs IH]; intros s Hg resps; simpl.
  { intros [= <- <-]. split; [by destruct Hg|constructor]. }
  destruct (serve s r) as [[s1 resp]|] eqn:Hsv; [|done]. simpl.
  destruct (serve_all s1 rs) as [[s2 resps']|] eqn:Hall; [|done]. simpl. intros [= <- <-].
  destruct (serve_ok s r Hg _ _ Hsv) as [Hg1 Ha]. destruct (IH s1 Hg1 _ Hall). split; [done|by constructor].
Qed.
End Shape.

(** ** A session *)

Module ApiRun.

Definition schema (name : string) : list Column :=
  if String.eqb name "items" then [mkColumn "qty" TypeInt true false] else [].

Definition items : Table := PutRow (NewTable "items" (schema "items")) "01" (Some [IntVal 1]).

Definition server : Server (@LockSt unit) unit :=
  mkServer (boot (lock_init tt) (Register NewCatalog items) 0 None) None (Some (mkMetrics 0 0 0 0)).

Definition row_req (key : string) (v : Value) : Decoded RowOpRequest := DecOk (mkRowReq "items" key (Some [v])).

(** One MVCC and one 2PL transaction; the text value is refused. *)
Definition session : list Request :=
  [RqBegin (DecOk (mkBeginReq "mvcc" "rr" 0)); RqBegin DecEOF;
   RqInsert "1" (row_req "02" (IntVal 2)); RqInsert "1" (row_req "03" (TextVal "x"));
   RqWrite "2" (row_req "01" (IntVal 5)); RqAbort "2"; RqRead "1" (row_req "02" (IntVal 0));
   RqScan "1" (DecOk (mkScanReq "items")); RqCommit "1"].

Definition outcome : option (Server (@LockSt unit) unit * list Response) := serve_all server session.

Lemma items_typed : cat_typed schema (Register NewCatalog items).
Proof.
  intros name tbl Hl. unfold Lookup, Register, NewCatalog in Hl.
  apply lookup_insert_Some in Hl as [[<- <-]|[_ Hl]]; [|by apply lookup_empty_Some in Hl].
  split; [done|]. intros k v Hk. unfold items, PutRow, NewTable in Hk. simpl in Hk.
  apply lookup_insert_Some in Hk as [[_ <-]|[_ Hk]]; [by repeat constructor|by apply lookup_empty_Some in Hk].
Qed.

Lemma api_rows_typed_witness :
  (r_code <$> (from_option snd [] outcome)) = [200; 200; 200; 400; 200; 200; 200; 200; 200]%N
  /\ exists s' resps, outcome = Some (s', resps) /\ typed schema (sv_mgr s')
     /\ Forall2 (answer_ok schema) session resps.
Proof.
  split; [vm_compute; reflexivity|].
  assert (Hr : exists sr, outcome = Some sr).
  { destruct outcome as [sr|] eqn:E; [by exists sr|]. exfalso.
    assert (Hn : (if outcome then true else false) = true) by (vm_compute; reflexivity). by rewrite E in Hn. }
  destruct Hr as [[s' resps] Hr]. exists s', resps. split; [exact Hr|].
  apply (api_rows_typed schema (lock_init tt) (Register NewCatalog items) 0 None (Some (mkMetrics 0 0 0 0))
    session s' resps); [exact items_typed|exact Hr].
Defined.
End ApiRun.
