(* ===== verification/Scenario.v ===== *)
(** * Anomaly scenarios ([internal/scenario])

    Each scenario is a program over a transaction manager of its own: it
    seeds tables, runs two transactions step by step under the isolation
    level and protocol that it is given, and reports whether the anomaly
    occurred. The programs are closed, so that their verdicts are computed:
    [scenario_verdicts] has the table of them. The deadlock scenario runs two
    goroutines; it is a step relation on their program counters, explored
    over all schedules. *)

From Stdlib Require Import ZArith NArith Lia String.
From stdpp Require Import base tactics numbers list gmap strings.
From S2P Require Import Prelude Types Lock Acquire Storage Mvcc WalRecord Wal Ssi Txn TxnInv GapLock.

(** ** scenario.go *)

Inductive AnomalyType :=
| DirtyRead
| LostUpdate
| NonRepeatableRead
| PhantomRead
| WriteSkew
| DeadlockCycle
| CascadeAbort.

#[export] Instance AnomalyType_eq_dec : EqDecision AnomalyType.
Proof. solve_decision. Defined.

(** The values that the scenarios put into [Step.Result]. *)
Inductive StepResult := RNil | RInt (z : Z) | RText (s : string).

(** The timestamp of a step is not modelled. *)
Record Step := mkStep {
  sp_TxnLabel : string;
  sp_Op : string;
  sp_Table : string;
  sp_Key : string;
  sp_Result : StepResult;
  sp_Error : option GoError;
  sp_Note : string;
}.

Record Result := mkResult {
  rs_Name : string;
  rs_Isolation : IsolationLevel;
  rs_Protocol : ConcurrencyProtocol;
  rs_Steps : list Step;
  rs_AnomalyOccurred : bool;
  rs_AnomalyType : AnomalyType;
  rs_Resolved : bool;
  rs_Explanation : string;
}.

(** ** The manager of a scenario *)

Notation SMgr := (Mgr (@LockSt unit) unit).

(** The maps [tables] and [seed] as lists; the order of a map's keys is not
    observable in what is built from them. *)
Definition seed_table (mgr : SMgr) (seed : string * list (string * list Value)) : SMgr :=
  let (table, rows) := seed in
  let rowsSlice := (fun kv => mkRow kv.1 (Some kv.2)) <$> rows in
  let mgr := with_MVCCStore mgr (SeedMVCCStore (m_MVCCStore mgr) table rowsSlice 0) in
  match Lookup (m_Catalog mgr) table with
  | Some tbl => with_Catalog mgr (<[table := fold_left (fun t kv => PutRow t kv.1 (Some kv.2)) rows tbl]> (m_Catalog mgr))
  | None => mgr
  end.

Definition makeManager (tables : list (string * list Column)) (seed : list (string * list (string * list Value))) : SMgr :=
  let catalog := fold_left (fun c tc => Register c (NewTable tc.1 tc.2)) tables NewCatalog in
  let mgr := NewManager (lock_init tt) catalog 0 None in
  let mgr := fold_left seed_table seed mgr in
  if 0 <? length seed then MarkCommitted mgr 0 else mgr.

Definition isolationName (i : IsolationLevel) : string :=
  match i with
  | ReadUncommitted => "ReadUncommitted"
  | ReadCommitted => "ReadCommitted"
  | RepeatableRead => "RepeatableRead"
  | Serializable => "Serializable"
  end.

(** ** Programs

    A program changes the manager and the trace; [None] is a panic. *)

Definition Prog (A : Type) : Type := SMgr * list Step -> option (SMgr * list Step * A).

#[export] Instance Prog_ret : MRet Prog := fun _ a '(m, st) => Some (m, st, a).
#[export] Instance Prog_bind : MBind Prog := fun _ _ k c s =>
  match c s with Some (m, st, a) => k a (m, st) | None => None end.

Definition RecordStep (label op table key : string) (result : StepResult) (err : option GoError) (note : string) : Prog unit :=
  fun '(m, st) => Some (m, st ++ [mkStep label op table key result err note], tt).

Definition lift {A} (f : SMgr -> option (SMgr * A)) : Prog A := fun '(m, st) => match f m with Some (m, a) => Some (m, st, a) | None => None end.

Definition err_of {E A} (wrap : E -> GoError) (r : result E A) : option GoError := match r with Ok _ => None | Err e => Some (wrap e) end.

(** A failed [Begin] leaves a nil pointer, which the next use dereferences. *)
Definition begin_txn (p : ConcurrencyProtocol) (iso : IsolationLevel) : Prog N :=
  lift (fun m => match Begin m p iso with (m, Ok id) => Some (m, id) | (_, Err _) => None end).

(** A failed read leaves [nil] and [false]. *)
Definition read_row (p : ConcurrencyProtocol) (t : N) (table key : string) : Prog (Values * bool) :=
  lift (fun m =>
    match p with
    | ProtocolMVCC => let (m, r) := MVCCRead m t table key in Some (m, match r with Ok x => x | Err _ => (None, false) end)
    | Protocol2PL =>
        match m_objs m !! t with
        | Some txn => let (m, r) := TwoPLRead m txn table key in Some (m, match r with Ok x => x | Err _ => (None, false) end)
        | None => None
        end
    end).

Definition write_row (p : ConcurrencyProtocol) (t : N) (table key : string) (values : list Value) (op : UndoOpType) : Prog (option GoError) :=
  lift (fun m =>
    match p with
    | ProtocolMVCC => match MVCCWrite m t table key (Some values) op with Some (m, r) => Some (m, err_of ETxn r) | None => None end
    | Protocol2PL =>
        match m_objs m !! t with
        | Some txn => match TwoPLWrite m txn table key (Some values) op with Some (m, r) => Some (m, err_of ETxn r) | None => None end
        | None => None
        end
    end).

Definition scan_table (p : ConcurrencyProtocol) (t : N) (table : string) : Prog (list Row * option GoError) :=
  lift (fun m =>
    let out := fun (r : result TxnError (list Row)) => match r with Ok rows => (rows, None) | Err e => ([], Some (ETxn e)) end in
    match p with
    | ProtocolMVCC => let (m, r) := MVCCScan m t table None in Some (m, out r)
    | Protocol2PL =>
        match m_objs m !! t with
        | Some txn => let (m, r) := TwoPLScan m txn table None in Some (m, out r)
        | None => None
        end
    end).

Definition commit_txn (t : N) : Prog (option GoError) := lift (fun m => let (m, r) := Commit m t in Some (m, err_of id r)).
Definition abort_txn (t : N) : Prog unit := lift (fun m => Some ((Abort m t).1, tt)).

(** [v[0].Int], a panic on an empty slice. *)
Definition first_int (v : Values) : Prog Z := fun '(m, st) => match values_list v with x :: _ => Some (m, st, v_Int x) | [] => None end.

(** [found && len(v) > 0], then [v[0].Int]. *)
Definition read_int (v : Values * bool) : option Z := if v.2 then v_Int <$> head (values_list v.1) else None.
Definition shown (z : option Z) : StepResult := match z with Some z => RInt z | None => RNil end.

Definition finish (res : Result) (mgr : SMgr) (p : Prog (bool * string)) : option (SMgr * Result) :=
  match p (mgr, []) with
  | Some (m, st, (anomaly, text)) =>
      Some (m, mkResult (rs_Name res) (rs_Isolation res) (rs_Protocol res) st anomaly (rs_AnomalyType res) (rs_Resolved res) text)
  | None => None
  end.

Definition newResult (name : string) (iso : IsolationLevel) (p : ConcurrencyProtocol) (a : AnomalyType) : Result := mkResult name iso p [] false a false "".

(** ** scenarios.go: the sequential scenarios *)

Definition IntCol (name : string) : Column := mkColumn name TypeInt false false.

Definition accounts : SMgr := makeManager [("accounts", [IntCol "balance"])] [("accounts", [("A", [IntVal 100])])].

Definition DirtyRead_Run (isolation : IsolationLevel) (protocol : ConcurrencyProtocol) : option (SMgr * Result) :=
  finish (newResult "dirty_read" isolation protocol DirtyRead) accounts (
    t1 ← begin_txn protocol isolation;
    _ ← RecordStep "T1" "begin" "" "" RNil None "";
    _ ← write_row protocol t1 "accounts" "A" [IntVal 999] UndoUpdate;
    _ ← RecordStep "T1" "write" "accounts" "A" (RInt 999) None "dirty write (not committed)";
    t2 ← begin_txn protocol isolation;
    _ ← RecordStep "T2" "begin" "" "" RNil None "";
    v2 ← read_row protocol t2 "accounts" "A";
    let anomaly := bool_decide (read_int v2 = Some 999%Z) in
    _ ← RecordStep "T2" "read" "accounts" "A" (shown (read_int v2)) None "";
    _ ← abort_txn t1;
    _ ← RecordStep "T1" "abort" "" "" RNil None "";
    _ ← commit_txn t2;
    mret (anomaly, if anomaly then "T2 read T1's uncommitted value (dirty read). Only occurs at ReadUncommitted."
                   else "Dirty read prevented: T2 saw only committed data.")).

Definition LostUpdate_Run (isolation : IsolationLevel) (protocol : ConcurrencyProtocol) : option (SMgr * Result) :=
  finish (newResult "lost_update" isolation protocol LostUpdate) accounts (
    t1 ← begin_txn protocol isolation;
    t2 ← begin_txn protocol isolation;
    v1 ← read_row protocol t1 "accounts" "A";
    v2 ← read_row protocol t2 "accounts" "A";
    i1 ← first_int v1.1;
    _ ← RecordStep "T1" "read" "accounts" "A" (RInt i1) None "sees 100";
    i2 ← first_int v2.1;
    _ ← RecordStep "T2" "read" "accounts" "A" (RInt i2) None "sees 100";
    let newVal1 := int_of_u64 (u64_of_int (i1 + 50)) in
    w1Err ← write_row protocol t1 "accounts" "A" [IntVal newVal1] UndoUpdate;
    c1Err ← commit_txn t1;
    _ ← RecordStep "T1" "write+commit" "accounts" "A" (RInt newVal1) c1Err "T1 sets balance to 150 and commits";
    let newVal2 := int_of_u64 (u64_of_int (i2 - 30)) in
    w2Err ← (match w1Err, c1Err with
             | None, None => write_row protocol t2 "accounts" "A" [IntVal newVal2] UndoUpdate
             | _, _ => mret None
             end);
    c2Err ← (match w2Err with
             | None => commit_txn t2
             | Some e => _ ← abort_txn t2; mret (Some e)
             end);
    _ ← RecordStep "T2" "write+commit" "accounts" "A" (RInt newVal2) c2Err "T2 tries to set balance to 70 (stale read)";
    let anomaly := match c1Err, c2Err with None, None => true | _, _ => false end in
    mret (anomaly, if anomaly then "Lost update: T1 changed balance to 150 and committed. T2 read 100, computed 70, then overwrote T1's 150. T1's change is lost at " +:+ isolationName isolation +:+ "."
                   else "Write conflict detected: T2 saw T1's committed version in its snapshot active list (RR) → prevented.")).

Definition NonRepeatableRead_Run (isolation : IsolationLevel) (protocol : ConcurrencyProtocol) : option (SMgr * Result) :=
  finish (newResult "non_repeatable_read" isolation protocol NonRepeatableRead)
    (makeManager [("items", [IntCol "price"])] [("items", [("X", [IntVal 10])])]) (
    t1 ← begin_txn protocol isolation;
    _ ← RecordStep "T1" "begin" "" "" RNil None "";
    v1 ← read_row protocol t1 "items" "X";
    i1 ← first_int v1.1;
    _ ← RecordStep "T1" "read" "items" "X" (RInt i1) None "first read=10";
    t2 ← begin_txn protocol ReadCommitted;
    _ ← write_row protocol t2 "items" "X" [IntVal 99] UndoUpdate;
    _ ← commit_txn t2;
    _ ← RecordStep "T2" "write+commit" "items" "X" (RInt 99) None "updated price to 99";
    v2 ← read_row protocol t1 "items" "X";
    _ ← commit_txn t1;
    let anomaly := match values_list v2.1 with x :: _ => negb (v_Int x =? i1)%Z | [] => false end in
    i2 ← first_int v2.1;
    _ ← RecordStep "T1" "read" "items" "X" (RInt i2) None "second read";
    mret (anomaly, if anomaly then "Non-repeatable read: T1 saw 10 then 99. Occurs at ReadCommitted."
                   else "Repeatable read guaranteed: T1 saw the same value both times.")).

Definition PhantomRead_Run (isolation : IsolationLevel) (protocol : ConcurrencyProtocol) : option (SMgr * Result) :=
  finish (newResult "phantom_read" isolation protocol PhantomRead)
    (makeManager [("salaries", [IntCol "amount"])] [("salaries", [("emp1", [IntVal 5000]); ("emp3", [IntVal 7000])])]) (
    t1 ← begin_txn protocol isolation;
    _ ← RecordStep "T1" "begin" "" "" RNil None "";
    rows1 ← scan_table protocol t1 "salaries";
    _ ← RecordStep "T1" "scan" "salaries" "" (RInt (Z.of_nat (length rows1.1))) rows1.2 "first scan";
    t2 ← begin_txn protocol ReadCommitted;
    _ ← write_row protocol t2 "salaries" "emp2" [IntVal 6000] UndoInsert;
    _ ← commit_txn t2;
    _ ← RecordStep "T2" "insert+commit" "salaries" "emp2" (RInt 6000) None "inserted emp2";
    rows2 ← scan_table protocol t1 "salaries";
    _ ← commit_txn t1;
    _ ← RecordStep "T1" "scan" "salaries" "" (RInt (Z.of_nat (length rows2.1))) None "second scan";
    let anomaly := length rows1.1 <? length rows2.1 in
    mret (anomaly, if anomaly then "Phantom read: T1 saw emp2 in the second scan (not in first). Occurs at RepeatableRead with MVCC."
                   else "Phantom read prevented: T1 saw the same set of rows in both scans.")).

Definition WriteSkew_Run (isolation : IsolationLevel) (protocol : ConcurrencyProtocol) : option (SMgr * Result) :=
  let offCall := [TextVal "off"; BoolVal false] in
  finish (newResult "write_skew" isolation protocol WriteSkew)
    (makeManager [("doctors", [mkColumn "name" TypeText false false; mkColumn "on_call" TypeBool false false])]
       [("doctors", [("A", [TextVal "Alice"; BoolVal true]); ("B", [TextVal "Bob"; BoolVal true])])]) (
    t1 ← begin_txn protocol isolation;
    t2 ← begin_txn protocol isolation;
    _ ← read_row protocol t1 "doctors" "A";
    _ ← read_row protocol t1 "doctors" "B";
    _ ← read_row protocol t2 "doctors" "A";
    _ ← read_row protocol t2 "doctors" "B";
    _ ← write_row protocol t1 "doctors" "A" offCall UndoUpdate;
    _ ← write_row protocol t2 "doctors" "B" offCall UndoUpdate;
    _ ← RecordStep "T1" "read+write" "doctors" "A" (RText "off_call=false") None "T1 sets Alice off-call";
    _ ← RecordStep "T2" "read+write" "doctors" "B" (RText "off_call=false") None "T2 sets Bob off-call";
    c1Err ← commit_txn t1;
    c2Err ← commit_txn t2;
    _ ← RecordStep "T1" "commit" "" "" RNil c1Err "";
    _ ← RecordStep "T2" "commit" "" "" RNil c2Err "";
    let anomaly := match c1Err, c2Err with None, None => true | _, _ => false end in
    mret (anomaly, if anomaly then "Write skew: both committed, nobody is on-call. Invariant violated at " +:+ isolationName isolation +:+ "."
                   else "SSI detected the rw-anti-dependency cycle and aborted one transaction.")).

Definition CascadeAbort_Run (isolation : IsolationLevel) (protocol : ConcurrencyProtocol) : option (SMgr * Result) :=
  finish (newResult "cascade_abort" isolation protocol CascadeAbort)
    (makeManager [("data", [IntCol "val"])] [("data", [("X", [IntVal 0])])]) (
    t1 ← begin_txn protocol isolation;
    _ ← write_row protocol t1 "data" "X" [IntVal 999] UndoUpdate;
    _ ← RecordStep "T1" "write" "data" "X" (RInt 999) None "dirty write";
    t2 ← begin_txn protocol isolation;
    v ← read_row protocol t2 "data" "X";
    _ ← RecordStep "T2" "read" "data" "X" (shown (read_int v)) None "";
    _ ← abort_txn t1;
    _ ← RecordStep "T1" "abort" "" "" RNil None "";
    _ ← commit_txn t2;
    let anomaly := bool_decide (read_int v = Some 999%Z) in
    mret (anomaly, if anomaly then "Cascade abort: T2 read T1's dirty value (999) which was later aborted."
                   else "MVCC/2PL correctly isolated T2 from T1's uncommitted write.")).

(** ** The deadlock scenario *)

(** [TwoPLWrite] once it has its locks. *)
Definition write_locked (m : SMgr) (txn : Transaction) (table key : string) (values : Values) (op : UndoOpType) : option (SMgr * result TxnError unit) :=
  match Lookup (m_Catalog m) table with
  | None => Some (m, Err (NewTableNotFoundError table))
  | Some t =>
      let before := (GetRow t key).1 in
      match log_write m (x_ID txn) op table key (EncodeValues (values_list before)) (wal_bytes values) with
      | None => None
      | Some (m, lsn) =>
          let m := append_undo m (x_ID txn) op table key before lsn in
          let t' := match op with UndoInsert | UndoUpdate => PutRow t key values | UndoDelete => (DeleteRow t key).1 end in
          let m := with_Catalog m (<[table := t']> (m_Catalog m)) in
          Some (upd_txn m (x_ID txn) (addWrite key), Ok tt)
      end
  end.

Lemma TwoPLWrite_locked m txn table key values op :
  TwoPLWrite m txn table key values op
  = match lk_acquire (m_locks m) (x_ID txn) (ResourceForTable table) LockIX with
    | (l, Err e) => Some (with_locks m l, Err e)
    | (l, Ok _) =>
        match lk_acquire l (x_ID txn) (ResourceForRow table key) LockX with
        | (l, Err e) => Some (with_locks m l, Err e)
        | (l, Ok _) => write_locked (with_locks m l) txn table key values op
        end
    end.
Proof.
  unfold TwoPLWrite. destruct (lk_acquire (m_locks m) _ _ _) as [l [u|e]]; [|done]. cbn [m_locks with_locks].
  by destruct (lk_acquire l _ _ _) as [l2 [u2|e2]].
Qed.

(** A goroutine: the locks it still asks for, blocked on the first of them,
    after its write with the error it got, or at its end. *)
Inductive Phase :=
| Asking (locks : list (ResourceID * Mode))
| Blocked (rest : list (ResourceID * Mode))
| Written (err : option GoError)
| Ended (err : option GoError).

(** The write of a goroutine to the table [items]. *)
Record Goroutine := mkGo { go_txn : N; go_key : string; go_val : Z; go_phase : Phase }.
Definition set_phase (p : Phase) (g : Goroutine) : Goroutine := mkGo (go_txn g) (go_key g) (go_val g) p.

(** What a goroutine may do next. A blocked one goes on when its channel is
    closed or when its timer fires. *)
Inductive Event := Run1 | Run2 | Timeout1 | Timeout2.

(** [None]: the event is not possible. *)
Definition go_run (m : SMgr) (g : Goroutine) : option (SMgr * Goroutine) :=
  match go_phase g with
  | Asking ((r, mode) :: rest) =>
      let (l, out) := acquire (m_locks m) (go_txn g) r mode in
      Some (with_locks m l, set_phase (match out with AcqGranted => Asking rest | AcqWait _ => Blocked rest end) g)
  | Blocked rest =>
      match ls_blocked (m_locks m) !! go_txn g with
      | Some w =>
          if bool_decide (w_req w ∈ ls_closed (m_locks m))
          then Some (with_locks m (wait_granted (m_locks m) (go_txn g) w), set_phase (Asking rest) g) else None
      | None => None
      end
  | Asking [] =>
      match m_objs m !! go_txn g with
      | Some txn =>
          match write_locked m txn "items" (go_key g) (Some [IntVal (go_val g)]) UndoUpdate with
          | Some (m, r) => Some (m, set_phase (Written (err_of ETxn r)) g)
          | None => None
          end
      | None => None
      end
  | Written None => let (m, r) := Commit m (go_txn g) in Some (m, set_phase (Ended (err_of id r)) g)
  | Written (Some e) => Some ((Abort m (go_txn g)).1, set_phase (Ended (Some e)) g)
  | Ended _ => None
  end.

Definition go_timeout (m : SMgr) (g : Goroutine) : option (SMgr * Goroutine) :=
  match go_phase g with
  | Blocked _ =>
      match ls_blocked (m_locks m) !! go_txn g with
      | Some w =>
          match wait_cancelled (m_locks m) (go_txn g) w CancelTimeout with
          | Some (l, e) => Some (with_locks m l, set_phase (Written (Some (ETxn e))) g)
          | None => None
          end
      | None => None
      end
  | _ => None
  end.

Definition Pair : Type := SMgr * Goroutine * Goroutine.

Definition pair_step (s : Pair) (e : Event) : option Pair :=
  let '(m, g1, g2) := s in
  match e with
  | Run1 => '(m, g1) ← go_run m g1; Some (m, g1, g2)
  | Run2 => '(m, g2) ← go_run m g2; Some (m, g1, g2)
  | Timeout1 => '(m, g1) ← go_timeout m g1; Some (m, g1, g2)
  | Timeout2 => '(m, g2) ← go_timeout m g2; Some (m, g1, g2)
  end.

(** A run of both goroutines: a list of possible events. *)
Fixpoint pair_run (s : Pair) (sched : list Event) : option Pair :=
  match sched with
  | [] => Some s
  | e :: sched => match pair_step s e with Some s => pair_run s sched | None => None end
  end.

(** [wg.Wait()] returns when both have ended. *)
Definition waited (s : Pair) : option (SMgr * option GoError * option GoError) :=
  match s with
  | (m, g1, g2) => match go_phase g1, go_phase g2 with Ended e1, Ended e2 => Some (m, e1, e2) | _, _ => None end
  end.

Definition row_locks (key : string) : list (ResourceID * Mode) := [(ResourceForTable "items", LockIX); (ResourceForRow "items" key, LockX)].

(** The scenario up to the start of the goroutines. *)
Definition deadlock_prefix (isolation : IsolationLevel) : Prog (N * N) :=
  t1 ← begin_txn Protocol2PL isolation;
  t2 ← begin_txn Protocol2PL isolation;
  _ ← RecordStep "T1" "begin" "" "" RNil None "";
  _ ← RecordStep "T2" "begin" "" "" RNil None "";
  _ ← write_row Protocol2PL t1 "items" "A" [IntVal 10] UndoUpdate;
  _ ← RecordStep "T1" "write" "items" "A" (RInt 10) None "T1 holds X on A";
  _ ← write_row Protocol2PL t2 "items" "B" [IntVal 20] UndoUpdate;
  _ ← RecordStep "T2" "write" "items" "B" (RInt 20) None "T2 holds X on B";
  mret (t1, t2).

Definition items : SMgr := makeManager [("items", [IntCol "val"])] [("items", [("A", [IntVal 1]); ("B", [IntVal 2])])].

Definition end_step (label : string) (err : option GoError) : Step :=
  match err with
  | Some e => mkStep label "abort" "" "" RNil (Some e) "deadlock victim"
  | None => mkStep label "commit" "" "" RNil None "survived deadlock"
  end.

Definition aborted_of (err : option GoError) : nat := match err with Some _ => 1 | None => 0 end.

(** The result, and what goes to the deadlock reporter: the victim and the
    cycle. *)
Definition deadlock_result (isolation : IsolationLevel) (st : list Step) (t1 t2 : N) (e1 e2 : option GoError) : Result * option (N * list N) :=
  let aborted := aborted_of e1 + aborted_of e2 in
  let report := if 0 <? aborted then Some (match e1 with None => t2 | Some _ => t1 end, [t1; t2; t1]) else None in
  (mkResult "deadlock_cycle" isolation Protocol2PL (st ++ [end_step "T1" e1; end_step "T2" e2]) true DeadlockCycle (aborted =? 1)
     (match aborted with
      | 1 => "Deadlock detected and resolved: one transaction was aborted as the victim, the other committed."
      | 2 => "Cycle formed but neither detector intervened: both transactions hit the lock timeout (3s) and were aborted."
      | _ => "Cycle formed and resolved without detection (no victim was chosen)."
      end), report).

(** The state in which the goroutines start. *)
Definition deadlock_start (isolation : IsolationLevel) : option (Pair * list Step) :=
  match deadlock_prefix isolation (items, []) with
  | Some (m, st, (t1, t2)) => Some ((m, mkGo t1 "B" 11 (Asking (row_locks "B")), mkGo t2 "A" 21 (Asking (row_locks "A"))), st)
  | None => None
  end.

(** [None]: a panic, or the goroutines do not end with this schedule. *)
Definition DeadlockCycle_Run (isolation : IsolationLevel) (protocol : ConcurrencyProtocol) (sched : list Event) : option (SMgr * Result * option (N * list N)) :=
  match protocol with
  | ProtocolMVCC =>
      Some (items, mkResult "deadlock_cycle" isolation protocol [] false DeadlockCycle false
                     "Deadlock scenario requires 2PL protocol. MVCC uses write-conflict detection instead.", None)
  | Protocol2PL =>
      match deadlock_start isolation with
      | Some (s, st) =>
          match pair_run s sched ≫= waited with
          | Some (m, e1, e2) =>
              let (res, report) := deadlock_result isolation st s.1.2.(go_txn) s.2.(go_txn) e1 e2 in Some (m, res, report)
          | None => None
          end
      | None => None
      end
  end.

(** ** All schedules *)

Definition events : list Event := [Run1; Run2; Timeout1; Timeout2].

Lemma event_in e : e ∈ events.
Proof. destruct e; set_solver. Qed.

Definition possible (s : Pair) (e : Event) : bool := match pair_step s e with Some _ => true | None => false end.

(** Every run from [s] has at most [fuel] events, and one that cannot go on
    has ended and satisfies [P]. *)
Fixpoint explore (P : SMgr -> option GoError -> option GoError -> bool) (fuel : nat) (s : Pair) : bool :=
  forallb (fun e => match pair_step s e with
                    | Some s => match fuel with 0 => false | S fuel => explore P fuel s end
                    | None => true
                    end) events
  && (existsb (possible s) events || match waited s with Some (m, e1, e2) => P m e1 e2 | None => false end).

Lemma explore_step P fuel s e s' :
  explore P fuel s = true -> pair_step s e = Some s' -> exists f, fuel = S f /\ explore P f s' = true.
Proof.
  destruct fuel as [|f]; cbn [explore]; intros [Ha _]%andb_true_iff He; rewrite forallb_forall in Ha;
    specialize (Ha e (proj1 (list_elem_of_In _ _) (event_in e))); rewrite He in Ha; [done|]. by exists f.
Qed.

Lemma explore_run P sched fuel s s' :
  explore P fuel s = true -> pair_run s sched = Some s' -> length sched <= fuel /\ exists f, explore P f s' = true.
Proof.
  revert fuel s. induction sched as [|e sched IH]; intros fuel s He Hr; cbn in Hr.
  - injection Hr as <-. split; [cbn; lia|by exists fuel].
  - destruct (pair_step s e) as [s1|] eqn:Es; [|done]. destruct (explore_step _ _ _ _ _ He Es) as (f & -> & Hf).
    destruct (IH f s1 Hf Hr) as [Hl Hx]. split; [cbn; lia|done].
Qed.

Lemma explore_end P fuel s :
  explore P fuel s = true -> (forall e, pair_step s e = None) -> exists m e1 e2, waited s = Some (m, e1, e2) /\ P m e1 e2 = true.
Proof.
  intros He Hn. assert (Hx : existsb (possible s) events = false).
  { apply not_true_iff_false. intros (e & _ & Hp)%existsb_exists. unfold possible in Hp. by rewrite Hn in Hp. }
  destruct fuel; cbn [explore] in He; apply andb_true_iff in He as [_ He]; rewrite Hx in He; cbn [orb] in He;
    (destruct (waited s) as [[[m e1] e2]|]; [|done]); by exists m, e1, e2.
Qed.

Lemma waited_end s x : waited s = Some x -> forall e, pair_step s e = None.
Proof.
  destruct s as [[m g1] g2]. cbn. destruct (go_phase g1) eqn:H1; try done. destruct (go_phase g2) eqn:H2; try done.
  intros _ [| | |]; cbn; unfold go_run, go_timeout; by rewrite ?H1, ?H2.
Qed.

(** ** Verdicts *)

(** The value of the only column of a row, as an integer. *)
Definition int_row (m : SMgr) (table key : string) : option Z := catalog_row (m_Catalog m) table key ≫= fun v => v_Int <$> head (values_list v).

Definition opt_Z_eqb (a b : option Z) : bool := bool_decide (a = b).

(** What a deadlock leaves: the two rows as the survivor wrote them, or as
    they were when both transactions timed out; nobody is active. *)
Definition deadlock_end (m : SMgr) (e1 e2 : option GoError) : bool :=
  let rows := (int_row m "items" "A", int_row m "items" "B") in
  bool_decide (m_txns m = ∅)
  && match e1, e2 with
     | Some (ETxn x), None => bool_decide (e_Code x = ErrLockTimeout) && bool_decide (rows = (Some 21%Z, Some 20%Z))
     | None, Some (ETxn x) => bool_decide (e_Code x = ErrLockTimeout) && bool_decide (rows = (Some 10%Z, Some 11%Z))
     | Some (ETxn x), Some (ETxn y) => bool_decide (e_Code x = ErrLockTimeout) && bool_decide (e_Code y = ErrLockTimeout) && bool_decide (rows = (Some 1%Z, Some 2%Z))
     | _, _ => false
     end.

Definition explored (iso : IsolationLevel) : bool := match deadlock_start iso with Some (s, _) => explore deadlock_end 9 s | None => false end.

Lemma explored_all iso : explored iso = true.
Proof. destruct iso; vm_compute; reflexivity. Qed.

(** ** The registry *)

Definition ScenarioName (a : AnomalyType) : string :=
  match a with
  | DirtyRead => "dirty_read"
  | LostUpdate => "lost_update"
  | NonRepeatableRead => "non_repeatable_read"
  | PhantomRead => "phantom_read"
  | WriteSkew => "write_skew"
  | DeadlockCycle => "deadlock_cycle"
  | CascadeAbort => "cascade_abort"
  end.

Definition Describe (a : AnomalyType) : string :=
  match a with
  | DirtyRead => "T1 writes a dirty value; T2 reads; T1 aborts. At ReadUncommitted, T2 sees the dirty value. At ReadCommitted+, T2 sees only committed data."
  | LostUpdate => "T1 and T2 both read balance, each writes a new value. At ReadCommitted MVCC, T1's update may be overwritten by T2. At RepeatableRead+, write-write conflict aborts one."
  | NonRepeatableRead => "T1 reads a value twice; T2 updates and commits between reads. At ReadCommitted, T1 sees different values. At RepeatableRead+, T1 sees the same value both times."
  | PhantomRead => "T1 scans a range; T2 inserts a new row and commits; T1 scans again. At RepeatableRead MVCC, T1 sees the phantom. At Serializable (SSI or gap locks), phantom is prevented."
  | WriteSkew => "Doctor on-call: both Alice and Bob are on-call. T1 reads both (on-call), sets Alice off-call. T2 reads both (on-call), sets Bob off-call. At RepeatableRead, both commit leaving nobody on-call. At Serializable (SSI), one is aborted."
  | DeadlockCycle => "T1 holds lock on A, waits for B. T2 holds lock on B, waits for A. Deadlock detector aborts the younger transaction (victim)."
  | CascadeAbort => "T1 writes dirty; T2 reads T1's data; T1 aborts. MVCC prevents T2 from reading T1's uncommitted (later aborted) value."
  end.

(** A scenario has no state: it is named by the anomaly that it shows. *)
Notation Registry := (gmap string AnomalyType).
Definition Registry_Register (r : Registry) (s : AnomalyType) : Registry := <[ScenarioName s := s]> r.
Definition NewRegistry : Registry :=
  fold_left Registry_Register [DirtyRead; LostUpdate; NonRepeatableRead; PhantomRead; WriteSkew; DeadlockCycle; CascadeAbort] ∅.
Definition Registry_Get (r : Registry) (name : string) : option AnomalyType := r !! name.
Definition Registry_All (r : Registry) : list AnomalyType := (map_to_list r).*2.

(** [Run] of the scenario interface; the schedule is for the scenario that
    starts goroutines. *)
Definition Scenario_Run (a : AnomalyType) (isolation : IsolationLevel) (protocol : ConcurrencyProtocol) (sched : list Event) : option (SMgr * Result) :=
  match a with
  | DirtyRead => DirtyRead_Run isolation protocol
  | LostUpdate => LostUpdate_Run isolation protocol
  | NonRepeatableRead => NonRepeatableRead_Run isolation protocol
  | PhantomRead => PhantomRead_Run isolation protocol
  | WriteSkew => WriteSkew_Run isolation protocol
  | DeadlockCycle => fst <$> DeadlockCycle_Run isolation protocol sched
  | CascadeAbort => CascadeAbort_Run isolation protocol
  end.

(** When each anomaly is reported. *)
Definition reported (a : AnomalyType) (iso : IsolationLevel) (p : ConcurrencyProtocol) : bool :=
  match a, p, iso with
  | (DirtyRead | CascadeAbort), Protocol2PL, ReadUncommitted => true
  | (DirtyRead | CascadeAbort), _, _ => false
  | LostUpdate, ProtocolMVCC, ReadCommitted => true
  | LostUpdate, ProtocolMVCC, _ => false
  | LostUpdate, Protocol2PL, _ => true
  | NonRepeatableRead, ProtocolMVCC, ReadCommitted => true
  | NonRepeatableRead, Protocol2PL, ReadUncommitted => true
  | NonRepeatableRead, _, _ => false
  | PhantomRead, ProtocolMVCC, ReadCommitted => true
  | PhantomRead, Protocol2PL, (ReadUncommitted | ReadCommitted | Serializable) => true
  | PhantomRead, _, _ => false
  | WriteSkew, ProtocolMVCC, Serializable => false
  | WriteSkew, _, _ => true
  | DeadlockCycle, ProtocolMVCC, _ => false
  | DeadlockCycle, Protocol2PL, _ => true
  end.

Lemma registry_complete a : Registry_Get NewRegistry (ScenarioName a) = Some a.
Proof. destruct a; vm_compute; reflexivity. Qed.

(** ** Properties *)



(** C19. However its two goroutines interleave and whenever their timers fire,
    the deadlock scenario under 2PL ends after at most nine steps of theirs;
    the cycle always costs at least one lock timeout. The transaction that
    survives has both its writes and the victim none; when both time out
    the rows are untouched. The anomaly is always reported, and as resolved
    exactly when one of the two survives. *)
Theorem deadlock_all_schedules iso sched s st s' :
  deadlock_start iso = Some (s, st) -> pair_run s sched = Some s' ->
  length sched <= 9
  /\ ((forall e, pair_step s' e = None) ->
      exists m e1 e2 res report, waited s' = Some (m, e1, e2) /\ deadlock_end m e1 e2 = true
        /\ DeadlockCycle_Run iso Protocol2PL sched = Some (m, res, report)
        /\ rs_AnomalyOccurred res = true /\ rs_Resolved res = (aborted_of e1 + aborted_of e2 =? 1)
        /\ aborted_of e1 + aborted_of e2 <> 0).
Proof.
  intros Hs Hr. pose proof (explored_all iso) as He. unfold explored in He. rewrite Hs in He.
  destruct (explore_run _ _ _ _ _ He Hr) as (Hl & f & Hf). split; [done|]. intros Hn.
  destruct (explore_end _ _ _ Hf Hn) as (m & e1 & e2 & Hw & Hp). exists m, e1, e2.
  assert (Ha : aborted_of e1 + aborted_of e2 <> 0).
  { unfold deadlock_end in Hp. apply andb_true_iff in Hp as [_ Hp]. destruct e1, e2; cbn [aborted_of]; [lia|lia|lia|discriminate]. }
  set (r := deadlock_result iso st (go_txn s.1.2) (go_txn s.2) e1 e2). exists r.1, r.2. do 2 (split; [assumption|]).
  split; [|split; [reflexivity|split; [reflexivity|exact Ha]]].
  unfold DeadlockCycle_Run. rewrite Hs, Hr. cbn [mbind option_bind]. rewrite Hw. reflexivity.
Qed.

(** T1's timer fires first and T1 ends; T2 then gets its lock. *)
Definition sched_t2 : list Event := [Run1; Run1; Run2; Run2; Timeout1; Run1; Run2; Run2; Run2].
(** T2's timer fires first, then T1's, before either has released a lock. *)
Definition sched_none : list Event := [Run1; Run1; Run2; Run2; Timeout2; Timeout1; Run2; Run1].

Lemma sched_t2_runs : exists s st s', deadlock_start Serializable = Some (s, st) /\ pair_run s sched_t2 = Some s'.
Proof.
  assert (Hv : match deadlock_start Serializable with Some (s, _) => match pair_run s sched_t2 with Some _ => true | None => false end | None => false end = true) by (vm_compute; reflexivity).
  destruct (deadlock_start Serializable) as [[s st]|]; [|discriminate]. exists s, st.
  destruct (pair_run s sched_t2) as [s'|]; [|discriminate]. by exists s'.
Qed.

Lemma deadlock_all_schedules_witness :
  exists s st s', deadlock_start Serializable = Some (s, st) /\ pair_run s sched_t2 = Some s' /\ length sched_t2 <= 9.
Proof.
  destruct sched_t2_runs as (s & st & s' & Hs & Hr). exists s, st, s'.
  exact (conj Hs (conj Hr (proj1 (deadlock_all_schedules Serializable sched_t2 s st s' Hs Hr)))).
Defined.

Lemma ran_some {A} (r : option A) (P : A -> bool) : match r with Some x => P x | None => false end = true -> exists x, r = Some x /\ P x = true.
Proof. destruct r as [x|]; [|discriminate]. by exists x. Qed.

(** The verdicts that are wrong. Under 2PL above read-uncommitted,
    lost_update and write_skew report their anomaly although the locks
    prevented it: the writes failed, the balance is still 100 and both
    doctors are on call. Under serializable 2PL phantom_read shows a phantom,
    which repeatable-read 2PL prevents. And when T2's timer is the first to
    fire and T1's is the second, T1 is reported as the victim. *)
Theorem scenario_false_alarms iso :
  iso <> ReadUncommitted ->
  (exists m res, LostUpdate_Run iso Protocol2PL = Some (m, res) /\ rs_AnomalyOccurred res = true /\ int_row m "accounts" "A" = Some 100%Z)
  /\ (exists m res, WriteSkew_Run iso Protocol2PL = Some (m, res) /\ rs_AnomalyOccurred res = true
        /\ catalog_row (m_Catalog m) "doctors" "A" = Some (Some [TextVal "Alice"; BoolVal true])
        /\ catalog_row (m_Catalog m) "doctors" "B" = Some (Some [TextVal "Bob"; BoolVal true]))
  /\ ((fun x => rs_AnomalyOccurred x.2) <$> PhantomRead_Run Serializable Protocol2PL) = Some true
  /\ ((fun x => rs_AnomalyOccurred x.2) <$> PhantomRead_Run RepeatableRead Protocol2PL) = Some false
  /\ (DeadlockCycle_Run iso Protocol2PL sched_none ≫= snd) = Some (1%N, [1%N; 2%N; 1%N]).
Proof.
  intros Hi. split_and!.
  - destruct (ran_some (LostUpdate_Run iso Protocol2PL) (fun x => rs_AnomalyOccurred x.2 && bool_decide (int_row x.1 "accounts" "A" = Some 100%Z)))
      as ([m res] & Hr & [Ha Hb%bool_decide_eq_true]%andb_true_iff); [|by exists m, res].
    destruct iso; [by destruct Hi|..]; vm_compute; reflexivity.
  - destruct (ran_some (WriteSkew_Run iso Protocol2PL) (fun x => rs_AnomalyOccurred x.2
      && (bool_decide (catalog_row (m_Catalog x.1) "doctors" "A" = Some (Some [TextVal "Alice"; BoolVal true]))
          && bool_decide (catalog_row (m_Catalog x.1) "doctors" "B" = Some (Some [TextVal "Bob"; BoolVal true])))))
      as ([m res] & Hr & [Ha [Hb%bool_decide_eq_true Hc%bool_decide_eq_true]%andb_true_iff]%andb_true_iff); [|by exists m, res].
    destruct iso; [by destruct Hi|..]; vm_compute; reflexivity.
  - vm_compute; reflexivity.
  - vm_compute; reflexivity.
  - destruct iso; [by destruct Hi|..]; vm_compute; reflexivity.
Qed.

Lemma scenario_false_alarms_witness :
  exists m res, LostUpdate_Run Serializable Protocol2PL = Some (m, res) /\ rs_AnomalyOccurred res = true /\ int_row m "accounts" "A" = Some 100%Z.
Proof. exact (proj1 (scenario_false_alarms Serializable ltac:(discriminate))). Defined.
