(* ===== verification/Metrics.v ===== *)
(** * Counters and latency histogram ([internal/metrics])

    The counters are 64-bit atomics: a run is the sequence of its updates.
    [Record] is only called with a whole number of milliseconds, so a
    duration is an integer here; the products and the truncated quotient of
    [percentile] are exact in float64 below 2^46 observations, and the model
    computes them on integers.

    [percentile_correct] says what the estimate is: the first bucket bound
    below which at least [total * p / 100] of the observations lie. *)

From Stdlib Require Import ZArith NArith Lia.
From stdpp Require Import base tactics numbers list sorting.
From S2P Require Import Prelude.

Record Histogram := mkHist { h_buckets : list Z; h_counts : list Z; h_total : Z; h_sumUs : Z }.

Definition NewHistogram (buckets : list Z) : Histogram := mkHist buckets (replicate (length buckets + 1) 0%Z) 0 0.

(** The index of the counter that an observation goes to. *)
Fixpoint bucket_of (buckets : list Z) (ms : Z) : nat :=
  match buckets with
  | [] => 0
  | b :: buckets => if (ms <=? b)%Z then 0 else S (bucket_of buckets ms)
  end.

Definition Record_ (h : Histogram) (ms : Z) : Histogram :=
  mkHist (h_buckets h) (alter (Z.add 1) (bucket_of (h_buckets h) ms) (h_counts h)) (h_total h + 1) (h_sumUs h + ms * 1000).

Fixpoint percentile_loop (buckets counts : list Z) (cum target : Z) : option Z :=
  match buckets, counts with
  | b :: buckets, c :: counts => if (target <=? cum + c)%Z then Some b else percentile_loop buckets counts (cum + c) target
  | _, _ => None
  end.

Definition percentile (h : Histogram) (p : Z) : Z :=
  if (h_total h =? 0)%Z then 0%Z
  else
    match percentile_loop (h_buckets h) (h_counts h) 0 (Z.quot (h_total h * p) 100) with
    | Some b => b
    | None => match last (h_buckets h) with Some b => (b * 2)%Z | None => 0%Z end
    end.

Definition P50 (h : Histogram) : Z := percentile h 50.
Definition P95 (h : Histogram) : Z := percentile h 95.
Definition P99 (h : Histogram) : Z := percentile h 99.

(** A histogram after the observations [obs]. *)
Definition observed (buckets obs : list Z) : Histogram := fold_left Record_ obs (NewHistogram buckets).

(** ** Counting *)

(** How many observations a counter has. *)
Definition in_bucket (buckets : list Z) (i : nat) (ms : Z) : bool := (bucket_of buckets ms =? i)%nat.
Definition count {A} (f : A -> bool) (l : list A) : Z := Z.of_nat (length (List.filter f l)).

Lemma count_snoc {A} (f : A -> bool) l x : count f (l ++ [x]) = (count f l + (if f x then 1 else 0))%Z.
Proof. unfold count. rewrite List.filter_app, length_app. cbn. destruct (f x); cbn; lia. Qed.

Lemma count_ext {A} (f g : A -> bool) l : (forall x, f x = g x) -> count f l = count g l.
Proof. intros E. unfold count. f_equal. f_equal. induction l as [|x l IH]; [done|]. cbn. rewrite E, IH. done. Qed.

Lemma count_le_length {A} (f : A -> bool) l : (0 <= count f l <= Z.of_nat (length l))%Z.
Proof. unfold count. pose proof (List.filter_length_le f l). lia. Qed.

Lemma count_all {A} (f : A -> bool) l : (forall x, x ∈ l -> f x = true) -> count f l = Z.of_nat (length l).
Proof.
  intros E. unfold count. f_equal. f_equal. induction l as [|x l IH]; [done|]. cbn. rewrite E by (by left). f_equal. apply IH.
  intros y Hy. apply E. by right.
Qed.

Lemma bucket_of_bound buckets ms : bucket_of buckets ms <= length buckets.
Proof. induction buckets as [|b bs IH]; cbn; [lia|]. destruct (ms <=? b)%Z; lia. Qed.

Record hist_ok (buckets obs : list Z) (h : Histogram) : Prop := {
  ho_buckets : h_buckets h = buckets;
  ho_len : length (h_counts h) = length buckets + 1;
  ho_counts : forall i, i <= length buckets -> h_counts h !! i = Some (count (in_bucket buckets i) obs);
  ho_total : h_total h = Z.of_nat (length obs);
  ho_sum : h_sumUs h = (1000 * foldr Z.add 0 obs)%Z;
}.

Lemma sum_snoc l x : foldr Z.add 0%Z (l ++ [x]) = (foldr Z.add 0 l + x)%Z.
Proof. induction l as [|y l IH]; cbn; lia. Qed.

Lemma observed_ok buckets obs : hist_ok buckets obs (observed buckets obs).
Proof.
  unfold observed. induction obs as [|ms obs IH] using rev_ind.
  - split; cbn; try done; [by rewrite length_replicate|]. intros i Hi. apply lookup_replicate. unfold count. cbn. split; [done|lia].
  - rewrite fold_left_app. cbn [fold_left]. set (h := fold_left Record_ obs _) in *. destruct IH as [I1 I2 I3 I4 I5].
    split; cbn [Record_ h_buckets h_counts h_total h_sumUs]; rewrite ?I1.
    + done.
    + by rewrite length_alter.
    + intros i Hi. rewrite count_snoc. unfold in_bucket at 2. destruct (Nat.eqb_spec (bucket_of buckets ms) i) as [<-|Hne].
      * rewrite list_lookup_alter_eq, I3 by done. cbn. f_equal. lia.
      * rewrite list_lookup_alter_ne, I3 by done. f_equal. lia.
    + rewrite I4, length_app. cbn. lia.
    + rewrite I5, sum_snoc. lia.
Qed.

(** ** Percentiles *)

Definition at_most (b ms : Z) : bool := (ms <=? b)%Z.

Lemma bucket_of_le buckets ms i b :
  StronglySorted Z.lt buckets -> buckets !! i = Some b -> (bucket_of buckets ms <= i <-> (ms <= b)%Z).
Proof.
  intros Hs. revert i. induction Hs as [|x bs Hs IH Hx]; intros i Hi; [done|]. cbn [bucket_of].
  destruct (Z.leb_spec ms x) as [Hle|Hgt]; destruct i as [|i]; cbn in Hi.
  - injection Hi as ->. split; [done|lia].
  - rewrite Forall_forall in Hx. assert (x < b)%Z by (apply Hx; by eapply list_elem_of_lookup_2). split; lia.
  - injection Hi as ->. split; lia.
  - rewrite <-IH by done. split; lia.
Qed.

(** The observations of the counters before [i]. *)
Definition below (buckets : list Z) (i : nat) (ms : Z) : bool := (bucket_of buckets ms <? i)%nat.

Lemma below_S buckets i obs : count (below buckets (S i)) obs = (count (below buckets i) obs + count (in_bucket buckets i) obs)%Z.
Proof.
  unfold count, below, in_bucket. induction obs as [|ms obs IH]; [done|]. cbn [List.filter].
  destruct (Nat.ltb_spec (bucket_of buckets ms) (S i)), (Nat.ltb_spec (bucket_of buckets ms) i), (Nat.eqb_spec (bucket_of buckets ms) i);
    cbn [length]; lia.
Qed.

Lemma below_at_most buckets i b obs :
  StronglySorted Z.lt buckets -> buckets !! i = Some b -> count (below buckets (S i)) obs = count (at_most b) obs.
Proof.
  intros Hs Hb. apply count_ext. intros ms. unfold below, at_most. pose proof (bucket_of_le buckets ms i b Hs Hb) as E.
  destruct (Nat.ltb_spec (bucket_of buckets ms) (S i)), (Z.leb_spec ms b); try done; lia.
Qed.

Lemma percentile_loop_spec buckets obs counts target i :
  (forall j, j <= length buckets -> counts !! j = Some (count (in_bucket buckets j) obs)) -> i <= length buckets ->
  match percentile_loop (drop i buckets) (drop i counts) (count (below buckets i) obs) target with
  | Some b => exists j, i <= j /\ buckets !! j = Some b /\ (target <= count (below buckets (S j)) obs)%Z
      /\ forall k, i <= k < j -> (count (below buckets (S k)) obs < target)%Z
  | None => forall k, i <= k < length buckets -> (count (below buckets (S k)) obs < target)%Z
  end.
Proof.
  intros Hc. remember (length buckets - i) as n eqn:Hn. revert i Hn. induction n as [|n IH]; intros i Hn Hi.
  - rewrite (drop_ge buckets) by lia. cbn. intros k Hk. lia.
  - destruct (lookup_lt_is_Some_2 buckets i) as [b Hb]; [lia|]. rewrite (drop_S _ _ _ Hb), (drop_S _ _ _ (Hc i Hi)). cbn [percentile_loop].
    rewrite <-below_S. destruct (Z.leb_spec target (count (below buckets (S i)) obs)) as [Hle|Hgt].
    + exists i. split_and!; [lia|done|done|]. intros k Hk. lia.
    + specialize (IH (S i) ltac:(lia) ltac:(lia)). destruct (percentile_loop _ _ _ _) as [b'|].
      * destruct IH as (j & Hj & Hb' & Hle & Hk). exists j. split_and!; [lia|done|done|]. intros k Hk'.
        destruct (decide (k = i)) as [->|]; [done|]. apply Hk. lia.
      * intros k Hk. destruct (decide (k = i)) as [->|]; [done|]. apply IH. lia.
Qed.

(** ** HTTP status classes *)

(** [HTTPRequestsByClass]. *)
Definition Classes : Type := list Z.
Definition NewClasses : Classes := replicate 6 0%Z.

Definition status_class (status : Z) : nat :=
  let class := Z.quot status 100 in
  let class := if (class <? 0)%Z then 0%Z else class in
  let class := if (5 <? class)%Z then 5%Z else class in
  Z.to_nat class.

(** [None]: the index is out of range. *)
Definition RecordHTTPStatus (c : Classes) (status : Z) : option Classes :=
  if (status_class status <? length c)%nat then Some (alter (Z.add 1) (status_class status) c) else None.

Lemma status_class_bound status : status_class status < 6.
Proof. unfold status_class. repeat case_match; lia. Qed.

Lemma sum_alter (l : list Z) i : i < length l -> foldr Z.add 0%Z (alter (Z.add 1) i l) = (foldr Z.add 0 l + 1)%Z.
Proof. revert i. induction l as [|x l IH]; intros [|i] Hi; cbn in *; [lia|lia|lia|]. change (list_alter ?f i l) with (alter f i l). rewrite IH by lia. lia. Qed.

Lemma counts_sum buckets obs : foldr Z.add 0%Z (h_counts (observed buckets obs)) = Z.of_nat (length obs).
Proof.
  unfold observed. induction obs as [|ms obs IH] using rev_ind.
  - cbn. induction (length buckets) as [|n IH]; [done|]. cbn. by rewrite IH.
  - rewrite fold_left_app. cbn [fold_left]. destruct (observed_ok buckets obs) as [J1 J2 _ _ _]. unfold observed in *.
    cbn [Record_ h_counts]. rewrite sum_alter, IH, length_app; [cbn; lia|]. rewrite J1, J2. pose proof (bucket_of_bound buckets ms). lia.
Qed.

(** ** Properties *)

(** What a percentile is: after any observations, with increasing bucket
    bounds, it is the least bound below which lie at least the share [p] of
    them, rounded down; twice the last bound when no bound has that many.
    The counters add up to the number of observations and the sum is
    theirs. *)
Theorem percentile_correct buckets obs p :
  StronglySorted Z.lt buckets -> obs <> [] ->
  let h := observed buckets obs in
  let target := (Z.of_nat (length obs) * p ÷ 100)%Z in
  foldr Z.add 0%Z (h_counts h) = h_total h /\ h_total h = Z.of_nat (length obs) /\ h_sumUs h = (1000 * foldr Z.add 0 obs)%Z
  /\ ((exists b, percentile h p = b /\ b ∈ buckets /\ (target <= count (at_most b) obs)%Z
         /\ forall b', b' ∈ buckets -> (b' < b -> count (at_most b') obs < target)%Z)
      \/ (percentile h p = (2 * default 0 (last buckets))%Z /\ forall b, b ∈ buckets -> (count (at_most b) obs < target)%Z)).
Proof.
  intros Hs Hne h target. destruct (observed_ok buckets obs) as [I1 I2 I3 I4 I5]. fold h in I1, I2, I3, I4, I5.
  split_and!; [|done|done|].
  { rewrite I4. apply counts_sum. }
  unfold percentile. rewrite I4, I1. destruct (Z.eqb_spec (Z.of_nat (length obs)) 0) as [Hz|_]; [destruct obs; [done|cbn in Hz; lia]|].
  fold target. pose proof (percentile_loop_spec buckets obs (h_counts h) target 0 I3 ltac:(lia)) as Hl.
  replace (count (below buckets 0) obs) with 0%Z in Hl.
  2: { unfold count, below. replace (List.filter _ obs) with (@nil Z); [done|]. clear. by induction obs as [|? ? IH]. }
  cbn [drop] in Hl. destruct (percentile_loop _ _ _ _) as [b|].
  - left. destruct Hl as (j & _ & Hb & Hle & Hk). exists b. rewrite (below_at_most _ _ b) in Hle by done.
    split_and!; [done|by eapply list_elem_of_lookup_2|done|]. intros b' (k & Hk')%list_elem_of_lookup_1 Hlt.
    rewrite <-(below_at_most buckets k b') by done. apply Hk. split; [lia|].
    destruct (decide (k < j)) as [|Hge]; [done|]. exfalso. destruct (decide (k = j)) as [->|]; [rewrite Hb in Hk'; injection Hk' as ->; lia|].
    assert (Hbk : bucket_of buckets b <= j) by (apply (bucket_of_le buckets b j b Hs Hb); lia).
    assert (Hlek : bucket_of buckets b <= k) by lia. apply (bucket_of_le buckets b k b' Hs Hk') in Hlek. lia.
  - right. split.
    + destruct (last buckets); cbn; lia.
    + intros b (k & Hk)%list_elem_of_lookup_1. rewrite <-(below_at_most buckets k b) by done. apply Hl. apply lookup_lt_Some in Hk. lia.
Qed.

(** The buckets of the benchmark. *)
Definition bench_buckets : list Z := [1; 2; 5; 10; 20; 50; 100; 200; 500]%Z.

Lemma bench_sorted : StronglySorted Z.lt bench_buckets.
Proof. repeat (constructor; [|repeat (constructor; [lia|]); constructor]). constructor. Qed.

Lemma percentile_correct_witness :
  let obs := [3; 7; 7; 900]%Z in
  foldr Z.add 0%Z (h_counts (observed bench_buckets obs)) = 4%Z /\ P50 (observed bench_buckets obs) = 10%Z.
Proof.
  split; [|vm_compute; reflexivity].
  exact (proj1 (percentile_correct bench_buckets [3; 7; 7; 900]%Z 50 bench_sorted ltac:(discriminate))).
Defined.

(** The target is rounded down: as long as it is 0, every percentile is the
    first bucket bound, whatever was observed. *)
Theorem percentile_zero_target b buckets obs p :
  obs <> [] -> (0 <= p)%Z -> (Z.of_nat (length obs) * p < 100)%Z -> percentile (observed (b :: buckets) obs) p = b.
Proof.
  intros Hne Hp Hlt. destruct (observed_ok (b :: buckets) obs) as [I1 I2 I3 I4 _]. unfold percentile. rewrite I1, I4.
  destruct (Z.eqb_spec (Z.of_nat (length obs)) 0) as [Hz|_]; [destruct obs; [done|cbn in Hz; lia]|]. rewrite Z.quot_small by lia.
  specialize (I3 0 ltac:(cbn; lia)). destruct (h_counts _) as [|c cs]; [done|]. cbn in I3. injection I3 as ->. cbn [percentile_loop].
  pose proof (count_le_length (in_bucket (b :: buckets) 0) obs). by rewrite (proj2 (Z.leb_le _ _)) by lia.
Qed.
