(* ===== verification/Sse.v ===== *)
(** * The event bus of the server ([api/sse.go])

    Channels have identities; a channel is its buffer and whether it is
    closed. The handlers of the subscribers and the publishers run
    concurrently: a run is a sequence of their atomic steps, one for each
    critical section under the write lock and each channel operation. A
    publisher holds the read lock from its first send to its last, so that
    several publishers and the receivers interleave between its sends, while
    nobody subscribes or leaves. [sse_delivery] says what a subscriber
    gets. *)

From Stdlib Require Import ZArith NArith Lia String.
From stdpp Require Import base tactics numbers list gmap strings.
From S2P Require Import Prelude.

(** A handler of [/sse/events]: in its loop, after the removal, after the
    close. *)
Inductive Stage := Streaming | Leaving | Gone.

#[export] Instance Stage_eq_dec : EqDecision Stage.
Proof. solve_decision. Defined.

Lemma sublist_same_length {A} (l k : list A) : sublist l k -> length l = length k -> l = k.
Proof.
  induction 1 as [|x l k Hs IH|x l k Hs IH]; cbn; intros Hl; [done|f_equal; apply IH; lia|]. apply sublist_length in Hs. lia.
Qed.

Section Bus.
Context {Data : Type}.

Record SSEEvent := mkEvent { ev_Event : string; ev_Data : Data }.

Definition SSEClientChannelBuffer : nat := 64.
Definition MaxSSEClients : nat := 256.

Record Chan := mkChan { c_buf : list SSEEvent; c_closed : bool }.

Record SSEBus := mkBus { b_clients : gset N; b_chans : gmap N Chan; b_next : N }.

Definition NewSSEBus : SSEBus := mkBus ∅ ∅ 0.

Definition Subscribe (b : SSEBus) : SSEBus * option N :=
  if MaxSSEClients <=? size (b_clients b) then (b, None)
  else
    let ch := b_next b in
    (mkBus ({[ch]} ∪ b_clients b) (<[ch := mkChan [] false]> (b_chans b)) (ch + 1), Some ch).

(** [Unsubscribe]: the removal under the lock, then the close; closing twice
    panics. *)
Definition remove_client (b : SSEBus) (ch : N) : SSEBus := mkBus (b_clients b ∖ {[ch]}) (b_chans b) (b_next b).

Definition close_chan (b : SSEBus) (ch : N) : option SSEBus :=
  match b_chans b !! ch with
  | Some c => if c_closed c then None else Some (mkBus (b_clients b) (<[ch := mkChan (c_buf c) true]> (b_chans b)) (b_next b))
  | None => None
  end.

Definition Unsubscribe (b : SSEBus) (ch : N) : option SSEBus := close_chan (remove_client b ch) ch.

(** The [select] of [Publish] on one channel; a send on a closed channel
    panics. *)
Definition offer (event : SSEEvent) (chans : gmap N Chan) (ch : N) : option (gmap N Chan) :=
  match chans !! ch with
  | Some c =>
      if c_closed c then None
      else if length (c_buf c) <? SSEClientChannelBuffer then Some (<[ch := mkChan (c_buf c ++ [event]) false]> chans)
      else Some chans
  | None => None
  end.

(** [Publish] under the read lock: the event and the channels that the loop
    over the clients has still to reach, in an order of its own. *)
Record Publisher := mkPub { p_event : SSEEvent; p_todo : gset N }.

Definition Publish_begin (b : SSEBus) (event : SSEEvent) : Publisher := mkPub event (b_clients b).

(** One round of the loop. *)
Definition Publish_send (b : SSEBus) (p : Publisher) (ch : N) : option (SSEBus * Publisher) :=
  (fun chans => (mkBus (b_clients b) chans (b_next b), mkPub (p_event p) (p_todo p ∖ {[ch]}))) <$> offer (p_event p) (b_chans b) ch.

(** [evt, ok := <-ch] on a buffered event. *)
Definition receive (b : SSEBus) (ch : N) : option (SSEBus * SSEEvent) :=
  match b_chans b !! ch with
  | Some (mkChan (e :: buf) closed) => Some (mkBus (b_clients b) (<[ch := mkChan buf closed]> (b_chans b)) (b_next b), e)
  | _ => None
  end.

(** ** The handlers *)

(** The events whose publication began since a subscriber is there, those
    that reached it, in the order in which they did, what it got, and how
    many events were dropped for it. *)
Record Client := mkClient { cl_stage : Stage; cl_due : list SSEEvent; cl_pub : list SSEEvent; cl_got : list SSEEvent; cl_drops : nat }.

(** [sy_overlap]: two publications have overlapped. *)
Record System := mkSys { sy_bus : SSEBus; sy_clients : gmap N Client; sy_pubs : list Publisher; sy_overlap : bool }.

Inductive SseOp :=
| OpSubscribe
| OpPublish (e : SSEEvent)          (* the read lock is taken *)
| OpSend (i : nat) (ch : N)         (* publisher [i] is at channel [ch] *)
| OpDone (i : nat)                  (* the read lock is released *)
| OpReceive (ch : N)
| OpLeave (ch : N)
| OpClose (ch : N).

Definition stage_of (s : System) (ch : N) : option Stage := cl_stage <$> sy_clients s !! ch.

Definition buffered (s : System) (ch : N) : list SSEEvent := match b_chans (sy_bus s) !! ch with Some c => c_buf c | None => [] end.

(** Which steps a goroutine takes, given where it is and the lock. *)
Definition enabled (s : System) (op : SseOp) : Prop :=
  match op with
  | OpSubscribe => sy_pubs s = []
  | OpPublish _ => True
  | OpSend i ch => exists p, sy_pubs s !! i = Some p /\ ch ∈ p_todo p
  | OpDone i => exists p, sy_pubs s !! i = Some p /\ p_todo p = ∅
  | OpReceive ch => stage_of s ch = Some Streaming /\ buffered s ch <> []
  | OpLeave ch => stage_of s ch = Some Streaming /\ sy_pubs s = []
  | OpClose ch => stage_of s ch = Some Leaving
  end.

Definition add_due (b : SSEBus) (e : SSEEvent) (ch : N) (c : Client) : Client :=
  if bool_decide (ch ∈ b_clients b) then mkClient (cl_stage c) (cl_due c ++ [e]) (cl_pub c) (cl_got c) (cl_drops c) else c.

Definition add_pub (e : SSEEvent) (dropped : bool) (c : Client) : Client :=
  mkClient (cl_stage c) (cl_due c) (cl_pub c ++ [e]) (cl_got c) (cl_drops c + if dropped then 1 else 0).

Definition set_stage (st : Stage) (c : Client) : Client := mkClient st (cl_due c) (cl_pub c) (cl_got c) (cl_drops c).
Definition add_got (e : SSEEvent) (c : Client) : Client := mkClient (cl_stage c) (cl_due c) (cl_pub c) (cl_got c ++ [e]) (cl_drops c).

Definition with_bus (s : System) (b : SSEBus) (cls : gmap N Client) : System := mkSys b cls (sy_pubs s) (sy_overlap s).

(** [None] is a panic. *)
Definition sse_step (s : System) (op : SseOp) : option System :=
  match op with
  | OpSubscribe =>
      match Subscribe (sy_bus s) with
      | (b, Some ch) => Some (with_bus s b (<[ch := mkClient Streaming [] [] [] 0]> (sy_clients s)))
      | (b, None) => Some (with_bus s b (sy_clients s))
      end
  | OpPublish e =>
      Some (mkSys (sy_bus s) (map_imap (fun ch c => Some (add_due (sy_bus s) e ch c)) (sy_clients s))
              (sy_pubs s ++ [Publish_begin (sy_bus s) e]) (sy_overlap s || negb (length (sy_pubs s) =? 0)))
  | OpSend i ch =>
      p ← sy_pubs s !! i;
      '(b, p') ← Publish_send (sy_bus s) p ch;
      Some (mkSys b (alter (add_pub (p_event p) (SSEClientChannelBuffer <=? length (buffered s ch))) ch (sy_clients s))
              (<[i := p']> (sy_pubs s)) (sy_overlap s))
  | OpDone i => Some (mkSys (sy_bus s) (sy_clients s) (delete i (sy_pubs s)) (sy_overlap s))
  | OpReceive ch => '(b, e) ← receive (sy_bus s) ch; Some (with_bus s b (alter (add_got e) ch (sy_clients s)))
  | OpLeave ch => Some (with_bus s (remove_client (sy_bus s) ch) (alter (set_stage Leaving) ch (sy_clients s)))
  | OpClose ch => (fun b => with_bus s b (alter (set_stage Gone) ch (sy_clients s))) <$> close_chan (sy_bus s) ch
  end.

Inductive sse_run : System -> list SseOp -> option System -> Prop :=
| run_nil s : sse_run s [] (Some s)
| run_panic s op ops : enabled s op -> sse_step s op = None -> sse_run s (op :: ops) None
| run_step s op ops s1 r : enabled s op -> sse_step s op = Some s1 -> sse_run s1 ops r -> sse_run s (op :: ops) r.

Definition sys0 : System := mkSys NewSSEBus ∅ [] false.

(** ** The invariant *)

(** The events on their way to a channel. *)
Definition pending (pubs : list Publisher) (ch : N) : list SSEEvent :=
  p_event <$> List.filter (fun p => bool_decide (ch ∈ p_todo p)) pubs.

(** One subscriber. *)
Record client_ok (b : SSEBus) (ch : N) (cl : Client) : Prop := {
  co_next : (ch < b_next b)%N;
  co_chan : exists buf, b_chans b !! ch = Some (mkChan buf (bool_decide (cl_stage cl = Gone)))
    /\ length buf <= SSEClientChannelBuffer /\ sublist (cl_got cl ++ buf) (cl_pub cl)
    /\ length (cl_got cl ++ buf) + cl_drops cl = length (cl_pub cl);
  co_in : ch ∈ b_clients b <-> cl_stage cl = Streaming;
}.

(** What is published to it. *)
Definition due_ok (pubs : list Publisher) (overlap : bool) (ch : N) (cl : Client) : Prop :=
  cl_pub cl ++ pending pubs ch ≡ₚ cl_due cl /\ (overlap = false -> cl_pub cl ++ pending pubs ch = cl_due cl).

Record sys_ok (s : System) : Prop := {
  so_clients : forall ch cl, sy_clients s !! ch = Some cl -> client_ok (sy_bus s) ch cl;
  so_due : forall ch cl, sy_clients s !! ch = Some cl -> due_ok (sy_pubs s) (sy_overlap s) ch cl;
  so_known : forall ch, ch ∈ b_clients (sy_bus s) -> is_Some (sy_clients s !! ch);
  so_size : size (b_clients (sy_bus s)) <= MaxSSEClients;
  so_pubs : forall p, p ∈ sy_pubs s -> p_todo p ⊆ b_clients (sy_bus s);
  so_serial : sy_overlap s = false -> length (sy_pubs s) <= 1;
}.

Definition push (e : SSEEvent) (c : Chan) : Chan :=
  if length (c_buf c) <? SSEClientChannelBuffer then mkChan (c_buf c ++ [e]) (c_closed c) else c.

Lemma offer_open e chans ch c :
  chans !! ch = Some c -> c_closed c = false -> offer e chans ch = Some (<[ch := push e c]> chans).
Proof. intros Hc Ho. unfold offer, push. rewrite Hc, Ho. destruct (_ <? _); [done|]. by rewrite insert_id. Qed.

Lemma pending_app pubs p ch : pending (pubs ++ [p]) ch = pending pubs ch ++ if bool_decide (ch ∈ p_todo p) then [p_event p] else [].
Proof.
  unfold pending. rewrite List.filter_app, fmap_app. f_equal. cbn [List.filter]. by destruct (bool_decide _).
Qed.

Lemma pending_split l1 p l2 ch :
  pending (l1 ++ p :: l2) ch = pending l1 ch ++ (if bool_decide (ch ∈ p_todo p) then [p_event p] else []) ++ pending l2 ch.
Proof.
  replace (l1 ++ p :: l2) with ((l1 ++ [p]) ++ l2) by (by rewrite <-app_assoc).
  unfold pending. rewrite List.filter_app, fmap_app. fold (pending (l1 ++ [p]) ch) (pending l2 ch). by rewrite pending_app, <-app_assoc.
Qed.

Lemma step_subscribe s : sys_ok s -> enabled s OpSubscribe -> exists s1, sse_step s OpSubscribe = Some s1 /\ sys_ok s1.
Proof.
  intros [I1 I4 I2 I3 I5 I6] He. cbn in He |- *. unfold Subscribe.
  destruct (Nat.leb_spec MaxSSEClients (size (b_clients (sy_bus s)))) as [Hf|Hf].
  - eexists. split; [done|]. by split.
  - eexists. split; [done|]. set (ch := b_next (sy_bus s)).
    assert (Hnew : forall x cl, sy_clients s !! x = Some cl -> x <> ch) by (intros x cl Hx ->; destruct (I1 _ _ Hx) as [Hlt _ _]; unfold ch in Hlt; lia).
    assert (Hnc : ch ∉ b_clients (sy_bus s)) by (intros [cl Hcl]%I2; by eapply Hnew).
    split; cbn [sy_clients sy_bus b_clients with_bus sy_pubs sy_overlap].
    + intros x cl Hx. destruct (decide (x = ch)) as [->|Hne].
      * rewrite lookup_insert_eq in Hx. injection Hx as <-. split; cbn; [lia| |set_solver].
        exists []. rewrite lookup_insert_eq. split_and!; [done|cbn; lia|done|done].
      * rewrite lookup_insert_ne in Hx by done. destruct (I1 _ _ Hx) as [J1 (buf & J2 & J3) J4]. split; cbn; [lia| |].
        -- exists buf. rewrite lookup_insert_ne by done. done.
        -- rewrite <-J4. set_solver.
    + intros x cl [[<- <-]|[_ Hx]]%lookup_insert_Some; [|by apply I4]. rewrite He. by split.
    + intros x Hx. destruct (decide (x = ch)) as [->|Hne]; [rewrite lookup_insert_eq; by eexists|].
      rewrite lookup_insert_ne by done. apply I2. set_solver.
    + rewrite size_union by set_solver. rewrite size_singleton. lia.
    + rewrite He. by intros p ?%elem_of_nil.
    + done.
Qed.

Lemma step_publish s e : sys_ok s -> exists s1, sse_step s (OpPublish e) = Some s1 /\ sys_ok s1.
Proof.
  intros [I1 I4 I2 I3 I5 I6]. cbn. eexists. split; [done|]. split; cbn [sy_clients sy_bus b_clients sy_pubs sy_overlap].
  - intros ch cl Hcl. rewrite map_lookup_imap in Hcl. destruct (sy_clients s !! ch) as [c|] eqn:Hc; [|done]. injection Hcl as <-.
    destruct (I1 _ _ Hc) as [J1 J2 J3]. unfold add_due. destruct (bool_decide (ch ∈ _)); (split; [done|exact J2|exact J3]).
  - intros ch cl Hcl. rewrite map_lookup_imap in Hcl. destruct (sy_clients s !! ch) as [c|] eqn:Hc; [|done]. injection Hcl as <-.
    destruct (I4 _ _ Hc) as [J1 J2]. unfold due_ok, add_due. rewrite pending_app. cbn [p_todo p_event Publish_begin].
    rewrite orb_false_iff. destruct (bool_decide (ch ∈ b_clients (sy_bus s))); cbn [cl_pub cl_due].
    + rewrite app_assoc. split; [by rewrite J1|]. intros [Ho _]. by rewrite (J2 Ho).
    + rewrite app_nil_r. split; [done|]. intros [Ho _]. by apply J2.
  - intros ch Hch. rewrite map_lookup_imap. destruct (I2 ch Hch) as [c ->]. by eexists.
  - done.
  - intros p [Hp| ->%list_elem_of_singleton]%elem_of_app; [by apply I5|done].
  - rewrite orb_false_iff, negb_false_iff, Nat.eqb_eq. intros [_ Hl]. rewrite length_app, Hl. cbn. lia.
Qed.

Lemma step_send s i ch : sys_ok s -> enabled s (OpSend i ch) -> exists s1, sse_step s (OpSend i ch) = Some s1 /\ sys_ok s1.
Proof.
  intros [I1 I4 I2 I3 I5 I6] (p & Hp & Hch). pose proof (I5 p (list_elem_of_lookup_2 _ _ _ Hp) _ Hch) as Hin.
  destruct (I2 _ Hin) as [cl Hcl]. destruct (I1 _ _ Hcl) as [J1 (buf & J2 & J3 & J4 & J5) J6]. pose proof (proj1 J6 Hin) as Hst.
  cbn [sse_step]. rewrite Hp. cbn [mbind option_bind]. unfold Publish_send.
  rewrite (offer_open _ _ _ _ J2) by (cbn; by rewrite Hst). cbn [fmap option_fmap option_map mbind option_bind].
  eexists. split; [done|]. unfold buffered. rewrite J2. cbn [c_buf].
  apply take_drop_middle in Hp as Hpubs. set (l1 := take i (sy_pubs s)) in *. set (l2 := drop (S i) (sy_pubs s)) in *.
  set (p' := mkPub (p_event p) (p_todo p ∖ {[ch]})).
  assert (Hins : <[i := p']> (sy_pubs s) = l1 ++ p' :: l2).
  { rewrite <-Hpubs at 1. apply lookup_lt_Some in Hp. rewrite insert_app_r_alt by (unfold l1; rewrite length_take; lia).
    unfold l1. rewrite length_take. replace (i - i `min` length (sy_pubs s)) with 0 by lia. done. }
  split; cbn [sy_clients sy_bus b_clients sy_pubs sy_overlap].
  - intros x c Hx. destruct (decide (x = ch)) as [->|Hne].
    + rewrite lookup_alter_eq, Hcl in Hx. apply (inj Some) in Hx as <-. split; cbn [add_pub cl_stage cl_pub cl_got cl_drops b_chans b_next b_clients]; [done| |done].
      rewrite lookup_insert_eq, Hst. unfold push. cbn [c_buf c_closed].
      destruct (Nat.ltb_spec (length buf) SSEClientChannelBuffer) as [Hlt|Hge].
      * exists (buf ++ [p_event p]). rewrite (proj2 (Nat.leb_gt _ _) Hlt).
        split_and!; [done|rewrite length_app; cbn; lia|rewrite app_assoc; by apply sublist_app|rewrite !length_app in *; cbn; lia].
      * exists buf. rewrite (proj2 (Nat.leb_le _ _) Hge).
        split_and!; [done|done|by apply sublist_inserts_r|rewrite !length_app in *; cbn; lia].
    + rewrite lookup_alter_ne in Hx by done. destruct (I1 _ _ Hx) as [K1 K2 K3]. split; cbn [b_chans b_next b_clients]; [done| |done].
      by rewrite lookup_insert_ne.
  - intros x c Hx. rewrite Hins. unfold due_ok. rewrite pending_split. cbn [p_todo p_event p'].
    destruct (decide (x = ch)) as [->|Hne].
    + rewrite lookup_alter_eq, Hcl in Hx. injection Hx as <-. cbn [add_pub cl_pub cl_due].
      rewrite bool_decide_eq_false_2 by set_solver. destruct (I4 _ _ Hcl) as [K1 K2].
      rewrite <-Hpubs, pending_split, bool_decide_eq_true_2 in K1, K2 by done. cbn [app]. split.
      * rewrite <-K1. solve_Permutation.
      * intros Ho. rewrite <-(K2 Ho). specialize (I6 Ho). rewrite <-Hpubs, length_app in I6. cbn in I6.
        destruct l1; [|cbn in I6; lia]. cbn. by rewrite <-app_assoc.
    + rewrite lookup_alter_ne in Hx by done. destruct (I4 _ _ Hx) as [K1 K2].
      rewrite <-Hpubs, pending_split in K1, K2.
      rewrite (bool_decide_ext (x ∈ p_todo p ∖ {[ch]}) (x ∈ p_todo p)) by set_solver. by split.
  - intros x Hx. destruct (decide (x = ch)) as [->|Hne]; [rewrite lookup_alter_eq, Hcl; by eexists|].
    rewrite lookup_alter_ne by done. by apply I2.
  - done.
  - rewrite Hins. intros q Hq. assert (Hq' : q ∈ sy_pubs s \/ q = p').
    { apply elem_of_app in Hq as [Hq|[->|Hq]%elem_of_cons]; [left; rewrite <-Hpubs; set_solver|by right|left; rewrite <-Hpubs; set_solver]. }
    destruct Hq' as [Hq'| ->]; [by apply I5|]. cbn. specialize (I5 p (list_elem_of_lookup_2 _ _ _ Hp)). set_solver.
  - rewrite length_insert. done.
Qed.

Lemma step_done s i : sys_ok s -> enabled s (OpDone i) -> exists s1, sse_step s (OpDone i) = Some s1 /\ sys_ok s1.
Proof.
  intros [I1 I4 I2 I3 I5 I6] (p & Hp & Ht). cbn. eexists. split; [done|].
  apply take_drop_middle in Hp as Hpubs. pose proof (delete_take_drop (sy_pubs s) i) as Hdel.
  split; cbn [sy_clients sy_bus b_clients sy_pubs sy_overlap]; [done| |done|done| |].
  - intros x c Hx. destruct (I4 _ _ Hx) as [K1 K2]. unfold due_ok.
    assert (E : pending (delete i (sy_pubs s)) x = pending (sy_pubs s) x).
    { rewrite <-Hpubs at 2. rewrite pending_split, Ht, bool_decide_eq_false_2 by set_solver. rewrite Hdel. unfold pending.
      by rewrite List.filter_app, fmap_app. }
    by rewrite E.
  - intros q Hq. apply I5. rewrite <-Hpubs. rewrite Hdel in Hq. set_solver.
  - intros Ho. specialize (I6 Ho). rewrite length_delete by (by eexists). lia.
Qed.

(** A step that changes one channel and its client. *)
Lemma step_one s ch cl cl' b' :
  sys_ok s -> sy_clients s !! ch = Some cl -> client_ok b' ch cl' -> cl_pub cl' = cl_pub cl -> cl_due cl' = cl_due cl ->
  b_next b' = b_next (sy_bus s) ->
  (forall x, x <> ch -> b_chans b' !! x = b_chans (sy_bus s) !! x) ->
  (forall x, x <> ch -> x ∈ b_clients b' <-> x ∈ b_clients (sy_bus s)) ->
  (b_clients b' = b_clients (sy_bus s) \/ sy_pubs s = []) ->
  size (b_clients b') <= MaxSSEClients -> forall f, f cl = cl' -> sys_ok (with_bus s b' (alter f ch (sy_clients s))).
Proof.
  intros [I1 I4 I2 I3 I5 I6] Hc Hok Ep Ed Hn Hch Hcl Hpb Hs f Hf. split; cbn [sy_clients sy_bus with_bus sy_pubs sy_overlap]; [| | |done| |done].
  - intros x c Hx. destruct (decide (x = ch)) as [->|Hne].
    + rewrite lookup_alter_eq, Hc in Hx. injection Hx as <-. by rewrite Hf.
    + rewrite lookup_alter_ne in Hx by done. destruct (I1 _ _ Hx) as [J1 J2 J3]. split; [by rewrite Hn|by rewrite Hch|by rewrite Hcl].
  - intros x c Hx. destruct (decide (x = ch)) as [->|Hne]; [|rewrite lookup_alter_ne in Hx by done; by apply I4].
    rewrite lookup_alter_eq, Hc in Hx. injection Hx as <-. rewrite Hf. unfold due_ok. rewrite Ep, Ed. by apply I4.
  - intros x Hx. destruct (decide (x = ch)) as [->|Hne]; [rewrite lookup_alter_eq, Hc; by eexists|].
    rewrite lookup_alter_ne by done. apply I2. by apply Hcl.
  - destruct Hpb as [->| ->]; [done|]. by intros p ?%elem_of_nil.
Qed.

Lemma step_receive s ch : sys_ok s -> enabled s (OpReceive ch) -> exists s1, sse_step s (OpReceive ch) = Some s1 /\ sys_ok s1.
Proof.
  intros I [Hst Hb]. unfold stage_of in Hst. destruct (sy_clients s !! ch) as [cl|] eqn:Hc; [|done]. injection Hst as Hst.
  destruct (so_clients _ I _ _ Hc) as [J1 (buf & J2 & J3 & J4 & J5) J6]. unfold buffered in Hb. rewrite J2 in Hb. cbn in Hb.
  destruct buf as [|e buf]; [done|]. cbn. unfold receive. rewrite J2. eexists. split; [done|].
  eapply (step_one s ch cl (add_got e cl)); [done|done| |done|done|done| |done|by left|apply I|done].
  - split; cbn; [done| |done]. exists buf. rewrite lookup_insert_eq. split_and!; [done|cbn in J3; lia| |].
    + by rewrite <-app_assoc.
    + rewrite !length_app in *. cbn in *. lia.
  - intros x Hx. cbn. by rewrite lookup_insert_ne.
Qed.

Lemma step_leave s ch : sys_ok s -> enabled s (OpLeave ch) -> exists s1, sse_step s (OpLeave ch) = Some s1 /\ sys_ok s1.
Proof.
  intros I [Hst Hpb]. unfold stage_of in Hst. destruct (sy_clients s !! ch) as [cl|] eqn:Hc; [|done]. injection Hst as Hst.
  destruct (so_clients _ I _ _ Hc) as [J1 (buf & J2 & J3) J6]. cbn. eexists. split; [done|].
  eapply (step_one s ch cl (set_stage Leaving cl)); [done|done| |done|done|done|done| |by right| |done].
  - split; cbn; [done| |set_solver]. exists buf. split; [|done]. rewrite J2, Hst. done.
  - intros x Hx. cbn. set_solver.
  - cbn. pose proof (so_size _ I). assert (size (b_clients (sy_bus s) ∖ {[ch]}) <= size (b_clients (sy_bus s))) by (apply subseteq_size; set_solver). lia.
Qed.

Lemma step_close s ch : sys_ok s -> enabled s (OpClose ch) -> exists s1, sse_step s (OpClose ch) = Some s1 /\ sys_ok s1.
Proof.
  intros I Hst. cbn in Hst. unfold stage_of in Hst. destruct (sy_clients s !! ch) as [cl|] eqn:Hc; [|done]. injection Hst as Hst.
  destruct (so_clients _ I _ _ Hc) as [J1 (buf & J2 & J3) J6]. rewrite Hst in J2, J6. cbn. unfold close_chan. rewrite J2. cbn. eexists. split; [done|].
  eapply (step_one s ch cl (set_stage Gone cl)); [done|done| |done|done|done| |done|by left|apply I|done].
  - split; cbn; [done| |naive_solver]. exists buf. split; [|done]. by rewrite lookup_insert_eq.
  - intros x Hx. cbn. by rewrite lookup_insert_ne.
Qed.

Lemma sse_step_ok s op : sys_ok s -> enabled s op -> exists s1, sse_step s op = Some s1 /\ sys_ok s1.
Proof.
  intros I He. destruct op; [by apply step_subscribe|by apply step_publish|by apply step_send|by apply step_done|by apply step_receive|by apply step_leave|by apply step_close].
Qed.

Lemma sse_run_ok s ops r : sys_ok s -> sse_run s ops r -> exists s1, r = Some s1 /\ sys_ok s1.
Proof.
  intros I Hr. induction Hr as [s|s op ops He Hs|s op ops s1 r He Hs Hr IH]; [by exists s| |].
  - destruct (sse_step_ok s op I He) as (s1 & Hs1 & _). congruence.
  - destruct (sse_step_ok s op I He) as (s2 & Hs2 & I2). rewrite Hs in Hs2. injection Hs2 as <-. by apply IH.
Qed.

Lemma sys0_ok : sys_ok sys0.
Proof.
  split; cbn; [done|done|done| |by intros p ?%elem_of_nil|lia]. rewrite size_empty. unfold MaxSSEClients. lia.
Qed.
End Bus.

(** ** Properties *)

Arguments SSEEvent : clear implicits. Arguments SSEBus : clear implicits. Arguments System : clear implicits.
Arguments Client : clear implicits. Arguments SseOp : clear implicits. Arguments Chan : clear implicits.

(** C20. Whatever publishers and subscribers do, in any interleaving of their
    sends and receives: no send on a closed channel and no second close
    panics, there are never more than 256 subscribers, and each has at most
    64 events waiting. What a subscriber got and what waits for it are
    events that were sent to it, in the order of the sends and each at most
    once; the missing ones are those that were sent while 64 were waiting,
    so that without such drops it has them all. Every event published since
    it subscribed is sent to it exactly once, unless its publication is
    still under way, and in the order of publication when no two
    publications overlapped. *)
Theorem sse_delivery {Data} (ops : list (SseOp Data)) r :
  sse_run sys0 ops r ->
  exists s, r = Some s /\ size (b_clients (sy_bus s)) <= MaxSSEClients
    /\ forall ch cl, sy_clients s !! ch = Some cl ->
         length (buffered s ch) <= SSEClientChannelBuffer
         /\ sublist (cl_got cl ++ buffered s ch) (cl_pub cl)
         /\ length (cl_got cl ++ buffered s ch) + cl_drops cl = length (cl_pub cl)
         /\ (cl_drops cl = 0 -> cl_got cl ++ buffered s ch = cl_pub cl)
         /\ cl_pub cl ++ pending (sy_pubs s) ch ≡ₚ cl_due cl
         /\ (sy_overlap s = false -> cl_pub cl ++ pending (sy_pubs s) ch = cl_due cl).
Proof.
  intros Hr. destruct (sse_run_ok _ _ _ sys0_ok Hr) as (s & -> & I). exists s. split_and!; [done|apply I|].
  intros ch cl Hcl. destruct (so_clients _ I _ _ Hcl) as [_ (buf & Hb & Hl & Hs & Hn) _]. unfold buffered. rewrite Hb. cbn [c_buf].
  destruct (so_due _ I _ _ Hcl) as [Hd1 Hd2]. split_and!; [done|done|done| |done|done]. intros Hd. rewrite Hd, Nat.add_0_r in Hn.
  by apply sublist_same_length.
Qed.

(** A subscriber comes; two publications overlap and reach it in the other
    order; it gets one of the events and goes. *)
Definition demo_ops : list (SseOp N) :=
  [OpSubscribe; OpPublish (mkEvent "txn_begin" 1%N); OpPublish (mkEvent "txn_commit" 1%N); OpSend 1 0; OpSend 0 0; OpDone 1; OpDone 0;
   OpReceive 0; OpLeave 0; OpPublish (mkEvent "txn_begin" 2%N); OpClose 0; OpDone 0].

(** [enabled], decided. *)
Definition enabled_b (s : System N) (op : SseOp N) : bool :=
  match op with
  | OpSubscribe => length (sy_pubs s) =? 0
  | OpPublish _ => true
  | OpSend i ch => match sy_pubs s !! i with Some p => bool_decide (ch ∈ p_todo p) | None => false end
  | OpDone i => match sy_pubs s !! i with Some p => bool_decide (p_todo p = ∅) | None => false end
  | OpReceive ch => bool_decide (stage_of s ch = Some Streaming) && negb (length (buffered s ch) =? 0)
  | OpLeave ch => bool_decide (stage_of s ch = Some Streaming) && (length (sy_pubs s) =? 0)
  | OpClose ch => bool_decide (stage_of s ch = Some Leaving)
  end.

Lemma enabled_b_sound s op : enabled_b s op = true -> enabled s op.
Proof.
  destruct op as [|e|i ch|i|ch|ch|ch]; cbn; rewrite ?andb_true_iff, ?bool_decide_eq_true, ?negb_true_iff, ?Nat.eqb_eq, ?Nat.eqb_neq; try done.
  - apply length_zero_iff_nil.
  - destruct (sy_pubs s !! i) as [p|]; [|done]. rewrite bool_decide_eq_true. eauto.
  - destruct (sy_pubs s !! i) as [p|]; [|done]. rewrite bool_decide_eq_true. eauto.
  - intros [H1 H2]. split; [done|]. intros He. by rewrite He in H2.
  - intros [H1 H2]. split; [done|]. by apply length_zero_iff_nil.
Qed.

Fixpoint exec_ops (s : System N) (ops : list (SseOp N)) : option (System N) :=
  match ops with
  | [] => Some s
  | op :: ops => if enabled_b s op then match sse_step s op with Some s => exec_ops s ops | None => None end else None
  end.

Lemma exec_ops_run ops s s' : exec_ops s ops = Some s' -> sse_run s ops (Some s').
Proof.
  revert s. induction ops as [|op ops IH]; intros s; cbn [exec_ops]; [intros [= <-]; apply run_nil|].
  destruct (enabled_b s op) eqn:He; [|done]. destruct (sse_step s op) as [s1|] eqn:Hs; [|done]. intros Hr.
  eapply run_step; [by apply enabled_b_sound|done|by apply IH].
Qed.

Definition demo_end : System N := default sys0 (exec_ops sys0 demo_ops).

Lemma demo_run : sse_run sys0 demo_ops (Some demo_end).
Proof. apply exec_ops_run. vm_compute. reflexivity. Qed.

Lemma sse_delivery_witness :
  exists s, Some demo_end = Some s /\ size (b_clients (sy_bus s)) <= MaxSSEClients
    /\ sy_clients s !! 0%N = Some (mkClient Gone [mkEvent "txn_begin" 1%N; mkEvent "txn_commit" 1%N]
         [mkEvent "txn_commit" 1%N; mkEvent "txn_begin" 1%N] [mkEvent "txn_commit" 1%N] 0)
    /\ buffered s 0 = [mkEvent "txn_begin" 1%N].
Proof.
  destruct (sse_delivery demo_ops (Some demo_end) demo_run) as (s & Hs & Hn & _). exists s. split; [exact Hs|]. split; [exact Hn|].
  apply (inj Some) in Hs. subst s. split; vm_compute; reflexivity.
Defined.
