(* ===== verification/Jobs.v ===== *)
(** * Benchmark jobs of the server ([api/handlers_scenario.go])

    The table of asynchronous benchmark jobs: admission of a request with its
    validation and limits, the end of a job, the eviction of finished jobs
    (on each admission, every 30 seconds and at shutdown) and the results
    endpoint. The benchmark itself is not part of this component: a job is
    its identifier, its start and whether it is done. Identifiers are random:
    they are an input. [jobs_bounded] bounds the table in every run. *)

From Stdlib Require Import ZArith NArith Lia String.
From stdpp Require Import base tactics numbers list gmap strings.
From S2P Require Import Prelude Types Txn Api.

Definition BenchmarkJobMaxRetained : nat := 32.
Definition BenchmarkMaxConcurrent : nat := 4.

Record BenchmarkRunRequest := mkBenchReq {
  br_Protocol : string;
  br_Isolation : string;
  br_Concurrency : Z;
  br_DurationSec : Z;
  br_NumAccounts : Z;
  br_MaxRetries : Z;
}.

(** The fields of benchmark.Config that the request sets. *)
Record Config := mkConfig {
  cf_Protocol : ConcurrencyProtocol;
  cf_Isolation : IsolationLevel;
  cf_Concurrency : Z;
  cf_DurationSec : Z;
  cf_NumAccounts : Z;
  cf_MaxRetries : Z;
}.

Record benchmarkJob := mkJob { bj_ID : string; bj_StartedAt : Z; bj_Done : bool }.
Notation Jobs := (gmap string benchmarkJob).

Inductive JobResponse :=
| JError (r : Response)
| JRetry (after : N) (r : Response)
| JStarted (id : string) (cfg : Config)
| JRunning (id : string)
| JDone (id : string).

(** Negative is refused, zero is the default, more than the limit is the
    limit. *)
Definition clamp (name : string) (def limit v : Z) : result Response Z :=
  if (v <? 0)%Z then Err (errResponse 400 (name +:+ " must be >= 0"))
  else
    let v := if (v =? 0)%Z then def else v in
    Ok (if (limit <? v)%Z then limit else v).

Definition zero_request : BenchmarkRunRequest := mkBenchReq "" "" 0 0 0 0.

(** The checks of the request, in their order. *)
Definition bench_config (body : Decoded BenchmarkRunRequest) : result Response Config :=
  match decodeJSON body zero_request true with
  | Err r => Err r
  | Ok req =>
      match protocolFromString (br_Protocol req) with
      | Err _ => Err (errResponse 400 "unknown protocol")
      | Ok p =>
          match isolationFromString (br_Isolation req) with
          | Err _ => Err (errResponse 400 "unknown isolation level")
          | Ok iso =>
              match clamp "concurrency" 4 64 (br_Concurrency req) with
              | Err r => Err r
              | Ok conc =>
                  match clamp "durationSec" 10 300 (br_DurationSec req) with
                  | Err r => Err r
                  | Ok dur =>
                      match clamp "numAccounts" 100 100000 (br_NumAccounts req) with
                      | Err r => Err r
                      | Ok acc =>
                          match clamp "maxRetries" 3 10 (br_MaxRetries req) with
                          | Err r => Err r
                          | Ok retries => Ok (mkConfig p iso conc dur acc retries)
                          end
                      end
                  end
              end
          end
      end
  end.

(** ** Eviction *)

(** A finished job as the eviction sees it. *)
Notation snap := (string * Z)%type.

Definition done_jobs (jobs : Jobs) : Jobs := filter (fun kv => bj_Done kv.2 = true) jobs.
Definition running_jobs (jobs : Jobs) : Jobs := filter (fun kv => bj_Done kv.2 = false) jobs.

(** The finished jobs in one order of the map's iteration. *)
Definition finished (jobs : Jobs) : list snap := (fun kv => (bj_ID kv.2, bj_StartedAt kv.2)) <$> map_to_list (done_jobs jobs).

Definition oldest_of (oldest : snap) (rest : list snap) : snap := fold_left (fun oldest j => if (j.2 <? oldest.2)%Z then j else oldest) rest oldest.

Fixpoint remove_snap (x : snap) (l : list snap) : list snap :=
  match l with [] => [] | j :: l => if bool_decide (j = x) then l else j :: remove_snap x l end.

Fixpoint evict_loop (fuel : nat) (fin : list snap) (jobs : Jobs) : Jobs :=
  match fuel with
  | 0 => jobs
  | S fuel =>
      if BenchmarkJobMaxRetained <? length fin then
        match fin with
        | [] => jobs
        | j :: rest =>
            let oldest := oldest_of j rest in
            evict_loop fuel (remove_snap oldest fin) (delete oldest.1 jobs)
        end
      else jobs
  end.

(** Each round removes one: as much fuel as there are finished jobs. *)
Definition evict_in (order : list snap) (jobs : Jobs) : Jobs := evict_loop (length order) order jobs.
Definition evictFinishedBenchmarkJobs (jobs : Jobs) : Jobs := evict_in (finished jobs) jobs.

(** ** The endpoints *)

Definition inflight (jobs : Jobs) : nat := size (running_jobs jobs).

(** [order] is the order in which the eviction meets the finished jobs. *)
Definition handleBenchmarkRun (order : Jobs -> list snap) (jobs : Jobs) (body : Decoded BenchmarkRunRequest) (now : Z) (jobID : string) : Jobs * JobResponse :=
  match bench_config body with
  | Err r => (jobs, JError r)
  | Ok cfg =>
      if BenchmarkMaxConcurrent <=? inflight jobs
      then (jobs, JRetry 5 (errResponse 429 "too many concurrent benchmark jobs; retry later"))
      else
        let jobs := <[jobID := mkJob jobID now false]> jobs in
        (evict_in (order jobs) jobs, JStarted jobID cfg)
  end.

(** The end of the job's goroutine. *)
Definition finish_job (jobs : Jobs) (id : string) : Jobs := alter (fun j => mkJob (bj_ID j) (bj_StartedAt j) true) id jobs.

Definition handleBenchmarkResults (jobs : Jobs) (jobID : string) : JobResponse :=
  match jobs !! jobID with
  | None => JError (errResponse 404 "job not found")
  | Some job => if bj_Done job then JDone jobID else JRunning jobID
  end.

(** ** What the eviction does *)

Definition wf_jobs (jobs : Jobs) : Prop := forall id j, jobs !! id = Some j -> bj_ID j = id.

(** The starts of the finished jobs. *)
Definition ages (jobs : Jobs) : gmap string Z := bj_StartedAt <$> done_jobs jobs.

Lemma ages_lookup jobs id t : ages jobs !! id = Some t <-> exists j, jobs !! id = Some j /\ bj_Done j = true /\ bj_StartedAt j = t.
Proof.
  unfold ages, done_jobs. rewrite lookup_fmap, fmap_Some. setoid_rewrite map_lookup_filter_Some. cbn. naive_solver.
Qed.

Lemma finished_ages jobs : wf_jobs jobs -> finished jobs ≡ₚ map_to_list (ages jobs).
Proof.
  intros Hw. unfold finished, ages. rewrite map_to_list_fmap. apply reflexive_eq, list_fmap_ext. intros i [k j] Hi. cbn.
  assert (Hin : (k, j) ∈ map_to_list (done_jobs jobs)) by (by eapply list_elem_of_lookup_2). apply elem_of_map_to_list in Hin.
  apply map_lookup_filter_Some in Hin as [Hin _]. by rewrite (Hw _ _ Hin).
Qed.

Lemma oldest_of_spec x rest : oldest_of x rest ∈ x :: rest /\ forall y, y ∈ x :: rest -> ((oldest_of x rest).2 <= y.2)%Z.
Proof.
  unfold oldest_of. revert x. induction rest as [|z rest IH]; intros x; cbn [fold_left].
  - split; [by left|]. intros y ->%list_elem_of_singleton. done.
  - destruct (IH (if (z.2 <? x.2)%Z then z else x)) as [Hin Hle]. destruct (Z.ltb_spec z.2 x.2) as [Hlt|Hge].
    + split; [set_solver|]. intros y [->|Hy]%elem_of_cons; [|by apply Hle].
      specialize (Hle z ltac:(by left)). lia.
    + split; [set_solver|]. intros y [->|[->|Hy]%elem_of_cons]%elem_of_cons; [apply Hle; by left| |apply Hle; by right].
      specialize (Hle x ltac:(by left)). lia.
Qed.

Lemma remove_snap_Permutation x l : x ∈ l -> l ≡ₚ x :: remove_snap x l.
Proof.
  induction l as [|y l IH]; intros Hin; [by apply elem_of_nil in Hin|]. cbn. case_bool_decide as He; [by subst|].
  apply elem_of_cons in Hin as [->|Hin]; [done|]. rewrite (IH Hin) at 1. constructor.
Qed.

Lemma ages_delete jobs id : ages (delete id jobs) = delete id (ages jobs).
Proof. unfold ages, done_jobs. by rewrite map_filter_delete, fmap_delete. Qed.

Lemma size_ages jobs : size (ages jobs) = size (done_jobs jobs).
Proof. unfold ages. by rewrite map_size_fmap. Qed.

Record evicted (jobs jobs' : Jobs) : Prop := {
  ev_sub : jobs' ⊆ jobs;
  ev_running : forall id j, jobs !! id = Some j -> bj_Done j = false -> jobs' !! id = Some j;
  ev_size : size (ages jobs') = Nat.min BenchmarkJobMaxRetained (size (ages jobs));
  ev_oldest : forall id t id2 t2, ages jobs !! id = Some t -> ages jobs' !! id = None -> ages jobs' !! id2 = Some t2 -> (t <= t2)%Z;
}.

Lemma evict_loop_spec fuel order jobs :
  order ≡ₚ map_to_list (ages jobs) -> length order <= fuel -> evicted jobs (evict_loop fuel order jobs).
Proof.
  revert order jobs. induction fuel as [|fuel IH]; intros order jobs Hp Hl.
  - cbn. assert (Hz : size (ages jobs) = 0) by (rewrite <-length_map_to_list, <-Hp; lia). split; [done|done|lia|congruence].
  - cbn [evict_loop]. assert (Hlen : length order = size (ages jobs)) by (by rewrite Hp, length_map_to_list).
    destruct (Nat.ltb_spec BenchmarkJobMaxRetained (length order)) as [Hlt|Hge]; [|cbv iota; split; [done|done|lia|congruence]].
    destruct order as [|x rest]; [cbn in Hlt; lia|]. destruct (oldest_of_spec x rest) as [Hin Hmin]. set (o := oldest_of x rest) in *.
    assert (Ho : ages jobs !! o.1 = Some o.2) by (apply elem_of_map_to_list; rewrite <-Hp, <-surjective_pairing; exact Hin).
    pose proof (remove_snap_Permutation _ _ Hin) as Hr.
    assert (Hp' : remove_snap o (x :: rest) ≡ₚ map_to_list (ages (delete o.1 jobs))).
    { rewrite ages_delete. apply (Permutation_cons_inv (a := (o.1, o.2))). rewrite map_to_list_delete by done.
      rewrite <-Hp, <-surjective_pairing. symmetry. exact Hr. }
    assert (Hl' : length (remove_snap o (x :: rest)) <= fuel) by (pose proof (Permutation_length Hr) as Hrl; cbn [length] in Hrl, Hl; lia).
    destruct (IH _ (delete o.1 jobs) Hp' Hl') as [J1 J2 J3 J4]. set (jobs' := evict_loop fuel _ _) in *. split.
    + etrans; [exact J1|apply delete_subseteq].
    + intros id j Hj Hd. apply J2; [|done]. rewrite lookup_delete_ne; [done|]. intros <-.
      apply ages_lookup in Ho as (j' & Hj' & Hd' & _). congruence.
    + rewrite J3, ages_delete, map_size_delete, Ho. lia.
    + intros id t id2 t2 Ht Hn Hk. destruct (decide (id = o.1)) as [->|Hne].
      * rewrite Ho in Ht. injection Ht as <-. apply (Hmin (id2, t2)). rewrite Hp. apply elem_of_map_to_list.
        apply ages_lookup in Hk as (j & Hj & Hjd & Hjt). apply ages_lookup. exists j. split_and!; [|done|done].
        apply (lookup_weaken _ jobs) in Hj; [done|]. etrans; [exact J1|apply delete_subseteq].
      * apply (J4 id t id2 t2); [|done|done]. by rewrite ages_delete, lookup_delete_ne.
Qed.

(** ** Runs *)

(** The order of the eviction is any order of the finished jobs. *)
Definition any_order (order : Jobs -> list snap) : Prop := forall jobs, wf_jobs jobs -> order jobs ≡ₚ finished jobs.

Lemma finished_order : any_order finished.
Proof. by intros jobs _. Qed.

Lemma evict_spec order jobs : any_order order -> wf_jobs jobs -> evicted jobs (evict_in (order jobs) jobs).
Proof. intros Ho Hw. apply evict_loop_spec; [|done]. by rewrite (Ho jobs Hw), finished_ages. Qed.

Inductive JobOp :=
| JobRun (body : Decoded BenchmarkRunRequest) (now : Z) (id : string)
| JobFinish (id : string)
| JobEvict.

(** A new identifier is not in use. *)
Definition job_enabled (jobs : Jobs) (op : JobOp) : Prop := match op with JobRun _ _ id => jobs !! id = None | _ => True end.

Definition job_step (order : Jobs -> list snap) (jobs : Jobs) (op : JobOp) : Jobs :=
  match op with
  | JobRun body now id => (handleBenchmarkRun order jobs body now id).1
  | JobFinish id => finish_job jobs id
  | JobEvict => evict_in (order jobs) jobs
  end.

Inductive job_reach (order : Jobs -> list snap) : Jobs -> Prop :=
| jr_start : job_reach order ∅
| jr_step jobs op : job_reach order jobs -> job_enabled jobs op -> job_reach order (job_step order jobs op).

Lemma size_split jobs : size jobs = size (done_jobs jobs) + inflight jobs.
Proof.
  unfold inflight, done_jobs, running_jobs. rewrite <-(map_filter_union_complement (fun kv => bj_Done kv.2 = true) jobs) at 1.
  rewrite map_size_disj_union by apply map_disjoint_filter_complement. f_equal. f_equal. apply map_filter_ext. intros i [? ? []] _; cbn; naive_solver.
Qed.

Record jobs_ok (jobs : Jobs) : Prop := {
  jo_wf : wf_jobs jobs;
  jo_running : inflight jobs <= BenchmarkMaxConcurrent;
  jo_size : size jobs <= BenchmarkJobMaxRetained + BenchmarkMaxConcurrent;
}.

Lemma inflight_mono jobs jobs' : jobs' ⊆ jobs -> inflight jobs' <= inflight jobs.
Proof.
  intros Hs. unfold inflight. apply map_subseteq_size. apply map_subseteq_spec. intros id j. unfold running_jobs. rewrite !map_lookup_filter_Some.
  intros [Hj ?]. split; [|done]. by apply (lookup_weaken jobs').
Qed.

Lemma evicted_ok jobs jobs' : evicted jobs jobs' -> wf_jobs jobs -> inflight jobs <= BenchmarkMaxConcurrent -> jobs_ok jobs'.
Proof.
  intros [E1 E2 E3 E4] Hw Hi. pose proof (inflight_mono _ _ E1). split.
  - intros id j Hj. apply Hw. by apply (lookup_weaken jobs').
  - lia.
  - rewrite size_split, <-size_ages, E3. lia.
Qed.

Lemma inflight_insert jobs id now : jobs !! id = None -> inflight (<[id := mkJob id now false]> jobs) = S (inflight jobs).
Proof.
  intros Hn. unfold inflight, running_jobs. rewrite map_filter_insert_True by done. rewrite map_size_insert_None; [done|].
  apply map_lookup_filter_None. left. done.
Qed.

Lemma finish_ok jobs id : jobs_ok jobs -> jobs_ok (finish_job jobs id).
Proof.
  intros [Hw Hr Hs]. unfold finish_job. split.
  - intros k j. rewrite lookup_alter. case_decide as He; [|apply Hw]. subst. destruct (jobs !! k) as [j'|] eqn:Hj; [|done]. intros [= <-]. cbn. by apply Hw.
  - etrans; [|exact Hr]. unfold inflight. apply map_subseteq_size, map_subseteq_spec. intros k j. unfold running_jobs. rewrite !map_lookup_filter_Some.
    rewrite lookup_alter. case_decide as He; [|done]. destruct (jobs !! id); cbn; naive_solver.
  - etrans; [|exact Hs]. apply Nat.eq_le_incl. rewrite <-!(size_dom (D := gset string)). by rewrite dom_alter_L.
Qed.

Lemma job_step_ok order jobs op : any_order order -> jobs_ok jobs -> job_enabled jobs op -> jobs_ok (job_step order jobs op).
Proof.
  intros Ho Hok He. pose proof Hok as [Hw Hr Hs]. destruct op as [body now id|id|]; cbn.
  - unfold handleBenchmarkRun. destruct (bench_config body) as [cfg|r]; [|done].
    destruct (Nat.leb_spec BenchmarkMaxConcurrent (inflight jobs)) as [Hge|Hlt]; [done|]. cbn in He |- *.
    assert (Hw' : wf_jobs (<[id := mkJob id now false]> jobs)).
    { intros k j. rewrite lookup_insert. case_decide as Hk; [by intros [= <-]|apply Hw]. }
    apply (evicted_ok (<[id := mkJob id now false]> jobs)); [by apply evict_spec|done|]. rewrite inflight_insert by done. lia.
  - by apply finish_ok.
  - apply (evicted_ok jobs); [by apply evict_spec|done|done].
Qed.

Lemma job_reach_ok order jobs : any_order order -> job_reach order jobs -> jobs_ok jobs.
Proof.
  intros Ho. induction 1 as [|jobs op _ IH He]; [|by apply job_step_ok].
  split; [done| |]; unfold inflight, running_jobs; rewrite ?map_filter_empty, ?map_size_empty; lia.
Qed.

(** ** Properties *)

Lemma clamp_range name def limit v x : (0 < def <= limit)%Z -> clamp name def limit v = Ok x -> (1 <= x <= limit)%Z.
Proof. unfold clamp. intros Hd He. repeat (case_match; try discriminate); injection He as <-; lia. Qed.

Lemma bench_config_range body cfg : bench_config body = Ok cfg ->
  (1 <= cf_Concurrency cfg <= 64 /\ 1 <= cf_DurationSec cfg <= 300 /\ 1 <= cf_NumAccounts cfg <= 100000 /\ 1 <= cf_MaxRetries cfg <= 10)%Z.
Proof.
  unfold bench_config. intros He. repeat (case_match; try discriminate). injection He as <-. cbn.
  repeat match goal with H : clamp _ _ _ _ = Ok _ |- _ => apply clamp_range in H; [|lia] end. lia.
Qed.

(** C21. However benchmark requests, the ends of jobs and evictions follow one
    another, and in whatever order the eviction meets the jobs: at most four
    jobs run at a time and the table never has more than 36 entries; a job
    that is started has a configuration within the limits; eviction keeps
    every running job, keeps 32 finished ones when there are more, and
    none that it removes is younger than one that it keeps. *)
Theorem jobs_bounded order jobs :
  any_order order -> job_reach order jobs ->
  inflight jobs <= 4 /\ size jobs <= 36
  /\ (forall body now id jobs' id' cfg, handleBenchmarkRun order jobs body now id = (jobs', JStarted id' cfg) ->
        id' = id /\ inflight jobs < 4
        /\ (1 <= cf_Concurrency cfg <= 64 /\ 1 <= cf_DurationSec cfg <= 300 /\ 1 <= cf_NumAccounts cfg <= 100000 /\ 1 <= cf_MaxRetries cfg <= 10)%Z)
  /\ evicted jobs (evict_in (order jobs) jobs).
Proof.
  intros Ho Hr. pose proof (job_reach_ok _ _ Ho Hr) as [Hw Hi Hs]. split_and!; [exact Hi|exact Hs| |by apply evict_spec].
  intros body now id jobs' id' cfg. unfold handleBenchmarkRun. destruct (bench_config body) as [cfg0|r] eqn:Hc; [|discriminate].
  destruct (Nat.leb_spec BenchmarkMaxConcurrent (inflight jobs)) as [Hge|Hlt]; [discriminate|]. intros [= <- <- <-].
  split; [done|split; [exact Hlt|exact (bench_config_range _ _ Hc)]].
Qed.

(** A job is started, ends, and is asked for. *)
Definition demo_jobs : Jobs := job_step finished (job_step finished ∅ (JobRun DecEOF 5 "job-1")) (JobFinish "job-1").

Lemma demo_jobs_reach : job_reach finished demo_jobs.
Proof. repeat (apply jr_step; [|done]). apply jr_start. Qed.

Lemma jobs_bounded_witness : size demo_jobs <= 36 /\ handleBenchmarkResults demo_jobs "job-1" = JDone "job-1".
Proof.
  split; [|vm_compute; reflexivity]. exact (proj1 (proj2 (jobs_bounded finished demo_jobs finished_order demo_jobs_reach))).
Defined.
