(* ===== verification/Middleware.v ===== *)
(** * HTTP middleware ([api/apiwire/middleware.go])

    A handler turns the state of the server, the response so far and a
    request into a new state and response; [None] is a panic. The state is a
    pair of what the middleware keeps (access log, status counters, latency
    histogram, token buckets) and what the handlers change. Clocks and random
    identifiers are inputs of a request. Numbers of the token bucket are
    IEEE binary64, by the Standard Library's [SpecFloat]. *)

From Stdlib Require Import ZArith NArith Lia Ascii String Floats.SpecFloat.
From stdpp Require Import base tactics numbers list gmap strings.
From S2P Require Import Prelude Types Metrics.

(** ** Requests and responses *)

(** Header names are in canonical form; a request has the first value of
    each. [rq_now] is the clock in nanoseconds when the request arrives,
    [rq_ms] the time it takes, [rq_fresh] 16 random bytes in hex. *)
Record Req (P : Type) := mkReq {
  rq_Method : string;
  rq_Header : gmap string string;
  rq_RemoteAddr : string;
  rq_ReqID : string;
  rq_now : Z;
  rq_ms : Z;
  rq_fresh : string;
  rq_payload : P;
}.
Arguments mkReq {P}. Arguments rq_Method {P}. Arguments rq_Header {P}. Arguments rq_RemoteAddr {P}.
Arguments rq_ReqID {P}. Arguments rq_now {P}. Arguments rq_ms {P}. Arguments rq_fresh {P}. Arguments rq_payload {P}.

Inductive WBody (B : Type) := Raw (s : string) | Json (b : B).
Arguments Raw {B}. Arguments Json {B}.

(** [wr_status] is the status that the client gets, [wr_last] the one that
    was written last. *)
Record Writer (B : Type) := mkWriter { wr_status : option N; wr_last : option N; wr_header : gmap string (list string); wr_body : option (WBody B) }.
Arguments mkWriter {B}. Arguments wr_status {B}. Arguments wr_last {B}. Arguments wr_header {B}. Arguments wr_body {B}.

Inductive Level := LevelError | LevelWarn | LevelDebug | LevelInfo.

(** The attributes of a line of the access log, without path and time. *)
Record LogLine := mkLine { ll_level : Level; ll_req_id : string; ll_method : string; ll_status : N; ll_remote : string }.

Record rateBucket := mkBucket { rb_tokens : spec_float; rb_last : Z; rb_refillR : spec_float; rb_capacity : spec_float }.

(** What the middleware keeps. The counters and the histogram are absent
    when the server has none. *)
Record WireState := mkWire {
  ws_log : list LogLine;
  ws_classes : option Classes;
  ws_hist : option Histogram;
  ws_buckets : gmap string rateBucket;
  ws_reqCount : N;
}.

Section Middleware.
Context {A P B : Type}.
Notation Request := (Req P).
Notation Response := (Writer B).

Definition Handler : Type := WireState * A -> Response -> Request -> option (WireState * A * Response).

Definition HeaderGet (r : Request) (name : string) : string := default "" (rq_Header r !! name).
Definition HeaderSet (w : Response) (name value : string) : Response := mkWriter (wr_status w) (wr_last w) (<[name := [value]]> (wr_header w)) (wr_body w).
Definition HeaderAdd (w : Response) (name value : string) : Response :=
  mkWriter (wr_status w) (wr_last w) (<[name := default [] (wr_header w !! name) ++ [value]]> (wr_header w)) (wr_body w).

(** The first code goes to the client. *)
Definition WriteHeader (w : Response) (code : N) : Response :=
  mkWriter (match wr_status w with Some c => Some c | None => Some code end) (Some code) (wr_header w) (wr_body w).
Definition WriteBody (w : Response) (b : WBody B) : Response := mkWriter (wr_status w) (wr_last w) (wr_header w) (Some b).

Definition sent_status (w : Response) : N := default 200%N (wr_status w).

(** [http.Error]. *)
Definition HttpError (w : Response) (msg : string) (code : N) : Response :=
  WriteBody (WriteHeader (HeaderSet w "Content-Type" "text/plain; charset=utf-8") code) (Raw msg).

(** [statusWriter]: the last code written, 200 when none was. No middleware
    writes a code before it calls the next handler. *)
Definition status_of (w : Response) : N := default 200%N (wr_last w).

(** ** RequestID *)

Definition reqid_char (c : ascii) : bool :=
  let n := N_of_ascii c in
  ((65 <=? n) && (n <=? 90) || (97 <=? n) && (n <=? 122) || (48 <=? n) && (n <=? 57) || (n =? 95) || (n =? 45))%N.

(** The expression [^[A-Za-z0-9_-]{1,64}$]. *)
Definition clientReqIDRe (s : string) : bool :=
  (1 <=? String.length s) && (String.length s <=? 64) && forallb reqid_char (list_ascii_of_string s).

Definition with_ReqID (r : Request) (id : string) : Request :=
  mkReq (rq_Method r) (rq_Header r) (rq_RemoteAddr r) id (rq_now r) (rq_ms r) (rq_fresh r) (rq_payload r).

Definition RequestID (next : Handler) : Handler := fun s w r =>
  let h := HeaderGet r "X-Request-Id" in
  let id := if negb (String.eqb h "") && clientReqIDRe h then h else rq_fresh r in
  next s (HeaderSet w "X-Request-Id" id) (with_ReqID r id).

(** ** AccessLog *)

Definition log_level (status : N) : Level :=
  if (500 <=? status)%N then LevelError else if (400 <=? status)%N then LevelWarn else if (300 <=? status)%N then LevelDebug else LevelInfo.

Definition with_log (ws : WireState) (l : LogLine) : WireState := mkWire (ws_log ws ++ [l]) (ws_classes ws) (ws_hist ws) (ws_buckets ws) (ws_reqCount ws).

Definition AccessLog (next : Handler) : Handler := fun s w r =>
  match next s w r with
  | None => None
  | Some (ws, a, w) =>
      let status := status_of w in
      Some (with_log ws (mkLine (log_level status) (rq_ReqID r) (rq_Method r) status (rq_RemoteAddr r)), a, w)
  end.

(** ** CORS *)

Definition cors_origin (allowOrigins : list string) (w : Response) (origin : string) : Response :=
  if length allowOrigins =? 0 then HeaderSet w "Access-Control-Allow-Origin" "*"
  else if negb (String.eqb origin "") then
    if existsb (String.eqb origin) allowOrigins
    then HeaderAdd (HeaderSet w "Access-Control-Allow-Origin" origin) "Vary" "Origin" else w
  else w.

Definition CORS (allowOrigins : list string) (next : Handler) : Handler := fun s w r =>
  let w := cors_origin allowOrigins w (HeaderGet r "Origin") in
  let w := HeaderSet w "Access-Control-Allow-Methods" "GET, POST, DELETE, OPTIONS" in
  let w := HeaderSet w "Access-Control-Allow-Headers" "Content-Type, X-Request-ID, X-Admin-Token" in
  let w := HeaderSet w "Access-Control-Expose-Headers" "X-Request-ID" in
  if String.eqb (rq_Method r) "OPTIONS" then Some (s, WriteHeader w 200) else next s w r.

(** ** AdminToken *)

Definition quoted (s : string) : string := dquote +:+ s +:+ dquote.

(** The text of the answer when no token is configured. *)
Definition no_token : string := "{" +:+ quoted "error" +:+ ":" +:+ quoted "admin token not configured" +:+ "}".

(** [subtle.ConstantTimeCompare] is 1 exactly on equal strings. *)
Definition AdminToken (token : string) (next : Handler) : Handler := fun s w r =>
  if String.eqb token "" then
    Some (s, WriteBody (WriteHeader (HeaderSet w "Content-Type" "application/json") 403) (Raw no_token))
  else
    let got := HeaderGet r "X-Admin-Token" in
    if String.eqb got "" || negb (String.eqb got token) then Some (s, HttpError w "unauthorized" 401)
    else next s w r.

(** ** HTTPMetrics *)

Definition HTTPMetrics (next : Handler) : Handler := fun s w r =>
  match next s w r with
  | None => None
  | Some (ws, a, w) =>
      let hist := (fun h => Record_ h (rq_ms r)) <$> ws_hist ws in
      match ws_classes ws with
      | None => Some (mkWire (ws_log ws) None hist (ws_buckets ws) (ws_reqCount ws), a, w)
      | Some c =>
          match RecordHTTPStatus c (Z.of_N (status_of w)) with
          | Some c => Some (mkWire (ws_log ws) (Some c) hist (ws_buckets ws) (ws_reqCount ws), a, w)
          | None => None
          end
      end
  end.

(** ** RateLimit *)

Definition f64 (z : Z) : spec_float := binary_normalize 53 1024 z 0 false.
Definition fadd : spec_float -> spec_float -> spec_float := SFadd 53 1024.
Definition fsub : spec_float -> spec_float -> spec_float := SFsub 53 1024.
Definition fmul : spec_float -> spec_float -> spec_float := SFmul 53 1024.
Definition fdiv : spec_float -> spec_float -> spec_float := SFdiv 53 1024.

Definition Second : Z := 1000000000.

(** [Duration.Seconds]. *)
Definition Seconds (d : Z) : spec_float := fadd (f64 (Z.quot d Second)) (fdiv (f64 (Z.rem d Second)) (f64 Second)).

Definition bucketTTL : Z := 300 * Second.
Definition bucketSweepEvery : N := 1000.

Definition newRateBucket (capacity refillR : spec_float) (now : Z) : rateBucket := mkBucket capacity now refillR capacity.

Definition take (b : rateBucket) (now : Z) : rateBucket * bool :=
  let elapsed := Seconds (now - rb_last b) in
  let tokens := fadd (rb_tokens b) (fmul elapsed (rb_refillR b)) in
  let tokens := if SFltb (rb_capacity b) tokens then rb_capacity b else tokens in
  if SFltb tokens (f64 1) then (mkBucket tokens now (rb_refillR b) (rb_capacity b), false)
  else (mkBucket (fsub tokens (f64 1)) now (rb_refillR b) (rb_capacity b), true).

(** The critical section of one request. *)
Definition rate_step (rps : spec_float) (burst : Z) (addr : string) (now : Z) (ws : WireState) : WireState * bool :=
  let b := match ws_buckets ws !! addr with Some b => b | None => newRateBucket (f64 burst) rps now end in
  let (b, ok) := take b now in
  let buckets := <[addr := b]> (ws_buckets ws) in
  let reqCount := (ws_reqCount ws + 1)%N in
  let buckets := if (reqCount mod bucketSweepEvery =? 0)%N
                 then filter (fun kv => ~ (rb_last kv.2 < now - bucketTTL)%Z) buckets else buckets in
  (mkWire (ws_log ws) (ws_classes ws) (ws_hist ws) buckets reqCount, ok).

Definition RateLimit (rps : spec_float) (burst : Z) (next : Handler) : Handler :=
  if SFleb rps (f64 0) || (burst <=? 0)%Z then next
  else fun s w r =>
    let (ws, ok) := rate_step rps burst (rq_RemoteAddr r) (rq_now r) s.1 in
    if ok then next (ws, s.2) w r
    else Some (ws, s.2, HttpError (HeaderSet w "Retry-After" "1") "rate limit exceeded" 429).

(** ** What the chain does to a request *)

(** The middleware of the server around a router, in the order of
    setupRouter, after the library's recovery from panics and its limit on
    the body. *)
Definition wire (allowOrigins : list string) (rps : spec_float) (burst : Z) (router : Handler) : Handler :=
  RequestID (AccessLog (CORS allowOrigins (HTTPMetrics (RateLimit rps burst router)))).

Definition wr0 : Response := mkWriter None None ∅ None.

(** A handler that leaves a header alone. *)
Definition keeps (name : string) (next : Handler) : Prop :=
  forall s w r s' w', next s w r = Some (s', w') -> wr_header w' !! name = wr_header w !! name.

(** The origin that the answer allows. *)
Definition allowed_origin (allowOrigins : list string) (origin : string) : option (list string) :=
  if length allowOrigins =? 0 then Some ["*"]
  else if negb (String.eqb origin "") && existsb (String.eqb origin) allowOrigins then Some [origin] else None.

Lemma keeps_set w name x v : name <> x -> wr_header (HeaderSet w x v) !! name = wr_header w !! name.
Proof. intros Hn. cbn. by rewrite lookup_insert_ne. Qed.

Lemma keeps_HTTPMetrics name next : keeps name next -> keeps name (HTTPMetrics next).
Proof.
  intros Hk s w r s' w'. unfold HTTPMetrics. destruct (next s w r) as [[[ws a] w1]|] eqn:En; [|done]. apply Hk in En.
  destruct (ws_classes ws) as [c|]; [|by intros [= _ <-]]. destruct (RecordHTTPStatus _ _); [by intros [= _ <-]|done].
Qed.

Lemma keeps_RateLimit name rps burst next : name <> "Retry-After" -> name <> "Content-Type" -> keeps name next -> keeps name (RateLimit rps burst next).
Proof.
  intros H1 H2 Hk. unfold RateLimit. destruct (_ || _); [done|]. intros s w r s' w'. destruct (rate_step _ _ _ _ _) as [ws [|]].
  - apply Hk.
  - intros [= _ <-]. cbn. by rewrite !lookup_insert_ne.
Qed.

Lemma keeps_AdminToken name token next : name <> "Content-Type" -> keeps name next -> keeps name (AdminToken token next).
Proof.
  intros H1 Hk s w r s' w'. unfold AdminToken. destruct (String.eqb token ""); [intros [= _ <-]; cbn; by rewrite lookup_insert_ne|].
  destruct (_ || _); [intros [= _ <-]; cbn; by rewrite lookup_insert_ne|apply Hk].
Qed.

(** The counters that a request moves. *)
Definition counted (c c' : option Classes) (status : N) : Prop :=
  match c, c' with
  | Some c, Some c' => c' = alter (Z.add 1) (status_class (Z.of_N status)) c
  | None, None => True
  | _, _ => False
  end.

Definition timed (h h' : option Histogram) (ms : Z) : Prop := h' = (fun h => Record_ h ms) <$> h.

(** A router that does not touch what the outer middleware keeps. *)
Definition quiet (next : Handler) : Prop :=
  forall ws a w r ws' a' w', next (ws, a) w r = Some (ws', a', w') ->
    ws_log ws' = ws_log ws /\ ws_classes ws' = ws_classes ws /\ ws_hist ws' = ws_hist ws.

Lemma quiet_RateLimit rps burst next : quiet next -> quiet (RateLimit rps burst next).
Proof.
  intros Hq. unfold RateLimit. destruct (_ || _); [done|]. intros ws a w r ws' a' w'. cbn [fst snd]. unfold rate_step.
  destruct (take _ _) as [b [|]]; cbn [fst snd].
  - intros He. apply Hq in He. done.
  - intros [= <- _ _]. done.
Qed.

Lemma rate_off burst next : RateLimit (f64 0) burst next = next.
Proof. done. Qed.

Lemma cors_status allowOrigins origin (w : Response) : wr_status (cors_origin allowOrigins w origin) = wr_status w.
Proof. unfold cors_origin. destruct (length allowOrigins =? 0); [done|]. destruct (String.eqb origin ""); [done|]. by destruct (existsb _ _). Qed.

Lemma cors_origin_spec allowOrigins origin (w : Response) :
  wr_header w !! "Access-Control-Allow-Origin" = None ->
  wr_header (cors_origin allowOrigins w origin) !! "Access-Control-Allow-Origin" = allowed_origin allowOrigins origin
  /\ wr_header (cors_origin allowOrigins w origin) !! "X-Request-Id" = wr_header w !! "X-Request-Id"
  /\ wr_status (cors_origin allowOrigins w origin) = wr_status w.
Proof.
  intros Hn. unfold cors_origin, allowed_origin. destruct (length allowOrigins =? 0); [split_and!; cbn; by simplify_map_eq|].
  destruct (String.eqb origin ""); [done|]. cbn [negb andb]. destruct (existsb _ _); [|done]. split_and!; cbn; by simplify_map_eq.
Qed.
End Middleware.

(** ** Token buckets *)

(** Requests from one address at one instant: which of them pass. *)
Fixpoint rate_run (rps : spec_float) (burst : Z) (addr : string) (now : Z) (n : nat) (ws : WireState) : list bool :=
  match n with
  | 0 => []
  | S n => let (ws, ok) := rate_step rps burst addr now ws in ok :: rate_run rps burst addr now n ws
  end.

Definition RateLimitBurst : Z := 100.

#[export] Instance spec_float_eq_dec : EqDecision spec_float.
Proof. solve_decision. Defined.

Definition bucket_check (k : Z) : bool :=
  negb (SFltb (f64 100) (f64 k)) && bool_decide (fadd (f64 k) (S754_zero false) = f64 k)
  && ((k =? 0)%Z || negb (SFltb (f64 k) (f64 1)) && bool_decide (fsub (f64 k) (f64 1) = f64 (k - 1))).

(** Up to the capacity, tokens are whole numbers that binary64 has. *)
Lemma bucket_steps k : (0 <= k <= 100)%Z ->
  SFltb (f64 100) (f64 k) = false /\ fadd (f64 k) (S754_zero false) = f64 k
  /\ (k <> 0%Z -> SFltb (f64 k) (f64 1) = false /\ fsub (f64 k) (f64 1) = f64 (k - 1)).
Proof.
  intros Hk. assert (Hf : forallb bucket_check (seqZ 0 101) = true) by (vm_compute; reflexivity).
  rewrite forallb_forall in Hf. specialize (Hf k). unfold bucket_check in Hf.
  rewrite !andb_true_iff, orb_true_iff, andb_true_iff, !negb_true_iff, !bool_decide_eq_true, Z.eqb_eq in Hf.
  destruct Hf as [[H1 H2] H3]; [apply list_elem_of_In, elem_of_seqZ; lia|]. split_and!; [done|done|]. intros Hne. by destruct H3.
Qed.

Definition bucket_at (rps : spec_float) (now k : Z) : rateBucket := mkBucket (f64 k) now rps (f64 RateLimitBurst).

(** At the instant of the last request a bucket does not fill up. *)
Lemma take_now m e now k :
  (0 <= k <= 100)%Z ->
  take (bucket_at (S754_finite false m e) now k) now
  = if (k =? 0)%Z then (bucket_at (S754_finite false m e) now 0, false) else (bucket_at (S754_finite false m e) now (k - 1), true).
Proof.
  intros Hk. unfold take. cbn [bucket_at rb_last rb_tokens rb_refillR rb_capacity]. rewrite Z.sub_diag.
  change (fmul (Seconds 0) (S754_finite false m e)) with (S754_zero false). destruct (bucket_steps k Hk) as (H1 & H2 & H3). rewrite H2.
  unfold RateLimitBurst in *. rewrite H1. destruct (Z.eqb_spec k 0) as [->|Hne]; [done|]. destruct (H3 Hne) as [H4 H5]. by rewrite H4, H5.
Qed.

Lemma rate_step_now m e addr now k ws :
  (0 <= k <= 100)%Z -> ws_buckets ws !! addr = Some (bucket_at (S754_finite false m e) now k) ->
  exists ws', rate_step (S754_finite false m e) RateLimitBurst addr now ws = (ws', negb (k =? 0)%Z)
    /\ ws_buckets ws' !! addr = Some (bucket_at (S754_finite false m e) now (if (k =? 0)%Z then 0 else k - 1)).
Proof.
  intros Hk Hb. unfold rate_step. rewrite Hb, take_now by done.
  assert (Hkeep : forall b bs, rb_last b = now -> (filter (fun kv => ~ (rb_last kv.2 < now - bucketTTL)%Z) (<[addr := b]> bs) : gmap string rateBucket) !! addr = Some b).
  { intros b bs Hl. apply map_lookup_filter_Some. rewrite lookup_insert_eq. split; [done|]. cbn. rewrite Hl. unfold bucketTTL, Second. lia. }
  destruct (k =? 0)%Z; eexists; (split; [reflexivity|]); cbn [ws_buckets]; (destruct (_ =? 0)%N; [by apply Hkeep|apply lookup_insert_eq]).
Qed.

Lemma rate_run_now m e addr now n k ws :
  k <= 100 -> ws_buckets ws !! addr = Some (bucket_at (S754_finite false m e) now (Z.of_nat k)) ->
  rate_run (S754_finite false m e) RateLimitBurst addr now n ws = replicate (Nat.min n k) true ++ replicate (n - k) false.
Proof.
  revert k ws. induction n as [|n IH]; intros k ws Hk Hb; [done|]. cbn [rate_run].
  destruct (rate_step_now m e addr now (Z.of_nat k) ws ltac:(lia) Hb) as (ws' & -> & Hb'). destruct k as [|k].
  - cbn in Hb' |- *. rewrite (IH 0 ws') by (done || lia). rewrite Nat.min_0_r, Nat.sub_0_r. done.
  - replace (Z.of_nat (S k) =? 0)%Z with false in * by (symmetry; apply Z.eqb_neq; lia). cbn [negb].
    rewrite (IH k ws'); [done|lia|]. rewrite Hb'. f_equal. f_equal. lia.
Qed.

(** A client that the server has not seen sends [n] requests at one instant:
    whatever the refill rate, the first 100 pass and the others do not. *)
Theorem rate_limit_burst m e addr now n ws :
  ws_buckets ws !! addr = None ->
  rate_run (S754_finite false m e) RateLimitBurst addr now n ws = replicate (Nat.min n 100) true ++ replicate (n - 100) false.
Proof.
  intros Hn. destruct n as [|n]; [done|]. cbn [rate_run].
  assert (Hs : rate_step (S754_finite false m e) RateLimitBurst addr now ws
    = rate_step (S754_finite false m e) RateLimitBurst addr now (mkWire (ws_log ws) (ws_classes ws) (ws_hist ws) (<[addr := bucket_at (S754_finite false m e) now 100]> (ws_buckets ws)) (ws_reqCount ws))).
  { unfold rate_step. cbn [ws_buckets ws_log ws_classes ws_hist ws_reqCount]. rewrite Hn, lookup_insert_eq. change (newRateBucket _ _ _) with (bucket_at (S754_finite false m e) now 100).
    destruct (take _ _) as [b ok]. by rewrite insert_insert_eq. }
  rewrite Hs. apply (rate_run_now m e addr now (S n) 100); [lia|]. cbn [ws_buckets]. apply lookup_insert_eq.
Qed.

(** ** Properties *)

(** The identifier that a request gets. *)
Definition request_id {P} (r : Req P) : string :=
  let h := HeaderGet r "X-Request-Id" in if negb (String.eqb h "") && clientReqIDRe h then h else rq_fresh r.

(** C29. What the middleware makes of a request that is answered without a
    panic, around any router that leaves the middleware's own headers and
    state alone. The answer allows every origin when the allowlist is empty,
    and otherwise the request's origin exactly when it is on the list; it
    names the request identifier, the client's when that is well-formed. The
    access log gets exactly one line, with the status written last and the
    level of its class. A preflight request is answered with 200 before the
    router, the counters and the rate limit; every other one moves the
    counter of its class and the latency histogram once. *)
Theorem wire_policy {A P B} (allowOrigins : list string) rps burst (router : @Handler A P B) ws a r ws' a' w' :
  quiet router -> keeps "Access-Control-Allow-Origin" router -> keeps "X-Request-Id" router ->
  wire allowOrigins rps burst router (ws, a) wr0 r = Some (ws', a', w') ->
  wr_header w' !! "Access-Control-Allow-Origin" = allowed_origin allowOrigins (HeaderGet r "Origin")
  /\ wr_header w' !! "X-Request-Id" = Some [request_id r]
  /\ ws_log ws' = ws_log ws ++ [mkLine (log_level (status_of w')) (request_id r) (rq_Method r) (status_of w') (rq_RemoteAddr r)]
  /\ (rq_Method r = "OPTIONS" -> a' = a /\ status_of w' = 200%N /\ sent_status w' = 200%N /\ ws_classes ws' = ws_classes ws /\ ws_buckets ws' = ws_buckets ws)
  /\ (rq_Method r <> "OPTIONS" -> counted (ws_classes ws) (ws_classes ws') (status_of w') /\ timed (ws_hist ws) (ws_hist ws') (rq_ms r)).
Proof.
  intros Hq Hk Hi. unfold wire, RequestID. fold (request_id r). set (w1 := HeaderSet wr0 "X-Request-Id" (request_id r)).
  unfold AccessLog. destruct (CORS _ _ _ _ _) as [[[ws1 a1] w2]|] eqn:Ec; [|done]. cbn [rq_ReqID with_ReqID rq_Method rq_RemoteAddr].
  intros [= <- <- <-]. cbn [with_log ws_log ws_classes ws_hist ws_buckets].
  unfold CORS in Ec. cbn [rq_Method with_ReqID] in Ec. change (HeaderGet (with_ReqID r (request_id r)) "Origin") with (HeaderGet r "Origin") in Ec.
  destruct (cors_origin_spec allowOrigins (HeaderGet r "Origin") w1 eq_refl) as (H0 & H1 & H2).
  set (w3 := cors_origin _ _ _) in *. destruct (String.eqb_spec (rq_Method r) "OPTIONS") as [Ho|Ho].
  - injection Ec as <- <- <-. split_and!; try done; try (cbn; by rewrite !lookup_insert_ne). intros _. unfold status_of, sent_status. cbn. rewrite H2. done.
  - assert (Hkeep : forall name, name = "Access-Control-Allow-Origin" \/ name = "X-Request-Id" -> wr_header w2 !! name = wr_header w3 !! name).
    { intros name Hn. assert (Hkr : keeps name router) by (by destruct Hn as [->| ->]).
      apply (keeps_HTTPMetrics name _ (keeps_RateLimit name rps burst router ltac:(by destruct Hn as [->| ->]) ltac:(by destruct Hn as [->| ->]) Hkr)) in Ec.
      rewrite Ec. by destruct Hn as [->| ->]; rewrite !keeps_set. }
    split_and!; [rewrite Hkeep by auto; exact H0|rewrite Hkeep by auto; exact H1| |done|].
    all: unfold HTTPMetrics in Ec; destruct (RateLimit _ _ _ _ _ _) as [[[ws2 a2] w4]|] eqn:Er; [|done];
      apply (quiet_RateLimit rps burst router Hq) in Er as (Q1 & Q2 & Q3).
    + destruct (ws_classes ws2) as [c|]; [destruct (RecordHTTPStatus _ _) as [c'|]; [|done]|]; injection Ec as <- <- <-; cbn; by rewrite Q1.
    + intros _. unfold counted, timed. rewrite <-Q2, <-Q3. destruct (ws_classes ws2) as [c|].
      * unfold RecordHTTPStatus in Ec. destruct (_ <? _); [|done]. injection Ec as <- <- <-. done.
      * injection Ec as <- <- <-. done.
Qed.
