(* ===== verification/Router.v ===== *)
(** * The HTTP server ([api/server.go], [api/handlers_infra.go],
      [api/handlers_scenario.go])

    The endpoints that look into the system or administrate it, the routes
    with the endpoints of [Api], and the middleware of [Middleware] around
    them. Which route a path belongs to is the router library's business: a
    request comes with its route and its parameters. A request for one of
    the two streams comes with what the stream carried until the client went
    or the server stopped; how the event bus delivers it is in [Sse].

    [admin_gate] shows what the chain protects. *)

From Stdlib Require Import ZArith NArith Lia Strings.Byte String Floats.SpecFloat.
From stdpp Require Import base tactics numbers list gmap strings pretty.
From S2P Require Import Prelude Types Lock Acquire Deadlock Storage Mvcc WalRecord Wal Ssi Txn TxnInv Raft RaftFsm Api Scenario Metrics Jobs Middleware.

(** ** Requests *)

Record ScenarioRunRequest := mkScenReq { sr_Protocol : string; sr_Isolation : string }.

(** The routes of setupRouter, with the URL parameters, the decoded body and
    the inputs that the handler draws from its environment. *)
Inductive Route :=
| RHealthz | RReadyz
| RBegin (body : Decoded BeginRequest)
| RCommit (id : string)
| RAbort (id : string)
| RStatus (id : string)
| RActive
| RRead (id : string) (body : Decoded RowOpRequest)
| RWrite (id : string) (body : Decoded RowOpRequest)
| RScan (id : string) (body : Decoded ScanRequest)
| RInsert (id : string) (body : Decoded RowOpRequest)
| RDelete (id : string) (body : Decoded RowOpRequest)
| RSavepoint (id : string) (body : Decoded SavepointRequest)
| RRollbackTo (id : string) (body : Decoded SavepointRequest)
| RReleaseSavepoint (id name : string)
| RLocks
| RLockByResource (table key : string)
| RDeadlocks
| RWFG
| RVersionChain (table key : string)
| RMVCCStats
| RVacuum
| RMetrics
| RReset
| RListScenarios
| RRunScenario (name : string) (body : Decoded ScenarioRunRequest) (sched : list Event)
| RBenchmarkRun (body : Decoded BenchmarkRunRequest) (jobID : string)
| RBenchmarkResults (jobID : string)
| RSSEEvents (stream : option (list (string * string)))   (* [None]: no place on the bus *)
| RSSEWFG (ticks : list (list N * list (N * N)))          (* the graph at each tick *)
| RNotFound.

(** ** Answers *)

(** A lock request as it is shown: transaction, mode, status. *)
Notation LockRow := (N * string * string)%type.

Record StepDTO := mkDTO { sd_TxnLabel : string; sd_Op : string; sd_Table : string; sd_Key : string; sd_Result : StepResult; sd_Error : string; sd_Note : string }.

Inductive AppBody :=
| ABApi (b : Body)
| ABStatus (status : string)
| ABLocks (queues : list (string * list LockRow * list LockRow))
| ABLock (resource : string) (granted waiting : list LockRow)
| ABDeadlocks (records : list DeadlockRecord)
| ABWFG (nodes : list N) (edges : list (N * N))
| ABVersions (table key : string) (versions : list (N * N * Values))
| ABNote (note : string)
| ABStats (totalChains totalVersions : nat) (pruned runs : N)
| ABOk (message : string)
| ABEmpty
| ABMetrics (ops : Metrics) (vacuumRuns : N) (classes : list Z)
| ABScenarios (infos : list (string * string * AnomalyType))
| ABScenario (res : Result) (isolation protocol : string) (steps : list StepDTO)
| ABJob (r : JobResponse)
| ABEvents (events : list (string * string))
| ABGraphs (graphs : list (list N * list (N * N))).

Section Router.
Context {W : Type} `{WALWriter W}.

(** What the handlers change. The history, the vacuum and the counters are
    optional parts of the server; [ap_vacuum] has the runs of the vacuum and
    the versions it removed. *)
Record App := mkApp {
  ap_srv : Server (@LockSt WaitForGraph) W;
  ap_wfg : bool;
  ap_history : option History;
  ap_vacuum : option (N * N);
  ap_vacuumRuns : N;
  ap_jobs : Jobs;
  ap_ready : bool;
}.

Notation AppHandler := (@Handler App Route AppBody).
Notation Resp := (Writer AppBody).

Definition with_srv (a : App) (s : Server (@LockSt WaitForGraph) W) : App :=
  mkApp s (ap_wfg a) (ap_history a) (ap_vacuum a) (ap_vacuumRuns a) (ap_jobs a) (ap_ready a).
Definition with_jobs (a : App) (j : Jobs) : App := mkApp (ap_srv a) (ap_wfg a) (ap_history a) (ap_vacuum a) (ap_vacuumRuns a) j (ap_ready a).

Definition okJSON_w (w : Resp) (b : AppBody) : Resp := WriteBody (HeaderSet w "Content-Type" "application/json") (Json b).
Definition errResponse_w (w : Resp) (code : N) (msg : string) : Resp :=
  WriteBody (WriteHeader (HeaderSet w "Content-Type" "application/json") code) (Json (ABApi (BError msg))).

(** The answer of a handler of [Api]: a 200 is not written out. *)
Definition reply (w : Resp) (r : Response) : Resp :=
  if (r_code r =? 200)%N then okJSON_w w (ABApi (r_body r))
  else WriteBody (WriteHeader (HeaderSet w "Content-Type" "application/json") (r_code r)) (Json (ABApi (r_body r))).

Definition api_handler (f : Server (@LockSt WaitForGraph) W -> option (Server (@LockSt WaitForGraph) W * Response)) : AppHandler := fun '(ws, a) w _ =>
  match f (ap_srv a) with Some (s, r) => Some (ws, with_srv a s, reply w r) | None => None end.

Definition api_read (f : Server (@LockSt WaitForGraph) W -> Response) : AppHandler := fun '(ws, a) w _ => Some (ws, a, reply w (f (ap_srv a))).

(** ** Health *)

Definition handleHealthz : AppHandler := fun s w _ => Some (s, WriteBody (WriteHeader (HeaderSet w "Content-Type" "application/json") 200) (Json (ABStatus "ok"))).

Definition handleReadyz : AppHandler := fun '(ws, a) w _ =>
  let w := HeaderSet w "Content-Type" "application/json" in
  if negb (ap_ready a) || (length (Storage.List (m_Catalog (sv_mgr (ap_srv a)))) =? 0)
  then Some (ws, a, WriteBody (WriteHeader w 503) (Json (ABStatus "not ready")))
  else Some (ws, a, WriteBody (WriteHeader w 200) (Json (ABStatus "ready"))).

(** ** handlers_infra.go *)

Definition Status_String (s : Status) : string :=
  match s with StatusGranted => "granted" | StatusWaiting => "waiting" | StatusConverting => "converting" end.

Definition lock_rows (l : list (N * Mode * Status)) : list LockRow := (fun '(t, m, s) => (t, Mode_String m, Status_String s)) <$> l.

Definition handleLocks : AppHandler := fun '(ws, a) w _ =>
  let snaps := Table_Snapshot (m_locks (sv_mgr (ap_srv a))) in
  Some (ws, a, okJSON_w w (ABLocks ((fun q => (ResourceID_String (qs_Resource q), lock_rows (qs_Granted q), lock_rows (qs_Waiting q))) <$> snaps))).

Definition handleLockByResource (table key : string) : AppHandler := fun '(ws, a) w _ =>
  let res := ResourceForRow table key in
  match Table_Get (m_locks (sv_mgr (ap_srv a))) res with
  | None => Some (ws, a, okJSON_w w (ABLock (ResourceID_String res) [] []))
  | Some q =>
      let snap := Queue_Snapshot q in
      Some (ws, a, okJSON_w w (ABLock (ResourceID_String (qs_Resource snap)) (lock_rows (qs_Granted snap)) (lock_rows (qs_Waiting snap))))
  end.

Definition handleReset : AppHandler := fun '(ws, a) w _ =>
  Some (ws, with_srv a (with_mgr (ap_srv a) (Reset (sv_mgr (ap_srv a)))), okJSON_w w (ABOk "database reset and reseeded")).

Definition handleDeadlocks : AppHandler := fun '(ws, a) w _ =>
  Some (ws, a, okJSON_w w (ABDeadlocks (match ap_history a with Some h => h_records h | None => [] end))).

Definition handleWFG : AppHandler := fun '(ws, a) w _ =>
  let g := ls_wfg (m_locks (sv_mgr (ap_srv a))) in
  Some (ws, a, okJSON_w w (if ap_wfg a then ABWFG (Nodes g) (Edges g) else ABWFG [] [])).

(** The values of a version are shown as text; the model keeps them. *)
Definition handleVersionChain (table key : string) : AppHandler := fun '(ws, a) w _ =>
  match GetChain (m_MVCCStore (sv_mgr (ap_srv a))) table key with
  | None => Some (ws, a, errResponse_w w 404 "version chain not found")
  | Some chain => Some (ws, a, okJSON_w w (ABVersions table key ((fun v => (ver_XMin v, ver_XMax v, ver_Data v)) <$> ch_versions chain)))
  end.

Definition handleMVCCStats : AppHandler := fun '(ws, a) w _ =>
  match ap_vacuum a with
  | None => Some (ws, a, okJSON_w w (ABNote "vacuum not configured"))
  | Some (runs, pruned) =>
      let (chains, versions) := Vacuum_Stats (m_MVCCStore (sv_mgr (ap_srv a))) in
      Some (ws, a, okJSON_w w (ABStats chains versions pruned runs))
  end.

Definition handleVacuum : AppHandler := fun '(ws, a) w _ =>
  match ap_vacuum a with
  | None => Some (ws, a, errResponse_w w 503 "vacuum not configured")
  | Some (runs, pruned) =>
      let m := sv_mgr (ap_srv a) in
      let removed := (pruneVersions m (OldestActiveTxnID m) (m_MVCCStore m)).2 in
      let a := mkApp (with_mgr (ap_srv a) (Vacuum_RunOnce m)) (ap_wfg a) (ap_history a) (Some ((runs + 1)%N, (pruned + N.of_nat removed)%N))
                 (match sv_m (ap_srv a) with Some _ => ap_vacuumRuns a + 1 | None => ap_vacuumRuns a end)%N (ap_jobs a) (ap_ready a) in
      Some (ws, a, okJSON_w w (ABOk "vacuum completed"))
  end.

(** The counters that the server moves itself; those of the manager's
    callbacks are not modelled. *)
Definition handleMetrics : AppHandler := fun '(ws, a) w _ =>
  match sv_m (ap_srv a) with
  | None => Some (ws, a, okJSON_w w ABEmpty)
  | Some m => Some (ws, a, okJSON_w w (ABMetrics m (ap_vacuumRuns a) (default [] (ws_classes ws))))
  end.

(** ** handlers_scenario.go *)

Definition handleListScenarios : AppHandler := fun '(ws, a) w _ =>
  Some (ws, a, okJSON_w w (ABScenarios ((fun s => (ScenarioName s, Describe s, s)) <$> Registry_All NewRegistry))).

Definition step_dto (st : Step) : StepDTO :=
  mkDTO (sp_TxnLabel st) (sp_Op st) (sp_Table st) (sp_Key st) (sp_Result st)
    (match sp_Error st with Some e => (errToPublicResponse e).2 | None => "" end) (sp_Note st).

(** What the reporter of NewServerWithConfig adds. *)
Definition report_deadlock (a : App) (now : Z) (report : option (N * list N)) : App :=
  match ap_history a, report with
  | Some h, Some (victim, cycle) =>
      mkApp (ap_srv a) (ap_wfg a) (Some (History_Add h (mkRecord ("dl-scenario-" +:+ pretty now) cycle victim "scenario-detected")))
        (ap_vacuum a) (ap_vacuumRuns a) (ap_jobs a) (ap_ready a)
  | _, _ => a
  end.

Definition run_scenario (s : AnomalyType) (iso : IsolationLevel) (p : ConcurrencyProtocol) (sched : list Event) : option (Result * option (N * list N)) :=
  match s with
  | DeadlockCycle => (fun x => (x.1.2, x.2)) <$> DeadlockCycle_Run iso p sched
  | _ => (fun x => (x.2, None)) <$> Scenario_Run s iso p sched
  end.

(** [None]: [sched] is not a schedule of the scenario. *)
Definition handleRunScenario (name : string) (body : Decoded ScenarioRunRequest) (sched : list Event) : AppHandler := fun '(ws, a) w r =>
  match Registry_Get NewRegistry name with
  | None => Some (ws, a, errResponse_w w 404 "scenario not found")
  | Some sc =>
      match decodeJSON body (mkScenReq "" "") true with
      | Err e => Some (ws, a, reply w e)
      | Ok req =>
          match protocolFromString (sr_Protocol req) with
          | Err _ => Some (ws, a, errResponse_w w 400 "unknown protocol")
          | Ok protocol =>
              match isolationFromString (sr_Isolation req) with
              | Err _ => Some (ws, a, errResponse_w w 400 "unknown isolation level")
              | Ok isolation =>
                  match run_scenario sc isolation protocol sched with
                  | None => None
                  | Some (result, report) =>
                      Some (ws, report_deadlock a (rq_now r) report,
                            okJSON_w w (ABScenario result (sr_Isolation req) (sr_Protocol req) (step_dto <$> rs_Steps result)))
                  end
              end
          end
      end
  end.

Definition job_reply (w : Resp) (j : JobResponse) : Resp :=
  match j with
  | JError r => reply w r
  | JRetry after r => reply (HeaderSet w "Retry-After" (pretty after)) r
  | _ => okJSON_w w (ABJob j)
  end.

Definition benchmark_run (body : Decoded BenchmarkRunRequest) (jobID : string) : AppHandler := fun '(ws, a) w r =>
  let (jobs, j) := handleBenchmarkRun finished (ap_jobs a) body (rq_now r) jobID in Some (ws, with_jobs a jobs, job_reply w j).

Definition benchmark_results (jobID : string) : AppHandler := fun '(ws, a) w _ => Some (ws, a, job_reply w (handleBenchmarkResults (ap_jobs a) jobID)).

(** ** Streams *)

Definition stream_headers (w : Resp) : Resp :=
  HeaderSet (HeaderSet (HeaderSet w "Content-Type" "text/event-stream") "Cache-Control" "no-cache") "Connection" "keep-alive".

(** The writer of the middleware can flush. The events are those whose data
    could be written as JSON; the handler ends when the client goes or the
    server stops. *)
Definition handleSSEEvents (stream : option (list (string * string))) : AppHandler := fun s w _ =>
  let w := stream_headers w in
  match stream with
  | None => Some (s, errResponse_w (HeaderSet w "Retry-After" "1") 503 "SSE subscriber limit reached")
  | Some events => Some (s, WriteBody w (Json (ABEvents events)))
  end.

Definition handleSSEWFG (ticks : list (list N * list (N * N))) : AppHandler := fun '(ws, a) w _ =>
  Some (ws, a, WriteBody (stream_headers w) (Json (ABGraphs (if ap_wfg a then ticks else [])))).

(** ** The router *)

Record ServerConfig := mkCfg { sc_CORSAllowOrigins : list string; sc_AdminToken : string }.

Definition RateLimitRPS : spec_float := f64 0.

Definition routes (cfg : ServerConfig) : AppHandler := fun s w r =>
  let admin := AdminToken (sc_AdminToken cfg) in
  let h : AppHandler :=
    match rq_payload r with
    | RHealthz => handleHealthz
    | RReadyz => handleReadyz
    | RBegin body => api_handler (fun s => handleBegin s body)
    | RCommit id => api_handler (fun s => handleCommit s id)
    | RAbort id => api_handler (fun s => handleAbort s id)
    | RStatus id => api_read (fun s => handleStatus s id)
    | RActive => api_read handleActive
    | RRead id body => api_handler (fun s => handleRead s id body)
    | RWrite id body => api_handler (fun s => handleWrite s id body)
    | RScan id body => api_handler (fun s => handleScan s id body)
    | RInsert id body => api_handler (fun s => handleInsert s id body)
    | RDelete id body => api_handler (fun s => handleDelete s id body)
    | RSavepoint id body => api_handler (fun s => Some (handleSavepoint s id body))
    | RRollbackTo id body => api_handler (fun s => Some (handleRollbackTo s id body))
    | RReleaseSavepoint id name => api_handler (fun s => Some (handleReleaseSavepoint s id name))
    | RLocks => handleLocks
    | RLockByResource table key => handleLockByResource table key
    | RDeadlocks => handleDeadlocks
    | RWFG => handleWFG
    | RVersionChain table key => handleVersionChain table key
    | RMVCCStats => handleMVCCStats
    | RVacuum => admin handleVacuum
    | RMetrics => handleMetrics
    | RReset => admin handleReset
    | RListScenarios => handleListScenarios
    | RRunScenario name body sched => admin (handleRunScenario name body sched)
    | RBenchmarkRun body jobID => admin (benchmark_run body jobID)
    | RBenchmarkResults jobID => benchmark_results jobID
    | RSSEEvents stream => handleSSEEvents stream
    | RSSEWFG ticks => handleSSEWFG ticks
    | RNotFound => fun s w _ => Some (s, HttpError w "404 page not found" 404)
    end in
  h s w r.

(** [setupRouter]. *)
Definition ServeHTTP (cfg : ServerConfig) : AppHandler := wire (sc_CORSAllowOrigins cfg) RateLimitRPS RateLimitBurst (routes cfg).

(** ** What handlers leave alone *)

(** A handler that keeps the middleware's state and writes no headers but
    the type of the answer, the hint to retry and those of a stream. *)
Definition framed (h : AppHandler) : Prop :=
  forall ws a w r ws' a' w', h (ws, a) w r = Some (ws', a', w') ->
    ws' = ws /\ forall name, name <> "Content-Type" -> name <> "Retry-After" -> name <> "Cache-Control" -> name <> "Connection" -> wr_header w' !! name = wr_header w !! name.

Lemma header_okJSON (w : Resp) b name : name <> "Content-Type" -> wr_header (okJSON_w w b) !! name = wr_header w !! name.
Proof. intros Hn. cbn. by rewrite lookup_insert_ne. Qed.

Lemma header_errResponse (w : Resp) c m name : name <> "Content-Type" -> wr_header (errResponse_w w c m) !! name = wr_header w !! name.
Proof. intros Hn. cbn. by rewrite lookup_insert_ne. Qed.

Lemma header_reply (w : Resp) r name : name <> "Content-Type" -> wr_header (reply w r) !! name = wr_header w !! name.
Proof. intros Hn. unfold reply. destruct (_ =? _)%N; cbn; by rewrite lookup_insert_ne. Qed.

Lemma header_job (w : Resp) j name : name <> "Content-Type" -> name <> "Retry-After" -> wr_header (job_reply w j) !! name = wr_header w !! name.
Proof.
  intros Hc Hr. destruct j; cbn [job_reply]; rewrite ?header_reply, ?header_okJSON by done; try done. by apply keeps_set.
Qed.

Lemma header_set (w : Resp) v c b name : name <> "Content-Type" -> wr_header (WriteBody (WriteHeader (HeaderSet w "Content-Type" v) c) b) !! name = wr_header w !! name.
Proof. intros Hn. cbn. by rewrite lookup_insert_ne. Qed.

Lemma framed_api f : framed (api_handler f).
Proof.
  intros ws a w r ws' a' w'. unfold api_handler. destruct (f (ap_srv a)) as [[s resp]|]; [|done]. intros [= <- _ <-]. split; [done|].
  intros name Hc _ _ _. by apply header_reply.
Qed.

Lemma framed_api_read f : framed (api_read f).
Proof. intros ws a w r ws' a' w' [= <- _ <-]. split; [done|]. intros name Hc _ _ _. by apply header_reply. Qed.

Lemma framed_admin token h : framed h -> framed (AdminToken token h).
Proof.
  intros Hf ws a w r ws' a' w'. unfold AdminToken.
  destruct (String.eqb token ""); [|destruct (_ || _); [|by apply Hf]]; intros [= <- _ <-]; (split; [done|]); intros name Hc _ _ _; by apply (header_set w).
Qed.

Ltac framed_cases h :=
  intros ws a w r ws' a' w'; unfold h; repeat case_match; try discriminate; intros [= <- _ <-]; (split; [reflexivity|]);
  let nm := fresh "nm" in intros nm Hc Hr _ _; first [by apply header_okJSON|by apply header_errResponse|by apply (header_set w)].

Lemma framed_infra :
  framed handleHealthz /\ framed handleReadyz /\ framed handleLocks /\ framed handleDeadlocks /\ framed handleWFG
  /\ framed handleMVCCStats /\ framed handleMetrics /\ framed handleListScenarios /\ framed handleVacuum /\ framed handleReset.
Proof.
  split_and!; [framed_cases handleHealthz|framed_cases handleReadyz|framed_cases handleLocks|framed_cases handleDeadlocks|framed_cases handleWFG
    |framed_cases handleMVCCStats|framed_cases handleMetrics|framed_cases handleListScenarios|framed_cases handleVacuum|framed_cases handleReset].
Qed.

Lemma framed_of_row table key : framed (handleLockByResource table key) /\ framed (handleVersionChain table key).
Proof. split; [framed_cases handleLockByResource|framed_cases handleVersionChain]. Qed.

Lemma framed_scenario name body sched : framed (handleRunScenario name body sched).
Proof.
  intros ws a w r ws' a' w'. unfold handleRunScenario. destruct (Registry_Get _ _) as [sc|]; [|intros [= <- _ <-]; split; [done|]; intros; by apply header_errResponse].
  destruct (decodeJSON _ _ _) as [req|e]; [|intros [= <- _ <-]; split; [done|]; intros; by apply header_reply].
  destruct (protocolFromString _) as [p|e]; [|intros [= <- _ <-]; split; [done|]; intros; by apply header_errResponse].
  destruct (isolationFromString _) as [iso|e]; [|intros [= <- _ <-]; split; [done|]; intros; by apply header_errResponse].
  destruct (run_scenario _ _ _ _) as [[res rep]|]; [|done]. intros [= <- _ <-]. split; [done|]. intros. by apply header_okJSON.
Qed.

Lemma framed_run body id : framed (benchmark_run body id).
Proof.
  intros ws a w r ws' a' w'. unfold benchmark_run. destruct (handleBenchmarkRun _ _ _ _ _) as [jobs j]. intros [= <- _ <-].
  split; [done|]. intros. by apply header_job.
Qed.

Lemma framed_results id : framed (benchmark_results id).
Proof. intros ws a w r ws' a' w' [= <- _ <-]. split; [done|]. intros. by apply header_job. Qed.

Lemma framed_streams stream ticks : framed (handleSSEEvents stream) /\ framed (handleSSEWFG ticks).
Proof.
  split; intros ws a w r ws' a' w'; [unfold handleSSEEvents; destruct stream|unfold handleSSEWFG]; intros [= <- _ <-];
    (split; [done|]); intros name H1 H2 H3 H4; cbn; by rewrite !lookup_insert_ne.
Qed.

Lemma framed_notfound : framed (fun s w _ => Some (s, HttpError w "404 page not found" 404)).
Proof. intros ws a w r ws' a' w' [= <- _ <-]. split; [done|]. intros name Hc _ _ _. cbn. by rewrite lookup_insert_ne. Qed.

Lemma framed_routes cfg : framed (routes cfg).
Proof.
  intros ws a w r ws' a' w'. unfold routes. destruct (rq_payload r);
    first [apply (framed_api _ ws a w r ws' a' w')|apply (framed_api_read _ ws a w r ws' a' w')|apply (framed_notfound ws a w r ws' a' w')|apply framed_results|apply framed_infra|apply (framed_streams None)|apply (framed_streams _ [])|apply framed_of_row
          |apply framed_admin; first [apply framed_run|apply framed_scenario|apply framed_infra]].
Qed.

Lemma routes_quiet cfg : quiet (routes cfg).
Proof. intros ws a w r ws' a' w' He. by apply framed_routes in He as [-> _]. Qed.

Lemma routes_keep cfg name :
  name <> "Content-Type" -> name <> "Retry-After" -> name <> "Cache-Control" -> name <> "Connection" -> keeps name (routes cfg).
Proof. intros H1 H2 H3 H4 [ws a] w r [ws' a'] w' He. apply framed_routes in He as [_ Hk]. by apply Hk. Qed.

(** ** What is protected *)

(** The routes behind the admin token. *)
Definition gated (r : Route) : bool := match r with RVacuum | RReset | RRunScenario _ _ _ | RBenchmarkRun _ _ => true | _ => false end.

(** The routes of GET requests. *)
Definition safe (r : Route) : bool :=
  match r with
  | RHealthz | RReadyz | RStatus _ | RActive | RLocks | RLockByResource _ _ | RDeadlocks | RWFG | RVersionChain _ _ | RMVCCStats | RMetrics
  | RListScenarios | RBenchmarkResults _ | RSSEEvents _ | RSSEWFG _ | RNotFound => true
  | _ => false
  end.

Definition refusal (token : string) : N := if String.eqb token "" then 403 else 401.

Definition authorised (token : string) (r : Req Route) : bool := negb (String.eqb token "") && String.eqb (HeaderGet r "X-Admin-Token") token.

Lemma AdminToken_refuses token (h : AppHandler) s w r :
  authorised token r = false -> wr_status w = None -> exists w', AdminToken token h s w r = Some (s, w') /\ sent_status w' = refusal token.
Proof.
  unfold authorised, AdminToken, refusal. intros Ha Hw. destruct (String.eqb_spec token "") as [->|Ht]; [eexists; split; [done|]; unfold sent_status; cbn; by rewrite Hw|].
  cbn [negb andb] in Ha. rewrite Ha. rewrite orb_true_r. eexists. split; [done|]. unfold sent_status. cbn. by rewrite Hw.
Qed.

Lemma AdminToken_passes token (h : AppHandler) s w r : authorised token r = true -> AdminToken token h s w r = h s w r.
Proof.
  unfold authorised, AdminToken. intros [Ht%negb_true_iff Hg]%andb_true_iff. rewrite Ht, Hg.
  apply String.eqb_eq in Hg. rewrite Hg, Ht. done.
Qed.

Lemma routes_gated cfg ws a w r :
  gated (rq_payload r) = true -> authorised (sc_AdminToken cfg) r = false -> wr_status w = None ->
  exists w', routes cfg (ws, a) w r = Some (ws, a, w') /\ sent_status w' = refusal (sc_AdminToken cfg).
Proof. unfold routes. intros Hg Ha Hw. destruct (rq_payload r); try discriminate Hg; by apply AdminToken_refuses. Qed.

(** The handlers behind the token. *)
Definition behind (r : Route) : AppHandler :=
  match r with
  | RVacuum => handleVacuum
  | RReset => handleReset
  | RRunScenario name body sched => handleRunScenario name body sched
  | RBenchmarkRun body jobID => benchmark_run body jobID
  | _ => fun s w _ => Some (s, w)
  end.

Lemma routes_passes cfg s w r :
  gated (rq_payload r) = true -> authorised (sc_AdminToken cfg) r = true -> routes cfg s w r = behind (rq_payload r) s w r.
Proof. unfold routes, behind. intros Hg Ha. destruct (rq_payload r); try discriminate Hg; by apply AdminToken_passes. Qed.

(** A handler that only looks. *)
Definition reads (h : AppHandler) : Prop := forall ws a w r, exists w', h (ws, a) w r = Some (ws, a, w').

Ltac reads_cases h := intros ws a w r; unfold h; repeat case_match; eexists; reflexivity.

Lemma reads_infra : reads handleHealthz /\ reads handleReadyz /\ reads handleLocks /\ reads handleDeadlocks /\ reads handleWFG
  /\ reads handleMVCCStats /\ reads handleMetrics /\ reads handleListScenarios.
Proof.
  split_and!; [reads_cases handleHealthz|reads_cases handleReadyz|reads_cases handleLocks|reads_cases handleDeadlocks|reads_cases handleWFG
    |reads_cases handleMVCCStats|reads_cases handleMetrics|reads_cases handleListScenarios].
Qed.

Lemma reads_of_row table key : reads (handleLockByResource table key) /\ reads (handleVersionChain table key).
Proof. split; [reads_cases handleLockByResource|reads_cases handleVersionChain]. Qed.

Lemma reads_streams stream ticks : reads (handleSSEEvents stream) /\ reads (handleSSEWFG ticks).
Proof. split; [reads_cases handleSSEEvents|reads_cases handleSSEWFG]. Qed.

Lemma routes_safe cfg ws a w r : safe (rq_payload r) = true -> exists w', routes cfg (ws, a) w r = Some (ws, a, w').
Proof.
  unfold routes. intros Hs. destruct (rq_payload r); try discriminate Hs;
    first [apply reads_infra|apply reads_of_row|apply (reads_streams _ [])|apply (reads_streams None)|by eexists].
Qed.

(** The class counters are six. *)
Definition wire_ok (ws : WireState) : Prop := match ws_classes ws with Some c => length c = 6 | None => True end.

Lemma HTTPMetrics_answers (next : AppHandler) ws a w r a' w' :
  wire_ok ws -> next (ws, a) w r = Some (ws, a', w') -> exists ws', HTTPMetrics next (ws, a) w r = Some (ws', a', w').
Proof.
  unfold wire_ok, HTTPMetrics. intros Hok ->. destruct (ws_classes ws) as [c|]; [|by eexists]. unfold RecordHTTPStatus. rewrite Hok.
  pose proof (status_class_bound (Z.of_N (status_of w'))). destruct (Nat.ltb_spec (status_class (Z.of_N (status_of w'))) 6); [by eexists|lia].
Qed.

Lemma ServeHTTP_answers cfg ws a r (ok : Resp -> Prop) :
  wire_ok ws -> rq_Method r <> "OPTIONS" ->
  (forall w r', wr_status w = None -> rq_payload r' = rq_payload r -> rq_Header r' = rq_Header r -> exists w', routes cfg (ws, a) w r' = Some (ws, a, w') /\ ok w') ->
  exists ws' w', ServeHTTP cfg (ws, a) wr0 r = Some (ws', a, w') /\ ok w'.
Proof.
  intros Hok Hm Hr. unfold ServeHTTP, wire, RequestID, AccessLog, CORS. unfold RateLimitRPS. rewrite rate_off.
  cbn [rq_Method with_ReqID]. rewrite (proj2 (String.eqb_neq _ _) Hm).
  match goal with |- context [HTTPMetrics _ _ ?w ?r'] => destruct (Hr w r') as (w' & Hw & Hs); [|done|done|] end.
  - cbn. by rewrite cors_status.
  - destruct (HTTPMetrics_answers _ _ _ _ _ _ _ Hok Hw) as (ws' & ->). by do 2 eexists.
Qed.

Lemma ServeHTTP_preflight cfg ws a r : rq_Method r = "OPTIONS" -> exists ws' w', ServeHTTP cfg (ws, a) wr0 r = Some (ws', a, w') /\ sent_status w' = 200%N.
Proof.
  intros Hm. unfold ServeHTTP, wire, RequestID, AccessLog, CORS. cbn [rq_Method with_ReqID]. rewrite Hm. do 2 eexists. split; [done|].
  unfold sent_status. cbn. by rewrite cors_status.
Qed.
End Router.
Arguments App : clear implicits.

(** ** Properties *)

(** C16. The admin token protects the reset of the database, the vacuum, the
    scenarios and the benchmark: a request for one of them that does not
    carry the configured token is answered with 401, or with 403 when no
    token is configured, and changes nothing behind the middleware; with
    the token it reaches its handler. Neither does any GET request, the two
    streams included, nor a preflight of any route. *)
Theorem admin_gate {W} `{WALWriter W} cfg ws (a : App W) r :
  wire_ok ws ->
  (gated (rq_payload r) = true -> authorised (sc_AdminToken cfg) r = false -> rq_Method r <> "OPTIONS" ->
     exists ws' w', ServeHTTP cfg (ws, a) wr0 r = Some (ws', a, w') /\ sent_status w' = refusal (sc_AdminToken cfg))
  /\ (safe (rq_payload r) = true \/ rq_Method r = "OPTIONS" -> exists ws' w', ServeHTTP cfg (ws, a) wr0 r = Some (ws', a, w'))
  /\ (gated (rq_payload r) = true -> authorised (sc_AdminToken cfg) r = true -> forall w, routes cfg (ws, a) w r = behind (rq_payload r) (ws, a) w r).
Proof.
  intros Hok. split_and!.
  - intros Hg Ha Hm. apply (ServeHTTP_answers cfg ws a r (fun w' => sent_status w' = refusal (sc_AdminToken cfg))); [done|done|].
    intros w r' Hw Hp Hh. apply routes_gated; [by rewrite Hp| |done]. unfold authorised, HeaderGet in *. by rewrite Hh.
  - intros [Hs|Hm].
    + destruct (decide (rq_Method r = "OPTIONS")) as [Hm|Hm]; [destruct (ServeHTTP_preflight cfg ws a r Hm) as (ws' & w' & He & _); eauto|].
      destruct (ServeHTTP_answers cfg ws a r (fun _ => True) Hok Hm) as (ws' & w' & He & _); [|eauto].
      intros w r' _ Hp _. destruct (routes_safe cfg ws a w r') as [w' He]; [by rewrite Hp|eauto].
    + destruct (ServeHTTP_preflight cfg ws a r Hm) as (ws' & w' & He & _). eauto.
  - intros Hg Ha w. by apply routes_passes.
Qed.

Module RouterRun.
Definition mgr0 : Mgr (@LockSt WaitForGraph) unit := boot (lock_init NewWaitForGraph) (SeedCatalog NewCatalog) MaxActiveTxns None.
Definition app0 : App unit := mkApp (mkServer mgr0 None (Some (mkMetrics 0 0 0 0))) true (Some NewHistory) (Some (0%N, 0%N)) 0 ∅ true.
Definition ws0 : WireState := mkWire [] (Some NewClasses) (Some (NewHistogram bench_buckets)) ∅ 0.
Definition cfg0 : ServerConfig := mkCfg ["https://ui.example"] "0123456789abcdef".
Definition reset (headers : gmap string string) : Req Route := mkReq "POST" headers "10.0.0.1:5000" "" 0 3 "00" RReset.
Definition from_ui : gmap string string := {["Origin" := "https://ui.example"]}.
End RouterRun.

Lemma admin_gate_witness :
  exists ws' w', ServeHTTP RouterRun.cfg0 (RouterRun.ws0, RouterRun.app0) wr0 (RouterRun.reset {["X-Admin-Token" := "guess"]}) = Some (ws', RouterRun.app0, w')
    /\ sent_status w' = 401%N.
Proof.
  exact (proj1 (admin_gate RouterRun.cfg0 RouterRun.ws0 RouterRun.app0 (RouterRun.reset {["X-Admin-Token" := "guess"]}) eq_refl) eq_refl eq_refl ltac:(discriminate)).
Defined.

Lemma RouterRun_refused headers :
  authorised (sc_AdminToken RouterRun.cfg0) (RouterRun.reset headers) = false ->
  exists ws' w', ServeHTTP RouterRun.cfg0 (RouterRun.ws0, RouterRun.app0) wr0 (RouterRun.reset headers) = Some (ws', RouterRun.app0, w') /\ True.
Proof.
  intros Ha. apply ServeHTTP_answers; [done|discriminate|]. intros w r' Hw Hp Hh.
  destruct (routes_gated RouterRun.cfg0 RouterRun.ws0 RouterRun.app0 w r') as (w' & He & _); [by rewrite Hp| |done|eauto].
  unfold authorised, HeaderGet in *. by rewrite Hh.
Qed.

Lemma wire_policy_witness :
  exists ws' a' w', ServeHTTP RouterRun.cfg0 (RouterRun.ws0, RouterRun.app0) wr0 (RouterRun.reset RouterRun.from_ui) = Some (ws', a', w')
    /\ wr_header w' !! "Access-Control-Allow-Origin" = Some ["https://ui.example"].
Proof.
  destruct (RouterRun_refused RouterRun.from_ui eq_refl) as (ws' & w' & He & _). exists ws', RouterRun.app0, w'. split; [exact He|].
  unfold ServeHTTP in He.
  destruct (wire_policy (sc_CORSAllowOrigins RouterRun.cfg0) RateLimitRPS RateLimitBurst (routes RouterRun.cfg0) RouterRun.ws0 RouterRun.app0
    (RouterRun.reset RouterRun.from_ui) ws' RouterRun.app0 w') as [Ha _].
  - apply routes_quiet.
  - apply routes_keep; discriminate.
  - apply routes_keep; discriminate.
  - exact He.
  - rewrite Ha. vm_compute. reflexivity.
Defined.
