(* ===== verification/Tpcb.v ===== *)
(** * The TPC-B benchmark ([benchmark/tpcb.go])

    A bank of accounts, tellers and branches on a manager of its own: each
    transaction adds one amount to a row of each table, retries a few times
    when it fails, and counts. The calls of a transaction on the manager are
    the steps of a worker ([exec_step]); [execTxn] is a worker that runs
    alone, and any number of workers may be interleaved ([sched]).

    What the bank needs of the manager is the class [BankProtocol]; [Bank]
    proves it for the two protocols. Against it, the benchmark refines a
    ledger: [bank_run].

    A balance is the bit pattern of a float64; a NaN that an addition yields
    has one payload here. Clock readings and random draws are inputs. *)

From Stdlib Require Import ZArith NArith Lia String Floats.SpecFloat.
From stdpp Require Import base tactics numbers list gmap strings pretty.
From S2P Require Import Prelude Types Lock Storage Mvcc WalRecord Wal Ssi Txn TxnInv Metrics.

(** ** Floats *)

Definition float_bits (f : spec_float) : N :=
  match f with
  | S754_finite _ _ _ => bits_of_float f
  | S754_zero s => N.shiftl (if s then 1 else 0) 63
  | S754_infinity s => (N.shiftl (if s then 1 else 0) 63 + N.shiftl 2047 52)%N
  | S754_nan => (N.shiftl 2047 52 + N.shiftl 1 51)%N
  end.

Definition addf (a b : N) : N := float_bits (SFadd prec64 emax64 (float_of_bits a) (float_of_bits b)).
Definition subf (a b : N) : N := float_bits (SFsub prec64 emax64 (float_of_bits a) (float_of_bits b)).
Definition mulf (a b : N) : N := float_bits (SFmul prec64 emax64 (float_of_bits a) (float_of_bits b)).
Definition intf (z : Z) : N := float_bits (float_of_int z).

(** [!math.IsNaN(v) && !math.IsInf(v, 0)] *)
Definition finitef (b : N) : bool := match float_of_bits b with S754_nan | S754_infinity _ => false | _ => true end.

(** ** Configuration and counters *)

Definition TableAccounts : string := "accounts".
Definition TableTellers : string := "tellers".
Definition TableBranches : string := "branches".
Definition TableHistory : string := "history".
Definition money : list string := [TableAccounts; TableTellers; TableBranches].

(** The duration and the lock timeout are the clock's and the lock service's. *)
Record Config := mkBConfig {
  NumBranches : nat;
  NumTellers : nat;
  NumAccounts : nat;
  Concurrency : nat;
  Protocol : ConcurrencyProtocol;
  Isolation : IsolationLevel;
  MaxRetries : Z;
}.

Definition DefaultConfig : Config := mkBConfig 1 10 100 8 ProtocolMVCC ReadCommitted 5.

(** The counters of [metrics.Metrics] that the benchmark adds to. *)
Record BenchMetrics := mkBM { bm_TxnCommits : Z; bm_TxnAborts : Z; bm_Deadlocks : Z; bm_WriteConflicts : Z }.

Record Counters := mkCounters { totalTxns : Z; committed : Z; aborted : Z; deadlocks : Z; conflicts : Z }.

(** The elapsed time and the rate that is computed from it are left out. *)
Record BenchResult := mkBResult {
  br_TotalTxns : Z;
  br_Committed : Z;
  br_Aborted : Z;
  br_Deadlocks : Z;
  br_Conflicts : Z;
  br_LatencyHist : Histogram;
  br_BalanceSumOK : bool;
}.

(** The balances, by table and key. *)
Notation Balances := (gmap (string * string) N).

Section Bench.
Context {L W : Type} `{LockService L} `{WALWriter W}.

(** [initialSum] is set and never read. *)
Record Runner := mkRunner {
  r_cfg : Config;
  r_mgr : Mgr L W;
  r_m : option BenchMetrics;
  r_hist : Histogram;
  r_count : Counters;
}.

Definition with_mgr (r : Runner) (m : Mgr L W) : Runner := mkRunner (r_cfg r) m (r_m r) (r_hist r) (r_count r).

(** ** Set-up *)

Definition bench_catalog : Catalog :=
  fold_left (fun c name =>
    Register c (NewTable name
      (if String.eqb name TableHistory
       then [mkColumn "acct_id" TypeInt false false; mkColumn "delta" TypeFloat false false; mkColumn "ts" TypeText false false]
       else [mkColumn "balance" TypeFloat false false])))
    [TableAccounts; TableTellers; TableBranches; TableHistory] NewCatalog.

Definition put_rows (n : nat) (balance : N) (t : Table) : Table :=
  fold_left (fun t (i : nat) => PutRow t (pretty i) (Some [FloatVal balance])) (seq 0 n) t.

Definition on_table (c : Catalog) (name : string) (f : Table -> Table) : Catalog := alter f name c.

(** The version store is seeded from the tables, by transaction 0. *)
Definition seed (cfg : Config) (m : Mgr L W) : Mgr L W :=
  let c := on_table (m_Catalog m) TableAccounts (put_rows (NumAccounts cfg) (intf 1000)) in
  let c := on_table c TableTellers (put_rows (NumTellers cfg) (intf 0)) in
  let c := on_table c TableBranches (put_rows (NumBranches cfg) (intf 0)) in
  fold_left (reseed_table 0) [TableAccounts; TableTellers; TableBranches] (with_Catalog m c).

Definition NewRunner (locks : L) (cfg : Config) (m : option BenchMetrics) : Runner :=
  mkRunner cfg (seed cfg (NewManager locks bench_catalog 0 None)) m
    (NewHistogram [1; 2; 5; 10; 20; 50; 100; 200; 500]%Z) (mkCounters 0 0 0 0 0).

(** ** One transaction *)

(** What [runTxn] draws: the three rows, and [rng.Float64()]. *)
Record Draw := mkDraw { d_acct : nat; d_tel : nat; d_br : nat; d_u : N }.

Definition delta (d : Draw) : N := mulf (subf (d_u d) (float_bits (S754_finite false 4503599627370496 (-53)))) (intf 200).

Definition targets (d : Draw) : list (string * string) :=
  [(TableAccounts, pretty (d_acct d)); (TableTellers, pretty (d_tel d)); (TableBranches, pretty (d_br d))].

(** The read of [rmw]: the balance of the row. *)
Definition rmw_read (p : ConcurrencyProtocol) (m : Mgr L W) (t : N) (table key : string) : Mgr L W * result GoError N :=
  let out := fun (mr : Mgr L W * result TxnError (Values * bool)) =>
    (mr.1, match mr.2 with
           | Err e => Err (ETxn e)
           | Ok (Some (v :: _), true) => Ok (v_Float v)
           | Ok _ => Err (ETxn NewRowNotFoundError)
           end) in
  match p with
  | Protocol2PL => match m_objs m !! t with
                   | Some txn => out (TwoPLRead m txn table key)
                   | None => (m, Err (ETxn NewTxnAbortedError))
                   end
  | ProtocolMVCC => out (MVCCRead m t table key)
  end.

(** Its write; [None] is a panic. *)
Definition rmw_write (p : ConcurrencyProtocol) (m : Mgr L W) (t : N) (table key : string) (balance : N)
    : option (Mgr L W * result GoError unit) :=
  let values := Some [FloatVal balance] in
  let out := fun (o : option (Mgr L W * result TxnError unit)) =>
    '(m, r) ← o; Some (m, match r with Ok _ => Ok tt | Err e => Err (ETxn e) end) in
  match p with
  | Protocol2PL => match m_objs m !! t with
                   | Some txn => out (TwoPLWrite m txn table key values UndoUpdate)
                   | None => Some (m, Err (ETxn NewTxnAbortedError))
                   end
  | ProtocolMVCC => out (MVCCWrite m t table key values UndoUpdate)
  end.

(** Where a worker is in [execTxn]: the rows that it has still to change,
    and the balance it has read of the first of them. *)
Inductive Worker :=
| WBegin
| WRead (t : N) (todo : list (string * string))
| WWrite (t : N) (balance : N) (todo : list (string * string))
| WFailed (t : N) (e : GoError)
| WDone (err : option GoError).

Definition exec_step (cfg : Config) (d : Draw) (m : Mgr L W) (w : Worker) : option (Mgr L W * Worker) :=
  match w with
  | WBegin =>
      match Begin m (Protocol cfg) (Isolation cfg) with
      | (m, Ok t) => Some (m, WRead t (targets d))
      | (m, Err e) => Some (m, WDone (Some e))
      end
  | WRead t [] =>
      match Commit m t with
      | (m, Ok _) => Some (m, WDone None)
      | (m, Err e) => Some (m, WDone (Some e))
      end
  | WRead t (((table, key) :: _) as todo) =>
      match rmw_read (Protocol cfg) m t table key with
      | (m, Ok b) => Some (m, WWrite t b todo)
      | (m, Err e) => Some (m, WFailed t e)
      end
  | WWrite t b ((table, key) :: todo) =>
      match rmw_write (Protocol cfg) m t table key (addf b (delta d)) with
      | Some (m, Ok _) => Some (m, WRead t todo)
      | Some (m, Err e) => Some (m, WFailed t e)
      | None => None
      end
  | WWrite t _ [] => Some (m, WRead t [])
  | WFailed t e => Some ((Abort m t).1, WDone (Some e))
  | WDone err => Some (m, WDone err)
  end.

Fixpoint exec_loop (fuel : nat) (cfg : Config) (d : Draw) (m : Mgr L W) (w : Worker) : option (Mgr L W * option GoError) :=
  match w, fuel with
  | WDone err, _ => Some (m, err)
  | _, O => None
  | _, S fuel => '(m, w) ← exec_step cfg d m w; exec_loop fuel cfg d m w
  end.

(** Begin, three reads and writes, and the end. *)
Definition execTxn (cfg : Config) (d : Draw) (m : Mgr L W) : option (Mgr L W * option GoError) := exec_loop 8 cfg d m WBegin.

(** ** Retries *)

Definition count_commit (r : Runner) (elapsedMs : Z) : Runner :=
  let c := r_count r in
  mkRunner (r_cfg r) (r_mgr r)
    ((fun x => mkBM (bm_TxnCommits x + 1) (bm_TxnAborts x) (bm_Deadlocks x) (bm_WriteConflicts x)) <$> r_m r)
    (Record_ (r_hist r) elapsedMs)
    (mkCounters (totalTxns c + 1) (committed c + 1) (aborted c) (deadlocks c) (conflicts c)).

Definition is_deadlock (e : GoError) : bool := match e with ETxn e => bool_decide (e_Code e = ErrDeadlock) | _ => false end.
Definition is_conflict (e : GoError) : bool :=
  match e with ETxn e => bool_decide (e_Code e = ErrWriteConflict \/ e_Code e = ErrSerializationFailure) | _ => false end.
Definition one (b : bool) : Z := if b then 1 else 0.

Definition count_abort (r : Runner) (e : GoError) : Runner :=
  let c := r_count r in
  mkRunner (r_cfg r) (r_mgr r)
    ((fun x => mkBM (bm_TxnCommits x) (bm_TxnAborts x + 1) (bm_Deadlocks x + one (is_deadlock e))
                 (bm_WriteConflicts x + one (is_conflict e))) <$> r_m r)
    (r_hist r)
    (mkCounters (totalTxns c + 1) (committed c) (aborted c + 1) (deadlocks c + one (is_deadlock e)) (conflicts c + one (is_conflict e))).

(** What the clock and the context show at an attempt. *)
Record Sight := mkSight { cancelled : bool; elapsed : Z }.

Fixpoint attempts (k : nat) (d : Draw) (env : list Sight) (r : Runner) : option Runner :=
  match k with
  | O => Some r
  | S k =>
      let s := default (mkSight false 0) (head env) in
      if cancelled s then Some r
      else
        '(m, err) ← execTxn (r_cfg r) d (r_mgr r);
        match err with
        | None => Some (count_commit (with_mgr r m) (elapsed s))
        | Some e => attempts k d (tail env) (count_abort (with_mgr r m) e)
        end
  end.

Definition runTxn (d : Draw) (env : list Sight) (r : Runner) : option Runner :=
  attempts (Z.to_nat (MaxRetries (r_cfg r) + 1)) d env r.

(** ** The check at the end *)

(** The rows, or [None] when they cannot be had. *)
Definition scanAll (cfg : Config) (m : Mgr L W) (table : string) : Mgr L W * option (list Row) :=
  match Protocol cfg with
  | ProtocolMVCC =>
      match Begin m ProtocolMVCC ReadCommitted with
      | (m, Err _) => (m, None)
      | (m, Ok t) =>
          let '(m, rows) := MVCCScan m t table None in
          ((Commit m t).1, match rows with Ok rows => Some rows | Err _ => None end)
      end
  | Protocol2PL => (m, (fun t => Scan t None) <$> Lookup (m_Catalog m) table)
  end.

Definition row_ok (row : Row) : bool := match values_list (row_Values row) with [] => false | v :: _ => finitef (v_Float v) end.

Fixpoint tables_ok (cfg : Config) (m : Mgr L W) (tables : list string) : Mgr L W * bool :=
  match tables with
  | [] => (m, true)
  | table :: tables =>
      match scanAll cfg m table with
      | (m, None) => (m, false)
      | (m, Some rows) => if forallb row_ok rows then tables_ok cfg m tables else (m, false)
      end
  end.

Definition checkInvariant (cfg : Config) (m : Mgr L W) : Mgr L W * bool :=
  match tables_ok cfg m [TableAccounts; TableTellers; TableBranches] with
  | (m, false) => (m, false)
  | (m, true) =>
      match scanAll cfg m TableAccounts with
      | (m, None) => (m, false)
      | (m, Some acctRows) => (m, length acctRows =? NumAccounts cfg)
      end
  end.

(** ** A run with one worker

    The transactions that the worker starts before the deadline or the
    cancellation, with what it sees at their attempts. *)

Fixpoint run_worker (txns : list (Draw * list Sight)) (r : Runner) : option Runner :=
  match txns with
  | [] => Some r
  | (d, env) :: txns => r ← runTxn d env r; run_worker txns r
  end.

Definition RunCtx (txns : list (Draw * list Sight)) (r : Runner) : option (Runner * BenchResult) :=
  r ← run_worker txns r;
  let '(m, ok) := checkInvariant (r_cfg r) (r_mgr r) in
  let c := r_count r in
  Some (with_mgr r m, mkBResult (totalTxns c) (committed c) (aborted c) (deadlocks c) (conflicts c) (r_hist r) ok).

(** ** Several workers: a step of one at a time *)

Fixpoint sched (cfg : Config) (m : Mgr L W) (ws : list (Draw * Worker)) (steps : list nat) : option (Mgr L W * list (Draw * Worker)) :=
  match steps with
  | [] => Some (m, ws)
  | i :: steps =>
      '(d, w) ← ws !! i;
      '(m, w) ← exec_step cfg d m w;
      sched cfg m (<[i := (d, w)]> ws) steps
  end.

(** ** What the bank needs of a protocol

    [idle m b]: no transaction is active and the balances are [b].
    [busy m t b0 b]: [t] is the one active transaction, it sees the balances
    [b], and its abort takes them back to [b0] (which is only needed under
    2PL: alone, an MVCC transaction does not fail). *)

Definition room (m : Mgr L W) (k : N) : Prop := (m_nextID m + k + 2 < two64)%N.

Class BankProtocol (p : ConcurrencyProtocol) (iso : IsolationLevel) := {
  idle : Mgr L W -> Balances -> Prop;
  busy : Mgr L W -> N -> Balances -> Balances -> Prop;
}.

(** Only under 2PL, where a lock may be refused, does a call fail. *)
Class BankLaws (p : ConcurrencyProtocol) (iso : IsolationLevel) `{BankProtocol p iso} : Prop := {
  bank_begin m b : idle m b -> room m 0 ->
    exists m' t, Begin m p iso = (m', Ok t) /\ busy m' t b b /\ m_nextID m' = (m_nextID m + 1)%N;
  bank_read m t b0 b table key : busy m t b0 b ->
    let (m', r) := rmw_read p m t table key in
    busy m' t b0 b /\ m_nextID m' = m_nextID m
    /\ match r with Ok v => b !! (table, key) = Some v | Err _ => p = Protocol2PL \/ b !! (table, key) = None end;
  bank_write m t b0 b table key v v' : busy m t b0 b -> b !! (table, key) = Some v ->
    exists m' r, rmw_write p m t table key v' = Some (m', r) /\ m_nextID m' = m_nextID m
      /\ match r with Ok _ => busy m' t b0 (<[(table, key) := v']> b) | Err _ => p = Protocol2PL /\ busy m' t b0 b end;
  bank_commit m t b0 b : busy m t b0 b ->
    exists m', Commit m t = (m', Ok tt) /\ idle m' b /\ m_nextID m' = m_nextID m;
  bank_abort m t b0 b : p = Protocol2PL -> busy m t b0 b -> idle (Abort m t).1 b0 /\ m_nextID (Abort m t).1 = m_nextID m;
  bank_scan cfg m b table : Protocol cfg = p -> idle m b -> room m 0 -> table ∈ money ->
    exists m' rows, scanAll cfg m table = (m', Some rows) /\ idle m' b /\ (m_nextID m' <= m_nextID m + 1)%N
      /\ NoDup (row_Key <$> rows)
      /\ forall row, row ∈ rows <-> exists v, b !! (table, row_Key row) = Some v /\ row_Values row = Some [FloatVal v];
}.

(** ** The ledger *)

Definition post (amount : N) (b : Balances) (row : string * string) : Balances := alter (fun v => addf v amount) row b.
Definition post_draw (b : Balances) (d : Draw) : Balances := fold_left (post (delta d)) (targets d) b.

Definition drawn (b : Balances) (d : Draw) : Prop := Forall (fun row => is_Some (b !! row)) (targets d).

Lemma dom_post amount b row : dom (post amount b row) = dom b.
Proof. apply dom_alter_L. Qed.

Lemma dom_posts amount rows b : dom (fold_left (post amount) rows b) = dom b.
Proof. revert b. induction rows as [|row rows IH]; intros b; [done|]. cbn [fold_left]. rewrite IH. apply dom_post. Qed.

Lemma dom_post_draw b d : dom (post_draw b d) = dom b.
Proof. unfold post_draw. by rewrite dom_posts. Qed.

Lemma drawn_dom b b' d : dom b' = dom b -> drawn b d -> drawn b' d.
Proof. intros Hd H1. apply (Forall_impl _ _ _ H1). intros row Hr. apply elem_of_dom. rewrite Hd. by apply elem_of_dom. Qed.
End Bench.

Section Ledger.
Context {L W : Type} `{LockService L} `{WALWriter W}.
Context (cfg : Config) `{!BankProtocol (L := L) (W := W) (Protocol cfg) (Isolation cfg)} `{!BankLaws (Protocol cfg) (Isolation cfg)}.
Implicit Types m : Mgr L W.

(** A worker that runs alone: what [m] holds at each of its stages. *)
Definition worker_ok m (d : Draw) (b0 : Balances) (w : Worker) : Prop :=
  match w with
  | WBegin => idle m b0
  | WRead t todo => exists done, targets d = done ++ todo /\ busy m t b0 (fold_left (post (delta d)) done b0)
  | WWrite t v todo => exists done row rest, todo = row :: rest /\ targets d = done ++ todo
      /\ busy m t b0 (fold_left (post (delta d)) done b0) /\ fold_left (post (delta d)) done b0 !! row = Some v
  | WFailed t _ => Protocol cfg = Protocol2PL /\ exists b, busy m t b0 b
  | WDone None => idle m (post_draw b0 d)
  | WDone (Some _) => Protocol cfg = Protocol2PL /\ idle m b0
  end.

(** The steps that a worker still makes at most. *)
Definition to_go (w : Worker) : nat :=
  match w with
  | WBegin => 8
  | WRead _ todo => 2 * length todo + 1
  | WWrite _ _ todo => 2 * length todo
  | WFailed _ _ => 1
  | WDone _ => 0
  end.

Definition begun (w : Worker) : N := match w with WBegin => 0 | _ => 1 end.

Lemma exec_step_ok m d b0 w :
  worker_ok m d b0 w -> drawn b0 d -> (w = WBegin -> room m 0) -> to_go w <> 0 ->
  exists m' w', exec_step cfg d m w = Some (m', w') /\ worker_ok m' d b0 w' /\ to_go w' < to_go w
    /\ (m_nextID m' + begun w = m_nextID m + begun w')%N.
Proof.
  intros Hok Hd Hroom Hgo. destruct w as [|t [|[table key] todo]|t v todo|t e|err]; cbn [exec_step].
  - destruct (bank_begin _ _ Hok (Hroom eq_refl)) as (m' & t & Hb & Hbusy & Hn). rewrite Hb. eexists _, _. split; [done|].
    split; [by exists []|]. cbn. split; [lia|]. lia.
  - destruct Hok as (done & Ht & Hb). rewrite app_nil_r in Ht. subst done. destruct (bank_commit _ _ _ _ Hb) as (m' & Hc & Hi & Hn). rewrite Hc.
    eexists _, _. split; [done|]. split; [done|]. cbn. split; [lia|]. by rewrite Hn.
  - destruct Hok as (done & Ht & Hb). pose proof (bank_read _ _ _ _ table key Hb) as Hr. destruct (rmw_read _ _ _ _ _) as [m' [v|e]]; destruct Hr as (Hb' & Hn & Hr).
    + eexists _, _. split; [done|]. split; [by exists done, (table, key), todo|]. cbn. split; [lia|]. by rewrite Hn.
    + eexists _, _. split; [done|]. split; [|cbn; split; [lia|by rewrite Hn]]. split; [|by eexists]. destruct Hr as [|Hr]; [done|]. exfalso.
      assert (Hin : (table, key) ∈ targets d) by (rewrite Ht; set_solver). unfold drawn in Hd. rewrite Forall_forall in Hd. apply Hd in Hin.
      apply elem_of_dom in Hin. rewrite <-(dom_posts (delta d) done) in Hin. apply elem_of_dom in Hin as [? Hin]. congruence.
  - destruct Hok as (done & [table key] & rest & -> & Ht & Hb & Hv). destruct (bank_write _ _ _ _ _ _ _ (addf v (delta d)) Hb Hv) as (m' & r & Hw & Hn & Hr).
    rewrite Hw. destruct r as [[]|e].
    + eexists _, _. split; [done|]. split; [|cbn; split; [lia|by rewrite Hn]]. exists (done ++ [(table, key)]). split; [by rewrite <-app_assoc|].
      rewrite fold_left_app. cbn [fold_left]. unfold post at 1. replace (alter _ _ _) with (<[(table, key) := addf v (delta d)]> (fold_left (post (delta d)) done b0)); [done|].
      apply map_eq. intros x. rewrite lookup_insert, lookup_alter. case_decide; [|done]. subst x. by rewrite Hv.
    + destruct Hr as [Hp Hr]. eexists _, _. split; [done|]. split; [split; [done|by eexists]|cbn; split; [lia|by rewrite Hn]].
  - destruct Hok as [Hp (b & Hb)]. destruct (bank_abort _ _ _ _ Hp Hb) as [Hi Hn]. eexists _, _. split; [done|]. split; [done|cbn; split; [lia|by rewrite Hn]].
  - done.
Qed.

Lemma exec_step_begun d m w m' w' : exec_step cfg d m w = Some (m', w') -> w' <> WBegin.
Proof.
  destruct w as [|t [|[table key] todo]|t v [|[table key] todo]|t e|err]; cbn [exec_step]; repeat case_match; congruence.
Qed.

Lemma exec_loop_ok fuel m d b0 w :
  worker_ok m d b0 w -> drawn b0 d -> (w = WBegin -> room m 0) -> to_go w <= fuel ->
  exists m' err, exec_loop fuel cfg d m w = Some (m', err) /\ worker_ok m' d b0 (WDone err)
    /\ (m_nextID m' + begun w = m_nextID m + 1)%N.
Proof.
  revert m w. induction fuel as [|fuel IH]; intros m w Hok Hd Hr Hf.
  - destruct w as [|t todo|t v [|? todo]|t e|err]; cbn in Hf; try lia; [by destruct Hok as (? & ? & ? & ? & _)|]. by exists m, err.
  - destruct (decide (to_go w = 0)) as [Hz|Hz].
    { destruct w as [|t todo|t v [|? todo]|t e|err]; cbn in Hz; try lia; [by destruct Hok as (? & ? & ? & ? & _)|]. by exists m, err. }
    destruct (exec_step_ok _ _ _ _ Hok Hd Hr Hz) as (m1 & w1 & Hs & Hok1 & Hlt & Hn).
    pose proof (exec_step_begun _ _ _ _ _ Hs) as Hb1.
    destruct (IH m1 w1 Hok1 Hd) as (m' & err & Hl & Hok' & Hn'); [done|lia|]. exists m', err. split.
    + destruct w; cbn [exec_loop]; try (rewrite Hs; exact Hl). by destruct Hz.
    + split; [done|]. destruct w1; [done|..]; cbn [begun] in *; lia.
Qed.

Lemma execTxn_ok m d b0 :
  idle m b0 -> drawn b0 d -> room m 0 ->
  exists m' err, execTxn cfg d m = Some (m', err) /\ m_nextID m' = (m_nextID m + 1)%N
    /\ match err with None => idle m' (post_draw b0 d) | Some _ => Protocol cfg = Protocol2PL /\ idle m' b0 end.
Proof.
  intros Hi Hd Hr. destruct (exec_loop_ok 8 m d b0 WBegin) as (m' & err & Hl & Hok & Hn); [done|done|done|done|].
  exists m', err. split; [exact Hl|]. split; [cbn [begun] in Hn; lia|]. by destruct err.
Qed.

(** ** The counters *)

(** What [n] failed attempts, and a successful one if [c], add. *)
Record counted (r r' : @Runner L W) (n : Z) (c : bool) : Prop := {
  cd_total : totalTxns (r_count r') = (totalTxns (r_count r) + n + one c)%Z;
  cd_committed : committed (r_count r') = (committed (r_count r) + one c)%Z;
  cd_aborted : aborted (r_count r') = (aborted (r_count r) + n)%Z;
  cd_deadlocks : (deadlocks (r_count r) <= deadlocks (r_count r'))%Z;
  cd_conflicts : (conflicts (r_count r) <= conflicts (r_count r'))%Z;
  cd_reasons : (deadlocks (r_count r') + conflicts (r_count r') <= deadlocks (r_count r) + conflicts (r_count r) + n)%Z;
  cd_hist : h_total (r_hist r') = (h_total (r_hist r) + one c)%Z;
}.

Lemma reasons e : (0 <= one (is_deadlock e) /\ 0 <= one (is_conflict e) /\ one (is_deadlock e) + one (is_conflict e) <= 1)%Z.
Proof.
  destruct e as [e|]; cbn; [|lia]. destruct (decide (e_Code e = ErrDeadlock)) as [He|He].
  - rewrite bool_decide_true, bool_decide_false by (rewrite ?He; intuition congruence). cbn. lia.
  - rewrite bool_decide_false by done. case_bool_decide; cbn; lia.
Qed.

Lemma attempts_ok k d env r b :
  r_cfg r = cfg -> idle (r_mgr r) b -> drawn b d -> room (r_mgr r) (N.of_nat k) ->
  exists r' (c : bool) n, attempts k d env r = Some r' /\ r_cfg r' = cfg /\ counted r r' (Z.of_nat n) c
    /\ idle (r_mgr r') (if c then post_draw b d else b) /\ n <= k
    /\ (m_nextID (r_mgr r') <= m_nextID (r_mgr r) + N.of_nat k)%N
    /\ (Protocol cfg = ProtocolMVCC -> n = 0 /\ c = (0 <? k) && negb (cancelled (default (mkSight false 0) (head env)))).
Proof.
  revert env r. induction k as [|k IH]; intros env r Hcfg Hi Hd Hr.
  { exists r, false, 0. split; [done|]. split; [done|]. split; [split; cbn; lia|]. split; [done|]. split; [lia|]. split; [lia|done]. }
  cbn [attempts]. destruct (cancelled _) eqn:Hc.
  { exists r, false, 0. split; [done|]. split; [done|]. split; [split; cbn; lia|]. split; [done|]. split; [lia|]. split; [lia|done]. }
  destruct (execTxn_ok (r_mgr r) d b Hi Hd) as (m' & err & He & Hn & Hm). { unfold room in *. lia. }
  rewrite Hcfg, He. cbn [mbind option_bind]. destruct err as [e|].
  - destruct Hm as [Hp Hm].
    destruct (IH (tail env) (count_abort (with_mgr r m') e)) as (r' & c & n & Ha & Hc' & Hcd & Hi' & Hk & Hn' & _); [done|done|done| |].
    { unfold room in *. cbn [count_abort with_mgr r_mgr]. lia. }
    exists r', c, (S n). split; [exact Ha|]. split; [done|]. split.
    { destruct Hcd as [C1 C2 C3 C4 C5 C6 C7]. cbn in *. pose proof (reasons e) as (R1 & R2 & R3). split; lia. }
    split; [done|]. split; [lia|]. split; [cbn in Hn'; lia|]. congruence.
  - exists (count_commit (with_mgr r m') (elapsed (default (mkSight false 0) (head env)))), true, 0.
    split; [done|]. split; [done|]. split; [split; cbn; lia|]. split; [done|]. split; [lia|]. split; [cbn; lia|]. done.
Qed.

(** ** The run *)

(** The draws that committed are posted in turn. *)
Definition ledger (b : Balances) (ds : list Draw) (marks : list bool) : Balances :=
  fold_left (fun b (dc : Draw * bool) => if dc.2 then post_draw b dc.1 else b) (zip ds marks) b.

Definition count_true (marks : list bool) : Z := Z.of_nat (length (List.filter id marks)).

Definition tries : nat := Z.to_nat (MaxRetries cfg + 1).

Record tally (r r' : @Runner L W) (n : Z) (k : Z) : Prop := {
  ta_total : totalTxns (r_count r') = (totalTxns (r_count r) + n + k)%Z;
  ta_committed : committed (r_count r') = (committed (r_count r) + k)%Z;
  ta_aborted : aborted (r_count r') = (aborted (r_count r) + n)%Z;
  ta_deadlocks : (deadlocks (r_count r) <= deadlocks (r_count r'))%Z;
  ta_conflicts : (conflicts (r_count r) <= conflicts (r_count r'))%Z;
  ta_reasons : (deadlocks (r_count r') + conflicts (r_count r') <= deadlocks (r_count r) + conflicts (r_count r) + n)%Z;
  ta_hist : h_total (r_hist r') = (h_total (r_hist r) + k)%Z;
}.

(** Which transactions a worker commits under MVCC: all but the cancelled. *)
Definition uncancelled (env : list Sight) : bool := (0 <? tries) && negb (cancelled (default (mkSight false 0) (head env))).

Lemma run_worker_ok txns r b :
  r_cfg r = cfg -> idle (r_mgr r) b -> Forall (fun t => drawn b t.1) txns -> room (r_mgr r) (N.of_nat (length txns * tries)) ->
  exists r' marks n, run_worker txns r = Some r' /\ r_cfg r' = cfg /\ tally r r' (Z.of_nat n) (count_true marks)
    /\ length marks = length txns /\ n <= length txns * tries
    /\ idle (r_mgr r') (ledger b txns.*1 marks)
    /\ (m_nextID (r_mgr r') <= m_nextID (r_mgr r) + N.of_nat (length txns * tries))%N
    /\ (Protocol cfg = ProtocolMVCC -> n = 0 /\ marks = uncancelled <$> txns.*2).
Proof.
  revert r b. induction txns as [|[d env] txns IH]; intros r b Hcfg Hi Hd Hr.
  { exists r, [], 0. split; [done|]. split; [done|]. split; [split; change (count_true []) with 0%Z; cbn; lia|]. split; [done|]. split; [lia|]. split; [done|]. split; [lia|done]. }
  apply Forall_cons in Hd as [Hd Hds]. cbn [fst] in Hd. cbn [length] in *. rewrite Nat.mul_succ_l in *.
  remember (length txns * tries) as budget eqn:Hbudget.
  destruct (attempts_ok tries d env r b Hcfg Hi Hd) as (r1 & c & n & Ha & Hc1 & [C1 C2 C3 C4 C5 C6 C7] & Hi1 & Hk & Hn1 & Hm1). { unfold room in *. lia. }
  destruct (IH r1 (if c then post_draw b d else b) Hc1 Hi1) as (r' & marks & n' & Hw & Hc' & [T1 T2 T3 T4 T5 T6 T7] & Hl & Hn' & Hi' & Hnx & Hm').
  { destruct c; [|done]. apply (Forall_impl _ _ _ Hds). intros x. apply drawn_dom, dom_post_draw. }
  { unfold room in *. lia. }
  exists r', (c :: marks), (n + n'). split; [|split; [done|]].
  { cbn [run_worker]. unfold runTxn. rewrite Hcfg. unfold tries in Ha. rewrite Ha. exact Hw. }
  assert (Hct : count_true (c :: marks) = (one c + count_true marks)%Z).
  { unfold count_true. destruct c; cbn [List.filter id length one]; lia. }
  split; [split; rewrite ?Hct; lia|]. split; [cbn; lia|]. split; [lia|]. split; [exact Hi'|]. split; [lia|].
  intros Hp. destruct (Hm1 Hp) as [-> Hc]. destruct (Hm' Hp) as [-> ->]. split; [done|]. cbn. f_equal. exact Hc.
Qed.

(** ** The check *)

Definition finite_in (b : Balances) (table : string) : Prop := forall key v, b !! (table, key) = Some v -> finitef v = true.

Lemma rows_finite b table rows :
  (forall row, row ∈ rows <-> exists v, b !! (table, row_Key row) = Some v /\ row_Values row = Some [FloatVal v]) ->
  forallb row_ok rows = true <-> finite_in b table.
Proof.
  intros Hrows. rewrite forallb_forall. split.
  - intros Hall key v Hv. assert (Hin : mkRow key (Some [FloatVal v]) ∈ rows) by (apply Hrows; by exists v).
    apply list_elem_of_In, Hall in Hin. exact Hin.
  - intros Hfin row Hin%list_elem_of_In. apply Hrows in Hin as (v & Hv & Hr). unfold row_ok. rewrite Hr. cbn. by eapply Hfin.
Qed.

Lemma tables_ok_spec tables m b :
  idle m b -> room m (N.of_nat (length tables)) -> Forall (fun t => t ∈ money) tables ->
  exists m' ok, tables_ok cfg m tables = (m', ok) /\ idle m' b /\ (m_nextID m' <= m_nextID m + N.of_nat (length tables))%N
    /\ (ok = true <-> Forall (finite_in b) tables).
Proof.
  revert m. induction tables as [|table tables IH]; intros m Hi Hr Hh.
  { exists m, true. split; [done|]. split; [done|]. split; [cbn; lia|done]. }
  apply Forall_cons in Hh as [Hh Hhs]. cbn [length] in *.
  destruct (bank_scan cfg m b table eq_refl Hi) as (m1 & rows & Hs & Hi1 & Hn & _ & Hrows); [unfold room in *; lia|done|].
  cbn [tables_ok]. rewrite Hs. pose proof (rows_finite _ _ _ Hrows) as Hf. destruct (forallb row_ok rows).
  - destruct (IH m1 Hi1) as (m' & ok & Ht & Hi' & Hn' & Hok); [unfold room in *; lia|done|]. exists m', ok. split; [done|]. split; [done|]. split; [lia|].
    rewrite Forall_cons, Hok. tauto.
  - exists m1, false. split; [done|]. split; [done|]. split; [lia|]. rewrite Forall_cons. split; [done|]. intros [Hb%Hf _]. done.
Qed.

(** The keys of a table. *)
Definition keys_of (b : Balances) (table : string) (keys : list string) : Prop :=
  NoDup keys /\ forall key, key ∈ keys <-> is_Some (b !! (table, key)).

Lemma rows_count b table rows keys : keys_of b table keys -> NoDup (row_Key <$> rows) ->
  (forall row, row ∈ rows <-> exists v, b !! (table, row_Key row) = Some v /\ row_Values row = Some [FloatVal v]) ->
  length rows = length keys.
Proof.
  intros [Hnd Hk] Hnr Hrows. rewrite <-(length_fmap row_Key rows). apply Permutation_length, NoDup_Permutation; [done|done|].
  intros key. rewrite Hk, list_elem_of_fmap. split.
  - intros (row & -> & (v & Hv & _)%Hrows). by exists v.
  - intros [v Hv]. exists (mkRow key (Some [FloatVal v])). split; [done|]. apply Hrows. by exists v.
Qed.

Lemma checkInvariant_spec m b keys :
  idle m b -> room m 4 -> keys_of b TableAccounts keys -> length keys = NumAccounts cfg ->
  exists m' ok, checkInvariant cfg m = (m', ok) /\ idle m' b /\ (m_nextID m' <= m_nextID m + 4)%N /\ (ok = true <-> Forall (finite_in b) money).
Proof.
  intros Hi Hr Hk Hlen. destruct (tables_ok_spec money m b Hi) as (m1 & ok & Ht & Hi1 & Hn1 & Hok).
  { unfold room in *. cbn. lia. } { by apply Forall_forall. }
  unfold checkInvariant. fold money. rewrite Ht. cbn [length money] in Hn1. destruct ok.
  2: { exists m1, false. split; [done|]. split; [done|]. split; [lia|done]. }
  destruct (bank_scan cfg m1 b TableAccounts eq_refl Hi1) as (m2 & rows & Hs & Hi2 & Hn & Hnd & Hrows); [unfold room in *; lia|by left|].
  rewrite Hs. exists m2, true. rewrite (rows_count _ _ _ _ Hk Hnd Hrows), Hlen, Nat.eqb_refl. split; [done|]. split; [done|]. split; [lia|done].
Qed.

Lemma dom_ledger ds marks b : dom (ledger b ds marks) = dom b.
Proof.
  unfold ledger. generalize (zip ds marks) as l. intros l. revert b. induction l as [|[d c] l IH]; intros b; [done|]. cbn [fold_left fst snd].
  rewrite IH. destruct c; [apply dom_post_draw|done].
Qed.

Lemma keys_of_dom b b' table keys : dom b' = dom b -> keys_of b table keys -> keys_of b' table keys.
Proof. intros Hd [Hn Hk]. split; [done|]. intros key. rewrite Hk, <-!elem_of_dom, Hd. done. Qed.

(** What a scan of the money tables shows at the end. *)
Definition shows (m : Mgr L W) (b : Balances) (table : string) : Prop :=
  exists m' rows, scanAll cfg m table = (m', Some rows) /\ NoDup (row_Key <$> rows)
    /\ forall row, row ∈ rows <-> exists v, b !! (table, row_Key row) = Some v /\ row_Values row = Some [FloatVal v].

Lemma RunCtx_ok txns r b keys :
  r_cfg r = cfg -> r_count r = mkCounters 0 0 0 0 0 -> h_total (r_hist r) = 0%Z ->
  idle (r_mgr r) b -> Forall (fun t => drawn b t.1) txns -> keys_of b TableAccounts keys -> length keys = NumAccounts cfg ->
  room (r_mgr r) (N.of_nat (length txns * tries) + 5) ->
  exists r' res marks, RunCtx txns r = Some (r', res) /\ length marks = length txns
    /\ Forall (shows (r_mgr r') (ledger b txns.*1 marks)) money
    /\ br_Committed res = count_true marks /\ h_total (br_LatencyHist res) = br_Committed res
    /\ br_TotalTxns res = (br_Committed res + br_Aborted res)%Z
    /\ (0 <= br_Deadlocks res /\ 0 <= br_Conflicts res /\ br_Deadlocks res + br_Conflicts res <= br_Aborted res <= Z.of_nat (length txns * tries))%Z
    /\ (br_BalanceSumOK res = true <-> Forall (finite_in (ledger b txns.*1 marks)) money)
    /\ (Protocol cfg = ProtocolMVCC -> br_Aborted res = 0%Z /\ marks = uncancelled <$> txns.*2).
Proof.
  intros Hcfg Hc0 Hh Hi Hd Hk Hlen Hr.
  destruct (run_worker_ok txns r b Hcfg Hi Hd) as (r1 & marks & n & Hw & Hc1 & [T1 T2 T3 T4 T5 T6 T7] & Hl & Hn & Hi1 & Hnx & Hm). { unfold room in *. lia. }
  rewrite Hc0 in *. cbn in T1, T2, T3, T4, T5, T6. rewrite Hh in T7. set (b1 := ledger b txns.*1 marks) in *.
  destruct (checkInvariant_spec (r_mgr r1) b1 keys Hi1) as (m2 & ok & Hck & Hi2 & Hn2 & Hok); [unfold room in *; lia| |done|].
  { eapply keys_of_dom; [apply dom_ledger|done]. }
  unfold RunCtx. rewrite Hw. cbn [mbind option_bind]. rewrite Hc1, Hck. eexists _, _, marks. split; [reflexivity|]. split; [done|]. cbn -[money finite_in].
  split.
  { apply Forall_forall. intros table Ht. destruct (bank_scan cfg m2 b1 table eq_refl Hi2) as (m3 & rows & Hs & _ & _ & Hnd & Hrows); [unfold room in *; lia|done|].
    by exists m3, rows. }
  split; [done|]. split; [lia|]. split; [lia|]. split; [lia|]. split; [done|].
  intros Hp. destruct (Hm Hp) as [-> ->]. split; [lia|done].
Qed.
End Ledger.
