(* ===== verification/Bank.v ===== *)
(** * The bank on the two protocols ([benchmark/tpcb.go] on
      [internal/txn/manager.go])

    [BankLaws] for MVCC at every isolation level, and for 2PL with any lock
    service; then what a run of the benchmark with one worker does
    ([bank_run]), and what two workers at the default isolation level may do
    ([bank_loses_money]). *)

From Stdlib Require Import ZArith NArith Lia String.
From stdpp Require Import base tactics numbers list gmap strings pretty.
From S2P Require Import Prelude Types Lock Acquire Storage Mvcc WalRecord Wal Ssi Txn TxnInv TxnMvcc TxnIso LockLaws GapLock Txn2pl Startup Metrics Tpcb.

Definition bal (v : N) : Values := Some [FloatVal v].

Section Mvcc.
Context {L W : Type} `{LockService L} `{WALWriter W}.
Implicit Types m : Mgr L W.

(** A superseded version that no later transaction sees. *)
Definition stale (n : N) (ab : gset N) (w : Version) : Prop :=
  (ver_XMin w <= n)%N /\ ver_XMax w <> 0%N /\ (ver_XMax w <= n)%N /\ ver_XMax w ∉ ab.

(** One current version, in front of superseded ones. *)
Definition row_state (n : N) (ab : gset N) (vs : list Version) (o : option N) : Prop :=
  match o with
  | None => vs = []
  | Some v => exists x lsn older, vs = mkVersion x 0 (bal v) lsn :: older /\ x ∉ ab /\ (x <= n)%N /\ Forall (stale n ab) older
  end.

Record bank_state m (b : Balances) : Prop := {
  bs_inv : mgr_inv m;
  bs_live : store_live (m_MVCCStore m);
  bs_wal : m_WAL m = None;
  bs_max : m_MaxActive m = 0;
  bs_edges : forall x y, ~ rw_edge (m_SSI m) x y;
  bs_rows : forall table key, row_state (m_nextID m) (m_aborted m) (row_versions m table key) (b !! (table, key));
}.

Lemma stale_mono n n' ab w : (n <= n')%N -> stale n ab w -> stale n' ab w.
Proof. unfold stale. intros ? (? & ? & ? & ?). split_and!; try done; lia. Qed.

Lemma row_state_mono n n' ab vs o : (n <= n')%N -> row_state n ab vs o -> row_state n' ab vs o.
Proof.
  intros Hn. destruct o as [v|]; [|done]. intros (x & lsn & older & -> & ? & ? & Ho). exists x, lsn, older. split_and!; try done; [lia|].
  apply (Forall_impl _ _ _ Ho). intros w. by apply stale_mono.
Qed.

(** The snapshots of the newest transaction when it is alone. *)
Record lone_snapshot (t : N) (s : Snapshot) : Prop := {
  ls_min : (t <= s_Xmin s)%N;
  ls_max : s_Xmax s = (t + 1)%N;
  ls_active : forall x, Contains s x = true -> x = t;
}.

Lemma head_visible m t s x v lsn : lone_snapshot t s -> x ∉ m_aborted m -> (x <= t)%N -> IsVisible (mkVersion x 0 v lsn) t s m = true.
Proof.
  intros [S1 S2 S3] Ha Hx. unfold IsVisible. cbn [ver_XMin ver_XMax]. destruct (N.eqb_spec x t) as [->|Hne]; [done|].
  change (GetXmin s) with (s_Xmin s). change (IsAborted m x) with (bool_decide (x ∈ m_aborted m)). rewrite bool_decide_false by done.
  rewrite (proj2 (N.ltb_lt x (s_Xmin s))) by lia. done.
Qed.

Lemma stale_invisible m t s w : lone_snapshot t s -> stale t (m_aborted m) w -> IsVisible w t s m = false.
Proof.
  intros [S1 S2 S3] (_ & Hz & Hle & Hab). unfold IsVisible. destruct (negb _); [done|].
  rewrite (proj2 (N.eqb_neq _ _) Hz). destruct (N.eqb_spec (ver_XMax w) t) as [|Hne]; [done|].
  change (ContainsID s (ver_XMax w)) with (Contains s (ver_XMax w)). destruct (Contains s (ver_XMax w)) eqn:Hc; [by apply S3 in Hc|].
  change (GetXmax s) with (s_Xmax s). destruct (N.leb_spec (s_Xmax s) (ver_XMax w)); [lia|].
  change (IsAborted m (ver_XMax w)) with (bool_decide (ver_XMax w ∈ m_aborted m)). by rewrite bool_decide_false.
Qed.

Lemma no_conflict m t s vs : mgr_inv m -> m_txns m = {[t]} -> lone_snapshot t s -> checkWriteConflictLocked t vs s m = None.
Proof.
  intros HI Ht [_ _ S3]. induction vs as [|v vs IH]; [done|]. cbn [checkWriteConflictLocked]. destruct (N.eqb_spec (ver_XMin v) t) as [|Hne]; [done|].
  change (TxnStatus m (ver_XMin v)) with (bool_decide (ver_XMin v ∈ m_txns m), bool_decide (ver_XMin v ∈ m_committed m)).
  rewrite (bool_decide_false (_ ∈ m_txns m)) by (rewrite Ht; set_solver).
  change (ContainsID s (ver_XMin v)) with (Contains s (ver_XMin v)). destruct (Contains s (ver_XMin v)) eqn:Hc; [by apply S3 in Hc|]. exact IH.
Qed.

(** ** Steps of the transaction *)

(** The log, the limit and the conflict edges. *)
Definition same_base m m' : Prop :=
  m_WAL m' = m_WAL m /\ m_MaxActive m' = m_MaxActive m /\ (forall x y, rw_edge (m_SSI m') x y -> rw_edge (m_SSI m) x y).

Lemma same_base_trans m1 m2 m3 : same_base m1 m2 -> same_base m2 m3 -> same_base m1 m3.
Proof. unfold same_base. intros (A1 & A2 & A3) (B1 & B2 & B3). split_and!; [congruence|congruence|]. auto. Qed.

Lemma base_getSnapshot m t txn : same_base m (getSnapshot m t txn).1.
Proof. unfold getSnapshot. case_bool_decide; [done|]. by destruct (x_Snapshot txn). Qed.

Lemma base_ssi_read m txn k : same_base m (ssi_record_read m txn k).
Proof. unfold ssi_record_read. by case_bool_decide. Qed.

Lemma base_MVCCRead m t table key : same_base m (MVCCRead m t table key).1.
Proof.
  unfold MVCCRead. destruct (m_objs m !! t) as [txn|]; [|done]. destruct (negb _); [done|].
  pose proof (base_getSnapshot m t txn) as Hb. destruct (getSnapshot m t txn) as [m1 s]. cbn [fst] in Hb.
  destruct (GetChain _ _ _); [|done]. destruct (FindVisible _ _); [|done]. cbn [fst].
  apply (same_base_trans _ _ _ Hb). exact (base_ssi_read m1 txn _).
Qed.

(** No other transaction is active, so that a write adds no edge. *)
Lemma base_ssi_write m txn k : mgr_inv m -> m_txns m = {[x_ID txn]} -> same_base m (ssi_record_write m txn k).
Proof.
  intros HI Ht. unfold ssi_record_write. case_bool_decide; [|done].
  assert (He : forall x y, rw_edge (RecordWrite (status_active m) (m_SSI m) (x_ID txn) k).1 x y -> rw_edge (m_SSI m) x y).
  { intros x y [?|(-> & _ & Hne & Hact)]%RecordWrite_edges; [done|]. exfalso. unfold status_active in Hact.
    destruct (m_objs m !! x) as [tx|] eqn:Hx; [|done]. apply bool_decide_eq_true in Hact.
    assert (x ∈ m_txns m) by (apply (mi_active _ HI); eauto). set_solver. }
  destruct (RecordWrite _ _ _ _) as [s flagged]. cbn [fst] in He.
  assert (Hf : forall (l : list N) m0, same_base m0 (fold_left (fun m r => upd_txn m r SetInConflict) l m0)).
  { induction l as [|r l IH]; intros m0; [done|]. exact (IH (upd_txn m0 r SetInConflict)). }
  assert (Hs : same_base m (with_SSI m s)) by done. pose proof (same_base_trans _ _ _ Hs (Hf flagged (with_SSI m s))) as Hall.
  case_bool_decide; exact Hall.
Qed.

Context (iso : IsolationLevel).

Record alone m (t : N) : Prop := {
  al_txns : m_txns m = {[t]};
  al_next : m_nextID m = t;
  al_obj : exists txn, m_objs m !! t = Some txn /\ x_ID txn = t /\ x_Status txn = TxnActive /\ x_Protocol txn = ProtocolMVCC
    /\ x_Isolation txn = iso /\ (iso <> ReadCommitted -> exists s, x_Snapshot txn = Some s /\ lone_snapshot t s);
}.

Lemma alone_snapshot m t txn : mgr_inv m -> alone m t -> m_objs m !! t = Some txn -> lone_snapshot t (current_snapshot m txn).
Proof.
  intros HI [A1 A2 (txn' & Ht & _ & _ & _ & Hi & Hs)] Hx. rewrite Ht in Hx. injection Hx as ->. unfold current_snapshot. rewrite Hi.
  case_bool_decide as Hrc; [|destruct (Hs Hrc) as (s & -> & Hl); exact Hl].
  split.
  - unfold takeSnapshot. cbn [s_Xmin]. destruct (min_id (m_txns m)) as [x|] eqn:E; cbn [default].
    + apply min_id_Some in E as [E _]. set_solver by lia.
    + rewrite u64_add_small by apply HI. lia.
  - unfold takeSnapshot. cbn [s_Xmax]. rewrite u64_add_small by apply HI. lia.
  - intros x Hx%takeSnapshot_Contains. set_solver.
Qed.

Lemma alone_frame m m' t : frame m m' -> alone m t -> alone m' t.
Proof.
  intros F [A1 A2 (txn & Ht & Hid & Hst & Hp & Hi & Hs)]. split; [by rewrite (fr_txns _ _ F)|by rewrite (fr_next _ _ F)|].
  destruct (proj2 (fr_dom _ _ F t)) as [txn' Ht']; [by eexists|]. destruct (fr_objs _ _ F _ _ _ Ht Ht') as [Hl Hsn]. unfold life in Hl.
  injection Hl as E1 E2 E3 E4. exists txn'. split_and!; try congruence. intros Hrc. destruct (Hs Hrc) as (s & Hsn' & Hlone).
  exists s. split; [|done]. destruct Hsn as [->|[Hno _]]; [done|]. congruence.
Qed.

(** A step that changes no row. *)
Lemma bank_quiet m m' b : bank_state m b -> frame m m' -> quiet_step m m' -> same_base m m' -> bank_state m' b.
Proof.
  intros [B1 B2 B3 B4 B5 B6] F Q (C1 & C2 & C3). split.
  - by eapply frame_inv.
  - by rewrite (qs_store _ _ Q).
  - congruence.
  - congruence.
  - intros x y Hxy%C3. by eapply B5.
  - intros table key. rewrite (fr_next _ _ F), (fr_aborted _ _ F), (quiet_row m m') by apply Q. apply B6.
Qed.

Definition mvcc_busy m (t : N) (b0 b : Balances) : Prop := bank_state m b /\ alone m t.
Definition mvcc_idle m (b : Balances) : Prop := bank_state m b /\ m_txns m = ∅.

Lemma MVCCRead_current m t txn table key : m_objs m !! t = Some txn -> x_Status txn = TxnActive ->
  (MVCCRead m t table key).2
  = Ok (match List.find (fun v => IsVisible v t (current_snapshot m txn) m) (row_versions m table key) with
        | Some v => (ver_Data v, true) | None => (None, false) end).
Proof.
  intros Ht Hs. unfold MVCCRead. rewrite Ht, bool_decide_true by done. cbn [negb]. rewrite <-(getSnapshot_current m t txn).
  pose proof (quiet_getSnapshot m t txn) as Q. destruct (getSnapshot m t txn) as [m1 s]. cbn [fst snd] in *.
  rewrite (qs_store _ _ Q). unfold row_versions, FindVisible. destruct (GetChain _ _ _) as [c|]; [|done].
  replace (List.find (fun v => IsVisible v t s m1) (ch_versions c)) with (List.find (fun v => IsVisible v t s m) (ch_versions c)).
  { by destruct (List.find _ _). }
  induction (ch_versions c) as [|v vs IH]; [done|]. cbn. rewrite (IsVisible_sets m m1) by apply Q. by rewrite IH.
Qed.

Lemma find_current m t s o vs : lone_snapshot t s -> row_state t (m_aborted m) vs o ->
  List.find (fun v => IsVisible v t s m) vs = match o with Some _ => head vs | None => None end.
Proof.
  intros Hs Hr. destruct o as [v|]; cbn in Hr; [|by subst]. destruct Hr as (x & lsn & older & -> & Ha & Hx & _). cbn. by rewrite head_visible.
Qed.

Lemma mvcc_read m t b0 b table key : mvcc_busy m t b0 b ->
  let (m', r) := rmw_read ProtocolMVCC m t table key in
  mvcc_busy m' t b0 b /\ m_nextID m' = m_nextID m
  /\ match r with Ok v => b !! (table, key) = Some v | Err _ => ProtocolMVCC = Protocol2PL \/ b !! (table, key) = None end.
Proof.
  intros [HB HA]. pose proof (bs_inv _ _ HB) as HI. pose proof (al_obj _ _ HA) as (txn & Ht & _ & Hst & _).
  pose proof (frame_MVCCRead m t table key HI) as F. pose proof (quiet_MVCCRead m t table key) as Q. pose proof (base_MVCCRead m t table key) as C.
  pose proof (MVCCRead_current m t txn table key Ht Hst) as Hr. pose proof (bs_rows _ _ HB table key) as Hrow. rewrite (al_next _ _ HA) in Hrow.
  rewrite (find_current m t _ _ _ (alone_snapshot m t txn HI HA Ht) Hrow) in Hr. unfold rmw_read. destruct (MVCCRead m t table key) as [m' r]. cbn [fst snd] in *.
  split; [split; [by eapply bank_quiet|by eapply alone_frame]|]. split; [apply (fr_next _ _ F)|]. subst r.
  destruct (b !! (table, key)) as [v|]; [|by right]. cbn in Hrow. destruct Hrow as (x & lsn & older & -> & _). done.
Qed.

Lemma MVCCWrite_total m t table key v b : bank_state m b -> alone m t ->
  exists m' r, MVCCWrite m t table key v UndoUpdate = Some (m', r) /\ same_base m m'.
Proof.
  intros HB HA. pose proof (bs_inv _ _ HB) as HI. pose proof (al_obj _ _ HA) as (txn & Ht & Hid & Hst & _).
  unfold MVCCWrite. rewrite Ht, bool_decide_true by done. cbn [negb]. pose proof (base_getSnapshot m t txn) as C1.
  destruct (getSnapshot m t txn) as [m1 s] eqn:Es. pose proof (frame_getSnapshot _ _ _ _ _ HI Ht Es) as F1. cbn [fst] in C1.
  destruct (GetOrCreateChain (m_MVCCStore m1) table key) as [st c]. set (m2 := with_MVCCStore m1 st).
  assert (C2 : same_base m m2) by exact C1. assert (F2 : frame m m2) by (eapply frame_trans; [exact F1|by apply frame_fields]).
  destruct (CheckWriteConflict t c s m2); [by eexists _, _|]. unfold mvcc_apply.
  destruct (supersede _ t (ch_versions c)) as [[w vs]|]; [|by eexists _, _]. unfold log_write.
  replace (m_WAL m2) with (@None W) by (destruct C2 as [-> _]; symmetry; apply (bs_wal _ _ HB)).
  set (m3 := append_undo m2 t UndoUpdate table key (ver_Data w) LSNInvalid).
  assert (F3 : frame m m3) by (eapply frame_trans; [exact F2|by apply frame_upd]). set (m4 := with_MVCCStore m3 _).
  assert (F4 : frame m m4) by (eapply frame_trans; [exact F3|by apply frame_fields]).
  eexists _, _. split; [reflexivity|]. eapply same_base_trans; [exact C2|]. apply (base_ssi_write m4); [by eapply frame_inv|].
  rewrite (fr_txns _ _ F4), (al_txns _ _ HA), Hid. done.
Qed.

Lemma mvcc_write m t b0 b table key v v' : mvcc_busy m t b0 b -> b !! (table, key) = Some v ->
  exists m' r, rmw_write ProtocolMVCC m t table key v' = Some (m', r) /\ m_nextID m' = m_nextID m
    /\ match r with Ok _ => mvcc_busy m' t b0 (<[(table, key) := v']> b) | Err _ => ProtocolMVCC = Protocol2PL /\ mvcc_busy m' t b0 b end.
Proof.
  intros [HB HA] Hv. pose proof (bs_inv _ _ HB) as HI. pose proof (al_obj _ _ HA) as (txn & Ht & Hid & Hst & _).
  destruct (MVCCWrite_total m t table key (bal v') b HB HA) as (m' & r & Hw & C1 & C2 & C3). pose proof (frame_MVCCWrite _ _ _ _ _ _ _ _ HI Hw) as F.
  destruct (MVCCWrite_effect _ _ _ _ _ _ _ _ _ (bs_live _ _ HB) Ht Hst Hw) as [(W1 & W2 & W3 & _ & W5) Hrow].
  pose proof (alone_snapshot m t txn HI HA Ht) as Hs. rewrite no_conflict in Hrow by (done || apply HA). destruct Hrow as (lsn & Hrow).
  pose proof (bs_rows _ _ HB table key) as Hst0. rewrite Hv, (al_next _ _ HA) in Hst0. destruct Hst0 as (x & lsn0 & older & Hvs & Hxa & Hxt & Hold).
  rewrite Hvs in Hrow. cbn [write_versions supersede] in Hrow. rewrite head_visible in Hrow by done. cbn in Hrow. destruct Hrow as (-> & Hvs' & _).
  unfold rmw_write. fold (bal v'). rewrite Hw. cbn. eexists _, _. split; [done|]. split; [apply (fr_next _ _ F)|]. split; [|by eapply alone_frame].
  assert (Hta : t ∉ m_aborted m) by (pose proof (mi_ta _ HI); rewrite (al_txns _ _ HA) in *; set_solver).
  assert (Ht0 : t <> 0%N) by (intros ->; apply (mi_zero _ HI); rewrite (al_txns _ _ HA); set_solver).
  split; [by eapply frame_inv|done|by rewrite C1; apply (bs_wal _ _ HB)|by rewrite C2; apply (bs_max _ _ HB)|intros ? ? Hxy%C3; by eapply (bs_edges _ _ HB)|].
  intros table' key'. rewrite (fr_next _ _ F), W3. destruct (decide ((table', key') = (table, key))) as [[= -> ->]|Hne].
  - rewrite lookup_insert_eq, Hvs', (al_next _ _ HA). cbn. eexists t, lsn, _. split; [done|]. split; [done|]. split; [done|]. constructor; [|done].
    unfold stale. cbn. split_and!; try done; lia.
  - rewrite lookup_insert_ne by congruence. unfold row_versions. rewrite W5 by done. apply (bs_rows _ _ HB).
Qed.

Lemma mvcc_begin m b : mvcc_idle m b -> room m 0 ->
  exists m' t, Begin m ProtocolMVCC iso = (m', Ok t) /\ mvcc_busy m' t b b /\ m_nextID m' = (m_nextID m + 1)%N.
Proof.
  intros [HB Htx] Hr. pose proof (bs_inv _ _ HB) as HI. unfold room in Hr.
  assert (Hu : u64_add (m_nextID m) 1 = (m_nextID m + 1)%N) by (apply u64_add_small; lia).
  pose proof (Begin_inv m ProtocolMVCC iso HI ltac:(lia)) as HI'. revert HI'. unfold Begin, at_capacity. rewrite (bs_max _ _ HB). cbn [Nat.ltb Nat.leb andb].
  unfold nextTxnID. rewrite Hu. cbn [fst]. set (t := (m_nextID m + 1)%N). set (m0 := register _ _ _ _). intros HI'.
  assert (Hlog : log_begin m0 t = m0) by (unfold log_begin; by replace (m_WAL m0) with (@None W) by (symmetry; apply (bs_wal _ _ HB))).
  rewrite Hlog in *. exists m0, t. split; [done|]. split; [|done]. split.
  - split; [done|apply (bs_live _ _ HB)|apply (bs_wal _ _ HB)|apply (bs_max _ _ HB)|apply (bs_edges _ _ HB)|].
    intros table key. apply (row_state_mono (m_nextID m)); [cbn; unfold t; lia|]. apply (bs_rows _ _ HB).
  - split; [cbn; rewrite Htx; set_solver|done|]. eexists. split; [cbn; apply lookup_insert_eq|]. cbn. split_and!; try done. intros Hrc. rewrite (bool_decide_false (iso = ReadCommitted)) by done. cbn.
    eexists. split; [done|]. unfold takeSnapshot, min_id. cbn [m_txns m_nextID with_nextID]. rewrite Htx, elements_empty. cbn.
    rewrite u64_add_small by (unfold t; lia). split; cbn; [lia|done|done].
Qed.

Lemma mvcc_commit m t b0 b : mvcc_busy m t b0 b -> exists m', Commit m t = (m', Ok tt) /\ mvcc_idle m' b /\ m_nextID m' = m_nextID m.
Proof.
  intros [HB HA]. pose proof (bs_inv _ _ HB) as HI. pose proof (al_obj _ _ HA) as (txn & Ht & Hid & Hst & Hp & _).
  pose proof (Commit_inv m t HI) as HI'. revert HI'. unfold Commit, GetTxn. rewrite bool_decide_true by (rewrite (al_txns _ _ HA); set_solver). rewrite Ht, Hst.
  assert (Hcc : CheckCommit (m_SSI m) t = false).
  { apply not_true_iff_false. intros [[w Hw] _]%isPivotLocked_spec. by eapply (bs_edges _ _ HB). }
  rewrite Hcc, andb_false_r. unfold log_commit. rewrite (bs_wal _ _ HB), (bool_decide_false (x_Protocol txn = Protocol2PL)) by congruence.
  intros HI'. eexists. split; [reflexivity|]. cbn [fst] in HI'. split; [|by destruct (ssi_enabled txn)]. split.
  - split; [done|by destruct (ssi_enabled txn); apply (bs_live _ _ HB)|by destruct (ssi_enabled txn); apply (bs_wal _ _ HB)|by destruct (ssi_enabled txn); apply (bs_max _ _ HB)| |].
    + intros x y. destruct (ssi_enabled txn); cbn; [|apply (bs_edges _ _ HB)]. intros [Hxy _]%Cleanup_edges. by eapply (bs_edges _ _ HB).
    + intros table key. destruct (ssi_enabled txn); apply (bs_rows _ _ HB).
  - pose proof (al_txns _ _ HA). destruct (ssi_enabled txn); cbn; set_solver.
Qed.
End Mvcc.

Section Instances.
Context {L W : Type} `{LockService L} `{WALWriter W}.
Implicit Types m : Mgr L W.

(** The loop of a scan below serializable: the current version of every
    chain that has one. *)
Lemma scan_fold m txn s table chains acc : x_Isolation txn = ReadCommitted ->
  fold_left (scan_chain txn s table None) chains (m, acc)
  = (m, acc ++ omap (fun kc => (fun v => mkRow kc.1 (ver_Data v)) <$> List.find (fun v => IsVisible v (x_ID txn) s m) (ch_versions kc.2)) chains).
Proof.
  intros Hi. revert acc. induction chains as [|[key c] chains IH]; intros acc; cbn [fold_left]; [by rewrite app_nil_r|].
  unfold scan_chain at 2, FindVisible. cbn. destruct (List.find _ (ch_versions c)) as [v|]; cbn.
  - unfold ssi_record_read. rewrite bool_decide_false by congruence. rewrite IH. by rewrite <-app_assoc.
  - apply IH.
Qed.

Lemma omap_keys (f : Version -> bool) (l : list (string * VersionChain)) :
  row_Key <$> omap (fun kc => (fun v => mkRow kc.1 (ver_Data v)) <$> List.find f (ch_versions kc.2)) l `sublist_of` l.*1.
Proof. induction l as [|[k c] l IH]; [done|]. cbn. destruct (List.find f (ch_versions c)); cbn; by constructor. Qed.

Lemma chain_in_table (s : Store) table key c : (key, c) ∈ ForEachChainInTable s table <-> GetChain s table key = Some c.
Proof.
  unfold ForEachChainInTable, GetChain. rewrite elem_of_map_to_list. destruct (s !! table); [done|]. cbn. by rewrite lookup_empty.
Qed.

Lemma mvcc_scan cfg m b table : Protocol cfg = ProtocolMVCC -> mvcc_idle m b -> room m 0 ->
  exists m' rows, scanAll cfg m table = (m', Some rows) /\ mvcc_idle m' b /\ (m_nextID m' <= m_nextID m + 1)%N
    /\ NoDup (row_Key <$> rows)
    /\ forall row, row ∈ rows <-> exists v, b !! (table, row_Key row) = Some v /\ row_Values row = bal v.
Proof.
  intros Hp Hi Hr. unfold scanAll. rewrite Hp. destruct (mvcc_begin ReadCommitted m b Hi Hr) as (m1 & t & -> & [HB HA] & Hn).
  pose proof (bs_inv _ _ HB) as HI. pose proof (al_obj _ _ _ HA) as (txn & Ht & Hid & Hst & Hpr & Hiso & _).
  pose proof (frame_MVCCScan m1 t table None HI) as F0. unfold MVCCScan in *. rewrite Ht, bool_decide_true in * by done. cbn [negb] in *.
  pose proof (quiet_getSnapshot m1 t txn) as Q. pose proof (base_getSnapshot m1 t txn) as C. pose proof (getSnapshot_current m1 t txn) as Hs.
  destruct (getSnapshot m1 t txn) as [m2 s] eqn:Es. pose proof (frame_getSnapshot _ _ _ _ _ HI Ht Es) as F. cbn [fst snd] in *. subst s.
  rewrite scan_fold by done. cbn [app]. pose proof (bank_quiet _ _ _ HB F Q C) as HB2. pose proof (alone_frame _ _ _ _ F HA) as HA2.
  pose proof (alone_snapshot _ _ _ _ HI HA Ht) as Hlone. set (snap := current_snapshot m1 txn) in *.
  destruct (mvcc_commit ReadCommitted m2 t b b (conj HB2 HA2)) as (m3 & Hc & Hi3 & Hn3). rewrite Hc. cbn [fst].
  eexists _, _. split; [reflexivity|]. split; [done|]. split; [rewrite Hn3, (fr_next _ _ F); lia|]. split.
  { eapply sublist_NoDup; [|apply omap_keys]. apply NoDup_fst_map_to_list. }
  assert (Hfind : forall key c, GetChain (m_MVCCStore m2) table key = Some c ->
    List.find (fun v => IsVisible v (x_ID txn) snap m2) (ch_versions c) = match b !! (table, key) with Some _ => head (ch_versions c) | None => None end
    /\ row_state t (m_aborted m2) (ch_versions c) (b !! (table, key))).
  { intros key c Hg. pose proof (bs_rows _ _ HB2 table key) as Hrow. unfold row_versions in Hrow. rewrite Hg, (al_next _ _ _ HA2) in Hrow.
    split; [|done]. rewrite Hid. by apply find_current. }
  intros row. rewrite list_elem_of_omap. split.
  - intros ([key c] & Hin & Hrow). apply chain_in_table in Hin. destruct (Hfind key c Hin) as [Hf Hst']. cbn in Hrow. rewrite Hf in Hrow.
    destruct (b !! (table, key)) as [v|] eqn:Hb; [|done]. destruct Hst' as (x & lsn & older & Hvs & _). rewrite Hvs in Hrow. injection Hrow as <-. cbn. by exists v.
  - intros (v & Hb & Hval). pose proof (bs_rows _ _ HB2 table (row_Key row)) as Hrow. rewrite Hb in Hrow. unfold row_versions in Hrow.
    destruct (GetChain (m_MVCCStore m2) table (row_Key row)) as [c|] eqn:Hg; [|by destruct Hrow as (? & ? & ? & ? & _)].
    exists (row_Key row, c). split; [by apply chain_in_table|]. destruct (Hfind _ _ Hg) as [Hf Hst']. cbn. rewrite Hf, Hb. destruct Hrow as (x & lsn & older & -> & _). cbn.
    f_equal. destruct row as [k w]. cbn in *. by subst.
Qed.

#[export] Instance bank_mvcc iso : BankProtocol (L := L) (W := W) ProtocolMVCC iso := {| idle := mvcc_idle; busy := mvcc_busy iso |}.

#[export] Instance bank_mvcc_laws iso : BankLaws (L := L) (W := W) ProtocolMVCC iso.
Proof.
  split.
  - apply mvcc_begin.
  - apply mvcc_read.
  - apply mvcc_write.
  - apply mvcc_commit.
  - done.
  - intros. by apply mvcc_scan.
Qed.

(** ** 2PL: the rows of the catalog *)

Record pl_state m (b : Balances) : Prop := {
  ps_inv : mgr_inv m;
  ps_wal : m_WAL m = None;
  ps_max : m_MaxActive m = 0;
  ps_tables : forall table, table ∈ money -> is_Some (Lookup (m_Catalog m) table);
  ps_rows : forall table key, row_of m table key = bal <$> b !! (table, key);
}.

Definition pl_idle m (b : Balances) : Prop := pl_state m b /\ m_txns m = ∅.

Record pl_busy (iso : IsolationLevel) m (t : N) (b0 b : Balances) : Prop := {
  pb_state : pl_state m b;
  pb_txns : m_txns m = {[t]};
  pb_txn : exists txn, m_objs m !! t = Some txn /\ x_ID txn = t /\ x_Status txn = TxnActive /\ x_Protocol txn = Protocol2PL
    /\ forall table key, is_Some (Lookup (m_Catalog m) table) ->
         fold_left (undo_row table key) (rev (x_UndoLog txn)) (row_of m table key) = bal <$> b0 !! (table, key);
  pb_base : forall table key, Lookup (m_Catalog m) table = None -> b0 !! (table, key) = None;
}.

Lemma with_locks_same m : with_locks m (m_locks m) = m.
Proof. by destruct m. Qed.

Lemma pl_state_locks m b l : pl_state m b -> pl_state (with_locks m l) b.
Proof. intros [P1 P2 P3 P4 P5]. split; [|done..]. eapply frame_inv; [|exact P1]. by apply frame_fields. Qed.

Lemma pl_busy_locks iso m t b0 b l : pl_busy iso m t b0 b -> pl_busy iso (with_locks m l) t b0 b.
Proof. intros [B1 B2 B3 B4]. split; [by apply pl_state_locks|done..]. Qed.

(** A read changes the locks only, and returns the row. *)
Lemma TwoPLRead_row m txn table key : exists l,
  (TwoPLRead m txn table key).1 = with_locks m l
  /\ match (TwoPLRead m txn table key).2 with
     | Ok (v, found) => v = default None (row_of m table key) /\ found = bool_decide (is_Some (row_of m table key))
     | Err _ => True
     end.
Proof.
  set (good := fun r : result TxnError (Values * bool) => match r with
    | Ok (v, found) => v = default None (row_of m table key) /\ found = bool_decide (is_Some (row_of m table key)) | Err _ => True end).
  assert (Hread : forall m', m_Catalog m' = m_Catalog m ->
    match (match Lookup (m_Catalog m') table with None => (m', Err (NewTableNotFoundError table)) | Some t => (m', Ok (GetRow t key)) end) with
    | (m2, r) => m2 = m' /\ good r end).
  { intros m' Hc. rewrite Hc. unfold good, row_of, GetRow, Lookup. destruct (m_Catalog m !! table) as [tb|]; [|done]. by destruct (t_rows tb !! key). }
  unfold TwoPLRead. case_bool_decide.
  - exists (m_locks m). rewrite with_locks_same. specialize (Hread m eq_refl).
    destruct (match Lookup (m_Catalog m) table with None => _ | Some t => _ end) as [m' r]. by destruct Hread as [-> ?].
  - destruct (lk_acquire _ _ _ LockIS) as [l [[]|e]]; [|by exists l]. destruct (lk_acquire _ _ _ LockS) as [l2 [[]|e]]; [|by exists l2].
    exists l2. specialize (Hread (with_locks m l2) eq_refl). change (with_locks (with_locks m l) l2) with (with_locks m l2).
    destruct (match Lookup (m_Catalog (with_locks m l2)) table with None => _ | Some t => _ end) as [m' r]. by destruct Hread as [-> ?].
Qed.

Lemma pl_read iso m t b0 b table key : pl_busy iso m t b0 b ->
  let (m', r) := rmw_read Protocol2PL m t table key in
  pl_busy iso m' t b0 b /\ m_nextID m' = m_nextID m
  /\ match r with Ok v => b !! (table, key) = Some v | Err _ => Protocol2PL = Protocol2PL \/ b !! (table, key) = None end.
Proof.
  intros HB. pose proof (pb_txn _ _ _ _ _ HB) as (txn & Ht & _). unfold rmw_read. rewrite Ht.
  destruct (TwoPLRead_row m txn table key) as (l & Hm & Hr). destruct (TwoPLRead m txn table key) as [m' r]. cbn [fst snd] in *. subst m'.
  split; [by apply pl_busy_locks|]. split; [done|]. destruct r as [[v found]|e]; [|by left]. destruct Hr as [-> ->].
  rewrite (ps_rows _ _ (pb_state _ _ _ _ _ HB)). destruct (b !! (table, key)); cbn; by auto.
Qed.

Lemma put_row_of m m' table tb key v : Lookup (m_Catalog m) table = Some tb -> m_Catalog m' = <[table := PutRow tb key v]> (m_Catalog m) ->
  forall table' key', row_of m' table' key' = if decide ((table', key') = (table, key)) then Some v else row_of m table' key'.
Proof.
  intros Hl Hc table' key'. unfold row_of, Lookup in *. rewrite Hc, lookup_insert. case_decide as Ht.
  - subst table'. cbn. rewrite lookup_insert, Hl. repeat case_decide; congruence.
  - rewrite decide_False by congruence. done.
Qed.

Lemma put_tables m m' table tb key v : Lookup (m_Catalog m) table = Some tb -> m_Catalog m' = <[table := PutRow tb key v]> (m_Catalog m) ->
  forall table', is_Some (Lookup (m_Catalog m') table') <-> is_Some (Lookup (m_Catalog m) table').
Proof. intros Hl Hc table'. unfold Lookup in *. rewrite Hc, lookup_insert. case_decide; [subst; by rewrite Hl|done]. Qed.

(** The two outcomes of a write of an existing row. *)
Lemma TwoPLWrite_row m txn table tb key v : m_WAL m = None -> Lookup (m_Catalog m) table = Some tb ->
  exists m' r, TwoPLWrite m txn table key v UndoUpdate = Some (m', r)
    /\ match r with
       | Err _ => exists l, m' = with_locks m l
       | Ok _ => m_WAL m' = None /\ m_MaxActive m' = m_MaxActive m /\ m_Catalog m' = <[table := PutRow tb key v]> (m_Catalog m)
           /\ forall tx, m_objs m !! x_ID txn = Some tx -> exists tx', m_objs m' !! x_ID txn = Some tx'
                /\ x_UndoLog tx' = x_UndoLog tx ++ [mkUndo UndoUpdate table key (GetRow tb key).1 LSNInvalid]
       end.
Proof.
  intros Hw Hl. unfold TwoPLWrite. destruct (lk_acquire _ _ _ LockIX) as [l1 [[]|e]]; [|by eexists _, _; split; [done|exists l1]].
  destruct (lk_acquire _ _ _ LockX) as [l2 [[]|e]]; [|by eexists _, _; split; [done|exists l2]].
  cbn [m_Catalog with_locks]. rewrite Hl. unfold log_write. cbn [m_WAL with_locks]. rewrite Hw. eexists _, _. split; [reflexivity|]. cbn -[LSNInvalid].
  split_and!; try done. intros tx Htx. rewrite !lookup_alter_eq, Htx. cbn -[LSNInvalid]. by eexists.
Qed.

Lemma pl_write iso m t b0 b table key v v' : pl_busy iso m t b0 b -> b !! (table, key) = Some v ->
  exists m' r, rmw_write Protocol2PL m t table key v' = Some (m', r) /\ m_nextID m' = m_nextID m
    /\ match r with Ok _ => pl_busy iso m' t b0 (<[(table, key) := v']> b) | Err _ => Protocol2PL = Protocol2PL /\ pl_busy iso m' t b0 b end.
Proof.
  intros HB Hv. pose proof (pb_txn _ _ _ _ _ HB) as (txn & Ht & Hid & Hst & Hp & Hundo). pose proof (pb_state _ _ _ _ _ HB) as [P1 P2 P3 P4 P5].
  pose proof (P5 table key) as Hrow. rewrite Hv in Hrow. cbn in Hrow.
  assert (exists tb, Lookup (m_Catalog m) table = Some tb) as [tb Hl] by (unfold row_of in Hrow; destruct (Lookup (m_Catalog m) table); [by eexists|done]).
  unfold rmw_write. rewrite Ht. fold (bal v'). destruct (TwoPLWrite_row m txn table tb key (bal v') P2 Hl) as (m' & r & Hw & Hr). rewrite Hw. cbn [mbind option_bind].
  pose proof (frame_TwoPLWrite _ _ _ _ _ _ _ _ Hw) as F. eexists _, _. split; [done|]. split; [apply (fr_next _ _ F)|].
  destruct r as [[]|e]; [|destruct Hr as [l ->]; split; [done|by apply pl_busy_locks]]. destruct Hr as (R1 & R2 & R3 & R4).
  pose proof (put_row_of _ _ _ _ _ _ Hl R3) as Hput. pose proof (put_tables _ _ _ _ _ _ Hl R3) as Htab.
  rewrite Hid in R4. destruct (R4 _ Ht) as (txn' & Ht' & Hlog). destruct (fr_objs _ _ F _ _ _ Ht Ht') as [Hlife _]. injection Hlife as E1 E2 E3 E4.
  split.
  - split; [by eapply frame_inv|done|congruence|intros tab Htm; by apply Htab, P4|]. intros table' key'. rewrite Hput, lookup_insert.
    repeat case_decide; try congruence; (done || apply P5).
  - rewrite (fr_txns _ _ F). apply HB.
  - exists txn'. split_and!; try congruence. intros table' key' Hs%Htab. rewrite Hlog, rev_app_distr. cbn [rev app fold_left].
    rewrite <-(Hundo table' key' Hs). f_equal. rewrite Hput. unfold undo_row. cbn [u_Table u_Key u_Op u_BeforeImage].
    rewrite (row_GetRow m table key tb Hl), Hrow. cbn [default]. unfold bal. case_decide as Heq.
    + rewrite bool_decide_true by congruence. injection Heq as -> ->. by rewrite Hrow.
    + by rewrite bool_decide_false by congruence.
  - intros table' key' Hn. apply (pb_base _ _ _ _ _ HB). apply eq_None_not_Some. intros Hs%Htab. by rewrite Hn in Hs; destruct Hs.
Qed.

Lemma pl_begin iso m b : pl_idle m b -> room m 0 ->
  exists m' t, Begin m Protocol2PL iso = (m', Ok t) /\ pl_busy iso m' t b b /\ m_nextID m' = (m_nextID m + 1)%N.
Proof.
  intros [[P1 P2 P3 P4 P5] Htx] Hr. unfold room in Hr. assert (Hu : u64_add (m_nextID m) 1 = (m_nextID m + 1)%N) by (apply u64_add_small; lia).
  pose proof (Begin_inv m Protocol2PL iso P1 ltac:(lia)) as HI'. revert HI'. unfold Begin, at_capacity. rewrite P3. cbn [Nat.ltb Nat.leb andb].
  unfold nextTxnID. rewrite Hu. cbn [fst]. set (t := (m_nextID m + 1)%N). set (m0 := register _ _ _ _). intros HI'.
  assert (Hlog : log_begin m0 t = m0) by (unfold log_begin; by replace (m_WAL m0) with (@None W) by (by symmetry)).
  rewrite Hlog in *. exists m0, t. split; [done|]. split; [|done]. split; [by split|cbn; rewrite Htx; set_solver| |].
  - eexists. split; [cbn; apply lookup_insert_eq|]. cbn. split_and!; try done. intros. apply P5.
  - intros table key Hn. specialize (P5 table key). unfold row_of in P5. change (m_Catalog m0) with (m_Catalog m) in Hn. rewrite Hn in P5. by destruct (b !! (table, key)).
Qed.

Lemma pl_commit iso m t b0 b : pl_busy iso m t b0 b -> exists m', Commit m t = (m', Ok tt) /\ pl_idle m' b /\ m_nextID m' = m_nextID m.
Proof.
  intros [[P1 P2 P3 P4 P5] Htx (txn & Ht & Hid & Hst & Hp & _) _]. pose proof (Commit_inv m t P1) as HI'. revert HI'.
  unfold Commit, GetTxn. rewrite bool_decide_true by (rewrite Htx; set_solver). rewrite Ht, Hst.
  assert (Hssi : ssi_enabled txn = false) by (unfold ssi_enabled; by rewrite bool_decide_false by congruence). rewrite Hssi. cbn [andb].
  unfold log_commit. rewrite P2, bool_decide_true by done. intros HI'. eexists. split; [reflexivity|]. split; [|done]. split; [by split|]. cbn. set_solver.
Qed.

Lemma undo_loop_base id es clr m : m_WAL m = None ->
  m_WAL (undo_loop id es clr m).1 = None /\ m_MaxActive (undo_loop id es clr m).1 = m_MaxActive m.
Proof. revert clr m. induction es as [|e es IH]; intros clr m Hw; cbn [undo_loop]; [done|]. rewrite Hw. exact (IH clr (with_Catalog m (undo_catalog (m_Catalog m) e)) Hw). Qed.

Lemma pl_abort iso m t b0 b : pl_busy iso m t b0 b -> pl_idle (Abort m t).1 b0 /\ m_nextID (Abort m t).1 = m_nextID m.
Proof.
  intros [[P1 P2 P3 P4 P5] Htx (txn & Ht & Hid & Hst & Hp & Hundo) Hb0]. split; [|apply Abort_txns].
  assert (Hin : t ∈ m_txns m) by (rewrite Htx; set_solver).
  pose proof (Abort_inv m t P1) as HI'. pose proof (fun table key => abort_row m t txn table key P1 Hin Ht Hp) as Hrows.
  assert (Hbase : m_WAL (Abort m t).1 = None /\ m_MaxActive (Abort m t).1 = m_MaxActive m
    /\ m_txns (Abort m t).1 = m_txns m ∖ {[t]} /\ m_Catalog (Abort m t).1 = fold_left undo_catalog (rev (x_UndoLog txn)) (m_Catalog m)).
  { unfold Abort, GetTxn. rewrite bool_decide_true by done. rewrite Ht, Hst. unfold teardown. rewrite Hp. unfold applyUndoLog, applyUndoEntries.
    set (m1 := upd_txn (finish_abort m t) t closeAbort). pose proof (undo_loop_base (x_ID txn) (rev (x_UndoLog txn)) LSNInvalid m1 P2) as [U1 U2].
    pose proof (undo_loop_spec (x_ID txn) (rev (x_UndoLog txn)) LSNInvalid m1) as (_ & U3 & _ & U4). destruct (undo_loop _ _ _ m1) as [m2 clr]. cbn [fst] in *.
    assert (Hssi : ssi_enabled txn = false) by (unfold ssi_enabled; by rewrite bool_decide_false by congruence). rewrite Hssi.
    unfold log_abort. cbn [m_WAL with_locks]. rewrite U1. cbn [fst with_locks m_WAL m_MaxActive m_txns m_Catalog]. by rewrite U1, U2, U3, U4. }
  destruct Hbase as (C1 & C2 & C3 & C4). split; [|rewrite C3, Htx; set_solver]. split; [done|done|congruence| |].
  - intros table Hm%P4. rewrite C4. by apply undo_fold_tables.
  - intros table key. destruct (Lookup (m_Catalog m) table) as [tb|] eqn:Hl.
    + rewrite Hrows by (by rewrite Hl). apply Hundo. by rewrite Hl.
    + rewrite (Hb0 table key Hl). unfold row_of. rewrite C4. replace (Lookup (fold_left _ _ _) table) with (@None Table); [done|].
      symmetry. revert Hl. generalize (m_Catalog m) (rev (x_UndoLog txn)). clear. intros c es. revert c. induction es as [|e es IH]; intros c Hl; [done|].
      cbn. apply IH. unfold undo_catalog, Lookup in *. destruct (c !! u_Table e) eqn:He; [|done].
      assert (u_Table e <> table) by congruence. destruct (u_Op e); [|destruct (u_BeforeImage e)..]; rewrite ?lookup_insert_ne; done.
Qed.

Lemma pl_scan cfg m b table : Protocol cfg = Protocol2PL -> pl_idle m b -> table ∈ money ->
  exists rows, scanAll cfg m table = (m, Some rows) /\ NoDup (row_Key <$> rows)
    /\ forall row, row ∈ rows <-> exists v, b !! (table, row_Key row) = Some v /\ row_Values row = bal v.
Proof.
  intros Hp [[P1 P2 P3 P4 P5] _] Hm. unfold scanAll. rewrite Hp. destruct (P4 table Hm) as [tb Hl]. rewrite Hl. cbn.
  eexists. split; [done|]. split; [apply scan_keys_NoDup|]. rewrite scan_rows.
  intros [k w]. cbn. rewrite list_elem_of_fmap. specialize (P5 table k). unfold row_of in P5. rewrite Hl in P5. split.
  - intros ([k' w'] & [= -> ->] & Hin%elem_of_map_to_list). rewrite Hin in P5. destruct (b !! (table, k')) as [v|]; [|done]. injection P5 as ->. by exists v.
  - intros (v & Hv & ->). rewrite Hv in P5. exists (k, bal v). split; [done|]. by apply elem_of_map_to_list.
Qed.

#[export] Instance bank_pl iso : BankProtocol (L := L) (W := W) Protocol2PL iso := {| idle := pl_idle; busy := pl_busy iso |}.

#[export] Instance bank_pl_laws iso : BankLaws (L := L) (W := W) Protocol2PL iso.
Proof.
  split.
  - apply pl_begin.
  - apply pl_read.
  - apply pl_write.
  - apply pl_commit.
  - intros m t b0 b _. apply pl_abort.
  - intros cfg m b table Hp Hi _ Hm. destruct (pl_scan cfg m b table Hp Hi Hm) as (rows & Hs & Hnd & Hrows).
    exists m, rows. split; [done|]. split; [done|]. split; [lia|]. by split.
Qed.
End Instances.

(** ** The opening balances *)

Definition keys (n : nat) : list string := (fun i : nat => pretty i) <$> seq 0 n.

Definition opening_balance (cfg : Config) (table : string) : option (nat * N) :=
  if String.eqb table TableAccounts then Some (NumAccounts cfg, intf 1000)
  else if String.eqb table TableTellers then Some (NumTellers cfg, intf 0)
  else if String.eqb table TableBranches then Some (NumBranches cfg, intf 0)
  else None.

Definition opening_rows (cfg : Config) : list ((string * string) * N) :=
  money ≫= fun table => match opening_balance cfg table with Some (n, v) => (fun k => ((table, k), v)) <$> keys n | None => [] end.

Definition opening (cfg : Config) : Balances := list_to_map (opening_rows cfg).

Lemma keys_NoDup n : NoDup (keys n).
Proof. apply NoDup_fmap_2; [apply _|apply NoDup_seq]. Qed.

Lemma opening_lookup cfg table key :
  opening cfg !! (table, key) = match opening_balance cfg table with Some (n, v) => if decide (key ∈ keys n) then Some v else None | None => None end.
Proof.
  set (l := opening_rows cfg). assert (Hl : forall tk v, (tk, v) ∈ l <-> exists n, opening_balance cfg tk.1 = Some (n, v) /\ tk.2 ∈ keys n).
  { intros [t k] v. unfold l, opening_rows. rewrite list_elem_of_bind. cbn [fst snd]. split.
    - intros (x & Hin & Hx). destruct (opening_balance cfg x) as [[n w]|] eqn:Ho; [|by apply elem_of_nil in Hin].
      apply list_elem_of_fmap in Hin as (k' & [= -> -> ->] & Hk). by exists n.
    - intros (n & Ho & Hk). exists t. split.
      + rewrite Ho. apply list_elem_of_fmap. by exists k.
      + unfold opening_balance in Ho. destruct (String.eqb_spec t TableAccounts); [subst; by left|].
        destruct (String.eqb_spec t TableTellers); [subst; right; by left|]. destruct (String.eqb_spec t TableBranches); [subst; right; right; by left|done]. }
  unfold opening. fold l. destruct (list_to_map l !! (table, key)) as [v|] eqn:Hm.
  - apply elem_of_list_to_map_2, Hl in Hm as (n & Ho & Hk). cbn in *. rewrite Ho. by rewrite decide_True.
  - apply not_elem_of_list_to_map_2 in Hm. destruct (opening_balance cfg table) as [[n v]|] eqn:Ho; [|done].
    case_decide as Hk; [|done]. exfalso. apply Hm. apply list_elem_of_fmap. exists ((table, key), v). split; [done|]. apply Hl. by exists n.
Qed.

Lemma put_rows_lookup n v t key :
  t_rows (put_rows n v t) !! key = if decide (key ∈ keys n) then Some (bal v) else t_rows t !! key.
Proof.
  unfold put_rows, keys. generalize 0 as a. revert t. induction n as [|n IH]; intros t a; cbn [seq fold_left fmap list_fmap]; [done|].
  rewrite IH. cbn [PutRow t_rows]. rewrite lookup_insert. repeat case_decide; try done; set_solver.
Qed.

Lemma bench_tables table : match bench_catalog !! table with Some tb => t_rows tb = ∅ | None => table ∉ money end.
Proof.
  unfold bench_catalog, Register. cbn [fold_left NewTable t_Name]. rewrite !lookup_insert. repeat (case_decide; [subst; done|]).
  unfold NewCatalog. rewrite lookup_empty. unfold money. set_solver.
Qed.

Definition seeded_catalog (cfg : Config) : Catalog :=
  on_table (on_table (on_table bench_catalog TableAccounts (put_rows (NumAccounts cfg) (intf 1000)))
    TableTellers (put_rows (NumTellers cfg) (intf 0))) TableBranches (put_rows (NumBranches cfg) (intf 0)).

Lemma seeded_lookup cfg table :
  seeded_catalog cfg !! table = (fun tb => match opening_balance cfg table with Some (n, v) => put_rows n v tb | None => tb end) <$> bench_catalog !! table.
Proof.
  unfold seeded_catalog, on_table, opening_balance. rewrite !lookup_alter.
  destruct (String.eqb_spec table TableAccounts) as [->|H1]; [by destruct (bench_catalog !! TableAccounts)|]. rewrite (decide_False (P := TableAccounts = table)) by congruence.
  destruct (String.eqb_spec table TableTellers) as [->|H2]; [by destruct (bench_catalog !! TableTellers)|]. rewrite (decide_False (P := TableTellers = table)) by congruence.
  destruct (String.eqb_spec table TableBranches) as [->|H3]; [by destruct (bench_catalog !! TableBranches)|]. rewrite decide_False by congruence.
  by destruct (bench_catalog !! table).
Qed.

Lemma opening_money cfg table n v : opening_balance cfg table = Some (n, v) -> table ∈ money.
Proof.
  unfold opening_balance, money. repeat case_match; try done; intros _;
    match goal with H : String.eqb _ _ = true |- _ => apply String.eqb_eq in H as -> end; set_solver.
Qed.

Lemma seeded_rows cfg table key : catalog_row (seeded_catalog cfg) table key = bal <$> opening cfg !! (table, key).
Proof.
  unfold catalog_row, Lookup. rewrite seeded_lookup, opening_lookup. pose proof (bench_tables table) as Hb. destruct (bench_catalog !! table) as [tb|]; cbn.
  - destruct (opening_balance cfg table) as [[n v]|]; [rewrite put_rows_lookup|]; rewrite Hb, ?lookup_empty; [by case_decide|done].
  - destruct (opening_balance cfg table) as [[n v]|] eqn:Ho; [|done]. by apply opening_money in Ho.
Qed.

Section Opening.
Context {L W : Type} `{LockService L} `{WALWriter W}.
Context (locks : L) (cfg : Config) (bm : option BenchMetrics).

Lemma new_mgr : let m := r_mgr (NewRunner (W := W) locks cfg bm) in
  mgr_inv m /\ m_txns m = ∅ /\ m_nextID m = 0%N /\ m_aborted m = ∅ /\ m_WAL m = None /\ m_MaxActive m = 0 /\ m_SSI m = NewSSITracker
  /\ m_Catalog m = seeded_catalog cfg /\ store_live (m_MVCCStore m)
  /\ forall table key, row_versions m table key = match bal <$> opening cfg !! (table, key) with Some v => [mkVersion 0 0 v 0] | None => [] end.
Proof.
  cbn zeta. unfold NewRunner, r_mgr, seed. set (m0 := NewManager _ _ _ _). change (m_Catalog m0) with bench_catalog. fold (seeded_catalog cfg).
  set (m1 := with_Catalog m0 (seeded_catalog cfg)). pose proof (frame_reseed 0 [TableAccounts; TableTellers; TableBranches] m1) as F.
  assert (HI : mgr_inv m1) by (split; simpl; try set_solver; done).
  assert (Hf : forall names (m : Mgr L W), store_live (m_MVCCStore m) -> let m' := fold_left (reseed_table 0) names m in
    m_WAL m' = m_WAL m /\ m_MaxActive m' = m_MaxActive m /\ m_SSI m' = m_SSI m /\ store_live (m_MVCCStore m')).
  { clear. induction names as [|x names IH]; intros m Hl; [done|]. cbn [fold_left]. cbv zeta.
    assert (Hx : m_WAL (reseed_table 0 m x) = m_WAL m /\ m_MaxActive (reseed_table 0 m x) = m_MaxActive m /\ m_SSI (reseed_table 0 m x) = m_SSI m
      /\ store_live (m_MVCCStore (reseed_table 0 m x))).
    { unfold reseed_table. destruct (Lookup (m_Catalog m) x); [|done]. split_and!; try done. cbn. by apply seed_spec. }
    destruct Hx as (X1 & X2 & X3 & X4). destruct (IH _ X4) as (Y1 & Y2 & Y3 & Y4). split_and!; try congruence. done. }
  destruct (Hf [TableAccounts; TableTellers; TableBranches] m1 empty_live) as (E1 & E2 & E3 & E4).
  split_and!; [by eapply frame_inv|by rewrite (fr_txns _ _ F)|by rewrite (fr_next _ _ F)|by rewrite (fr_aborted _ _ F)|done|done|done|by rewrite reseed_catalog|done|].
  intros table key. rewrite reseed_rows; [|exact empty_live|apply (bool_decide_unpack _); by vm_compute].
  change (m_Catalog m1) with (seeded_catalog cfg). rewrite seeded_rows. replace (row_versions m1 table key) with (@nil Version) by done. rewrite app_nil_r.
  case_bool_decide as Hm; [done|]. rewrite opening_lookup. destruct (opening_balance cfg table) as [[n v]|] eqn:Ho; [|done]. by apply opening_money in Ho.
Qed.

Lemma opening_idle_mvcc : mvcc_idle (r_mgr (NewRunner (W := W) locks cfg bm)) (opening cfg).
Proof.
  destruct new_mgr as (A1 & A2 & A3 & A4 & A5 & A6 & A7 & A8 & A9 & A10). split; [|done]. split; try done.
  intros table key. rewrite A10, A3, A4. destruct (opening cfg !! (table, key)) as [v|]; [|done]. cbn. exists 0%N, 0%N, []. split_and!; done.
Qed.

Lemma opening_idle_pl : pl_idle (r_mgr (NewRunner (W := W) locks cfg bm)) (opening cfg).
Proof.
  destruct new_mgr as (A1 & A2 & A3 & A4 & A5 & A6 & A7 & A8 & A9 & A10). split; [|done]. split; try done.
  - intros table Hm. rewrite A8. unfold Lookup. rewrite seeded_lookup. pose proof (bench_tables table) as Hb. by destruct (bench_catalog !! table).
  - intros table key. rewrite <-seeded_rows. unfold row_of, catalog_row. rewrite A8. by destruct (Lookup (seeded_catalog cfg) table).
Qed.

Definition in_range (d : Draw) : Prop := d_acct d < NumAccounts cfg /\ d_tel d < NumTellers cfg /\ d_br d < NumBranches cfg.

Lemma key_drawn i n : i < n -> pretty i ∈ keys n.
Proof. intros Hi. apply list_elem_of_fmap. exists i. split; [done|]. apply elem_of_seq. lia. Qed.

Lemma in_range_drawn d : in_range d -> drawn (opening cfg) d.
Proof.
  intros (H1 & H2 & H3). unfold drawn, targets. rewrite !Forall_cons, !opening_lookup. cbn [opening_balance].
  split_and!; [..|by constructor]; cbn; (rewrite decide_True by (by apply key_drawn)); by eexists.
Qed.

Lemma opening_keys : keys_of (opening cfg) TableAccounts (keys (NumAccounts cfg)).
Proof.
  split; [apply keys_NoDup|]. intros key. rewrite opening_lookup. cbn. case_decide; [|split; [done|by intros []]]. split; [by eexists|done].
Qed.
End Opening.

(** C15. A run of the benchmark with one worker, under either protocol and at
    every isolation level, ends, and refines a ledger: each transaction is
    posted to its three rows once or, when all of its attempts failed or it
    was cancelled, not at all; the tables then show exactly the ledger's
    balances; the counters are those of the ledger, every failed attempt is
    counted, and the check reports whether all balances are finite. Under
    MVCC no attempt fails. *)
Theorem bank_run {L W} `{LockService L} `{WALWriter W} (locks : L) cfg bm txns :
  Forall (fun t => in_range cfg t.1) txns -> (N.of_nat (length txns * tries cfg) + 8 < two64)%N ->
  exists (r : @Runner L W) res marks, RunCtx txns (NewRunner locks cfg bm) = Some (r, res) /\ length marks = length txns
    /\ Forall (shows cfg (r_mgr r) (ledger (opening cfg) txns.*1 marks)) money
    /\ br_Committed res = count_true marks /\ h_total (br_LatencyHist res) = br_Committed res
    /\ br_TotalTxns res = (br_Committed res + br_Aborted res)%Z
    /\ (0 <= br_Deadlocks res /\ 0 <= br_Conflicts res /\ br_Deadlocks res + br_Conflicts res <= br_Aborted res <= Z.of_nat (length txns * tries cfg))%Z
    /\ (br_BalanceSumOK res = true <-> Forall (finite_in (ledger (opening cfg) txns.*1 marks)) money)
    /\ (Protocol cfg = ProtocolMVCC -> br_Aborted res = 0%Z /\ marks = uncancelled cfg <$> txns.*2).
Proof.
  intros Hd Hr. assert (Hroom : room (r_mgr (NewRunner (W := W) locks cfg bm)) (N.of_nat (length txns * tries cfg) + 5)).
  { destruct (new_mgr (W := W) locks cfg bm) as (_ & _ & Hn & _). unfold room. rewrite Hn. lia. }
  assert (Hdr : Forall (fun t => drawn (opening cfg) t.1) txns) by (apply (Forall_impl _ _ _ Hd); intros t; apply in_range_drawn).
  assert (Hk : keys_of (opening cfg) TableAccounts (keys (NumAccounts cfg))) by apply opening_keys.
  assert (Hlen : length (keys (NumAccounts cfg)) = NumAccounts cfg) by (unfold keys; by rewrite length_fmap, length_seq).
  pose proof (opening_idle_mvcc (W := W) locks cfg bm) as Hm. pose proof (opening_idle_pl (W := W) locks cfg bm) as Hp.
  destruct cfg as [nb nt na conc [|] iso retries].
  - exact (@RunCtx_ok L W _ _ (mkBConfig nb nt na conc Protocol2PL iso retries) (bank_pl iso) (bank_pl_laws iso) txns (NewRunner locks _ bm) _ _
      eq_refl eq_refl eq_refl Hp Hdr Hk Hlen Hroom).
  - exact (@RunCtx_ok L W _ _ (mkBConfig nb nt na conc ProtocolMVCC iso retries) (bank_mvcc iso) (bank_mvcc_laws iso) txns (NewRunner locks _ bm) _ _
      eq_refl eq_refl eq_refl Hm Hdr Hk Hlen Hroom).
Qed.

Module BankRun.
Notation BMgr := (Mgr (@LockSt unit) unit).

(** [rng.Float64()] is 0.75, so that the amount is 50. *)
Definition three_quarters : N := float_bits (SpecFloat.S754_finite false 6755399441055744 (-53)).

Definition small (p : ConcurrencyProtocol) (iso : IsolationLevel) : Config := mkBConfig 1 2 1 2 p iso 5.

Definition draw (teller : nat) : Draw := mkDraw 0 teller 0 three_quarters.

Definition two_txns : list (Draw * list Sight) := [(draw 0, []); (draw 1, [mkSight false 3])].

Lemma bank_run_witness :
  exists (r : @Runner (@LockSt unit) unit) res,
    RunCtx two_txns (NewRunner (lock_init tt) (small ProtocolMVCC Serializable) None) = Some (r, res)
    /\ br_Committed res = 2%Z /\ br_TotalTxns res = 2%Z
    /\ shows (small ProtocolMVCC Serializable) (r_mgr r) (ledger (opening (small ProtocolMVCC Serializable)) [draw 0; draw 1] [true; true]) TableAccounts.
Proof.
  destruct (bank_run (W := unit) (lock_init tt : @LockSt unit) (small ProtocolMVCC Serializable) None two_txns)
    as (r & res & marks & Hrun & _ & Hshow & Hc & _ & Ht & _ & _ & Hm).
  - repeat constructor; cbn; lia.
  - reflexivity.
  - destruct (Hm eq_refl) as [Ha ->]. exists r, res. split; [exact Hrun|].
    assert (Hc2 : br_Committed res = 2%Z) by (rewrite Hc; reflexivity).
    split; [exact Hc2|]. split; [rewrite Ht, Hc2, Ha; reflexivity|]. exact (Forall_inv Hshow).
Defined.

(** *** Two workers at the default isolation level

    The first has read the account when the second runs to its end. *)

Definition lossy : Config := small ProtocolMVCC ReadCommitted.
Definition lossy_steps : list nat := [0; 0] ++ replicate 8 1 ++ replicate 6 0.

Definition lossy_end : option (BMgr * list (Draw * Worker)) :=
  sched lossy (r_mgr (NewRunner (lock_init tt) lossy None)) [(draw 0, WBegin); (draw 1, WBegin)] lossy_steps.

Definition is_row (o : option (list Row)) (key : string) (v : N) : bool :=
  match o with Some [row] => String.eqb (row_Key row) key && bool_decide (row_Values row = bal v) | _ => false end.

Definition lossy_checked (o : option (BMgr * list (Draw * Worker))) : bool :=
  match o with
  | Some (m, [(_, WDone None); (_, WDone None)]) =>
      is_row (scanAll lossy m TableAccounts).2 "0" (intf 1050) && is_row (scanAll lossy m TableBranches).2 "0" (intf 100)
      && (checkInvariant lossy m).2
  | _ => false
  end.

Lemma is_row_sound o key v : is_row o key v = true -> o = Some [mkRow key (bal v)].
Proof.
  unfold is_row. destruct o as [[|[k w] [|]]|]; try done. cbn. intros [->%String.eqb_eq ->%bool_decide_eq_true]%andb_true_iff. done.
Qed.

Lemma lossy_sound o : lossy_checked o = true ->
  exists m ws, o = Some (m, ws) /\ ws.*2 = [WDone None; WDone None]
    /\ (scanAll lossy m TableAccounts).2 = Some [mkRow "0" (bal (intf 1050))]
    /\ (scanAll lossy m TableBranches).2 = Some [mkRow "0" (bal (intf 100))]
    /\ (checkInvariant lossy m).2 = true.
Proof.
  unfold lossy_checked. destruct o as [[m [|[d1 [| | | |[|]]] [|[d2 [| | | |[|]]] [|]]]]|]; try done.
  intros [[H1%is_row_sound H2%is_row_sound]%andb_true_iff H3]%andb_true_iff. eexists m, _. split; [done|]. done.
Qed.

Lemma lossy_true : lossy_checked lossy_end = true.
Proof. vm_cast_no_check (eq_refl true). Qed.

(** Two workers, each of which commits an addition of 50 to the one account,
    under the protocol and the isolation level of the default
    configuration: the account has gained 50 and the branch 100, no attempt
    failed, and the check at the end is content. *)
Theorem bank_loses_money :
  ledger (opening lossy) [draw 0; draw 1] [true; true] !! (TableAccounts, "0") = Some (intf 1100)
  /\ exists m ws, lossy_end = Some (m, ws) /\ ws.*2 = [WDone None; WDone None]
    /\ (scanAll lossy m TableAccounts).2 = Some [mkRow "0" (bal (intf 1050))]
    /\ (scanAll lossy m TableBranches).2 = Some [mkRow "0" (bal (intf 100))]
    /\ (checkInvariant lossy m).2 = true.
Proof. split; [vm_compute; reflexivity|]. exact (lossy_sound lossy_end lossy_true). Qed.
End BankRun.
